(* ===== verification/_CoqProject ===== *)
-Q . S2P
Prelude.v
GoPath.v
Codec.v
TenantDB.v
Journal.v
Manifests.v
FileSpec.v
Refine.v
Changes.v
Lease.v
LeaseProps.v
ManifestProps.v
Revert.v
RevertProps.v
ChunkStore.v
Gc.v
Disk.v
DiskProps.v
GcProps.v
Track.v
RenameProps.v
Revs.v
ChangeProps.v
WireProps.v
ManifestEdges.v
Handlers.v
HandlerProps.v
LeaseHandlers.v
CtlStore.v
Allocations.v
AllocProps.v
Cdc.v
Seed.v
Enroll.v
EnrollProps.v
Provision.v
Mounts.v
ProvisionProps.v
MountsProps.v
SweepProps.v
Quota.v
QuotaProps.v
KeyedMutex.v
Tenants.v
TenantsProps.v
MsgGuard.v
PubSub.v
PubSubProps.v
Certs.v
Ca.v
CaProps.v
Client.v
ClientSafe.v
ClientProps.v
Jwt.v
JwtProps.v
Secrets.v
SecretsProps.v
ApiTokens.v
ApiTokenProps.v
Config.v
ConfigProps.v
Http.v
AdminApi.v
AdminProps.v
JournalWire.v
JournalProxy.v
JournalProxyProps.v
