(* ===== verification/Prelude.v ===== *)
(** * orlop: verification library

    orlop gives every agent a disk that is stored on a server.  A mount client
    (Rust, not part of this library) speaks a framed binary protocol to the data
    plane, cmd/orlop-server; the control plane, cmd/orlop-control, decides who has
    which disk, on which server and for how long.  Both are Go programs, and this
    library models their core and proves what each part promises to the others.

    ** The parts and how they interact

    - A frame arrives (dataplane/codec.go, dataplane/protocol.go: Codec.v) and is
      dispatched by the connection's identity and its opcode (dataplane_server.go:
      Handlers.v, [handleRequest]).  A handler checks the agent's subtree, the
      policy and, for a write, the session fence, and calls a store.
    - The manifest store (manifests.go: Manifests.v) keeps files, hard links,
      symlinks, special nodes and directories in the tenant's SQLite database
      (tenantdb.go: TenantDB.v).  A mutation is one transaction: it bumps the
      change counter, moves chunk reference counts, writes or clears tombstones
      and appends the inverse of the write to the session's journal (journal.go:
      Journal.v).  Paths go through GoPath.v (path.Clean, SQLite LIKE and substr).
    - The change feed (changes.go, dataplane_changes.go: Changes.v) pages through
      live rows and tombstones by revision, so that clients keep a mirror.
    - Revert (revert.go, control_journal_revert.go: Revert.v) undoes journaled
      writes by compare-and-swap on versions.
    - Leases (lease.go, lease_persist.go, mount_lease_registry.go: Lease.v) decide
      which connection may write (requests: lease_handlers.go: LeaseHandlers.v); the
      registry fences revoked mount sessions.
    - The chunk store (chunkstore.go, chunkstore_batch_posix.go: ChunkStore.v)
      holds content-addressed files; the sweeper and the purge of an agent (gc.go,
      control_purge_agent.go: Gc.v) delete them.  Disk.v interleaves uploads,
      manifest commits, sweeps and purges at the grain of single hash-shard locks,
      transactions and disk accesses.
    - Files are imported (seed.go, migrate.go: Seed.v) by cutting them into chunks
      with a rolling hash (cdc.go: Cdc.v), storing the chunks, registering the
      directories and writing the manifest.
    - The control plane's allocation service (internal/allocations:
      Allocations.v) works on the tables of internal/storage/sqlite (CtlStore.v):
      quotas, binding, mount leases with continuity tokens, placement with one
      capacity reservation per owner, resizing and purging.
    - A pod trades a single-use token for a certificate of its agent
      (internal/devauth, agent_enroll_handlers.go: Enroll.v), which may place its
      tenant; the control plane pushes the serials of revoked certificates to the
      servers (cert_revocation_reconcile.go, cert_revocation_registry.go: Enroll.v).
    - The control plane's HTTP handlers for entities (entity_handlers.go,
      tenant_usage_handlers.go, purge_sweep_handlers.go: Provision.v) provision,
      re-parent, resize and delete the disks of agents and sweep what is left to
      purge; the mount handlers and the dashboard (control_mount_handlers.go,
      dashboard_handlers.go: Mounts.v) acquire, refresh, release and force the
      lease of a mount and read usage and journal.
    - The server registers tenants at run time (control_tenants.go,
      registered_tenants.go: Tenants.v), one at a time per key (keyed_mutex.go:
      KeyedMutex.v), below a quota of their account (internal/quota,
      account_quota_async.go: Quota.v).
    - The journal's live stream (journal_pubsub.go, control_journal.go: PubSub.v)
      and the guard in front of the message decoder (dos_hardening.go: MsgGuard.v).
    - Certificates as data, and what the server reads from a verified chain
      (identity.go, cert_tenant_binding.go, handlers.go, server.go: Certs.v); the
      control plane's certificate authority (internal/ca: Ca.v).
    - The Go data client (dataclient/client.go, dataclient/errors.go: Client.v)
      reads and writes whole files of an agent over one connection; the same file
      has the server's read loop and frame writer on the other side of it.
    - Who calls the control plane: a user with a token that the host platform signed
      (internal/identity, host_identity_handlers.go: Jwt.v) or with an API token
      (internal/tokens, api_token_handlers.go: ApiTokens.v).  The certificates and
      keys of the authority are in a secret store (internal/secrets: Secrets.v).
    - The control plane calls the server's admin API (internal/serverapi/client.go,
      and the routes and handlers of server.go, control_tenants.go, control_usage.go,
      control_mount_lease.go, control_purge_agent.go: AdminApi.v) with JSON over
      HTTP (Http.v).  Through it users read the journal of their disks, page by page
      or as a live stream (journal_handlers.go, journal_stream_handler.go, the
      adapters of main.go: JournalProxy.v).
    - The server's configuration file, its defaults and the start of the sweeper's
      loop (config.go, gc.go: Config.v).

    ** How code becomes Rocq

    A struct is a record, an enumeration or a tagged union an inductive type, a
    table a finite map of row records under its primary key, with uniqueness and
    CHECK constraints as errors.  A method is a function with its source's name;
    state is passed explicitly, through the monad of transactions [tx] (TenantDB.v)
    and of statements [sop], [txn], [svc] (CtlStore.v, Allocations.v).  An error is
    a value of [result]; an error inside a transaction rolls it back.  Go strings
    are lists of [ascii], bytes and integers are [Z] with the wrap-around of their
    width written out ([u64], [i64]) where the code computes with them.  What is
    not in the repository is a parameter: the hash function (ChunkStore.v), msgpack
    as the class of its round-trip law (Journal.v), the text of JSON values and the
    router of chi as classes of what they document (Http.v, AdminApi.v), the order in which the batch
    workers run, the outcome of disk writes and of calls to other servers, clocks
    and fresh ids.  Concurrent code is a step relation over its critical sections
    (Lease.v, KeyedMutex.v, PubSub.v), its locks and transactions (Disk.v), its
    transactions (AllocProps.v), or its blocking points (the worker of Quota.v).
    A certificate carries the numbers of its own key and of the key that signed it;
    verified chains, of any length, are what crypto/x509 documents: names, signatures,
    validity, basic constraints with path lengths, key usages and URI constraints.
    A handler of the control plane is a function of the tables it finds; where its
    statements interleave with those of others they are steps of their own ([pstep],
    [astep] in ProvisionProps.v, [cstep], [bstep], [ostep] in AllocProps.v).

    ** What is proved

    - FileSpec.v is an abstract file system of names, inodes and reference counts;
      Refine.v and ManifestProps.v show that the store implements it: put, delete,
      rename and link are one abstract step each, a write succeeds exactly at the
      current version, a read gives back what was written, errors change nothing.
      RenameProps.v adds what a rename does to symlinks, special nodes and whole
      directories with unambiguous names.
    - Disk.v, DiskProps.v and GcProps.v: under every interleaving ([dstep]) the
      lock users cannot deadlock; in those without a purge transaction on an agent
      with a hard-linked file ([calm]) a file that can be read names only chunks
      that are on disk and reference counts are exact; a sweep and a purge delete
      exactly what they should, batched queries equal single ones, a chunk upload is
      read back.
    - Track.v, Revs.v and ChangeProps.v: a mirror that follows the feed converges
      to the tree after any commits but directory renames, a new client ends at the
      counter with exactly the live rows.
    - LeaseProps.v: an exclusive lease excludes every other one in every interleaving
      with snapshots, crashes and restarts, a takeover kills the old lease, a fenced
      session stays fenced, a grant returns, a snapshot restores the leases that are
      still live.
    - WireProps.v: frames and chunk columns round-trip, the frame reader accepts
      only bounded frames, journal pages are complete.
    - RevertProps.v: a revert restores the file system and never touches a path
      that somebody else has changed since.
    - HandlerProps.v: an agent's requests, reverts and renames of ambiguously named
      directories apart, do not reach outside its subtree; a request that fails has
      changed nothing, or, of the two that commit more than once, a part that is
      spelled out; the hint of a conflict is enough to retry, a listing agrees with a
      stat.
    - Cdc.v and Seed.v: chunking is a partition within the size limits that depends
      on content only, a seeded file is read back, a second migration is a no-op.
    - AllocProps.v: free bytes stay within the capacity and the books with the balance
      of single-disk resizes are exact in every order of commits, a mount lease has
      one holder whatever the others do short of force, a revocation is final, a
      release is exact, quotas hold.
    - EnrollProps.v: one certificate per token; a revoked serial is refused until it
      expires by a server that a round has reached since its last restart.
    - ProvisionProps.v, MountsProps.v and SweepProps.v: an agent has at most one
      live disk, a certificate names the live disk, agent, owner and tenant of its
      token, provisioning again returns the disk, a deleted disk stays deleted, a
      provisioned agent gets its mount, a live holder is replaced only on demand,
      the purge sweep drains its list.
    - QuotaProps.v, KeyedMutex.v and TenantsProps.v: the enforced limit is what
      was asked for, the worker ends at the last budget of every account; the
      keyed lock excludes and forgets unused keys; tenants registered at run time keep
      to their own directories and a restart brings the same ones back.
    - PubSubProps.v and MsgGuard.v: a subscriber gets every entry in order or is
      closed; no frame makes the decoder allocate more than its own length allows.
    - CaProps.v: a minted agent certificate is admitted with its tenant, user and
      agent; whoever is admitted was signed by the intermediate of that tenant, as the
      path lengths of root and intermediates leave no room for another authority.
    - ClientSafe.v and ClientProps.v: the client keeps in step with the stream
      whatever arrives, hands out only bytes that the manifest vouches for and asks
      only for paths of its agent; what it writes it reads back through the frames,
      handlers and stores of the server, and a refused write names the version at
      which it succeeds.
    - JwtProps.v, ApiTokenProps.v and SecretsProps.v: a token is accepted exactly
      when it is signed, in its window and names its host; an API token is valid
      from its creation until it is revoked or expires, and only its user can
      revoke it; both secret stores implement one map in which a write that fails is
      made whole or not at all, operations taken one after the other.
    - AdminProps.v and JournalWire.v: a call of the admin API returns what
      the handler of its route does on the state of the server, through URL, query,
      gate, router and JSON, and changes exactly that.
    - JournalProxyProps.v: a journal request reaches only the tenant of its user's
      session, for a disk that he owns where it names one, and changes no table; the
      pages are the whole journal that this tenant has of the disk, and a
      stream relays the rows of the server in order.  LeaseHandlers.v: a
      granted lease is refreshed and released over the connection that holds it, and
      over no other one.
    - ConfigProps.v: a configuration is accepted exactly when it is complete (the
      interval of the collection only has to parse), and every duration has the value
      or the default it documents;
      no schedule it admits deletes a chunk that is younger than the TTL.
    - ManifestEdges.v and the closed examples of the property files are runs that
      show where the code does not do what its comments, its design document or
      the rest of the code expect.

    ** Bounds and fuel

    The loops of the code that are not structural take fuel: the sweep (its budget
    of batches, gc.go), the client's paging through feed and journal (one more
    than the number of rows), the chunking loop (the number of bytes, a chunk is
    never empty), [Grant]'s retry loop, and the GLOB matcher and the
    decimal printer (the length of the text), and the client's wait for its answer and
    its upload loop (the number of bytes).  The theorems that need a result show that the fuel is enough, or
    hold for every fuel.  Counters are unbounded where SQLite's 64 bits are not
    reached; where they matter the theorem has the bound as a hypothesis.

    ** Not modelled

    Listeners, TLS and the routing of the control plane's own HTTP interface (the
    handlers are called directly; the server's admin router is modelled), and what is library code: cryptography, X.509
    and PEM parsing, the decoders of JSON, YAML and JWT (a decoded value, a verified
    chain or the result of a signature check is an argument).  Migrations of old
    databases, audit rows and metrics, the Postgres store (generated from the same
    statements), the start-up of the control plane and its commands, and the HTTP
    client libraries, which only wrap a request each. *)

From stdpp Require Export prelude gmap strings list fin_maps sets sorting.
From Stdlib Require Export ZArith Lia Ascii.

#[export] Set Default Goal Selector "!".
#[global] Open Scope Z_scope.

(** ** Go strings

    A Go string is a sequence of bytes.  It is modelled as a list of [ascii],
    so that the list library carries prefixes, suffixes and slices. *)

Abbreviation gostr := (list ascii).

Definition str (s : string) : gostr := String.list_ascii_of_string s.

(** ** Machine integers: [uint64] and [uint32] arithmetic wraps. *)

Definition u64 (z : Z) : Z := z mod 2 ^ 64.
Definition u32 (z : Z) : Z := z mod 2 ^ 32.

(** The conversion [int64(v)] of a [uint64]. *)
Definition i64 (z : Z) : Z := (z + 2 ^ 63) mod 2 ^ 64 - 2 ^ 63.

Lemma i64_small z : - 2 ^ 63 <= z < 2 ^ 63 -> i64 z = z.
Proof. intros ?. unfold i64. rewrite Z.mod_small by lia. lia. Qed.

Lemma u32_small z : 0 <= z < 2 ^ 32 -> u32 z = z.
Proof. intros ?. unfold u32. by apply Z.mod_small. Qed.

Lemma u64_i64 z : 0 <= z < 2 ^ 64 -> u64 (i64 z) = z.
Proof.
  intros Hz. unfold u64, i64. rewrite Zminus_mod_idemp_l.
  replace (z + 2 ^ 63 - 2 ^ 63) with z by lia. by apply Z.mod_small.
Qed.

(** ** Errors as values *)

Inductive result (E A : Type) : Type :=
| Ok (a : A)
| Err (e : E).
Arguments Ok {E A} a.
Arguments Err {E A} e.

Definition is_ok {E A} (r : result E A) : bool :=
  match r with Ok _ => true | Err _ => false end.

(** ** Sums over finite maps *)

Definition map_sum `{Countable K} {A} (f : A -> Z) (m : gmap K A) : Z :=
  map_fold (fun _ x acc => f x + acc) 0 m.

(** ** Rekeying a table: SQL [update t set key = ...] on the rows that satisfy
    a condition.  [None] is the primary-key violation: two rows of the result
    would share a key.  (SQLite checks the key row by row: where the new key of
    a row is the old key of another updated row its outcome depends on the scan
    order, and [rekey] is the outcome of the whole statement.) *)

Definition rekey_rows `{Countable K} {A} (c : K -> bool) (nk : K -> K)
    (f : A -> A) (m : gmap K A) : list (K * A) :=
  (fun kx => (nk kx.1, f kx.2)) <$> map_to_list (filter (fun kx => c kx.1 = true) m).

Definition rekey `{Countable K} {A} (c : K -> bool) (nk : K -> K)
    (f : A -> A) (m : gmap K A) : option (gmap K A) :=
  let moved := rekey_rows c nk f m in
  let kept := filter (fun kx => c kx.1 = false) m in
  if decide (NoDup moved.*1 /\ Forall (fun k => kept !! k = None) moved.*1)
  then Some (list_to_map moved ∪ kept)
  else None.

(** ** Byte-wise order on strings: Go's [<] and SQLite's binary collation. *)

Fixpoint str_ltb (a b : gostr) : bool :=
  match a, b with
  | _, [] => false
  | [], _ :: _ => true
  | x :: a', y :: b' =>
      (N_of_ascii x <? N_of_ascii y)%N || ((N_of_ascii x =? N_of_ascii y)%N && str_ltb a' b')
  end.

(** ** Keyset pagination

    [order by key limit n] over the rows whose key is after a cursor. *)

Definition page {A} (after : A -> bool) (n : nat) (l : list A) : list A :=
  take n (filter (fun x => after x = true) l).

(** ** Lemmas on sums *)

Section map_sum.
Context `{Countable K} {A : Type}.
Implicit Types (f : A -> Z) (m : gmap K A).

Lemma map_sum_empty f : map_sum f (∅ : gmap K A) = 0.
Proof. unfold map_sum. by rewrite map_fold_empty. Qed.

Lemma map_sum_insert f m k x :
  m !! k = None -> map_sum f (<[k:=x]> m) = f x + map_sum f m.
Proof.
  intros Hk. unfold map_sum. rewrite map_fold_insert_L; [done | lia | done].
Qed.

Lemma map_sum_delete f m k x :
  m !! k = Some x -> map_sum f m = f x + map_sum f (delete k m).
Proof.
  intros Hk. rewrite <- (map_sum_insert f (delete k m) k x).
  - by rewrite insert_delete_id.
  - apply lookup_delete_eq.
Qed.

Lemma map_sum_replace f m k x y :
  m !! k = Some x -> map_sum f (<[k:=y]> m) = map_sum f m + f y - f x.
Proof.
  intros Hk. rewrite (map_sum_delete f m k x Hk).
  rewrite <- insert_delete_eq, map_sum_insert by apply lookup_delete_eq. lia.
Qed.

Lemma map_sum_ge f m k x :
  (forall y, 0 <= f y) -> m !! k = Some x -> f x <= map_sum f m.
Proof.
  intros Hf Hk. rewrite (map_sum_delete f m k x Hk).
  enough (0 <= map_sum f (delete k m)) by lia.
  generalize (delete k m). intros m'. clear -Hf.
  induction m' as [|i y m' Hi IH] using map_ind; [by rewrite map_sum_empty |].
  rewrite map_sum_insert by done. specialize (Hf y). lia.
Qed.

Lemma map_sum_fmap {B} (g : B -> A) f (m : gmap K B) : map_sum f (g <$> m) = map_sum (fun x => f (g x)) m.
Proof.
  induction m as [|i y m Hi IH] using map_ind; [by rewrite fmap_empty, !map_sum_empty |].
  rewrite fmap_insert, map_sum_insert by (by rewrite lookup_fmap, Hi). rewrite IH.
  unfold map_sum at 2. rewrite map_fold_insert_L; [done | lia | done].
Qed.

Lemma map_sum_nonneg f m : (forall y, 0 <= f y) -> 0 <= map_sum f m.
Proof.
  intros Hf. induction m as [|i y m Hi IH] using map_ind; [by rewrite map_sum_empty |].
  rewrite map_sum_insert by done. specialize (Hf y). lia.
Qed.
End map_sum.

(** ** Lemmas on lists *)

Lemma NoDup_fmap_elem {A B} (g : A -> B) (l : list A) x y :
  NoDup (g <$> l) -> x ∈ l -> y ∈ l -> g x = g y -> x = y.
Proof.
  induction l as [|a l IH]; [by rewrite list_elem_of_nil || inversion 2 |].
  rewrite fmap_cons, NoDup_cons. intros [Hni Hnd].
  rewrite !elem_of_cons. intros [->|Hx] [->|Hy] Hg; [done | | | by apply IH].
  - destruct Hni. rewrite Hg. by apply list_elem_of_fmap_2.
  - destruct Hni. rewrite <- Hg. by apply list_elem_of_fmap_2.
Qed.

(** A function that separates elements at least as well as another one with
    distinct values has distinct values. *)
Lemma NoDup_fmap_via {A B C} (f : A -> B) (g : A -> C) (l : list A) :
  NoDup (f <$> l) -> (forall x y, x ∈ l -> y ∈ l -> g x = g y -> f x = f y) -> NoDup (g <$> l).
Proof.
  induction l as [|x l IH]; intros Hn Hg; [constructor |].
  rewrite fmap_cons in Hn. rewrite fmap_cons. apply NoDup_cons in Hn as [Hx Hn]. constructor.
  - intros (y & Hy & Hin)%list_elem_of_fmap. apply Hx.
    rewrite (Hg x y); [by apply list_elem_of_fmap_2 | by left | by right | done].
  - apply IH; [done |]. intros a b Ha Hb. apply Hg; by right.
Qed.

(** ** Lemmas on rekeying *)

Section rekey.
Context `{Countable K} {A : Type}.
Implicit Types (m : gmap K A) (c : K -> bool).

Lemma elem_of_rekey_rows c nk f m k x :
  (k, x) ∈ rekey_rows c nk f m <->
  exists k0 x0, m !! k0 = Some x0 /\ c k0 = true /\ k = nk k0 /\ x = f x0.
Proof.
  unfold rekey_rows. rewrite list_elem_of_fmap. split.
  - intros [[k0 x0] [[= -> ->] Hin]].
    apply elem_of_map_to_list, map_lookup_filter_Some in Hin as [Hl Hc]. eauto 10.
  - intros (k0 & x0 & Hl & Hc & -> & ->). exists (k0, x0). split; [done |].
    by apply elem_of_map_to_list, map_lookup_filter_Some.
Qed.

(** A row of the result is a moved row or an untouched one. *)
Lemma rekey_lookup c nk f m m' k x :
  rekey c nk f m = Some m' ->
  m' !! k = Some x <->
  (exists k0 x0, m !! k0 = Some x0 /\ c k0 = true /\ k = nk k0 /\ x = f x0) \/
  (m !! k = Some x /\ c k = false).
Proof.
  unfold rekey. case_decide as HD; [| done]. destruct HD as [Hnd Hfa].
  intros [= <-]. rewrite lookup_union_Some.
  - rewrite <- elem_of_list_to_map by done. rewrite elem_of_rekey_rows.
    by rewrite map_lookup_filter_Some.
  - apply map_disjoint_list_to_map_l. rewrite Forall_fmap in Hfa. exact Hfa.
Qed.

(** No two moved rows land on the same key. *)
Lemma rekey_inj c nk f m m' k1 k2 x1 x2 :
  rekey c nk f m = Some m' ->
  m !! k1 = Some x1 -> m !! k2 = Some x2 ->
  c k1 = true -> c k2 = true -> nk k1 = nk k2 -> k1 = k2.
Proof.
  unfold rekey. case_decide as HD; [| done]. destruct HD as [Hnd _].
  intros _ H1 H2 C1 C2 Hk. unfold rekey_rows in Hnd.
  rewrite <- list_fmap_compose in Hnd.
  enough ((k1, x1) = (k2, x2)) by congruence.
  eapply (NoDup_fmap_elem _ _ _ _ Hnd).
  - by apply elem_of_map_to_list, map_lookup_filter_Some.
  - by apply elem_of_map_to_list, map_lookup_filter_Some.
  - done.
Qed.
End rekey.

(** ** Lemmas on the string order *)

Lemma str_ltb_irrefl a : str_ltb a a = false.
Proof.
  induction a as [|x a IH]; simpl; [done |].
  by rewrite IH, N.ltb_irrefl, andb_false_r.
Qed.

Lemma str_ltb_trans a b c : str_ltb a b = true -> str_ltb b c = true -> str_ltb a c = true.
Proof.
  revert b c. induction a as [|x a IH]; intros [|y b] [|z c]; simpl; try done.
  rewrite !orb_true_iff, !andb_true_iff, !N.ltb_lt, !N.eqb_eq.
  intros [H1|[H1 H1']] [H2|[H2 H2']]; [left; lia | left; lia | left; lia |].
  right. split; [lia | by eapply IH].
Qed.

Lemma str_ltb_total a b : str_ltb a b = false -> str_ltb b a = false -> a = b.
Proof.
  revert b. induction a as [|x a IH]; intros [|y b]; simpl; try done.
  rewrite !orb_false_iff, !andb_false_iff, !N.ltb_ge, !N.eqb_neq.
  intros [H1 H1'] [H2 H2'].
  assert (N_of_ascii x = N_of_ascii y) as Hxy by lia.
  f_equal.
  - by rewrite <- (ascii_N_embedding x), <- (ascii_N_embedding y), Hxy.
  - apply IH; [destruct H1' | destruct H2']; congruence.
Qed.

(** ** Keyset pagination visits every row once, in order. *)

Section pagination.
Context {A : Type} (lt : A -> A -> bool).
Hypothesis lt_irrefl : forall x, lt x x = false.
Hypothesis lt_trans : forall x y z, lt x y = true -> lt y z = true -> lt x z = true.

Definition sorted_by (l : list A) : Prop := StronglySorted (fun x y => lt x y = true) l.

Lemma filter_all_true (f : A -> bool) l :
  Forall (fun y => f y = true) l -> filter (fun y => f y = true) l = l.
Proof.
  induction 1 as [|y l Hy Hl IH]; [done |]. by rewrite filter_cons_True, IH.
Qed.

Lemma filter_all_false (f : A -> bool) l :
  Forall (fun y => f y = false) l -> filter (fun y => f y = true) l = [].
Proof.
  induction 1 as [|y l Hy Hl IH]; [done |].
  rewrite filter_cons_False, IH; [done | congruence].
Qed.

Lemma sorted_by_app l1 x l2 :
  sorted_by (l1 ++ x :: l2) ->
  Forall (fun y => lt y x = true) l1 /\ Forall (fun y => lt x y = true) l2.
Proof.
  induction l1 as [|y l1 IH]; simpl; intros H; apply StronglySorted_inv in H as [Hs Hf].
  - done.
  - destruct (IH Hs) as [H1 H2]. split; [| done]. constructor; [| done].
    rewrite Forall_app, Forall_cons in Hf. tauto.
Qed.

(** The rows after a row of the list are the ones that follow it. *)
Lemma filter_after l1 x l2 :
  sorted_by (l1 ++ x :: l2) ->
  filter (fun y => lt x y = true) (l1 ++ x :: l2) = l2.
Proof.
  intros [H1 H2]%sorted_by_app. rewrite filter_app, filter_all_false.
  - rewrite filter_cons_False; [by apply filter_all_true |]. by rewrite lt_irrefl.
  - eapply Forall_impl; [exact H1 |]. intros y Hy. simpl.
    destruct (lt x y) eqn:E; [| done].
    rewrite <- (lt_irrefl x). symmetry. by eapply lt_trans.
Qed.

(** The client's loop: fetch a page, resume from its last row, stop at a
    short page. *)
Fixpoint walk (fuel n : nat) (after : A -> bool) (l : list A) : option (list A) :=
  match fuel with
  | O => None
  | S fuel' =>
      let pg := page after n l in
      if (length pg <? n)%nat then Some pg
      else match last pg with
           | None => Some pg
           | Some x => rest ← walk fuel' n (lt x) l; Some (pg ++ rest)
           end
  end.

Lemma walk_from fuel n l pre suf after :
  sorted_by l -> (0 < n)%nat -> l = pre ++ suf ->
  filter (fun y => after y = true) l = suf -> (length suf < fuel)%nat ->
  walk fuel n after l = Some suf.
Proof.
  intros Hs Hn. revert pre suf after.
  induction fuel as [|fuel IH]; intros pre suf after Hl Ha Hf; [lia |].
  cbn [walk]. unfold page. rewrite Ha.
  destruct (Nat.ltb_spec (length (take n suf)) n) as [Hlt|Hge].
  - rewrite take_ge; [done |]. rewrite length_take in Hlt. lia.
  - rewrite length_take in Hge.
    destruct (last (take n suf)) as [x|] eqn:Hx.
    + apply last_Some in Hx as [l' Hl'].
      assert (l = (pre ++ l') ++ x :: drop n suf) as Hsuf.
      { rewrite Hl, <- (take_drop n suf) at 1. by rewrite Hl', <- !app_assoc. }
      rewrite (IH ((pre ++ l') ++ [x]) (drop n suf)).
      * simpl. by rewrite take_drop.
      * rewrite Hsuf at 1. by rewrite <- (app_assoc (pre ++ l') [x]).
      * rewrite Hsuf in Hs |- *. by rewrite filter_after.
      * rewrite length_drop. lia.
    + apply last_None in Hx. destruct suf; [simpl in *; lia |]. by destruct n; [lia |].
Qed.

Lemma walk_all fuel n l after :
  sorted_by l -> (0 < n)%nat -> Forall (fun y => after y = true) l ->
  (length l < fuel)%nat -> walk fuel n after l = Some l.
Proof.
  intros Hs Hn Ha Hf. apply (walk_from fuel n l [] l); try done.
  by apply filter_all_true.
Qed.
End pagination.
