(* ===== verification/GoPath.v ===== *)
(** * Paths and string patterns

    The string operations the data plane applies to paths: Go's [path.Clean],
    [path.Dir] and [path.Base], [strings.TrimPrefix] and [strings.HasPrefix],
    the server's own [splitParentName] (manifests.go), [joinVirtual]
    (dataplane_server.go), [policyPath] (policy.go) and [escapeLike]
    (control_purge_agent.go), and the SQLite operators the queries rely on:
    [LIKE] with and without [ESCAPE], [GLOB] and [substr].

    SQLite works on UTF-8 characters where Go works on bytes: [chars] cuts a
    byte string into the characters SQLite sees. *)

From S2P Require Import Prelude.

(** ** Characters and segments *)

Definition slash : ascii := "/"%char.
Definition dot : ascii := "."%char.

(** [strings.Split(s, "/")]. *)
Fixpoint split_slash (s : gostr) : list gostr :=
  match s with
  | [] => [[]]
  | c :: s' =>
      if decide (c = slash) then [] :: split_slash s'
      else match split_slash s' with
           | [] => [[c]]
           | seg :: segs => (c :: seg) :: segs
           end
  end.

(** Segments joined with a leading slash each: ["a";"b"] is "/a/b". *)
Definition mkpath (segs : list gostr) : gostr :=
  concat ((fun s => slash :: s) <$> segs).

(** [strings.Join(segs, "/")]. *)
Fixpoint join_slash (segs : list gostr) : gostr :=
  match segs with
  | [] => []
  | [s] => s
  | s :: segs' => s ++ slash :: join_slash segs'
  end.

(** ** Go's [path] package *)

Definition rooted (p : gostr) : bool :=
  match p with c :: _ => bool_decide (c = slash) | [] => false end.

(** One segment of [path.Clean]: [out] is the stack of kept segments, innermost
    first. *)
Definition clean_step (rt : bool) (out : list gostr) (seg : gostr) : list gostr :=
  if decide (seg = [] \/ seg = [dot]) then out
  else if decide (seg = [dot; dot]) then
    match out with
    | [] => if rt then [] else [seg]
    | top :: out' => if decide (top = [dot; dot]) then seg :: out else out'
    end
  else seg :: out.

Definition clean_segs (rt : bool) (segs : list gostr) : list gostr :=
  reverse (foldl (clean_step rt) [] segs).

(** [path.Clean]. *)
Definition Clean (p : gostr) : gostr :=
  match p with
  | [] => [dot]
  | _ =>
      let out := clean_segs (rooted p) (split_slash p) in
      if rooted p then slash :: join_slash out
      else match out with [] => [dot] | _ => join_slash out end
  end.

(** The part of a path up to and including its last slash. *)
Fixpoint upto_last_slash (p : gostr) : gostr :=
  match p with
  | [] => []
  | c :: p' =>
      if decide (slash ∈ p') then c :: upto_last_slash p'
      else if decide (c = slash) then [c] else []
  end.

(** [path.Dir]. *)
Definition Dir (p : gostr) : gostr := Clean (upto_last_slash p).

Fixpoint trim_left_slash (p : gostr) : gostr :=
  match p with
  | c :: p' => if decide (c = slash) then trim_left_slash p' else p
  | [] => []
  end.

Definition trim_right_slash (p : gostr) : gostr :=
  reverse (trim_left_slash (reverse p)).

(** [strings.Trim(s, slash)]. *)
Definition trim_slashes (p : gostr) : gostr := trim_left_slash (trim_right_slash p).

(** [path.Base]. *)
Definition Base (p : gostr) : gostr :=
  match p with
  | [] => [dot]
  | _ =>
      let q := trim_right_slash p in
      let b := default [] (last (split_slash q)) in
      match b with [] => [slash] | _ => b end
  end.

(** ** Go's [strings] package *)

Definition HasPrefix (s pre : gostr) : bool := bool_decide (pre `prefix_of` s).

Definition TrimPrefix (s pre : gostr) : gostr :=
  if HasPrefix s pre then drop (length pre) s else s.

(** ** The server's path helpers *)

Definition splitParentName (p : gostr) : gostr * gostr :=
  let clean := Clean p in
  if decide (clean = [slash] \/ clean = [dot]) then ([slash], [])
  else
    let parent := Dir clean in
    (parent, TrimPrefix (TrimPrefix clean parent) [slash]).

Definition joinVirtual (parent name : gostr) : gostr :=
  if decide (parent = [slash]) then slash :: name
  else trim_right_slash parent ++ slash :: name.

Fixpoint after_first_slash (s : gostr) : gostr :=
  match s with
  | [] => []
  | c :: s' => if decide (c = slash) then s' else after_first_slash s'
  end.

Definition policyPath (virtualPath : gostr) : gostr :=
  after_first_slash (trim_left_slash virtualPath).

(** The SQL expression [case when parent = '/' then '/' || name else
    parent || '/' || name end]. *)
Definition sqlFullPath (parent name : gostr) : gostr :=
  if decide (parent = [slash]) then slash :: name else parent ++ slash :: name.

Definition escapeLike (s : gostr) : gostr :=
  s ≫= fun c =>
    if decide (c = "\"%char) then str "\\"
    else if decide (c = "%"%char) then str "\%"
    else if decide (c = "_"%char) then str "\_"
    else [c].

(** ** SQLite characters *)

Definition byteval (c : ascii) : Z := Z.of_N (N_of_ascii c).

Definition is_cont (c : ascii) : bool := (128 <=? byteval c) && (byteval c <? 192).
Definition is_lead (c : ascii) : bool := 192 <=? byteval c.
Definition is_ascii7 (c : ascii) : bool := byteval c <? 128.

Definition is_cont_char (ch : gostr) : bool :=
  match ch with [c] => is_cont c | _ => false end.

Fixpoint take_cont (l : list gostr) : gostr * list gostr :=
  match l with
  | ch :: l' =>
      if is_cont_char ch then let '(c, r) := take_cont l' in (ch ++ c, r) else ([], l)
  | [] => ([], [])
  end.

(** The characters of a byte string: a lead byte takes the continuation bytes
    that follow it, every other byte stands for itself. *)
Fixpoint chars (s : gostr) : list gostr :=
  match s with
  | [] => []
  | b :: s' =>
      if is_lead b then let '(c, r) := take_cont (chars s') in (b :: c) :: r
      else [b] :: chars s'
  end.

(** SQL [substr(s, n)]: the characters from the [n]-th on, counted from 1. *)
Definition sql_substr (s : gostr) (n : Z) : gostr :=
  concat (drop (Z.to_nat (n - 1)) (chars s)).

(** ** [LIKE]: [%] is any sequence, [_] any one character, letters of the
    ASCII range match in either case. *)

Definition lower (c : ascii) : Z :=
  let v := byteval c in if (65 <=? v) && (v <=? 90) then v + 32 else v.

Definition char_eqci (a b : gostr) : bool :=
  bool_decide (a = b) ||
  match a, b with [x], [y] => lower x =? lower y | _, _ => false end.

Fixpoint like_chars (esc : option ascii) (pat : list gostr) (s : list gostr) : bool :=
  match pat with
  | [] => bool_decide (s = [])
  | c :: pat' =>
      if decide (c = ["%"%char]) then
        (fix any (s : list gostr) : bool :=
           like_chars esc pat' s ||
           match s with [] => false | _ :: s' => any s' end) s
      else if decide (Some c = (fun e => [e]) <$> esc) then
        match pat' with
        | [] => false
        | c2 :: pat'' =>
            match s with
            | [] => false
            | d :: s' => char_eqci c2 d && like_chars esc pat'' s'
            end
        end
      else
        match s with
        | [] => false
        | d :: s' =>
            (bool_decide (c = ["_"%char]) || char_eqci c d) && like_chars esc pat' s'
        end
  end.

Definition like (pat s : gostr) : bool := like_chars None (chars pat) (chars s).
Definition like_esc (pat s : gostr) : bool :=
  like_chars (Some "\"%char) (chars pat) (chars s).

(** ** [GLOB]: [*], [?] and [[...]] sets, case sensitive. *)

Fixpoint char_leb (a b : gostr) : bool :=
  match a, b with
  | [], _ => true
  | _ :: _, [] => false
  | x :: a', y :: b' =>
      if byteval x =? byteval y then char_leb a' b' else byteval x <? byteval y
  end.

(** The body of a set: [prior] is the last literal, [seen] whether the
    character [c] matched so far.  [None] when no [\]] closes the set. *)
Fixpoint glob_set (c : gostr) (prior : option gostr) (seen : bool)
    (pat : list gostr) : option (bool * list gostr) :=
  match pat with
  | [] => None
  | p :: pat' =>
      if decide (p = ["]"%char]) then Some (seen, pat')
      else
        match prior, pat' with
        | Some lo, hi :: pat'' =>
            if decide (p = ["-"%char] /\ hi <> ["]"%char]) then
              glob_set c None (seen || (char_leb lo c && char_leb c hi)) pat''
            else glob_set c (Some p) (seen || bool_decide (c = p)) pat'
        | _, _ => glob_set c (Some p) (seen || bool_decide (c = p)) pat'
        end
  end.

Definition glob_class (c : gostr) (pat : list gostr) : option (bool * list gostr) :=
  let '(inv, pat) :=
    match pat with p :: pat' => if decide (p = ["^"%char]) then (true, pat') else (false, pat)
                 | [] => (false, pat) end in
  let r :=
    match pat with
    | p :: pat' =>
        if decide (p = ["]"%char]) then glob_set c None (bool_decide (c = ["]"%char])) pat'
        else glob_set c None false pat
    | [] => None
    end in
  (fun sr => (xorb sr.1 inv, sr.2)) <$> r.

(** [fuel] bounds the pattern; every recursive call drops a pattern character. *)
Fixpoint glob_chars (fuel : nat) (pat s : list gostr) : bool :=
  match fuel with
  | O => bool_decide (s = [])
  | S fuel =>
      match pat with
      | [] => bool_decide (s = [])
      | p :: pat' =>
          if decide (p = ["*"%char]) then
            (fix any (s : list gostr) : bool :=
               glob_chars fuel pat' s ||
               match s with [] => false | _ :: s' => any s' end) s
          else
            match s with
            | [] => false
            | d :: s' =>
                if decide (p = ["?"%char]) then glob_chars fuel pat' s'
                else if decide (p = ["["%char]) then
                  match glob_class d pat' with
                  | Some (true, pat'') => glob_chars fuel pat'' s'
                  | _ => false
                  end
                else bool_decide (p = d) && glob_chars fuel pat' s'
            end
      end
  end.

Definition glob (pat s : gostr) : bool :=
  glob_chars (length (chars pat)) (chars pat) (chars s).

(** ** Canonical paths: what [path.Clean] returns on a rooted path. *)

Definition good_seg (s : gostr) : Prop :=
  s <> [] /\ s <> [dot] /\ s <> [dot; dot] /\ slash ∉ s.

Definition abspath (segs : list gostr) : gostr :=
  match segs with [] => [slash] | _ => mkpath segs end.

Definition canonical (p : gostr) : Prop :=
  exists segs, Forall good_seg segs /\ p = abspath segs.

(** ** Splitting and joining *)

Lemma split_slash_app s t :
  slash ∉ s -> split_slash (s ++ slash :: t) = s :: split_slash t.
Proof.
  induction s as [|c s IH]; intros Hs; simpl.
  - done.
  - rewrite not_elem_of_cons in Hs. destruct Hs as [Hc Hs].
    rewrite decide_False by congruence. by rewrite IH.
Qed.

Lemma split_slash_plain s : slash ∉ s -> split_slash s = [s].
Proof.
  induction s as [|c s IH]; intros Hs; simpl; [done |].
  rewrite not_elem_of_cons in Hs. destruct Hs as [Hc Hs].
  rewrite decide_False by congruence. by rewrite IH.
Qed.

Lemma split_slash_no_slash s : Forall (fun seg => slash ∉ seg) (split_slash s).
Proof.
  induction s as [|c s IH]; simpl.
  - repeat constructor. apply not_elem_of_nil.
  - case_decide.
    + constructor; [apply not_elem_of_nil | done].
    + destruct (split_slash s) as [|seg segs]; inversion IH; subst;
        constructor; try done; rewrite not_elem_of_cons;
        split; [congruence | apply not_elem_of_nil | congruence | done].
Qed.

Lemma mkpath_app l k : mkpath (l ++ k) = mkpath l ++ mkpath k.
Proof. unfold mkpath. by rewrite fmap_app, concat_app. Qed.

Lemma mkpath_cons s l : mkpath (s :: l) = slash :: s ++ mkpath l.
Proof. done. Qed.

Lemma mkpath_snoc l s : mkpath (l ++ [s]) = mkpath l ++ slash :: s.
Proof. rewrite mkpath_app. unfold mkpath at 2. simpl. by rewrite app_nil_r. Qed.

Lemma split_slash_mkpath segs :
  Forall (fun s => slash ∉ s) segs -> split_slash (mkpath segs) = [] :: segs.
Proof.
  induction segs as [|s segs IH]; intros Hf; [done |].
  inversion Hf as [|? ? Hs Hf']; subst. rewrite mkpath_cons. simpl. f_equal.
  destruct segs as [|s2 segs].
  - unfold mkpath. simpl. rewrite app_nil_r. by apply split_slash_plain.
  - rewrite mkpath_cons. rewrite split_slash_app by done.
    f_equal. specialize (IH Hf'). rewrite mkpath_cons in IH. simpl in IH.
    by inversion IH.
Qed.

Lemma join_slash_mkpath segs :
  segs <> [] -> slash :: join_slash segs = mkpath segs.
Proof.
  induction segs as [|s segs IH]; [done |]. intros _.
  destruct segs as [|s2 segs].
  - unfold mkpath. simpl. by rewrite app_nil_r.
  - rewrite mkpath_cons, <- IH by done. done.
Qed.

(** ** [path.Clean] *)

Lemma clean_step_good rt out seg :
  slash ∉ seg -> seg <> [] -> seg <> [dot] -> seg <> [dot; dot] ->
  clean_step rt out seg = seg :: out.
Proof.
  intros _ H1 H2 H3. unfold clean_step.
  rewrite decide_False by (by intros [?|?]). by rewrite decide_False.
Qed.

Lemma clean_step_inv out seg :
  slash ∉ seg -> Forall good_seg out -> Forall good_seg (clean_step true out seg).
Proof.
  intros Hs Hout. unfold clean_step. case_decide as Hskip; [done |].
  case_decide as Hdd0.
  - subst. destruct out as [|top out]; [done |].
    inversion Hout as [|? ? [? [? [Hdd ?]]] Hout']; subst.
    by rewrite decide_False.
  - constructor; [| done]. unfold good_seg. naive_solver.
Qed.

Lemma clean_segs_good rt segs : Forall good_seg segs -> clean_segs rt segs = segs.
Proof.
  intros Hf. unfold clean_segs.
  enough (forall out, foldl (clean_step rt) out segs = reverse segs ++ out) as Hgen.
  { rewrite Hgen, app_nil_r. by rewrite reverse_involutive. }
  induction Hf as [|s segs (H1 & H2 & H3 & H4) Hf IH]; intros out; simpl; [done |].
  rewrite clean_step_good by done. rewrite IH, reverse_cons, <- app_assoc. done.
Qed.

Lemma clean_segs_inv segs :
  Forall (fun s => slash ∉ s) segs -> Forall good_seg (clean_segs true segs).
Proof.
  intros Hf. unfold clean_segs. apply Forall_reverse.
  enough (forall out, Forall good_seg out ->
    Forall good_seg (foldl (clean_step true) out segs)) as Hgen by (apply Hgen; constructor).
  induction Hf as [|s segs Hs Hf IH]; intros out Hout; simpl; [done |].
  apply IH. by apply clean_step_inv.
Qed.

(** A rooted path is cleaned to a canonical one. *)
Lemma Clean_canonical p : rooted p = true -> canonical (Clean p).
Proof.
  intros Hr. exists (clean_segs true (split_slash p)). split.
  - apply clean_segs_inv, split_slash_no_slash.
  - unfold Clean. destruct p as [|c p]; [done |]. rewrite Hr.
    destruct (clean_segs true (split_slash (c :: p))) as [|s l] eqn:E; [done |].
    by rewrite join_slash_mkpath.
Qed.

Lemma good_segs_no_slash segs : Forall good_seg segs -> Forall (fun s => slash ∉ s) segs.
Proof. intros Hf. eapply Forall_impl; [exact Hf |]. by intros ? (?&?&?&?). Qed.

Lemma rooted_abspath segs : rooted (abspath segs) = true.
Proof. by destruct segs. Qed.

(** Cleaning a canonical path changes nothing: [path.Clean] is idempotent. *)
Lemma Clean_abspath segs : Forall good_seg segs -> Clean (abspath segs) = abspath segs.
Proof.
  intros Hf. destruct segs as [|s segs]; [done |].
  change (abspath (s :: segs)) with (mkpath (s :: segs)).
  assert (rooted (mkpath (s :: segs)) = true) as Hr by done.
  unfold Clean. rewrite Hr.
  destruct (mkpath (s :: segs)) as [|c p] eqn:E; [done |]. rewrite <- E.
  rewrite split_slash_mkpath by by apply good_segs_no_slash.
  unfold clean_segs. simpl foldl at 1.
  change (clean_step true [] []) with (@nil gostr).
  pose proof (clean_segs_good true (s :: segs) Hf) as Hc. unfold clean_segs in Hc.
  simpl foldl in Hc. rewrite Hc. by rewrite join_slash_mkpath.
Qed.

Lemma Clean_idemp p : rooted p = true -> Clean (Clean p) = Clean p.
Proof.
  intros Hr. destruct (Clean_canonical p Hr) as (segs & Hf & ->). by apply Clean_abspath.
Qed.

Lemma canonical_Clean p : canonical p -> Clean p = p.
Proof. intros (segs & Hf & ->). by apply Clean_abspath. Qed.

Lemma abspath_inj l k :
  Forall good_seg l -> Forall good_seg k -> abspath l = abspath k -> l = k.
Proof.
  intros Hl Hk E.
  assert (forall s m, Forall good_seg (s :: m) -> [slash] <> mkpath (s :: m)) as Hne.
  { intros s m Hm. inversion Hm as [|? ? [? ?] ?]; subst. rewrite mkpath_cons.
    destruct s; [done |]. by intros [=]. }
  destruct l as [|s l], k as [|t k]; [done | by destruct (Hne t k) | |].
  - by destruct (Hne s l Hl).
  - apply (f_equal split_slash) in E. simpl abspath in E.
    rewrite !split_slash_mkpath in E by by apply good_segs_no_slash. by inversion E.
Qed.

(** ** Parent and name *)

Lemma upto_last_slash_app a s :
  slash ∉ s -> upto_last_slash (a ++ slash :: s) = a ++ [slash].
Proof.
  intros Hs. induction a as [|c a IH]; simpl.
  - by rewrite decide_False.
  - rewrite decide_True by (rewrite elem_of_app, elem_of_cons; auto). by rewrite IH.
Qed.

Lemma Clean_trailing_slash segs :
  Forall good_seg segs -> Clean (mkpath segs ++ [slash]) = abspath segs.
Proof.
  intros Hf. destruct segs as [|s segs]; [done |].
  unfold Clean.
  assert (rooted (mkpath (s :: segs) ++ [slash]) = true) as Hr by done.
  rewrite Hr.
  destruct (mkpath (s :: segs) ++ [slash]) as [|c p] eqn:E; [done |]. rewrite <- E.
  change [slash] with (slash :: (@nil ascii)).
  replace (split_slash (mkpath (s :: segs) ++ [slash])) with ([] :: (s :: segs) ++ [[]]).
  - unfold clean_segs. rewrite app_comm_cons, foldl_app. simpl foldl at 1.
    unfold clean_step at 1. rewrite decide_True by by left.
    pose proof (clean_segs_good true (s :: segs) Hf) as Hc. unfold clean_segs in Hc.
    simpl foldl in Hc |- *. change (clean_step true [] []) with (@nil gostr).
    rewrite Hc. by rewrite join_slash_mkpath.
  - replace (mkpath (s :: segs) ++ [slash]) with (mkpath ((s :: segs) ++ [[]])).
    + rewrite split_slash_mkpath; [done |]. apply Forall_app. split.
      * by apply good_segs_no_slash.
      * repeat constructor. apply not_elem_of_nil.
    + by rewrite mkpath_snoc.
Qed.

Lemma abspath_snoc segs s : abspath (segs ++ [s]) = mkpath segs ++ slash :: s.
Proof. rewrite <- mkpath_snoc. by destruct segs. Qed.

Lemma Dir_abspath segs s :
  Forall good_seg (segs ++ [s]) -> Dir (abspath (segs ++ [s])) = abspath segs.
Proof.
  intros [Hf Hs]%Forall_app. inversion Hs as [|? ? (?&?&?&Hsl) _]; subst.
  unfold Dir. rewrite abspath_snoc, upto_last_slash_app by done.
  by apply Clean_trailing_slash.
Qed.

Lemma TrimPrefix_app pre s : TrimPrefix (pre ++ s) pre = s.
Proof.
  unfold TrimPrefix, HasPrefix. rewrite bool_decide_eq_true_2 by by apply prefix_app_r.
  by rewrite drop_app_length.
Qed.

(** [splitParentName] of a canonical path is its parent and last segment. *)
Lemma splitParentName_snoc segs s :
  Forall good_seg (segs ++ [s]) ->
  splitParentName (abspath (segs ++ [s])) = (abspath segs, s).
Proof.
  intros Hf. pose proof Hf as [Hf1 Hs]%Forall_app.
  inversion Hs as [|? ? (Hne&?&?&Hsl) _]; subst.
  unfold splitParentName. rewrite Clean_abspath by done.
  rewrite decide_False.
  - rewrite Dir_abspath by done. f_equal. rewrite abspath_snoc.
    destruct segs as [|t segs].
    + change (mkpath [] ++ slash :: s) with ([slash] ++ s). simpl abspath.
      rewrite TrimPrefix_app. unfold TrimPrefix, HasPrefix.
      rewrite bool_decide_eq_false_2; [done |].
      intros [k ->]. apply Hsl. by left.
    + change (abspath (t :: segs)) with (mkpath (t :: segs)).
      rewrite TrimPrefix_app. change (slash :: s) with ([slash] ++ s).
      apply TrimPrefix_app.
  - rewrite abspath_snoc. destruct segs as [|t segs].
    + destruct s; [done |]. by intros [[=]|[=]].
    + rewrite mkpath_cons. intros [E|E]; [| by inversion E].
      inversion E as [E2]. by destruct t, (mkpath segs).
Qed.

Lemma splitParentName_root : splitParentName [slash] = ([slash], []).
Proof. done. Qed.

(** The SQL expression puts parent and name back together. *)
Lemma sqlFullPath_snoc segs s :
  Forall good_seg (segs ++ [s]) -> sqlFullPath (abspath segs) s = abspath (segs ++ [s]).
Proof.
  intros [Hf _]%Forall_app. rewrite abspath_snoc. unfold sqlFullPath.
  destruct segs as [|t segs]; [done |].
  rewrite decide_False; [done |].
  inversion Hf as [|? ? [? ?] ?]; subst. simpl abspath. rewrite mkpath_cons.
  intros E. inversion E. by destruct t.
Qed.

(** Every canonical path other than the root has a parent. *)
Lemma canonical_split p :
  canonical p -> p <> [slash] ->
  exists segs s, Forall good_seg (segs ++ [s]) /\ p = abspath (segs ++ [s]).
Proof.
  intros (segs & Hf & ->) Hne. destruct (exists_last (l := segs)) as (l & s & ->).
  - by intros ->.
  - by exists l, s.
Qed.

Lemma sqlFullPath_splitParentName p :
  canonical p -> p <> [slash] ->
  sqlFullPath (splitParentName p).1 (splitParentName p).2 = p.
Proof.
  intros Hc Hne. destruct (canonical_split p Hc Hne) as (segs & s & Hf & ->).
  rewrite splitParentName_snoc by done. by apply sqlFullPath_snoc.
Qed.

Lemma splitParentName_name_nonempty p :
  canonical p -> p <> [slash] -> (splitParentName p).2 <> [].
Proof.
  intros Hc Hne. destruct (canonical_split p Hc Hne) as (segs & s & Hf & ->).
  rewrite splitParentName_snoc by done. apply Forall_app in Hf as [_ Hs].
  by inversion Hs as [|? ? [? ?] ?].
Qed.

(** ** SQLite characters *)

(** A string of ASCII bytes: each byte is a character of its own. *)
Definition plain (s : gostr) : Prop := Forall (fun c => is_ascii7 c = true) s.

Definition no_wildcard (s : gostr) : Prop :=
  Forall (fun c => c <> "%"%char /\ c <> "_"%char) s.

(** Equality up to the case of ASCII letters. *)
Definition eqci (a b : gostr) : Prop := Forall2 (fun x y => lower x = lower y) a b.

Lemma take_cont_concat l : let '(c, r) := take_cont l in c ++ concat r = concat l.
Proof.
  induction l as [|ch l IH]; simpl; [done |].
  destruct (is_cont_char ch); [| done].
  destruct (take_cont l) as [c r]. by rewrite <- app_assoc, IH.
Qed.

Lemma concat_chars s : concat (chars s) = s.
Proof.
  induction s as [|b s IH]; [done |]. simpl. destruct (is_lead b); simpl.
  - pose proof (take_cont_concat (chars s)) as Ht.
    destruct (take_cont (chars s)) as [c r]. simpl. by rewrite Ht, IH.
  - by rewrite IH.
Qed.

Lemma ascii7_not_lead c : is_ascii7 c = true -> is_lead c = false.
Proof. unfold is_ascii7, is_lead. lia. Qed.

Lemma chars_plain_app a s : plain a -> chars (a ++ s) = ((fun c => [c]) <$> a) ++ chars s.
Proof.
  induction 1 as [|c a Hc Ha IH]; [done |]. simpl.
  rewrite ascii7_not_lead by done. by rewrite IH.
Qed.

Lemma chars_plain a : plain a -> chars a = (fun c => [c]) <$> a.
Proof.
  intros Ha. rewrite <- (app_nil_r a) at 1. rewrite chars_plain_app by done.
  by rewrite app_nil_r.
Qed.

(** For an ASCII prefix, SQLite's character offset is Go's byte offset. *)
Lemma sql_substr_plain a s :
  plain a -> sql_substr (a ++ s) (Z.of_nat (length a) + 1) = s.
Proof.
  intros Ha. unfold sql_substr. rewrite chars_plain_app by done.
  replace (Z.to_nat (Z.of_nat (length a) + 1 - 1))
    with (length ((fun c => [c]) <$> a)) by (rewrite length_fmap; lia).
  rewrite drop_app_length. apply concat_chars.
Qed.

(** ** [LIKE] on a literal prefix *)

Lemma like_chars_pct esc s : like_chars esc [["%"%char]] s = true.
Proof. induction s as [|d s IH]; [done |]. simpl in *. by rewrite IH. Qed.

Lemma char_eqci_single c d :
  char_eqci [c] d = true <-> exists x, d = [x] /\ lower c = lower x.
Proof.
  unfold char_eqci. rewrite orb_true_iff, bool_decide_eq_true. split.
  - intros [<-|H]; [by exists c |].
    destruct d as [|x [|]]; try done. exists x. split; [done |]. lia.
  - intros (x & -> & E). right. lia.
Qed.

(** The literal part of a pattern, compared character by character. *)
Lemma like_chars_literal esc a pat s :
  plain a -> no_wildcard a -> (forall e, esc = Some e -> e ∉ a) ->
  like_chars esc (((fun c => [c]) <$> a) ++ pat) s = true <->
  exists q s', s = ((fun c => [c]) <$> q) ++ s' /\ eqci a q /\ like_chars esc pat s' = true.
Proof.
  intros Ha Hw He. revert s. induction a as [|c a IH]; intros s.
  - simpl. split.
    + intros Hl. exists [], s. repeat split; [constructor | done].
    + intros (q & s' & -> & Hq & Hl). by inversion Hq.
  - inversion Ha; inversion Hw as [|? ? [Hp Hu] ?]; subst.
    rewrite fmap_cons. simpl.
    rewrite decide_False by congruence. rewrite decide_False.
    2:{ destruct esc as [e|]; simpl; [| done]. intros [= ->].
        apply (He e); [done | by left]. }
    destruct s as [|d s].
    { split; [done |]. intros (q & s' & E & Hq & _). by inversion Hq; subst. }
    rewrite bool_decide_eq_false_2 by congruence. simpl.
    rewrite andb_true_iff, char_eqci_single, IH; [| done..|].
    + split.
      * intros [(x & -> & Hx) (q & s' & -> & Hq & Hl)]. exists (x :: q), s'.
        repeat split; [by constructor | done].
      * intros (q & s' & E & Hq & Hl). inversion Hq as [|? x ? q' Hx Hq']; subst.
        simpl in E. inversion E; subst. split; [by exists x |]. by exists q', s'.
    + intros e -> Hin. apply (He e eq_refl). by right.
Qed.

Lemma chars_slash_pct : chars (str "/%") = [[slash]; ["%"%char]].
Proof. done. Qed.

Lemma like_chars_slash_pct esc s :
  (forall e, esc = Some e -> e <> slash /\ e <> "%"%char) ->
  like_chars esc [[slash]; ["%"%char]] s = true <-> exists s', s = [slash] :: s'.
Proof.
  intros He. simpl. rewrite decide_False.
  2:{ destruct esc as [e|]; simpl; [| done]. intros E.
      destruct (He e eq_refl) as [Hn _]. congruence. }
  destruct s as [|d s]; [split; [done | by intros [? ?]] |].
  rewrite andb_true_iff, char_eqci_single.
  split.
  - intros [(x & -> & Hx) _]. exists s. repeat f_equal.
    revert Hx. clear. destruct x as [[] [] [] [] [] [] [] []]; vm_compute; try done.
  - intros (s' & [= -> ->]). split; [by exists slash |].
    exact (like_chars_pct esc s').
Qed.

Lemma eqci_plain a q : plain a -> eqci a q -> plain q.
Proof.
  intros Ha Hq. induction Hq as [|x y a q Hxy Hq IH]; [constructor |].
  inversion Ha as [|? ? Hx Ha']; subst. constructor; [| by apply IH].
  revert Hx Hxy. unfold is_ascii7, lower. intros.
  repeat case_match; lia.
Qed.

Lemma chars_singletons_app l q t :
  plain q -> chars l = ((fun c => [c]) <$> q) ++ [slash] :: t ->
  exists r, l = q ++ slash :: r.
Proof.
  intros Hq E. exists (concat t). rewrite <- (concat_chars l), E.
  rewrite concat_app. f_equal. clear. induction q as [|c q IH]; [done |].
  simpl. by f_equal.
Qed.

(** The pattern [p || '/%'] of [reparentDescendantsTx], for a [p] without
    wildcards, matches the paths below [p] up to the case of letters. *)
Lemma like_subtree p s :
  plain p -> no_wildcard p ->
  like (p ++ str "/%") s = true <-> exists q r, s = q ++ slash :: r /\ eqci p q.
Proof.
  intros Hp Hw. unfold like. rewrite chars_plain_app by done. rewrite chars_slash_pct.
  rewrite like_chars_literal by done. split.
  - intros (q & s' & E & Hq & Hl).
    apply like_chars_slash_pct in Hl as [t ->]; [| done].
    apply chars_singletons_app in E as [r ->]; [by exists q, r |].
    by eapply eqci_plain.
  - intros (q & r & -> & Hq). exists q, (chars (slash :: r)).
    split; [| split; [done |]].
    + apply chars_plain_app. by eapply eqci_plain.
    + apply like_chars_slash_pct; [done |]. by exists (chars r).
Qed.

(** The escaped form, used for tombstones, the purge and the change feed,
    needs no such restriction. *)
Lemma like_chars_escaped p pat s :
  plain p ->
  like_chars (Some "\"%char) (((fun c => [c]) <$> escapeLike p) ++ pat) s = true <->
  exists q s', s = ((fun c => [c]) <$> q) ++ s' /\ eqci p q /\
    like_chars (Some "\"%char) pat s' = true.
Proof.
  intros Hp. revert s. induction Hp as [|c p Hc Hp IH]; intros s.
  - simpl. split.
    + intros Hl. exists [], s. repeat split; [constructor | done].
    + intros (q & s' & -> & Hq & Hl). by inversion Hq.
  - assert (forall rest s, like_chars (Some "\"%char)
      (["\"%char] :: [c] :: rest) s = true <->
      exists x s', s = [x] :: s' /\ lower c = lower x /\
        like_chars (Some "\"%char) rest s' = true) as Hesc.
    { intros rest [|d s0]; simpl.
      - split; [done | by intros (?&?&?&_)].
      - rewrite andb_true_iff, char_eqci_single. split.
        + intros [(x & -> & Hx) Hl]. by exists x, s0.
        + intros (x & s' & [= -> ->] & Hx & Hl). split; [by exists x | done]. }
    assert (c <> "\"%char -> c <> "%"%char -> c <> "_"%char ->
      forall rest s, like_chars (Some "\"%char) ([c] :: rest) s = true <->
      exists x s', s = [x] :: s' /\ lower c = lower x /\
        like_chars (Some "\"%char) rest s' = true) as Hlit.
    { intros H1 H2 H3 rest [|d s0]; simpl.
      - rewrite decide_False by congruence. rewrite decide_False by congruence.
        split; [done | by intros (?&?&?&_)].
      - rewrite decide_False by congruence. rewrite decide_False by congruence.
        rewrite bool_decide_eq_false_2 by congruence. simpl.
        rewrite andb_true_iff, char_eqci_single. split.
        + intros [(x & -> & Hx) Hl]. by exists x, s0.
        + intros (x & s' & [= -> ->] & Hx & Hl). split; [by exists x | done]. }
    assert (like_chars (Some "\"%char)
      (((fun c => [c]) <$> escapeLike (c :: p)) ++ pat) s = true <->
      exists x s', s = [x] :: s' /\ lower c = lower x /\
        like_chars (Some "\"%char) (((fun c => [c]) <$> escapeLike p) ++ pat) s' = true)
      as ->.
    { unfold escapeLike. rewrite bind_cons. fold (escapeLike p).
      repeat case_decide; subst; first [apply Hesc | by apply Hlit]. }
    split.
    + intros (x & s' & -> & Hx & Hl). apply IH in Hl as (q & s2 & -> & Hq & Hl).
      exists (x :: q), s2. repeat split; [by constructor | done].
    + intros (q & s' & -> & Hq & Hl). inversion Hq as [|? x ? q' Hx Hq']; subst.
      exists x, (((fun c => [c]) <$> q') ++ s'). repeat split; [done |].
      apply IH. by exists q', s'.
Qed.

Lemma escapeLike_plain p : plain p -> plain (escapeLike p).
Proof.
  intros Hp. induction Hp as [|c p Hc Hp IH]; [constructor |].
  unfold escapeLike. rewrite bind_cons. fold (escapeLike p).
  repeat case_decide; subst; repeat (constructor; [done |]); done.
Qed.

Lemma backslash_plain e :
  Some "\"%char = Some e -> e <> slash /\ e <> "%"%char.
Proof. intros E. by inversion E; subst. Qed.

Lemma like_esc_subtree p s :
  plain p ->
  like_esc (escapeLike p ++ str "/%") s = true <->
  exists q r, s = q ++ slash :: r /\ eqci p q.
Proof.
  intros Hp. unfold like_esc.
  rewrite chars_plain_app by by apply escapeLike_plain. rewrite chars_slash_pct.
  rewrite like_chars_escaped by done. split.
  - intros (q & s' & E & Hq & Hl).
    apply like_chars_slash_pct in Hl as [t ->]; [| exact backslash_plain].
    apply chars_singletons_app in E as [r ->]; [by exists q, r |].
    by eapply eqci_plain.
  - intros (q & r & -> & Hq). exists q, (chars (slash :: r)).
    split; [| split; [done |]].
    + apply chars_plain_app. by eapply eqci_plain.
    + apply like_chars_slash_pct; [exact backslash_plain |]. by exists (chars r).
Qed.

Lemma eqci_refl p : eqci p p.
Proof. induction p; constructor; auto. Qed.

(** ** [path.Base] and [joinVirtual] of canonical paths *)

Lemma trim_right_slash_id p c : c <> slash -> trim_right_slash (p ++ [c]) = p ++ [c].
Proof.
  intros Hc. unfold trim_right_slash. rewrite reverse_snoc. simpl.
  rewrite decide_False by done. by rewrite reverse_cons, reverse_involutive.
Qed.

Lemma trim_right_slash_abspath segs s :
  Forall good_seg (segs ++ [s]) -> trim_right_slash (abspath (segs ++ [s])) = abspath (segs ++ [s]).
Proof.
  intros [_ Hs]%Forall_app. apply Forall_singleton in Hs as (Hne & _ & _ & Hsl).
  destruct (exists_last Hne) as (s' & c & ->). rewrite abspath_snoc.
  change (slash :: s' ++ [c]) with ((slash :: s') ++ [c]). rewrite app_assoc.
  apply trim_right_slash_id. intros ->. apply Hsl. set_solver.
Qed.

Lemma Base_abspath segs s : Forall good_seg (segs ++ [s]) -> Base (abspath (segs ++ [s])) = s.
Proof.
  intros Hf. unfold Base. rewrite trim_right_slash_abspath by done.
  replace (abspath (segs ++ [s])) with (mkpath (segs ++ [s])) by (by rewrite abspath_snoc, mkpath_snoc).
  rewrite split_slash_mkpath.
  - rewrite app_comm_cons, last_snoc. simpl.
    apply Forall_app in Hf as [_ Hs]. apply Forall_singleton in Hs as (Hne & _).
    rewrite mkpath_snoc. destruct (mkpath segs); simpl; by destruct s.
  - eapply Forall_impl; [exact Hf |]. by intros x (_ & _ & _ & ?).
Qed.

Lemma joinVirtual_abspath segs s :
  Forall good_seg (segs ++ [s]) -> joinVirtual (abspath segs) s = abspath (segs ++ [s]).
Proof.
  intros Hf. pose proof Hf as [Hg _]%Forall_app.
  rewrite <- sqlFullPath_snoc by done. unfold joinVirtual, sqlFullPath.
  case_decide as E; [done |]. destruct segs as [|t segs] using rev_ind; [done |].
  by rewrite trim_right_slash_abspath.
Qed.
