(* ===== verification/Codec.v ===== *)
(** * Binary encodings

    The chunk list packed into the [manifests.chunks] column (manifests.go
    [packChunks], [unpackChunks]), the frame codec of the data-plane protocol
    (dataplane/codec.go, dataplane/protocol.go), the hex form of a lease id
    (dataplane_server.go [decodeLeaseHex]) and the conversion of chunk lists
    from and to the wire (dataplane_server.go [toWireChunks],
    [fromWireChunks]).  Bytes are integers in [0, 256). *)

From S2P Require Import Prelude.

Definition HashLen : nat := 32.
Definition chunkRefSize : nat := HashLen + 8 + 4.

Abbreviation hash := (list Z).
Abbreviation blob := (list Z).

Record ChunkRef := mkChunkRef { Hash : hash; Offset : Z; Len : Z }.

#[export] Instance ChunkRef_eq_dec : EqDecision ChunkRef.
Proof. solve_decision. Defined.

(** What the Go types guarantee of a [ChunkRef]. *)
Definition is_byte (b : Z) : Prop := 0 <= b < 256.
Definition wf_hash (h : hash) : Prop := length h = HashLen /\ Forall is_byte h.
Definition wf_ref (c : ChunkRef) : Prop :=
  wf_hash (Hash c) /\ 0 <= Offset c < 2 ^ 64 /\ 0 <= Len c < 2 ^ 32.

(** ** Big-endian integers: [binary.BigEndian.PutUint64] and friends. *)

Fixpoint be_put (n : nat) (v : Z) : list Z :=
  match n with
  | O => []
  | S n' => Z.land (Z.shiftr v (8 * Z.of_nat n')) 255 :: be_put n' v
  end.

Definition be_get (bs : list Z) : Z :=
  foldl (fun acc b => Z.lor (Z.shiftl acc 8) b) 0 bs.

(** ** The chunk list column *)

Definition packRef (c : ChunkRef) : blob :=
  Hash c ++ be_put 8 (Offset c) ++ be_put 4 (Len c).

Definition packChunks (chunks : list ChunkRef) : blob := chunks ≫= packRef.

Definition unpackRef (b : blob) : ChunkRef :=
  {| Hash := take HashLen b;
     Offset := be_get (take 8 (drop HashLen b));
     Len := be_get (take 4 (drop (HashLen + 8) b)) |}.

Fixpoint unpack_n (n : nat) (b : blob) : list ChunkRef :=
  match n with
  | O => []
  | S n' => unpackRef (take chunkRefSize b) :: unpack_n n' (drop chunkRefSize b)
  end.

Definition unpackChunks (b : blob) : option (list ChunkRef) :=
  if decide (length b `mod` chunkRefSize <> 0)%nat then None
  else Some (unpack_n (length b / chunkRefSize) b).

(** ** Chunk lists on the wire: the hash is a slice of any length. *)

Record WireChunkRef := mkWireChunkRef { WHash : list Z; WOffset : Z; WLen : Z }.

Definition toWireChunks (l : list ChunkRef) : list WireChunkRef :=
  (fun c => mkWireChunkRef (Hash c) (Offset c) (Len c)) <$> l.

Definition fromWireChunks (l : list WireChunkRef) : list ChunkRef :=
  (fun c => mkChunkRef
     (if decide (length (WHash c) = HashLen) then WHash c else replicate HashLen 0)
     (WOffset c) (WLen c)) <$> l.

(** ** Frames *)

Definition HeaderLen : nat := 16.
Definition MaxPayloadLen : Z := 64 * 1024 * 1024.

Record Frame := mkFrame { Op : Z; Flags : Z; RID : Z; Payload : list Z }.

Inductive codec_err :=
| EPayloadTooLarge | EEOF | EUnexpectedEOF | EUnknownOp | EReserved.

Definition validOps : list Z :=
  [0x01; 0x02; 0x04; 0x05; 0x06; 0x07; 0x08; 0x09; 0x0A; 0x0B; 0x0C; 0x0D; 0x0E;
   0x0F; 0x16; 0x17; 0x19; 0x1A; 0x10; 0x11; 0x12; 0x13; 0x15; 0x18; 0x1B; 0x1C; 0x1D].

(** [Op.Valid]. *)
Definition op_valid (o : Z) : bool := bool_decide (o ∈ validOps).

Definition FlagResponse : Z := 1.
Definition FlagError : Z := 2.

Definition IsResponse (f : Frame) : bool := negb (Z.land (Flags f) FlagResponse =? 0).
Definition IsError (f : Frame) : bool := negb (Z.land (Flags f) FlagError =? 0).

Definition WriteFrame (f : Frame) : result codec_err (list Z) :=
  if Z.of_nat (length (Payload f)) >? MaxPayloadLen then Err EPayloadTooLarge
  else Ok (Op f :: Flags f :: be_put 8 (RID f) ++ [0; 0] ++
             be_put 4 (Z.of_nat (length (Payload f))) ++ Payload f).

(** [io.ReadFull] of [n] bytes: the bytes and the rest of the stream. *)
Definition ReadFull (n : nat) (s : list Z) : result codec_err (list Z * list Z) :=
  if decide (n <= length s)%nat then Ok (take n s, drop n s)
  else match s with [] => Err EEOF | _ => Err EUnexpectedEOF end.

Definition ReadFrame (s : list Z) : result codec_err (Frame * list Z) :=
  match ReadFull HeaderLen s with
  | Err e => Err e
  | Ok (hdr, s) =>
      let op := nth 0 hdr 0 in
      if negb (op_valid op) then Err EUnknownOp
      else if negb (nth 10 hdr 0 =? 0) || negb (nth 11 hdr 0 =? 0) then Err EReserved
      else
        let plen := be_get (take 4 (drop 12 hdr)) in
        if plen >? MaxPayloadLen then Err EPayloadTooLarge
        else
          match (if plen >? 0 then ReadFull (Z.to_nat plen) s else Ok ([], s)) with
          | Err e => Err e
          | Ok (payload, s) =>
              Ok (mkFrame op (nth 1 hdr 0) (be_get (take 8 (drop 2 hdr))) payload, s)
          end
  end.

(** What the Go types guarantee of a frame, and the bound [WriteFrame] checks. *)
Definition wf_frame (f : Frame) : Prop :=
  op_valid (Op f) = true /\ is_byte (Flags f) /\ 0 <= RID f < 2 ^ 64 /\
  Z.of_nat (length (Payload f)) <= MaxPayloadLen.

(** ** Hexadecimal *)

Definition hex_digit (v : Z) : ascii :=
  ascii_of_N (Z.to_N (if v <? 10 then 48 + v else 87 + v)).

Definition hex_val (c : ascii) : option Z :=
  let v := Z.of_N (N_of_ascii c) in
  if (48 <=? v) && (v <=? 57) then Some (v - 48)
  else if (97 <=? v) && (v <=? 102) then Some (v - 87)
  else if (65 <=? v) && (v <=? 70) then Some (v - 55)
  else None.

(** [hex.EncodeToString]. *)
Definition hex_encode (bs : list Z) : gostr :=
  bs ≫= fun b => [hex_digit (b / 16); hex_digit (b mod 16)].

(** [hex.Decode]. *)
Fixpoint hex_decode (s : gostr) : option (list Z) :=
  match s with
  | [] => Some []
  | [_] => None
  | a :: b :: s' =>
      match hex_val a, hex_val b, hex_decode s' with
      | Some x, Some y, Some bs => Some (x * 16 + y :: bs)
      | _, _, _ => None
      end
  end.

Definition decodeLeaseHex (s : gostr) : option (list Z) :=
  if decide (length s = 32%nat) then hex_decode s else None.

(** ** Big-endian round trip *)

Lemma lor_shiftl8 a b : is_byte b -> Z.lor (Z.shiftl a 8) b = a * 256 + b.
Proof.
  intros Hb. unfold is_byte in Hb. rewrite Z.shiftl_mul_pow2 by lia.
  change (2 ^ 8) with 256. symmetry. apply Z.add_nocarry_lor.
  apply Z.bits_inj'. intros n Hn. rewrite Z.land_spec, Z.bits_0.
  destruct (Z.ltb_spec n 8) as [Hlt|Hge].
  - change 256 with (2 ^ 8). by rewrite Z.mul_pow2_bits_low.
  - assert (Z.testbit b n = false) as ->; [| by rewrite andb_false_r].
    destruct (Z.eq_dec b 0) as [->|Hnz]; [apply Z.bits_0 |].
    apply Z.bits_above_log2; [lia |].
    assert (Z.log2 b < 8); [| lia]. apply Z.log2_lt_pow2; lia.
Qed.

Lemma land_255 v : Z.land v 255 = v mod 256.
Proof. change 255 with (Z.ones 8). by rewrite Z.land_ones. Qed.

Lemma be_put_bytes n v : Forall is_byte (be_put n v).
Proof.
  induction n as [|n IH]; simpl; constructor; [| done].
  rewrite land_255. apply Z.mod_pos_bound. lia.
Qed.

Lemma length_be_put n v : length (be_put n v) = n.
Proof. induction n as [|n IH]; simpl; congruence. Qed.

Lemma be_get_put_acc n v acc :
  foldl (fun a b => Z.lor (Z.shiftl a 8) b) acc (be_put n v) =
  acc * 256 ^ Z.of_nat n + v mod 256 ^ Z.of_nat n.
Proof.
  revert acc. induction n as [|n IH]; intros acc.
  - simpl. rewrite Z.mod_1_r. lia.
  - simpl be_put. simpl foldl. rewrite IH.
    rewrite lor_shiftl8 by (rewrite land_255; apply Z.mod_pos_bound; lia).
    rewrite land_255, Z.shiftr_div_pow2 by lia.
    rewrite Z.pow_mul_r by lia. change (2 ^ 8) with 256.
    rewrite Nat2Z.inj_succ, Z.pow_succ_r by lia.
    set (B := 256 ^ Z.of_nat n). assert (0 < B) by (apply Z.pow_pos_nonneg; lia).
    rewrite (Z.mul_comm 256 B). rewrite Z.rem_mul_r by lia. lia.
Qed.

Lemma be_get_put n v : 0 <= v < 256 ^ Z.of_nat n -> be_get (be_put n v) = v.
Proof.
  intros Hv. unfold be_get. rewrite be_get_put_acc. rewrite Z.mod_small by done. lia.
Qed.

(** ** The chunk list column round trip *)

Lemma length_packRef c : wf_ref c -> length (packRef c) = chunkRefSize.
Proof.
  intros [[Hl _] _]. unfold packRef.
  rewrite !length_app, !length_be_put, Hl. done.
Qed.

Lemma unpackRef_packRef c : wf_ref c -> unpackRef (packRef c) = c.
Proof.
  intros [[Hl _] [Ho Hn]]. unfold unpackRef, packRef. destruct c as [h o n].
  cbn [Hash Offset Len] in *.
  rewrite (take_app_length' h) by done. rewrite (drop_app_length' h) by done.
  rewrite take_app_length' by by rewrite length_be_put.
  rewrite be_get_put by done. f_equal.
  rewrite app_assoc, drop_app_length'
    by (rewrite length_app, length_be_put, Hl; done).
  rewrite firstn_all2 by (rewrite length_be_put; lia). by apply be_get_put.
Qed.

Lemma length_packChunks cs :
  Forall wf_ref cs -> length (packChunks cs) = (length cs * chunkRefSize)%nat.
Proof.
  induction 1 as [|c cs Hc Hcs IH]; [done |].
  unfold packChunks in *. rewrite bind_cons, length_app, IH, length_packRef by done.
  simpl length. lia.
Qed.

Lemma unpack_n_pack cs :
  Forall wf_ref cs -> unpack_n (length cs) (packChunks cs) = cs.
Proof.
  induction 1 as [|c cs Hc Hcs IH]; [done |].
  unfold packChunks in *. rewrite bind_cons. simpl unpack_n.
  rewrite take_app_length' by by rewrite length_packRef.
  rewrite drop_app_length' by by rewrite length_packRef.
  by rewrite unpackRef_packRef, IH.
Qed.

Lemma unpackChunks_packChunks cs :
  Forall wf_ref cs -> unpackChunks (packChunks cs) = Some cs.
Proof.
  intros Hcs. unfold unpackChunks. rewrite length_packChunks by done.
  rewrite decide_False by (rewrite Nat.Div0.mod_mul; lia).
  rewrite Nat.div_mul by done. by rewrite unpack_n_pack.
Qed.

Lemma be_get_bound bs :
  Forall is_byte bs -> 0 <= be_get bs < 256 ^ Z.of_nat (length bs).
Proof.
  intros Hbs. unfold be_get.
  enough (forall acc, 0 <= acc -> 
    0 <= foldl (fun a b => Z.lor (Z.shiftl a 8) b) acc bs <
      (acc + 1) * 256 ^ Z.of_nat (length bs)) as Hg by (specialize (Hg 0); lia).
  induction Hbs as [|b bs Hb Hbs IH]; intros acc Hacc; [simpl; lia |].
  simpl foldl. rewrite lor_shiftl8 by done. unfold is_byte in Hb.
  specialize (IH (acc * 256 + b) ltac:(lia)).
  simpl length. rewrite Nat2Z.inj_succ, Z.pow_succ_r by lia.
  assert (0 < 256 ^ Z.of_nat (length bs)) by (apply Z.pow_pos_nonneg; lia). nia.
Qed.

Lemma be_get_bound_len n bs :
  length bs = n -> Forall is_byte bs -> 0 <= be_get bs < 256 ^ Z.of_nat n.
Proof. intros <-. apply be_get_bound. Qed.

(** What [unpackChunks] returns of a byte column is well formed. *)
Lemma unpackChunks_wf b cs :
  Forall is_byte b -> unpackChunks b = Some cs -> Forall wf_ref cs.
Proof.
  intros Hb. unfold unpackChunks. case_decide as Hm; [done |]. intros E.
  apply (inj Some) in E. rewrite <- E. clear E cs.
  assert (length b / chunkRefSize * chunkRefSize <= length b)%nat as Hle.
  { rewrite Nat.mul_comm. apply Nat.Div0.mul_div_le. }
  revert Hle. generalize (length b / chunkRefSize)%nat. clear Hm.
  intros n. revert b Hb. induction n as [|n IH]; intros b Hb Hle; simpl; constructor.
  - change chunkRefSize with 44%nat in *.
    unfold unpackRef, wf_ref, wf_hash. cbn [Hash Offset Len].
    change HashLen with 32%nat. change (32 + 8)%nat with 40%nat. split; [split |].
    + rewrite !length_take. lia.
    + by repeat apply Forall_take.
    + split.
      * apply (be_get_bound_len 8); [rewrite length_take, length_drop, length_take; lia |].
        by apply Forall_take, Forall_drop, Forall_take.
      * apply (be_get_bound_len 4); [rewrite length_take, length_drop, length_take; lia |].
        by apply Forall_take, Forall_drop, Forall_take.
  - apply IH; [by apply Forall_drop |]. rewrite length_drop. lia.
Qed.

Lemma packChunks_bytes cs : Forall wf_ref cs -> Forall is_byte (packChunks cs).
Proof.
  induction 1 as [|c cs [[_ Hc] _] Hcs IH]; [constructor |].
  unfold packChunks in *. rewrite bind_cons. unfold packRef.
  by repeat (apply Forall_app; split; try apply be_put_bytes).
Qed.

(** ** Frames *)

Definition frame_bytes (f : Frame) : list Z :=
  Op f :: Flags f :: be_put 8 (RID f) ++ [0; 0] ++
    be_put 4 (Z.of_nat (length (Payload f))) ++ Payload f.

Lemma WriteFrame_ok f :
  Z.of_nat (length (Payload f)) <= MaxPayloadLen -> WriteFrame f = Ok (frame_bytes f).
Proof.
  intros Hl. unfold WriteFrame.
  destruct (Z.gtb_spec (Z.of_nat (length (Payload f))) MaxPayloadLen); [lia | done].
Qed.

(** Reading a header made of its five fields. *)
Lemma ReadFrame_header op fl rid plen s :
  op_valid op = true -> 0 <= rid < 2 ^ 64 -> 0 <= plen <= MaxPayloadLen ->
  ReadFrame (op :: fl :: be_put 8 rid ++ [0; 0] ++ be_put 4 plen ++ s) =
  match (if plen >? 0 then ReadFull (Z.to_nat plen) s else Ok ([], s)) with
  | Err e => Err e
  | Ok (payload, s) => Ok (mkFrame op fl rid payload, s)
  end.
Proof.
  intros Hop Hrid Hplen. unfold MaxPayloadLen in *.
  set (hdr := op :: fl :: be_put 8 rid ++ [0; 0] ++ be_put 4 plen).
  replace (op :: fl :: be_put 8 rid ++ [0; 0] ++ be_put 4 plen ++ s) with (hdr ++ s)
    by (unfold hdr; by rewrite <- !app_comm_cons, <- !app_assoc).
  assert (length hdr = HeaderLen) as Hh by done.
  unfold ReadFrame, ReadFull at 1.
  rewrite decide_True by (rewrite length_app; lia).
  rewrite take_app_length', drop_app_length' by done.
  change (nth 0 hdr 0) with op. rewrite Hop. cbn [negb].
  replace (nth 10 hdr 0) with 0 by done. replace (nth 11 hdr 0) with 0 by done.
  cbn [negb orb Z.eqb].
  assert (take 4 (drop 12 hdr) = be_put 4 plen) as -> by done.
  rewrite be_get_put by (change (256 ^ Z.of_nat 4) with 4294967296; lia).
  replace (plen >? MaxPayloadLen) with false by (unfold MaxPayloadLen; lia).
  assert (take 8 (drop 2 hdr) = be_put 8 rid) as -> by done.
  rewrite be_get_put by done. done.
Qed.

(** Reading a written frame gives the frame back and leaves the rest of the
    stream, so a sequence of frames is read in order. *)
Lemma ReadFrame_frame_bytes f rest :
  wf_frame f -> ReadFrame (frame_bytes f ++ rest) = Ok (f, rest).
Proof.
  intros (Hop & _ & Hrid & Hlen). destruct f as [op fl rid payload].
  cbn [Op Flags RID Payload] in *. unfold frame_bytes. cbn [Op Flags RID Payload].
  set (n := Z.of_nat (length payload)) in *.
  replace ((op :: fl :: be_put 8 rid ++ [0; 0] ++ be_put 4 n ++ payload) ++ rest)
    with (op :: fl :: be_put 8 rid ++ [0; 0] ++ be_put 4 n ++ (payload ++ rest))
    by (rewrite <- !app_comm_cons, <- !app_assoc; done).
  rewrite ReadFrame_header by (done || lia). subst n.
  destruct payload as [|b payload]; [done |].
  replace (Z.of_nat (length (b :: payload)) >? 0) with true by (symmetry; apply Z.gtb_lt; cbn [length]; lia).
  unfold ReadFull. rewrite Nat2Z.id.
  rewrite decide_True by (rewrite length_app; lia).
  by rewrite take_app_length, drop_app_length.
Qed.

(** Whatever the bytes, a frame that is accepted has a known op and a payload
    within the limit, and consumed exactly its header and payload. *)
Lemma ReadFrame_bounds s f rest :
  Forall is_byte s -> ReadFrame s = Ok (f, rest) ->
  op_valid (Op f) = true /\ Z.of_nat (length (Payload f)) <= MaxPayloadLen /\
  length s = (HeaderLen + length (Payload f) + length rest)%nat.
Proof.
  intros Hs. unfold ReadFrame, ReadFull at 1. case_decide as Hn; [| by destruct s].
  destruct (op_valid _) eqn:Hop; [| done]. cbn [negb].
  case_match; [done |].
  destruct (Z.gtb_spec (be_get (take 4 (drop 12 (take HeaderLen s)))) MaxPayloadLen)
    as [?|Hmax]; [done |].
  set (plen := be_get (take 4 (drop 12 (take HeaderLen s)))) in *.
  assert (length (drop HeaderLen s) = length s - HeaderLen)%nat as Hd
    by apply length_drop.
  destruct (Z.gtb_spec plen 0) as [Hpos|Hz].
  - unfold ReadFull. case_decide as Hp; [| by destruct (drop HeaderLen s)].
    intros [= <- <-]. cbn [Op Payload]. split; [done |]. rewrite length_take, !length_drop in *. lia.
  - intros [= <- <-]. cbn [Op Payload length]. split; [done |].
    unfold MaxPayloadLen. lia.
Qed.

(** ** Hexadecimal *)

Lemma hex_val_digit v : 0 <= v < 16 -> hex_val (hex_digit v) = Some v.
Proof.
  intros Hv.
  assert (v ∈ (Z.of_nat <$> seq 0 16)) as Hin.
  { apply list_elem_of_fmap. exists (Z.to_nat v). split; [lia |].
    apply elem_of_seq. lia. }
  revert v Hv Hin. clear. intros v _ Hin.
  repeat (apply elem_of_cons in Hin as [->|Hin]; [done |]).
  by apply not_elem_of_nil in Hin.
Qed.

Lemma hex_decode_encode bs : Forall is_byte bs -> hex_decode (hex_encode bs) = Some bs.
Proof.
  induction 1 as [|b bs Hb Hbs IH]; [done |]. unfold is_byte in Hb.
  unfold hex_encode in *. rewrite bind_cons. simpl.
  rewrite !hex_val_digit.
  - rewrite IH. f_equal. f_equal. pose proof (Z_div_mod_eq_full b 16). lia.
  - apply Z.mod_pos_bound. lia.
  - split; [apply Z.div_pos; lia | apply Z.div_lt_upper_bound; lia].
Qed.

Lemma length_hex_encode bs : length (hex_encode bs) = (2 * length bs)%nat.
Proof.
  induction bs as [|b bs IH]; [done |]. unfold hex_encode in *.
  rewrite bind_cons. simpl. lia.
Qed.

Lemma hex_decode_length s bs : hex_decode s = Some bs -> length s = (2 * length bs)%nat.
Proof.
  revert s. induction bs as [|x bs IH]; intros [|a [|b s]]; simpl; try done.
  - repeat case_match; congruence.
  - repeat case_match; try done. intros [= _ <-]. rewrite (IH s) by done. lia.
Qed.

(** A lease id survives its trip through a session id. *)
Lemma decodeLeaseHex_encode id :
  length id = 16%nat -> Forall is_byte id -> decodeLeaseHex (hex_encode id) = Some id.
Proof.
  intros Hl Hb. unfold decodeLeaseHex. rewrite decide_True.
  - by apply hex_decode_encode.
  - rewrite length_hex_encode. lia.
Qed.

Lemma decodeLeaseHex_length s id : decodeLeaseHex s = Some id -> length id = 16%nat.
Proof.
  unfold decodeLeaseHex. case_decide; [| done]. intros ?%hex_decode_length. lia.
Qed.

(** ** Chunk lists on the wire *)

Lemma fromWireChunks_toWireChunks cs :
  Forall wf_ref cs -> fromWireChunks (toWireChunks cs) = cs.
Proof.
  unfold fromWireChunks, toWireChunks.
  induction 1 as [|[h o n] cs [[Hl _] _] Hcs IH]; [done |].
  rewrite !fmap_cons. cbn [WHash WOffset WLen Hash Offset Len] in *.
  rewrite decide_True by done. by rewrite IH.
Qed.

(** The wire types bound offset and length; a hash of any other length than 32
    is replaced by zeros. *)
Definition wf_wire (c : WireChunkRef) : Prop :=
  Forall is_byte (WHash c) /\ 0 <= WOffset c < 2 ^ 64 /\ 0 <= WLen c < 2 ^ 32.

Lemma fromWireChunks_wf l : Forall wf_wire l -> Forall wf_ref (fromWireChunks l).
Proof.
  unfold fromWireChunks.
  induction 1 as [|c l (Hh & Ho & Hn) Hl IH]; [constructor |].
  rewrite fmap_cons. constructor; [| done].
  unfold wf_ref, wf_hash. cbn [Hash Offset Len]. split; [| done].
  case_decide; [done |]. split; [apply length_replicate |].
  apply Forall_replicate. unfold is_byte. lia.
Qed.
