(* ===== verification/TenantDB.v ===== *)
(** * The tenant database

    The tables of a tenant's SQLite database (tenantdb.go
    [ensureTenantSchema], journal.go [EnsureSchema]), transactions on them, and
    the operations of the other source files that only touch one table: the
    change counter and the tombstones (changes.go), the chunk reference counts
    and the parent check (manifests.go).

    A table is a finite map from its primary key to the other columns.  A
    transaction is a function of the database that returns a value and the new
    database, or an error; the handle has one connection
    ([SetMaxOpenConns(1)]), so transactions do not overlap, and a transaction
    that fails is rolled back.  I/O errors of SQLite are not modelled. *)

From S2P Require Import Prelude GoPath Codec.

(** ** Rows *)

(** Row of [manifests]; the key is the path. *)
Record mrow := mkMrow {
  m_inode : Z; m_size : Z; m_mode : Z; m_mtime : Z; m_version : Z;
  m_chunks : blob; m_uid : Z; m_gid : Z; m_atime : Z; m_rev : Z }.

(** Row of [symlinks]. *)
Record slrow := mkSlrow {
  sl_target : gostr; sl_mode : Z; sl_mtime : Z; sl_uid : Z; sl_gid : Z;
  sl_atime : Z; sl_rev : Z }.

(** Row of [special_nodes]. *)
Record snrow := mkSnrow {
  sn_mode : Z; sn_rdev : Z; sn_mtime : Z; sn_uid : Z; sn_gid : Z;
  sn_atime : Z; sn_rev : Z }.

(** Row of [dir_entries]; the key is [(parent, name)]. *)
Record derow := mkDerow {
  de_mode : Z; de_mtime : Z; de_uid : Z; de_gid : Z; de_atime : Z; de_rev : Z }.

(** The columns' defaults: [mode] 493, the others 0. *)
Definition de_default : derow := mkDerow 493 0 0 0 0 0.

(** Row of [change_tombstones]. *)
Record tsrow := mkTsrow { ts_rev : Z; ts_unix_ms : Z }.

(** Row of [chunks]; [refcount] has the constraint [check (refcount >= 0)]. *)
Record chrow := mkChrow { ch_size : Z; ch_refcount : Z; ch_added_at : Z }.

Inductive SessionOp := SessionOpCreate | SessionOpUpdate | SessionOpDelete | SessionOpRename.

#[export] Instance SessionOp_eq_dec : EqDecision SessionOp.
Proof. solve_decision. Defined.

(** Row of [session_journal], with SQLite's [rowid].  A nullable column is an
    option. *)
Record jrow := mkJrow {
  j_session_id : gostr; j_seq : Z; j_path : gostr; j_op : SessionOp;
  j_before_version : option Z; j_before_manifest : option blob;
  j_rename_from : option gostr; j_ts_unix_ms : Z; j_after_version : option Z;
  j_agent_id : gostr; j_allocation_id : option gostr; j_rowid : Z }.

Record tdb := mkTdb {
  manifests : gmap gostr mrow;
  symlinks : gmap gostr slrow;
  special_nodes : gmap gostr snrow;
  dir_entries : gmap (gostr * gostr) derow;
  change_tombstones : gmap gostr tsrow;
  chunks : gmap hash chrow;
  inode_next_id : Z;
  last_rev : Z;
  pruned_before_rev : Z;
  session_journal : list jrow }.

(** A fresh database after [ensureTenantSchema]. *)
Definition emptyDB : tdb := mkTdb ∅ ∅ ∅ ∅ ∅ ∅ 0 0 0 [].

Definition set_manifests (x : gmap gostr mrow) (d : tdb) : tdb :=
  mkTdb x (symlinks d) (special_nodes d) (dir_entries d) (change_tombstones d)
    (chunks d) (inode_next_id d) (last_rev d) (pruned_before_rev d) (session_journal d).
Definition set_symlinks (x : gmap gostr slrow) (d : tdb) : tdb :=
  mkTdb (manifests d) x (special_nodes d) (dir_entries d) (change_tombstones d)
    (chunks d) (inode_next_id d) (last_rev d) (pruned_before_rev d) (session_journal d).
Definition set_special_nodes (x : gmap gostr snrow) (d : tdb) : tdb :=
  mkTdb (manifests d) (symlinks d) x (dir_entries d) (change_tombstones d)
    (chunks d) (inode_next_id d) (last_rev d) (pruned_before_rev d) (session_journal d).
Definition set_dir_entries (x : gmap (gostr * gostr) derow) (d : tdb) : tdb :=
  mkTdb (manifests d) (symlinks d) (special_nodes d) x (change_tombstones d)
    (chunks d) (inode_next_id d) (last_rev d) (pruned_before_rev d) (session_journal d).
Definition set_change_tombstones (x : gmap gostr tsrow) (d : tdb) : tdb :=
  mkTdb (manifests d) (symlinks d) (special_nodes d) (dir_entries d) x
    (chunks d) (inode_next_id d) (last_rev d) (pruned_before_rev d) (session_journal d).
Definition set_chunks (x : gmap hash chrow) (d : tdb) : tdb :=
  mkTdb (manifests d) (symlinks d) (special_nodes d) (dir_entries d) (change_tombstones d)
    x (inode_next_id d) (last_rev d) (pruned_before_rev d) (session_journal d).
Definition set_inode_next_id (x : Z) (d : tdb) : tdb :=
  mkTdb (manifests d) (symlinks d) (special_nodes d) (dir_entries d) (change_tombstones d)
    (chunks d) x (last_rev d) (pruned_before_rev d) (session_journal d).
Definition set_last_rev (x : Z) (d : tdb) : tdb :=
  mkTdb (manifests d) (symlinks d) (special_nodes d) (dir_entries d) (change_tombstones d)
    (chunks d) (inode_next_id d) x (pruned_before_rev d) (session_journal d).
Definition set_pruned_before_rev (x : Z) (d : tdb) : tdb :=
  mkTdb (manifests d) (symlinks d) (special_nodes d) (dir_entries d) (change_tombstones d)
    (chunks d) (inode_next_id d) (last_rev d) x (session_journal d).
Definition set_session_journal (x : list jrow) (d : tdb) : tdb :=
  mkTdb (manifests d) (symlinks d) (special_nodes d) (dir_entries d) (change_tombstones d)
    (chunks d) (inode_next_id d) (last_rev d) (pruned_before_rev d) x.

(** ** The [Manifest] value of manifests.go *)

Record Manifest := mkManifest {
  mf_Path : gostr; mf_InodeID : Z; mf_Nlink : Z; mf_Size : Z; mf_Mode : Z;
  mf_Mtime : Z; mf_Version : Z; mf_Chunks : list ChunkRef; mf_Uid : Z; mf_Gid : Z;
  mf_Atime : Z }.

(** ** Errors *)

Inductive err :=
| ErrManifestNotFound
| ErrVersionConflict                      (* the bare sentinel *)
| VersionConflictError (Existing : Z)     (* wraps ErrVersionConflict *)
| ErrParentNotFound
| ErrAlreadyExists
| ErrNotEmpty
| ErrNotDir
| ErrIsDir
| ErrConstraint                           (* a SQL constraint failed *)
| ErrBind                                 (* uint64 argument with its high bit set *)
| ErrMsg (msg : string).                  (* fmt.Errorf without a sentinel *)

#[export] Instance err_eq_dec : EqDecision err.
Proof. solve_decision. Defined.

(** [errors.Is(err, ErrVersionConflict)]. *)
Definition is_version_conflict (e : err) : bool :=
  match e with ErrVersionConflict | VersionConflictError _ => true | _ => false end.

(** ** Transactions *)

Definition tx (A : Type) : Type := tdb -> result err (A * tdb).

#[export] Instance tx_ret : MRet tx := fun A a d => Ok (a, d).
#[export] Instance tx_bind : MBind tx := fun A B k m d =>
  match m d with Ok (a, d') => k a d' | Err e => Err e end.

Definition throw {A} (e : err) : tx A := fun _ => Err e.
Definition query {A} (f : tdb -> A) : tx A := fun d => Ok (f d, d).
Definition modify (f : tdb -> tdb) : tx unit := fun d => Ok (tt, f d).

(** [require b e]: return [e] unless [b]. *)
Definition require (b : bool) (e : err) : tx unit := if b then mret tt else throw e.

(** Binding a [uint64] as a SQL argument: database/sql refuses the values that
    do not fit an [int64]. *)
Definition bind_u64 (v : Z) : tx unit := require (v <? 2 ^ 63) ErrBind.

(** ** The change counter and the tombstones (changes.go) *)

Definition allocChangeRevTx : tx Z :=
  _ ← modify (fun d => set_last_rev (last_rev d + 1) d);
  query last_rev.

Definition upsertTombstoneTx (now : Z) (p : gostr) (rev : Z) : tx unit :=
  modify (fun d => set_change_tombstones (<[p := mkTsrow rev now]> (change_tombstones d)) d).

Definition clearTombstoneTx (p : gostr) : tx unit :=
  modify (fun d => set_change_tombstones (delete p (change_tombstones d)) d).

(** [path = p or path like escapeLike(p)||'/%' escape '\']. *)
Definition in_subtree_sql (p q : gostr) : bool :=
  bool_decide (q = p) || like_esc (escapeLike p ++ str "/%") q.

Definition clearTombstoneSubtreeTx (p : gostr) : tx unit :=
  modify (fun d => set_change_tombstones
    (filter (fun kx => in_subtree_sql p kx.1 = false) (change_tombstones d)) d).

(** [case when parent = '/' then '/' || name else parent || '/' || name end]. *)
Definition full_path (k : gostr * gostr) : gostr := sqlFullPath k.1 k.2.

(** [insert ... select path from t ... on conflict(path) do update]. *)
Definition tombstone_all (ps : list gostr) (row : tsrow) (t : gmap gostr tsrow) : gmap gostr tsrow :=
  foldr (fun p acc => <[p := row]> acc) t ps.

Definition keys_of {A} (m : gmap gostr A) : list gostr := (map_to_list m).*1.

Definition subtree_paths (p : gostr) (d : tdb) : list gostr :=
  filter (fun q => in_subtree_sql p q = true)
    (keys_of (manifests d) ++ keys_of (symlinks d) ++ keys_of (special_nodes d) ++
     (full_path <$> (map_to_list (dir_entries d)).*1)).

Definition tombstoneSubtreeTx (now : Z) (p : gostr) (rev : Z) : tx unit :=
  modify (fun d => set_change_tombstones
    (tombstone_all (subtree_paths p d) (mkTsrow rev now) (change_tombstones d)) d).

(** ** Inodes and hard links *)

(** [update inode_counter set next_id = next_id + 1 ... returning next_id]. *)
Definition allocInode : tx Z :=
  _ ← modify (fun d => set_inode_next_id (inode_next_id d + 1) d);
  query inode_next_id.

Definition links (i : Z) (d : tdb) : gmap gostr mrow :=
  filter (fun kx => m_inode kx.2 = i) (manifests d).

(** The number of rows of [manifests] where [inode_id = i]. *)
Definition nlink (i : Z) (d : tdb) : Z := Z.of_nat (size (links i d)).

(** [update manifests set ... where inode_id = i]. *)
Definition update_inode (i : Z) (f : mrow -> mrow) (d : tdb) : tdb :=
  set_manifests ((fun r => if decide (m_inode r = i) then f r else r) <$> manifests d) d.

Definition set_m_rev (rev : Z) (r : mrow) : mrow :=
  mkMrow (m_inode r) (m_size r) (m_mode r) (m_mtime r) (m_version r) (m_chunks r)
    (m_uid r) (m_gid r) (m_atime r) rev.

(** [update manifests set rev = ? where inode_id = ?]. *)
Definition restampTx (i rev : Z) : tx unit := modify (update_inode i (set_m_rev rev)).

(** ** Directory entries *)

Definition has_entry (parent name : gostr) (d : tdb) : bool :=
  bool_decide (is_Some (dir_entries d !! (parent, name))).

(** [select 1 from dir_entries where parent = ?]. *)
Definition has_children (p : gostr) (d : tdb) : bool :=
  bool_decide (map_Exists (fun k _ => k.1 = p) (dir_entries d)).

(** [insert or ignore into dir_entries(parent, name)]. *)
Definition insertEntryOrIgnoreTx (parent name : gostr) : tx unit :=
  modify (fun d => if has_entry parent name d then d
                   else set_dir_entries (<[(parent, name) := de_default]> (dir_entries d)) d).

(** [insert into dir_entries ...]: a second row for a key violates it. *)
Definition insertEntryTx (parent name : gostr) (row : derow) : tx unit :=
  b ← query (has_entry parent name);
  _ ← require (negb b) ErrConstraint;
  modify (fun d => set_dir_entries (<[(parent, name) := row]> (dir_entries d)) d).

Definition deleteEntryTx (parent name : gostr) : tx unit :=
  modify (fun d => set_dir_entries (delete (parent, name) (dir_entries d)) d).

Definition removeDirEntryTx (p : gostr) : tx unit :=
  let '(parent, name) := splitParentName p in
  if decide (name = []) then mret tt else deleteEntryTx parent name.

Definition checkParentExists (p : gostr) : tx unit :=
  let parent := (splitParentName p).1 in
  if decide (parent = [slash]) then mret tt
  else
    let '(grandparent, parentName) := splitParentName parent in
    b ← query (has_entry grandparent parentName);
    require b ErrParentNotFound.

(** ** Chunk reference counts *)

(** [m[k] += n] on a Go map of integers. *)
Definition bump (n : Z) (h : hash) (m : gmap hash Z) : gmap hash Z :=
  <[h := default 0 (m !! h) + n]> m.

Definition chunkRefDelta (old new : list ChunkRef) : gmap hash Z :=
  let m := foldl (fun m r => bump 1 (Hash r) m) ∅ new in
  foldl (fun m r => bump (-1) (Hash r) m) m old.

(** [update chunks set refcount = refcount + n where hash = h]. *)
Definition addRefcountTx (h : hash) (n : Z) : tx unit :=
  r ← query (fun d => chunks d !! h);
  match r with
  | None => mret tt
  | Some c =>
      let rc := ch_refcount c + n in
      _ ← require (0 <=? rc) ErrConstraint;
      modify (fun d =>
        set_chunks (<[h := mkChrow (ch_size c) rc (ch_added_at c)]> (chunks d)) d)
  end.

(** [insert into chunks ... on conflict(hash) do nothing]. *)
Definition initChunkTx (h : hash) (size added_at : Z) : tx unit :=
  modify (fun d => match chunks d !! h with
                   | Some _ => d
                   | None => set_chunks (<[h := mkChrow size 0 added_at]> (chunks d)) d
                   end).

Fixpoint applyDeltas (l : list (hash * Z)) : tx unit :=
  match l with
  | [] => mret tt
  | (h, n) :: l' =>
      if decide (n = 0) then applyDeltas l'
      else
        _ ← initChunkTx h 0 0;
        _ ← addRefcountTx h n;
        applyDeltas l'
  end.

(** The iteration order of a Go map is unspecified; the model takes the order
    of the finite map. *)
Definition applyChunkRefDelta (delta : gmap hash Z) : tx unit :=
  applyDeltas (map_to_list delta).

Definition NoteChunkStored (h : hash) (size addedAt : Z) : tx unit :=
  initChunkTx h size addedAt.

(** [UsedBytes]. *)
Definition UsedBytes (d : tdb) : Z * Z :=
  (map_sum ch_size (chunks d), Z.of_nat (size (chunks d))).

(** ** Reasoning about transactions *)

Lemma tx_bind_Ok {A B} (m : tx A) (k : A -> tx B) d b d' :
  (m ≫= k) d = Ok (b, d') <-> exists a d1, m d = Ok (a, d1) /\ k a d1 = Ok (b, d').
Proof.
  unfold mbind, tx_bind. destruct (m d) as [[a d1]|e].
  - split; [eauto |]. by intros (? & ? & [= <- <-] & ?).
  - split; [done |]. by intros (? & ? & ? & ?).
Qed.

Lemma tx_bind_eq {A B} (m : tx A) (k : A -> tx B) d a d1 :
  m d = Ok (a, d1) -> (m ≫= k) d = k a d1.
Proof. unfold mbind, tx_bind. by intros ->. Qed.

Lemma tx_bind_err {A B} (m : tx A) (k : A -> tx B) d e :
  m d = Err e -> (m ≫= k) d = Err e.
Proof. unfold mbind, tx_bind. by intros ->. Qed.

Lemma tx_ret_Ok {A} (a b : A) d d' : (mret a : tx A) d = Ok (b, d') <-> a = b /\ d = d'.
Proof. unfold mret, tx_ret. split; [by intros [= <- <-] | by intros [<- <-]]. Qed.

Lemma require_Ok b e d u d' : require b e d = Ok (u, d') <-> b = true /\ d' = d.
Proof.
  unfold require. destruct b.
  - rewrite tx_ret_Ok. destruct u. split; [by intros [_ ->] | by intros [_ ->]].
  - unfold throw. split; [done | by intros [? _]].
Qed.

Lemma require_true e d : require true e d = Ok (tt, d).
Proof. done. Qed.

Lemma require_false e d : require false e d = Err e.
Proof. done. Qed.

(** [tx_inv H] takes a successful run apart: each bind gives its intermediate
    value and database, each primitive its effect. *)
Ltac tx_step H :=
  first
    [ apply tx_bind_Ok in H;
      let a := fresh "a" in let d := fresh "d" in let H1 := fresh "H" in
      destruct H as (a & d & H1 & H); tx_step H1
    | apply tx_ret_Ok in H as [? ?]; simplify_eq
    | apply require_Ok in H as [? ?]; simplify_eq
    | (unfold modify in H; simplify_eq)
    | (unfold query in H; simplify_eq)
    | (unfold throw in H; simplify_eq)
    | idtac ].
Ltac tx_inv H := repeat (progress tx_step H).

Create Rewrite HintDb tdb.
#[export] Hint Rewrite @require_true @require_false : tdb.

(** ** Reference counts *)

(** The count of a hash; a missing row counts 0. *)
Definition rc (h : hash) (d : tdb) : Z :=
  match chunks d !! h with Some c => ch_refcount c | None => 0 end.

(** How often a chunk list mentions a hash. *)
Fixpoint occ (h : hash) (cs : list ChunkRef) : Z :=
  match cs with
  | [] => 0
  | c :: cs' => (if decide (Hash c = h) then 1 else 0) + occ h cs'
  end.

Lemma occ_nonneg h cs : 0 <= occ h cs.
Proof. induction cs as [|c cs IH]; simpl; [lia |]. case_decide; lia. Qed.

Lemma occ_pos h cs : 0 < occ h cs <-> h ∈ (Hash <$> cs).
Proof.
  induction cs as [|c cs IH]; simpl.
  - split; [lia | by intros ?%elem_of_nil].
  - rewrite elem_of_cons, <- IH. pose proof (occ_nonneg h cs).
    case_decide as Hc; [split; [by left | lia] |].
    rewrite Z.add_0_l. split; [by right |]. by intros [->|?].
Qed.

Lemma default_bump n h k m :
  default 0 (bump n h m !! k) = default 0 (m !! k) + (if decide (h = k) then n else 0).
Proof.
  unfold bump. case_decide as Hc.
  - subst. by rewrite lookup_insert_eq.
  - rewrite lookup_insert_ne by done. lia.
Qed.

Lemma foldl_bump n h cs m :
  default 0 (foldl (fun m r => bump n (Hash r) m) m cs !! h) =
  default 0 (m !! h) + n * occ h cs.
Proof.
  revert m. induction cs as [|c cs IH]; intros m; simpl; [lia |].
  rewrite IH, default_bump. case_decide; lia.
Qed.

(** The delta of a hash is the change of its number of occurrences. *)
Lemma chunkRefDelta_lookup old new h :
  default 0 (chunkRefDelta old new !! h) = occ h new - occ h old.
Proof. unfold chunkRefDelta. rewrite !foldl_bump, lookup_empty. simpl. lia. Qed.

Lemma rc_initChunk h k s a d :
  rc k (match chunks d !! h with
        | Some _ => d
        | None => set_chunks (<[h := mkChrow s 0 a]> (chunks d)) d
        end) = rc k d.
Proof.
  destruct (chunks d !! h) eqn:Hh; [done |]. unfold rc. simpl.
  destruct (decide (h = k)) as [->|Hne].
  - by rewrite lookup_insert_eq, Hh.
  - by rewrite lookup_insert_ne.
Qed.

(** One iteration of the loop of [applyChunkRefDelta]. *)
Lemma applyDelta_step h n d :
  (_ ← initChunkTx h 0 0; addRefcountTx h n) d =
  if 0 <=? rc h d + n
  then Ok (tt, set_chunks (<[h := mkChrow (default 0 (ch_size <$> chunks d !! h)) (rc h d + n)
                        (default 0 (ch_added_at <$> chunks d !! h))]> (chunks d)) d)
  else Err ErrConstraint.
Proof.
  unfold mbind, tx_bind, initChunkTx, modify, rc.
  destruct (chunks d !! h) as [c|] eqn:Hh.
  - unfold addRefcountTx, mbind, tx_bind, query. rewrite Hh. simpl.
    by destruct (0 <=? ch_refcount c + n).
  - unfold addRefcountTx, mbind, tx_bind, query. simpl. rewrite lookup_insert_eq. simpl.
    unfold require, throw, mret, tx_ret, modify. destruct n; try done;
      simpl; by rewrite insert_insert_eq.
Qed.

Lemma applyDeltas_cons h n l d :
  n <> 0 ->
  applyDeltas ((h, n) :: l) d =
  match (_ ← initChunkTx h 0 0; addRefcountTx h n) d with
  | Ok (_, d1) => applyDeltas l d1
  | Err e => Err e
  end.
Proof.
  intros Hn. simpl. rewrite decide_False by done. unfold mbind, tx_bind.
  by destruct (initChunkTx h 0 0 d) as [[[] d1]|].
Qed.

Lemma rc_set_chunks_insert h k c d :
  rc k (set_chunks (<[h := c]> (chunks d)) d) = if decide (h = k) then ch_refcount c else rc k d.
Proof.
  unfold rc. simpl. case_decide as Hc.
  - subst. by rewrite lookup_insert_eq.
  - by rewrite lookup_insert_ne.
Qed.

Lemma applyDeltas_Ok l d u d' :
  NoDup l.*1 -> applyDeltas l d = Ok (u, d') ->
  d' = set_chunks (chunks d') d /\
  forall h, rc h d' = rc h d + default 0 ((list_to_map l : gmap hash Z) !! h).
Proof.
  revert d. induction l as [|[h n] l IH]; intros d Hnd.
  - intros [_ <-]%tx_ret_Ok. split; [by destruct d |]. intros h. simpl list_to_map.
    rewrite lookup_empty. simpl. lia.
  - apply NoDup_cons in Hnd as [Hni Hnd]. simpl list_to_map.
    destruct (decide (n = 0)) as [->|Hn].
    + intros Hl. change (applyDeltas l d = Ok (u, d')) in Hl.
      destruct (IH d Hnd Hl) as [He Hrc]. split; [done |]. intros k. rewrite Hrc.
      destruct (decide (h = k)) as [->|Hne].
      * rewrite lookup_insert_eq, not_elem_of_list_to_map_1 by done. done.
      * by rewrite lookup_insert_ne.
    + rewrite applyDeltas_cons, applyDelta_step by done.
      destruct (0 <=? rc h d + n) eqn:Hp; [| done]. intros Hl.
      destruct (IH _ Hnd Hl) as [He Hrc].
      split; [rewrite He; by destruct d |]. intros k. rewrite Hrc, rc_set_chunks_insert.
      case_decide as Hk; simpl.
      * subst. rewrite lookup_insert_eq, not_elem_of_list_to_map_1 by done. simpl. lia.
      * by rewrite lookup_insert_ne.
Qed.

Lemma applyDeltas_total l d :
  NoDup l.*1 ->
  (forall h, 0 <= rc h d + default 0 ((list_to_map l : gmap hash Z) !! h)) ->
  exists d', applyDeltas l d = Ok (tt, d').
Proof.
  revert d. induction l as [|[h n] l IH]; intros d Hnd Hpos; [by exists d |].
  apply NoDup_cons in Hnd as [Hni Hnd]. simpl list_to_map in Hpos.
  pose proof (Hpos h) as Hh. rewrite lookup_insert_eq in Hh. simpl in Hh.
  assert (forall d1, rc h d1 = rc h d + n -> (forall k, k <> h -> rc k d1 = rc k d) ->
    forall k, 0 <= rc k d1 + default 0 ((list_to_map l : gmap hash Z) !! k)) as Hgo.
  { intros d1 H1 H2 k. specialize (Hpos k). destruct (decide (h = k)) as [->|Hne].
    - rewrite not_elem_of_list_to_map_1 by done. simpl. lia.
    - rewrite lookup_insert_ne in Hpos by done. rewrite H2 by done. lia. }
  destruct (decide (n = 0)) as [->|Hn].
  - change (exists d', applyDeltas l d = Ok (tt, d')).
    apply IH; [done |]. apply Hgo; [lia | done].
  - rewrite applyDeltas_cons, applyDelta_step by done.
    replace (0 <=? rc h d + n) with true by lia. apply IH; [done |]. apply Hgo.
    + rewrite rc_set_chunks_insert, decide_True by done. done.
    + intros k Hk. by rewrite rc_set_chunks_insert, decide_False.
Qed.

(** [applyChunkRefDelta] touches only the counts, and adds the delta. *)
Lemma applyChunkRefDelta_Ok delta d u d' :
  applyChunkRefDelta delta d = Ok (u, d') ->
  d' = set_chunks (chunks d') d /\ forall h, rc h d' = rc h d + default 0 (delta !! h).
Proof.
  intros H%applyDeltas_Ok; [| apply NoDup_fst_map_to_list].
  by rewrite list_to_map_to_list in H.
Qed.

(** It succeeds when no count would become negative. *)
Lemma applyChunkRefDelta_total delta d :
  (forall h, 0 <= rc h d + default 0 (delta !! h)) ->
  exists d', applyChunkRefDelta delta d = Ok (tt, d').
Proof.
  intros H. apply applyDeltas_total; [apply NoDup_fst_map_to_list |].
  by rewrite list_to_map_to_list.
Qed.
