(* ===== verification/Journal.v ===== *)
(** * The session journal

    journal.go: the rows that record the inverse of each write of a session,
    how a write appends one in its own transaction ([appendJournal],
    [journalBeforeWrite]), the blob that holds the state before the write
    ([encodeJournalManifest], [decodeJournalManifest]), and the queries on the
    table with their keyset cursor.

    msgpack is not part of the repository: the class [MsgPack] has its two
    functions, and [MsgPackLaws] the documented behaviour that decoding an
    encoded value gives the value. *)

From S2P Require Import Prelude GoPath Codec TenantDB.

(** ** The before-state blob *)

Record journalChunkRef := mkJcr { jc_Hash : list Z; jc_Offset : Z; jc_Len : Z }.

Record journalManifestBlob := mkJmb {
  jb_Size : Z; jb_Mode : Z; jb_Mtime : Z; jb_Version : Z;
  jb_Chunks : list journalChunkRef }.

Class MsgPack := {
  Marshal : journalManifestBlob -> blob;
  Unmarshal : blob -> option journalManifestBlob }.

Class MsgPackLaws (MP : MsgPack) := {
  Unmarshal_Marshal : forall b, Unmarshal (Marshal b) = Some b;
  Marshal_nonempty : forall b, Marshal b <> [] }.

(** ** Entries *)

Record SessionJournalEntry := mkEntry {
  je_SessionID : gostr; je_AllocationID : gostr; je_AgentID : gostr; je_Seq : Z;
  je_Path : gostr; je_Op : SessionOp; je_BeforeVersion : option Z;
  je_AfterVersion : option Z; je_BeforeManifest : option blob; je_RenameFrom : gostr;
  je_TsUnixMs : Z }.

(** Rows of one session. *)
Definition of_session (sid : gostr) (j : list jrow) : list jrow :=
  filter (fun r => j_session_id r = sid) j.

(** [coalesce(max(seq), 0)] over the rows of a session. *)
Definition max_seq (sid : gostr) (j : list jrow) : Z :=
  foldr (fun r acc => Z.max (j_seq r) acc) 0 (of_session sid j).

(** SQLite's rowid of the next row: the largest one plus 1. *)
Definition next_rowid (j : list jrow) : Z :=
  foldr (fun r acc => Z.max (j_rowid r) acc) 0 j + 1.

(** The row of a session with the largest seq. *)
Definition top_row (sid : gostr) (j : list jrow) : option jrow :=
  foldl (fun acc r => match acc with
                      | Some a => if j_seq a <? j_seq r then Some r else acc
                      | None => Some r
                      end) None (of_session sid j).

Section journal.
Context {MP : MsgPack}.

Definition encodeJournalManifest (mf : Manifest) : blob :=
  Marshal (mkJmb (mf_Size mf) (mf_Mode mf) (mf_Mtime mf) (mf_Version mf)
    ((fun c => mkJcr (Hash c) (Offset c) (Len c)) <$> mf_Chunks mf)).

Definition decodeRef (c : journalChunkRef) : option ChunkRef :=
  if decide (length (jc_Hash c) = HashLen)
  then Some (mkChunkRef (jc_Hash c) (jc_Offset c) (jc_Len c)) else None.

(** The decoded manifest has only the fields of the blob; owner, access time
    and inode are zero. *)
Definition decodeJournalManifest (p : gostr) (b : blob) : option Manifest :=
  raw ← Unmarshal b;
  cs ← mapM decodeRef (jb_Chunks raw);
  Some (mkManifest p 0 0 (jb_Size raw) (jb_Mode raw) (jb_Mtime raw) (jb_Version raw)
          cs 0 0 0).

Definition appendJournal (now : Z) (sessionID allocationID agentID : gostr)
    (op : SessionOp) (path : gostr) (beforeVersion afterVersion : option Z)
    (beforeManifest : option blob) (renameFrom : gostr) : tx unit :=
  _ ← require (bool_decide (sessionID <> [])) (ErrMsg "appendJournal: empty session_id");
  _ ← require (bool_decide (allocationID <> [])) (ErrMsg "appendJournal: empty allocation_id");
  modify (fun d =>
    let j := session_journal d in
    let row := mkJrow sessionID (max_seq sessionID j + 1) path op (i64 <$> beforeVersion)
                 beforeManifest (if decide (renameFrom = []) then None else Some renameFrom)
                 now (i64 <$> afterVersion) agentID (Some allocationID) (next_rowid j) in
    set_session_journal (j ++ [row]) d).

Definition journalBeforeWrite (now : Z) (sessionID allocationID agentID : gostr)
    (op : SessionOp) (path : gostr) (priorMf : option Manifest) (afterVersion : option Z)
    (renameFrom : gostr) : tx SessionJournalEntry :=
  let beforeVer := mf_Version <$> priorMf in
  let beforeBlob := encodeJournalManifest <$> priorMf in
  _ ← appendJournal now sessionID allocationID agentID op path beforeVer afterVersion
        beforeBlob renameFrom;
  r ← query (fun d => top_row sessionID (session_journal d));
  match r with
  | None => throw (ErrMsg "read back journal seq")
  | Some row =>
      mret (mkEntry sessionID allocationID agentID (j_seq row) path op beforeVer
              afterVersion beforeBlob renameFrom (j_ts_unix_ms row))
  end.
End journal.

(** ** Queries *)

Definition DeleteRow (sessionID : gostr) (seq : Z) : tx unit :=
  modify (fun d => set_session_journal
    (filter (fun r => ~ (j_session_id r = sessionID /\ j_seq r = seq)) (session_journal d)) d).

Record LastWriterRow := mkLastWriter {
  lw_AgentID : gostr; lw_SessionID : gostr; lw_AtUnixMs : Z }.

(** [order by ts_unix_ms desc, seq desc, rowid desc]. *)
Definition writer_newer (a b : jrow) : bool :=
  (j_ts_unix_ms b <? j_ts_unix_ms a)
  || ((j_ts_unix_ms a =? j_ts_unix_ms b) &&
      ((j_seq b <? j_seq a) || ((j_seq a =? j_seq b) && (j_rowid b <? j_rowid a)))).

(** The first row of an order: [order by ... limit 1]. *)
Definition first_by (newer : jrow -> jrow -> bool) (l : list jrow) : option jrow :=
  foldl (fun acc r => match acc with
                      | Some a => if newer r a then Some r else acc
                      | None => Some r
                      end) None l.

Definition LookupLastWriter (p : gostr) (d : tdb) : option LastWriterRow :=
  r ← first_by writer_newer (filter (fun r => j_path r = p) (session_journal d));
  Some (mkLastWriter (j_agent_id r) (j_session_id r) (j_ts_unix_ms r)).

(** [select distinct allocation_id ... is not null and != '']. *)
Definition ListAllocations (d : tdb) : list gostr :=
  remove_dups (filter (fun a => a <> [])
    (omap j_allocation_id (session_journal d))).

(** [select allocation_id, count from session_journal group by allocation_id]: a NULL
    allocation does not scan into a string. *)
Definition SnapshotRowCounts (d : tdb) : option (gmap gostr Z) :=
  if decide (Forall (fun r => is_Some (j_allocation_id r)) (session_journal d))
  then Some (foldr (fun r m => let a := default [] (j_allocation_id r) in
                               <[a := default 0 (m !! a) + 1]> m) ∅ (session_journal d))
  else None.

Record JournalQueryRow := mkJqr {
  jq_SessionID : gostr; jq_AllocationID : gostr; jq_Seq : Z; jq_TsUnixMs : Z;
  jq_Path : gostr; jq_Op : SessionOp; jq_AgentID : gostr; jq_BeforeVersion : option Z;
  jq_AfterVersion : option Z; jq_RenameFrom : gostr; jq_SizeBefore : option Z;
  jq_SizeAfter : option Z }.

Section scan.
Context {MP : MsgPack}.

(** [scanJournalRow] of a row joined with [manifests] on the path. *)
Definition scanJournalRow (d : tdb) (r : jrow) : JournalQueryRow :=
  let sizeBefore :=
    match j_before_manifest r with
    | Some ((_ :: _) as b) => mf_Size <$> decodeJournalManifest (j_path r) b
    | _ => None
    end in
  let sizeAfter :=
    if decide (j_op r = SessionOpDelete) then None
    else (fun m => u64 (m_size m)) <$> manifests d !! j_path r in
  mkJqr (j_session_id r) (default [] (j_allocation_id r)) (j_seq r) (j_ts_unix_ms r)
    (j_path r) (j_op r) (j_agent_id r) (u64 <$> j_before_version r)
    (u64 <$> j_after_version r) (default [] (j_rename_from r)) sizeBefore sizeAfter.
End scan.

(** ** The keyset cursor: [strconv.FormatInt] and [ParseInt] in base 10 *)

Definition digit (n : Z) : ascii := ascii_of_N (Z.to_N (48 + n)).

Fixpoint format_nat (fuel : nat) (n : Z) : gostr :=
  match fuel with
  | O => []
  | S fuel' => if n <? 10 then [digit n] else format_nat fuel' (n / 10) ++ [digit (n mod 10)]
  end.

Definition FormatInt (n : Z) : gostr :=
  if n <? 0 then "-"%char :: format_nat 20 (- n) else format_nat 20 n.

Definition digit_val (c : ascii) : option Z :=
  let v := byteval c in
  if (48 <=? v) && (v <=? 57) then Some (v - 48) else None.

Definition parse_digits (s : gostr) : option Z :=
  foldl (fun acc c => a ← acc; v ← digit_val c; Some (a * 10 + v)) (Some 0) s.

Definition ParseInt (s : gostr) : option Z :=
  let '(neg, ds) := match s with
                    | c :: s' => if decide (c = "-"%char) then (true, s')
                                 else if decide (c = "+"%char) then (false, s')
                                 else (false, s)
                    | [] => (false, [])
                    end in
  match ds with
  | [] => None
  | _ =>
      n ← parse_digits ds;
      let v := if (neg : bool) then - n else n in
      if decide (- 2 ^ 63 <= v < 2 ^ 63) then Some v else None
  end.

(** [strings.Cut(s, ".")]. *)
Fixpoint cut_dot (s : gostr) : option (gostr * gostr) :=
  match s with
  | [] => None
  | c :: s' => if decide (c = dot) then Some ([], s')
               else '(a, b) ← cut_dot s'; Some (c :: a, b)
  end.

Definition encodeJournalCursor (tsUnixMs rowid : Z) : gostr :=
  FormatInt tsUnixMs ++ [dot] ++ FormatInt rowid.

Definition decodeJournalCursor (s : gostr) : Z * Z :=
  match cut_dot s with
  | None => (0, 0)
  | Some (a, b) =>
      match ParseInt a, ParseInt b with
      | Some ts, Some rid => (ts, rid)
      | _, _ => (0, 0)
      end
  end.

(** ** [Query] and [QueryAfterSeq] *)

(** [order by ts_unix_ms desc, rowid desc]: [a] comes before [b]. *)
Definition newer (a b : jrow) : bool :=
  (j_ts_unix_ms b <? j_ts_unix_ms a)
  || ((j_ts_unix_ms a =? j_ts_unix_ms b) && (j_rowid b <? j_rowid a)).

Definition newer_eq (a b : jrow) : Prop := newer b a = false.

#[export] Instance newer_eq_dec : RelDecision newer_eq.
Proof. intros a b. unfold newer_eq. apply _. Defined.

Definition after_cursor (cur : Z * Z) (r : jrow) : bool :=
  (cur.1 =? 0) || (j_ts_unix_ms r <? cur.1)
  || ((j_ts_unix_ms r =? cur.1) && (j_rowid r <? cur.2)).

Definition clampLimit (limit : Z) : Z :=
  let limit := if limit =? 0 then 50 else limit in
  if limit >? 200 then 200 else limit.

(** [where allocation_id = ?], or [where allocation_id in (...)]. *)
Definition selected (allocationID : gostr) (userAllocations : list gostr) (r : jrow) : bool :=
  match j_allocation_id r with
  | None => false
  | Some a => if decide (allocationID = []) then bool_decide (a ∈ userAllocations)
              else bool_decide (a = allocationID)
  end.

Definition select_journal (allocationID : gostr) (userAllocations : list gostr) (d : tdb) : list jrow :=
  filter (fun r => selected allocationID userAllocations r = true) (session_journal d).

Section query.
Context {MP : MsgPack}.

Definition Query (allocationID : gostr) (limit : Z) (cursor : gostr)
    (userAllocations : list gostr) (d : tdb) : list JournalQueryRow * gostr :=
  let limit := clampLimit limit in
  let cur := decodeJournalCursor cursor in
  if decide (allocationID = [] /\ userAllocations = []) then ([], [])
  else
    let rows := page (after_cursor cur) (Z.to_nat limit)
                  (merge_sort newer_eq (select_journal allocationID userAllocations d)) in
    let out := scanJournalRow d <$> rows in
    if Z.of_nat (length out) <? limit then (out, [])
    else match last rows with
         | Some r => (out, encodeJournalCursor (j_ts_unix_ms r) (j_rowid r))
         | None => (out, encodeJournalCursor 0 0)
         end.

Definition seq_le (a b : jrow) : Prop := j_seq a <= j_seq b.
#[export] Instance seq_le_dec : RelDecision seq_le.
Proof. intros a b. unfold seq_le. apply _. Defined.

Definition QueryAfterSeq (allocationID : gostr) (afterSeq : Z) (limit : Z) (d : tdb)
    : result err (list JournalQueryRow) :=
  if decide (allocationID = []) then Err (ErrMsg "QueryAfterSeq: empty allocation_id")
  else if 2 ^ 63 <=? afterSeq then Err ErrBind
  else
    let rows := merge_sort seq_le
      (filter (fun r => j_allocation_id r = Some allocationID /\ afterSeq < j_seq r)
         (session_journal d)) in
    Ok (scanJournalRow d <$> (if limit <=? 0 then rows else take (Z.to_nat limit) rows)).
End query.

(** ** Sequence numbers *)

Lemma max_seq_ge sid j r : r ∈ j -> j_session_id r = sid -> j_seq r <= max_seq sid j.
Proof.
  intros Hr Hs. unfold max_seq.
  assert (r ∈ of_session sid j) as Hin by by apply list_elem_of_filter.
  revert Hin. generalize (of_session sid j) as l. clear.
  induction l as [|x l IH]; simpl; [by intros ?%elem_of_nil |].
  intros [->|Hin]%elem_of_cons; [lia |]. specialize (IH Hin). lia.
Qed.

Lemma max_seq_nonneg sid j : 0 <= max_seq sid j.
Proof.
  unfold max_seq. generalize (of_session sid j) as l. clear.
  induction l; simpl; lia.
Qed.

Lemma next_rowid_gt j r : r ∈ j -> j_rowid r < next_rowid j.
Proof.
  unfold next_rowid. induction j as [|x j IH]; simpl; [by intros ?%elem_of_nil |].
  intros [->|Hin]%elem_of_cons; [lia |]. specialize (IH Hin). lia.
Qed.

Lemma of_session_app sid j1 j2 :
  of_session sid (j1 ++ j2) = of_session sid j1 ++ of_session sid j2.
Proof. apply filter_app. Qed.

Lemma first_in (nw : jrow -> jrow -> bool) l acc a :
  foldl (fun acc r => match acc with
                      | Some a => if nw r a then Some r else acc
                      | None => Some r
                      end) acc l = Some a -> a ∈ l \/ acc = Some a.
Proof.
  revert acc. induction l as [|x l IH]; intros acc; simpl; [by right |].
  intros [Hin|Hacc]%IH; [left; by right |].
  destruct acc as [b|]; [| simplify_eq; left; by left].
  destruct (nw x b); [simplify_eq; left; by left | by right].
Qed.

(** The row read back is the row just inserted. *)
Lemma top_row_snoc sid j r :
  j_session_id r = sid -> max_seq sid j < j_seq r -> top_row sid (j ++ [r]) = Some r.
Proof.
  intros Hs Hm. unfold top_row. rewrite of_session_app, foldl_app.
  replace (of_session sid [r]) with [r]
    by (unfold of_session; by rewrite filter_cons_True).
  simpl. destruct (foldl _ None (of_session sid j)) as [a|] eqn:E; [| done].
  apply (first_in (fun r a => j_seq a <? j_seq r)) in E as [Hin|?]; [| done].
  apply list_elem_of_filter in Hin as [Ha Hin].
  pose proof (max_seq_ge sid j a Hin Ha).
  by replace (j_seq a <? j_seq r) with true by lia.
Qed.

(** The row [appendJournal] inserts. *)
Definition journal_row (now : Z) (sid alloc agent : gostr) (op : SessionOp) (p : gostr)
    (bv av : option Z) (bm : option blob) (rf : gostr) (j : list jrow) : jrow :=
  mkJrow sid (max_seq sid j + 1) p op (i64 <$> bv) bm
    (if decide (rf = []) then None else Some rf) now (i64 <$> av) agent (Some alloc)
    (next_rowid j).

Section append.
Context {MP : MsgPack}.

Lemma appendJournal_ok now sid alloc agent op p bv av bm rf d :
  sid <> [] -> alloc <> [] ->
  appendJournal now sid alloc agent op p bv av bm rf d =
  Ok (tt, set_session_journal (session_journal d ++
            [journal_row now sid alloc agent op p bv av bm rf (session_journal d)]) d).
Proof.
  intros Hs Ha. unfold appendJournal. rewrite !bool_decide_true by done. done.
Qed.

(** With a session and an allocation the journal entry is written, carries the
    next seq of the session, and nothing else of the database changes. *)
Lemma journalBeforeWrite_ok now sid alloc agent op p prior av rf d :
  sid <> [] -> alloc <> [] ->
  journalBeforeWrite now sid alloc agent op p prior av rf d =
  Ok (mkEntry sid alloc agent (max_seq sid (session_journal d) + 1) p op
        (mf_Version <$> prior) av (encodeJournalManifest <$> prior) rf now,
      set_session_journal (session_journal d ++
        [journal_row now sid alloc agent op p (mf_Version <$> prior) av
           (encodeJournalManifest <$> prior) rf (session_journal d)]) d).
Proof.
  intros Hs Ha. unfold journalBeforeWrite.
  erewrite tx_bind_eq by by apply appendJournal_ok.
  unfold mbind, tx_bind, query. simpl.
  rewrite top_row_snoc; [done | done | simpl; lia].
Qed.

Lemma journalBeforeWrite_noalloc now sid agent op p prior av rf d :
  sid <> [] -> exists e, journalBeforeWrite now sid [] agent op p prior av rf d = Err e.
Proof.
  intros Hs. eexists. unfold journalBeforeWrite. apply tx_bind_err.
  unfold appendJournal. by rewrite (bool_decide_true (sid <> [])).
Qed.

(** The before-state survives the blob; owner, access time and inode do not. *)
Lemma decode_encode_journal `{!MsgPackLaws MP} mf q :
  Forall wf_ref (mf_Chunks mf) ->
  decodeJournalManifest q (encodeJournalManifest mf) =
  Some (mkManifest q 0 0 (mf_Size mf) (mf_Mode mf) (mf_Mtime mf) (mf_Version mf)
          (mf_Chunks mf) 0 0 0).
Proof.
  intros Hwf. unfold decodeJournalManifest, encodeJournalManifest.
  rewrite Unmarshal_Marshal. simpl.
  enough (mapM decodeRef ((fun c => mkJcr (Hash c) (Offset c) (Len c)) <$> mf_Chunks mf)
    = Some (mf_Chunks mf)) as -> by done.
  induction Hwf as [|c cs [[Hl _] _] Hcs IH]; [done |].
  rewrite fmap_cons.
  assert (decodeRef (mkJcr (Hash c) (Offset c) (Len c)) = Some c) as Hc.
  { unfold decodeRef. simpl. rewrite decide_True by done. by destruct c. }
  simpl. rewrite Hc. simpl. by rewrite IH.
Qed.
End append.

(** ** Invariant of the journal table *)

(** Primary key [(session_id, seq)], rowids in insertion order, seqs from 1. *)
Definition journal_ok (j : list jrow) : Prop :=
  StronglySorted (fun a b => j_rowid a < j_rowid b) j /\
  NoDup ((fun r => (j_session_id r, j_seq r)) <$> j) /\
  Forall (fun r => 1 <= j_seq r) j.

Lemma StronglySorted_snoc {A} (R : A -> A -> Prop) l x :
  StronglySorted R l -> Forall (fun y => R y x) l -> StronglySorted R (l ++ [x]).
Proof.
  induction 1 as [|y l Hs IH Hf]; simpl; intros Hx.
  - repeat constructor.
  - apply Forall_cons in Hx as [Hy Hx]. constructor; [by apply IH |].
    apply Forall_app. split; [done |]. by constructor.
Qed.

Lemma StronglySorted_filter {A} (R : A -> A -> Prop) (P : A -> Prop) `{!∀ x, Decision (P x)} l :
  StronglySorted R l -> StronglySorted R (filter P l).
Proof.
  induction 1 as [|y l Hs IH Hf]; [constructor |].
  destruct (decide (P y)).
  - rewrite filter_cons_True by done. constructor; [done |].
    rewrite Forall_forall in Hf |- *. intros x [_ ?]%list_elem_of_filter. by apply Hf.
  - by rewrite filter_cons_False.
Qed.

Lemma NoDup_fmap_filter {A B} (g : A -> B) (P : A -> Prop) `{!∀ x, Decision (P x)} l :
  NoDup (g <$> l) -> NoDup (g <$> filter P l).
Proof.
  intros Hn. eapply sublist_NoDup; [exact Hn |]. apply fmap_sublist, sublist_filter.
Qed.

Lemma journal_ok_append now sid alloc agent op p bv av bm rf j :
  journal_ok j -> journal_ok (j ++ [journal_row now sid alloc agent op p bv av bm rf j]).
Proof.
  intros (Hs & Hn & Hf). split; [| split].
  - apply StronglySorted_snoc; [done |]. apply Forall_forall. intros r Hr.
    by apply next_rowid_gt.
  - rewrite fmap_app. apply NoDup_app. split; [done |]. split.
    + intros x (r & -> & Hr)%list_elem_of_fmap. simpl. intros [= H1 H2]%list_elem_of_singleton.
      pose proof (max_seq_ge sid j r Hr H1). lia.
    + apply NoDup_singleton.
  - apply Forall_app. split; [done |]. repeat constructor. simpl.
    pose proof (max_seq_nonneg sid j). lia.
Qed.

Lemma journal_ok_filter (P : jrow -> Prop) `{!∀ x, Decision (P x)} j :
  journal_ok j -> journal_ok (filter P j).
Proof.
  intros (Hs & Hn & Hf). split; [by apply StronglySorted_filter |].
  split; [by apply NoDup_fmap_filter |]. rewrite Forall_forall in Hf |- *.
  intros r [_ Hr]%list_elem_of_filter. by apply Hf.
Qed.

(** ** The cursor round trip *)

Lemma digit_val_digit n : 0 <= n < 10 -> digit_val (digit n) = Some n.
Proof.
  intros Hn. unfold digit_val, digit, byteval. rewrite N_ascii_embedding by lia.
  rewrite Z2N.id by lia.
  replace ((48 <=? 48 + n) && (48 + n <=? 57)) with true by lia. f_equal. lia.
Qed.

Lemma digit_val_Some_ne c n : digit_val c = Some n -> c <> dot /\ c <> "-"%char /\ c <> "+"%char.
Proof. intros H. split; [| split]; by intros ->. Qed.

Definition is_digit (c : ascii) : Prop := is_Some (digit_val c).

Lemma parse_digits_snoc s c :
  parse_digits (s ++ [c]) = (a ← parse_digits s; v ← digit_val c; Some (a * 10 + v)).
Proof. unfold parse_digits. by rewrite foldl_app. Qed.

Lemma format_nat_ok fuel n :
  0 <= n < 10 ^ Z.of_nat fuel ->
  parse_digits (format_nat fuel n) = Some n /\ Forall is_digit (format_nat fuel n) /\
  (fuel <> 0%nat -> format_nat fuel n <> []).
Proof.
  revert n. induction fuel as [|fuel IH]; intros n Hn.
  { simpl in Hn. replace n with 0 by lia. done. }
  rewrite Nat2Z.inj_succ, Z.pow_succ_r in Hn by lia. simpl.
  destruct (Z.ltb_spec n 10) as [Hlt|Hge].
  - split; [| split; [| done]].
    + unfold parse_digits. simpl. rewrite digit_val_digit by lia. done.
    + repeat constructor. unfold is_digit. rewrite digit_val_digit by lia. done.
  - assert (0 <= n / 10 < 10 ^ Z.of_nat fuel) as Hd.
    { split; [apply Z.div_pos; lia | apply Z.div_lt_upper_bound; lia]. }
    pose proof (Z.mod_pos_bound n 10 ltac:(lia)) as Hm.
    destruct (IH _ Hd) as (Hp & Hf & _). split; [| split].
    + rewrite parse_digits_snoc, Hp. simpl. rewrite digit_val_digit by done. simpl.
      f_equal. pose proof (Z_div_mod_eq_full n 10). lia.
    + apply Forall_app. split; [done |]. repeat constructor. unfold is_digit.
      by rewrite digit_val_digit.
    + intros _. by destruct (format_nat fuel (n / 10)).
Qed.

Lemma ParseInt_digits s n :
  s <> [] -> Forall is_digit s -> parse_digits s = Some n -> n < 2 ^ 63 -> 0 <= n ->
  ParseInt s = Some n.
Proof.
  intros Hs Hd Hp H1 H2. unfold ParseInt. destruct s as [|c s]; [done |].
  apply Forall_cons in Hd as [[v Hv] _].
  destruct (digit_val_Some_ne _ _ Hv) as (_ & Hm & Hpl).
  rewrite !decide_False by done. rewrite Hp. simpl. rewrite decide_True by lia. done.
Qed.

Lemma ParseInt_FormatInt n : - 2 ^ 63 <= n < 2 ^ 63 -> ParseInt (FormatInt n) = Some n.
Proof.
  intros Hn. unfold FormatInt. destruct (Z.ltb_spec n 0) as [Hlt|Hge].
  - destruct (format_nat_ok 20 (- n)) as (Hp & Hf & Hne); [lia |].
    unfold ParseInt. rewrite decide_True by done.
    destruct (format_nat 20 (- n)) as [|c s] eqn:E; [by destruct Hne |].
    rewrite Hp. cbn [mbind option_bind].
    rewrite decide_True by lia. f_equal. lia.
  - destruct (format_nat_ok 20 n) as (Hp & Hf & Hne); [lia |].
    apply ParseInt_digits; [by apply Hne | done | done | lia | lia].
Qed.

Lemma cut_dot_app a b : Forall (fun c => c <> dot) a -> cut_dot (a ++ dot :: b) = Some (a, b).
Proof.
  induction 1 as [|c a Hc Ha IH]; cbn [app cut_dot]; [by rewrite decide_True |].
  rewrite decide_False by done. by rewrite IH.
Qed.

Lemma FormatInt_no_dot n : - 2 ^ 63 <= n < 2 ^ 63 -> Forall (fun c => c <> dot) (FormatInt n).
Proof.
  intros Hn.
  assert (forall m, 0 <= m <= 2 ^ 63 -> Forall (fun c => c <> dot) (format_nat 20 m)) as Hf.
  { intros m Hm. destruct (format_nat_ok 20 m) as (_ & Hf & _); [lia |].
    eapply Forall_impl; [exact Hf |]. intros c [v Hv]. by eapply digit_val_Some_ne. }
  unfold FormatInt. destruct (Z.ltb_spec n 0).
  - constructor; [done |]. apply Hf. lia.
  - apply Hf. lia.
Qed.

Lemma decode_encode_cursor ts rid :
  - 2 ^ 63 <= ts < 2 ^ 63 -> - 2 ^ 63 <= rid < 2 ^ 63 ->
  decodeJournalCursor (encodeJournalCursor ts rid) = (ts, rid).
Proof.
  intros Ht Hr. unfold decodeJournalCursor, encodeJournalCursor. cbn [app].
  rewrite cut_dot_app by by apply FormatInt_no_dot.
  by rewrite !ParseInt_FormatInt.
Qed.

(** ** Pagination of [Query] *)

Lemma newer_irrefl a : newer a a = false.
Proof. unfold newer. lia. Qed.

Lemma newer_trans a b c : newer a b = true -> newer b c = true -> newer a c = true.
Proof. unfold newer. lia. Qed.

#[export] Instance newer_eq_trans : Transitive newer_eq.
Proof. intros a b c. unfold newer_eq, newer. lia. Qed.

#[export] Instance newer_eq_total : Total newer_eq.
Proof.
  intros a b. unfold newer_eq. destruct (newer b a) eqn:E; [right | by left].
  unfold newer in *. lia.
Qed.

(** The sorted selection, strictly ordered since rowids are distinct. *)
Lemma sorted_selection l :
  NoDup (j_rowid <$> l) -> sorted_by newer (merge_sort newer_eq l).
Proof.
  intros Hn.
  assert (NoDup (j_rowid <$> merge_sort newer_eq l)) as Hn'.
  { by rewrite (merge_sort_Permutation newer_eq l). }
  pose proof (StronglySorted_merge_sort newer_eq l) as Hs.
  revert Hn' Hs. generalize (merge_sort newer_eq l) as l'. clear.
  induction l' as [|x l IH]; intros Hn Hs; [constructor |].
  rewrite fmap_cons in Hn. apply NoDup_cons in Hn as [Hni Hn].
  apply StronglySorted_inv in Hs as [Hs Hf]. constructor; [by apply IH |].
  rewrite Forall_forall in Hf |- *. intros y Hy. specialize (Hf y Hy).
  assert (j_rowid x <> j_rowid y) by (intros E; apply Hni; rewrite E; by apply list_elem_of_fmap_2).
  unfold newer_eq, newer in *. lia.
Qed.

Lemma journal_ok_rowids j : journal_ok j -> NoDup (j_rowid <$> j).
Proof.
  intros [Hs _]. induction Hs as [|x l Hs IH Hf]; [constructor |].
  rewrite fmap_cons. constructor; [| done].
  intros (y & E & Hy)%list_elem_of_fmap. rewrite Forall_forall in Hf.
  specialize (Hf y Hy). lia.
Qed.

Section query_all.
Context {MP : MsgPack}.

(** A client that reads pages until the cursor is empty. *)
Fixpoint queryAll (fuel : nat) (alloc : gostr) (limit : Z) (cursor : gostr)
    (ua : list gostr) (d : tdb) : option (list JournalQueryRow) :=
  match fuel with
  | O => None
  | S fuel' =>
      let '(out, next) := Query alloc limit cursor ua d in
      if decide (next = []) then Some out
      else rest ← queryAll fuel' alloc limit next ua d; Some (out ++ rest)
  end.

Definition in_i64 (z : Z) : Prop := - 2 ^ 63 <= z < 2 ^ 63.

Lemma encodeJournalCursor_ne ts rid : encodeJournalCursor ts rid <> [].
Proof. unfold encodeJournalCursor. by destruct (FormatInt ts). Qed.

Lemma clampLimit_pos limit : 0 <= limit -> 0 < clampLimit limit <= 200.
Proof. intros Hl. unfold clampLimit. destruct (Z.eqb_spec limit 0); case_match; lia. Qed.

Lemma after_cursor_row r :
  0 < j_ts_unix_ms r -> forall x, after_cursor (j_ts_unix_ms r, j_rowid r) x = newer r x.
Proof. intros Hr x. unfold after_cursor, newer. simpl. lia. Qed.

Lemma page_ext {A} (f g : A -> bool) n l : (forall x, f x = g x) -> page f n l = page g n l.
Proof.
  intros H. unfold page. f_equal. apply list_filter_iff. intros x. by rewrite H.
Qed.

Lemma walk_ext {A} (lt : A -> A -> bool) fuel n f g l :
  (forall x, f x = g x) -> walk lt fuel n f l = walk lt fuel n g l.
Proof. intros H. destruct fuel; [done |]. simpl. by rewrite (page_ext f g). Qed.

Lemma queryAll_walk fuel alloc limit cursor ua d :
  0 <= limit -> ~ (alloc = [] /\ ua = []) ->
  Forall (fun r => 0 < j_ts_unix_ms r < 2 ^ 63 /\ in_i64 (j_rowid r)) (session_journal d) ->
  let l := merge_sort newer_eq (select_journal alloc ua d) in
  queryAll fuel alloc limit cursor ua d =
  option_map (fmap (M:=list) (scanJournalRow d))
    (walk newer fuel (Z.to_nat (clampLimit limit)) (after_cursor (decodeJournalCursor cursor)) l).
Proof.
  intros Hl Hne Hj l. revert cursor. induction fuel as [|fuel IH]; intros cursor; [done |].
  cbn [queryAll walk]. unfold Query. rewrite decide_False by done.
  fold l. set (pg := page _ _ l). rewrite length_fmap.
  pose proof (clampLimit_pos limit Hl) as Hc.
  assert ((length pg <? Z.to_nat (clampLimit limit))%nat
    = (Z.of_nat (length pg) <? clampLimit limit)) as ->.
  { destruct (Nat.ltb_spec (length pg) (Z.to_nat (clampLimit limit))),
      (Z.ltb_spec (Z.of_nat (length pg)) (clampLimit limit)); lia || done. }
  destruct (Z.ltb_spec (Z.of_nat (length pg)) (clampLimit limit)) as [Hlt|Hge]; [done |].
  destruct (last pg) as [r|] eqn:Hr; [| apply last_None in Hr; rewrite Hr in Hge; simpl in Hge; lia].
  rewrite decide_False by apply encodeJournalCursor_ne.
  assert (r ∈ session_journal d) as Hin.
  { apply last_Some in Hr as [l' Hl'].
    assert (r ∈ pg) as Hrp by (rewrite Hl', elem_of_app, elem_of_cons; auto).
    apply subseteq_take in Hrp. apply list_elem_of_filter in Hrp as [_ Hrp].
    unfold l in Hrp. rewrite merge_sort_Permutation in Hrp.
    by apply list_elem_of_filter in Hrp as [_ Hrp]. }
  rewrite Forall_forall in Hj. destruct (Hj r Hin) as [Hts Hri].
  rewrite IH, decode_encode_cursor by (unfold in_i64 in *; lia).
  rewrite (walk_ext newer _ _ _ (newer r)) by (intros x; apply after_cursor_row; lia).
  destruct (walk newer fuel _ (newer r) l); [| done]. simpl. by rewrite fmap_app.
Qed.

(** Reading page after page returns every selected row exactly once, newest
    first. *)
Lemma queryAll_complete fuel alloc limit ua d :
  0 <= limit -> ~ (alloc = [] /\ ua = []) -> journal_ok (session_journal d) ->
  Forall (fun r => 0 < j_ts_unix_ms r < 2 ^ 63 /\ in_i64 (j_rowid r)) (session_journal d) ->
  (length (session_journal d) < fuel)%nat ->
  queryAll fuel alloc limit [] ua d =
  Some (scanJournalRow d <$> merge_sort newer_eq (select_journal alloc ua d)).
Proof.
  intros Hl Hne Hok Hj Hf. rewrite queryAll_walk by done. cbv zeta.
  pose proof (clampLimit_pos limit Hl).
  erewrite (walk_all newer newer_irrefl newer_trans); [done | | lia | | ].
  - apply sorted_selection. apply NoDup_fmap_filter. by apply journal_ok_rowids.
  - apply Forall_forall. done.
  - rewrite merge_sort_Permutation. unfold select_journal.
    eapply Nat.le_lt_trans; [apply length_filter | done].
Qed.
End query_all.

(** ** A concrete encoding

    An instance of [MsgPack] that satisfies the laws: numbers one per cell,
    lists with their length first. *)

Definition flat_chunk (c : journalChunkRef) : list Z :=
  Z.of_nat (length (jc_Hash c)) :: jc_Offset c :: jc_Len c :: jc_Hash c.

Fixpoint unflat_chunks (n : nat) (l : list Z) : option (list journalChunkRef) :=
  match n with
  | O => match l with [] => Some [] | _ => None end
  | S n' =>
      match l with
      | hl :: o :: ln :: rest =>
          let k := Z.to_nat hl in
          cs ← unflat_chunks n' (drop k rest);
          Some (mkJcr (take k rest) o ln :: cs)
      | _ => None
      end
  end.

Definition flat_msgpack : MsgPack := {|
  Marshal b := jb_Size b :: jb_Mode b :: jb_Mtime b :: jb_Version b ::
                 Z.of_nat (length (jb_Chunks b)) :: (jb_Chunks b ≫= flat_chunk);
  Unmarshal l :=
    match l with
    | s :: m :: t :: v :: n :: rest =>
        cs ← unflat_chunks (Z.to_nat n) rest; Some (mkJmb s m t v cs)
    | _ => None
    end |}.

Lemma unflat_flat cs : unflat_chunks (length cs) (cs ≫= flat_chunk) = Some cs.
Proof.
  induction cs as [|[h o n] cs IH]; [done |].
  rewrite bind_cons. unfold flat_chunk at 1. cbn [length app unflat_chunks jc_Hash jc_Offset jc_Len].
  rewrite Nat2Z.id, drop_app_length, take_app_length, IH. done.
Qed.

Lemma flat_msgpack_laws : MsgPackLaws flat_msgpack.
Proof.
  split; [| done]. intros [s m t v cs]. simpl. rewrite Nat2Z.id, unflat_flat. done.
Qed.
