(* ===== verification/Manifests.v ===== *)
(** * The manifest store

    manifests.go: the operations of [ManifestStore] on files, hard links,
    symlinks, special nodes and directories.  Each mutation is one transaction
    on the tenant database; after the commit it broadcasts its journal entry
    and rings the change-feed doorbell.

    An operation is a function of the store that returns a value or an error,
    and the store.  [time.Now()] is the argument [now], one reading per
    operation.  Metrics are not modelled. *)

From S2P Require Import Prelude GoPath Codec TenantDB Journal.

(** ** The store *)

(** [st_chunks] is the set of chunk objects on disk, [None] for a nil
    [ChunkStore]; [st_broadcast] and [st_notified] are the entries and revisions
    given to the journal and to the doorbell so far, [None] when not wired. *)
Record mstore := mkStore {
  st_db : tdb;
  st_chunks : option (gset hash);
  st_broadcast : option (list SessionJournalEntry);
  st_notified : option (list Z) }.

Definition set_db (d : tdb) (s : mstore) : mstore :=
  mkStore d (st_chunks s) (st_broadcast s) (st_notified s).

Definition op (A : Type) : Type := mstore -> result err A * mstore.

Definition Broadcast (e : option SessionJournalEntry) (s : mstore) : mstore :=
  mkStore (st_db s) (st_chunks s)
    (match e with Some e => (fun l => l ++ [e]) <$> st_broadcast s | None => st_broadcast s end)
    (st_notified s).

Definition notifyChange (rev : Z) (s : mstore) : mstore :=
  mkStore (st_db s) (st_chunks s) (st_broadcast s)
    (if decide (rev = 0) then st_notified s else (fun l => l ++ [rev]) <$> st_notified s).

(** How a transaction ends without an error: a commit with the journal entry
    and the revision to announce, or a return that rolls it back. *)
Inductive outcome (A : Type) :=
| Commit (a : A) (entry : option SessionJournalEntry) (rev : Z)
| Rollback (a : A).
Arguments Commit {A} a entry rev.
Arguments Rollback {A} a.

Definition run_tx {A} (t : tx (outcome A)) : op A := fun s =>
  match t (st_db s) with
  | Err e => (Err e, s)
  | Ok (Rollback a, _) => (Ok a, s)
  | Ok (Commit a entry rev, d) => (Ok a, notifyChange rev (Broadcast entry (set_db d s)))
  end.

Definition fail {A} (e : err) : op A := fun s => (Err e, s).

(** ** Kinds of nodes *)

Definition sIFMT : Z := 0xF000.
Definition sIFIFO : Z := 0x1000.
Definition sIFCHR : Z := 0x2000.
Definition sIFBLK : Z := 0x6000.
Definition sIFSOCK : Z := 0xC000.

Definition specialNodeKind (mode : Z) : string :=
  let t := Z.land mode sIFMT in
  if t =? sIFIFO then "fifo"
  else if t =? sIFSOCK then "socket"
  else if t =? sIFCHR then "chardev"
  else if t =? sIFBLK then "blockdev"
  else "".

Inductive nodeKind := nodeAbsent | nodeRegular | nodeSymlink | nodeSpecial | nodeDir.

#[export] Instance nodeKind_eq_dec : EqDecision nodeKind.
Proof. solve_decision. Defined.

Definition present {A} (o : option A) : bool := bool_decide (is_Some o).

Definition resolveKind (p : gostr) (d : tdb) : nodeKind :=
  if present (manifests d !! p) then nodeRegular
  else if present (symlinks d !! p) then nodeSymlink
  else if present (special_nodes d !! p) then nodeSpecial
  else if has_children p d then nodeDir
  else
    let '(parent, name) := splitParentName p in
    if decide (name = []) then nodeDir
    else if has_entry parent name d then nodeDir
    else nodeAbsent.

Definition resolveKindTx (p : gostr) : tx nodeKind := query (resolveKind p).

(** [path glob p || '/*']. *)
Definition has_glob {A} (p : gostr) (m : gmap gostr A) : bool :=
  bool_decide (map_Exists (fun q _ => glob (p ++ str "/*") q = true) m).

Definition dirIsEmpty (p : gostr) (d : tdb) : bool :=
  negb (has_children p d) && negb (has_glob p (manifests d))
  && negb (has_glob p (symlinks d)) && negb (has_glob p (special_nodes d)).

(** ** Reads *)

Definition Get (p : gostr) (d : tdb) : result err Manifest :=
  match manifests d !! p with
  | None => Err ErrManifestNotFound
  | Some r =>
      match unpackChunks (m_chunks r) with
      | None => Err (ErrMsg "unpack manifest")
      | Some cs =>
          Ok (mkManifest p (m_inode r) (nlink (m_inode r) d) (m_size r) (m_mode r)
                (m_mtime r) (m_version r) cs (m_uid r) (m_gid r) (m_atime r))
      end
  end.

Definition IsDir (p : gostr) (d : tdb) : bool :=
  if has_children p d then true
  else
    let '(parent, name) := splitParentName p in
    if decide (name = []) then true else has_entry parent name d.

(** [(mode, uid, gid, atime)], or [None] when not a directory. *)
Definition DirInfo (p : gostr) (d : tdb) : option (Z * Z * Z * Z) :=
  let '(parent, name) := splitParentName p in
  if decide (name = []) then Some (493, 0, 0, 0)
  else
    match dir_entries d !! (parent, name) with
    | None => if IsDir p d then Some (493, 0, 0, 0) else None
    | Some e =>
        Some (if de_mode e =? 0 then 493 else de_mode e, de_uid e, de_gid e, de_atime e)
    end.

Definition Readlink (p : gostr) (d : tdb) : result err gostr :=
  match symlinks d !! p with
  | None => Err ErrManifestNotFound
  | Some r => Ok (sl_target r)
  end.

Definition SymlinkInfo (p : gostr) (d : tdb) : option (gostr * Z * Z * Z * Z) :=
  r ← symlinks d !! p;
  Some (sl_target r, if sl_mode r =? 0 then 511 else sl_mode r, sl_uid r, sl_gid r, sl_atime r).

Definition SpecialNodeInfo (p : gostr) (d : tdb) : option (Z * Z * Z * Z * Z * string) :=
  r ← special_nodes d !! p;
  Some (sn_mode r, sn_rdev r, sn_uid r, sn_gid r, sn_atime r, specialNodeKind (sn_mode r)).

Record DirChild := mkDirChild {
  dc_Name : gostr; dc_IsDir : bool; dc_Kind : string; dc_Mode : Z; dc_Size : Z;
  dc_Uid : Z; dc_Gid : Z; dc_Atime : Z; dc_InodeID : Z; dc_Nlink : Z; dc_Mtime : Z;
  dc_Version : Z; dc_Target : gostr }.

(** One row of the join of [dir_entries] with [manifests] and [symlinks].
    [LENGTH(target)] counts characters. *)
Definition child_row (d : tdb) (k : gostr * gostr) (e : derow) : DirChild :=
  let mf := manifests d !! full_path k in
  let sl := symlinks d !! full_path k in
  let coalesce (fm : mrow -> Z) (fs : slrow -> Z) (fd : derow -> Z) : Z :=
    match mf, sl with
    | Some m, _ => fm m
    | None, Some s => fs s
    | None, None => fd e
    end in
  let kind := match mf, sl with
              | Some _, _ => "file" | None, Some _ => "symlink" | None, None => "dir"
              end%string in
  {| dc_Name := k.2;
     dc_IsDir := bool_decide (kind = "dir"%string);
     dc_Kind := kind;
     dc_Mode := coalesce m_mode sl_mode de_mode;
     dc_Size := coalesce m_size (fun s => Z.of_nat (length (chars (sl_target s)))) (fun _ => 0);
     dc_Uid := coalesce m_uid sl_uid de_uid;
     dc_Gid := coalesce m_gid sl_gid de_gid;
     dc_Atime := coalesce m_atime sl_atime de_atime;
     dc_InodeID := default 0 (m_inode <$> mf);
     dc_Nlink := match mf with Some m => nlink (m_inode m) d | None => 1 end;
     dc_Mtime := coalesce m_mtime sl_mtime de_mtime;
     dc_Version := default 0 (m_version <$> mf);
     dc_Target := default [] (sl_target <$> sl) |}.

(** [order by d.name]. *)
Definition name_le (a b : (gostr * gostr) * derow) : Prop := str_ltb b.1.2 a.1.2 = false.

#[export] Instance name_le_dec : RelDecision name_le.
Proof. intros a b. unfold name_le. apply _. Defined.

Definition ListChildren (parent : gostr) (d : tdb) : list DirChild :=
  (fun ke => child_row d ke.1 ke.2) <$>
    merge_sort name_le
      (map_to_list (filter (fun ke => ke.1.1 = parent) (dir_entries d))).

(** ** [Put] *)

(** [lockAndValidateChunks]: every chunk the manifest names must be on disk.
    The hash locks it takes are those of ChunkStore.v. *)
Definition validateChunks (cs : list ChunkRef) (s : mstore) : bool :=
  match st_chunks s with
  | None => true
  | Some objs => bool_decide (Forall (fun c => Hash c ∈ objs) cs)
  end.

Definition set_content (mf : Manifest) (v : Z) (b : blob) (uid gid atime rev : Z) (r : mrow) : mrow :=
  mkMrow (m_inode r) (mf_Size mf) (mf_Mode mf) (mf_Mtime mf) v b uid gid atime rev.

Section put.
Context {MP : MsgPack} (now : Z).

(** Step 3b: the journal row of a content write. *)
Definition journalPutTx (p : gostr) (expectedVersion newVersion : Z) (old : option mrow)
    (oldChunks : list ChunkRef) (sessionID allocationID agentID : gostr)
    : tx (option SessionJournalEntry) :=
  if decide (sessionID = []) then mret None
  else
    let '(op, prior) :=
      if expectedVersion =? 0 then (SessionOpCreate, None)
      else (SessionOpUpdate,
            Some (mkManifest p 0 0 (default 0 (m_size <$> old)) (default 0 (m_mode <$> old))
                    (default 0 (m_mtime <$> old)) (default 0 (m_version <$> old)) oldChunks
                    0 0 0)) in
    e ← journalBeforeWrite now sessionID allocationID agentID op p prior (Some newVersion) [];
    mret (Some e).

(** Step 5 for a new path. *)
Definition insertManifestTx (p : gostr) (inode newVersion rev : Z) (mf : Manifest) : tx unit :=
  let newAtime := if mf_Atime mf =? 0 then mf_Mtime mf else mf_Atime mf in
  _ ← bind_u64 (mf_Size mf);
  _ ← bind_u64 newVersion;
  old ← query (fun d => manifests d !! p);
  match old with
  | Some _ => throw ErrVersionConflict
  | None =>
      _ ← modify (fun d => set_manifests
            (<[p := mkMrow inode (mf_Size mf) (mf_Mode mf) (mf_Mtime mf) newVersion
                     (packChunks (mf_Chunks mf)) (mf_Uid mf) (mf_Gid mf) newAtime rev]>
               (manifests d)) d);
      clearTombstoneTx p
  end.

(** Step 5 for a content write: every name of the inode is updated. *)
Definition updateManifestTx (old : option mrow) (newVersion rev : Z) (mf : Manifest) : tx unit :=
  let uid := default (mf_Uid mf) (m_uid <$> old) in
  let gid := default (mf_Gid mf) (m_gid <$> old) in
  let atime := default (mf_Atime mf) (m_atime <$> old) in
  let oldInode := default 0 (m_inode <$> old) in
  _ ← bind_u64 (mf_Size mf);
  _ ← bind_u64 newVersion;
  n ← query (nlink oldInode);
  _ ← require (negb (n =? 0)) ErrVersionConflict;
  modify (update_inode oldInode
    (set_content mf newVersion (packChunks (mf_Chunks mf)) uid gid atime rev)).

Definition putTx (p : gostr) (expectedVersion : Z) (mf : Manifest)
    (sessionID allocationID agentID : gostr) : tx (outcome Z) :=
  inode ← (if expectedVersion =? 0 then allocInode else mret 0);
  let '(parent, name) := splitParentName p in
  _ ← checkParentExists p;
  old ← query (fun d => manifests d !! p);
  oldChunks ← (match old with
               | None => mret []
               | Some r => match unpackChunks (m_chunks r) with
                           | None => throw (ErrMsg "unpack old chunks")
                           | Some cs => mret cs
                           end
               end);
  let existingVersion := default 0 (m_version <$> old) in
  _ ← require (existingVersion =? expectedVersion) (VersionConflictError existingVersion);
  let newVersion := u64 (expectedVersion + 1) in
  rev ← allocChangeRevTx;
  entry ← journalPutTx p expectedVersion newVersion old oldChunks sessionID allocationID agentID;
  _ ← applyChunkRefDelta (chunkRefDelta oldChunks (mf_Chunks mf));
  _ ← (if expectedVersion =? 0 then insertManifestTx p inode newVersion rev mf
       else updateManifestTx old newVersion rev mf);
  _ ← (if decide (name = []) then mret tt else insertEntryOrIgnoreTx parent name);
  mret (Commit newVersion entry rev).

Definition Put (p : gostr) (expectedVersion : Z) (mf : Manifest)
    (sessionID allocationID agentID : gostr) : op Z := fun s =>
  if decide (p <> mf_Path mf) then fail (ErrMsg "manifest path != argument") s
  else if decide (sessionID <> [] /\ allocationID = [])
  then fail (ErrMsg "manifest_put: empty allocation_id required") s
  else if negb (validateChunks (mf_Chunks mf) s)
  then fail (ErrMsg "manifest references missing chunk") s
  else run_tx (putTx p expectedVersion mf sessionID allocationID agentID) s.
End put.

(** ** [Link] *)

Section link.
Context {MP : MsgPack} (now : Z).

(** The journal row of a write that creates a name. *)
Definition journalCreateTx (p : gostr) (version : Z) (sessionID allocationID agentID : gostr)
    : tx (option SessionJournalEntry) :=
  if decide (sessionID = []) then mret None
  else
    e ← journalBeforeWrite now sessionID allocationID agentID SessionOpCreate p None
          (Some version) [];
    mret (Some e).

Definition linkTx (from to sessionID allocationID agentID : gostr) : tx (outcome Z) :=
  _ ← checkParentExists to;
  kind ← resolveKindTx to;
  _ ← require (bool_decide (kind = nodeAbsent)) ErrAlreadyExists;
  src ← query (fun d => manifests d !! from);
  match src with
  | None => throw ErrManifestNotFound
  | Some r =>
      rev ← allocChangeRevTx;
      dup ← query (fun d => present (manifests d !! to));
      _ ← require (negb dup) ErrConstraint;
      _ ← modify (fun d => set_manifests (<[to := set_m_rev rev r]> (manifests d)) d);
      _ ← restampTx (m_inode r) rev;
      _ ← clearTombstoneTx to;
      let '(parent, name) := splitParentName to in
      _ ← insertEntryTx parent name de_default;
      entry ← journalCreateTx to (m_version r) sessionID allocationID agentID;
      n ← query (nlink (m_inode r));
      mret (Commit n entry rev)
  end.

Definition Link (from to sessionID allocationID agentID : gostr) : op Z := fun s =>
  if decide (sessionID <> [] /\ allocationID = [])
  then fail (ErrMsg "link: empty allocation_id required") s
  else run_tx (linkTx from to sessionID allocationID agentID) s.
End link.

(** ** [Delete] *)

(** The part of [deletePathRow] after the row of [symlinks] or [special_nodes]
    is gone. *)
Definition unlinkEntryTx (now : Z) (p : gostr) : tx (outcome unit) :=
  _ ← removeDirEntryTx p;
  rev ← allocChangeRevTx;
  _ ← upsertTombstoneTx now p rev;
  mret (Commit tt None rev).

Definition deleteSymlinkTx (now : Z) (p : gostr) : tx (outcome unit) :=
  b ← query (fun d => present (symlinks d !! p));
  _ ← require b ErrManifestNotFound;
  _ ← modify (fun d => set_symlinks (delete p (symlinks d)) d);
  unlinkEntryTx now p.

Definition deleteSpecialNodeTx (now : Z) (p : gostr) : tx (outcome unit) :=
  b ← query (fun d => present (special_nodes d !! p));
  _ ← require b ErrManifestNotFound;
  _ ← modify (fun d => set_special_nodes (delete p (special_nodes d)) d);
  unlinkEntryTx now p.

Definition deleteSymlink (now : Z) (p : gostr) : op unit := run_tx (deleteSymlinkTx now p).
Definition deleteSpecialNode (now : Z) (p : gostr) : op unit := run_tx (deleteSpecialNodeTx now p).

(** [select path from manifests where inode_id = i and path <> p order by path
    limit 1]. *)
Definition first_alias (i : Z) (p : gostr) (d : tdb) : option gostr :=
  foldr (fun q acc => match acc with
                      | Some a => if str_ltb q a then Some q else acc
                      | None => Some q
                      end) None
    (filter (fun q => q <> p) (keys_of (links i d))).

Section delete.
Context {MP : MsgPack} (now : Z).

Definition journalDeleteTx (p : gostr) (r : mrow) (n : Z) (oldChunks : list ChunkRef)
    (sessionID allocationID agentID : gostr) : tx (option SessionJournalEntry) :=
  if decide (sessionID = []) then mret None
  else
    let prior := mkManifest p 0 0 (m_size r) (m_mode r) (m_mtime r) (m_version r)
                   oldChunks 0 0 0 in
    survivingAlias ←
      (if n >? 1 then
         a ← query (first_alias (m_inode r) p);
         match a with
         | Some q => mret q
         | None => throw (ErrMsg "find surviving hard-link alias")
         end
       else mret []);
    e ← journalBeforeWrite now sessionID allocationID agentID SessionOpDelete p
          (Some prior) None survivingAlias;
    mret (Some e).

Definition deleteTx (p : gostr) (expectedVersion : Z)
    (sessionID allocationID agentID : gostr) : tx (outcome unit) :=
  row ← query (fun d => manifests d !! p);
  match row with
  | None => throw ErrManifestNotFound
  | Some r =>
      n ← query (nlink (m_inode r));
      _ ← require (m_version r =? expectedVersion) (VersionConflictError (m_version r));
      oldChunks ← (match unpackChunks (m_chunks r) with
                   | None => throw (ErrMsg "unpack chunks")
                   | Some cs => mret cs
                   end);
      entry ← journalDeleteTx p r n oldChunks sessionID allocationID agentID;
      _ ← (if n =? 1 then applyChunkRefDelta (chunkRefDelta oldChunks []) else mret tt);
      _ ← modify (fun d => set_manifests (delete p (manifests d)) d);
      _ ← removeDirEntryTx p;
      rev ← allocChangeRevTx;
      _ ← upsertTombstoneTx now p rev;
      _ ← (if n >? 1 then restampTx (m_inode r) rev else mret tt);
      mret (Commit tt entry rev)
  end.

(** A path that is not a special node, then not a symlink, is a manifest. *)
Definition Delete (p : gostr) (expectedVersion : Z)
    (sessionID allocationID agentID : gostr) : op unit := fun s =>
  if decide (sessionID <> [] /\ allocationID = [])
  then fail (ErrMsg "manifest_delete: empty allocation_id required") s
  else
    match deleteSpecialNode now p s with
    | (Ok _, s') => (Ok tt, s')
    | (Err ErrManifestNotFound, s) =>
        match deleteSymlink now p s with
        | (Ok _, s') => (Ok tt, s')
        | (Err ErrManifestNotFound, s) =>
            run_tx (deleteTx p expectedVersion sessionID allocationID agentID) s
        | (Err e, s) => (Err e, s)
        end
    | (Err e, s) => (Err e, s)
    end.
End delete.

(** ** [Rename] *)

Definition deleteDestTx (to : gostr) (k : nodeKind) (rev : Z) : tx unit :=
  _ ← (match k with
       | nodeRegular =>
           row ← query (fun d => manifests d !! to);
           match row with
           | None => throw (ErrMsg "read dest chunks")
           | Some r =>
               n ← query (nlink (m_inode r));
               _ ← (if n =? 1 then
                      match unpackChunks (m_chunks r) with
                      | None => throw (ErrMsg "unpack dest chunks")
                      | Some cs => applyChunkRefDelta (chunkRefDelta cs [])
                      end
                    else mret tt);
               _ ← modify (fun d => set_manifests (delete to (manifests d)) d);
               if n >? 1 then restampTx (m_inode r) rev else mret tt
           end
       | nodeSymlink => modify (fun d => set_symlinks (delete to (symlinks d)) d)
       | nodeSpecial => modify (fun d => set_special_nodes (delete to (special_nodes d)) d)
       | nodeDir | nodeAbsent => mret tt
       end);
  removeDirEntryTx to.

(** [update t set path = to || substr(path, prefixLen), rev = ? where path like
    from || '/%']: the pattern is not escaped. *)
Definition reparent_match (from q : gostr) : bool := like (from ++ str "/%") q.
Definition reparent_key (from to q : gostr) : gostr :=
  to ++ sql_substr q (Z.of_nat (length from) + 1).

Definition set_sl_rev (rev : Z) (r : slrow) : slrow :=
  mkSlrow (sl_target r) (sl_mode r) (sl_mtime r) (sl_uid r) (sl_gid r) (sl_atime r) rev.
Definition set_sn_rev (rev : Z) (r : snrow) : snrow :=
  mkSnrow (sn_mode r) (sn_rdev r) (sn_mtime r) (sn_uid r) (sn_gid r) (sn_atime r) rev.
Definition set_de_rev (rev : Z) (r : derow) : derow :=
  mkDerow (de_mode r) (de_mtime r) (de_uid r) (de_gid r) (de_atime r) rev.

(** A [rekey] that a primary key refuses fails the transaction. *)
Definition rekeyTx {A} (r : tdb -> option A) (put : A -> tdb -> tdb) : tx unit :=
  m ← query r;
  match m with
  | None => throw ErrConstraint
  | Some m => modify (put m)
  end.

Definition reparentDescendantsTx (now : Z) (from to : gostr) (rev : Z) : tx unit :=
  _ ← tombstoneSubtreeTx now from rev;
  _ ← rekeyTx (fun d => rekey (reparent_match from) (reparent_key from to) (set_m_rev rev)
                          (manifests d)) set_manifests;
  _ ← rekeyTx (fun d => rekey (reparent_match from) (reparent_key from to) (set_sl_rev rev)
                          (symlinks d)) set_symlinks;
  _ ← rekeyTx (fun d => rekey (reparent_match from) (reparent_key from to) (set_sn_rev rev)
                          (special_nodes d)) set_special_nodes;
  _ ← rekeyTx (fun d => rekey (fun k => bool_decide (k.1 = from)) (fun k => (to, k.2))
                          (set_de_rev rev) (dir_entries d)) set_dir_entries;
  _ ← rekeyTx (fun d => rekey (fun k => reparent_match from k.1)
                          (fun k => (reparent_key from to k.1, k.2))
                          (set_de_rev rev) (dir_entries d)) set_dir_entries;
  clearTombstoneSubtreeTx to.

Definition samePathVersion (p : gostr) (kind : nodeKind) (d : tdb) : Z :=
  if decide (kind = nodeRegular) then default 1 (m_version <$> manifests d !! p) else 1.

Definition resolveRenameDestTx (to : gostr) (srcKind : nodeKind) (noReplace : bool)
    (expectedTo : Z) : tx (nodeKind * Z) :=
  dstKind ← resolveKindTx to;
  if decide (dstKind = nodeAbsent) then mret (dstKind, 0)
  else
    _ ← require (negb noReplace) ErrAlreadyExists;
    let srcIsDir := bool_decide (srcKind = nodeDir) in
    let dstIsDir := bool_decide (dstKind = nodeDir) in
    _ ← require (negb (srcIsDir && negb dstIsDir)) ErrNotDir;
    _ ← require (negb (negb srcIsDir && dstIsDir)) ErrIsDir;
    empty ← query (dirIsEmpty to);
    _ ← require (negb (srcIsDir && dstIsDir && negb empty)) ErrNotEmpty;
    if decide (dstKind = nodeRegular) then
      row ← query (fun d => manifests d !! to);
      match row with
      | None => throw (ErrMsg "read dest version")
      | Some r =>
          _ ← require (negb (negb (expectedTo =? 0) && negb (m_version r =? expectedTo)))
                (VersionConflictError (m_version r));
          mret (dstKind, m_version r)
      end
    else mret (dstKind, 0).

Definition readRenameSourceTx (from : gostr) (expectedFrom : Z) : tx mrow :=
  row ← query (fun d => manifests d !! from);
  match row with
  | None => throw (ErrMsg "read source manifest")
  | Some r =>
      _ ← require (m_version r =? expectedFrom) (VersionConflictError (m_version r));
      mret r
  end.

Definition set_m_version_rev (v rev : Z) (r : mrow) : mrow :=
  mkMrow (m_inode r) (m_size r) (m_mode r) (m_mtime r) v (m_chunks r)
    (m_uid r) (m_gid r) (m_atime r) rev.

(** [update t set path = to, ... where path = from]. *)
Definition move_row {A} (from to : gostr) (f : A -> A) (m : gmap gostr A) : option (gmap gostr A) :=
  rekey (fun q => bool_decide (q = from)) (fun _ => to) f m.

Definition moveRenameSourceTx (now : Z) (from to : gostr) (srcKind : nodeKind)
    (newVersion inodeID rev : Z) : tx unit :=
  match srcKind with
  | nodeRegular =>
      _ ← rekeyTx (fun d => move_row from to (fun r => r) (manifests d)) set_manifests;
      _ ← bind_u64 newVersion;
      modify (update_inode inodeID (set_m_version_rev newVersion rev))
  | nodeSymlink =>
      rekeyTx (fun d => move_row from to (set_sl_rev rev) (symlinks d)) set_symlinks
  | nodeSpecial =>
      rekeyTx (fun d => move_row from to (set_sn_rev rev) (special_nodes d)) set_special_nodes
  | nodeDir => reparentDescendantsTx now from to rev
  | nodeAbsent => mret tt
  end.

Definition rewriteRenameDirEntriesTx (from to : gostr) (srcKind : nodeKind) (rev : Z) : tx unit :=
  let '(fromParent, fromName) := splitParentName from in
  let '(toParent, toName) := splitParentName to in
  meta ← query (fun d =>
    if decide (srcKind = nodeDir) then
      match dir_entries d !! (fromParent, fromName) with
      | Some e => (de_mode e, de_uid e, de_gid e, de_atime e)
      | None => (0, 0, 0, 0)
      end
    else (0, 0, 0, 0));
  let '(dMode, dUID, dGID, dAtime) := meta in
  _ ← (if decide (fromName = []) then mret tt else deleteEntryTx fromParent fromName);
  if decide (toName = []) then mret tt
  else if decide (srcKind = nodeDir) then
    modify (fun d =>
      let mtime := default 0 (de_mtime <$> dir_entries d !! (toParent, toName)) in
      set_dir_entries (<[(toParent, toName) := mkDerow dMode mtime dUID dGID dAtime rev]>
                         (dir_entries d)) d)
  else insertEntryOrIgnoreTx toParent toName.

(** Both names already are the same inode. *)
Definition same_inode (src : option mrow) (dstInode : option Z) : bool :=
  match src, dstInode with
  | Some r, Some i => m_inode r =? i
  | _, _ => false
  end.

Section rename.
Context {MP : MsgPack} (now : Z).

Definition journalRenameTx (from to : gostr) (srcKind : nodeKind) (dstVersion : Z)
    (src : option mrow) (sessionID allocationID agentID : gostr)
    : tx (Z * option SessionJournalEntry) :=
  match src with
  | None => mret (1, None)
  | Some r =>
      let newVersion := u64 (dstVersion + 1) in
      if decide (sessionID = []) then mret (newVersion, None)
      else
        match unpackChunks (m_chunks r) with
        | None => throw (ErrMsg "unpack src chunks")
        | Some cs =>
            let prior := mkManifest from 0 0 (m_size r) (m_mode r) (m_mtime r)
                           (m_version r) cs (m_uid r) (m_gid r) (m_atime r) in
            e ← journalBeforeWrite now sessionID allocationID agentID SessionOpRename to
                  (Some prior) (Some newVersion) from;
            mret (newVersion, Some e)
        end
  end.

Definition renameTx (from to : gostr) (expectedFrom expectedTo : Z) (noReplace : bool)
    (sessionID allocationID agentID : gostr) : tx (outcome Z) :=
  srcKind ← resolveKindTx from;
  _ ← require (bool_decide (srcKind <> nodeAbsent)) ErrManifestNotFound;
  if decide (from = to) then
    v ← query (samePathVersion from srcKind);
    mret (Rollback v)
  else
    dst ← resolveRenameDestTx to srcKind noReplace expectedTo;
    let '(dstKind, dstVersion) := dst in
    _ ← checkParentExists to;
    src ← (if decide (srcKind = nodeRegular) then
             r ← readRenameSourceTx from expectedFrom; mret (Some r)
           else mret None);
    dstInode ← query (fun d =>
      if decide (dstKind = nodeRegular) then m_inode <$> manifests d !! to else None);
    if same_inode src dstInode then mret (Rollback (default 0 (m_version <$> src)))
    else
      rev ← allocChangeRevTx;
      _ ← (if decide (dstKind = nodeAbsent) then mret tt else deleteDestTx to dstKind rev);
      ve ← journalRenameTx from to srcKind dstVersion src sessionID allocationID agentID;
      let '(newVersion, entry) := ve in
      _ ← moveRenameSourceTx now from to srcKind newVersion (default 0 (m_inode <$> src)) rev;
      _ ← rewriteRenameDirEntriesTx from to srcKind rev;
      _ ← upsertTombstoneTx now from rev;
      _ ← clearTombstoneTx to;
      mret (Commit newVersion entry rev).

Definition renameOpt (from to : gostr) (expectedFrom expectedTo : Z) (noReplace : bool)
    (sessionID allocationID agentID : gostr) : op Z := fun s =>
  if decide (sessionID <> [] /\ allocationID = [])
  then fail (ErrMsg "manifest_rename: empty allocation_id required") s
  else run_tx (renameTx from to expectedFrom expectedTo noReplace
                 sessionID allocationID agentID) s.

Definition Rename (from to : gostr) (expectedFrom expectedTo : Z)
    (sessionID allocationID agentID : gostr) : op Z :=
  renameOpt from to expectedFrom expectedTo false sessionID allocationID agentID.
End rename.

(** ** Directories, symlinks and special nodes *)

Definition RegisterDir (parent name : gostr) : tx unit := insertEntryOrIgnoreTx parent name.

Definition DirCreateTx (p : gostr) (mode : Z) : tx (outcome unit) :=
  let '(parent, name) := splitParentName p in
  _ ← checkParentExists p;
  b ← query (has_entry parent name);
  _ ← require (negb b) ErrAlreadyExists;
  let mode := if mode =? 0 then 493 else mode in
  rev ← allocChangeRevTx;
  _ ← insertEntryTx parent name (mkDerow (Z.land mode 4095) 0 0 0 0 rev);
  _ ← clearTombstoneTx p;
  mret (Commit tt None rev).

Definition DirCreate (p : gostr) (mode : Z) : op unit := run_tx (DirCreateTx p mode).

Definition SymlinkTx (p target : gostr) (mode : Z) : tx (outcome unit) :=
  let mode := if mode =? 0 then 511 else mode in
  let '(parent, name) := splitParentName p in
  _ ← require (bool_decide (name <> [])) (ErrMsg "cannot symlink root");
  _ ← checkParentExists p;
  b ← query (has_entry parent name);
  _ ← require (negb b) ErrAlreadyExists;
  rev ← allocChangeRevTx;
  dup ← query (fun d => present (symlinks d !! p));
  _ ← require (negb dup) ErrConstraint;
  _ ← modify (fun d => set_symlinks
        (<[p := mkSlrow target (Z.land mode 4095) 0 0 0 0 rev]> (symlinks d)) d);
  _ ← insertEntryTx parent name (mkDerow (Z.land mode 4095) 0 0 0 0 0);
  _ ← clearTombstoneTx p;
  mret (Commit tt None rev).

Definition Symlink (p target : gostr) (mode : Z) : op unit := run_tx (SymlinkTx p target mode).

Definition MknodTx (p : gostr) (mode rdev : Z) : tx (outcome unit) :=
  let '(parent, name) := splitParentName p in
  _ ← require (bool_decide (name <> [])) (ErrMsg "cannot mknod root");
  _ ← checkParentExists p;
  b ← query (has_entry parent name);
  _ ← require (negb b) ErrAlreadyExists;
  rev ← allocChangeRevTx;
  _ ← bind_u64 rdev;
  dup ← query (fun d => present (special_nodes d !! p));
  _ ← require (negb dup) ErrConstraint;
  _ ← modify (fun d => set_special_nodes
        (<[p := mkSnrow mode rdev 0 0 0 0 rev]> (special_nodes d)) d);
  _ ← insertEntryTx parent name (mkDerow (Z.land mode 4095) 0 0 0 0 0);
  _ ← clearTombstoneTx p;
  mret (Commit tt None rev).

Definition Mknod (p : gostr) (mode rdev : Z) : op unit := run_tx (MknodTx p mode rdev).

Definition DirRemoveTx (now : Z) (p : gostr) : tx (outcome unit) :=
  let '(parent, name) := splitParentName p in
  b ← query (has_entry parent name);
  _ ← require b ErrManifestNotFound;
  c ← query (has_children p);
  _ ← require (negb c) ErrNotEmpty;
  f ← query (fun d => has_glob p (manifests d));
  _ ← require (negb f) ErrNotEmpty;
  _ ← deleteEntryTx parent name;
  rev ← allocChangeRevTx;
  _ ← upsertTombstoneTx now p rev;
  mret (Commit tt None rev).

Definition DirRemove (now : Z) (p : gostr) : op unit := run_tx (DirRemoveTx now p).

(** ** Metadata updates

    [setMetaTx] is the fan-out of [SetOwner] and [SetAtime]: the file and its
    hard links, else the symlink, else the special node, else the directory.
    The root succeeds and the allocated revision is rolled back. *)

Definition setMetaTx (fm : Z -> mrow -> mrow) (fs : Z -> slrow -> slrow)
    (fn : Z -> snrow -> snrow) (fd : Z -> derow -> derow) (p : gostr) : tx (outcome unit) :=
  rev ← allocChangeRevTx;
  d ← query id;
  match manifests d !! p with
  | Some r => _ ← modify (update_inode (m_inode r) (fm rev)); mret (Commit tt None rev)
  | None =>
  match symlinks d !! p with
  | Some r => _ ← modify (fun d => set_symlinks (<[p := fs rev r]> (symlinks d)) d);
              mret (Commit tt None rev)
  | None =>
  match special_nodes d !! p with
  | Some r => _ ← modify (fun d => set_special_nodes (<[p := fn rev r]> (special_nodes d)) d);
              mret (Commit tt None rev)
  | None =>
    let '(parent, name) := splitParentName p in
    if decide (name = []) then mret (Rollback tt)
    else
      match dir_entries d !! (parent, name) with
      | Some e => _ ← modify (fun d => set_dir_entries
                        (<[(parent, name) := fd rev e]> (dir_entries d)) d);
                  mret (Commit tt None rev)
      | None => throw ErrManifestNotFound
      end
  end end end.

Definition m_set_owner (uid gid rev : Z) (r : mrow) : mrow :=
  mkMrow (m_inode r) (m_size r) (m_mode r) (m_mtime r) (m_version r) (m_chunks r)
    uid gid (m_atime r) rev.
Definition m_set_atime (atime rev : Z) (r : mrow) : mrow :=
  mkMrow (m_inode r) (m_size r) (m_mode r) (m_mtime r) (m_version r) (m_chunks r)
    (m_uid r) (m_gid r) atime rev.

Definition SetOwner (p : gostr) (uid gid : Z) : op unit :=
  run_tx (setMetaTx (m_set_owner uid gid)
    (fun rev r => mkSlrow (sl_target r) (sl_mode r) (sl_mtime r) uid gid (sl_atime r) rev)
    (fun rev r => mkSnrow (sn_mode r) (sn_rdev r) (sn_mtime r) uid gid (sn_atime r) rev)
    (fun rev r => mkDerow (de_mode r) (de_mtime r) uid gid (de_atime r) rev) p).

Definition SetAtime (p : gostr) (atime : Z) : op unit :=
  run_tx (setMetaTx (m_set_atime atime)
    (fun rev r => mkSlrow (sl_target r) (sl_mode r) (sl_mtime r) (sl_uid r) (sl_gid r) atime rev)
    (fun rev r => mkSnrow (sn_mode r) (sn_rdev r) (sn_mtime r) (sn_uid r) (sn_gid r) atime rev)
    (fun rev r => mkDerow (de_mode r) (de_mtime r) (de_uid r) (de_gid r) atime rev) p).

(** ** Session authenticity *)

Definition sessionMountPrefix : gostr := str "mount:".
Definition sessionRevertPrefix : gostr := str "revert:".

Definition validateSessionIDForLease (sessionID activeLeaseHex : gostr) : option err :=
  if decide (sessionID = []) then None
  else if decide (activeLeaseHex = [])
  then Some (ErrMsg "session_id check: no active lease on connection")
  else if decide (sessionID <> sessionMountPrefix ++ activeLeaseHex)
  then Some (ErrMsg "session_id mismatch (EACCES)")
  else None.

Definition withLeaseCheck {A} (sessionID activeLeaseHex : gostr) (o : op A) : op A := fun s =>
  match validateSessionIDForLease sessionID activeLeaseHex with
  | Some e => fail e s
  | None => o s
  end.

Section lease_checked.
Context {MP : MsgPack} (now : Z).

Definition PutWithLeaseCheck (p : gostr) (expectedVersion : Z) (mf : Manifest)
    (sessionID allocationID agentID activeLeaseHex : gostr) : op Z :=
  withLeaseCheck sessionID activeLeaseHex
    (Put now p expectedVersion mf sessionID allocationID agentID).

Definition LinkWithLeaseCheck (from to sessionID allocationID agentID activeLeaseHex : gostr)
    : op Z :=
  withLeaseCheck sessionID activeLeaseHex (Link now from to sessionID allocationID agentID).

Definition DeleteWithLeaseCheck (p : gostr) (expectedVersion : Z)
    (sessionID allocationID agentID activeLeaseHex : gostr) : op unit :=
  withLeaseCheck sessionID activeLeaseHex
    (Delete now p expectedVersion sessionID allocationID agentID).

Definition RenameWithLeaseCheck (from to : gostr) (expectedFrom expectedTo : Z)
    (noReplace : bool) (sessionID allocationID agentID activeLeaseHex : gostr) : op Z :=
  withLeaseCheck sessionID activeLeaseHex
    (renameOpt now from to expectedFrom expectedTo noReplace sessionID allocationID agentID).

(** The metadata arm of [SetMode]. *)
Definition setModeTx (p : gostr) (mode : Z) : tx (outcome unit) :=
  rev ← allocChangeRevTx;
  d ← query id;
  match symlinks d !! p with
  | Some r => _ ← modify (fun d => set_symlinks
                    (<[p := mkSlrow (sl_target r) mode (sl_mtime r) (sl_uid r) (sl_gid r)
                              (sl_atime r) rev]> (symlinks d)) d);
              mret (Commit tt None rev)
  | None =>
  match special_nodes d !! p with
  | Some r => let newMode := Z.lor (Z.land (sn_mode r) sIFMT) (Z.land mode 4095) in
              _ ← modify (fun d => set_special_nodes
                    (<[p := mkSnrow newMode (sn_rdev r) (sn_mtime r) (sn_uid r) (sn_gid r)
                              (sn_atime r) rev]> (special_nodes d)) d);
              mret (Commit tt None rev)
  | None =>
    let '(parent, name) := splitParentName p in
    if decide (name = []) then mret (Rollback tt)
    else
      match dir_entries d !! (parent, name) with
      | Some e => _ ← modify (fun d => set_dir_entries
                        (<[(parent, name) := mkDerow mode (de_mtime e) (de_uid e) (de_gid e)
                                               (de_atime e) rev]> (dir_entries d)) d);
                  mret (Commit tt None rev)
      | None => throw ErrManifestNotFound
      end
  end end.

Definition set_mf_mode (mode : Z) (mf : Manifest) : Manifest :=
  mkManifest (mf_Path mf) (mf_InodeID mf) (mf_Nlink mf) (mf_Size mf) mode (mf_Mtime mf)
    (mf_Version mf) (mf_Chunks mf) (mf_Uid mf) (mf_Gid mf) (mf_Atime mf).

(** A file's mode goes through a versioned, journaled [Put]. *)
Definition SetMode (p : gostr) (mode : Z)
    (sessionID allocationID agentID activeLeaseHex : gostr) : op unit := fun s =>
  let mode := Z.land mode 4095 in
  match Get p (st_db s) with
  | Ok mf =>
      match PutWithLeaseCheck p (mf_Version mf) (set_mf_mode mode mf)
              sessionID allocationID agentID activeLeaseHex s with
      | (Ok _, s') => (Ok tt, s')
      | (Err e, s') => (Err e, s')
      end
  | Err ErrManifestNotFound => run_tx (setModeTx p mode) s
  | Err e => fail e s
  end.
End lease_checked.
