(* ===== verification/FileSpec.v ===== *)
(** * Files, names and inodes: the specification of the manifest store

    An abstract file system is a map from names to inode numbers and a map from
    inode numbers to contents.  [Inv d a] says that the database [d] implements
    the file system [a]: the rows of [manifests] are the names, hard links of an
    inode carry the same metadata and chunk list, and the reference count of
    every chunk is the number of its occurrences in the inodes (an inode counts
    once, whatever the number of its names).

    The operations of the specification are one line each; Refine.v proves that
    the transactions of Manifests.v implement them. *)

From S2P Require Import Prelude GoPath Codec TenantDB Journal Manifests.

(** ** The abstract file system *)

Record inode := mkInode {
  i_size : Z; i_mode : Z; i_mtime : Z; i_version : Z; i_chunks : list ChunkRef;
  i_uid : Z; i_gid : Z; i_atime : Z }.

Record afs := mkAfs { names : gmap gostr Z; inodes : gmap Z inode }.

Definition empty_afs : afs := mkAfs ∅ ∅.

(** A new file. *)
Definition spec_create (p : gostr) (i : Z) (x : inode) (a : afs) : afs :=
  mkAfs (<[p := i]> (names a)) (<[i := x]> (inodes a)).

(** New contents or metadata for an inode. *)
Definition spec_write (i : Z) (x : inode) (a : afs) : afs :=
  mkAfs (names a) (<[i := x]> (inodes a)).

(** Another name for an inode. *)
Definition spec_link (p : gostr) (i : Z) (a : afs) : afs :=
  mkAfs (<[p := i]> (names a)) (inodes a).

(** Some other name than [p] has inode [i]. *)
Definition has_alias (p : gostr) (i : Z) (a : afs) : bool :=
  bool_decide (map_Exists (fun _ j => j = i) (delete p (names a))).

(** Removing a name removes the inode with its last name. *)
Definition spec_unlink (p : gostr) (a : afs) : afs :=
  match names a !! p with
  | None => a
  | Some i => mkAfs (delete p (names a))
                (if has_alias p i a then inodes a else delete i (inodes a))
  end.

(** Moving a name that exists to one that does not. *)
Definition spec_move (from to : gostr) (a : afs) : afs :=
  match names a !! from with
  | None => a
  | Some i => mkAfs (<[to := i]> (delete from (names a))) (inodes a)
  end.

Definition with_version (v : Z) (x : inode) : inode :=
  mkInode (i_size x) (i_mode x) (i_mtime x) v (i_chunks x) (i_uid x) (i_gid x) (i_atime x).
Definition with_owner (uid gid : Z) (x : inode) : inode :=
  mkInode (i_size x) (i_mode x) (i_mtime x) (i_version x) (i_chunks x) uid gid (i_atime x).
Definition with_atime (atime : Z) (x : inode) : inode :=
  mkInode (i_size x) (i_mode x) (i_mtime x) (i_version x) (i_chunks x) (i_uid x) (i_gid x) atime.

(** References to a chunk from all inodes. *)
Definition refs (h : hash) (m : gmap Z inode) : Z := map_sum (fun x => occ h (i_chunks x)) m.

(** ** Rows and inodes *)

Definition row_inode (r : mrow) : option inode :=
  cs ← unpackChunks (m_chunks r);
  Some (mkInode (m_size r) (m_mode r) (m_mtime r) (m_version r) cs (m_uid r) (m_gid r)
          (m_atime r)).

Record Inv (d : tdb) (a : afs) : Prop := {
  inv_names : names a = m_inode <$> manifests d;
  inv_rows : forall p r, manifests d !! p = Some r ->
    exists x, row_inode r = Some x /\ inodes a !! m_inode r = Some x;
  inv_live : forall i x, inodes a !! i = Some x -> exists p, names a !! p = Some i;
  inv_ids : forall i x, inodes a !! i = Some x -> 0 < i <= inode_next_id d;
  inv_next : 0 <= inode_next_id d;
  inv_wf : forall i x, inodes a !! i = Some x -> Forall wf_ref (i_chunks x);
  inv_rc : forall h, rc h d = refs h (inodes a) }.

(** ** Lemmas on references *)

Lemma refs_nonneg h m : 0 <= refs h m.
Proof. apply map_sum_nonneg. intros y. apply occ_nonneg. Qed.

Lemma refs_insert h m i x :
  m !! i = None -> refs h (<[i := x]> m) = refs h m + occ h (i_chunks x).
Proof. intros Hi. unfold refs. rewrite map_sum_insert by done. lia. Qed.

Lemma refs_replace h m i x y :
  m !! i = Some x -> refs h (<[i := y]> m) = refs h m + occ h (i_chunks y) - occ h (i_chunks x).
Proof. intros Hi. unfold refs. by rewrite (map_sum_replace _ _ _ x). Qed.

Lemma refs_delete h m i x :
  m !! i = Some x -> refs h (delete i m) = refs h m - occ h (i_chunks x).
Proof. intros Hi. unfold refs. rewrite (map_sum_delete _ m i x) by done. lia. Qed.

Lemma refs_ge h m i x : m !! i = Some x -> occ h (i_chunks x) <= refs h m.
Proof.
  intros Hi. unfold refs. apply (map_sum_ge (fun x => occ h (i_chunks x)) m i x); [| done].
  intros y. apply occ_nonneg.
Qed.

(** A chunk is referenced iff some inode mentions it. *)
Lemma refs_pos h m : 0 < refs h m <-> exists i x, m !! i = Some x /\ h ∈ Hash <$> i_chunks x.
Proof.
  split.
  - induction m as [|i x m Hi IH] using map_ind.
    + unfold refs. rewrite map_sum_empty. lia.
    + rewrite refs_insert by done. intros Hp.
      destruct (decide (0 < occ h (i_chunks x))) as [Ho|Ho].
      * exists i, x. rewrite lookup_insert_eq. split; [done |]. by apply occ_pos.
      * pose proof (occ_nonneg h (i_chunks x)).
        destruct IH as (j & y & Hj & Hy); [lia |]. exists j, y.
        rewrite lookup_insert_ne by congruence. done.
  - intros (i & x & Hi & Hx). apply occ_pos in Hx. pose proof (refs_ge h m i x Hi). lia.
Qed.

(** ** Lemmas on the invariant *)

(** The part of the database the invariant is about. *)
Definition core (d : tdb) := (manifests d, chunks d, inode_next_id d).

Lemma rc_core h d d' : core d = core d' -> rc h d = rc h d'.
Proof. unfold core, rc. by intros [= _ -> _]. Qed.

Lemma Inv_core d d' a : core d = core d' -> Inv d a -> Inv d' a.
Proof.
  intros Hc [H1 H2 H3 H4 H5 H6 H7]. pose proof Hc as [= Hm Hch Hn]. split.
  - by rewrite <- Hm.
  - by rewrite <- Hm.
  - done.
  - by rewrite <- Hn.
  - by rewrite <- Hn.
  - done.
  - intros h. by rewrite <- H7, (rc_core h d d').
Qed.

Lemma Inv_empty : Inv emptyDB empty_afs.
Proof.
  by split.
Qed.

Section inv.
Context (d : tdb) (a : afs) (I : Inv d a).

Lemma inv_name p r : manifests d !! p = Some r -> names a !! p = Some (m_inode r).
Proof. intros Hp. by rewrite (inv_names _ _ I), lookup_fmap, Hp. Qed.

Lemma inv_name_row p i :
  names a !! p = Some i -> exists r, manifests d !! p = Some r /\ m_inode r = i.
Proof.
  rewrite (inv_names _ _ I), lookup_fmap. intros (r & Hr & ->)%fmap_Some. eauto.
Qed.

Lemma inv_name_None p : names a !! p = None <-> manifests d !! p = None.
Proof. by rewrite (inv_names _ _ I), lookup_fmap, fmap_None. Qed.

(** Hard links of an inode agree on everything but the change revision. *)
Lemma inv_coherent p q r s :
  manifests d !! p = Some r -> manifests d !! q = Some s -> m_inode r = m_inode s ->
  row_inode r = row_inode s.
Proof.
  intros Hp Hq Hi.
  destruct (inv_rows _ _ I p r Hp) as (x & Hx & Hx').
  destruct (inv_rows _ _ I q s Hq) as (y & Hy & Hy'). congruence.
Qed.

Lemma inv_unpack p r :
  manifests d !! p = Some r ->
  exists x, row_inode r = Some x /\ inodes a !! m_inode r = Some x /\
    unpackChunks (m_chunks r) = Some (i_chunks x) /\ m_version r = i_version x /\
    Forall wf_ref (i_chunks x).
Proof.
  intros Hp. destruct (inv_rows _ _ I p r Hp) as (x & Hx & Hi).
  exists x. split; [done |]. split; [done |].
  pose proof (inv_wf _ _ I _ _ Hi). unfold row_inode in Hx.
  destruct (unpackChunks (m_chunks r)) as [cs|] eqn:Hu; [| done].
  simpl in Hx. by simplify_eq.
Qed.

Lemma inv_fresh i : inode_next_id d < i -> inodes a !! i = None.
Proof.
  intros Hi. destruct (inodes a !! i) as [x|] eqn:E; [| done].
  pose proof (inv_ids _ _ I i x E). lia.
Qed.

Lemma inv_fresh_name p i : inode_next_id d < i -> names a !! p <> Some i.
Proof.
  intros Hi Hp. destruct (inv_name_row p i Hp) as (r & Hr & <-).
  destruct (inv_rows _ _ I p r Hr) as (x & _ & Hx). rewrite inv_fresh in Hx; [done | lia].
Qed.

(** No count becomes negative when an inode changes its chunk list. *)
Lemma inv_delta_ok i x new :
  inodes a !! i = Some x ->
  forall h, 0 <= rc h d + default 0 (chunkRefDelta (i_chunks x) new !! h).
Proof.
  intros Hi h. rewrite chunkRefDelta_lookup, (inv_rc _ _ I h).
  pose proof (refs_ge h _ _ _ Hi). pose proof (occ_nonneg h new). lia.
Qed.

Lemma inv_delta_new_ok new h :
  0 <= rc h d + default 0 (chunkRefDelta [] new !! h).
Proof.
  rewrite chunkRefDelta_lookup, (inv_rc _ _ I h).
  pose proof (refs_nonneg h (inodes a)). pose proof (occ_nonneg h new). simpl. lia.
Qed.

(** *** Counting links *)

Lemma elem_links i p r : links i d !! p = Some r <-> manifests d !! p = Some r /\ m_inode r = i.
Proof. unfold links. by rewrite map_lookup_filter_Some. Qed.

Lemma nlink_pos p r : manifests d !! p = Some r -> 1 <= nlink (m_inode r) d.
Proof.
  intros Hp. unfold nlink.
  assert (links (m_inode r) d <> ∅) as Hne.
  { intros E. assert (links (m_inode r) d !! p = Some r) as H by by apply elem_links.
    by rewrite E in H. }
  apply map_size_non_empty_iff in Hne. lia.
Qed.

Lemma has_alias_spec p i :
  has_alias p i a = true <-> exists q, q <> p /\ names a !! q = Some i.
Proof.
  unfold has_alias. rewrite bool_decide_eq_true. unfold map_Exists. split.
  - intros (q & j & Hq & ->). apply lookup_delete_Some in Hq as [? ?]. eauto.
  - intros (q & Hne & Hq). exists q, i. by rewrite lookup_delete_ne.
Qed.

(** The count of links is 1 exactly when no other name has the inode. *)
Lemma nlink_alias p r :
  manifests d !! p = Some r -> has_alias p (m_inode r) a = negb (nlink (m_inode r) d =? 1).
Proof.
  intros Hp. unfold nlink.
  assert (links (m_inode r) d !! p = Some r) as Hl by by apply elem_links.
  pose proof (map_size_delete_Some p (links (m_inode r) d) (mk_is_Some _ _ Hl)) as Hsz.
  pose proof (nlink_pos p r Hp) as Hpos. unfold nlink in Hpos.
  destruct (Z.eqb_spec (Z.of_nat (size (links (m_inode r) d))) 1) as [H1|H1].
  - assert (delete p (links (m_inode r) d) = ∅) as He by (apply map_size_empty_iff; lia).
    apply not_true_is_false. rewrite has_alias_spec. intros (q & Hne & Hq).
    apply inv_name_row in Hq as (s & Hs & Hi).
    assert (delete p (links (m_inode r) d) !! q = Some s) as Hd.
    { rewrite lookup_delete_ne by done. by apply elem_links. }
    by rewrite He in Hd.
  - simpl. rewrite has_alias_spec.
    destruct (map_choose (delete p (links (m_inode r) d))) as (q & s & Hs).
    { intros E. apply map_size_empty_iff in E. lia. }
    apply lookup_delete_Some in Hs as [Hne Hs]. apply elem_links in Hs as [Hs Hi].
    exists q. split; [done |]. by rewrite <- Hi, (inv_name q s).
Qed.
End inv.

(** The file system a database implements is unique. *)
Lemma Inv_unique d a a' : Inv d a -> Inv d a' -> a = a'.
Proof.
  intros I I'. destruct a as [n m], a' as [n' m'].
  assert (n = n') as -> by exact (eq_trans (inv_names _ _ I) (eq_sym (inv_names _ _ I'))).
  f_equal. apply map_eq. intros i.
  assert (forall m1 m2, Inv d (mkAfs n' m1) -> Inv d (mkAfs n' m2) ->
    forall x, m1 !! i = Some x -> m2 !! i = Some x) as Hsub.
  { clear. intros m1 m2 I1 I2 x Hx.
    destruct (inv_live _ _ I1 i x Hx) as [p Hp].
    destruct (inv_name_row _ _ I1 p i Hp) as (r & Hr & <-).
    destruct (inv_rows _ _ I1 p r Hr) as (y & Hy & Hy').
    destruct (inv_rows _ _ I2 p r Hr) as (z & Hz & Hz'). simpl in *. congruence. }
  destruct (m !! i) as [x|] eqn:E.
  - symmetry. by apply (Hsub m m').
  - destruct (m' !! i) as [y|] eqn:E'; [| done]. rewrite <- E. by apply (Hsub m' m).
Qed.
