(* ===== verification/Refine.v ===== *)
(** * The manifest store implements its specification

    Refinement of the operations of Manifests.v to FileSpec.v.  The first part
    lifts changes of the tables to the abstract file system; the second runs
    each transaction. *)

From S2P Require Import Prelude GoPath Codec TenantDB Journal Manifests FileSpec.

(** ** Table changes *)

Section lift.
Context (d d' : tdb) (a : afs) (I : Inv d a).

Lemma Inv_create p r i x :
  manifests d !! p = None -> i = inode_next_id d + 1 ->
  m_inode r = i -> row_inode r = Some x -> Forall wf_ref (i_chunks x) ->
  manifests d' = <[p := r]> (manifests d) -> inode_next_id d' = i ->
  (forall h, rc h d' = rc h d + occ h (i_chunks x)) ->
  Inv d' (spec_create p i x a).
Proof using I.
  intros Hp Hi Hri Hrx Hwf Hm Hn Hrc.
  assert (inodes a !! i = None) as Hf by (apply (inv_fresh d a I); lia).
  split; simpl.
  - by rewrite Hm, fmap_insert, (inv_names _ _ I), Hri.
  - intros q s. rewrite Hm. intros [[<- <-]|[Hne Hq]]%lookup_insert_Some.
    + exists x. by rewrite Hri, lookup_insert_eq.
    + destruct (inv_rows _ _ I q s Hq) as (y & Hy & Hy'). exists y. split; [done |].
      rewrite lookup_insert_ne; [done |]. intros E. rewrite <- E in Hy'. congruence.
  - intros j y [[<- <-]|[Hne Hj]]%lookup_insert_Some.
    + exists p. by rewrite lookup_insert_eq.
    + destruct (inv_live _ _ I j y Hj) as [q Hq]. exists q.
      rewrite lookup_insert_ne; [done |]. intros <-.
      apply (inv_name_None d a I) in Hp. congruence.
  - intros j y [[<- <-]|[Hne Hj]]%lookup_insert_Some.
    + pose proof (inv_next _ _ I). lia.
    + pose proof (inv_ids _ _ I j y Hj). lia.
  - pose proof (inv_next _ _ I). lia.
  - intros j y [[<- <-]|[Hne Hj]]%lookup_insert_Some; [done |].
    by apply (inv_wf _ _ I j y).
  - intros h. by rewrite Hrc, refs_insert, (inv_rc _ _ I h).
Qed.

(** Rows rewritten in place, inode numbers kept. *)
Lemma Inv_update i x y (f : mrow -> mrow) :
  inodes a !! i = Some x ->
  manifests d' = (fun r => if decide (m_inode r = i) then f r else r) <$> manifests d ->
  (forall r, m_inode (f r) = m_inode r) ->
  (forall p r, manifests d !! p = Some r -> m_inode r = i -> row_inode (f r) = Some y) ->
  Forall wf_ref (i_chunks y) -> inode_next_id d' = inode_next_id d ->
  (forall h, rc h d' = rc h d + occ h (i_chunks y) - occ h (i_chunks x)) ->
  Inv d' (spec_write i y a).
Proof using I.
  intros Hi Hm Hfi Hfx Hwf Hn Hrc. split; simpl.
  - rewrite Hm, (inv_names _ _ I), <- map_fmap_compose. apply map_fmap_ext.
    intros q r Hq. simpl. case_decide; [by rewrite Hfi | done].
  - intros q s. rewrite Hm, lookup_fmap. intros (r & Hq & ->)%fmap_Some.
    case_decide as Hd.
    + exists y. rewrite Hfi, Hd, lookup_insert_eq. split; [| done]. by eapply Hfx.
    + destruct (inv_rows _ _ I q r Hq) as (z & Hz & Hz'). exists z.
      by rewrite lookup_insert_ne.
  - intros j z [[<- <-]|[Hne Hj]]%lookup_insert_Some; eapply (inv_live _ _ I); eauto.
  - rewrite Hn. intros j z [[<- <-]|[Hne Hj]]%lookup_insert_Some; eapply (inv_ids _ _ I); eauto.
  - rewrite Hn. apply (inv_next _ _ I).
  - intros j z [[<- <-]|[Hne Hj]]%lookup_insert_Some; [done |]. by apply (inv_wf _ _ I j z).
  - intros h. rewrite Hrc, (refs_replace h _ i x), (inv_rc _ _ I h) by done. lia.
Qed.

(** Rows rewritten in place without a change of the inode. *)
Lemma Inv_same (f : mrow -> mrow) :
  manifests d' = f <$> manifests d ->
  (forall r, m_inode (f r) = m_inode r) -> (forall r, row_inode (f r) = row_inode r) ->
  inode_next_id d' = inode_next_id d -> (forall h, rc h d' = rc h d) -> Inv d' a.
Proof using I.
  intros Hm Hfi Hfx Hn Hrc. split.
  - rewrite Hm, (inv_names _ _ I), <- map_fmap_compose. apply map_fmap_ext.
    intros q r Hq. simpl. by rewrite Hfi.
  - intros q s. rewrite Hm, lookup_fmap. intros (r & Hq & ->)%fmap_Some.
    rewrite Hfi, Hfx. by apply (inv_rows _ _ I q r).
  - apply (inv_live _ _ I).
  - rewrite Hn. apply (inv_ids _ _ I).
  - rewrite Hn. apply (inv_next _ _ I).
  - apply (inv_wf _ _ I).
  - intros h. rewrite Hrc. apply (inv_rc _ _ I).
Qed.

Lemma Inv_link p q r s :
  manifests d !! p = None -> manifests d !! q = Some s ->
  m_inode r = m_inode s -> row_inode r = row_inode s ->
  manifests d' = <[p := r]> (manifests d) -> inode_next_id d' = inode_next_id d ->
  (forall h, rc h d' = rc h d) -> Inv d' (spec_link p (m_inode s) a).
Proof using I.
  intros Hp Hq Hi Hx Hm Hn Hrc. split; simpl.
  - by rewrite Hm, fmap_insert, (inv_names _ _ I), Hi.
  - intros k t. rewrite Hm. intros [[<- <-]|[Hne Hk]]%lookup_insert_Some.
    + rewrite Hi, Hx. by apply (inv_rows _ _ I q s).
    + by apply (inv_rows _ _ I k t).
  - intros j y Hj. destruct (inv_live _ _ I j y Hj) as [k Hk]. exists k.
    rewrite lookup_insert_ne; [done |]. intros <-. apply (inv_name_None d a I) in Hp. congruence.
  - rewrite Hn. apply (inv_ids _ _ I).
  - rewrite Hn. apply (inv_next _ _ I).
  - apply (inv_wf _ _ I).
  - intros h. rewrite Hrc. apply (inv_rc _ _ I).
Qed.

Lemma Inv_unlink p r x :
  manifests d !! p = Some r -> inodes a !! m_inode r = Some x ->
  manifests d' = delete p (manifests d) -> inode_next_id d' = inode_next_id d ->
  (forall h, rc h d' = rc h d -
               (if nlink (m_inode r) d =? 1 then occ h (i_chunks x) else 0)) ->
  Inv d' (spec_unlink p a).
Proof using I.
  intros Hp Hx Hm Hn Hrc. pose proof (inv_name d a I p r Hp) as Hnm.
  pose proof (nlink_alias d a I p r Hp) as Hal.
  unfold spec_unlink. rewrite Hnm, Hal.
  assert (forall j y, (if negb (nlink (m_inode r) d =? 1) then inodes a
                       else delete (m_inode r) (inodes a)) !! j = Some y ->
    inodes a !! j = Some y) as Hsub.
  { intros j y. destruct (negb _); [done |]. by intros [_ ?]%lookup_delete_Some. }
  split; simpl.
  - by rewrite Hm, fmap_delete, (inv_names _ _ I).
  - intros q s. rewrite Hm. intros [Hne Hq]%lookup_delete_Some.
    destruct (inv_rows _ _ I q s Hq) as (y & Hy & Hy'). exists y. split; [done |].
    destruct (negb _) eqn:E; [done |]. rewrite lookup_delete_ne; [done |]. intros Heq.
    assert (has_alias p (m_inode r) a = false) as E' by congruence.
    apply not_true_iff_false in E'. apply E', has_alias_spec.
    exists q. split; [done |]. rewrite (inv_name d a I q s Hq). congruence.
  - intros j y Hj. destruct (inv_live _ _ I j y (Hsub j y Hj)) as [q Hq].
    destruct (decide (q = p)) as [->|Hne].
    + rewrite Hnm in Hq. simplify_eq. destruct (negb _) eqn:E.
      * assert (has_alias p (m_inode r) a = true) as (q & Hne & Hq)%has_alias_spec
          by congruence.
        exists q. by rewrite lookup_delete_ne.
      * by rewrite lookup_delete_eq in Hj.
    + exists q. by rewrite lookup_delete_ne.
  - rewrite Hn. intros j y Hj. by apply (inv_ids _ _ I j y), Hsub.
  - rewrite Hn. apply (inv_next _ _ I).
  - intros j y Hj. by apply (inv_wf _ _ I j y), Hsub.
  - intros h. rewrite Hrc, (inv_rc _ _ I h).
    destruct (nlink (m_inode r) d =? 1); simpl; [| lia].
    by rewrite (refs_delete h _ _ x).
Qed.

(** Names moved by a table-wide update of the key. *)
Lemma Inv_rekey c nk f m' :
  rekey c nk f (manifests d) = Some m' ->
  (forall r, m_inode (f r) = m_inode r) -> (forall r, row_inode (f r) = row_inode r) ->
  manifests d' = m' -> inode_next_id d' = inode_next_id d ->
  (forall h, rc h d' = rc h d) -> Inv d' (mkAfs (m_inode <$> m') (inodes a)).
Proof using I.
  intros Hk Hfi Hfx Hm Hn Hrc. split; simpl.
  - by rewrite Hm.
  - intros q s. rewrite Hm. intros Hq. apply (rekey_lookup _ _ _ _ _ _ _ Hk) in Hq
      as [(k0 & r & Hr & _ & _ & ->)|[Hr _]].
    + rewrite Hfi, Hfx. by apply (inv_rows _ _ I k0 r).
    + by apply (inv_rows _ _ I q s).
  - intros j y Hj. destruct (inv_live _ _ I j y Hj) as [q Hq].
    destruct (inv_name_row d a I q j Hq) as (r & Hr & <-).
    destruct (c q) eqn:Hc.
    + exists (nk q). rewrite lookup_fmap.
      assert (m' !! nk q = Some (f r)) as ->
        by (apply (rekey_lookup _ _ _ _ _ _ _ Hk); left; eauto 10).
      simpl. by rewrite Hfi.
    + exists q. rewrite lookup_fmap.
      assert (m' !! q = Some r) as -> by (apply (rekey_lookup _ _ _ _ _ _ _ Hk); by right).
      done.
  - rewrite Hn. apply (inv_ids _ _ I).
  - rewrite Hn. apply (inv_next _ _ I).
  - apply (inv_wf _ _ I).
  - intros h. rewrite Hrc. apply (inv_rc _ _ I).
Qed.
End lift.

(** ** Steps that do not touch files, chunks or inode numbers *)

Definition keeps {A} (t : tx A) : Prop := forall d x d', t d = Ok (x, d') -> core d' = core d.

Lemma keeps_ret {A} (x : A) : keeps (mret x : tx A).
Proof. by intros d y d' [_ <-]%tx_ret_Ok. Qed.

Lemma keeps_bind {A B} (m : tx A) (k : A -> tx B) :
  keeps m -> (forall x, keeps (k x)) -> keeps (m ≫= k).
Proof.
  intros Hm Hk d y d' (x & d1 & H1 & H2)%tx_bind_Ok.
  by rewrite (Hk _ _ _ _ H2), (Hm _ _ _ H1).
Qed.

Lemma keeps_query {A} (f : tdb -> A) : keeps (query f).
Proof. by intros d x d' [= _ <-]. Qed.

Lemma keeps_throw {A} e : keeps (throw e : tx A).
Proof. by intros d x d'. Qed.

Lemma keeps_require b e : keeps (require b e).
Proof. by intros d x d' [_ ->]%require_Ok. Qed.

Lemma keeps_modify f : (forall d, core (f d) = core d) -> keeps (modify f).
Proof. intros Hf d x d' [= _ <-]. apply Hf. Qed.

Create HintDb keeps.
#[export] Hint Resolve keeps_ret keeps_query keeps_throw keeps_require : keeps.

(** Decomposes a transaction into its steps. *)
Ltac keeps_tac :=
  repeat first
    [ progress eauto 1 with keeps
    | apply keeps_bind; [| intros ?]
    | apply keeps_modify; intros ?; by repeat case_match
    | match goal with
      | |- keeps (match ?x with _ => _ end) => destruct x
      | |- keeps (if ?x then _ else _) => destruct x
      end ].

Lemma keeps_allocChangeRev : keeps allocChangeRevTx.
Proof. unfold allocChangeRevTx. keeps_tac. Qed.
Lemma keeps_upsertTombstone now p rev : keeps (upsertTombstoneTx now p rev).
Proof. unfold upsertTombstoneTx. keeps_tac. Qed.
Lemma keeps_clearTombstone p : keeps (clearTombstoneTx p).
Proof. unfold clearTombstoneTx. keeps_tac. Qed.
Lemma keeps_clearTombstoneSubtree p : keeps (clearTombstoneSubtreeTx p).
Proof. unfold clearTombstoneSubtreeTx. keeps_tac. Qed.
Lemma keeps_tombstoneSubtree now p rev : keeps (tombstoneSubtreeTx now p rev).
Proof. unfold tombstoneSubtreeTx. keeps_tac. Qed.
Lemma keeps_insertEntryOrIgnore p n : keeps (insertEntryOrIgnoreTx p n).
Proof. unfold insertEntryOrIgnoreTx. keeps_tac. Qed.
Lemma keeps_insertEntry p n r : keeps (insertEntryTx p n r).
Proof. unfold insertEntryTx. keeps_tac. Qed.
Lemma keeps_deleteEntry p n : keeps (deleteEntryTx p n).
Proof. unfold deleteEntryTx. keeps_tac. Qed.
#[export] Hint Resolve keeps_allocChangeRev keeps_upsertTombstone keeps_clearTombstone
  keeps_clearTombstoneSubtree keeps_tombstoneSubtree keeps_insertEntryOrIgnore
  keeps_insertEntry keeps_deleteEntry : keeps.

Lemma keeps_removeDirEntry p : keeps (removeDirEntryTx p).
Proof. unfold removeDirEntryTx. keeps_tac. Qed.
Lemma keeps_checkParentExists p : keeps (checkParentExists p).
Proof. unfold checkParentExists. keeps_tac. Qed.
#[export] Hint Resolve keeps_removeDirEntry keeps_checkParentExists : keeps.

Lemma keeps_rekeyTx {A} (r : tdb -> option A) (put : A -> tdb -> tdb) :
  (forall x d, core (put x d) = core d) -> keeps (rekeyTx r put).
Proof.
  intros Hp. unfold rekeyTx. apply keeps_bind; [apply keeps_query |].
  intros [x|]; [| apply keeps_throw]. apply keeps_modify. intros d. apply Hp.
Qed.

Lemma keeps_rewriteRenameDirEntries from to k rev :
  keeps (rewriteRenameDirEntriesTx from to k rev).
Proof. unfold rewriteRenameDirEntriesTx. keeps_tac. Qed.

Section keeps_journal.
Context {MP : MsgPack}.

Lemma keeps_appendJournal now sid al ag op p bv av bm rf :
  keeps (appendJournal now sid al ag op p bv av bm rf).
Proof. unfold appendJournal. keeps_tac. Qed.

Lemma keeps_journalBeforeWrite now sid al ag op p prior av rf :
  keeps (journalBeforeWrite now sid al ag op p prior av rf).
Proof.
  unfold journalBeforeWrite. apply keeps_bind; [apply keeps_appendJournal |]. intros _.
  keeps_tac.
Qed.

Lemma keeps_journalPut now p v nv old cs sid al ag :
  keeps (journalPutTx now p v nv old cs sid al ag).
Proof.
  unfold journalPutTx. case_decide; [apply keeps_ret |].
  destruct (if v =? 0 then _ else _) as [op prior].
  apply keeps_bind; [apply keeps_journalBeforeWrite |]. intros. apply keeps_ret.
Qed.

Lemma keeps_journalCreate now p v sid al ag : keeps (journalCreateTx now p v sid al ag).
Proof.
  unfold journalCreateTx. case_decide; [apply keeps_ret |].
  apply keeps_bind; [apply keeps_journalBeforeWrite |]. intros. apply keeps_ret.
Qed.

Lemma keeps_journalDelete now p r n cs sid al ag :
  keeps (journalDeleteTx now p r n cs sid al ag).
Proof.
  unfold journalDeleteTx. case_decide; [apply keeps_ret |].
  apply keeps_bind; [destruct (n >? 1); keeps_tac |]. intros q.
  apply keeps_bind; [apply keeps_journalBeforeWrite |]. intros. apply keeps_ret.
Qed.

Lemma keeps_journalRename now from to k v src sid al ag :
  keeps (journalRenameTx now from to k v src sid al ag).
Proof.
  unfold journalRenameTx. destruct src as [r|]; [| apply keeps_ret].
  case_decide; [apply keeps_ret |]. destruct (unpackChunks _); [| apply keeps_throw].
  apply keeps_bind; [apply keeps_journalBeforeWrite |]. intros. apply keeps_ret.
Qed.
End keeps_journal.
#[export] Hint Resolve keeps_journalPut keeps_journalCreate keeps_journalDelete
  keeps_journalRename keeps_rewriteRenameDirEntries : keeps.

(** [core_of H] rewrites the database after a step that keeps the core. *)
Lemma keeps_core {A} (t : tx A) d x d' : keeps t -> t d = Ok (x, d') -> core d' = core d.
Proof. intros Hk. apply Hk. Qed.

Ltac core_of H :=
  apply keeps_core in H; [| solve [eauto 2 with keeps | keeps_tac]].

(** ** [Put] *)

Definition new_inode (mf : Manifest) : inode :=
  mkInode (mf_Size mf) (mf_Mode mf) (mf_Mtime mf) 1 (mf_Chunks mf) (mf_Uid mf) (mf_Gid mf)
    (if mf_Atime mf =? 0 then mf_Mtime mf else mf_Atime mf).

(** A content write keeps the owner and the access time. *)
Definition written (mf : Manifest) (v : Z) (x : inode) : inode :=
  mkInode (mf_Size mf) (mf_Mode mf) (mf_Mtime mf) v (mf_Chunks mf) (i_uid x) (i_gid x) (i_atime x).

Lemma row_inode_fields r x :
  row_inode r = Some x ->
  unpackChunks (m_chunks r) = Some (i_chunks x) /\ m_version r = i_version x /\
  m_size r = i_size x /\ m_mode r = i_mode x /\ m_mtime r = i_mtime x /\
  m_uid r = i_uid x /\ m_gid r = i_gid x /\ m_atime r = i_atime x.
Proof.
  unfold row_inode. destruct (unpackChunks (m_chunks r)) as [cs|]; [| done]. simpl.
  intros [= <-]. done.
Qed.

Lemma row_inode_packed i sz md mt v cs uid gid at_ rev :
  Forall wf_ref cs ->
  row_inode (mkMrow i sz md mt v (packChunks cs) uid gid at_ rev) =
  Some (mkInode sz md mt v cs uid gid at_).
Proof. intros Hcs. unfold row_inode. simpl. by rewrite unpackChunks_packChunks. Qed.

Lemma core_eq d m c n :
  core d = (m, c, n) <-> manifests d = m /\ chunks d = c /\ inode_next_id d = n.
Proof. unfold core. split; [by intros [= -> -> ->] | by intros (-> & -> & ->)]. Qed.

Lemma rc_chunks h d d' : chunks d = chunks d' -> rc h d = rc h d'.
Proof. unfold rc. by intros ->. Qed.

Lemma set_chunks_core d c : core (set_chunks c d) = (manifests d, c, inode_next_id d).
Proof. done. Qed.

Section put_refines.
Context {MP : MsgPack} (now : Z).

Lemma insertManifestTx_Ok p i v rev mf d u d' :
  insertManifestTx p i v rev mf d = Ok (u, d') ->
  manifests d !! p = None /\
  core d' = (<[p := mkMrow i (mf_Size mf) (mf_Mode mf) (mf_Mtime mf) v
                (packChunks (mf_Chunks mf)) (mf_Uid mf) (mf_Gid mf)
                (if mf_Atime mf =? 0 then mf_Mtime mf else mf_Atime mf) rev]> (manifests d),
             chunks d, inode_next_id d).
Proof.
  unfold insertManifestTx, bind_u64. intros H. tx_inv H.
  destruct (manifests _ !! p) eqn:E; tx_inv H. done.
Qed.

Lemma updateManifestTx_Ok old v rev mf d u d' :
  updateManifestTx old v rev mf d = Ok (u, d') ->
  d' = update_inode (default 0 (m_inode <$> old))
         (set_content mf v (packChunks (mf_Chunks mf)) (default (mf_Uid mf) (m_uid <$> old))
            (default (mf_Gid mf) (m_gid <$> old)) (default (mf_Atime mf) (m_atime <$> old)) rev) d.
Proof. unfold updateManifestTx, bind_u64. intros H. by tx_inv H. Qed.

(** What a successful [Put] does to the file system. *)
Definition put_spec (p : gostr) (v : Z) (mf : Manifest) (d : tdb) (a a' : afs) : Prop :=
  if decide (v = 0)
  then names a !! p = None /\ a' = spec_create p (inode_next_id d + 1) (new_inode mf) a
  else exists i x, names a !! p = Some i /\ inodes a !! i = Some x /\ i_version x = v /\
         a' = spec_write i (written mf (u64 (v + 1)) x) a.

(** The steps of [Put]: the old row, the reference counts, the new rows. *)
Lemma putTx_Ok p v mf sid al ag d o d' :
  putTx now p v mf sid al ag d = Ok (o, d') ->
  exists cs entry rev d3 d4 d5,
    match manifests d !! p with
    | None => cs = []
    | Some r => unpackChunks (m_chunks r) = Some cs
    end /\
    default 0 (m_version <$> manifests d !! p) = v /\
    core d3 = (manifests d, chunks d, if v =? 0 then inode_next_id d + 1 else inode_next_id d) /\
    applyChunkRefDelta (chunkRefDelta cs (mf_Chunks mf)) d3 = Ok (tt, d4) /\
    (if v =? 0 then insertManifestTx p (inode_next_id d + 1) (u64 (v + 1)) rev mf
     else updateManifestTx (manifests d !! p) (u64 (v + 1)) rev mf) d4 = Ok (tt, d5) /\
    core d' = core d5 /\ o = Commit (u64 (v + 1)) entry rev.
Proof.
  intros H. unfold putTx in H.
  apply tx_bind_Ok in H as (ino & d1 & Hi & H).
  destruct (splitParentName p) as [parent name].
  apply tx_bind_Ok in H as (? & d2 & H2 & H). core_of H2.
  apply tx_bind_Ok in H as (old & ? & [= <- <-] & H).
  apply tx_bind_Ok in H as (cs & dc & Hcs & H).
  apply tx_bind_Ok in H as (? & ? & [Hv ->]%require_Ok & H).
  apply tx_bind_Ok in H as (rev & d3 & H3 & H). core_of H3.
  apply tx_bind_Ok in H as (entry & d4 & H4 & H). core_of H4.
  apply tx_bind_Ok in H as ([] & d5 & H5 & H).
  apply tx_bind_Ok in H as ([] & d6 & H6 & H).
  apply tx_bind_Ok in H as (? & d7 & H7 & H). core_of H7.
  apply tx_ret_Ok in H as [<- <-].
  assert (core d1 = (manifests d, chunks d, if v =? 0 then inode_next_id d + 1 else inode_next_id d)
    /\ (v = 0 -> ino = inode_next_id d + 1)) as [Hc1 Hino].
  { destruct (Z.eqb_spec v 0); [by injection Hi as <- <- |].
    apply tx_ret_Ok in Hi as [<- <-]. done. }
  assert (manifests d2 = manifests d) as Hm by (unfold core in *; congruence).
  assert (dc = d2 /\ match manifests d2 !! p with
    | None => cs = [] | Some r => unpackChunks (m_chunks r) = Some cs end) as [-> Hcs'].
  { destruct (manifests d2 !! p) as [r|]; [destruct (unpackChunks (m_chunks r)) |].
    - by apply tx_ret_Ok in Hcs as [<- <-].
    - done.
    - by apply tx_ret_Ok in Hcs as [<- <-]. }
  rewrite Hm in *. exists cs, entry, rev, d4, d5, d6.
  split; [done |]. split; [by apply Z.eqb_eq |].
  split; [by rewrite H4, H3, H2 |]. split; [done |]. split; [| done].
  destruct (Z.eqb_spec v 0); [| done]. by rewrite <- Hino.
Qed.

Lemma putTx_refines p v mf sid al ag d a o d' :
  Inv d a -> Forall wf_ref (mf_Chunks mf) ->
  putTx now p v mf sid al ag d = Ok (o, d') ->
  (exists e rev, o = Commit (u64 (v + 1)) e rev) /\
  exists a', put_spec p v mf d a a' /\ Inv d' a'.
Proof.
  intros I Hwf (cs & e & rev & d3 & d4 & d5 & Hcs & Hv & H3 & H4 & H5 & H6 & ->)%putTx_Ok.
  split; [by exists e, rev |].
  apply applyChunkRefDelta_Ok in H4 as [Hd4 Hrc].
  assert (forall h, rc h d4 = rc h d + occ h (mf_Chunks mf) - occ h cs) as Hrc'.
  { intros h. rewrite Hrc, chunkRefDelta_lookup. apply core_eq in H3 as (_ & Hc & _).
    replace (rc h d3) with (rc h d) by (unfold rc; by rewrite Hc). lia. }
  clear Hrc.
  assert (core d4 = (manifests d, chunks d4,
    if v =? 0 then inode_next_id d + 1 else inode_next_id d)) as H4.
  { rewrite Hd4, set_chunks_core. unfold core in H3. congruence. }
  destruct (Z.eqb_spec v 0) as [Hv0|Hv0].
  - subst v.
    apply insertManifestTx_Ok in H5 as [Hp H5].
    assert (manifests d4 = manifests d) as Hm by (unfold core in H4; congruence).
    rewrite Hm in *. rewrite Hp in Hcs. subst cs.
    exists (spec_create p (inode_next_id d + 1) (new_inode mf) a).
    split.
    { unfold put_spec. rewrite decide_True by done.
      split; [by apply (inv_name_None d a I) | done]. }
    apply (Inv_core d5); [done |].
    apply core_eq in H5 as (H5m & H5c & H5n). apply core_eq in H4 as (_ & _ & H4n).
    eapply (Inv_create d d5 a I); [done | done | | | | exact H5m | congruence |].
    + done.
    + rewrite Hp. by rewrite row_inode_packed.
    + done.
    + intros h. simpl. rewrite (rc_chunks h d5 d4), Hrc' by done. simpl. lia.
  - apply updateManifestTx_Ok in H5.
    destruct (manifests d !! p) as [r|] eqn:Hp; [| simpl in Hv; congruence].
    simpl in Hv, H5. destruct (inv_unpack d a I p r Hp) as (x & Hx & Hix & Hu & Hvx & Hwx).
    assert (cs = i_chunks x) as -> by congruence.
    exists (spec_write (m_inode r) (written mf (u64 (v + 1)) x) a). split.
    { unfold put_spec. rewrite decide_False by done.
      exists (m_inode r), x. split; [by apply (inv_name d a I) |]. split; [done |].
      split; [congruence | done]. }
    apply (Inv_core d5); [done |]. apply core_eq in H4 as (H4m & _ & H4n).
    destruct (row_inode_fields _ _ Hx) as (_ & _ & _ & _ & _ & Huid & Hgid & Hat).
    subst d5. eapply (Inv_update d _ a I (m_inode r) x); [done | | | | done | done |].
    + simpl. by rewrite H4m.
    + done.
    + intros q s Hq Hi. unfold set_content. rewrite row_inode_packed by done.
      unfold written. by rewrite Huid, Hgid, Hat.
    + intros h. rewrite (rc_chunks h _ d4), Hrc' by done. simpl. lia.
Qed.
End put_refines.

(** ** When [Put] succeeds *)

Section put_total.
Context {MP : MsgPack} (now : Z).

Definition journal_args_ok (sid al : gostr) : Prop := sid = [] \/ al <> [].

Lemma journalPutTx_total p v nv old cs sid al ag d :
  journal_args_ok sid al ->
  exists e d', journalPutTx now p v nv old cs sid al ag d = Ok (e, d').
Proof.
  intros Hj. unfold journalPutTx. case_decide as Hs; [by do 2 eexists |].
  destruct (if v =? 0 then _ else _) as [op prior].
  destruct Hj as [?|Ha]; [done |]. do 2 eexists.
  erewrite tx_bind_eq by by apply journalBeforeWrite_ok. done.
Qed.

(** The parent directory of [p] is registered. *)
Definition parent_ok (p : gostr) (d : tdb) : bool :=
  let parent := (splitParentName p).1 in
  if decide (parent = [slash]) then true
  else has_entry (splitParentName parent).1 (splitParentName parent).2 d.

Lemma checkParentExists_eq p d :
  checkParentExists p d = if parent_ok p d then Ok (tt, d) else Err ErrParentNotFound.
Proof.
  unfold checkParentExists, parent_ok. case_decide; [done |].
  destruct (splitParentName (splitParentName p).1) as [gp pn].
  unfold mbind, tx_bind, query. simpl. by destruct (has_entry gp pn d).
Qed.

Lemma bind_u64_ok v d : v < 2 ^ 63 -> bind_u64 v d = Ok (tt, d).
Proof. intros Hv. unfold bind_u64. by replace (v <? 2 ^ 63) with true by lia. Qed.

(** The version of the file at [p]; 0 when there is none. *)
Definition version_at (p : gostr) (d : tdb) : Z :=
  default 0 (m_version <$> manifests d !! p).

Lemma parent_ok_next p n d : parent_ok p (set_inode_next_id n d) = parent_ok p d.
Proof. done. Qed.

(** With the right version, a parent, sizes that fit and a well-formed
    database, [Put] commits. *)
Lemma putTx_total p v mf sid al ag d a :
  Inv d a -> journal_args_ok sid al -> parent_ok p d = true ->
  version_at p d = v -> (v = 0 -> manifests d !! p = None) ->
  mf_Size mf < 2 ^ 63 -> 0 <= v < 2 ^ 63 - 1 ->
  exists o d', putTx now p v mf sid al ag d = Ok (o, d').
Proof.
  intros I Hj Hpar Hv Hnew Hsz Hvb. unfold putTx.
  set (d1 := if v =? 0 then set_inode_next_id (inode_next_id d + 1) d else d).
  erewrite (tx_bind_eq _ _ d (if v =? 0 then inode_next_id d + 1 else 0) d1)
    by (subst d1; by destruct (v =? 0)).
  destruct (splitParentName p) as [parent name].
  assert (manifests d1 = manifests d /\ chunks d1 = chunks d /\ parent_ok p d1 = true)
    as (Hm & Hc & Hp1) by (subst d1; by destruct (v =? 0)).
  erewrite tx_bind_eq by by rewrite checkParentExists_eq, Hp1.
  erewrite tx_bind_eq by done. rewrite Hm.
  assert (exists cs, (match manifests d !! p with
    | None => cs = []
    | Some r => unpackChunks (m_chunks r) = Some cs end) /\
    (forall h, 0 <= rc h d + default 0 (chunkRefDelta cs (mf_Chunks mf) !! h))) as (cs & Hcs & Hpos).
  { destruct (manifests d !! p) as [r|] eqn:Hp.
    - destruct (inv_unpack d a I p r Hp) as (x & _ & Hx & Hu & _). exists (i_chunks x).
      split; [done |]. by eapply (inv_delta_ok d a I).
    - exists []. split; [done |]. intros h. by apply (inv_delta_new_ok d a I). }
  erewrite (tx_bind_eq _ _ d1 cs d1)
    by (destruct (manifests d !! p); [by rewrite Hcs | by subst cs]).
  unfold version_at in Hv. rewrite Hv, Z.eqb_refl. erewrite tx_bind_eq by done.
  erewrite tx_bind_eq by done.
  destruct (journalPutTx_total p v (u64 (v + 1)) (manifests d !! p) cs sid al ag
    (set_last_rev (last_rev d1 + 1) d1) Hj) as (e & d3 & H3).
  rewrite (tx_bind_eq _ _ _ _ _ H3). core_of H3.
  assert (core d3 = core d1) as H3c by exact H3. apply core_eq in H3c as (H3m & H3c & H3n).
  destruct (applyChunkRefDelta_total (chunkRefDelta cs (mf_Chunks mf)) d3) as [d4 H4].
  { intros h. rewrite (rc_chunks h d3 d) by congruence. apply Hpos. }
  rewrite (tx_bind_eq _ _ _ _ _ H4). apply applyChunkRefDelta_Ok in H4 as [Hd4 _].
  assert (manifests d4 = manifests d) as H4m by (rewrite Hd4; simpl; congruence).
  assert (u64 (v + 1) < 2 ^ 63) as Hnv by (unfold u64; rewrite Z.mod_small; lia).
  assert (exists d5, (if v =? 0 then insertManifestTx p (if v =? 0 then inode_next_id d + 1 else 0)
      (u64 (v + 1)) (last_rev (set_last_rev (last_rev d1 + 1) d1)) mf
    else updateManifestTx (manifests d !! p) (u64 (v + 1))
      (last_rev (set_last_rev (last_rev d1 + 1) d1)) mf) d4 = Ok (tt, d5)) as [d5 H5].
  { destruct (Z.eqb_spec v 0) as [Hv0|Hv0].
    - unfold insertManifestTx. eexists. do 2 erewrite tx_bind_eq by by apply bind_u64_ok.
      erewrite tx_bind_eq by done. rewrite H4m, (Hnew Hv0). done.
    - destruct (manifests d !! p) as [r|] eqn:Hp; [| simpl in Hv; congruence].
      unfold updateManifestTx. eexists. do 2 erewrite tx_bind_eq by by apply bind_u64_ok.
      erewrite tx_bind_eq by done. simpl.
      pose proof (nlink_pos d p r Hp) as Hl.
      replace (nlink (m_inode r) d4) with (nlink (m_inode r) d)
        by (unfold nlink, links; by rewrite H4m).
      erewrite tx_bind_eq; [done |].
      replace (nlink (m_inode r) d =? 0) with false by lia. done. }
  rewrite (tx_bind_eq _ _ _ _ _ H5).
  case_decide; (erewrite tx_bind_eq by done); by do 2 eexists.
Qed.
End put_total.

(** ** [Link] *)

Lemma update_inode_same i f d :
  (forall r, m_inode (f r) = m_inode r) -> (forall r, row_inode (f r) = row_inode r) ->
  forall a, Inv d a -> Inv (update_inode i f d) a.
Proof.
  intros Hi Hx a I.
  eapply (Inv_same d _ a I (fun r => if decide (m_inode r = i) then f r else r)); try done.
  - intros r. case_decide; [apply Hi | done].
  - intros r. case_decide; [apply Hx | done].
Qed.

Lemma Inv_restamp d a i rev : Inv d a -> Inv (update_inode i (set_m_rev rev) d) a.
Proof. intros I. by apply update_inode_same. Qed.

Section link_refines.
Context {MP : MsgPack} (now : Z).

Lemma resolveKind_absent p d :
  resolveKind p d = nodeAbsent -> manifests d !! p = None /\ symlinks d !! p = None /\
    special_nodes d !! p = None.
Proof.
  unfold resolveKind, present. repeat case_bool_decide; try done.
  rewrite <- !eq_None_not_Some in *. done.
Qed.

Lemma linkTx_refines from to sid al ag d a o d' :
  Inv d a -> linkTx now from to sid al ag d = Ok (o, d') ->
  exists i e rev, names a !! from = Some i /\ names a !! to = None /\
    Inv d' (spec_link to i a) /\ o = Commit (nlink i d') e rev.
Proof.
  intros I H. unfold linkTx in H.
  apply tx_bind_Ok in H as (? & d1 & H1 & H). core_of H1.
  apply tx_bind_Ok in H as (k & ? & [= <- <-] & H).
  apply tx_bind_Ok in H as (? & ? & [Hk ->]%require_Ok & H).
  apply bool_decide_eq_true in Hk. apply resolveKind_absent in Hk as (Hto & _).
  apply tx_bind_Ok in H as (src & ? & [= <- <-] & H).
  apply (Inv_core d d1) in I; [| done].
  destruct (manifests d1 !! from) as [r|] eqn:Hf; [| done].
  apply tx_bind_Ok in H as (rev & d2 & H2 & H). core_of H2.
  apply tx_bind_Ok in H as (dup & ? & [= <- <-] & H).
  apply tx_bind_Ok in H as (? & ? & [_ ->]%require_Ok & H).
  apply tx_bind_Ok in H as (? & ? & [= _ <-] & H).
  apply tx_bind_Ok in H as (? & ? & [= _ <-] & H).
  apply (Inv_core d1 d2) in I; [| done].
  assert (manifests d2 = manifests d1) as Hm by (unfold core in H2; congruence).
  set (d3 := set_manifests _ d2) in H.
  assert (Inv d3 (spec_link to (m_inode r) a)) as I3.
  { eapply (Inv_link d2 _ a I to from (set_m_rev rev r) r); rewrite <- ?Hm in *; done. }
  apply (Inv_restamp _ _ (m_inode r) rev) in I3.
  apply tx_bind_Ok in H as (? & d4 & H4 & H). core_of H4.
  destruct (splitParentName to) as [parent name].
  apply tx_bind_Ok in H as (? & d5 & H5 & H). core_of H5.
  apply tx_bind_Ok in H as (e & d6 & H6 & H). core_of H6.
  apply tx_bind_Ok in H as (n & ? & [= <- <-] & H). apply tx_ret_Ok in H as [<- <-].
  exists (m_inode r), e, rev. split; [| split; [| split; [| done]]].
  - apply (inv_name d2 a I). by rewrite Hm.
  - apply (inv_name_None d2 a I). by rewrite Hm.
  - eapply Inv_core; [| exact I3]. by rewrite H6, H5, H4.
Qed.
End link_refines.

(** ** [Delete] *)

Lemma Inv_drop_counts (d d1 : tdb) cs u a i x :
  Inv d a -> inodes a !! i = Some x -> cs = i_chunks x ->
  applyChunkRefDelta (chunkRefDelta cs []) d = Ok (u, d1) ->
  core d1 = (manifests d, chunks d1, inode_next_id d) /\
  forall h, rc h d1 = rc h d - occ h (i_chunks x).
Proof.
  intros I Hi -> [Hd Hrc]%applyChunkRefDelta_Ok. split; [by rewrite Hd |].
  intros h. rewrite Hrc, chunkRefDelta_lookup. simpl. lia.
Qed.

Lemma keeps_unlinkEntry now p : keeps (unlinkEntryTx now p).
Proof. unfold unlinkEntryTx. keeps_tac. Qed.
#[export] Hint Resolve keeps_unlinkEntry : keeps.

Lemma keeps_deleteSymlink now p : keeps (deleteSymlinkTx now p).
Proof. unfold deleteSymlinkTx. keeps_tac. Qed.
Lemma keeps_deleteSpecialNode now p : keeps (deleteSpecialNodeTx now p).
Proof. unfold deleteSpecialNodeTx. keeps_tac. Qed.

Section delete_refines.
Context {MP : MsgPack} (now : Z).

Lemma deleteTx_refines p v sid al ag d a o d' :
  Inv d a -> deleteTx now p v sid al ag d = Ok (o, d') ->
  (exists e rev, o = Commit tt e rev) /\
  (exists i x, names a !! p = Some i /\ inodes a !! i = Some x /\ i_version x = v) /\
  Inv d' (spec_unlink p a).
Proof.
  intros I H. unfold deleteTx in H.
  apply tx_bind_Ok in H as (row & ? & [= <- <-] & H).
  destruct (manifests d !! p) as [r|] eqn:Hp; [| done].
  destruct (inv_unpack d a I p r Hp) as (x & Hx & Hix & Hu & Hv & _).
  apply tx_bind_Ok in H as (n & ? & [= <- <-] & H).
  apply tx_bind_Ok in H as (? & ? & [Hver%Z.eqb_eq ->]%require_Ok & H).
  rewrite Hu in H. apply tx_bind_Ok in H as (cs & ? & [<- <-]%tx_ret_Ok & H).
  apply tx_bind_Ok in H as (e & d1 & H1 & H). core_of H1.
  pose proof (Inv_core d d1 a (eq_sym H1) I) as I1.
  assert (manifests d1 = manifests d) as Hm by (unfold core in H1; congruence).
  assert (nlink (m_inode r) d1 = nlink (m_inode r) d) as Hnl by (unfold nlink, links; by rewrite Hm).
  apply tx_bind_Ok in H as (? & d2 & H2 & H).
  assert (core d2 = (manifests d1, chunks d2, inode_next_id d1) /\
    forall h, rc h d2 = rc h d1 -
      (if nlink (m_inode r) d1 =? 1 then occ h (i_chunks x) else 0)) as [Hc2 Hrc2].
  { rewrite Hnl. destruct (nlink (m_inode r) d =? 1).
    - by eapply (Inv_drop_counts d1 d2).
    - apply tx_ret_Ok in H2 as [_ <-]. split; [done |]. intros h. lia. }
  apply core_eq in Hc2 as (Hm2 & _ & Hn2).
  apply tx_bind_Ok in H as (? & ? & [= _ <-] & H).
  assert (Inv (set_manifests (delete p (manifests d2)) d2) (spec_unlink p a)) as I2.
  { eapply (Inv_unlink d1 _ a I1 p r x); simpl; rewrite ?Hm2, ?Hm; done. }
  apply tx_bind_Ok in H as (? & d3 & H3 & H). core_of H3.
  apply tx_bind_Ok in H as (rev & d4 & H4 & H). core_of H4.
  apply tx_bind_Ok in H as (? & d5 & H5 & H). core_of H5.
  apply tx_bind_Ok in H as (? & d6 & H6 & H). apply tx_ret_Ok in H as [<- <-].
  split; [by do 2 eexists |]. split.
  { exists (m_inode r), x. split; [by apply (inv_name d a I) |]. split; [done | congruence]. }
  assert (Inv d5 (spec_unlink p a)) as I5
    by (eapply Inv_core; [| exact I2]; by rewrite H5, H4, H3).
  destruct (nlink (m_inode r) d >? 1).
  - injection H6 as _ <-. by apply Inv_restamp.
  - apply tx_ret_Ok in H6 as [_ <-]. done.
Qed.
End delete_refines.

(** ** [Rename] *)

(** [update t set path = to where path = from]. *)
Lemma move_row_Some {A} from to (f : A -> A) m m' x :
  move_row from to f m = Some m' -> m !! from = Some x -> from <> to ->
  m' = <[to := f x]> (delete from m).
Proof.
  intros Hr Hx Hne. apply map_eq. intros k. apply option_eq. intros y.
  rewrite (rekey_lookup _ _ _ _ _ _ _ Hr). rewrite lookup_insert_Some, lookup_delete_Some. split.
  - intros [(k0 & z & Hz & E%bool_decide_eq_true & -> & ->)|[Hk E%bool_decide_eq_false]].
    + left. split; [done |]. congruence.
    + right. split; [| done]. intros <-.
      assert (m' !! to = Some (f x)) as H1
        by (apply (rekey_lookup _ _ _ _ _ _ _ Hr); left; exists from, x; by rewrite bool_decide_eq_true).
      assert (m' !! to = Some y) as H2
        by (apply (rekey_lookup _ _ _ _ _ _ _ Hr); right; by rewrite bool_decide_eq_false).
      unfold move_row, rekey in Hr. case_decide as HD; [| done]. destruct HD as [_ Hf].
      rewrite Forall_fmap, Forall_forall in Hf.
      assert ((to, f x) ∈ rekey_rows (fun q => bool_decide (q = from)) (fun _ => to) f m) as Hin
        by (apply elem_of_rekey_rows; exists from, x; by rewrite bool_decide_eq_true).
      specialize (Hf _ Hin). simpl in Hf. rewrite map_lookup_filter_None in Hf.
      destruct Hf as [Hf|Hf]; [congruence |]. specialize (Hf y Hk). simpl in Hf.
      by rewrite bool_decide_eq_false in Hf.
  - intros [[<- <-]|[? [? Hk]]].
    + left. exists from, x. by rewrite bool_decide_eq_true.
    + right. by rewrite bool_decide_eq_false.
Qed.

Lemma rekeyTx_Ok {A} (r : tdb -> option A) put d u d' :
  rekeyTx r put d = Ok (u, d') -> exists m, r d = Some m /\ d' = put m d.
Proof.
  unfold rekeyTx. intros (m & ? & [= <- <-] & H)%tx_bind_Ok.
  destruct (r d) as [m|]; [| done]. exists m. by injection H as _ <-.
Qed.

(** The destination after [deleteDestTx]. *)
Definition without_dest (to : gostr) (k : nodeKind) (a : afs) : afs :=
  if decide (k = nodeRegular) then spec_unlink to a else a.

Lemma deleteDestTx_refines to k rev d a u d' :
  Inv d a -> deleteDestTx to k rev d = Ok (u, d') -> Inv d' (without_dest to k a).
Proof.
  intros I H. unfold deleteDestTx in H. apply tx_bind_Ok in H as (u1 & d1 & H1 & H). core_of H.
  eapply Inv_core; [exact (eq_sym H) |]. unfold without_dest.
  case_decide as Hk; subst; [| eapply Inv_core; [| exact I]; destruct k; try done;
    by injection H1 as _ <-].
  apply tx_bind_Ok in H1 as (row & ? & [= <- <-] & H1).
  destruct (manifests d !! to) as [r|] eqn:Hp; [| done].
  destruct (inv_unpack d a I to r Hp) as (x & Hx & Hix & Hu & _ & _).
  apply tx_bind_Ok in H1 as (n & ? & [= <- <-] & H1).
  apply tx_bind_Ok in H1 as (? & d2 & H2 & H1).
  assert (core d2 = (manifests d, chunks d2, inode_next_id d) /\
    forall h, rc h d2 = rc h d -
      (if nlink (m_inode r) d =? 1 then occ h (i_chunks x) else 0)) as [Hc2 Hrc2].
  { destruct (nlink (m_inode r) d =? 1).
    - rewrite Hu in H2. by eapply (Inv_drop_counts d d2).
    - apply tx_ret_Ok in H2 as [_ <-]. split; [done |]. intros h. lia. }
  apply core_eq in Hc2 as (Hm2 & _ & Hn2).
  apply tx_bind_Ok in H1 as (? & ? & [= _ <-] & H1).
  assert (Inv (set_manifests (delete to (manifests d2)) d2) (spec_unlink to a)) as I2.
  { eapply (Inv_unlink d _ a I to r x); simpl; rewrite ?Hm2; done. }
  destruct (nlink (m_inode r) d >? 1).
  - injection H1 as _ <-. by apply Inv_restamp.
  - apply tx_ret_Ok in H1 as [_ <-]. done.
Qed.

(** Moving a file's row, then stamping the version on every link. *)
Lemma moveFile_refines now from to nv rev d a r u d' :
  Inv d a -> manifests d !! from = Some r -> from <> to ->
  moveRenameSourceTx now from to nodeRegular nv (m_inode r) rev d = Ok (u, d') ->
  exists x, inodes a !! m_inode r = Some x /\
    Inv d' (spec_write (m_inode r) (with_version nv x) (spec_move from to a)).
Proof.
  intros I Hf Hne H. simpl in H.
  apply tx_bind_Ok in H as (u1 & d1 & (m & Hm & ->)%rekeyTx_Ok & H).
  apply tx_bind_Ok in H as (u2 & ? & [_ ->]%require_Ok & H). injection H as _ <-.
  destruct (inv_unpack d a I from r Hf) as (x & Hx & Hix & _ & _ & Hwf).
  exists x. split; [done |].
  pose proof (move_row_Some _ _ _ _ _ _ Hm Hf Hne) as Hm'.
  assert (Inv (set_manifests m d) (spec_move from to a)) as I1.
  { replace (spec_move from to a) with (mkAfs (m_inode <$> m) (inodes a)).
    - by eapply (Inv_rekey d _ a I).
    - unfold spec_move. rewrite (inv_name d a I from r Hf). f_equal.
      by rewrite Hm', fmap_insert, fmap_delete, (inv_names _ _ I). }
  eapply (Inv_update _ _ _ I1 (m_inode r) x); try done.
  - unfold spec_move. by rewrite (inv_name d a I from r Hf).
  - intros q s Hq Hi. destruct (inv_rows _ _ I1 q s Hq) as (y & Hy & Hiy).
    assert (y = x) as ->.
    { unfold spec_move in Hiy. rewrite (inv_name d a I from r Hf) in Hiy. simpl in Hiy. congruence. }
    unfold row_inode in *. simpl in *. destruct (unpackChunks (m_chunks s)); [| done].
    simpl in *. by simplify_eq.
  - intros h. unfold rc. simpl. lia.
Qed.

(** The names of the files below a directory move with it: the rows matched by
    the [LIKE] pattern get a new key. *)
Definition reparented (from to : gostr) (a a' : afs) : Prop :=
  inodes a' = inodes a /\
  forall q i, names a' !! q = Some i <->
    (exists q0, names a !! q0 = Some i /\ reparent_match from q0 = true /\ q = reparent_key from to q0) \/
    (names a !! q = Some i /\ reparent_match from q = false).

Lemma moveDir_refines now from to nv i rev d a u d' :
  Inv d a -> moveRenameSourceTx now from to nodeDir nv i rev d = Ok (u, d') ->
  exists a', reparented from to a a' /\ Inv d' a'.
Proof.
  intros I H. simpl in H. unfold reparentDescendantsTx in H.
  apply tx_bind_Ok in H as (? & d1 & H1 & H). core_of H1.
  apply (Inv_core d d1) in I; [| done].
  apply tx_bind_Ok in H as (? & d2 & (m & Hm & ->)%rekeyTx_Ok & H).
  exists (mkAfs (m_inode <$> m) (inodes a)). split.
  - split; [done |]. intros q j. cbn [names]. rewrite lookup_fmap, fmap_Some. split.
    + intros (r & Hr & ->). apply (rekey_lookup _ _ _ _ _ _ _ Hm) in Hr
        as [(q0 & r0 & Hr0 & Hc & -> & ->)|[Hr Hc]].
      * left. exists q0. by rewrite (inv_name d1 a I q0 r0).
      * right. by rewrite (inv_name d1 a I q r).
    + intros [(q0 & Hq & Hc & ->)|[Hq Hc]];
        apply (inv_name_row d1 a I) in Hq as (r & Hr & <-).
      * exists (set_m_rev rev r). split; [| done].
        apply (rekey_lookup _ _ _ _ _ _ _ Hm). left. eauto 10.
      * exists r. split; [| done]. apply (rekey_lookup _ _ _ _ _ _ _ Hm). by right.
  - assert (Inv (set_manifests m d1) (mkAfs (m_inode <$> m) (inodes a))) as I2
      by by eapply (Inv_rekey d1 _ a I).
    do 4 (apply tx_bind_Ok in H as (? & ? & (? & _ & ->)%rekeyTx_Ok & H)).
    core_of H. eapply Inv_core; [| exact I2]. by rewrite H.
Qed.

Lemma resolveKind_regular p d : resolveKind p d = nodeRegular <-> is_Some (manifests d !! p).
Proof.
  unfold resolveKind, present. case_bool_decide as Hp; [done |].
  split; [| done]. repeat case_match; done.
Qed.

(** What the checks on the destination establish. *)
Lemma resolveRenameDestTx_Ok to sk nr v d k dv d' :
  resolveRenameDestTx to sk nr v d = Ok ((k, dv), d') ->
  d' = d /\ k = resolveKind to d /\ dv = version_at to d /\
  (k <> nodeAbsent -> nr = false) /\
  (sk = nodeDir -> k = nodeAbsent \/ (k = nodeDir /\ dirIsEmpty to d = true)) /\
  (sk <> nodeDir -> k <> nodeDir) /\
  (k = nodeRegular -> v = 0 \/ version_at to d = v).
Proof.
  unfold resolveRenameDestTx, resolveKindTx. intros (k' & ? & [= <- <-] & H)%tx_bind_Ok.
  case_decide as Hk.
  - apply tx_ret_Ok in H as [[= <- <-] <-]. rewrite Hk.
    assert (manifests d !! to = None) as Hn by by apply resolveKind_absent in Hk as [? _].
    unfold version_at. rewrite Hn. repeat split; auto; congruence.
  - apply tx_bind_Ok in H as (? & ? & [Hnr ->]%require_Ok & H).
    apply tx_bind_Ok in H as (? & ? & [H1 ->]%require_Ok & H).
    apply tx_bind_Ok in H as (? & ? & [H2 ->]%require_Ok & H).
    apply tx_bind_Ok in H as (emp & ? & [= <- <-] & H).
    apply tx_bind_Ok in H as (? & ? & [H3 ->]%require_Ok & H).
    assert (nr = false) by by destruct nr.
    assert ((sk = nodeDir -> resolveKind to d = nodeDir /\ dirIsEmpty to d = true) /\
      (sk <> nodeDir -> resolveKind to d <> nodeDir)) as [Ha Hb].
    { clear H. split; intros Hs; [rewrite (bool_decide_true _ Hs) in *
        | rewrite (bool_decide_false _ Hs) in *];
      destruct (bool_decide_reflect (resolveKind to d = nodeDir)); simpl in *; try done.
      split; [done |]. by destruct (dirIsEmpty to d). }
    case_decide as Hr.
    + apply tx_bind_Ok in H as (row & ? & [= <- <-] & H).
      destruct (manifests d !! to) as [r|] eqn:Hto; [| done].
      apply tx_bind_Ok in H as (? & ? & [H4 ->]%require_Ok & H).
      apply tx_ret_Ok in H as [[= <- <-] <-]. unfold version_at. rewrite Hto. simpl.
      repeat split; auto; intros _. destruct (Z.eqb_spec v 0); [by left | right].
      destruct (Z.eqb_spec (m_version r) v); [done |]. done.
    + apply tx_ret_Ok in H as [[= <- <-] <-].
      assert (manifests d !! to = None) as Hn.
      { apply eq_None_not_Some. by rewrite <- resolveKind_regular. }
      unfold version_at. rewrite Hn. repeat split; auto; congruence.
Qed.

Section rename_refines.
Context {MP : MsgPack} (now : Z).

(** The file system after a rename, by the kind of the source. *)
Definition rename_spec (from to : gostr) (vf nv : Z) (d : tdb) (a a' : afs) : Prop :=
  let a1 := without_dest to (resolveKind to d) a in
  match resolveKind from d with
  | nodeRegular =>
      exists i x, names a !! from = Some i /\ inodes a !! i = Some x /\ i_version x = vf /\
        names a !! to <> Some i /\ nv = u64 (version_at to d + 1) /\
        a' = spec_write i (with_version nv x) (spec_move from to a1)
  | nodeDir => resolveKind to d <> nodeRegular /\ reparented from to a a'
  | nodeSymlink | nodeSpecial => a' = a1
  | nodeAbsent => False
  end.

Lemma keeps_moveOther from to k nv i rev :
  k = nodeSymlink \/ k = nodeSpecial ->
  keeps (moveRenameSourceTx now from to k nv i rev).
Proof. intros [-> | ->]; by apply keeps_rekeyTx. Qed.

Lemma keeps_resolveRenameDest to sk nr v : keeps (resolveRenameDestTx to sk nr v).
Proof. unfold resolveRenameDestTx, resolveKindTx. keeps_tac. Qed.

Lemma journalRenameTx_version from to k dv src sid al ag d nv e d' :
  journalRenameTx now from to k dv src sid al ag d = Ok ((nv, e), d') ->
  nv = match src with None => 1 | Some _ => u64 (dv + 1) end.
Proof.
  unfold journalRenameTx. destruct src as [r|]; [| by intros [[= <- _] _]%tx_ret_Ok].
  case_decide; [by intros [[= <- _] _]%tx_ret_Ok |].
  destruct (unpackChunks _); [| done].
  intros (? & ? & _ & Hj)%tx_bind_Ok. by apply tx_ret_Ok in Hj as [[= <- _] _].
Qed.

(** Removing the destination leaves another name's inode alone. *)
Lemma without_dest_name from to k d a i x :
  Inv d a -> from <> to -> names a !! from = Some i -> inodes a !! i = Some x ->
  (k = nodeRegular -> names a !! to <> Some i) ->
  names (without_dest to k a) !! from = Some i /\ inodes (without_dest to k a) !! i = Some x.
Proof.
  intros I Hne Hn Hi Hto. unfold without_dest. case_decide as Hk; [| done].
  unfold spec_unlink. destruct (names a !! to) as [j|] eqn:Hj; [| done]. simpl.
  rewrite lookup_delete_ne by done. split; [done |].
  destruct (has_alias to j a); [done |]. rewrite lookup_delete_ne; [done |].
  intros ->. by apply Hto.
Qed.

Lemma renameTx_refines from to vf vt nr sid al ag d a nv e rev d' :
  Inv d a -> renameTx now from to vf vt nr sid al ag d = Ok (Commit nv e rev, d') ->
  exists a', rename_spec from to vf nv d a a' /\ Inv d' a'.
Proof.
  intros I H. unfold renameTx in H.
  apply tx_bind_Ok in H as (sk & ? & [= <- <-] & H).
  apply tx_bind_Ok in H as (u1 & ? & [Hsk ->]%require_Ok & H).
  apply bool_decide_eq_true in Hsk.
  case_decide as Hne; [apply tx_bind_Ok in H as (u2 & ? & _ & H); by apply tx_ret_Ok in H as [? _] |].
  apply tx_bind_Ok in H as ([dk dv] & d1 & H1 & H).
  apply resolveRenameDestTx_Ok in H1 as (-> & -> & -> & _ & Hdir & _ & _).
  apply tx_bind_Ok in H as (u3 & d1 & H1 & H).
  rewrite checkParentExists_eq in H1. destruct (parent_ok to d); [| done]. injection H1 as _ <-.
  apply tx_bind_Ok in H as (src & d1 & H1 & H).
  assert (d1 = d /\ if decide (resolveKind from d = nodeRegular)
    then exists r, src = Some r /\ manifests d !! from = Some r /\ m_version r = vf
    else src = None) as [-> Hsrc].
  { destruct (decide (resolveKind from d = nodeRegular)); [| by apply tx_ret_Ok in H1 as [<- <-]].
    apply tx_bind_Ok in H1 as (r & d2 & H2 & H1). apply tx_ret_Ok in H1 as [<- <-].
    unfold readRenameSourceTx in H2. apply tx_bind_Ok in H2 as (? & ? & [= <- <-] & H2).
    destruct (manifests d !! from) as [r'|]; [| done].
    apply tx_bind_Ok in H2 as (? & ? & [Hv%Z.eqb_eq ->]%require_Ok & H2).
    apply tx_ret_Ok in H2 as [<- <-]. eauto. }
  clear H1. apply tx_bind_Ok in H as (di & ? & [= <- <-] & H).
  destruct (same_inode src _) eqn:Hsame; [by apply tx_ret_Ok in H as [? _] |].
  apply tx_bind_Ok in H as (rev' & d1 & H1 & H). core_of H1.
  apply (Inv_core d d1) in I as I1; [| done].
  apply tx_bind_Ok in H as (u4 & d2 & H2 & H).
  assert (Inv d2 (without_dest to (resolveKind to d) a)) as I2.
  { destruct (decide (resolveKind to d = nodeAbsent)) as [Ha|Ha];
      [| by eapply deleteDestTx_refines].
    apply tx_ret_Ok in H2 as [_ <-]. by rewrite Ha. }
  apply tx_bind_Ok in H as ([nv' e'] & d3 & H3 & H).
  apply journalRenameTx_version in H3 as Hnv. core_of H3.
  apply (Inv_core d2 d3) in I2; [| done].
  apply tx_bind_Ok in H as (u5 & d4 & H4 & H).
  apply tx_bind_Ok in H as (u6 & d5 & H5 & H). core_of H5.
  apply tx_bind_Ok in H as (u7 & d6 & H6 & H). core_of H6.
  apply tx_bind_Ok in H as (u8 & d7 & H7 & H). core_of H7.
  apply tx_ret_Ok in H as [[= <- <- <-] <-].
  enough (exists a', rename_spec from to vf nv' d a a' /\ Inv d4 a') as (a' & Hs & I4).
  { exists a'. split; [done |]. eapply Inv_core; [| exact I4]. by rewrite H7, H6, H5. }
  unfold rename_spec. destruct (resolveKind from d) eqn:Hk; [done | | | |].
  - rewrite decide_True in Hsrc by done. destruct Hsrc as (r & -> & Hf & Hv).
    destruct (inv_unpack d a I from r Hf) as (x & Hx & Hix & _ & Hvx & _).
    assert (resolveKind to d = nodeRegular -> names a !! to <> Some (m_inode r)) as Hti.
    { intros Hr Hto. rewrite decide_True in Hsame by done.
      apply (inv_name_row d a I) in Hto as (s & Hs & Hi).
      rewrite Hs in Hsame. simpl in Hsame. lia. }
    destruct (without_dest_name from to _ d a _ x I Hne (inv_name d a I from r Hf) Hix Hti)
      as [Hn1 Hi1].
    destruct (inv_name_row _ _ I2 from _ Hn1) as (r' & Hr' & Hi').
    simpl in H4. rewrite <- Hi' in H4.
    destruct (moveFile_refines now _ _ _ _ _ _ _ _ _ I2 Hr' Hne H4) as (y & Hy & I4).
    rewrite Hi' in Hy, I4. assert (y = x) as -> by congruence.
    eexists. split; [| exact I4]. exists (m_inode r), x. repeat split; try done.
    + by apply (inv_name d a I).
    + congruence.
    + intros Hto. apply (Hti (proj2 (resolveKind_regular to d)
        ltac:(apply (inv_name_row d a I) in Hto as (s & Hs & _); eauto)) Hto).
  - eexists. split; [done |]. apply keeps_moveOther in H4; [| by left].
    by eapply Inv_core; [symmetry; exact H4 |].
  - eexists. split; [done |]. apply keeps_moveOther in H4; [| by right].
    by eapply Inv_core; [symmetry; exact H4 |].
  - assert (resolveKind to d <> nodeRegular) as Hnr
      by (destruct (Hdir eq_refl) as [->|[-> _]]; done).
    assert (without_dest to (resolveKind to d) a = a) as Hwd
      by (unfold without_dest; by rewrite decide_False).
    rewrite Hwd in I2.
    destruct (moveDir_refines now _ _ _ _ _ _ _ _ _ I2 H4) as (a' & Hr & I4).
    by exists a'.
Qed.
End rename_refines.

(** ** Metadata updates and the other nodes *)

Lemma setMetaTx_refines fm fs fn fd (g : inode -> inode) p d a o d' :
  (forall rev r, m_inode (fm rev r) = m_inode r) ->
  (forall rev r x, row_inode r = Some x -> row_inode (fm rev r) = Some (g x)) ->
  (forall x, i_chunks (g x) = i_chunks x) ->
  Inv d a -> setMetaTx fm fs fn fd p d = Ok (o, d') ->
  Inv d' (match names a !! p with
          | Some i => match inodes a !! i with
                      | Some x => spec_write i (g x) a
                      | None => a
                      end
          | None => a
          end).
Proof.
  intros Hi Hx Hc I H. unfold setMetaTx in H.
  apply tx_bind_Ok in H as (rev & d1 & H1 & H). core_of H1.
  apply tx_bind_Ok in H as (? & ? & [= <- <-] & H).
  apply (Inv_core d d1) in I; [| done]. simpl in H.
  destruct (manifests d1 !! p) as [r|] eqn:Hp.
  - destruct (inv_unpack d1 a I p r Hp) as (x & Hrx & Hix & _ & _ & Hwf).
    rewrite (inv_name d1 a I p r Hp), Hix.
    apply tx_bind_Ok in H as (? & ? & [= _ <-] & H). apply tx_ret_Ok in H as [_ <-].
    eapply (Inv_update d1 _ a I (m_inode r) x); try done.
    + intros q s Hq Hs. apply Hx. rewrite <- Hrx. by eapply (inv_coherent d1 a I).
    + by rewrite Hc.
    + intros h. rewrite Hc. unfold rc. simpl. lia.
  - rewrite (proj2 (inv_name_None d1 a I p) Hp).
    assert (core d' = core d1) as Hcore; [| by eapply Inv_core].
    destruct (symlinks d1 !! p); [by core_of H |].
    destruct (special_nodes d1 !! p); [by core_of H |].
    destruct (splitParentName p) as [parent name].
    case_decide; [by apply tx_ret_Ok in H as [_ <-] |].
    destruct (dir_entries d1 !! (parent, name)); [by core_of H | done].
Qed.

Lemma row_inode_owner uid gid rev r x :
  row_inode r = Some x -> row_inode (m_set_owner uid gid rev r) = Some (with_owner uid gid x).
Proof.
  unfold row_inode. simpl. destruct (unpackChunks (m_chunks r)); [| done]. simpl.
  by intros [= <-].
Qed.

Lemma row_inode_atime at_ rev r x :
  row_inode r = Some x -> row_inode (m_set_atime at_ rev r) = Some (with_atime at_ x).
Proof.
  unfold row_inode. simpl. destruct (unpackChunks (m_chunks r)); [| done]. simpl.
  by intros [= <-].
Qed.

Lemma keeps_DirCreate p mode : keeps (DirCreateTx p mode).
Proof. unfold DirCreateTx. keeps_tac. Qed.
Lemma keeps_Symlink p t mode : keeps (SymlinkTx p t mode).
Proof. unfold SymlinkTx. keeps_tac. Qed.
Lemma keeps_Mknod p mode rdev : keeps (MknodTx p mode rdev).
Proof. unfold MknodTx, bind_u64. keeps_tac. Qed.
Lemma keeps_DirRemove now p : keeps (DirRemoveTx now p).
Proof. unfold DirRemoveTx. keeps_tac. Qed.
Lemma keeps_setMode p mode : keeps (setModeTx p mode).
Proof. unfold setModeTx. keeps_tac. Qed.

Lemma NoteChunkStored_refines h sz at_ d a u d' :
  Inv d a -> NoteChunkStored h sz at_ d = Ok (u, d') -> Inv d' a.
Proof.
  intros I [= _ <-]. eapply (Inv_same d _ a I (fun r => r)); try done.
  - destruct (chunks d !! h); simpl; by rewrite map_fmap_id.
  - by destruct (chunks d !! h).
  - intros k. apply rc_initChunk.
Qed.

(** ** Operations *)

Lemma run_tx_Ok {A} (t : tx (outcome A)) s x s' :
  run_tx t s = (Ok x, s') ->
  (exists e rev d, t (st_db s) = Ok (Commit x e rev, d) /\
     s' = notifyChange rev (Broadcast e (set_db d s))) \/
  (exists d, t (st_db s) = Ok (Rollback x, d) /\ s' = s).
Proof.
  unfold run_tx. destruct (t (st_db s)) as [[[y e rev|y] d]|e]; intros [= <- <-].
  - left. eauto 10.
  - right. eauto.
Qed.

Lemma run_tx_Err {A} (t : tx (outcome A)) s e s' :
  run_tx t s = (Err e, s') -> s' = s /\ t (st_db s) = Err e.
Proof.
  unfold run_tx. destruct (t (st_db s)) as [[[y e' rev|y] d]|e']; by intros [= <- <-].
Qed.

(** Whatever a transaction returns, the database afterwards implements a file
    system if the transaction's commits do. *)
Lemma run_tx_Inv {A} (t : tx (outcome A)) s a :
  Inv (st_db s) a ->
  (forall x e rev d, t (st_db s) = Ok (Commit x e rev, d) -> exists a', Inv d a') ->
  exists a', Inv (st_db (run_tx t s).2) a'.
Proof.
  intros I Ht. unfold run_tx. destruct (t (st_db s)) as [[[y e rev|y] d]|e] eqn:E; simpl.
  - by eapply Ht.
  - by exists a.
  - by exists a.
Qed.

Lemma run_keeps_Inv {A} (t : tx (outcome A)) s a :
  keeps t -> Inv (st_db s) a -> exists a', Inv (st_db (run_tx t s).2) a'.
Proof.
  intros Hk I. eapply run_tx_Inv; [exact I |]. intros x e rev d Ht. exists a.
  eapply Inv_core; [| exact I]. symmetry. by eapply Hk.
Qed.

Section ops_Inv.
Context {MP : MsgPack} (now : Z).

Lemma Put_Inv p v mf sid al ag s a :
  Inv (st_db s) a -> Forall wf_ref (mf_Chunks mf) ->
  exists a', Inv (st_db (Put now p v mf sid al ag s).2) a'.
Proof.
  intros I Hwf. unfold Put, fail. repeat (case_decide; [by exists a |]).
  destruct (negb _); [by exists a |]. eapply run_tx_Inv; [exact I |].
  intros x e rev d Ht. eapply putTx_refines in Ht as [_ (a' & _ & I')]; eauto.
Qed.

Lemma Link_Inv from to sid al ag s a :
  Inv (st_db s) a -> exists a', Inv (st_db (Link now from to sid al ag s).2) a'.
Proof.
  intros I. unfold Link, fail. case_decide; [by exists a |].
  eapply run_tx_Inv; [exact I |]. intros x e rev d Ht.
  eapply linkTx_refines in Ht as (i & ? & ? & _ & _ & I' & _); eauto.
Qed.

Lemma Delete_Inv p v sid al ag s a :
  Inv (st_db s) a -> exists a', Inv (st_db (Delete now p v sid al ag s).2) a'.
Proof.
  intros I. unfold Delete, fail. case_decide; [by exists a |].
  pose proof (run_keeps_Inv _ s a (keeps_deleteSpecialNode now p) I) as (a1 & I1).
  unfold deleteSpecialNode in *. destruct (run_tx _ s) as [[u|e] s1]; [by exists a1 |].
  simpl in I1. destruct e; try by exists a1.
  pose proof (run_keeps_Inv _ s1 a1 (keeps_deleteSymlink now p) I1) as (a2 & I2).
  unfold deleteSymlink in *. destruct (run_tx _ s1) as [[u|e] s2]; [by exists a2 |].
  simpl in I2. destruct e; try by exists a2.
  eapply run_tx_Inv; [exact I2 |]. intros x e rev d Ht.
  eapply deleteTx_refines in Ht as (_ & _ & I'); eauto.
Qed.

Lemma renameOpt_Inv from to vf vt nr sid al ag s a :
  Inv (st_db s) a -> exists a', Inv (st_db (renameOpt now from to vf vt nr sid al ag s).2) a'.
Proof.
  intros I. unfold renameOpt, fail. case_decide; [by exists a |].
  eapply run_tx_Inv; [exact I |]. intros x e rev d Ht.
  eapply renameTx_refines in Ht as (a' & _ & I'); eauto.
Qed.

Lemma SetOwner_Inv p uid gid s a :
  Inv (st_db s) a -> exists a', Inv (st_db (SetOwner p uid gid s).2) a'.
Proof.
  intros I. eapply run_tx_Inv; [exact I |]. intros x e rev d Ht.
  eapply (setMetaTx_refines _ _ _ _ (with_owner uid gid)) in Ht; eauto.
  intros rev' r y. apply row_inode_owner.
Qed.

Lemma SetAtime_Inv p at_ s a :
  Inv (st_db s) a -> exists a', Inv (st_db (SetAtime p at_ s).2) a'.
Proof.
  intros I. eapply run_tx_Inv; [exact I |]. intros x e rev d Ht.
  eapply (setMetaTx_refines _ _ _ _ (with_atime at_)) in Ht; eauto.
  intros rev' r y. apply row_inode_atime.
Qed.

Lemma withLeaseCheck_Inv {A} sid lx (o : op A) s a :
  Inv (st_db s) a -> (exists a', Inv (st_db (o s).2) a') ->
  exists a', Inv (st_db (withLeaseCheck sid lx o s).2) a'.
Proof. intros I Ho. unfold withLeaseCheck, fail. case_match; [by exists a | done]. Qed.

Lemma Get_Ok p d mf a :
  Inv d a -> Get p d = Ok mf ->
  exists i x, names a !! p = Some i /\ inodes a !! i = Some x /\ Forall wf_ref (mf_Chunks mf) /\
    mf = mkManifest p i (nlink i d) (i_size x) (i_mode x) (i_mtime x) (i_version x)
           (i_chunks x) (i_uid x) (i_gid x) (i_atime x).
Proof.
  intros I. unfold Get. destruct (manifests d !! p) as [r|] eqn:Hp; [| done].
  destruct (inv_unpack d a I p r Hp) as (x & Hx & Hix & Hu & Hv & Hwf). rewrite Hu.
  intros [= <-]. exists (m_inode r), x. split; [by apply (inv_name d a I) |].
  destruct (row_inode_fields _ _ Hx) as (_ & -> & -> & -> & -> & -> & -> & ->). done.
Qed.

Lemma SetMode_Inv p mode sid al ag lx s a :
  Inv (st_db s) a -> exists a', Inv (st_db (SetMode now p mode sid al ag lx s).2) a'.
Proof.
  intros I. unfold SetMode. destruct (Get p (st_db s)) as [mf|e] eqn:Hg.
  - destruct (Get_Ok p _ mf a I Hg) as (i & x & _ & _ & Hwf & _).
    assert (exists a', Inv (st_db (PutWithLeaseCheck now p (mf_Version mf)
      (set_mf_mode (Z.land mode 4095) mf) sid al ag lx s).2) a') as Hput.
    { apply (withLeaseCheck_Inv _ _ _ _ a I). by apply (Put_Inv _ _ _ _ _ _ _ a). }
    by destruct (PutWithLeaseCheck _ _ _ _ _ _ _ _ s) as [[v|e] s'].
  - destruct e; try by exists a. by apply (run_keeps_Inv _ _ a (keeps_setMode p _)).
Qed.
End ops_Inv.
