(* ===== verification/Changes.v ===== *)
(** * The metadata change feed

    changes.go and dataplane_changes.go: the feed query over the live rows and
    the tombstones, its compound [(rev, path)] cursor, tombstone pruning with
    the resync watermark, the CHANGES_FETCH handler, and the conflating
    doorbell [changeNotifier]. *)

From S2P Require Import Prelude GoPath Codec TenantDB Journal Manifests.

(** ** The feed *)

(** A row of the [union all] before it is scanned. *)
Record feedRow := mkFeedRow {
  f_path : gostr; f_kind : string; f_rev : Z; f_size : Z; f_mode : Z; f_mtime : Z;
  f_uid : Z; f_gid : Z; f_atime : Z; f_inode : Z; f_nlink : Z; f_version : Z;
  f_target : gostr; f_rdev : Z; f_chunks : blob }.

Record ChangeEntry := mkChange {
  ce_Path : gostr; ce_Kind : string; ce_Rev : Z; ce_Size : Z; ce_Mode : Z; ce_Mtime : Z;
  ce_Uid : Z; ce_Gid : Z; ce_Atime : Z; ce_InodeID : Z; ce_Nlink : Z; ce_Version : Z;
  ce_Target : gostr; ce_Rdev : Z; ce_Chunks : list ChunkRef; ce_HasChunks : bool }.

Definition file_row (d : tdb) (p : gostr) (r : mrow) : feedRow :=
  mkFeedRow p "file" (m_rev r) (m_size r) (m_mode r) (m_mtime r) (m_uid r) (m_gid r)
    (m_atime r) (m_inode r) (nlink (m_inode r) d) (m_version r) [] 0 (m_chunks r).

Definition symlink_row (p : gostr) (r : slrow) : feedRow :=
  mkFeedRow p "symlink" (sl_rev r) (Z.of_nat (length (chars (sl_target r)))) (sl_mode r)
    (sl_mtime r) (sl_uid r) (sl_gid r) (sl_atime r) 0 1 0 (sl_target r) 0 [].

Definition special_row (p : gostr) (r : snrow) : feedRow :=
  mkFeedRow p "special" (sn_rev r) 0 (sn_mode r) (sn_mtime r) (sn_uid r) (sn_gid r)
    (sn_atime r) 0 1 0 [] (sn_rdev r) [].

Definition dir_row (k : gostr * gostr) (r : derow) : feedRow :=
  mkFeedRow (full_path k) "dir" (de_rev r) 0 (de_mode r) (de_mtime r) (de_uid r) (de_gid r)
    (de_atime r) 0 1 0 [] 0 [].

Definition tombstone_row (p : gostr) (r : tsrow) : feedRow :=
  mkFeedRow p "tombstone" (ts_rev r) 0 0 0 0 0 0 0 0 0 [] 0 [].

(** A directory entry is shown unless a row of another table has its path. *)
Definition shown_dir (d : tdb) (k : gostr * gostr) : bool :=
  negb (present (manifests d !! full_path k)) && negb (present (symlinks d !! full_path k))
  && negb (present (special_nodes d !! full_path k)).

Definition feed_rows (d : tdb) : list feedRow :=
  ((fun kr => file_row d kr.1 kr.2) <$> map_to_list (manifests d)) ++
  ((fun kr => symlink_row kr.1 kr.2) <$> map_to_list (symlinks d)) ++
  ((fun kr => special_row kr.1 kr.2) <$> map_to_list (special_nodes d)) ++
  ((fun kr => dir_row kr.1 kr.2) <$>
     filter (fun kr => shown_dir d kr.1 = true) (map_to_list (dir_entries d))) ++
  ((fun kr => tombstone_row kr.1 kr.2) <$> map_to_list (change_tombstones d)).

(** [rev > cursorRev or (rev = cursorRev and path > cursorPath)]. *)
Definition after (cur : Z * gostr) (r : feedRow) : bool :=
  (cur.1 <? f_rev r) || ((f_rev r =? cur.1) && str_ltb cur.2 (f_path r)).

Definition in_feed_subtree (subtree : gostr) (r : feedRow) : bool :=
  bool_decide (subtree = []) || in_subtree_sql subtree (f_path r).

(** [order by rev, path]. *)
Definition feed_lt (a b : feedRow) : bool := after (f_rev a, f_path a) b.
Definition feed_le (a b : feedRow) : Prop := feed_lt b a = false.

#[export] Instance feed_le_dec : RelDecision feed_le.
Proof. intros a b. unfold feed_le. apply _. Defined.

Definition scanChange (includeChunks : bool) (r : feedRow) : result err ChangeEntry :=
  let e kind mode cs has :=
    mkChange (f_path r) kind (f_rev r) (f_size r) mode (f_mtime r) (f_uid r) (f_gid r)
      (f_atime r) (f_inode r) (f_nlink r) (f_version r) (f_target r) (f_rdev r) cs has in
  if String.eqb (f_kind r) "file" then
    if includeChunks then
      match unpackChunks (f_chunks r) with
      | None => Err (ErrMsg "unpack chunks")
      | Some cs => Ok (e (f_kind r) (f_mode r) cs true)
      end
    else Ok (e (f_kind r) (f_mode r) [] false)
  else if String.eqb (f_kind r) "dir" then
    Ok (e (f_kind r) (if f_mode r =? 0 then 493 else f_mode r) [] false)
  else if String.eqb (f_kind r) "symlink" then
    Ok (e (f_kind r) (if f_mode r =? 0 then 511 else f_mode r) [] false)
  else if String.eqb (f_kind r) "special" then
    let k := specialNodeKind (f_mode r) in
    Ok (e (if String.eqb k "" then f_kind r else k) (f_mode r) [] false)
  else Ok (e (f_kind r) (f_mode r) [] false).

Fixpoint scanAll (includeChunks : bool) (l : list feedRow) : result err (list ChangeEntry) :=
  match l with
  | [] => Ok []
  | r :: l' =>
      match scanChange includeChunks r with
      | Err e => Err e
      | Ok x => match scanAll includeChunks l' with Err e => Err e | Ok xs => Ok (x :: xs) end
      end
  end.

(** The rows of a subtree in feed order. *)
Definition feed (subtree : gostr) (d : tdb) : list feedRow :=
  merge_sort feed_le (filter (fun r => in_feed_subtree subtree r = true) (feed_rows d)).

(** The rows of one page; a negative limit means no limit. *)
Definition changeRows (subtree : gostr) (cursorRev : Z) (cursorPath : gostr) (limit : Z)
    (d : tdb) : list feedRow :=
  let l := feed subtree d in
  page (after (cursorRev, cursorPath)) (if limit <? 0 then length l else Z.to_nat limit) l.

Definition queryChanges (subtree : gostr) (cursorRev : Z) (cursorPath : gostr) (limit : Z)
    (includeChunks : bool) (d : tdb) : result err (list ChangeEntry) :=
  if 2 ^ 63 <=? cursorRev then Err ErrBind
  else scanAll includeChunks (changeRows subtree cursorRev cursorPath limit d).

(** ** Pruning *)

(** [max(rev)] of the tombstones older than the cutoff. *)
Definition max_pruned (cutoff : Z) (d : tdb) : option Z :=
  map_fold (fun _ t acc =>
    if ts_unix_ms t <? cutoff then Some (Z.max (ts_rev t) (default (ts_rev t) acc)) else acc)
    None (change_tombstones d).

Definition pruneTombstones (cutoff : Z) (d : tdb) : Z * tdb :=
  match max_pruned cutoff d with
  | None => (0, d)
  | Some m =>
      let kept := filter (fun kt => ~ ts_unix_ms kt.2 < cutoff) (change_tombstones d) in
      (Z.of_nat (size (change_tombstones d)) - Z.of_nat (size kept),
       set_pruned_before_rev (Z.max (pruned_before_rev d) (u64 (m + 1)))
         (set_change_tombstones kept d))
  end.

(** ** The CHANGES_FETCH handler *)

Definition SyncProtocolV1 : Z := 1.
Definition changesFetchDefaultLimit : Z := 500.
Definition changesFetchMaxLimit : Z := 1000.

Record fetchReq := mkFetchReq {
  rq_SyncProtocol : Z; rq_CursorRev : Z; rq_CursorPath : gostr; rq_Limit : Z;
  rq_IncludeChunks : bool }.

Record fetchResp := mkFetchResp {
  rs_Entries : list ChangeEntry; rs_NextRev : Z; rs_NextPath : gostr; rs_CurrentRev : Z;
  rs_ResyncRequired : bool; rs_Subtree : gostr }.

Inductive fetchErr := FetchEINVAL | FetchEIO (e : err).

Definition clampFetchLimit (limit : Z) : Z :=
  if limit <=? 0 then changesFetchDefaultLimit
  else if limit >? changesFetchMaxLimit then changesFetchMaxLimit else limit.

Definition scopeSubtree (scopedAgentID : gostr) : gostr :=
  if decide (scopedAgentID = []) then [] else slash :: scopedAgentID.

Section fetch.
(** [policy.Permits] on the policy form of a path. *)
Context (permits : gostr -> bool).

Definition nextCursor (limit lastRev : Z) (entries : list ChangeEntry) : Z * gostr * Z :=
  match last entries with
  | Some e =>
      if (Z.of_nat (length entries) <? limit) && negb (lastRev <=? ce_Rev e)
      then (lastRev, [], lastRev)
      else (ce_Rev e, ce_Path e,
            if Z.of_nat (length entries) <? limit then ce_Rev e else lastRev)
  | None => (lastRev, [], lastRev)
  end.

Definition handleChangesFetch (scopedAgentID : gostr) (req : fetchReq) (d : tdb)
    : result fetchErr fetchResp :=
  if negb (rq_SyncProtocol req =? SyncProtocolV1) then Err FetchEINVAL
  else
    let subtree := scopeSubtree scopedAgentID in
    if (0 <? rq_CursorRev req) && (rq_CursorRev req <? pruned_before_rev d) then
      Ok (mkFetchResp [] (rq_CursorRev req) (rq_CursorPath req) (last_rev d) true subtree)
    else
      let limit := clampFetchLimit (rq_Limit req) in
      match queryChanges subtree (rq_CursorRev req) (rq_CursorPath req) limit
              (rq_IncludeChunks req) d with
      | Err e => Err (FetchEIO e)
      | Ok entries =>
          let '(nextRev, nextPath, currentRev) := nextCursor limit (last_rev d) entries in
          Ok (mkFetchResp (filter (fun e => permits (policyPath (ce_Path e)) = true) entries)
                nextRev nextPath currentRev false subtree)
      end.

(** The catch-up loop of a client (mirror.rs [MirrorSync]): it applies pages
    and moves its cursor, wipes its mirror and restarts from [(0, "")] when a
    resync is required, and stops at a page that is not full. *)
Fixpoint catchUp (fuel : nat) (agent : gostr) (limit : Z) (cur : Z * gostr)
    (got : list ChangeEntry) (d : tdb) : option (list ChangeEntry * Z * gostr) :=
  match fuel with
  | O => None
  | S fuel' =>
      match handleChangesFetch agent
              (mkFetchReq SyncProtocolV1 cur.1 cur.2 limit true) d with
      | Err _ => None
      | Ok r =>
          if rs_ResyncRequired r then catchUp fuel' agent limit (0, []) [] d
          else
            let got' := got ++ rs_Entries r in
            if Z.of_nat (length (rs_Entries r)) <? limit
            then Some (got', rs_NextRev r, rs_NextPath r)
            else catchUp fuel' agent limit (rs_NextRev r, rs_NextPath r) got' d
      end
  end.
End fetch.

(** ** The doorbell

    A subscriber holds the latest revision and whether its one-slot signal is
    set; the pump takes the signal and reports the revision. *)

Record changeSub := mkSub { sub_rev : Z; sub_signal : bool; sub_done : bool }.

Abbreviation changeNotifier := (gmap Z changeSub).

Definition Notify (rev : Z) (n : changeNotifier) : changeNotifier :=
  (fun s => mkSub (Z.max (sub_rev s) rev) true (sub_done s)) <$> n.

(** The subscription that a newer one replaces is closed. *)
Definition Subscribe (connID : Z) (n : changeNotifier) : changeNotifier * option changeSub :=
  (<[connID := mkSub 0 false false]> n,
   (fun s => mkSub (sub_rev s) (sub_signal s) true) <$> n !! connID).

Definition DropConn (connID : Z) (n : changeNotifier) : changeNotifier * option changeSub :=
  (delete connID n, (fun s => mkSub (sub_rev s) (sub_signal s) true) <$> n !! connID).

(** One round of [changesEventPump]: the revision pushed to the client. *)
Definition pump (connID : Z) (n : changeNotifier) : option (Z * changeNotifier) :=
  s ← n !! connID;
  if sub_signal s
  then Some (sub_rev s, <[connID := mkSub (sub_rev s) false (sub_done s)]> n)
  else None.

(** ** The feed order *)

Lemma after_spec c q r : after (c, q) r = true <-> c < f_rev r \/ (f_rev r = c /\ str_ltb q (f_path r) = true).
Proof. unfold after. simpl. rewrite orb_true_iff, andb_true_iff, Z.ltb_lt, Z.eqb_eq. done. Qed.

Lemma feed_lt_irrefl r : feed_lt r r = false.
Proof. unfold feed_lt, after. simpl. rewrite str_ltb_irrefl. lia. Qed.

Lemma feed_lt_trans a b c : feed_lt a b = true -> feed_lt b c = true -> feed_lt a c = true.
Proof.
  unfold feed_lt. rewrite !after_spec.
  intros [H1|[H1 H1']] [H2|[H2 H2']]; [left; lia | left; lia | left; lia |].
  right. split; [lia | by eapply str_ltb_trans].
Qed.

Lemma feed_lt_connected a b :
  feed_lt a b = false -> feed_lt b a = false -> f_rev a = f_rev b /\ f_path a = f_path b.
Proof.
  unfold feed_lt. rewrite <- !not_true_iff_false, !after_spec. intros H1 H2.
  assert (f_rev a = f_rev b) as He by lia. split; [done |].
  apply str_ltb_total; apply not_true_iff_false; intros E; [apply H1 | apply H2];
    right; split; (lia || done).
Qed.

#[export] Instance feed_le_trans : Transitive feed_le.
Proof.
  intros a b c. unfold feed_le. intros H1 H2.
  destruct (feed_lt c a) eqn:E; [| done]. exfalso.
  destruct (feed_lt a b) eqn:E1.
  - pose proof (feed_lt_trans _ _ _ E E1). congruence.
  - destruct (feed_lt_connected _ _ E1 H1) as [Er Ep].
    unfold feed_lt, after in *. simpl in *. rewrite Er, Ep in E. congruence.
Qed.

#[export] Instance feed_le_total : Total feed_le.
Proof.
  intros a b. unfold feed_le. destruct (feed_lt b a) eqn:E; [right | by left].
  destruct (feed_lt a b) eqn:E1; [| done].
  pose proof (feed_lt_trans _ _ _ E E1) as H. by rewrite feed_lt_irrefl in H.
Qed.

(** Every path has one row in the feed: a live row or a tombstone. *)
Definition one_row_per_path (d : tdb) : Prop := NoDup (f_path <$> feed_rows d).

Lemma feed_NoDup subtree d : one_row_per_path d -> NoDup (f_path <$> feed subtree d).
Proof.
  intros H. unfold feed.
  rewrite (merge_sort_Permutation feed_le). by apply NoDup_fmap_filter.
Qed.

Lemma feed_sorted subtree d : one_row_per_path d -> sorted_by feed_lt (feed subtree d).
Proof.
  intros H%(feed_NoDup subtree). unfold feed in *.
  pose proof (StronglySorted_merge_sort feed_le
    (filter (fun r => in_feed_subtree subtree r = true) (feed_rows d))) as Hs.
  revert H Hs. generalize (merge_sort feed_le
    (filter (fun r => in_feed_subtree subtree r = true) (feed_rows d))) as l. clear.
  induction l as [|x l IH]; intros Hn Hs; [constructor |].
  rewrite fmap_cons in Hn. apply NoDup_cons in Hn as [Hni Hn].
  apply StronglySorted_inv in Hs as [Hs Hf]. constructor; [by apply IH |].
  rewrite Forall_forall in Hf |- *. intros y Hy. specialize (Hf y Hy).
  destruct (feed_lt x y) eqn:E; [done |].
  destruct (feed_lt_connected _ _ E Hf) as [_ Hp]. destruct Hni. rewrite Hp.
  by apply list_elem_of_fmap_2.
Qed.

Lemma elem_of_feed subtree d r :
  r ∈ feed subtree d <-> r ∈ feed_rows d /\ in_feed_subtree subtree r = true.
Proof.
  unfold feed. rewrite (merge_sort_Permutation feed_le), list_elem_of_filter. tauto.
Qed.

(** ** Scanning *)

Lemma scanChange_key ic r e : scanChange ic r = Ok e -> ce_Path e = f_path r /\ ce_Rev e = f_rev r.
Proof.
  unfold scanChange. repeat case_match; intros He; simplify_eq; done.
Qed.

Lemma scanAll_length ic l es : scanAll ic l = Ok es -> length es = length l.
Proof.
  revert es. induction l as [|r l IH]; simpl; intros es; [by intros [= <-] |].
  destruct (scanChange ic r); [| done]. destruct (scanAll ic l) as [xs|] eqn:E; [| done].
  intros [= <-]. simpl. f_equal. by apply IH.
Qed.

Lemma scanAll_app ic l1 l2 e1 e2 :
  scanAll ic l1 = Ok e1 -> scanAll ic l2 = Ok e2 -> scanAll ic (l1 ++ l2) = Ok (e1 ++ e2).
Proof.
  revert e1. induction l1 as [|r l IH]; simpl; intros e1; [by intros [= <-] |].
  destruct (scanChange ic r); [| done]. destruct (scanAll ic l) as [xs|]; [| done].
  intros [= <-] H2. by rewrite (IH xs).
Qed.

Lemma scanAll_app_inv ic l1 l2 es :
  scanAll ic (l1 ++ l2) = Ok es ->
  exists e1 e2, scanAll ic l1 = Ok e1 /\ scanAll ic l2 = Ok e2 /\ es = e1 ++ e2.
Proof.
  revert es. induction l1 as [|r l IH]; simpl; intros es; [by exists [], es |].
  destruct (scanChange ic r) as [x|]; [| done].
  destruct (scanAll ic (l ++ l2)) as [xs|]; [| done]. intros [= <-].
  destruct (IH xs eq_refl) as (e1 & e2 & -> & -> & ->). by exists (x :: e1), e2.
Qed.

Lemma scanAll_last ic l es e :
  scanAll ic l = Ok es -> last es = Some e ->
  exists r, last l = Some r /\ ce_Path e = f_path r /\ ce_Rev e = f_rev r.
Proof.
  destruct (decide (l = [])) as [->|Hne]; [by intros [= <-] |].
  destruct (exists_last Hne) as (l' & r & ->). rewrite last_snoc. intros Hs Hl.
  apply scanAll_app_inv in Hs as (e1 & e2 & _ & H2 & ->). simpl in H2.
  destruct (scanChange ic r) as [x|] eqn:Hx; [| done]. injection H2 as <-.
  rewrite last_snoc in Hl. injection Hl as <-. exists r. split; [done |].
  by eapply scanChange_key.
Qed.

(** ** Hydration *)

(** Every row of the feed can be scanned. *)
Definition scannable (d : tdb) : Prop := forall r, r ∈ feed_rows d -> exists e, scanChange true r = Ok e.

Lemma scanAll_total l :
  (forall r, r ∈ l -> exists e, scanChange true r = Ok e) -> exists es, scanAll true l = Ok es.
Proof.
  induction l as [|r l IH]; intros H; [by exists [] |]. simpl.
  destruct (H r) as [e ->]; [by left |].
  destruct IH as [es ->]; [| by exists (e :: es)]. intros x Hx. apply H. by right.
Qed.

Section hydration.
Context (permits : gostr -> bool) (agent : gostr) (limit : Z) (d : tdb).
Hypothesis Hlimit : 1 <= limit <= 1000.
Let subtree := scopeSubtree agent.
Let pg (cur : Z * gostr) : list feedRow := page (after cur) (Z.to_nat limit) (feed subtree d).

Lemma clampFetchLimit_id : clampFetchLimit limit = limit.
Proof using Hlimit.
  unfold clampFetchLimit, changesFetchMaxLimit.
  replace (limit <=? 0) with false by lia. by replace (limit >? 1000) with false by lia.
Qed.

(** One request that needs no resync. *)
Lemma handleChangesFetch_page cur es :
  (cur.1 <= 0 \/ pruned_before_rev d <= cur.1) -> cur.1 < 2 ^ 63 ->
  scanAll true (pg cur) = Ok es ->
  handleChangesFetch permits agent (mkFetchReq SyncProtocolV1 cur.1 cur.2 limit true) d =
  let '(nr, np, cr) := nextCursor limit (last_rev d) es in
  Ok (mkFetchResp (filter (fun e => permits (policyPath (ce_Path e)) = true) es)
        nr np cr false subtree).
Proof using Hlimit.
  intros Hc Hb Hs. unfold handleChangesFetch. cbn [rq_SyncProtocol rq_CursorRev rq_CursorPath
    rq_Limit rq_IncludeChunks]. rewrite clampFetchLimit_id.
  replace (negb (SyncProtocolV1 =? SyncProtocolV1)) with false by done.
  replace ((0 <? cur.1) && (cur.1 <? pruned_before_rev d)) with false by lia.
  unfold queryChanges. replace (2 ^ 63 <=? cur.1) with false by lia.
  unfold changeRows. replace (limit <? 0) with false by lia.
  fold subtree. destruct cur as [c q]. cbn [fst snd] in *.
  unfold pg in Hs. rewrite Hs. done.
Qed.

(** A fresh client whose first page is full and ends below the prune
    watermark is sent back to the start for ever. *)
Lemma catchUp_livelock r :
  permits = (fun _ => true) -> scannable d ->
  last (pg (0, [])) = Some r -> length (pg (0, [])) = Z.to_nat limit ->
  0 < f_rev r < pruned_before_rev d -> f_rev r < 2 ^ 63 ->
  forall fuel got, catchUp permits fuel agent limit (0, []) got d = None.
Proof using Hlimit.
  intros Hperm Hscan Hlast Hlen Hr Hb.
  destruct (scanAll_total (pg (0, []))) as [es Hes].
  { intros x Hx. apply Hscan. apply subseteq_take in Hx.
    apply list_elem_of_filter in Hx as [_ Hx]. by apply elem_of_feed in Hx as [Hx _]. }
  pose proof (scanAll_length _ _ _ Hes) as Hl.
  destruct (last es) as [e|] eqn:He;
    [| apply last_None in He; subst es; simpl in Hl; lia].
  destruct (scanAll_last _ _ _ _ Hes He) as (r' & Hr' & Hp & Hrev).
  assert (r' = r) as -> by congruence.
  assert (forall fuel got c q, 0 < c < pruned_before_rev d ->
    catchUp permits (S fuel) agent limit (c, q) got d =
    catchUp permits fuel agent limit (0, []) [] d) as Hresync.
  { intros fuel got c q Hc. cbn [catchUp]. unfold handleChangesFetch at 1.
    cbn [rq_SyncProtocol rq_CursorRev rq_CursorPath fst snd].
    replace (negb (SyncProtocolV1 =? SyncProtocolV1)) with false by done.
    by replace ((0 <? c) && (c <? pruned_before_rev d)) with true by lia. }
  intros fuel. induction fuel as [fuel IH] using lt_wf_ind. intros got.
  destruct fuel as [|fuel]; [done |]. cbn [catchUp].
  rewrite (handleChangesFetch_page (0, []) es) by (simpl; done || lia).
  unfold nextCursor. rewrite He.
  replace (Z.of_nat (length es) <? limit) with false by lia. cbn [andb negb].
  cbn [rs_ResyncRequired rs_Entries rs_NextRev rs_NextPath].
  rewrite (filter_all_true (fun e => permits (policyPath (ce_Path e))))
    by (apply Forall_forall; intros; by rewrite Hperm).
  replace (Z.of_nat (length es) <? limit) with false by lia.
  destruct fuel as [|fuel]; [done |]. rewrite Hresync by lia. apply IH. lia.
Qed.

Lemma catchUp_from fuel pre suf cur got es :
  permits = (fun _ => true) -> one_row_per_path d -> last_rev d < 2 ^ 63 ->
  (forall r, r ∈ suf -> f_rev r <= last_rev d /\
     (f_rev r <= 0 \/ pruned_before_rev d <= f_rev r)) ->
  (cur.1 <= 0 \/ pruned_before_rev d <= cur.1) -> cur.1 < 2 ^ 63 ->
  feed subtree d = pre ++ suf -> filter (fun r => after cur r = true) (feed subtree d) = suf ->
  scanAll true suf = Ok es -> (length suf < fuel)%nat ->
  exists np, catchUp permits fuel agent limit cur got d = Some (got ++ es, last_rev d, np).
Proof using Hlimit.
  intros Hperm Huniq Hlr. revert pre suf cur got es.
  induction fuel as [|fuel IH]; intros pre suf cur got es Hrev Hc Hcb Hsplit Hfil Hscan Hfuel; [lia |].
  assert (pg cur = take (Z.to_nat limit) suf) as Hpg by (unfold pg, page; by rewrite Hfil).
  rewrite <- (take_drop (Z.to_nat limit) suf) in Hscan.
  apply scanAll_app_inv in Hscan as (e1 & e2 & H1 & H2 & ->).
  pose proof (scanAll_length _ _ _ H1) as Hl1. rewrite length_take in Hl1.
  cbn [catchUp]. rewrite (handleChangesFetch_page cur e1) by (done || by rewrite Hpg).
  destruct (nextCursor limit (last_rev d) e1) as [[nr np] cr] eqn:Hnc.
  cbn [rs_ResyncRequired rs_Entries rs_NextRev rs_NextPath].
  rewrite (filter_all_true (fun e => permits (policyPath (ce_Path e))))
    by (apply Forall_forall; intros; by rewrite Hperm).
  assert (forall e, last e1 = Some e -> exists r l', take (Z.to_nat limit) suf = l' ++ [r] /\
    ce_Path e = f_path r /\ ce_Rev e = f_rev r /\ r ∈ suf) as Hlast.
  { intros e He. destruct (scanAll_last _ _ _ _ H1 He) as (r & Hr & Hp & Hrv).
    apply last_Some in Hr as [l' Hl']. exists r, l'. repeat (split; [done |]).
    apply (subseteq_take (Z.to_nat limit)). rewrite Hl', elem_of_app, elem_of_cons. auto. }
  unfold nextCursor in Hnc.
  destruct (Z.ltb_spec (Z.of_nat (length e1)) limit) as [Hshort|Hfull].
  - assert (e2 = []) as ->.
    { rewrite drop_ge in H2 by lia. by injection H2 as <-. }
    exists np. rewrite app_nil_r. f_equal. f_equal. f_equal.
    destruct (last e1) as [e|] eqn:He; [| by simplify_eq].
    destruct (Hlast e eq_refl) as (r & l' & _ & _ & Hrv & Hin).
    specialize (Hrev r Hin). cbn [andb] in Hnc.
    destruct (Z.leb_spec (last_rev d) (ce_Rev e)); cbn in Hnc; simplify_eq; lia.
  - destruct (last e1) as [e|] eqn:He;
      [| apply last_None in He; subst e1; simpl in Hfull; lia].
    destruct (Hlast e eq_refl) as (r & l' & Hl' & Hp & Hrv & Hin).
    cbn [andb] in Hnc. injection Hnc as <- <- <-. rewrite Hp, Hrv, app_assoc.
    destruct (Hrev r Hin) as [Hle Hpr].
    assert (feed subtree d = (pre ++ l') ++ r :: drop (Z.to_nat limit) suf) as Hf2.
    { rewrite Hsplit, <- (take_drop (Z.to_nat limit) suf) at 1. by rewrite Hl', <- !app_assoc. }
    apply (IH ((pre ++ l') ++ [r]) (drop (Z.to_nat limit) suf)); cbn [fst snd].
    + intros x Hx. apply Hrev. by apply (subseteq_drop (Z.to_nat limit)).
    + done.
    + lia.
    + rewrite Hf2 at 1. by rewrite <- (app_assoc (pre ++ l') [r]).
    + pose proof (feed_sorted subtree d Huniq) as Hs. rewrite Hf2 in Hs |- *.
      apply (filter_after feed_lt feed_lt_irrefl feed_lt_trans _ _ _ Hs).
    + done.
    + rewrite length_drop. lia.
Qed.
End hydration.

(** ** Pruning *)

Lemma max_pruned_ge cutoff d p t :
  change_tombstones d !! p = Some t -> ts_unix_ms t < cutoff ->
  exists m, max_pruned cutoff d = Some m /\ ts_rev t <= m.
Proof.
  unfold max_pruned. revert p t.
  induction (change_tombstones d) as [|q x m Hq Hfold IH] using map_first_key_ind; [done |].
  intros p t Hp Ht. rewrite map_fold_insert_first_key by done.
  apply lookup_insert_Some in Hp as [[<- ->]|[Hne Hp]].
  - replace (ts_unix_ms t <? cutoff) with true by lia. eexists. split; [done |]. lia.
  - destruct (IH p t Hp Ht) as (k & -> & Hk). case_match; [| by exists k].
    eexists. split; [done |]. simpl. lia.
Qed.

Lemma max_pruned_in cutoff d m :
  max_pruned cutoff d = Some m -> exists p t, change_tombstones d !! p = Some t /\ ts_rev t = m.
Proof.
  unfold max_pruned. revert m.
  induction (change_tombstones d) as [|q x mm Hq Hfold IH] using map_first_key_ind; [done |].
  intros m. rewrite map_fold_insert_first_key by done.
  assert (forall k, map_fold (fun _ t acc => if ts_unix_ms t <? cutoff
      then Some (Z.max (ts_rev t) (default (ts_rev t) acc)) else acc) None mm = Some k ->
    exists p t, <[q:=x]> mm !! p = Some t /\ ts_rev t = k) as IH'.
  { intros k Hk. destruct (IH k Hk) as (p & t & Hp & Ht). exists p, t.
    rewrite lookup_insert_ne; [done | congruence]. }
  destruct (ts_unix_ms x <? cutoff); [| apply IH'].
  destruct (map_fold _ None mm) as [k|] eqn:Hk; intros [= <-]; simpl.
  - destruct (Z.max_spec (ts_rev x) k) as [[_ ->]|[_ ->]]; [by apply IH' |].
    exists q, x. by rewrite lookup_insert_eq.
  - exists q, x. rewrite lookup_insert_eq, Z.max_id. done.
Qed.

(** A tombstone that pruning removes has a revision below the new watermark. *)
Lemma pruneTombstones_watermark cutoff d n d' p t :
  (forall q s, change_tombstones d !! q = Some s -> 0 <= ts_rev s < 2 ^ 63) ->
  pruneTombstones cutoff d = (n, d') ->
  change_tombstones d !! p = Some t -> change_tombstones d' !! p = None ->
  ts_rev t < pruned_before_rev d'.
Proof.
  intros Hb Hpr Hp Hp'. unfold pruneTombstones in Hpr.
  destruct (decide (ts_unix_ms t < cutoff)) as [Ht|Ht].
  - destruct (max_pruned_ge cutoff d p t Hp Ht) as (m & Hm & Hle). rewrite Hm in Hpr.
    simplify_eq. simpl.
    destruct (max_pruned_in cutoff d m Hm) as (q & s & Hq & <-).
    specialize (Hb q s Hq).
    unfold u64. rewrite Z.mod_small by lia. lia.
  - destruct (max_pruned cutoff d); [| congruence]. injection Hpr as <- <-. simpl in *.
    apply map_lookup_filter_None in Hp' as [?|Hp']; [congruence |].
    specialize (Hp' t Hp). simpl in Hp'. lia.
Qed.

Lemma elem_of_feed_rows d r :
  r ∈ feed_rows d <->
  (exists p x, manifests d !! p = Some x /\ r = file_row d p x) \/
  (exists p x, symlinks d !! p = Some x /\ r = symlink_row p x) \/
  (exists p x, special_nodes d !! p = Some x /\ r = special_row p x) \/
  (exists k x, dir_entries d !! k = Some x /\ shown_dir d k = true /\ r = dir_row k x) \/
  (exists p x, change_tombstones d !! p = Some x /\ r = tombstone_row p x).
Proof.
  assert (forall {K A} `{Countable K} (m : gmap K A) (f : K * A -> feedRow),
    r ∈ f <$> map_to_list m <-> exists k x, m !! k = Some x /\ r = f (k, x)) as Hm.
  { intros K A EK CK m f. rewrite list_elem_of_fmap. split.
    - intros ([k x] & -> & Hin). apply elem_of_map_to_list in Hin. eauto.
    - intros (k & x & Hk & ->). exists (k, x). by rewrite elem_of_map_to_list. }
  unfold feed_rows. rewrite !elem_of_app, !Hm. simpl.
  assert (r ∈ (fun kr => dir_row kr.1 kr.2) <$>
      filter (fun kr => shown_dir d kr.1 = true) (map_to_list (dir_entries d)) <->
    exists k x, dir_entries d !! k = Some x /\ shown_dir d k = true /\ r = dir_row k x) as ->.
  { rewrite list_elem_of_fmap. split.
    - intros ([k x] & -> & Hin). apply list_elem_of_filter in Hin as [Hs Hin].
      apply elem_of_map_to_list in Hin. eauto 10.
    - intros (k & x & Hk & Hs & ->). exists (k, x). split; [done |].
      apply list_elem_of_filter. split; [done |]. by apply elem_of_map_to_list. }
  done.
Qed.

(** A client whose cursor is at or above the watermark sees the same rows
    before and after the pruning. *)
Lemma prune_invisible cutoff d n d' subtree c q r :
  (forall p s, change_tombstones d !! p = Some s -> 0 <= ts_rev s < 2 ^ 63) ->
  pruneTombstones cutoff d = (n, d') -> pruned_before_rev d' <= c ->
  after (c, q) r = true -> r ∈ feed subtree d <-> r ∈ feed subtree d'.
Proof.
  intros Hb Hpr Hc Ha. rewrite !elem_of_feed, !elem_of_feed_rows.
  assert (manifests d' = manifests d /\ symlinks d' = symlinks d /\
    special_nodes d' = special_nodes d /\ dir_entries d' = dir_entries d /\
    (forall p s, change_tombstones d' !! p = Some s -> change_tombstones d !! p = Some s))
    as (Hm & Hsl & Hsn & Hde & Hts).
  { unfold pruneTombstones in Hpr. destruct (max_pruned cutoff d); injection Hpr as <- <-; [| done].
    repeat split. simpl. intros p s Hs. by apply map_lookup_filter_Some in Hs as [? _]. }
  assert (forall p x, file_row d' p x = file_row d p x) as Hf
    by (intros; unfold file_row, nlink, links; by rewrite Hm).
  assert (forall k, shown_dir d' k = shown_dir d k) as Hsd
    by (intros; unfold shown_dir; by rewrite Hm, Hsl, Hsn).
  rewrite Hm, Hsl, Hsn, Hde. setoid_rewrite Hf. setoid_rewrite Hsd.
  enough ((exists p x, change_tombstones d !! p = Some x /\ r = tombstone_row p x) <->
          (exists p x, change_tombstones d' !! p = Some x /\ r = tombstone_row p x)) as -> by done.
  split; intros (p & x & Hp & ->); [| eauto].
  destruct (change_tombstones d' !! p) as [y|] eqn:E.
  - exists p, x. split; [| done]. specialize (Hts p y E). congruence.
  - pose proof (pruneTombstones_watermark cutoff d n d' p x Hb Hpr Hp E).
    apply after_spec in Ha. simpl in Ha. lia.
Qed.
