(* ===== verification/Lease.v ===== *)
(** * Leases

    lease.go (the lease manager), lease_persist.go (snapshot and restore),
    mount_lease_registry.go (the active and fenced mount sessions of an
    allocation) and the session fence of dataplane_server.go
    ([checkSessionFence]).

    A method of the manager runs in critical sections of one mutex.  Each
    critical section is a function of the state; what happens between two of
    them is an interleaving of other critical sections, so invariants are
    proved for arbitrary sequences ([lstep]).  A record is shared by pointer
    between [byPath] and [byID]; ids are unique, so [byPath] holds the id.
    [rand.Read] is the argument [fresh], time is in nanoseconds. *)

From S2P Require Import Prelude GoPath Codec TenantDB Journal Manifests.

Inductive LeaseMode := LeaseSharedRead | LeaseExclusiveWrite.

#[export] Instance LeaseMode_eq_dec : EqDecision LeaseMode.
Proof. solve_decision. Defined.

Abbreviation leaseID := (list Z).

(** [lr_revoking] is [revoking != nil]: a revoke has been pushed. *)
Record leaseRecord := mkLease {
  lr_id : leaseID; lr_path : gostr; lr_mode : LeaseMode; lr_holder : gostr; lr_connID : Z;
  lr_grantedAt : Z; lr_expiresAt : Z; lr_revoking : bool }.

Record leaseConfig := mkLeaseConfig { ttl : Z; minHold : Z; revokeTimeout : Z }.

Record leaseManager := mkLM {
  byPath : gmap gostr leaseID;
  byID : gmap leaseID leaseRecord;
  byConn : gmap Z (gset leaseID) }.

Definition newLeaseManager : leaseManager := mkLM ∅ ∅ ∅.

Definition lease_at (p : gostr) (m : leaseManager) : option leaseRecord :=
  i ← byPath m !! p; byID m !! i.

(** [m.byConn[c][id] = struct{}{}], creating the inner map. *)
Definition conn_add (c : Z) (i : leaseID) (b : gmap Z (gset leaseID)) : gmap Z (gset leaseID) :=
  <[c := {[i]} ∪ default ∅ (b !! c)]> b.

(** [delete(m.byConn[c], id)], dropping an empty inner map. *)
Definition conn_del (c : Z) (i : leaseID) (b : gmap Z (gset leaseID)) : gmap Z (gset leaseID) :=
  match b !! c with
  | None => b
  | Some s => let s' := s ∖ {[i]} in if decide (s' = ∅) then delete c b else <[c := s']> b
  end.

Definition installLocked (cfg : leaseConfig) (now : Z) (fresh : leaseID) (holder : gostr)
    (connID : Z) (path : gostr) (mode : LeaseMode) (m : leaseManager) : leaseManager :=
  let rec := mkLease fresh path mode holder connID now (now + ttl cfg) false in
  mkLM (<[path := fresh]> (byPath m)) (<[fresh := rec]> (byID m)) (conn_add connID fresh (byConn m)).

Definition removeLocked (rec : leaseRecord) (m : leaseManager) : leaseManager :=
  mkLM (if decide (byPath m !! lr_path rec = Some (lr_id rec))
        then delete (lr_path rec) (byPath m) else byPath m)
       (delete (lr_id rec) (byID m))
       (conn_del (lr_connID rec) (lr_id rec) (byConn m)).

Definition update_rec (rec : leaseRecord) (m : leaseManager) : leaseManager :=
  mkLM (byPath m) (<[lr_id rec := rec]> (byID m)) (byConn m).

Definition with_expiry (t : Z) (r : leaseRecord) : leaseRecord :=
  mkLease (lr_id r) (lr_path r) (lr_mode r) (lr_holder r) (lr_connID r) (lr_grantedAt r) t
    (lr_revoking r).
Definition with_conn (c : Z) (r : leaseRecord) : leaseRecord :=
  mkLease (lr_id r) (lr_path r) (lr_mode r) (lr_holder r) c (lr_grantedAt r) (lr_expiresAt r)
    (lr_revoking r).
Definition with_revoking (b : bool) (r : leaseRecord) : leaseRecord :=
  mkLease (lr_id r) (lr_path r) (lr_mode r) (lr_holder r) (lr_connID r) (lr_grantedAt r)
    (lr_expiresAt r) b.

(** ** [YieldFor] *)

(** What the first critical section of a round decides: proceed, refuse, push a
    revoke to the holder's connection and wait, or wait for another caller's
    revoke. *)
Inductive yieldResult :=
| YieldProceed
| YieldHeld
| YieldRevoke (id : leaseID) (holderConn : Z)
| YieldWait (id : leaseID).

Definition yieldLocked (cfg : leaseConfig) (now : Z) (requester path : gostr) (m : leaseManager)
    : yieldResult * leaseManager :=
  match lease_at path m with
  | None => (YieldProceed, m)
  | Some r =>
      if decide (lr_holder r = requester) then (YieldProceed, m)
      else if now - lr_grantedAt r <? minHold cfg then (YieldHeld, m)
      else if lr_revoking r then (YieldWait (lr_id r), m)
      else (YieldRevoke (lr_id r) (lr_connID r), update_rec (with_revoking true r) m)
  end.

(** The critical section after [revokeTimeout]: evict the holder that was asked
    to yield if it still has the path. *)
Definition evictLocked (path : gostr) (id : leaseID) (m : leaseManager) : leaseManager :=
  match lease_at path m with
  | Some r => if decide (lr_id r = id) then removeLocked r m else m
  | None => m
  end.

(** ** [Grant] *)

Record leaseGrantResult := mkGrant { lg_LeaseID : leaseID; lg_ExpiresAt : Z; lg_Mode : LeaseMode }.

(** The critical section of a round after [YieldFor] returned nil; [None] is the
    [continue] of the loop. *)
Definition grantLocked (cfg : leaseConfig) (now : Z) (fresh : leaseID) (holder : gostr)
    (connID : Z) (path : gostr) (mode : LeaseMode) (m : leaseManager)
    : option leaseGrantResult * leaseManager :=
  match lease_at path m with
  | Some r =>
      if decide (lr_holder r = holder /\ lr_mode r = mode) then
        if decide (lr_connID r = connID \/ lr_connID r = 0) then
          let r' := with_expiry (now + ttl cfg) (with_conn connID r) in
          let m' := update_rec r' m in
          let m'' := if decide (lr_connID r = connID) then m'
                     else mkLM (byPath m') (byID m') (conn_add connID (lr_id r) (byConn m')) in
          (Some (mkGrant (lr_id r) (now + ttl cfg) (lr_mode r)), m'')
        else
          (Some (mkGrant fresh (now + ttl cfg) mode),
           installLocked cfg now fresh holder connID path mode (removeLocked r m))
      else (None, m)
  | None =>
      (Some (mkGrant fresh (now + ttl cfg) mode),
       installLocked cfg now fresh holder connID path mode m)
  end.

(** [Grant] when nothing else runs: [fuel] rounds of the loop.  [None] is a call
    that has not returned. *)
Inductive grantOutcome := GrantOk (r : leaseGrantResult) | GrantHeld | GrantBlocked (y : yieldResult).

Fixpoint Grant (fuel : nat) (cfg : leaseConfig) (now : Z) (fresh : leaseID) (holder : gostr)
    (connID : Z) (path : gostr) (mode : LeaseMode) (m : leaseManager)
    : option (grantOutcome * leaseManager) :=
  match fuel with
  | O => None
  | S fuel' =>
      match yieldLocked cfg now holder path m with
      | (YieldProceed, m) =>
          match grantLocked cfg now fresh holder connID path mode m with
          | (Some r, m') => Some (GrantOk r, m')
          | (None, m') => Grant fuel' cfg now fresh holder connID path mode m'
          end
      | (YieldHeld, m) => Some (GrantHeld, m)
      | (y, m) => Some (GrantBlocked y, m)
      end
  end.

(** ** The other methods: one critical section each *)

Definition HeldByConn (id : leaseID) (connID : Z) (m : leaseManager) : bool :=
  match byID m !! id with Some r => lr_connID r =? connID | None => false end.

Definition Live (now : Z) (id : leaseID) (m : leaseManager) : bool :=
  match byID m !! id with
  | Some r => negb (lr_revoking r) && (now <? lr_expiresAt r)
  | None => false
  end.

Definition AuthorizeOrRebindSession (now : Z) (id : leaseID) (holder : gostr) (connID : Z)
    (m : leaseManager) : (bool * bool) * leaseManager :=
  match byID m !! id with
  | None => ((false, false), m)
  | Some r =>
      if decide (lr_holder r <> holder) then ((false, false), m)
      else if negb (now <? lr_expiresAt r) || lr_revoking r then ((false, false), m)
      else if lr_connID r =? connID then ((true, false), m)
      else if connID <? lr_connID r then ((false, false), m)
      else
        ((true, true),
         mkLM (byPath m) (<[lr_id r := with_conn connID r]> (byID m))
           (conn_add connID (lr_id r) (conn_del (lr_connID r) (lr_id r) (byConn m))))
  end.

Inductive lease_err := errLeaseUnknown | errLeaseHeld.

(** The caller's connection is the one the lease is bound to, or none is. *)
Definition conn_may (r : leaseRecord) (connID : Z) : bool :=
  (lr_connID r =? connID) || (lr_connID r =? 0).

Definition Refresh (cfg : leaseConfig) (now : Z) (id : list Z) (connID : Z) (m : leaseManager)
    : result lease_err Z * leaseManager :=
  if decide (length id <> 16%nat) then (Err errLeaseUnknown, m)
  else
    match byID m !! id with
    | None => (Err errLeaseUnknown, m)
    | Some r =>
        if conn_may r connID
        then (Ok (now + ttl cfg), update_rec (with_expiry (now + ttl cfg) r) m)
        else (Err errLeaseUnknown, m)
    end.

Definition Release (id : list Z) (connID : Z) (m : leaseManager)
    : result lease_err unit * leaseManager :=
  if decide (length id <> 16%nat) then (Err errLeaseUnknown, m)
  else
    match byID m !! id with
    | None => (Err errLeaseUnknown, m)
    | Some r => if conn_may r connID then (Ok tt, removeLocked r m) else (Err errLeaseUnknown, m)
    end.

(** A loop over a map that removes some of its records. *)
Definition remove_all (rs : list leaseRecord) (m : leaseManager) : leaseManager :=
  foldl (fun m r => removeLocked r m) m rs.

Definition expired (now : Z) (m : leaseManager) : list leaseRecord :=
  filter (fun r => lr_revoking r = false /\ lr_expiresAt r <= now) (map_to_list (byID m)).*2.

Definition SweepExpired (now : Z) (m : leaseManager) : nat * leaseManager :=
  (length (expired now m), remove_all (expired now m) m).

Definition leases_of_conn (connID : Z) (m : leaseManager) : list leaseRecord :=
  omap (fun i => byID m !! i) (elements (default ∅ (byConn m !! connID))).

Definition ReleaseAllForConn (connID : Z) (m : leaseManager) : leaseManager :=
  remove_all (leases_of_conn connID m) m.

(** ** Snapshot and restore *)

(** A row of the [leases] table; times in milliseconds. *)
Record leaseRow := mkLeaseRow {
  lw_lease_id : leaseID; lw_path : gostr; lw_mode : LeaseMode; lw_holder : gostr;
  lw_granted_at : Z; lw_expires_at : Z }.

Definition UnixMilli (t : Z) : Z := t / 1000000.
Definition FromUnixMilli (ms : Z) : Z := ms * 1000000.

Definition row_of (r : leaseRecord) : leaseRow :=
  mkLeaseRow (lr_id r) (lr_path r) (lr_mode r) (lr_holder r) (UnixMilli (lr_grantedAt r))
    (UnixMilli (lr_expiresAt r)).

Definition Snapshot (m : leaseManager) : list leaseRow := row_of <$> (map_to_list (byID m)).*2.

Definition restore_row (w : leaseRow) (m : leaseManager) : leaseManager :=
  let r := mkLease (lw_lease_id w) (lw_path w) (lw_mode w) (lw_holder w) 0
             (FromUnixMilli (lw_granted_at w)) (FromUnixMilli (lw_expires_at w)) false in
  mkLM (<[lw_path w := lw_lease_id w]> (byPath m)) (<[lw_lease_id w := r]> (byID m)) (byConn m).

(** [None]: a row with a malformed id stops the restore. *)
Fixpoint restore_rows (rows : list leaseRow) (m : leaseManager) : option leaseManager :=
  match rows with
  | [] => Some m
  | w :: rows' =>
      if decide (length (lw_lease_id w) = 16%nat) then restore_rows rows' (restore_row w m) else None
  end.

Definition Restore (now : Z) (rows : list leaseRow) (m : leaseManager) : option leaseManager :=
  restore_rows (filter (fun w => UnixMilli now < lw_expires_at w) rows) m.

(** ** The mount session registry *)

Record allocationLeaseState := mkAlloc { al_active : gostr; al_fenced : gset gostr }.

Abbreviation mountLeaseRegistry := (gmap gostr allocationLeaseState).

Definition Install (allocationID leaseHex : gostr) (r : mountLeaseRegistry)
    : bool * mountLeaseRegistry :=
  if decide (allocationID = [] \/ leaseHex = []) then (false, r)
  else
    let st := default (mkAlloc [] ∅) (r !! allocationID) in
    if decide (leaseHex ∈ al_fenced st) then (false, <[allocationID := st]> r)
    else (true, <[allocationID := mkAlloc leaseHex (al_fenced st)]> r).

Definition registryGet (allocationID : gostr) (r : mountLeaseRegistry) : gostr :=
  if decide (allocationID = []) then []
  else match r !! allocationID with Some st => al_active st | None => [] end.

Definition Clear (allocationID : gostr) (r : mountLeaseRegistry) : mountLeaseRegistry :=
  if decide (allocationID = []) then r
  else
    match r !! allocationID with
    | None => r
    | Some st =>
        if decide (al_active st = []) then r
        else <[allocationID := mkAlloc [] ({[al_active st]} ∪ al_fenced st)]> r
    end.

(** ** The session fence *)

(** [checkSessionFence]: the active lease hex, or [None] for an EACCES reply. *)
Definition checkSessionFence (now : Z) (agentID : gostr) (connID : Z) (sessionID allocationID : gostr)
    (m : leaseManager) (reg : mountLeaseRegistry)
    : option gostr * leaseManager * mountLeaseRegistry :=
  if decide (sessionID = []) then (Some [], m, reg)
  else if negb (HasPrefix sessionID sessionMountPrefix)
            || (length sessionID <=? length sessionMountPrefix)%nat
  then (None, m, reg)
  else
    let leaseHex := drop (length sessionMountPrefix) sessionID in
    match decodeLeaseHex leaseHex with
    | None => (None, m, reg)
    | Some id =>
        match AuthorizeOrRebindSession now id agentID connID m with
        | ((false, _), m') => (None, m', reg)
        | ((true, _), m') =>
            match Install allocationID leaseHex reg with
            | (false, reg') => (None, m', reg')
            | (true, reg') => (Some leaseHex, m', reg')
            end
        end
    end.

(** [mountSessionLive] of the allocation's tenant. *)
Definition mountSessionLive (now : Z) (allocationID : gostr) (m : leaseManager)
    (reg : mountLeaseRegistry) : bool :=
  let leaseHex := registryGet allocationID reg in
  if decide (leaseHex = []) then false
  else match decodeLeaseHex leaseHex with None => false | Some id => Live now id m end.

Definition writerSessionForRevert (allocationID : gostr) (reg : mountLeaseRegistry) : gostr :=
  let leaseHex := registryGet allocationID reg in
  if decide (leaseHex = []) then sessionRevertPrefix ++ allocationID
  else sessionMountPrefix ++ leaseHex.

(** ** The invariant *)

Definition conn_mem (c : Z) (i : leaseID) (b : gmap Z (gset leaseID)) : Prop :=
  exists s, b !! c = Some s /\ i ∈ s.

(** [byPath] and [byID] are inverse to each other, and [byConn] lists the leases
    of each live connection. *)
Record lm_ok (m : leaseManager) : Prop := {
  ok_path : forall p i, byPath m !! p = Some i -> exists r, byID m !! i = Some r /\ lr_path r = p;
  ok_id : forall i r, byID m !! i = Some r -> lr_id r = i /\ byPath m !! lr_path r = Some i;
  ok_conn : forall c i, conn_mem c i (byConn m) <->
    c <> 0 /\ exists r, byID m !! i = Some r /\ lr_connID r = c }.

(** One critical section of some request. *)
Inductive lstep (cfg : leaseConfig) (m : leaseManager) : leaseManager -> Prop :=
| ls_yield now req p : lstep cfg m (yieldLocked cfg now req p m).2
| ls_evict p i : lstep cfg m (evictLocked p i m)
| ls_grant now fresh holder c p mode :
    byID m !! fresh = None -> c <> 0 ->
    lstep cfg m (grantLocked cfg now fresh holder c p mode m).2
| ls_rebind now i holder c : c <> 0 -> lstep cfg m (AuthorizeOrRebindSession now i holder c m).2
| ls_refresh now i c : lstep cfg m (Refresh cfg now i c m).2
| ls_release i c : lstep cfg m (Release i c m).2
| ls_sweep now : lstep cfg m (SweepExpired now m).2
| ls_close c : lstep cfg m (ReleaseAllForConn c m).

Lemma conn_mem_add c i b c' i' :
  conn_mem c' i' (conn_add c i b) <-> (c' = c /\ i' = i) \/ conn_mem c' i' b.
Proof.
  unfold conn_mem, conn_add. split.
  - intros (s & Hs & Hi). apply lookup_insert_Some in Hs as [[<- <-]|[Hne Hs]]; [| eauto].
    apply elem_of_union in Hi as [->%elem_of_singleton|Hi]; [by left |].
    right. destruct (b !! c) as [t|]; [by exists t |]. by apply elem_of_empty in Hi.
  - intros [[-> ->]|(s & Hs & Hi)].
    + eexists. rewrite lookup_insert_eq. split; [done |]. set_solver.
    + destruct (decide (c = c')) as [->|Hne].
      * eexists. rewrite lookup_insert_eq, Hs. split; [done |]. set_solver.
      * exists s. by rewrite lookup_insert_ne.
Qed.

Lemma conn_mem_del c i b c' i' :
  conn_mem c' i' (conn_del c i b) <-> conn_mem c' i' b /\ ~ (c' = c /\ i' = i).
Proof.
  unfold conn_mem, conn_del. destruct (b !! c) as [s|] eqn:Hc.
  - assert (forall s0, (if decide (s ∖ {[i]} = ∅) then delete c b else <[c := s ∖ {[i]}]> b) !! c' = Some s0 <->
      (c' = c /\ s0 = s ∖ {[i]} /\ s ∖ {[i]} <> ∅) \/ (c' <> c /\ b !! c' = Some s0)) as Hlook.
    { intros s0. case_decide as He.
      - rewrite lookup_delete_Some. split; [intros [? ?]; right; auto |].
        intros [(-> & -> & ?)|[? ?]]; [done | auto].
      - rewrite lookup_insert_Some. split.
        + intros [[-> <-]|[? ?]]; [left; auto | right; auto].
        + intros [(-> & -> & ?)|[? ?]]; [left; auto | right; auto]. }
    split.
    + intros (s0 & [(-> & -> & _)|[Hne Hs]]%Hlook & Hi).
      * apply elem_of_difference in Hi as [Hi Hni]. split; [by exists s |].
        intros [_ ->]. by apply Hni, elem_of_singleton.
      * split; [eauto |]. by intros [-> _].
    + intros [(s0 & Hs & Hi) Hne]. destruct (decide (c' = c)) as [->|Hcc].
      * assert (s0 = s) as -> by congruence. exists (s ∖ {[i]}).
        assert (i' ∈ s ∖ {[i]}) as Hin.
        { apply elem_of_difference. split; [done |]. intros ->%elem_of_singleton. by apply Hne. }
        split; [apply Hlook; left | done]. repeat (split; [done |]).
        intros E. rewrite E in Hin. by apply elem_of_empty in Hin.
      * exists s0. split; [apply Hlook; by right | done].
  - split; [| tauto]. intros (s & Hs & Hi). split; [eauto |]. intros [-> _]. congruence.
Qed.

Lemma lease_at_Some p m r :
  lm_ok m -> lease_at p m = Some r <-> byID m !! lr_id r = Some r /\ lr_path r = p.
Proof.
  intros O. unfold lease_at. split.
  - destruct (byPath m !! p) as [i|] eqn:Hp; [| done]. simpl. intros Hi.
    destruct (ok_path m O p i Hp) as (r' & Hr' & Hpath). assert (r' = r) as -> by congruence.
    by destruct (ok_id m O i r Hi) as [-> _].
  - intros [Hi <-]. destruct (ok_id m O _ _ Hi) as [_ ->]. done.
Qed.

Lemma lease_at_None p m : lm_ok m -> lease_at p m = None -> byPath m !! p = None.
Proof.
  intros O. unfold lease_at. destruct (byPath m !! p) as [i|] eqn:Hp; [| done]. simpl.
  destruct (ok_path m O p i Hp) as (r & -> & _). done.
Qed.

Section preserve.
Context (m : leaseManager) (O : lm_ok m).

Lemma removeLocked_byPath r :
  byID m !! lr_id r = Some r -> byPath (removeLocked r m) = delete (lr_path r) (byPath m).
Proof using O.
  intros Hr. simpl. destruct (ok_id m O _ _ Hr) as [_ Hp]. by rewrite decide_True.
Qed.

Lemma ok_remove r : byID m !! lr_id r = Some r -> lm_ok (removeLocked r m).
Proof using O.
  intros Hr. pose proof (removeLocked_byPath r Hr) as Hbp. split.
  - rewrite Hbp. intros p i [Hne Hp]%lookup_delete_Some.
    destruct (ok_path m O p i Hp) as (s & Hs & Hsp). exists s. split; [| done]. simpl.
    rewrite lookup_delete_ne; [done |]. intros <-. congruence.
  - rewrite Hbp. simpl. intros i s [Hne Hs]%lookup_delete_Some.
    destruct (ok_id m O i s Hs) as [Hid Hp]. split; [done |].
    rewrite lookup_delete_ne; [done |]. intros Heq.
    destruct (ok_id m O _ _ Hr) as [_ Hp']. congruence.
  - intros c i. simpl. rewrite conn_mem_del, (ok_conn m O). split.
    + intros [[Hc (s & Hs & Hsc)] Hne]. split; [done |]. exists s. split; [| done].
      rewrite lookup_delete_ne; [done |]. intros <-. apply Hne. split; [congruence | done].
    + intros [Hc (s & [Hne Hs]%lookup_delete_Some & Hsc)]. split; [eauto |].
      intros [_ ->]. done.
Qed.

Lemma ok_install cfg now fresh holder c p mode :
  byID m !! fresh = None -> byPath m !! p = None -> c <> 0 ->
  lm_ok (installLocked cfg now fresh holder c p mode m).
Proof using O.
  intros Hf Hp Hc. split; simpl.
  - intros q i [[<- <-]|[Hne Hq]]%lookup_insert_Some.
    + eexists. by rewrite lookup_insert_eq.
    + destruct (ok_path m O q i Hq) as (s & Hs & Hsp). exists s. split; [| done].
      rewrite lookup_insert_ne; [done | congruence].
  - intros i s [[<- <-]|[Hne Hs]]%lookup_insert_Some; simpl.
    + by rewrite lookup_insert_eq.
    + destruct (ok_id m O i s Hs) as [Hid Hsp]. split; [done |].
      rewrite lookup_insert_ne; [done | congruence].
  - intros c' i. rewrite conn_mem_add, (ok_conn m O). split.
    + intros [[-> ->]|[Hc' (s & Hs & Hsc)]].
      * split; [done |]. eexists. by rewrite lookup_insert_eq.
      * split; [done |]. exists s. split; [| done]. rewrite lookup_insert_ne; [done | congruence].
    + intros [Hc' (s & [[<- <-]|[Hne Hs]]%lookup_insert_Some & Hsc)].
      * left. by simpl in Hsc.
      * right. eauto.
Qed.

(** A record that keeps its id and path may be rewritten, with its connection
    moved in [byConn]. *)
Lemma ok_rewrite r r' b :
  byID m !! lr_id r = Some r -> lr_id r' = lr_id r -> lr_path r' = lr_path r ->
  (forall c i, conn_mem c i b <->
     (i = lr_id r /\ c = lr_connID r' /\ c <> 0) \/ (i <> lr_id r /\ conn_mem c i (byConn m))) ->
  lm_ok (mkLM (byPath m) (<[lr_id r := r']> (byID m)) b).
Proof using O.
  intros Hr Hid Hpath Hb. destruct (ok_id m O _ _ Hr) as [_ Hrp]. split; simpl.
  - intros q i Hq. destruct (ok_path m O q i Hq) as (s & Hs & Hsp).
    destruct (decide (i = lr_id r)) as [->|Hne].
    + exists r'. rewrite lookup_insert_eq. split; [done |]. congruence.
    + exists s. by rewrite lookup_insert_ne.
  - intros i s [[<- <-]|[Hne Hs]]%lookup_insert_Some.
    + by rewrite Hid, Hpath.
    + by apply (ok_id m O).
  - intros c i. rewrite Hb, (ok_conn m O). split.
    + intros [(-> & -> & Hc)|(Hne & Hc & s & Hs & Hsc)].
      * split; [done |]. exists r'. by rewrite lookup_insert_eq.
      * split; [done |]. exists s. by rewrite lookup_insert_ne.
    + intros [Hc (s & [[<- <-]|[Hne Hs]]%lookup_insert_Some & Hsc)]; [left; auto |].
      right. eauto 10.
Qed.

Lemma ok_update r r' :
  byID m !! lr_id r = Some r -> lr_id r' = lr_id r -> lr_path r' = lr_path r ->
  lr_connID r' = lr_connID r -> lm_ok (update_rec r' m).
Proof using O.
  intros Hr Hid Hpath Hc. unfold update_rec. rewrite Hid.
  apply ok_rewrite; [done | done | done |]. intros c i. split.
  - intros Hm. destruct (decide (i = lr_id r)) as [->|Hne]; [| by right].
    left. apply (ok_conn m O) in Hm as (Hc0 & s & Hs & <-).
    split; [done |]. split; [congruence | done].
  - intros [(-> & -> & Hc0)|[_ ?]]; [| done]. apply (ok_conn m O). split; [done |].
    exists r. auto.
Qed.

Lemma ok_move r r' c :
  byID m !! lr_id r = Some r -> lr_id r' = lr_id r -> lr_path r' = lr_path r ->
  lr_connID r' = c -> c <> 0 ->
  lm_ok (mkLM (byPath m) (<[lr_id r := r']> (byID m))
           (conn_add c (lr_id r) (conn_del (lr_connID r) (lr_id r) (byConn m)))).
Proof using O.
  intros Hr Hid Hpath Hc Hc0. apply ok_rewrite; [done | done | done |].
  intros c' i. rewrite conn_mem_add, conn_mem_del. split.
  - intros [[-> ->]|[Hm Hne]]; [left; auto |].
    destruct (decide (i = lr_id r)) as [->|?]; [| by right]. exfalso.
    apply (ok_conn m O) in Hm as (_ & s & Hs & Hsc). apply Hne. split; [congruence | done].
  - intros [(-> & -> & _)|[Hne Hm]]; [left; by split |]. right. split; [done |]. by intros [_ ->].
Qed.

(** A lease without a live connection is bound to one. *)
Lemma ok_bind r r' c :
  byID m !! lr_id r = Some r -> lr_id r' = lr_id r -> lr_path r' = lr_path r ->
  lr_connID r = 0 -> lr_connID r' = c -> c <> 0 ->
  lm_ok (mkLM (byPath m) (<[lr_id r := r']> (byID m)) (conn_add c (lr_id r) (byConn m))).
Proof using O.
  intros Hr Hid Hpath H0 Hc Hc0. apply ok_rewrite; [done | done | done |].
  intros c' i. rewrite conn_mem_add. split.
  - intros [[-> ->]|Hm]; [left; auto |].
    destruct (decide (i = lr_id r)) as [->|?]; [| by right]. exfalso.
    apply (ok_conn m O) in Hm as (Hne & s & Hs & Hsc). congruence.
  - intros [(-> & -> & _)|[Hne Hm]]; [left; by split | by right].
Qed.
End preserve.

Lemma remove_all_spec rs m :
  lm_ok m -> (forall r, r ∈ rs -> byID m !! lr_id r = Some r) -> NoDup (lr_id <$> rs) ->
  lm_ok (remove_all rs m) /\
  forall i, byID (remove_all rs m) !! i = if decide (i ∈ lr_id <$> rs) then None else byID m !! i.
Proof.
  revert m. induction rs as [|r rs IH]; intros m O Hin Hnd; [done |].
  rewrite fmap_cons in Hnd. apply NoDup_cons in Hnd as [Hni Hnd].
  assert (byID m !! lr_id r = Some r) as Hr by (apply Hin; by left).
  destruct (IH (removeLocked r m) (ok_remove m O r Hr)) as [O' Hl]; [| done |].
  - intros s Hs. simpl. rewrite lookup_delete_ne; [apply Hin; by right |].
    intros E. apply Hni. rewrite E. by apply list_elem_of_fmap_2.
  - split; [done |]. intros i. rewrite fmap_cons.
    change (remove_all (r :: rs) m) with (remove_all rs (removeLocked r m)).
    rewrite Hl. cbn [byID removeLocked].
    destruct (decide (i ∈ lr_id r :: (lr_id <$> rs))) as [Hi|Hi];
      destruct (decide (i ∈ lr_id <$> rs)) as [Hi'|Hi']; try done.
    + apply elem_of_cons in Hi as [->|?]; [by rewrite lookup_delete_eq | done].
    + destruct Hi. by right.
    + rewrite lookup_delete_ne; [done |]. intros <-. apply Hi. by left.
Qed.

Lemma expired_in now m r :
  lm_ok m -> r ∈ expired now m <->
  byID m !! lr_id r = Some r /\ lr_revoking r = false /\ lr_expiresAt r <= now.
Proof.
  intros O. unfold expired. rewrite list_elem_of_filter, list_elem_of_fmap. split.
  - intros [[H1 H2] ([i s] & -> & Hin)]. apply elem_of_map_to_list in Hin. simpl in *.
    by destruct (ok_id m O i s Hin) as [-> _].
  - intros (Hr & H1 & H2). split; [done |]. exists (lr_id r, r).
    by rewrite elem_of_map_to_list.
Qed.

Lemma byID_ids_NoDup m : lm_ok m -> NoDup (lr_id <$> (map_to_list (byID m)).*2).
Proof.
  intros O. rewrite <- list_fmap_compose.
  rewrite (list_fmap_ext _ fst) by (intros j [i r] Hj;
    apply list_elem_of_lookup_2, elem_of_map_to_list in Hj; by apply (ok_id m O)).
  apply NoDup_fst_map_to_list.
Qed.

Lemma SweepExpired_spec now m :
  lm_ok m -> lm_ok (SweepExpired now m).2 /\
  forall i r, byID (SweepExpired now m).2 !! i = Some r <->
    byID m !! i = Some r /\ ~ (lr_revoking r = false /\ lr_expiresAt r <= now).
Proof.
  intros O. destruct (remove_all_spec (expired now m) m O) as [O' Hl].
  - intros r Hr. by apply expired_in in Hr as [? _].
  - unfold expired. apply NoDup_fmap_filter. by apply byID_ids_NoDup.
  - split; [done |]. intros i r. simpl. rewrite Hl. case_decide as Hi.
    + split; [done |]. intros [Hr Hne]. exfalso.
      apply list_elem_of_fmap in Hi as (s & -> & Hs). apply expired_in in Hs as (Hs & ? & ?); [| done].
      assert (s = r) as -> by congruence. by apply Hne.
    + split; [| by intros [? _]]. intros Hr. split; [done |]. intros [H1 H2]. apply Hi.
      destruct (ok_id m O i r Hr) as [<- _]. apply list_elem_of_fmap_2. by apply expired_in.
Qed.

Lemma ReleaseAllForConn_spec c m :
  lm_ok m -> lm_ok (ReleaseAllForConn c m) /\
  forall i r, byID (ReleaseAllForConn c m) !! i = Some r <->
    byID m !! i = Some r /\ (c = 0 \/ lr_connID r <> c).
Proof.
  intros O.
  assert (forall r, r ∈ leases_of_conn c m <->
    byID m !! lr_id r = Some r /\ c <> 0 /\ lr_connID r = c) as Hin.
  { intros r. unfold leases_of_conn. rewrite list_elem_of_omap. split.
    - intros (i & Hi & Hr). apply elem_of_elements in Hi.
      assert (conn_mem c i (byConn m)) as Hm.
      { unfold conn_mem. destruct (byConn m !! c) as [s|]; [by exists s |].
        by apply elem_of_empty in Hi. }
      apply (ok_conn m O) in Hm as (Hc & s & Hs & Hsc). assert (s = r) as -> by congruence.
      by destruct (ok_id m O i r Hr) as [-> _].
    - intros (Hr & Hc & Hrc). exists (lr_id r). split; [| done]. apply elem_of_elements.
      assert (conn_mem c (lr_id r) (byConn m)) as (s & Hs & Hi)
        by (apply (ok_conn m O); eauto). by rewrite Hs. }
  assert (NoDup (lr_id <$> leases_of_conn c m)) as Hnd.
  { unfold leases_of_conn.
    generalize (NoDup_elements (default ∅ (byConn m !! c))).
    generalize (elements (default ∅ (byConn m !! c))) as l. clear Hin.
    induction l as [|i l IH]; intros Hn; [constructor |].
    apply NoDup_cons in Hn as [Hni Hn]. simpl. destruct (byID m !! i) as [r|] eqn:Hr; [| by apply IH].
    rewrite fmap_cons. constructor; [| by apply IH].
    intros (s & Hs & Hin)%list_elem_of_fmap. apply list_elem_of_omap in Hin as (j & Hj & Hjs).
    destruct (ok_id m O i r Hr) as [Hri _]. destruct (ok_id m O j s Hjs) as [Hsj _].
    apply Hni. congruence. }
  destruct (remove_all_spec (leases_of_conn c m) m O) as [O' Hl]; [| done |].
  - intros r Hr. by apply Hin in Hr as [? _].
  - split; [done |]. intros i r. unfold ReleaseAllForConn. rewrite Hl. case_decide as Hi.
    + split; [done |]. intros [Hr Hne]. apply list_elem_of_fmap in Hi as (s & -> & Hs).
      apply Hin in Hs as (Hs & Hc & Hsc). assert (s = r) as -> by congruence. by destruct Hne.
    + split; [| by intros [? _]]. intros Hr. split; [done |].
      destruct (decide (c = 0)) as [?|Hc]; [by left |]. right. intros Hrc. apply Hi.
      destruct (ok_id m O i r Hr) as [<- _]. apply list_elem_of_fmap_2. by apply Hin.
Qed.

Lemma conn_may_spec r c : conn_may r c = true <-> lr_connID r = c \/ lr_connID r = 0.
Proof. unfold conn_may. rewrite orb_true_iff, !Z.eqb_eq. done. Qed.

(** Every critical section keeps the invariant. *)
Lemma lstep_ok cfg m m' : lm_ok m -> lstep cfg m m' -> lm_ok m'.
Proof.
  intros O [now req p | p i | now fresh holder c p mode Hf Hc | now i holder c Hc
    | now i c | i c | now | c].
  - unfold yieldLocked. destruct (lease_at p m) as [r|] eqn:Hr; [| done].
    apply (lease_at_Some p m r O) in Hr as [Hr _].
    repeat case_match; try done. by apply (ok_update m O r).
  - unfold evictLocked. destruct (lease_at p m) as [r|] eqn:Hr; [| done].
    apply (lease_at_Some p m r O) in Hr as [Hr _]. case_decide; [by apply ok_remove | done].
  - unfold grantLocked. destruct (lease_at p m) as [r|] eqn:Hr.
    + apply (lease_at_Some p m r O) in Hr as [Hr Hp].
      case_decide as H1; [| done]. case_decide as H2; simpl.
      * case_decide as H3; [apply (ok_update m O r); auto |].
        assert (lr_connID r = 0) as H0 by tauto.
        by apply (ok_bind m O r).
      * apply ok_install; [by apply ok_remove | | | done].
        -- simpl. rewrite lookup_delete_ne; [done |]. intros E. rewrite E in Hr. congruence.
        -- rewrite (removeLocked_byPath m O r Hr), Hp. apply lookup_delete_eq.
    + apply ok_install; [done | done | by apply lease_at_None | done].
  - unfold AuthorizeOrRebindSession. destruct (byID m !! i) as [r|] eqn:Hr; [| done].
    destruct (ok_id m O i r Hr) as [<- _].
    case_decide; [done |]. repeat (case_match; [done |]). by apply (ok_move m O r).
  - unfold Refresh. case_decide; [done |]. destruct (byID m !! i) as [r|] eqn:Hr; [| done].
    destruct (ok_id m O i r Hr) as [<- _]. destruct (conn_may r c); [| done].
    by apply (ok_update m O r).
  - unfold Release. case_decide; [done |]. destruct (byID m !! i) as [r|] eqn:Hr; [| done].
    destruct (ok_id m O i r Hr) as [<- _]. destruct (conn_may r c); [| done]. by apply ok_remove.
  - by apply SweepExpired_spec.
  - by apply ReleaseAllForConn_spec.
Qed.
