(* ===== verification/LeaseProps.v ===== *)
(** * Properties of leases and mount sessions *)

From S2P Require Import Prelude GoPath Codec TenantDB Journal Manifests Lease.

(** ** Exclusion *)

Lemma newLeaseManager_ok : lm_ok newLeaseManager.
Proof.
  split; simpl; [by intros ? ?; rewrite lookup_empty | by intros ? ?; rewrite lookup_empty |].
  intros c i. split.
  - intros (s & Hs & _). by rewrite lookup_empty in Hs.
  - intros [_ (r & Hr & _)]. by rewrite lookup_empty in Hr.
Qed.

Lemma rtc_lstep_ok cfg m m' : lm_ok m -> rtc (lstep cfg) m m' -> lm_ok m'.
Proof. intros O H. revert O. induction H; eauto using lstep_ok. Qed.

Definition cfg0 : leaseConfig := mkLeaseConfig 60 10 30.
Definition id0 : leaseID := replicate 16 171.
Definition id1 : leaseID := replicate 16 205.
Definition lm0 : leaseManager :=
  (grantLocked cfg0 100 id0 (str "A") 1 (str "/A") LeaseExclusiveWrite newLeaseManager).2.

Lemma lm0_reachable : rtc (lstep cfg0) newLeaseManager lm0.
Proof. eapply rtc_once. by apply ls_grant. Qed.

Lemma lm0_byID :
  byID lm0 = {[ id0 := mkLease id0 (str "/A") LeaseExclusiveWrite (str "A") 1 100 160 false ]}.
Proof. reflexivity. Qed.

(** ** Takeover *)

Lemma byID_takeover cfg now fresh h c p mode m r :
  lm_ok m -> lease_at p m = Some r -> lr_holder r = h -> lr_mode r = mode ->
  lr_connID r <> c -> lr_connID r <> 0 ->
  grantLocked cfg now fresh h c p mode m =
  (Some (mkGrant fresh (now + ttl cfg) mode),
   installLocked cfg now fresh h c p mode (removeLocked r m)).
Proof.
  intros O Hr Hh Hm Hc H0. unfold grantLocked. rewrite Hr.
  rewrite decide_True by done. by rewrite decide_False by tauto.
Qed.

(** When the same agent is granted its lease again on a new connection, the
    old lease id is dead: the old connection can neither release, refresh nor
    write with it, and closing the old connection leaves the new lease in
    place. *)
Theorem takeover_supersedes cfg now fresh h c p mode m r c' :
  lm_ok m -> lease_at p m = Some r -> lr_holder r = h -> lr_mode r = mode ->
  lr_connID r <> c -> lr_connID r <> 0 -> c <> 0 -> byID m !! fresh = None ->
  let m' := (grantLocked cfg now fresh h c p mode m).2 in
  (exists r', lease_at p m' = Some r' /\ lr_id r' = fresh /\ lr_connID r' = c /\ lr_holder r' = h) /\
  Release (lr_id r) c' m' = (Err errLeaseUnknown, m') /\
  Refresh cfg now (lr_id r) c' m' = (Err errLeaseUnknown, m') /\
  (forall h', AuthorizeOrRebindSession now (lr_id r) h' c' m' = ((false, false), m')) /\
  lease_at p (ReleaseAllForConn (lr_connID r) m') = lease_at p m'.
Proof.
  intros O Hr Hh Hm Hc H0 Hc0 Hf m'.
  assert (lm_ok m') as O' by (eapply lstep_ok; [exact O | by apply ls_grant]).
  pose proof (proj1 (lease_at_Some p m r O) Hr) as [Hbr Hp].
  assert (m' = installLocked cfg now fresh h c p mode (removeLocked r m)) as Hm'
    by (unfold m'; by rewrite (byID_takeover _ _ _ _ _ _ _ _ r)).
  assert (lr_id r <> fresh) as Hne by congruence.
  assert (byID m' !! lr_id r = None) as Hdead.
  { rewrite Hm'. simpl. by rewrite lookup_insert_ne, lookup_delete_eq. }
  set (r' := mkLease fresh p mode h c now (now + ttl cfg) false).
  assert (byID m' !! fresh = Some r') as Hnew by (rewrite Hm'; simpl; by rewrite lookup_insert_eq).
  assert (lease_at p m' = Some r') as Hat by by apply (lease_at_Some p m' r' O').
  split; [by exists r' |]. unfold Release, Refresh, AuthorizeOrRebindSession. rewrite Hdead.
  split; [by case_decide |]. split; [by case_decide |]. split; [done |].
  rewrite Hat. destruct (ReleaseAllForConn_spec (lr_connID r) m' O') as [O'' Hspec].
  apply (lease_at_Some p _ r' O''). split; [| done]. apply Hspec. split; [done |].
  right. simpl. congruence.
Qed.

Lemma takeover_supersedes_witness :
  let m' := (grantLocked cfg0 200 id1 (str "A") 2 (str "/A") LeaseExclusiveWrite lm0).2 in
  Release id0 1 m' = (Err errLeaseUnknown, m').
Proof.
  refine (proj1 (proj2 (takeover_supersedes cfg0 200 id1 (str "A") 2 (str "/A") LeaseExclusiveWrite lm0
    (mkLease id0 (str "/A") LeaseExclusiveWrite (str "A") 1 100 160 false) 1 _ _ _ _ _ _ _ _))).
  - exact (rtc_lstep_ok _ _ _ newLeaseManager_ok lm0_reachable).
  - vm_compute. reflexivity.
  - reflexivity.
  - reflexivity.
  - discriminate.
  - discriminate.
  - discriminate.
  - vm_compute. reflexivity.
Defined.

(** ** Reconnects *)

(** A session that authorizes on a connection is bound to it: cleaning up an
    earlier connection does not release it, and a delayed request of an earlier
    connection is refused and changes nothing. *)
Theorem rebind_moves_forward now id h c m b m' :
  lm_ok m -> c <> 0 -> AuthorizeOrRebindSession now id h c m = ((true, b), m') ->
  exists r, byID m' !! id = Some r /\ lr_connID r = c /\ lr_holder r = h /\
    (forall c0, c0 <> c -> byID (ReleaseAllForConn c0 m') !! id = Some r) /\
    (forall c0 now', c0 < c -> AuthorizeOrRebindSession now' id h c0 m' = ((false, false), m')) /\
    (b = true -> exists r0, byID m !! id = Some r0 /\ lr_connID r0 < c).
Proof.
  intros O Hc Ha.
  assert (lm_ok m') as O'.
  { replace m' with (AuthorizeOrRebindSession now id h c m).2 by by rewrite Ha.
    eapply (lstep_ok cfg0); [exact O | by apply ls_rebind]. }
  assert (exists r, byID m' !! id = Some r /\ lr_connID r = c /\ lr_holder r = h /\
    (b = true -> exists r0, byID m !! id = Some r0 /\ lr_connID r0 < c)) as (r & Hr & Hrc & Hrh & Hb).
  { unfold AuthorizeOrRebindSession in Ha. destruct (byID m !! id) as [r|] eqn:Hr; [| done].
    case_decide as Hh; [done |].
    destruct (negb _ || _); [done |]. destruct (Z.eqb_spec (lr_connID r) c).
    - simplify_eq. by exists r.
    - destruct (Z.ltb_spec c (lr_connID r)); [done |]. simplify_eq.
      destruct (ok_id m O id r Hr) as [Hid _]. exists (with_conn c r). simpl.
      rewrite Hid, lookup_insert_eq. repeat split. intros _. exists r. split; [done | lia]. }
  exists r. repeat (split; [done |]). split; [| split; [| done]].
  - intros c0 Hne. apply (ReleaseAllForConn_spec c0 m' O'). split; [done |]. right. congruence.
  - intros c0 now' Hlt. unfold AuthorizeOrRebindSession. rewrite Hr, Hrc.
    case_decide; [done |]. destruct (negb _ || _); [done |].
    replace (c =? c0) with false by lia. by replace (c0 <? c) with true by lia.
Qed.

Lemma rebind_moves_forward_witness :
  exists r, byID (AuthorizeOrRebindSession 120 id0 (str "A") 5 lm0).2 !! id0 = Some r /\
    lr_connID r = 5.
Proof.
  destruct (rebind_moves_forward 120 id0 (str "A") 5 lm0 true
    (AuthorizeOrRebindSession 120 id0 (str "A") 5 lm0).2) as (r & H1 & H2 & _).
  - exact (rtc_lstep_ok _ _ _ newLeaseManager_ok lm0_reachable).
  - discriminate.
  - vm_compute. reflexivity.
  - exists r. split; [exact H1 | exact H2].
Defined.

(** ** Granting *)

(** [Grant] returns on a free path, and on a path the agent itself holds in
    the same mode, with a lease of that path bound to its connection; on a path
    another agent was granted less than [minHold] ago it is refused and nothing
    changes. *)
Theorem Grant_returns cfg now fresh h c p mode m fuel :
  lm_ok m -> c <> 0 -> byID m !! fresh = None ->
  match lease_at p m with
  | None => True
  | Some r => if decide (lr_holder r = h) then lr_mode r = mode
              else now - lr_grantedAt r < minHold cfg
  end ->
  exists o m', Grant (S fuel) cfg now fresh h c p mode m = Some (o, m') /\
  match o with
  | GrantOk g => exists r, lease_at p m' = Some r /\ lr_id r = lg_LeaseID g /\
                   lr_holder r = h /\ lr_connID r = c /\ lr_mode r = mode /\
                   lr_expiresAt r = now + ttl cfg
  | GrantHeld => m' = m /\ exists r, lease_at p m = Some r /\ lr_holder r <> h
  | GrantBlocked _ => False
  end.
Proof.
  intros O Hc Hf Hpre. cbn [Grant].
  assert (lm_ok (grantLocked cfg now fresh h c p mode m).2) as O'
    by (eapply lstep_ok; [exact O | by apply ls_grant]).
  unfold yieldLocked. destruct (lease_at p m) as [r|] eqn:Hr.
  - destruct (decide (lr_holder r = h)) as [Hh|Hh].
    + pose proof (proj1 (lease_at_Some p m r O) Hr) as [Hbr Hp].
      unfold grantLocked in *. rewrite Hr in *. rewrite decide_True in * by done.
      destruct (decide (lr_connID r = c \/ lr_connID r = 0)) as [Hcc|Hcc]; simpl in *.
      * do 2 eexists. split; [done |]. simpl.
        exists (with_expiry (now + ttl cfg) (with_conn c r)). split; [| done].
        apply (lease_at_Some p _ _ O'). split; [| done].
        by case_decide; simpl; rewrite lookup_insert_eq.
      * do 2 eexists. split; [done |]. simpl.
        exists (mkLease fresh p mode h c now (now + ttl cfg) false). split; [| done].
        apply (lease_at_Some p _ _ O'). by simpl; rewrite lookup_insert_eq.
    + replace (now - lr_grantedAt r <? minHold cfg) with true by lia.
      do 2 eexists. split; [done |]. split; [done | by exists r].
  - unfold grantLocked in *. rewrite Hr in *. simpl in *. do 2 eexists. split; [done |]. simpl.
    exists (mkLease fresh p mode h c now (now + ttl cfg) false). split; [| done].
    apply (lease_at_Some p _ _ O'). by simpl; rewrite lookup_insert_eq.
Qed.

Lemma Grant_returns_witness :
  exists o m', Grant 1 cfg0 105 id1 (str "B") 2 (str "/A") LeaseExclusiveWrite lm0 = Some (o, m').
Proof.
  destruct (Grant_returns cfg0 105 id1 (str "B") 2 (str "/A") LeaseExclusiveWrite lm0 0)
    as (o & m' & H & _).
  - exact (rtc_lstep_ok _ _ _ newLeaseManager_ok lm0_reachable).
  - discriminate.
  - vm_compute. reflexivity.
  - vm_compute. reflexivity.
  - exists o, m'. exact H.
Defined.

(** An agent that asks for a lease it already holds in the other mode never
    gets an answer: the loop of [Grant] retries for ever without blocking. *)
Theorem Grant_other_mode_spins cfg now fresh h c p mode m r :
  lease_at p m = Some r -> lr_holder r = h -> lr_mode r <> mode ->
  forall fuel, Grant fuel cfg now fresh h c p mode m = None.
Proof.
  intros Hr Hh Hm fuel. induction fuel as [|fuel IH]; [done |]. cbn [Grant].
  unfold yieldLocked. rewrite Hr, decide_True by done.
  unfold grantLocked. rewrite Hr, decide_False by (intros [_ ?]; done). exact IH.
Qed.

Lemma Grant_other_mode_spins_witness :
  Grant 1000 cfg0 105 id1 (str "A") 1 (str "/A") LeaseSharedRead lm0 = None.
Proof.
  refine (Grant_other_mode_spins cfg0 105 id1 (str "A") 1 (str "/A") LeaseSharedRead lm0
    (mkLease id0 (str "/A") LeaseExclusiveWrite (str "A") 1 100 160 false) _ _ _ 1000).
  - vm_compute. reflexivity.
  - reflexivity.
  - discriminate.
Defined.

(** ** Snapshot and restore *)

Definition restored (r : leaseRecord) : leaseRecord :=
  mkLease (lr_id r) (lr_path r) (lr_mode r) (lr_holder r) 0
    (FromUnixMilli (UnixMilli (lr_grantedAt r))) (FromUnixMilli (UnixMilli (lr_expiresAt r))) false.

Lemma restore_row_of r m :
  restore_row (row_of r) m =
  mkLM (<[lr_path r := lr_id r]> (byPath m)) (<[lr_id r := restored r]> (byID m)) (byConn m).
Proof. done. Qed.

Lemma restore_rows_ok rs m :
  lm_ok m -> (forall i r, byID m !! i = Some r -> lr_connID r = 0) ->
  Forall (fun r => length (lr_id r) = 16%nat) rs ->
  NoDup (lr_id <$> rs) -> NoDup (lr_path <$> rs) ->
  (forall r, r ∈ rs -> byID m !! lr_id r = None /\ byPath m !! lr_path r = None) ->
  exists m', restore_rows (row_of <$> rs) m = Some m' /\ lm_ok m' /\
    (forall i r, byID m' !! i = Some r -> lr_connID r = 0) /\
    forall i r', byID m' !! i = Some r' <->
      byID m !! i = Some r' \/ exists r, r ∈ rs /\ lr_id r = i /\ r' = restored r.
Proof.
  revert m. induction rs as [|r rs IH]; intros m O Hz Hl Hni Hnp Hfree.
  { exists m. repeat (split; [done |]). intros i r'. split; [by left |].
    intros [?|(r & Hr & _)]; [done |]. by apply elem_of_nil in Hr. }
  apply Forall_cons in Hl as [Hlr Hl]. rewrite fmap_cons in Hni. rewrite fmap_cons in Hnp.
  apply NoDup_cons in Hni as [Hi Hni]. apply NoDup_cons in Hnp as [Hp Hnp].
  destruct (Hfree r) as [Hfi Hfp]; [by left |].
  rewrite fmap_cons. cbn [restore_rows]. rewrite decide_True by done. rewrite restore_row_of.
  set (m1 := mkLM _ _ _).
  assert (lm_ok m1) as O1.
  { split; simpl.
    - intros q i [[<- <-]|[Hne Hq]]%lookup_insert_Some.
      + eexists. by rewrite lookup_insert_eq.
      + destruct (ok_path m O q i Hq) as (s & Hs & Hsp). exists s. split; [| done].
        rewrite lookup_insert_ne; [done | congruence].
    - intros i s [[<- <-]|[Hne Hs]]%lookup_insert_Some; simpl.
      + by rewrite lookup_insert_eq.
      + destruct (ok_id m O i s Hs) as [Hid Hsp]. split; [done |].
        rewrite lookup_insert_ne; [done | congruence].
    - intros c i. rewrite (ok_conn m O). split.
      + intros [Hc (s & Hs & Hsc)]. by rewrite (Hz i s Hs) in Hsc.
      + intros [Hc (s & [[<- <-]|[Hne Hs]]%lookup_insert_Some & Hsc)]; [done |].
        by rewrite (Hz i s Hs) in Hsc. }
  destruct (IH m1 O1) as (m' & Hm' & O' & Hz' & Hspec); [| done | done | done | |].
  - intros i s. simpl. intros [[<- <-]|[Hne Hs]]%lookup_insert_Some; [done | by eapply Hz].
  - intros s Hs. destruct (Hfree s) as [Hsi Hsp]; [by right |]. simpl.
    rewrite !lookup_insert_ne; [done | |].
    + intros E. apply Hp. rewrite E. by apply list_elem_of_fmap_2.
    + intros E. apply Hi. rewrite E. by apply list_elem_of_fmap_2.
  - exists m'. repeat (split; [done |]). intros i r'. rewrite Hspec. simpl.
    rewrite lookup_insert_Some. split.
    + intros [[[<- <-]|[Hne Hr]]|(s & Hs & Hsi & ->)].
      * right. exists r. split; [by left | done].
      * by left.
      * right. exists s. split; [by right | done].
    + intros [Hr|(s & Hs & Hsi & ->)].
      * left. right. split; [| done]. intros <-. congruence.
      * apply elem_of_cons in Hs as [->|Hs]; [left; left; done |]. right. eauto.
Qed.

Lemma filter_fmap_rows (P : leaseRow -> Prop) `{!∀ x, Decision (P x)}
    (rs : list leaseRecord) :
  filter P (row_of <$> rs) = row_of <$> filter (fun r => P (row_of r)) rs.
Proof.
  induction rs as [|r rs IH]; [done |]. rewrite fmap_cons.
  destruct (decide (P (row_of r))).
  - by rewrite !filter_cons_True, fmap_cons, IH.
  - by rewrite !filter_cons_False, IH.
Qed.

(** A server restarted from a snapshot has exactly the leases that have not
    expired, each with its id, path, mode and holder, times truncated to
    milliseconds, not revoking, and bound to no connection until its holder
    returns. *)
Theorem snapshot_restore now m :
  lm_ok m -> (forall i r, byID m !! i = Some r -> length i = 16%nat) ->
  exists m', Restore now (Snapshot m) newLeaseManager = Some m' /\ lm_ok m' /\
    forall i r', byID m' !! i = Some r' <->
      exists r, byID m !! i = Some r /\ UnixMilli now < UnixMilli (lr_expiresAt r) /\
        r' = restored r.
Proof.
  intros O Hlen. unfold Restore, Snapshot. rewrite filter_fmap_rows.
  set (rs := filter _ _).
  assert (forall r, r ∈ rs <-> byID m !! lr_id r = Some r /\
    UnixMilli now < UnixMilli (lr_expiresAt r)) as Hin.
  { intros r. unfold rs. rewrite list_elem_of_filter, list_elem_of_fmap. split.
    - intros [Ht ([i s] & -> & Hs)]. apply elem_of_map_to_list in Hs. simpl in *.
      by destruct (ok_id m O i s Hs) as [-> _].
    - intros [Hr Ht]. split; [done |]. exists (lr_id r, r). by rewrite elem_of_map_to_list. }
  destruct (restore_rows_ok rs newLeaseManager newLeaseManager_ok)
    as (m' & Hm' & O' & _ & Hspec); [done | | | | |].
  - apply Forall_forall. intros r [Hr _]%Hin. by eapply Hlen.
  - unfold rs. apply NoDup_fmap_filter. by apply byID_ids_NoDup.
  - apply (NoDup_fmap_via lr_id).
    + unfold rs. apply NoDup_fmap_filter. by apply byID_ids_NoDup.
    + intros r s [Hr _]%Hin [Hs _]%Hin Hp.
      destruct (ok_id m O _ r Hr) as [_ H1], (ok_id m O _ s Hs) as [_ H2]. congruence.
  - done.
  - exists m'. split; [done |]. split; [done |]. intros i r'. rewrite Hspec. split.
    + intros [?|(r & Hr & <- & ->)]; [done |]. apply Hin in Hr as [Hr Ht]. eauto.
    + intros (r & Hr & Ht & ->). right. exists r.
      destruct (ok_id m O i r Hr) as [<- _]. split; [by apply Hin | done].
Qed.

Lemma snapshot_restore_witness :
  exists m', Restore 0 (Snapshot lm0) newLeaseManager = Some m'.
Proof.
  destruct (snapshot_restore 0 lm0) as (m' & H & _).
  - exact (rtc_lstep_ok _ _ _ newLeaseManager_ok lm0_reachable).
  - intros i r Hr. rewrite lm0_byID in Hr.
    apply lookup_singleton_Some in Hr as [<- _]. reflexivity.
  - exists m'. exact H.
Defined.

(** ** Exclusion, across restarts

    A tenant's lease manager with its [leases] table: requests run their critical
    sections, a shutdown may save the leases (or fail to), and a start fills a fresh
    manager from the rows of the last snapshot, however old.  A tenant whose restore
    fails is not opened. *)

Record leaseSystem := mkLS { ls_mem : leaseManager; ls_rows : list leaseRow }.

Inductive sstep (cfg : leaseConfig) : leaseSystem -> leaseSystem -> Prop :=
| ss_section m m' w : lstep cfg m m' -> sstep cfg (mkLS m w) (mkLS m' w)
| ss_snapshot m w : sstep cfg (mkLS m w) (mkLS m (Snapshot m))
| ss_restart now m m' w : Restore now w newLeaseManager = Some m' -> sstep cfg (mkLS m w) (mkLS m' w).

(** The saved rows are those of leases with distinct ids and paths. *)
Definition rows_ok (w : list leaseRow) : Prop :=
  exists rs, w = row_of <$> rs /\ NoDup (lr_id <$> rs) /\ NoDup (lr_path <$> rs).

Lemma Snapshot_rows_ok m : lm_ok m -> rows_ok (Snapshot m).
Proof.
  intros O. eexists. split; [reflexivity |]. split; [by apply byID_ids_NoDup |].
  apply (NoDup_fmap_via lr_id); [by apply byID_ids_NoDup |].
  assert (forall r, r ∈ (map_to_list (byID m)).*2 -> byID m !! lr_id r = Some r) as Hin.
  { intros r ([i s] & -> & Hs%elem_of_map_to_list)%list_elem_of_fmap. simpl in *.
    by destruct (ok_id m O i s Hs) as [-> _]. }
  intros r s Hr%Hin Hs%Hin Hp.
  destruct (ok_id m O _ r Hr) as [_ H1], (ok_id m O _ s Hs) as [_ H2]. congruence.
Qed.

Lemma restore_rows_length w m m' :
  restore_rows w m = Some m' -> Forall (fun x => length (lw_lease_id x) = 16%nat) w.
Proof.
  revert m. induction w as [|x w IH]; intros m; simpl; [constructor |].
  case_decide; [| done]. intros Hr%IH. by constructor.
Qed.

Lemma Restore_ok now w m' : rows_ok w -> Restore now w newLeaseManager = Some m' -> lm_ok m'.
Proof.
  intros (rs & -> & Hi & Hp). unfold Restore. rewrite filter_fmap_rows. intros H.
  pose proof (restore_rows_length _ _ _ H) as Hl. rewrite Forall_fmap in Hl.
  destruct (restore_rows_ok _ newLeaseManager newLeaseManager_ok ltac:(done) Hl
    (NoDup_fmap_filter _ _ _ Hi) (NoDup_fmap_filter _ _ _ Hp) ltac:(done)) as (m & Hm & O & _).
  congruence.
Qed.

Lemma sstep_ok cfg g g' :
  sstep cfg g g' -> lm_ok (ls_mem g) /\ rows_ok (ls_rows g) -> lm_ok (ls_mem g') /\ rows_ok (ls_rows g').
Proof.
  intros [m m' w S|m w|now m m' w R] [O W]; simpl in *.
  - split; [by eapply lstep_ok | done].
  - split; [done | by apply Snapshot_rows_ok].
  - split; [by eapply Restore_ok | done].
Qed.

(** The manager a restore gives, as an equation. *)
Lemma ss_restart_eq {A} (x : option A) (y : A) : is_Some x -> x = Some (default y x).
Proof. by intros [z ->]. Qed.

Definition ls_init : leaseSystem := mkLS newLeaseManager [].

Lemma rtc_sstep_ok cfg g : rtc (sstep cfg) ls_init g -> lm_ok (ls_mem g) /\ rows_ok (ls_rows g).
Proof.
  intros H. assert (lm_ok (ls_mem ls_init) /\ rows_ok (ls_rows ls_init)) as H0.
  { split; [apply newLeaseManager_ok |]. exists []. split; [done |]. split; constructor. }
  revert H0. induction H; eauto using sstep_ok.
Qed.

(** C4: whatever the interleaving of the critical sections of concurrent requests,
    snapshots, crashes and restarts from a snapshot, a path on which there is an
    exclusive-write lease has no other lease, exclusive or shared, of any holder; and
    the three indexes of the manager stay consistent. *)
Theorem lease_exclusion cfg g i j r s :
  rtc (sstep cfg) ls_init g ->
  byID (ls_mem g) !! i = Some r -> lr_mode r = LeaseExclusiveWrite ->
  byID (ls_mem g) !! j = Some s -> lr_path s = lr_path r ->
  i = j /\ r = s /\ lm_ok (ls_mem g).
Proof.
  intros [O _]%rtc_sstep_ok Hi _ Hj Hp.
  destruct (ok_id _ O i r Hi) as [_ H1], (ok_id _ O j s Hj) as [_ H2].
  assert (i = j) as -> by congruence. split; [done |]. split; [congruence | done].
Qed.

(** The lease of [A], saved at a shutdown and restored five seconds later. *)
Definition cfg_s : leaseConfig := mkLeaseConfig 60000000000 10 30.
Definition lm_s : leaseManager :=
  (grantLocked cfg_s 100 id0 (str "A") 1 (str "/A") LeaseExclusiveWrite newLeaseManager).2.
Definition ls_back : leaseSystem :=
  mkLS (default newLeaseManager (Restore 5000000000 (Snapshot lm_s) newLeaseManager)) (Snapshot lm_s).

Lemma ls_back_reached : rtc (sstep cfg_s) ls_init ls_back.
Proof.
  eapply rtc_l; [apply ss_section; by apply (ls_grant cfg_s newLeaseManager 100 id0 (str "A") 1 (str "/A") LeaseExclusiveWrite) |].
  eapply rtc_l; [apply ss_snapshot |]. apply rtc_once, (ss_restart cfg_s 5000000000).
  apply (ss_restart_eq _ newLeaseManager). vm_compute. eauto.
Qed.

Definition lease_back : leaseRecord := mkLease id0 (str "/A") LeaseExclusiveWrite (str "A") 0 0 60000000000 false.

Lemma lease_exclusion_witness : id0 = id0 /\ lease_back = lease_back /\ lm_ok (ls_mem ls_back).
Proof.
  apply (lease_exclusion cfg_s ls_back id0 id0 lease_back lease_back).
  - exact ls_back_reached.
  - vm_compute. reflexivity.
  - reflexivity.
  - vm_compute. reflexivity.
  - reflexivity.
Defined.

(** Shared leases exclude each other as well: while [A] holds a shared-read lease on
    a path, [B] gets none, where the design has many holders in this mode. *)
Theorem shared_readers_exclude :
  let m := (grantLocked cfg0 100 id0 (str "A") 1 (str "/A") LeaseSharedRead newLeaseManager).2 in
  Grant 1 cfg0 105 id1 (str "B") 2 (str "/A") LeaseSharedRead m = Some (GrantHeld, m) /\
  exists y m', Grant 1 cfg0 120 id1 (str "B") 2 (str "/A") LeaseSharedRead m = Some (GrantBlocked y, m').
Proof. split; [vm_compute; reflexivity | do 2 eexists; vm_compute; reflexivity]. Qed.

(** ** The session fence *)

(** C33: a write passes the fence only if it names no session, and then nothing
    changes (such a write is checked against no lease), or if the session it names is
    the id, as it spells it, of a lease its agent holds, live and bound to this
    connection, and that spelling is then the allocation's active session and is not
    fenced (the same id spelled in upper case is another session:
    [fence_bypass_upper_case]). *)
Theorem fence_sound now agent c sid alloc m reg lx m' reg' :
  lm_ok m -> c <> 0 ->
  checkSessionFence now agent c sid alloc m reg = (Some lx, m', reg') ->
  (sid = [] /\ lx = [] /\ m' = m /\ reg' = reg) \/
  exists id r, sid = sessionMountPrefix ++ lx /\ decodeLeaseHex lx = Some id /\
    byID m' !! id = Some r /\ lr_holder r = agent /\ lr_connID r = c /\
    lr_revoking r = false /\ now < lr_expiresAt r /\
    registryGet alloc reg' = lx /\
    lx ∉ default ∅ (al_fenced <$> reg' !! alloc).
Proof.
  intros O Hc Hf. unfold checkSessionFence in Hf.
  destruct (decide (sid = [])) as [->|Hs]; [injection Hf as <- <- <-; by left |]. right.
  destruct (HasPrefix sid sessionMountPrefix) eqn:Hpre; [| done].
  destruct (_ || _); [done |].
  set (hx := drop (length sessionMountPrefix) sid) in *.
  destruct (decodeLeaseHex hx) as [id|] eqn:Hid; [| done].
  destruct (AuthorizeOrRebindSession now id agent c m) as [[[] b] m1] eqn:Ha; [| done].
  unfold Install in Hf. destruct (decide (alloc = [] \/ hx = [])) as [?|Hne]; [done |].
  destruct (decide (hx ∈ al_fenced _)) as [?|Hnf]; [done |]. injection Hf as <- <- <-.
  assert (exists r, byID m1 !! id = Some r /\ lr_holder r = agent /\ lr_connID r = c /\
    lr_revoking r = false /\ now < lr_expiresAt r) as (r & Hr & Hh & Hrc & Hrv & Hex).
  { unfold AuthorizeOrRebindSession in Ha. destruct (byID m !! id) as [r|] eqn:Hr; [| done].
    case_decide as Hh; [done |].
    destruct (negb (now <? lr_expiresAt r) || lr_revoking r) eqn:Hex; [done |].
    apply orb_false_iff in Hex as [Hex Hrv]. apply negb_false_iff, Z.ltb_lt in Hex.
    destruct (Z.eqb_spec (lr_connID r) c).
    - simplify_eq. by exists r.
    - destruct (c <? lr_connID r); [done |]. simplify_eq.
      destruct (ok_id m O id r Hr) as [Hri _]. exists (with_conn c r). simpl.
      by rewrite Hri, lookup_insert_eq. }
  exists id, r. unfold HasPrefix in Hpre. apply bool_decide_eq_true in Hpre as [t Ht].
  assert (hx = t) as Htx by (unfold hx; by rewrite Ht, drop_app_length).
  split; [by rewrite Htx |]. split; [done |]. repeat (split; [done |]).
  unfold registryGet. rewrite decide_False by tauto. rewrite lookup_insert_eq. simpl.
  split; done.
Qed.

(** The session of [A] on its first connection. *)
Definition hex0 : gostr := hex_encode id0.
Definition fence0 := checkSessionFence 120 (str "A") 1 (sessionMountPrefix ++ hex0) (str "al") lm0 ∅.

Lemma fence_sound_witness :
  exists id r, byID (fence0.1.2) !! id = Some r /\ lr_holder r = str "A".
Proof.
  destruct (fence_sound 120 (str "A") 1 (sessionMountPrefix ++ hex0) (str "al") lm0 ∅
    hex0 fence0.1.2 fence0.2) as [(H & _)|(id & r & _ & _ & H & Hh & _)].
  - exact (rtc_lstep_ok _ _ _ newLeaseManager_ok lm0_reachable).
  - discriminate.
  - vm_compute. reflexivity.
  - discriminate H.
  - exists id, r. split; [exact H | exact Hh].
Defined.

(** A request on the registry. *)
Inductive rstep (r : mountLeaseRegistry) : mountLeaseRegistry -> Prop :=
| rs_install a hx : rstep r (Install a hx r).2
| rs_clear a : rstep r (Clear a r).

Definition fenced_in (alloc hx : gostr) (r : mountLeaseRegistry) : Prop :=
  exists st, r !! alloc = Some st /\ hx ∈ al_fenced st.

Lemma rstep_fenced alloc hx r r' : fenced_in alloc hx r -> rstep r r' -> fenced_in alloc hx r'.
Proof.
  intros (st & Hst & Hin) [a h | a]; unfold fenced_in.
  - unfold Install. case_decide; [by exists st |].
    destruct (decide (a = alloc)) as [->|Hne].
    + rewrite Hst. simpl. case_decide; simpl; rewrite lookup_insert_eq; eauto.
    + case_decide; simpl; rewrite lookup_insert_ne by done; eauto.
  - unfold Clear. case_decide; [by exists st |].
    destruct (r !! a) as [sa|] eqn:Ha; [| by exists st]. case_decide; [by exists st |].
    destruct (decide (a = alloc)) as [->|Hne].
    + rewrite lookup_insert_eq. eexists. split; [done |]. simpl.
      apply elem_of_union_r. congruence.
    + rewrite lookup_insert_ne by done. eauto.
Qed.

(** After a revoke the session that was active for the allocation is refused
    for ever: whatever sessions are installed or cleared later, a write with
    that session id does not pass the fence of the allocation. *)
Theorem revoked_session_stays_fenced alloc hx reg reg' now agent c m :
  alloc <> [] -> hx <> [] -> registryGet alloc reg = hx -> rtc rstep (Clear alloc reg) reg' ->
  (checkSessionFence now agent c (sessionMountPrefix ++ hx) alloc m reg').1.1 = None.
Proof.
  intros Ha Hh Hact Hsteps.
  assert (fenced_in alloc hx (Clear alloc reg)) as H0.
  { unfold registryGet in Hact. rewrite decide_False in Hact by done. unfold Clear.
    rewrite decide_False by done. destruct (reg !! alloc) as [st|]; [| done].
    rewrite decide_False by congruence. eexists. rewrite lookup_insert_eq. split; [done |].
    simpl. apply elem_of_union_l. rewrite Hact. by apply elem_of_singleton. }
  assert (fenced_in alloc hx reg') as (st & Hst & Hin)
    by (induction Hsteps; eauto using rstep_fenced).
  unfold checkSessionFence. rewrite decide_False by (by destruct hx).
  destruct (_ || _); [done |]. rewrite drop_app_length.
  destruct (decodeLeaseHex hx) as [id|]; [| done].
  destruct (AuthorizeOrRebindSession now id agent c m) as [[[] b] m1]; [| done].
  unfold Install. rewrite decide_False by tauto. rewrite Hst. simpl. by rewrite decide_True.
Qed.

Lemma revoked_session_stays_fenced_witness :
  (checkSessionFence 130 (str "A") 1 (sessionMountPrefix ++ hex0) (str "al") lm0
     (Clear (str "al") fence0.2)).1.1 = None.
Proof.
  apply (revoked_session_stays_fenced (str "al") hex0 fence0.2).
  - discriminate.
  - discriminate.
  - vm_compute. reflexivity.
  - apply rtc_refl.
Defined.

(** ** Two ways around the fence *)

Definition upper_hex (c : ascii) : ascii :=
  if (97 <=? byteval c) && (byteval c <=? 102)
  then ascii_of_N (Z.to_N (byteval c - 32)) else c.

(** The revoked session of [A] writes again with the same lease id spelled
    in upper-case hex: the fence compares strings, the decoder accepts both
    cases, and the revoke does not end the lease. *)
Theorem fence_bypass_upper_case :
  (checkSessionFence 130 (str "A") 1 (sessionMountPrefix ++ hex0) (str "al") lm0
     (Clear (str "al") fence0.2)).1.1 = None /\
  (checkSessionFence 130 (str "A") 1 (sessionMountPrefix ++ (upper_hex <$> hex0)) (str "al") lm0
     (Clear (str "al") fence0.2)).1.1 = Some (upper_hex <$> hex0).
Proof. split; vm_compute; reflexivity. Qed.

(** Agent [B] of the same tenant holds a lease of its own. *)
Definition lm1 : leaseManager :=
  (grantLocked cfg0 100 id1 (str "B") 2 (str "/B") LeaseExclusiveWrite lm0).2.

(** [B] writes once under the allocation id of [A]. *)
Definition fence1 :=
  checkSessionFence 125 (str "B") 2 (sessionMountPrefix ++ hex_encode id1) (str "al")
    lm1 fence0.2.

(** The allocation id of a write is not tied to the agent: one write of [B]
    under the allocation of [A] takes the slot, the revoke of the allocation
    then fences [B]'s session, and the session of [A] that was to be revoked
    still passes. *)
Theorem foreign_allocation_diverts_revoke :
  fence1.1.1 = Some (hex_encode id1) /\
  registryGet (str "al") fence1.2 = hex_encode id1 /\
  (checkSessionFence 130 (str "A") 1 (sessionMountPrefix ++ hex0) (str "al") fence1.1.2
     (Clear (str "al") fence1.2)).1.1 = Some hex0.
Proof. split; [| split]; vm_compute; reflexivity. Qed.
