(* ===== verification/ManifestProps.v ===== *)
(** * Properties of the manifest store

    The claims on the operations of Manifests.v, proved from the refinement of
    Refine.v, with runs on a small store. *)

From S2P Require Import Prelude GoPath Codec TenantDB Journal Manifests FileSpec Refine.

(** ** A small store for concrete runs *)

Definition h1 : hash := replicate 32 1.
Definition h2 : hash := replicate 32 2.
Definition store0 : mstore := mkStore emptyDB (Some {[h1; h2]}) (Some []) (Some []).
Definition file_of (p : gostr) (h : hash) (n : Z) : Manifest :=
  mkManifest p 0 0 n 420 1000 0 [mkChunkRef h 0 n] 0 0 0.

Lemma file_of_wf p h n : h = h1 \/ h = h2 -> 0 <= n < 2 ^ 32 -> Forall wf_ref (mf_Chunks (file_of p h n)).
Proof.
  intros Hh Hn. repeat constructor; simpl; try lia; destruct Hh as [-> | ->]; try done;
    apply Forall_replicate; unfold is_byte; lia.
Qed.

(** [/a] created, then linked as [/b]. *)
Definition put_a := Put (MP := flat_msgpack) 7 (str "/a") 0 (file_of (str "/a") h1 5) (str "s") (str "al") (str "ag").
Definition store1 : mstore := (put_a store0).2.
Definition store2 : mstore := (Link (MP := flat_msgpack) 8 (str "/a") (str "/b") [] [] [] store1).2.

Lemma store0_Inv : Inv (st_db store0) empty_afs.
Proof. exact Inv_empty. Qed.

Lemma store1_Inv : exists a, Inv (st_db store1) a.
Proof. apply (Put_Inv (MP := flat_msgpack) _ _ _ _ _ _ _ _ _ store0_Inv). apply file_of_wf; [by left | lia]. Qed.

Lemma store2_Inv : exists a, Inv (st_db store2) a.
Proof. destruct store1_Inv as [a I]. exact (Link_Inv (MP := flat_msgpack) 8 _ _ _ _ _ _ a I). Qed.

Section props.
Context {MP : MsgPack} (now : Z).

(** ** [Put] *)

(** The checks before the transaction. *)
Lemma Put_checked p v mf sid al ag s :
  mf_Path mf = p -> journal_args_ok sid al -> validateChunks (mf_Chunks mf) s = true ->
  Put now p v mf sid al ag s = run_tx (putTx now p v mf sid al ag) s.
Proof.
  intros Hp Hj Hc. unfold Put, fail. rewrite decide_False by congruence.
  rewrite decide_False by (intros [? ?]; by destruct Hj). by rewrite Hc.
Qed.

(** The run of a [Put] that the checks let through. *)
Lemma Put_run p v mf sid al ag s a :
  Inv (st_db s) a -> mf_Path mf = p -> journal_args_ok sid al ->
  validateChunks (mf_Chunks mf) s = true -> parent_ok p (st_db s) = true ->
  version_at p (st_db s) = v -> (v = 0 -> manifests (st_db s) !! p = None) ->
  mf_Size mf < 2 ^ 63 -> 0 <= v < 2 ^ 63 - 1 ->
  exists e rev d, putTx now p v mf sid al ag (st_db s) = Ok (Commit (v + 1) e rev, d) /\
    Put now p v mf sid al ag s = (Ok (v + 1), notifyChange rev (Broadcast e (set_db d s))).
Proof.
  intros I Hp Hj Hc Hpar Hv Hnew Hsz Hb.
  destruct (putTx_total now p v mf sid al ag (st_db s) a I Hj Hpar Hv Hnew Hsz Hb) as (o & d & Ht).
  pose proof Ht as (cs & e & rev & d3 & d4 & d5 & _ & _ & _ & _ & _ & _ & ->)%putTx_Ok.
  replace (u64 (v + 1)) with (v + 1) in * by (unfold u64; rewrite Z.mod_small; lia).
  exists e, rev, d. split; [done |].
  rewrite Put_checked by done. unfold run_tx. by rewrite Ht.
Qed.

(** A write at another version than the stored one. *)
Lemma putTx_stale p v mf sid al ag d a :
  Inv d a -> parent_ok p d = true -> version_at p d <> v ->
  putTx now p v mf sid al ag d = Err (VersionConflictError (version_at p d)).
Proof.
  intros I Hpar Hv. unfold putTx.
  set (d1 := if v =? 0 then set_inode_next_id (inode_next_id d + 1) d else d).
  erewrite (tx_bind_eq _ _ d (if v =? 0 then inode_next_id d + 1 else 0) d1)
    by (subst d1; by destruct (v =? 0)).
  destruct (splitParentName p) as [parent name].
  assert (manifests d1 = manifests d /\ parent_ok p d1 = true)
    as (Hm & Hp1) by (subst d1; by destruct (v =? 0)).
  erewrite tx_bind_eq by by rewrite checkParentExists_eq, Hp1.
  erewrite tx_bind_eq by done. rewrite Hm.
  assert (exists cs, match manifests d !! p with
    | None => cs = [] | Some r => unpackChunks (m_chunks r) = Some cs end) as (cs & Hcs).
  { destruct (manifests d !! p) as [r|] eqn:Hr; [| by exists []].
    destruct (inv_unpack d a I p r Hr) as (x & _ & _ & Hu & _). eauto. }
  erewrite (tx_bind_eq _ _ d1 cs d1)
    by (destruct (manifests d !! p); [by rewrite Hcs | by subst cs]).
  unfold version_at in *. apply tx_bind_err.
  by replace (_ =? v) with false by lia.
Qed.

(** The transaction behind a successful [Put]. *)
Lemma Put_inv p v mf sid al ag s nv s' :
  Put now p v mf sid al ag s = (Ok nv, s') ->
  nv = u64 (v + 1) /\ validateChunks (mf_Chunks mf) s = true /\
  exists e rev d, putTx now p v mf sid al ag (st_db s) = Ok (Commit nv e rev, d) /\
    s' = notifyChange rev (Broadcast e (set_db d s)).
Proof.
  intros H. unfold Put, fail in H. repeat (case_decide; [done |]).
  destruct (validateChunks _ s); [| done]. simpl in H.
  apply run_tx_Ok in H as [(e & rev & d & Ht & ->)|(d & Ht & ->)];
    pose proof Ht as (cs & e' & rev' & d3 & d4 & d5 & _ & _ & _ & _ & _ & _ & Ho)%putTx_Ok;
    simplify_eq. split; [done |]. split; [done |]. eauto 10.
Qed.

(** C3: a successful [Put] returns the expected version plus one and does what
    the specification says: with version 0 the path was free and becomes a new
    inode with the manifest's contents; otherwise the path's inode was at the
    expected version and gets the new contents under all its names, keeping its
    owner and access time.  Either way every chunk is on disk and the reference
    counts are again exact. *)
Theorem Put_refines p v mf sid al ag s a nv s' :
  Inv (st_db s) a -> Forall wf_ref (mf_Chunks mf) ->
  Put now p v mf sid al ag s = (Ok nv, s') ->
  nv = u64 (v + 1) /\ validateChunks (mf_Chunks mf) s = true /\
  exists a', put_spec p v mf (st_db s) a a' /\ Inv (st_db s') a'.
Proof.
  intros I Hwf (Hnv & Hv & e & rev & d & Ht & ->)%Put_inv.
  eapply putTx_refines in Ht as [_ (a' & Hs & I')]; eauto.
Qed.

(** [Put] with the version the path has, under an existing parent and with
    its chunks on disk, always succeeds: no constraint on the reference counts
    can fail. *)
Theorem Put_succeeds p v mf sid al ag s a :
  Inv (st_db s) a -> mf_Path mf = p -> journal_args_ok sid al ->
  validateChunks (mf_Chunks mf) s = true -> parent_ok p (st_db s) = true ->
  version_at p (st_db s) = v -> (v = 0 -> manifests (st_db s) !! p = None) ->
  mf_Size mf < 2 ^ 63 -> 0 <= v < 2 ^ 63 - 1 ->
  exists s', Put now p v mf sid al ag s = (Ok (v + 1), s').
Proof.
  intros I Hp Hj Hc Hpar Hv Hnew Hsz Hb.
  destruct (Put_run p v mf sid al ag s a) as (e & rev & d & _ & H); eauto.
Qed.

(** A [Put] with another version than the stored one reports the stored
    version and changes nothing. *)
Theorem Put_conflict p v mf sid al ag s a :
  Inv (st_db s) a -> mf_Path mf = p -> journal_args_ok sid al ->
  validateChunks (mf_Chunks mf) s = true -> parent_ok p (st_db s) = true ->
  version_at p (st_db s) <> v ->
  Put now p v mf sid al ag s = (Err (VersionConflictError (version_at p (st_db s))), s).
Proof.
  intros I Hp Hj Hc Hpar Hv. rewrite Put_checked by done. unfold run_tx.
  by rewrite (putTx_stale _ _ _ _ _ _ _ a).
Qed.

(** What a committed write left under every name of the file. *)
Lemma Get_written p v mf sid al ag s a nv s' q :
  Inv (st_db s) a -> Forall wf_ref (mf_Chunks mf) ->
  Put now p v mf sid al ag s = (Ok nv, s') ->
  q = p \/ (v <> 0 /\ is_Some (names a !! q) /\ names a !! q = names a !! p) ->
  exists m, Get q (st_db s') = Ok m /\ mf_Size m = mf_Size mf /\ mf_Mode m = mf_Mode mf /\
    mf_Mtime m = mf_Mtime mf /\ mf_Version m = nv /\ mf_Chunks m = mf_Chunks mf.
Proof.
  intros I Hwf (-> & _ & e & rev & d & Ht & ->)%Put_inv Hq.
  eapply putTx_refines in Ht as [_ (a' & Hs & I')]; eauto.
  assert (exists i x, names a' !! q = Some i /\ inodes a' !! i = Some x /\
    i_size x = mf_Size mf /\ i_mode x = mf_Mode mf /\ i_mtime x = mf_Mtime mf /\
    i_version x = u64 (v + 1) /\ i_chunks x = mf_Chunks mf) as (i & x & Hn & Hx & Hfields).
  { unfold put_spec in Hs. destruct (decide (v = 0)) as [Hv|Hv].
    - destruct Hs as [_ ->]. destruct Hq as [->|[? _]]; [| done]. subst v.
      exists (inode_next_id (st_db s) + 1), (new_inode mf). simpl. by rewrite !lookup_insert_eq.
    - destruct Hs as (i & x & Hn & Hx & _ & ->). exists i, (written mf (u64 (v + 1)) x). simpl.
      rewrite lookup_insert_eq. split; [| done]. destruct Hq as [->|(_ & _ & ->)]; done. }
  simpl. unfold Get. destruct (inv_name_row _ _ I' q i Hn) as (r & Hr & <-). rewrite Hr.
  destruct (inv_unpack _ _ I' q r Hr) as (y & Hy & Hyi & Hu & _). assert (y = x) as -> by congruence.
  rewrite Hu. eexists. split; [done |].
  destruct (row_inode_fields _ _ Hy) as (_ & -> & -> & -> & -> & _). simpl. tauto.
Qed.

(** After a successful [Put], reading the path gives the size, mode, mtime
    and chunk list just written at the returned version, and so does reading
    any hard link of the file. *)
Theorem Get_after_Put p v mf sid al ag s a nv s' q :
  Inv (st_db s) a -> Forall wf_ref (mf_Chunks mf) ->
  Put now p v mf sid al ag s = (Ok nv, s') ->
  q = p \/ (v <> 0 /\ is_Some (names a !! q) /\ names a !! q = names a !! p) ->
  exists m, Get q (st_db s') = Ok m /\ mf_Size m = mf_Size mf /\ mf_Mode m = mf_Mode mf /\
    mf_Mtime m = mf_Mtime mf /\ mf_Version m = nv /\ mf_Chunks m = mf_Chunks mf.
Proof. apply Get_written. Qed.

(** ** [Link], [Delete] *)

(** A successful [Link] gives the file of [from] a second name: the inode,
    its contents and the reference counts are unchanged, the path was free, and
    the returned count is the number of names of the inode. *)
Theorem Link_refines from to sid al ag s a n s' :
  Inv (st_db s) a -> Link now from to sid al ag s = (Ok n, s') ->
  exists i, names a !! from = Some i /\ names a !! to = None /\
    Inv (st_db s') (spec_link to i a) /\ n = nlink i (st_db s').
Proof.
  intros I H. unfold Link, fail in H. case_decide; [done |].
  apply run_tx_Ok in H as [(e & rev & d & Ht & ->)|(d & Ht & ->)];
    eapply linkTx_refines in Ht as (i & e' & rev' & H1 & H2 & H3 & Ho); eauto; simplify_eq.
  by exists i.
Qed.

(** Deleting a file at its version removes the name, and the inode with its
    references to chunks exactly when it was the last name. *)
Theorem Delete_refines p v sid al ag s a s' :
  Inv (st_db s) a -> symlinks (st_db s) !! p = None -> special_nodes (st_db s) !! p = None ->
  Delete now p v sid al ag s = (Ok tt, s') ->
  (exists i x, names a !! p = Some i /\ inodes a !! i = Some x /\ i_version x = v) /\
  Inv (st_db s') (spec_unlink p a).
Proof.
  intros I Hsl Hsn H. unfold Delete, fail in H. case_decide; [done |].
  unfold deleteSpecialNode, deleteSymlink, run_tx at 1 2 in H.
  unfold deleteSpecialNodeTx, deleteSymlinkTx in H.
  unfold mbind, tx_bind, query, present in H. rewrite Hsn in H.
  rewrite bool_decide_eq_false_2 in H by (by intros [? ?]). simpl in H.
  rewrite Hsl in H. rewrite bool_decide_eq_false_2 in H by (by intros [? ?]). simpl in H.
  apply run_tx_Ok in H as [(e & rev & d & Ht & ->)|(d & Ht & ->)];
    eapply deleteTx_refines in Ht as ((e' & rev' & Ho) & H2 & H3); eauto; simplify_eq.
Qed.

(** ** [Rename] *)

(** A rename that must not replace refuses any existing destination, and a
    rename that fails leaves the store as it was. *)
Theorem rename_noreplace from to vf vt sid al ag s :
  from <> to -> resolveKind from (st_db s) <> nodeAbsent -> resolveKind to (st_db s) <> nodeAbsent ->
  journal_args_ok sid al ->
  renameOpt now from to vf vt true sid al ag s = (Err ErrAlreadyExists, s).
Proof.
  intros Hne Hf Ht Hj. unfold renameOpt. rewrite decide_False by (intros [? ?]; by destruct Hj).
  unfold run_tx, renameTx, resolveKindTx. erewrite tx_bind_eq by done.
  rewrite bool_decide_eq_true_2 by done. erewrite tx_bind_eq by done.
  rewrite decide_False by done. erewrite tx_bind_err; [done |].
  unfold resolveRenameDestTx, resolveKindTx. erewrite tx_bind_eq by done.
  by rewrite decide_False.
Qed.

(** ** Directory renames

    The descendants of a renamed directory are found by an unescaped [LIKE]
    pattern.  It is the right one for a plain ASCII name without [%] and [_] when no
    name differs from one below the directory only in the case of that prefix. *)

Definition unambiguous {A} (from : gostr) (m : gmap gostr A) : Prop :=
  forall q r x, m !! (q ++ slash :: r) = Some x -> eqci from q -> q = from.

(** What is below [from] is now below [to], its values changed by [f]; every other
    row is as before, and there are no further rows. *)
Definition tree_moved {A} (from to : gostr) (f : A -> A) (m m' : gmap gostr A) : Prop :=
  forall q x, m' !! q = Some x <->
    (exists r y, m !! (from ++ slash :: r) = Some y /\ q = to ++ slash :: r /\ x = f y) \/
    (m !! q = Some x /\ ~ exists r, q = from ++ slash :: r).

Lemma reparent_match_below {A} (from : gostr) (m : gmap gostr A) q x :
  plain from -> no_wildcard from -> unambiguous from m -> m !! q = Some x ->
  reparent_match from q = true <-> exists r, q = from ++ slash :: r.
Proof using Type.
  intros Hp Hw Hu Hq. unfold reparent_match. rewrite like_subtree by done. split.
  - intros (q' & r & -> & Hci). exists r. by rewrite (Hu q' r x).
  - intros (r & ->). exists from, r. split; [done | apply eqci_refl].
Qed.

(** Rows matched by the pattern that get a new key are the rows below [from]. *)
Lemma tree_moved_intro {A} (from to : gostr) (f : A -> A) m m' :
  plain from -> no_wildcard from -> unambiguous from m ->
  (forall q x, m' !! q = Some x <->
     (exists q0 y, m !! q0 = Some y /\ reparent_match from q0 = true /\ q = reparent_key from to q0 /\ x = f y) \/
     (m !! q = Some x /\ reparent_match from q = false)) ->
  tree_moved from to f m m'.
Proof using Type.
  intros Hp Hw Hu Hm q x. rewrite Hm. split.
  - intros [(q0 & y & Hy & Hc & -> & ->)|[Hq Hc]].
    + left. apply (reparent_match_below from m q0 y) in Hc as [r ->]; [| done..]. exists r, y.
      split; [done |]. split; [| done]. unfold reparent_key. by rewrite sql_substr_plain.
    + right. split; [done |]. rewrite <- (reparent_match_below from m q x) by done. congruence.
  - intros [(r & y & Hy & -> & ->)|[Hq Hc]].
    + left. exists (from ++ slash :: r), y. split; [done |]. split; [| split; [| done]].
      * apply (reparent_match_below from m _ y); eauto.
      * unfold reparent_key. by rewrite sql_substr_plain.
    + right. split; [done |]. apply not_true_iff_false. by rewrite (reparent_match_below from m q x).
Qed.

Lemma reparented_tree from to a a' :
  plain from -> no_wildcard from -> unambiguous from (names a) -> reparented from to a a' ->
  inodes a' = inodes a /\ tree_moved from to id (names a) (names a').
Proof using Type.
  intros Hp Hw Hu [Hi Hn]. split; [done |]. apply tree_moved_intro; try done. intros q i. rewrite Hn. split.
  - intros [(q0 & Hq & Hc & ->)|?]; [left; by exists q0, i | by right].
  - intros [(q0 & j & Hq & Hc & -> & ->)|?]; [left; by exists q0 | by right].
Qed.

Lemma rekey_tree {A} (from to : gostr) (f : A -> A) m m' :
  plain from -> no_wildcard from -> unambiguous from m ->
  rekey (reparent_match from) (reparent_key from to) f m = Some m' -> tree_moved from to f m m'.
Proof using Type.
  intros Hp Hw Hu Hm. apply tree_moved_intro; try done. intros q x.
  rewrite (rekey_lookup _ _ _ _ _ _ _ Hm). split.
  - intros [(q0 & y & Hy & Hc & -> & ->)|?]; [left; by exists q0, y | by right].
  - intros [(q0 & y & Hy & Hc & -> & ->)|?]; [left; by exists q0, y | by right].
Qed.
End props.

(** ** Witnesses *)

Lemma Put_refines_witness :
  exists a', Inv (st_db store1) a' /\ names a' !! str "/a" = Some 1.
Proof.
  destruct (Put_refines (MP := flat_msgpack) 7 (str "/a") 0 (file_of (str "/a") h1 5) (str "s") (str "al")
    (str "ag") store0 empty_afs 1 store1) as (_ & _ & a' & Hs & I').
  - exact store0_Inv.
  - apply file_of_wf; [left; reflexivity | lia].
  - vm_compute. reflexivity.
  - exists a'. split; [exact I' |]. destruct Hs as [_ ->]. reflexivity.
Defined.

Lemma Put_succeeds_witness :
  exists s', Put (MP := flat_msgpack) 9 (str "/a") 1 (file_of (str "/a") h2 6) [] [] [] store2 = (Ok 2, s').
Proof.
  destruct store2_Inv as [a I].
  apply (Put_succeeds (MP := flat_msgpack) 9 (str "/a") 1 (file_of (str "/a") h2 6) [] [] [] store2 a);
    try exact I; try reflexivity; try (left; reflexivity); try (vm_compute; reflexivity);
    try discriminate; try lia.
Defined.

Lemma Put_conflict_witness :
  Put (MP := flat_msgpack) 9 (str "/a") 4 (file_of (str "/a") h2 6) [] [] [] store2 =
  (Err (VersionConflictError 1), store2).
Proof.
  destruct store2_Inv as [a I].
  apply (Put_conflict (MP := flat_msgpack) 9 (str "/a") 4 (file_of (str "/a") h2 6) [] [] [] store2 a);
    try exact I; try reflexivity; try (left; reflexivity); try (vm_compute; reflexivity).
  vm_compute. discriminate.
Defined.

(** [/a] rewritten through one name is read through the other. *)
Definition store3 : mstore :=
  (Put (MP := flat_msgpack) 9 (str "/a") 1 (file_of (str "/a") h2 6) [] [] [] store2).2.

Lemma Get_after_Put_witness :
  exists m, Get (str "/b") (st_db store3) = Ok m /\ mf_Version m = 2.
Proof.
  destruct store2_Inv as [a I].
  destruct (Get_after_Put (MP := flat_msgpack) 9 (str "/a") 1 (file_of (str "/a") h2 6) [] [] [] store2 a 2 store3
    (str "/b")) as (m & Hm & _ & _ & _ & Hv & _).
  - exact I.
  - apply file_of_wf; [right; reflexivity | lia].
  - vm_compute. reflexivity.
  - right. split; [discriminate |]. rewrite (inv_names _ _ I).
    split; [| vm_compute; reflexivity]. exists 1. vm_compute. reflexivity.
  - exists m. split; [exact Hm | exact Hv].
Defined.

Lemma Link_refines_witness :
  exists i a', Inv (st_db store2) a' /\ nlink i (st_db store2) = 2.
Proof.
  destruct store1_Inv as [a I].
  destruct (Link_refines (MP := flat_msgpack) 8 (str "/a") (str "/b") [] [] [] store1 a 2 store2)
    as (i & _ & _ & I' & Hn).
  - exact I.
  - vm_compute. reflexivity.
  - exists i, (spec_link (str "/b") i a). split; [exact I' | symmetry; exact Hn].
Defined.

Lemma Delete_refines_witness :
  exists a', Inv (st_db (Delete (MP := flat_msgpack) 9 (str "/b") 1 [] [] [] store2).2) a'.
Proof.
  destruct store2_Inv as [a I].
  destruct (Delete_refines (MP := flat_msgpack) 9 (str "/b") 1 [] [] [] store2 a
    (Delete (MP := flat_msgpack) 9 (str "/b") 1 [] [] [] store2).2) as [_ I'].
  - exact I.
  - vm_compute. reflexivity.
  - vm_compute. reflexivity.
  - vm_compute. reflexivity.
  - exists (spec_unlink (str "/b") a). exact I'.
Defined.

(** [/d] with [/d/f], renamed to [/e]. *)
Definition store4 : mstore :=
  (Put (MP := flat_msgpack) 9 (str "/d/f") 0 (file_of (str "/d/f") h2 6) [] [] []
     (DirCreate (str "/d") 493 store1).2).2.

Lemma store4_Inv : exists a, Inv (st_db store4) a.
Proof.
  destruct store1_Inv as [a I].
  destruct (run_keeps_Inv _ store1 a (keeps_DirCreate (str "/d") 493) I) as [a' I'].
  apply (Put_Inv (MP := flat_msgpack) _ _ _ _ _ _ _ _ _ I'). apply file_of_wf; [by right | lia].
Qed.

Definition commit_of {A} (r : result err (outcome A * tdb)) (dflt : tdb) : tdb :=
  match r with Ok (_, d) => d | Err _ => dflt end.

Definition rename_de := renameTx (MP := flat_msgpack) 9 (str "/d") (str "/e") 0 0 false [] [] [] (st_db store4).

Lemma rename_noreplace_witness :
  renameOpt (MP := flat_msgpack) 9 (str "/d") (str "/a") 0 0 true [] [] [] store4 = (Err ErrAlreadyExists, store4).
Proof.
  apply (rename_noreplace (MP := flat_msgpack) 9 (str "/d") (str "/a") 0 0 [] [] [] store4).
  - discriminate.
  - vm_compute. discriminate.
  - vm_compute. discriminate.
  - left. reflexivity.
Defined.

Lemma store4_names a : Inv (st_db store4) a -> names a = {[ str "/a" := 1; str "/d/f" := 2 ]}.
Proof. intros I. rewrite (inv_names _ _ I). vm_compute. reflexivity. Qed.
