(* ===== verification/Revert.v ===== *)
(** * Reverting journaled writes

    revert.go: [RevertPaths] looks up the journal row of each path, compares the
    live version with the one the row left, applies the inverse operation and
    removes the row.  control_journal_revert.go: the control-plane call that
    reverts one pinned row. *)

From S2P Require Import Prelude GoPath Codec TenantDB Journal Manifests Lease.

(** An error of [applyInverse]: [*RevertConflictError], or any other one. *)
Inductive revertErr :=
| RevertConflictError (Path : gostr) (CurrentVersion : Z)
| RevertFailed (e : err).

Definition ReasonNoJournalRow : string := "no_journal_row".
Definition ReasonConcurrentWriter : string := "concurrent_writer".
Definition ReasonRevertBlocked : string := "revert_blocked".

Record JournalRevertConflict := mkConflict { rc_Path : gostr; rc_Reason : string }.

Definition liveManifestVersion (p : gostr) (d : tdb) : result err (option Z) :=
  match Get p d with
  | Ok mf => Ok (Some (mf_Version mf))
  | Err ErrManifestNotFound => Ok None
  | Err e => Err e
  end.

Definition equalOptVersion (a b : option Z) : bool := bool_decide (a = b).

Definition wrapCAS (e : err) (p : gostr) : revertErr :=
  match e with
  | VersionConflictError v => RevertConflictError p v
  | e => RevertFailed e
  end.

(** [working]: the versions the revert believes the paths to have. *)
Abbreviation workingMap := (gmap gostr (option Z)).

(** A slice that is given and has another length. *)
Definition wrong_length {A} (o : option (list A)) (n : nat) : bool :=
  match o with Some l => negb (length l =? n)%nat | None => false end.

Section revert.
Context {MP : MsgPack} (now : Z).

(** [scanRevertRow] fills neither the allocation nor the agent. *)
Definition scanRevertRow (r : jrow) : SessionJournalEntry :=
  mkEntry (j_session_id r) [] [] (j_seq r) (j_path r) (j_op r) (u64 <$> j_before_version r)
    (u64 <$> j_after_version r) (j_before_manifest r) (default [] (j_rename_from r)) (j_ts_unix_ms r).

(** [order by ts_unix_ms desc, seq desc]; which of two rows with equal time and
    seq comes first is not said: here the one inserted first. *)
Definition later (a b : jrow) : bool :=
  (j_ts_unix_ms b <? j_ts_unix_ms a)
  || ((j_ts_unix_ms a =? j_ts_unix_ms b) && (j_seq b <? j_seq a)).

Definition rows_at (allocationID p : gostr) (d : tdb) : list jrow :=
  filter (fun r => j_allocation_id r = Some allocationID /\ j_path r = p) (session_journal d).

Definition latestRowForPath (allocationID p : gostr) (d : tdb) : option SessionJournalEntry :=
  scanRevertRow <$> first_by later (rows_at allocationID p d).

Definition rowForSessionSeq (allocationID p sessionID : gostr) (seq : Z) (d : tdb)
    : result err (option SessionJournalEntry) :=
  if 2 ^ 63 <=? seq then Err ErrBind
  else Ok (scanRevertRow <$> head (filter (fun r => j_session_id r = sessionID /\ j_seq r = seq)
                                     (rows_at allocationID p d))).

(** A store operation whose error becomes one of the revert. *)
Definition lift_op {A} (e : err -> revertErr) (r : result err A * mstore)
    : result revertErr A * mstore :=
  match r with
  | (Ok a, s) => (Ok a, s)
  | (Err x, s) => (Err (e x), s)
  end.

(** The version of a path that [working] may not have yet. *)
Definition lookupWorking (p : gostr) (working : workingMap) (d : tdb)
    : result revertErr (option Z * workingMap) :=
  match working !! p with
  | Some v => Ok (v, working)
  | None =>
      match liveManifestVersion p d with
      | Err e => Err (RevertFailed e)
      | Ok live => Ok (live, <[p := live]> working)
      end
  end.

Definition applyInverse (row : SessionJournalEntry) (working : workingMap)
    (sessionID allocationID agentID : gostr) (s : mstore)
    : result revertErr workingMap * mstore :=
  let p := je_Path row in
  let from := je_RenameFrom row in
  let curr := default None (working !! p) in
  match je_Op row with
  | SessionOpCreate =>
      match curr with
      | None => (Ok working, s)
      | Some v =>
          match lift_op (fun e => wrapCAS e p) (Delete now p v sessionID allocationID agentID s) with
          | (Err e, s') => (Err e, s')
          | (Ok _, s') => (Ok (<[p := None]> working), s')
          end
      end
  | SessionOpUpdate =>
      match curr with
      | None => (Err (RevertConflictError p 0), s)
      | Some v =>
          match decodeJournalManifest p (default [] (je_BeforeManifest row)) with
          | None => (Err (RevertFailed (ErrMsg "decode journal manifest")), s)
          | Some prior =>
              match lift_op (fun e => wrapCAS e p) (Put now p v prior sessionID allocationID agentID s) with
              | (Err e, s') => (Err e, s')
              | (Ok newV, s') => (Ok (<[p := Some newV]> working), s')
              end
          end
      end
  | SessionOpDelete =>
      match curr with
      | Some v => (Err (RevertConflictError p v), s)
      | None =>
          if decide (from <> []) then
            match lookupWorking from working (st_db s) with
            | Err e => (Err e, s)
            | Ok (None, _) => (Err (RevertConflictError from 0), s)
            | Ok (Some version, working) =>
                match lift_op (fun e => wrapCAS e p) (Link now from p sessionID allocationID agentID s) with
                | (Err e, s') => (Err e, s')
                | (Ok _, s') => (Ok (<[p := Some version]> working), s')
                end
            end
          else
            match decodeJournalManifest p (default [] (je_BeforeManifest row)) with
            | None => (Err (RevertFailed (ErrMsg "decode journal manifest")), s)
            | Some prior =>
                match lift_op (fun e => wrapCAS e p) (Put now p 0 prior sessionID allocationID agentID s) with
                | (Err e, s') => (Err e, s')
                | (Ok newV, s') => (Ok (<[p := Some newV]> working), s')
                end
            end
      end
  | SessionOpRename =>
      match curr with
      | None => (Err (RevertConflictError p 0), s)
      | Some v =>
          match lookupWorking from working (st_db s) with
          | Err e => (Err e, s)
          | Ok (Some fv, _) => (Err (RevertConflictError from fv), s)
          | Ok (None, working) =>
              match lift_op (fun e => if decide (e = ErrAlreadyExists) then RevertConflictError from 0
                                      else wrapCAS e p)
                      (Rename now p from v 0 sessionID allocationID agentID s) with
              | (Err e, s') => (Err e, s')
              | (Ok newV, s') => (Ok (<[from := Some newV]> (<[p := None]> working)), s')
              end
          end
      end
  end.

(** What [RevertPaths] has so far: the reverted paths and the conflicts. *)
Record revertReport := mkReport { rr_reverted : list gostr; rr_conflicts : list JournalRevertConflict }.

Definition add_conflict (p : gostr) (reason : string) (r : revertReport) : revertReport :=
  mkReport (rr_reverted r) (rr_conflicts r ++ [mkConflict p reason]).

Definition lookup_row (allocationID p pinnedSession : gostr) (pinnedSeq : Z) (d : tdb)
    : result err (option SessionJournalEntry) :=
  if decide (pinnedSession <> [] /\ pinnedSeq <> 0)
  then rowForSessionSeq allocationID p pinnedSession pinnedSeq d
  else Ok (latestRowForPath allocationID p d).

(** [working] before the inverse of [row]. *)
Definition seed_working (row : SessionJournalEntry) (p : gostr) (live : option Z) (d : tdb)
    : result err workingMap :=
  if decide (je_Op row = SessionOpRename /\ je_RenameFrom row <> []) then
    match liveManifestVersion (je_RenameFrom row) d with
    | Err e => Err e
    | Ok srcLive => Ok (<[je_RenameFrom row := srcLive]> {[ p := live ]})
    end
  else Ok {[ p := live ]}.

(** One round of the loop: [Err] ends the call. *)
Definition revertOne (allocationID : gostr) (force : bool) (writerSessionID writerAgentID : gostr)
    (pin : gostr * gostr * Z) (rep : revertReport) (s : mstore)
    : result err revertReport * mstore :=
  let '(p, pinnedSession, pinnedSeq) := pin in
  match lookup_row allocationID p pinnedSession pinnedSeq (st_db s) with
  | Err e => (Err e, s)
  | Ok None => (Ok (add_conflict p ReasonNoJournalRow rep), s)
  | Ok (Some row) =>
      if negb force && bool_decide (pinnedSession = []) && negb (pinnedSeq =? 0)
           && negb (je_Seq row =? pinnedSeq)
      then (Ok (add_conflict p ReasonConcurrentWriter rep), s)
      else
        match liveManifestVersion p (st_db s) with
        | Err e => (Err e, s)
        | Ok live =>
            if negb force && negb (equalOptVersion live (je_AfterVersion row))
            then (Ok (add_conflict p ReasonConcurrentWriter rep), s)
            else
              match seed_working row p live (st_db s) with
              | Err e => (Err e, s)
              | Ok working =>
                  match applyInverse row working writerSessionID allocationID writerAgentID s with
                  | (Err (RevertConflictError cp _), s') =>
                      (Ok (add_conflict cp ReasonConcurrentWriter rep), s')
                  | (Err (RevertFailed e), s') => (Err e, s')
                  | (Ok _, s') =>
                      match DeleteRow (je_SessionID row) (je_Seq row) (st_db s') with
                      | Err e => (Err e, s')
                      | Ok (_, d) =>
                          (Ok (mkReport (rr_reverted rep ++ [p]) (rr_conflicts rep)), set_db d s')
                      end
                  end
              end
        end
  end.

(** An error returns what was done before it. *)
Fixpoint revertLoop (allocationID : gostr) (force : bool) (writerSessionID writerAgentID : gostr)
    (pins : list (gostr * gostr * Z)) (rep : revertReport) (s : mstore)
    : (option err * revertReport) * mstore :=
  match pins with
  | [] => ((None, rep), s)
  | pin :: pins' =>
      match revertOne allocationID force writerSessionID writerAgentID pin rep s with
      | (Err e, s') => ((Some e, rep), s')
      | (Ok rep', s') => revertLoop allocationID force writerSessionID writerAgentID pins' rep' s'
      end
  end.

Definition RevertPaths (allocationID : gostr) (paths : list gostr)
    (expectedSessionIDs : option (list gostr)) (expectedSeqs : option (list Z))
    (writerSessionID writerAgentID : gostr) (force : bool) (s : mstore)
    : (option err * revertReport) * mstore :=
  let nothing := mkReport [] [] in
  if wrong_length expectedSeqs (length paths)
  then ((Some (ErrMsg "RevertPaths: expectedSeqs len"), nothing), s)
  else if wrong_length expectedSessionIDs (length paths)
  then ((Some (ErrMsg "RevertPaths: expectedSessionIDs len"), nothing), s)
  else
    let sessions := default (replicate (length paths) []) expectedSessionIDs in
    let seqs := default (replicate (length paths) 0) expectedSeqs in
    revertLoop allocationID force writerSessionID writerAgentID
      (zip (zip paths sessions) seqs) nothing s.

(** ** The control-plane call *)

Record controlJournalRevertRequest := mkRevertReq {
  cr_AllocationID : gostr; cr_SessionID : gostr; cr_Path : gostr; cr_Seq : Z; cr_Force : bool;
  cr_AgentID : gostr }.

(** A bad request with its code, a failure, or the [ok] and [conflict] fields. *)
Inductive controlRevertReply :=
| RevertBadRequest (code : string)
| RevertServerError
| RevertOk
| RevertNotOk (reason : string).

Definition tenantJournalRevert (req : controlJournalRevertRequest) (reg : mountLeaseRegistry) (s : mstore)
    : controlRevertReply * mstore :=
  if decide (cr_AllocationID req = []) then (RevertBadRequest "missing_allocation_id", s)
  else if decide (cr_Path req = []) then (RevertBadRequest "missing_path", s)
  else if decide (cr_AgentID req = []) then (RevertBadRequest "missing_agent_id", s)
  else
    match RevertPaths (cr_AllocationID req) [cr_Path req] (Some [cr_SessionID req]) (Some [cr_Seq req])
            (writerSessionForRevert (cr_AllocationID req) reg) (cr_AgentID req) (cr_Force req) s with
    | ((Some _, _), s') => (RevertServerError, s')
    | ((None, rep), s') =>
        (match rr_conflicts rep, rr_reverted rep with
         | c :: _, _ => RevertNotOk (rc_Reason c)
         | [], [] => RevertNotOk ReasonRevertBlocked
         | [], _ :: _ => RevertOk
         end, s')
    end.
End revert.
