(* ===== verification/RevertProps.v ===== *)
(** * Reverting a write restores what it replaced

    The theorems about [RevertPaths]: a journaled write followed by a revert of
    its path gives back the old file at the next version, and a path that
    another writer has changed since is left alone. *)

From S2P Require Import Prelude GoPath Codec TenantDB Journal Manifests FileSpec Refine ManifestProps Lease Revert.

(** ** What [Put] leaves behind besides the file *)

Lemma checkParentExists_Ok p d u d' :
  checkParentExists p d = Ok (u, d') -> d' = d /\ parent_ok p d = true.
Proof. rewrite checkParentExists_eq. destruct (parent_ok p d); [by intros [= _ <-] | done]. Qed.

Lemma parent_ok_entries p d d' :
  (forall k, is_Some (dir_entries d !! k) -> is_Some (dir_entries d' !! k)) ->
  parent_ok p d = true -> parent_ok p d' = true.
Proof.
  intros He. unfold parent_ok, has_entry. case_decide; [done |].
  rewrite !bool_decide_eq_true. apply He.
Qed.

(** The journal row of an update with its before-state. *)
Definition prior_of (p : gostr) (r : mrow) (cs : list ChunkRef) : Manifest :=
  mkManifest p 0 0 (m_size r) (m_mode r) (m_mtime r) (m_version r) cs 0 0 0.

Section put_journal.
Context {MP : MsgPack} (now : Z).

Definition update_row (sid al ag p : gostr) (v : Z) (r : mrow) (cs : list ChunkRef) (j : list jrow) : jrow :=
  journal_row now sid al ag SessionOpUpdate p (Some (m_version r)) (Some (u64 (v + 1)))
    (Some (encodeJournalManifest (prior_of p r cs))) [] j.

Lemma journalPutTx_update p v nv r cs sid al ag d e d' :
  sid <> [] -> v <> 0 ->
  journalPutTx now p v nv (Some r) cs sid al ag d = Ok (e, d') ->
  al <> [] /\ d' = set_session_journal (session_journal d ++
    [journal_row now sid al ag SessionOpUpdate p (Some (m_version r)) (Some nv)
       (Some (encodeJournalManifest (prior_of p r cs))) [] (session_journal d)]) d.
Proof.
  intros Hs Hv H. unfold journalPutTx in H. rewrite decide_False in H by done.
  destruct (Z.eqb_spec v 0) as [|_]; [done |].
  destruct (decide (al = [])) as [->|Ha].
  { destruct (journalBeforeWrite_noalloc now sid ag SessionOpUpdate p
      (Some (prior_of p r cs)) (Some nv) [] d Hs) as [e' He].
    rewrite (tx_bind_err _ _ _ _ He) in H. done. }
  split; [done |]. erewrite tx_bind_eq in H by by apply journalBeforeWrite_ok.
  by apply tx_ret_Ok in H as [_ <-].
Qed.

Lemma updateManifestTx_frame old v rev mf d u d' :
  updateManifestTx old v rev mf d = Ok (u, d') ->
  session_journal d' = session_journal d /\ dir_entries d' = dir_entries d.
Proof. intros ->%updateManifestTx_Ok. done. Qed.

(** A journaled update appends its row, and no directory entry goes. *)
Lemma putTx_journal p v mf sid al ag d o d' r cs :
  sid <> [] -> v <> 0 -> manifests d !! p = Some r -> unpackChunks (m_chunks r) = Some cs ->
  putTx now p v mf sid al ag d = Ok (o, d') ->
  al <> [] /\ parent_ok p d = true /\
  session_journal d' = session_journal d ++ [update_row sid al ag p v r cs (session_journal d)] /\
  forall k, is_Some (dir_entries d !! k) -> is_Some (dir_entries d' !! k).
Proof.
  intros Hs Hv Hr Hcs H. unfold putTx in H.
  destruct (Z.eqb_spec v 0) as [|_]; [done |].
  apply tx_bind_Ok in H as (ino & d1 & [<- <-]%tx_ret_Ok & H).
  destruct (splitParentName p) as [parent name].
  apply tx_bind_Ok in H as (? & d2 & [-> Hpar]%checkParentExists_Ok & H).
  apply tx_bind_Ok in H as (old & ? & [= <- <-] & H). rewrite Hr in H.
  erewrite tx_bind_eq in H by by rewrite Hcs.
  apply tx_bind_Ok in H as (? & ? & [_ ->]%require_Ok & H).
  apply tx_bind_Ok in H as (rev & d3 & [= <- <-] & H).
  apply tx_bind_Ok in H as (e & d4 & [Ha ->]%journalPutTx_update & H); [| done..].
  apply tx_bind_Ok in H as ([] & d5 & [H5 _]%applyChunkRefDelta_Ok & H).
  apply tx_bind_Ok in H as ([] & d6 & [Hj6 He6]%updateManifestTx_frame & H).
  apply tx_bind_Ok in H as (? & d7 & H7 & H). apply tx_ret_Ok in H as [_ <-].
  rewrite H5 in Hj6, He6. simpl in Hj6, He6.
  split; [done |]. split; [done |].
  case_decide; [apply tx_ret_Ok in H7 as [_ <-]; by rewrite Hj6, He6 |].
  injection H7 as _ <-. destruct (has_entry parent name d6); [by rewrite Hj6, He6 |]. simpl.
  split; [done |]. intros k Hk. rewrite He6.
  destruct (decide (k = (parent, name))) as [->|]; [rewrite lookup_insert_eq; eauto |].
  by rewrite lookup_insert_ne.
Qed.
End put_journal.

(** ** The latest row *)

Lemma first_by_snoc nw l r :
  Forall (fun a => nw r a = true) l -> first_by nw (l ++ [r]) = Some r.
Proof.
  intros Hl. unfold first_by. rewrite foldl_app. simpl.
  destruct (foldl _ None l) as [a|] eqn:E; [| done].
  apply (first_in nw) in E as [Hin|?]; [| done].
  rewrite Forall_forall in Hl. by rewrite Hl.
Qed.

(** Every row of the path is older than [now], or as old and of this session. *)
Definition older_rows (now : Z) (al p sid : gostr) (d : tdb) : Prop :=
  Forall (fun r => j_ts_unix_ms r < now \/ (j_ts_unix_ms r = now /\ j_session_id r = sid))
    (rows_at al p d).

Section revert_update.
Context {MP : MsgPack} {ML : MsgPackLaws MP} (now : Z).

(** The live version of a file that is there. *)
Lemma live_version p d a v :
  Inv d a -> version_at p d = v -> 0 < v -> liveManifestVersion p d = Ok (Some v).
Proof.
  intros I. unfold version_at, liveManifestVersion, Get.
  destruct (manifests d !! p) as [r|] eqn:Hr; simpl; [| lia]. intros <- _.
  destruct (inv_unpack d a I p r Hr) as (x & _ & _ & Hu & _). by rewrite Hu.
Qed.

(** A row that matches the live version is undone by writing its before-state
    and removing the row. *)
Lemma revert_update al ws wa p row r cs v s a :
  Inv (st_db s) a -> al <> [] -> parent_ok p (st_db s) = true ->
  latestRowForPath al p (st_db s) = Some row -> je_Op row = SessionOpUpdate ->
  je_Path row = p -> je_AfterVersion row = Some v ->
  je_BeforeManifest row = Some (encodeJournalManifest (prior_of p r cs)) ->
  version_at p (st_db s) = v -> 0 < v < 2 ^ 63 - 1 ->
  Forall wf_ref cs -> validateChunks cs s = true -> m_size r < 2 ^ 63 ->
  exists e rev d s',
    putTx now p v (prior_of p r cs) ws al wa (st_db s) = Ok (Commit (v + 1) e rev, d) /\
    RevertPaths now al [p] None None ws wa false s = ((None, mkReport [p] []), s') /\
    core (st_db s') = core d /\
    Forall (fun j => ~ (j_session_id j = je_SessionID row /\ j_seq j = je_Seq row))
      (session_journal (st_db s')).
Proof.
  intros I Ha Hpar Hrow Hop Hpath Hav Hbm Hv Hvb Hwf Hc Hsz.
  destruct (Put_run now p v (prior_of p r cs) ws al wa s a) as (e & rev & d & Ht & Hput);
    [done | done | by right | done | done | done | lia | done | lia |].
  exists e, rev, d. eexists. split; [done |].
  unfold RevertPaths. simpl.
  rewrite Hrow, (live_version p (st_db s) a v) by (done || lia). simpl.
  unfold equalOptVersion. rewrite Hav, bool_decide_true by done. simpl.
  unfold seed_working. rewrite decide_False by (rewrite Hop; naive_solver).
  unfold applyInverse. rewrite Hop, Hpath, lookup_singleton_eq, Hbm. simpl.
  rewrite decode_encode_journal by done. simpl. fold (prior_of p r cs).
  rewrite Hput. simpl. split; [done |]. split; [done |].
  apply Forall_forall. intros j Hj. by apply list_elem_of_filter in Hj as [? _].
Qed.

Lemma update_row_latest al ag p sid v r cs d :
  older_rows now al p sid d ->
  latestRowForPath al p (set_session_journal
    (session_journal d ++ [update_row now sid al ag p v r cs (session_journal d)]) d) =
  Some (scanRevertRow (update_row now sid al ag p v r cs (session_journal d))).
Proof.
  intros Hold. unfold latestRowForPath, rows_at. simpl. rewrite filter_app.
  rewrite (filter_cons_True _ _ []), filter_nil by done. rewrite first_by_snoc; [done |].
  eapply Forall_impl; [apply Forall_and; split; [exact Hold | apply Forall_forall; intros x Hx; exact Hx] |].
  intros x [Hx Hin]. apply list_elem_of_filter in Hin as [_ Hin]. unfold later. simpl.
  destruct Hx as [Hx|[Hx Hs]]; [by replace (_ <? now) with true by lia |].
  pose proof (max_seq_ge sid (session_journal d) x Hin Hs).
  replace (_ =? _) with true by lia. replace (_ <? _ + 1) with true by lia.
  by rewrite orb_true_r.
Qed.
End revert_update.

Section claims.
Context {MP : MsgPack} {ML : MsgPackLaws MP} (now now' : Z).

(** C30: A write followed by the revert of its path restores the file system as it
    was, under every name, except that the file is two versions on.  The write is an
    update of an existing file (the revert of a create deletes it) at a version below
    2^63 - 2, made in a named session; its row is the newest of the path in the journal of
    the allocation; the old size is below 2^63, and the old chunks are still on disk when
    the write is made and nothing happens between it and the revert. *)
Theorem revert_undoes_write p v mf sid al ag ws wa s a nv s1 m0 :
  Inv (st_db s) a -> Forall wf_ref (mf_Chunks mf) -> sid <> [] -> 0 < v < 2 ^ 63 - 2 ->
  older_rows now al p sid (st_db s) ->
  Get p (st_db s) = Ok m0 -> mf_Size m0 < 2 ^ 63 -> validateChunks (mf_Chunks m0) s = true ->
  Put now p v mf sid al ag s = (Ok nv, s1) ->
  exists s2 i x,
    RevertPaths now' al [p] None None ws wa false s1 = ((None, mkReport [p] []), s2) /\
    names a !! p = Some i /\ inodes a !! i = Some x /\
    Inv (st_db s2) (mkAfs (names a) (<[i := with_version (v + 2) x]> (inodes a))).
Proof.
  intros I Hwf Hs Hvb Hold Hget Hsz Hc (Hnv & _ & e & rev & d & Ht & ->)%Put_inv.
  destruct (Get_Ok p _ m0 a I Hget) as (i & x & Hn & Hx & Hwf0 & ->). simpl in Hsz, Hc, Hwf0.
  destruct (inv_name_row _ _ I p i Hn) as (r & Hr & <-).
  destruct (inv_unpack _ _ I p r Hr) as (x' & Hrx & Hix & Hu & _).
  assert (x' = x) as -> by congruence.
  destruct (row_inode_fields _ _ Hrx) as (_ & _ & Hf1 & Hf2 & Hf3 & _).
  destruct (putTx_journal now p v mf sid al ag _ _ _ r (i_chunks x) Hs ltac:(lia) Hr Hu Ht)
    as (Ha & Hpar & Hj & He).
  destruct (putTx_refines now p v mf sid al ag _ a _ _ I Hwf Ht) as [_ (a1 & Hspec & I1)].
  unfold put_spec in Hspec. rewrite decide_False in Hspec by lia.
  destruct Hspec as (i' & x' & Hn' & Hx' & _ & ->). simplify_eq.
  replace (u64 (v + 1)) with (v + 1) in * by (unfold u64; rewrite Z.mod_small; lia).
  set (s1 := notifyChange rev (Broadcast e (set_db d s))).
  assert (version_at p d = v + 1) as Hv1.
  { destruct (inv_name_row _ _ I1 p (m_inode r) Hn) as (r1 & Hr1 & Hi1).
    destruct (inv_unpack _ _ I1 p r1 Hr1) as (y & _ & Hy & _ & Hvy & _). simpl in Hy.
    rewrite Hi1, lookup_insert_eq in Hy. unfold version_at. rewrite Hr1. simpl.
    rewrite Hvy. by simplify_eq. }
  destruct (revert_update now' al ws wa p
    (scanRevertRow (update_row now sid al ag p v r (i_chunks x) (session_journal (st_db s))))
    r (i_chunks x) (v + 1) s1 _ I1 Ha) as (e2 & rev2 & d2 & s2 & Ht2 & Hrev & Hcore & _);
    [| | done | done | | done | done | lia | done | done | lia |].
  - by eapply parent_ok_entries.
  - rewrite <- (update_row_latest now al ag p sid v r (i_chunks x) (st_db s) Hold).
    unfold latestRowForPath, rows_at. simpl. by rewrite Hj.
  - simpl. f_equal. rewrite (u64_i64 (u64 (v + 1))); unfold u64; rewrite Z.mod_small; lia.
  - exists s2, (m_inode r), x. split; [done |]. split; [done |]. split; [done |].
    destruct (putTx_refines now' p _ (prior_of p r (i_chunks x)) ws al wa _ _ _ _ I1 Hwf0 Ht2) as [_ (a2 & Hspec & I2)].
    eapply Inv_core; [by symmetry |]. unfold put_spec in Hspec. rewrite decide_False in Hspec by lia.
    destruct Hspec as (i2 & x2 & Hn2 & Hx2 & _ & ->). simpl in Hn2, Hx2. simplify_eq.
    rewrite lookup_insert_eq in Hx2. simplify_eq. simpl in I2.
    unfold spec_write in I2. simpl in I2. rewrite insert_insert_eq in I2.
    replace (u64 (v + 1 + 1)) with (v + 2) in I2 by (unfold u64; rewrite Z.mod_small; lia).
    unfold written, with_version in *. simpl in I2. by rewrite Hf1, Hf2, Hf3 in I2.
Qed.

(** A path whose live version is not the one its newest row left is reported as
    a concurrent write and nothing changes. *)
Theorem revert_conflict_safe al p ws wa s row live :
  latestRowForPath al p (st_db s) = Some row ->
  liveManifestVersion p (st_db s) = Ok live -> live <> je_AfterVersion row ->
  RevertPaths now al [p] None None ws wa false s =
  ((None, mkReport [] [mkConflict p ReasonConcurrentWriter]), s).
Proof.
  intros Hrow Hlive Hne. unfold RevertPaths. simpl. rewrite Hrow, Hlive. simpl.
  unfold equalOptVersion. by rewrite bool_decide_false.
Qed.
End claims.

(** ** Witnesses *)

#[local] Existing Instance flat_msgpack.

(** [/a] is written a second time by its session, then reverted by an operator. *)
Definition rewritten : mstore :=
  (Put 9 (str "/a") 1 (file_of (str "/a") h2 6) (str "s") (str "al") (str "ag") store1).2.

Lemma revert_undoes_write_witness :
  exists s2, RevertPaths 11 (str "al") [str "/a"] None None (str "revert:al") (str "op") false rewritten
    = ((None, mkReport [str "/a"] []), s2).
Proof.
  destruct store1_Inv as [a I].
  destruct (Get (str "/a") (st_db store1)) as [m0|] eqn:Hm0; [| vm_compute in Hm0; discriminate].
  destruct (revert_undoes_write (MP := flat_msgpack) (ML := flat_msgpack_laws) 9 11 (str "/a") 1 (file_of (str "/a") h2 6) (str "s") (str "al") (str "ag")
    (str "revert:al") (str "op") store1 a 2 rewritten m0) as (s2 & i & x & H & _).
  - exact I.
  - apply file_of_wf; [right; reflexivity | lia].
  - discriminate.
  - lia.
  - unfold older_rows. apply (bool_decide_unpack _). vm_compute. exact Logic.I.
  - exact Hm0.
  - vm_compute in Hm0. injection Hm0 as <-. reflexivity.
  - vm_compute in Hm0. injection Hm0 as <-. apply bool_decide_eq_true. apply (bool_decide_unpack _). vm_compute. exact Logic.I.
  - rewrite (surjective_pairing (Put _ _ _ _ _ _ _ _)). apply (f_equal2 pair); [| reflexivity].
    vm_compute. reflexivity.
  - exists s2. exact H.
Defined.

(** A later write without a session leaves the journal row behind the file. *)
Definition overtaken : mstore := (Put 9 (str "/a") 1 (file_of (str "/a") h2 6) [] [] [] store1).2.

Lemma revert_conflict_safe_witness :
  RevertPaths 11 (str "al") [str "/a"] None None (str "revert:al") (str "op") false overtaken =
  ((None, mkReport [] [mkConflict (str "/a") ReasonConcurrentWriter]), overtaken).
Proof.
  destruct (latestRowForPath (str "al") (str "/a") (st_db overtaken)) as [row|] eqn:Hrow;
    [| vm_compute in Hrow; discriminate].
  apply (revert_conflict_safe (MP := flat_msgpack) 11 (str "al") (str "/a") (str "revert:al") (str "op") overtaken row (Some 2)).
  - exact Hrow.
  - vm_compute. reflexivity.
  - vm_compute in Hrow. injection Hrow as <-. discriminate.
Defined.
