(* ===== verification/ChunkStore.v ===== *)
(** * The chunk store

    Content-addressed files [<root>/<first 2 hex>/<hash hex>] (chunkstore.go,
    chunkstore_batch_posix.go, backing_capacity.go).  The files are a map from
    (shard directory, file name) to contents; temporary files are never visible
    under a chunk name and are left out.  [blake3] is the hash library's
    function.  Reads, [Lstat] and [unlink] of the disk succeed or report a
    missing file; a write may fail or stall, and what happens is an argument. *)

From S2P Require Import Prelude GoPath Codec TenantDB.

(** ** State *)

Record chunkStore := mkCS {
  files : gmap (gostr * gostr) blob;
  shardDirs : gset gostr;
  knownShard : gset Z }.

Inductive cs_err :=
| ErrHashLen | ErrHashMismatch | errBackingQuota | errBackingStall | ErrIO | ErrNotExist.

Definition shardName (h : hash) : gostr := take 2 (hex_encode h).
Definition pathOf (h : hash) : gostr * gostr := (shardName h, hex_encode h).

Definition Path (h : hash) : option (gostr * gostr) :=
  if decide (length h = HashLen) then Some (pathOf h) else None.

(** The byte [hash[0]], which selects the shard hint and the lock. *)
Definition first_byte (h : hash) : Z := hd 0 h.

(** A directory name of one hex byte marks its shard as known. *)
Definition NewChunkStore (fs : gmap (gostr * gostr) blob) (dirs : gset gostr) : chunkStore :=
  mkCS fs dirs
    (list_to_set (omap (fun n => match hex_decode n with Some [b] => Some b | _ => None end)
                    (elements dirs))).

(** ** The capacity guard *)

Record backingCapacity := mkCap { bc_avail : Z; bc_at : Z; bc_sampled : bool }.

(** [statfs] is the result of the probe, were it made now. *)
Definition available (ttl now : Z) (statfs : option Z) (b : backingCapacity)
    : option Z * backingCapacity :=
  if bc_sampled b && (now - bc_at b <? ttl) then (Some (bc_avail b), b)
  else match statfs with
       | None => (None, b)
       | Some a => (Some a, mkCap a now true)
       end.

Definition capacityCheck (ttl now : Z) (statfs : option Z) (need : Z) (b : backingCapacity)
    : option cs_err * backingCapacity :=
  let '(a, b') := available ttl now statfs b in
  (match a with
   | Some avail => if avail <? need then Some errBackingQuota else None
   | None => None
   end, b').

(** ** [Put] *)

Definition maxChunkBytes : Z := 20 * 1024 * 1024.

(** How the write, fsync, close and rename of the temporary file end. *)
Inductive writeOutcome := WriteDone | WriteFailed | WriteStalled.

Section put.
Context (blake3 : blob -> hash).

(** [cap] is the answer of the capacity guard ([None] when it lets the write
    pass or is not configured). *)
Definition putUnlocked (cap : option cs_err) (wr : writeOutcome) (h : hash) (data : blob)
    (cs : chunkStore) : result cs_err bool * chunkStore :=
  if decide (length h <> HashLen) then (Err ErrHashLen, cs)
  else if decide (blake3 data <> h) then (Err ErrHashMismatch, cs)
  else
    let cs := mkCS (files cs) (shardDirs cs) ({[ first_byte h ]} ∪ knownShard cs) in
    match files cs !! pathOf h with
    | Some _ => (Ok false, cs)
    | None =>
        match cap with
        | Some e => (Err e, cs)
        | None =>
            let cs := mkCS (files cs) ({[ shardName h ]} ∪ shardDirs cs) (knownShard cs) in
            match wr with
            | WriteFailed => (Err ErrIO, cs)
            | WriteStalled => (Err errBackingStall, cs)
            | WriteDone => (Ok true, mkCS (<[pathOf h := data]> (files cs)) (shardDirs cs) (knownShard cs))
            end
        end
    end.
End put.

Definition chunkGet (h : hash) (cs : chunkStore) : result cs_err blob :=
  match Path h with
  | None => Err ErrHashLen
  | Some p => match files cs !! p with Some data => Ok data | None => Err ErrNotExist end
  end.

(** ** Batches *)

Inductive chunkBatchOperation := chunkBatchHas | chunkBatchDelete.

Record chunkBatchItem := mkItem { indices : list nat; it_name : gostr }.

Record batchGroups := mkBG {
  grouped : gmap gostr (list chunkBatchItem);
  seen : gmap gostr nat }.

Definition add_index (i : nat) (it : chunkBatchItem) : chunkBatchItem :=
  mkItem (indices it ++ [i]) (it_name it).

(** The body of the grouping loop of [runChunkBatch] for [hashes[i] = h]. *)
Definition groupOne (dedup : bool) (op : chunkBatchOperation) (known : gset Z)
    (acc : batchGroups) (ih : nat * hash) : batchGroups :=
  let '(i, h) := ih in
  let name := hex_encode h in
  let shard := shardName h in
  let items := default [] (grouped acc !! shard) in
  match op, decide (first_byte h ∈ known) with
  | chunkBatchHas, right _ => acc
  | _, _ =>
      let append seen' :=
        mkBG (<[shard := items ++ [mkItem [i] name]]> (grouped acc)) seen' in
      if dedup then
        match seen acc !! name with
        | Some offset => mkBG (<[shard := alter (add_index i) offset items]> (grouped acc)) (seen acc)
        | None => append (<[name := length items]> (seen acc))
        end
      else append (seen acc)
  end.

Definition groupAll (dedup : bool) (op : chunkBatchOperation) (known : gset Z)
    (hs : list (nat * hash)) : batchGroups :=
  foldl (groupOne dedup op known) (mkBG ∅ ∅) hs.

Definition set_all (is_ : list nat) (b : bool) (r : list bool) : list bool :=
  foldl (fun r i => <[i := b]> r) r is_.

(** [visitChunkShard] on one item, and the store of its result. *)
Definition visitItem (op : chunkBatchOperation) (shard : gostr)
    (st : list bool * gmap (gostr * gostr) blob) (it : chunkBatchItem)
    : list bool * gmap (gostr * gostr) blob :=
  let '(results, fs) := st in
  let b := bool_decide (is_Some (fs !! (shard, it_name it))) in
  (set_all (indices it) b results,
   match op with chunkBatchHas => fs | chunkBatchDelete => delete (shard, it_name it) fs end).

(** [process]: a delete of a missing shard directory touches nothing. *)
Definition processGroup (op : chunkBatchOperation) (dirs : gset gostr)
    (st : list bool * gmap (gostr * gostr) blob) (g : gostr * list chunkBatchItem)
    : list bool * gmap (gostr * gostr) blob :=
  match op, decide (g.1 ∈ dirs) with
  | chunkBatchDelete, right _ => st
  | _, _ => foldl (visitItem op g.1) st g.2
  end.

Definition indexed {A} (l : list A) : list (nat * A) := zip (seq 0 (length l)) l.

(** [order] is the order in which the groups happen to be processed: a Go map
    iterates in any order, and the workers of a delete run concurrently, each
    on a shard of its own. *)
Definition runChunkBatch (order : list (gostr * list chunkBatchItem) -> list (gostr * list chunkBatchItem))
    (dedup : bool) (op : chunkBatchOperation) (hashes : list hash) (cs : chunkStore)
    : result cs_err (list bool * chunkStore) :=
  if decide (Forall (fun h : hash => length h = HashLen) hashes) then
    let groups := order (map_to_list (grouped (groupAll dedup op (knownShard cs) (indexed hashes)))) in
    let '(results, fs) :=
      foldl (processGroup op (shardDirs cs)) (replicate (length hashes) false, files cs) groups in
    Ok (results, mkCS fs (shardDirs cs) (knownShard cs))
  else Err ErrHashLen.

Section batches.
Context (order : list (gostr * list chunkBatchItem) -> list (gostr * list chunkBatchItem)).

Definition HasMany (hashes : list hash) (cs : chunkStore) : result cs_err (list bool) :=
  if decide (Forall (fun h : hash => length h = HashLen) hashes) then
    if decide (NoDup hashes /\ Forall (fun h => first_byte h ∈ knownShard cs) hashes) then
      Ok ((fun h => bool_decide (is_Some (files cs !! pathOf h))) <$> hashes)
    else
      match runChunkBatch order true chunkBatchHas hashes cs with
      | Ok (out, _) => Ok out
      | Err e => Err e
      end
  else Err ErrHashLen.

Definition Has (h : hash) (cs : chunkStore) : result cs_err bool :=
  match HasMany [h] cs with Ok l => Ok (default false (head l)) | Err e => Err e end.

Definition deleteManyUnlocked (hashes : list hash) (cs : chunkStore)
    : result cs_err (list bool * chunkStore) :=
  runChunkBatch order false chunkBatchDelete hashes cs.
End batches.

(** ** Hash locks

    The shards to lock, in the order they are locked. *)
Definition allShards : list Z := seqZ 0 256.

Definition lockHashes (hashes : list hash) : option (list Z) :=
  if decide (Forall (fun h : hash => length h = HashLen) hashes) then
    Some (filter (fun b => b ∈ first_byte <$> hashes) allShards)
  else None.

Definition lockAllHashes : list Z := allShards.

(** ** What is on disk *)

Definition on_disk (h : hash) (cs : chunkStore) : bool :=
  bool_decide (is_Some (files cs !! pathOf h)).

Record cs_ok (blake3 : blob -> hash) (cs : chunkStore) : Prop := {
  cs_file : forall k data, files cs !! k = Some data ->
    exists h, wf_hash h /\ k = pathOf h /\ blake3 data = h /\
      shardName h ∈ shardDirs cs /\ first_byte h ∈ knownShard cs }.

(** ** Paths *)

Lemma hex_encode_inj a b :
  Forall is_byte a -> Forall is_byte b -> hex_encode a = hex_encode b -> a = b.
Proof.
  intros Ha Hb E. apply (f_equal hex_decode) in E. rewrite !hex_decode_encode in E by done.
  congruence.
Qed.

Lemma pathOf_inj a b : wf_hash a -> wf_hash b -> pathOf a = pathOf b -> a = b.
Proof. intros [_ ?] [_ ?] [= _ ?]. by apply hex_encode_inj. Qed.

Lemma shardName_first h : wf_hash h -> hex_decode (shardName h) = Some [first_byte h].
Proof.
  intros [Hl Hb]. destruct h as [|b h]; [done |]. apply Forall_cons in Hb as [Hb _].
  change (shardName (b :: h)) with (hex_encode [b]). by rewrite hex_decode_encode by auto.
Qed.

Lemma NewChunkStore_ok blake3 fs dirs :
  (forall k data, fs !! k = Some data ->
     exists h, wf_hash h /\ k = pathOf h /\ blake3 data = h /\ shardName h ∈ dirs) ->
  cs_ok blake3 (NewChunkStore fs dirs).
Proof.
  intros H. split. simpl. intros k data Hk. destruct (H k data Hk) as (h & Hw & -> & Hh & Hd).
  exists h. repeat (split; [done |]). apply elem_of_list_to_set, list_elem_of_omap.
  exists (shardName h). rewrite elem_of_elements, shardName_first by done. done.
Qed.

(** ** Storing and reading *)

Lemma putUnlocked_ok blake3 cap wr h data cs :
  (forall d, wf_hash (blake3 d)) -> cs_ok blake3 cs ->
  cs_ok blake3 (putUnlocked blake3 cap wr h data cs).2.
Proof.
  intros Hb O. unfold putUnlocked. case_decide; [done |]. destruct (decide _) as [|Hh]; [done |].
  apply dec_stable in Hh. subst h.
  assert (forall dirs, shardDirs cs ⊆ dirs ->
    cs_ok blake3 (mkCS (files cs) dirs ({[ first_byte (blake3 data) ]} ∪ knownShard cs))) as W.
  { intros dirs Hd. split. simpl. intros k x Hk. destruct (cs_file _ _ O k x Hk) as (h & ? & ? & ? & ? & ?).
    exists h. set_solver. }
  simpl. destruct (files cs !! _); [by apply W |]. destruct cap; [by apply W |].
  destruct wr; simpl; [| apply W; set_solver | apply W; set_solver].
  split. simpl. intros k x. rewrite lookup_insert_Some. intros [[<- <-]|[Hne Hk]].
  - exists (blake3 data). set_solver.
  - destruct (cs_file _ _ O k x Hk) as (h & ? & ? & ? & ? & ?). exists h. set_solver.
Qed.

Lemma on_disk_put blake3 cap wr h data cs b cs' k :
  putUnlocked blake3 cap wr h data cs = (Ok b, cs') -> wf_hash k -> (forall d, wf_hash (blake3 d)) ->
  on_disk k cs' = bool_decide (k = h) || on_disk k cs.
Proof.
  intros Hp Hk Hb. unfold putUnlocked in Hp. case_decide; [done |].
  destruct (decide _) as [|Hh]; [done |]. apply dec_stable in Hh. subst h. simpl in Hp.
  unfold on_disk. destruct (files cs !! pathOf (blake3 data)) eqn:E.
  - injection Hp as [= <- <-]. simpl. destruct (decide (k = blake3 data)) as [->|Hne].
    + by rewrite E, !bool_decide_true by eauto.
    + by rewrite (bool_decide_false (k = _)).
  - destruct cap, wr; simplify_eq. simpl.
    destruct (decide (k = blake3 data)) as [->|Hne].
    + by rewrite lookup_insert_eq, !bool_decide_true by eauto.
    + rewrite lookup_insert_ne; [by rewrite (bool_decide_false (k = _)) |].
      intros ?%pathOf_inj; auto.
Qed.

(** ** Results by index *)

Lemma length_set_all is_ b r : length (set_all is_ b r) = length r.
Proof.
  unfold set_all. revert r. induction is_ as [|i is_ IH]; intros r; [done |]. simpl.
  by rewrite IH, length_insert.
Qed.

Lemma set_all_out is_ b r j : j ∉ is_ -> set_all is_ b r !! j = r !! j.
Proof.
  unfold set_all. revert r. induction is_ as [|i is_ IH]; intros r Hj; [done |].
  apply not_elem_of_cons in Hj as [? ?]. simpl. rewrite IH by done. by apply list_lookup_insert_ne.
Qed.

Lemma set_all_in is_ b r j : j ∈ is_ -> (j < length r)%nat -> set_all is_ b r !! j = Some b.
Proof.
  unfold set_all. revert r. induction is_ as [|i is_ IH]; intros r Hj Hl; [by apply not_elem_of_nil in Hj |].
  simpl. destruct (decide (j ∈ is_)) as [Hin|Hin].
  - apply IH; [done |]. by rewrite length_insert.
  - assert (j = i) as -> by (apply elem_of_cons in Hj; tauto).
    fold (set_all is_ b (<[i:=b]> r)). rewrite set_all_out by done. by apply list_lookup_insert_eq.
Qed.

Lemma lookup_indexed {A} (l : list A) i x : (i, x) ∈ indexed l <-> l !! i = Some x.
Proof.
  unfold indexed. rewrite list_elem_of_lookup. split.
  - intros (k & Hk). apply lookup_zip_Some in Hk as [Hs Hl].
    apply lookup_seq in Hs as [-> _]. done.
  - intros Hl. exists i. apply lookup_zip_Some. split; [| done].
    apply lookup_seq. split; [done |]. by eapply lookup_lt_Some.
Qed.

Lemma indexed_fst {A} (l : list A) : (indexed l).*1 = seq 0 (length l).
Proof. unfold indexed. apply fst_zip. by rewrite length_seq. Qed.

(** The items of all groups, with their shards. *)
Definition flat (gs : list (gostr * list chunkBatchItem)) : list (gostr * chunkBatchItem) :=
  gs ≫= fun g => (fun it => (g.1, it)) <$> g.2.

Lemma elem_of_flat s it gs : (s, it) ∈ flat gs <-> exists its, (s, its) ∈ gs /\ it ∈ its.
Proof.
  unfold flat. rewrite list_elem_of_bind. split.
  - intros ([s' its] & Hin & Hg). apply list_elem_of_fmap in Hin as (it' & [= -> ->] & Hit). eauto.
  - intros (its & Hg & Hit). exists (s, its). split; [| done]. apply list_elem_of_fmap. by exists it.
Qed.

Lemma foldl_fmap {A B C} (f : A -> B -> A) (g : C -> B) l a :
  foldl f a (g <$> l) = foldl (fun a x => f a (g x)) a l.
Proof. revert a. induction l; simpl; auto. Qed.

(** ** Presence batches *)

Definition visit (op : chunkBatchOperation) (st : list bool * gmap (gostr * gostr) blob)
    (x : gostr * chunkBatchItem) := visitItem op x.1 st x.2.

Lemma process_has dirs gs st :
  foldl (processGroup chunkBatchHas dirs) st gs = foldl (visit chunkBatchHas) st (flat gs).
Proof.
  revert st. induction gs as [|[s its] gs IH]; intros st; [done |].
  change (flat ((s, its) :: gs)) with (((fun it => (s, it)) <$> its) ++ flat gs).
  rewrite foldl_app, foldl_fmap. simpl. rewrite IH. unfold processGroup, visit. simpl.
  by destruct (decide (s ∈ dirs)).
Qed.

(** Every item of [L] that covers an index carries the path of the hash at that
    index. *)
Definition labels (hashes : list hash) (L : list (gostr * chunkBatchItem)) : Prop :=
  forall s it i, (s, it) ∈ L -> i ∈ indices it ->
    exists h, hashes !! i = Some h /\ (s, it_name it) = pathOf h.

Lemma visit_has hashes L r fs :
  labels hashes L -> length r = length hashes ->
  let st := foldl (visit chunkBatchHas) (r, fs) L in
  st.2 = fs /\ length st.1 = length hashes /\
  forall j h, hashes !! j = Some h ->
    ((exists s it, (s, it) ∈ L /\ j ∈ indices it) ->
       st.1 !! j = Some (bool_decide (is_Some (fs !! pathOf h)))) /\
    ((forall s it, (s, it) ∈ L -> j ∉ indices it) -> st.1 !! j = r !! j).
Proof.
  revert r. induction L as [|[s it] L IH]; intros r HL Hr; simpl.
  { split; [done |]. split; [done |]. intros j h Hj. split; [| done].
    intros (s & it & Hin & _). by apply not_elem_of_nil in Hin. }
  set (b := bool_decide (is_Some (fs !! (s, it_name it)))).
  change (visit chunkBatchHas (r, fs) (s, it)) with (set_all (indices it) b r, fs).
  destruct (IH (set_all (indices it) b r)) as (Hfs & Hlen & Hst).
  { intros ? ? ? Hin. apply HL. by apply elem_of_cons; right. }
  { by rewrite length_set_all. }
  split; [done |]. split; [done |]. intros j h Hj. destruct (Hst j h Hj) as [Hin Hout].
  assert (Decision (exists x, x ∈ L /\ j ∈ indices x.2)) as D.
  { destruct (decide (Exists (fun x => j ∈ indices x.2) L)) as [E|E]; [left | right].
    - by apply Exists_exists in E.
    - intros ?%Exists_exists. done. }
  split.
  - intros (s' & it' & Hx & Hi). destruct D as [([s2 it2] & HL2 & Hi2)|D]; [eauto |].
    rewrite Hout by (intros s2 it2 H2 Hi2; apply D; by exists (s2, it2)).
    apply elem_of_cons in Hx as [[= -> ->]|Hx]; [| exfalso; apply D; by exists (s', it')].
    rewrite set_all_in; [| done |].
    + destruct (HL s it j) as (h' & Hh' & Hp); [by apply elem_of_cons; left | done |].
      rewrite Hj in Hh'. injection Hh' as [= <-]. unfold b. by rewrite Hp.
    + rewrite Hr. by eapply lookup_lt_Some.
  - intros Hno. rewrite Hout; [apply set_all_out |].
    + apply (Hno s). by apply elem_of_cons; left.
    + intros s' it' H'. apply (Hno s'). by apply elem_of_cons; right.
Qed.

(** The grouping loop after the prefix [hs] of the indexed hashes. *)
Record groups_ok (known : gset Z) (hs : list (nat * hash)) (g : batchGroups) : Prop := {
  go_label : forall s its it i, grouped g !! s = Some its -> it ∈ its -> i ∈ indices it ->
    exists h, (i, h) ∈ hs /\ (s, it_name it) = pathOf h;
  go_cover : forall i h, (i, h) ∈ hs -> first_byte h ∈ known ->
    exists its it, grouped g !! shardName h = Some its /\ it ∈ its /\ i ∈ indices it;
  go_seen : forall h off, seen g !! hex_encode h = Some off ->
    exists its it, grouped g !! shardName h = Some its /\ its !! off = Some it /\
      it_name it = hex_encode h }.

Lemma elem_of_snoc {A} (l : list A) x y : x ∈ l ++ [y] <-> x ∈ l \/ x = y.
Proof. rewrite elem_of_app, list_elem_of_singleton. done. Qed.

Lemma groups_ok_weaken known hs g x :
  groups_ok known hs g -> first_byte x.2 ∉ known -> groups_ok known (hs ++ [x]) g.
Proof.
  intros [H1 H2 H3] Hx. split; [| | done].
  - intros s its it i Hs Hit Hi. destruct (H1 s its it i) as (h & ? & ?); auto.
    exists h. rewrite elem_of_snoc. auto.
  - intros i h. rewrite elem_of_snoc. intros [Hin|<-]; [by apply H2 | done].
Qed.

(** A new item at the end of its group. *)
Lemma groups_ok_append known hs g i h :
  groups_ok known hs g ->
  groups_ok known (hs ++ [(i, h)])
    (mkBG (<[shardName h := default [] (grouped g !! shardName h) ++ [mkItem [i] (hex_encode h)]]>
             (grouped g))
          (<[hex_encode h := length (default [] (grouped g !! shardName h))]> (seen g))).
Proof.
  intros [H1 H2 H3]. set (items := default [] (grouped g !! shardName h)).
  assert (forall s its it, grouped g !! s = Some its -> it ∈ its -> exists its',
    <[shardName h := items ++ [mkItem [i] (hex_encode h)]]> (grouped g) !! s = Some its' /\ it ∈ its')
    as Hkeep.
  { intros s its it Hs Hit. destruct (decide (s = shardName h)) as [->|Hne].
    - rewrite lookup_insert_eq. eexists. split; [done |]. apply elem_of_snoc. left.
      unfold items. by rewrite Hs.
    - rewrite lookup_insert_ne by done. eauto. }
  split; simpl.
  - intros s its it j. rewrite lookup_insert_Some. intros [[<- <-]|[Hne Hs]] Hit Hj.
    + apply elem_of_snoc in Hit as [Hit|Hit].
      * destruct (grouped g !! shardName h) as [its0|] eqn:E; [| by apply not_elem_of_nil in Hit].
        destruct (H1 _ _ it j E Hit Hj) as (h' & ? & ?). exists h'. rewrite elem_of_snoc. auto.
      * subst it. simpl in Hj. apply list_elem_of_singleton in Hj as ->. exists h.
        rewrite elem_of_snoc. auto.
    + destruct (H1 _ _ it j Hs Hit Hj) as (h' & ? & ?). exists h'. rewrite elem_of_snoc. auto.
  - intros j h'. rewrite elem_of_snoc. intros [Hin|[= -> ->]] Hk.
    + destruct (H2 j h' Hin Hk) as (its & it & Hs & Hit & Hj).
      destruct (Hkeep _ _ _ Hs Hit) as (its' & ? & ?). eauto.
    + eexists _, (mkItem [i] (hex_encode h)). rewrite lookup_insert_eq. split; [done |].
      split; [apply elem_of_snoc; auto | by apply list_elem_of_singleton].
  - intros h' off. rewrite lookup_insert_Some. intros [[Heq <-]|[Hne Hs]].
    + unfold shardName. rewrite <- Heq. fold (shardName h). rewrite lookup_insert_eq.
      eexists _, _. split; [done |]. split; [by apply list_lookup_middle | done].
    + destruct (H3 h' off Hs) as (its & it & Hits & Hoff & Hn).
      destruct (decide (shardName h' = shardName h)) as [E|E].
      * rewrite E, lookup_insert_eq. eexists _, it. split; [done |]. split; [| done].
        unfold items. rewrite <- E, Hits. simpl. by apply lookup_app_l_Some.
      * rewrite lookup_insert_ne by congruence. eauto.
Qed.

(** One more index on the item of an equal hash. *)
Lemma groups_ok_join known hs g i h off :
  groups_ok known hs g -> seen g !! hex_encode h = Some off ->
  groups_ok known (hs ++ [(i, h)])
    (mkBG (<[shardName h := alter (add_index i) off (default [] (grouped g !! shardName h))]>
             (grouped g)) (seen g)).
Proof.
  intros [H1 H2 H3] Hoff. destruct (H3 h off Hoff) as (its & it & Hits & Hit & Hn).
  rewrite Hits. simpl. split; simpl.
  - intros s its' it' j. rewrite lookup_insert_Some. intros [[<- <-]|[Hne Hs]] Hit' Hj.
    + apply list_elem_of_lookup in Hit' as [k Hk]. destruct (decide (k = off)) as [->|Hk'].
      * rewrite list_lookup_alter_eq, Hit in Hk. apply (inj Some) in Hk as <-. simpl in *.
        apply elem_of_snoc in Hj as [Hj | ->].
        -- destruct (H1 _ _ it j Hits) as (h' & ? & ?); [by eapply list_elem_of_lookup_2 | done |].
           exists h'. rewrite elem_of_snoc. auto.
        -- exists h. rewrite elem_of_snoc. unfold pathOf. rewrite Hn. auto.
      * rewrite list_lookup_alter_ne in Hk by congruence.
        destruct (H1 _ _ it' j Hits) as (h' & ? & ?); [by eapply list_elem_of_lookup_2 | done |].
        exists h'. rewrite elem_of_snoc. auto.
    + destruct (H1 _ _ it' j Hs Hit' Hj) as (h' & ? & ?). exists h'. rewrite elem_of_snoc. auto.
  - intros j h'. rewrite elem_of_snoc. intros [Hin|[= -> ->]] Hk.
    + destruct (H2 j h' Hin Hk) as (its' & it' & Hs & Hit' & Hj).
      destruct (decide (shardName h' = shardName h)) as [E|E].
      * rewrite E in Hs |- *. rewrite lookup_insert_eq. assert (its' = its) as -> by congruence.
        apply list_elem_of_lookup in Hit' as [k Hk']. destruct (decide (k = off)) as [->|Hne].
        -- eexists _, (add_index i it'). split; [done |]. split.
           ++ apply (list_elem_of_lookup_2 _ off). by rewrite list_lookup_alter_eq, Hk'.
           ++ simpl. apply elem_of_snoc. auto.
        -- eexists _, it'. split; [done |]. split; [| done]. apply (list_elem_of_lookup_2 _ k).
           by rewrite list_lookup_alter_ne by congruence.
      * rewrite lookup_insert_ne by congruence. eauto.
    + eexists _, (add_index i it). rewrite lookup_insert_eq. split; [done |]. split.
      * apply (list_elem_of_lookup_2 _ off). by rewrite list_lookup_alter_eq, Hit.
      * simpl. apply elem_of_snoc. auto.
  - intros h' off' Hs. destruct (H3 h' off' Hs) as (its' & it' & Hs' & Hoff' & Hn').
    destruct (decide (shardName h' = shardName h)) as [E|E].
    + rewrite E in Hs' |- *. rewrite lookup_insert_eq. assert (its' = its) as -> by congruence.
      destruct (decide (off' = off)) as [->|Hne].
      * eexists _, (add_index i it'). rewrite list_lookup_alter_eq, Hoff'. done.
      * eexists _, it'. split; [done |]. split; [by rewrite list_lookup_alter_ne by congruence | done].
    + rewrite lookup_insert_ne by congruence. eauto.
Qed.

Lemma groupOne_ok known hs g x :
  groups_ok known hs g -> groups_ok known (hs ++ [x]) (groupOne true chunkBatchHas known g x).
Proof.
  destruct x as [i h]. intros H. unfold groupOne. destruct (decide _) as [Hk|Hk].
  - destruct (seen g !! hex_encode h) as [off|] eqn:E.
    + by apply groups_ok_join.
    + by apply groups_ok_append.
  - by apply groups_ok_weaken.
Qed.

Lemma groupAll_ok known hs : groups_ok known hs (groupAll true chunkBatchHas known hs).
Proof.
  unfold groupAll. induction hs as [|x hs IH] using rev_ind.
  - split; simpl; intros *.
    + by rewrite lookup_empty.
    + intros H. by apply not_elem_of_nil in H.
    + by rewrite lookup_empty.
  - rewrite foldl_app. by apply groupOne_ok.
Qed.

Lemma unknown_absent blake3 cs h :
  cs_ok blake3 cs -> wf_hash h -> first_byte h ∉ knownShard cs -> on_disk h cs = false.
Proof.
  intros O Hh Hk. apply bool_decide_eq_false. intros [x Hx].
  destruct (cs_file _ _ O _ _ Hx) as (h' & Hh' & Hp & _ & _ & Hk').
  by apply pathOf_inj in Hp as ->.
Qed.

Lemma no_dir_absent blake3 cs h :
  cs_ok blake3 cs -> wf_hash h -> shardName h ∉ shardDirs cs -> on_disk h cs = false.
Proof.
  intros O Hh Hk. apply bool_decide_eq_false. intros [x Hx].
  destruct (cs_file _ _ O _ _ Hx) as (h' & Hh' & Hp & _ & Hd' & _).
  by apply pathOf_inj in Hp as ->.
Qed.

Lemma HasMany_present blake3 order hashes cs :
  (forall l, order l ≡ₚ l) -> cs_ok blake3 cs -> Forall wf_hash hashes ->
  HasMany order hashes cs = Ok ((fun h => on_disk h cs) <$> hashes).
Proof.
  intros Ho O Hw. unfold HasMany. rewrite decide_True
    by (eapply Forall_impl; [exact Hw | by intros h [? _]]).
  case_decide; [done |]. unfold runChunkBatch. rewrite decide_True
    by (eapply Forall_impl; [exact Hw | by intros h [? _]]).
  set (g := groupAll true chunkBatchHas (knownShard cs) (indexed hashes)).
  pose proof (groupAll_ok (knownShard cs) (indexed hashes)) as G. fold g in G.
  rewrite process_has. set (L := flat (order (map_to_list (grouped g)))).
  assert (forall s it, (s, it) ∈ L <-> exists its, grouped g !! s = Some its /\ it ∈ its) as HLin.
  { intros s it. unfold L. rewrite elem_of_flat. setoid_rewrite Ho.
    by setoid_rewrite elem_of_map_to_list. }
  assert (labels hashes L) as HL.
  { intros s it i Hin Hi. apply HLin in Hin as (its & Hs & Hit).
    destruct (go_label _ _ _ G s its it i Hs Hit Hi) as (h & Hh & Hp). exists h.
    split; [by apply lookup_indexed | done]. }
  destruct (visit_has hashes L (replicate (length hashes) false) (files cs) HL) as (Hfs & Hlen & Hst).
  { by rewrite length_replicate. }
  destruct (foldl _ _ L) as [r fs]. simpl in *. f_equal. apply list_eq. intros j.
  rewrite list_lookup_fmap. destruct (hashes !! j) as [h|] eqn:Hj; simpl.
  - destruct (Hst j h Hj) as [Hin Hout]. destruct (decide (first_byte h ∈ knownShard cs)) as [Hk|Hk].
    + apply Hin. destruct (go_cover _ _ _ G j h) as (its & it & Hs & Hit & Hji);
        [by apply lookup_indexed | done |].
      exists (shardName h), it. split; [| done]. apply HLin. eauto.
    + assert (wf_hash h) as Hh by by eapply Forall_lookup_1.
      rewrite (unknown_absent blake3) by done.
      destruct (decide (Exists (fun x => j ∈ indices x.2) L)) as [Hx|Hno].
      * apply Exists_exists in Hx as ([s it] & Hx & Hji). rewrite Hin by eauto.
        f_equal. by apply (unknown_absent blake3).
      * rewrite Hout; [apply lookup_replicate; split; [done |]; by eapply lookup_lt_Some |].
        intros s it Hx Hji. apply Hno, Exists_exists. by exists (s, it).
  - apply lookup_ge_None. rewrite Hlen. by apply lookup_ge_None.
Qed.

(** ** Delete batches *)

Lemma process_delete dirs gs st :
  foldl (processGroup chunkBatchDelete dirs) st gs =
  foldl (visit chunkBatchDelete) st (flat (filter (fun g => g.1 ∈ dirs) gs)).
Proof.
  revert st. induction gs as [|[s its] gs IH]; intros st; [done |]. rewrite filter_cons. simpl.
  rewrite IH. unfold processGroup. simpl. destruct (decide (s ∈ dirs)); [| done].
  set (gs' := filter _ gs).
  change (flat ((s, its) :: gs')) with (((fun it => (s, it)) <$> its) ++ flat gs').
  by rewrite foldl_app, foldl_fmap.
Qed.

Definition item_path (x : gostr * chunkBatchItem) : gostr * gostr := (x.1, it_name x.2).

Lemma visit_delete hashes L r fs :
  labels hashes L -> NoDup (item_path <$> L) -> length r = length hashes ->
  let st := foldl (visit chunkBatchDelete) (r, fs) L in
  (forall k, st.2 !! k = if decide (k ∈ item_path <$> L) then None else fs !! k) /\
  length st.1 = length hashes /\
  forall j h, hashes !! j = Some h ->
    ((exists x, x ∈ L /\ j ∈ indices x.2) ->
       st.1 !! j = Some (bool_decide (is_Some (fs !! pathOf h)))) /\
    ((forall x, x ∈ L -> j ∉ indices x.2) -> st.1 !! j = r !! j).
Proof.
  revert r fs. induction L as [|[s it] L IH]; intros r fs HL ND Hr; simpl.
  { split; [done |]. split; [done |]. intros j h Hj. split; [| done].
    intros (x & Hin & _). by apply not_elem_of_nil in Hin. }
  apply NoDup_cons in ND as [Hnew ND].
  set (b := bool_decide (is_Some (fs !! (s, it_name it)))).
  change (visit chunkBatchDelete (r, fs) (s, it))
    with (set_all (indices it) b r, delete (s, it_name it) fs).
  destruct (IH (set_all (indices it) b r) (delete (s, it_name it) fs)) as (Hfs & Hlen & Hst); [| done | |].
  { intros ? ? ? Hin. apply HL. by apply elem_of_cons; right. }
  { by rewrite length_set_all. }
  split; [| split; [done |]].
  - intros k. rewrite Hfs. change (item_path <$> (s, it) :: L) with ((s, it_name it) :: (item_path <$> L)).
    destruct (decide (k ∈ item_path <$> L)) as [Hk|Hk].
    + rewrite decide_True; [done |]. by apply elem_of_cons; right.
    + destruct (decide (k = (s, it_name it))) as [->|Hne].
      * by rewrite lookup_delete_eq, decide_True by by apply elem_of_cons; left.
      * rewrite lookup_delete_ne by congruence. rewrite decide_False; [done |].
        rewrite elem_of_cons. tauto.
  - intros j h Hj. destruct (Hst j h Hj) as [Hin Hout].
    assert (forall s' it', (s', it') ∈ (s, it) :: L -> j ∈ indices it' -> (s', it_name it') = pathOf h) as Hlab.
    { intros s' it' Hx Hi. destruct (HL s' it' j Hx Hi) as (h' & ? & ?). congruence. }
    split.
    + intros ([s' it'] & Hx & Hi). pose proof (Hlab _ _ Hx Hi) as Hp.
      apply elem_of_cons in Hx as [[= -> ->]|Hx].
      * rewrite Hout.
        -- rewrite set_all_in; [by rewrite <- Hp | done |]. rewrite Hr. by eapply lookup_lt_Some.
        -- intros [s2 it2] H2 Hi2. apply Hnew. apply list_elem_of_fmap. exists (s2, it2).
           split; [| done]. unfold item_path. simpl. simpl in Hi2.
           rewrite (Hlab s2 it2), <- Hp; [done | | done]. by apply elem_of_cons; right.
      * rewrite Hin by eauto. rewrite <- Hp. rewrite lookup_delete_ne; [done |]. intros E. apply Hnew.
        apply list_elem_of_fmap. by exists (s', it').
    + intros Hno. rewrite Hout; [apply set_all_out |].
      * apply (Hno (s, it)). by apply elem_of_cons; left.
      * intros x H'. apply Hno. by apply elem_of_cons; right.
Qed.

(** Without deduplication every index has an item of its own. *)
Definition item_of (x : nat * hash) : gostr * chunkBatchItem :=
  (shardName x.2, mkItem [x.1] (hex_encode x.2)).

Lemma flat_insert (g : gmap gostr (list chunkBatchItem)) s it :
  flat (map_to_list (<[s := default [] (g !! s) ++ [it]]> g)) ≡ₚ flat (map_to_list g) ++ [(s, it)].
Proof.
  assert (forall its m, m !! s = None ->
    flat (map_to_list (<[s := its]> m)) ≡ₚ ((fun it => (s, it)) <$> its) ++ flat (map_to_list m)) as H.
  { intros its m Hm. unfold flat. by rewrite map_to_list_insert by done. }
  rewrite <- insert_delete_eq, H, fmap_app by apply lookup_delete_eq. simpl.
  destruct (g !! s) as [its|] eqn:E; simpl.
  - pose proof (H its (delete s g) (lookup_delete_eq _ _)) as H2.
    rewrite insert_delete_id in H2 by done. rewrite H2. solve_Permutation.
  - rewrite delete_id by done. solve_Permutation.
Qed.

Lemma groupAll_items known hs :
  flat (map_to_list (grouped (groupAll false chunkBatchDelete known hs))) ≡ₚ item_of <$> hs.
Proof.
  unfold groupAll. induction hs as [|[i h] hs IH] using rev_ind; [done |].
  rewrite foldl_app, fmap_app, <- IH. simpl. apply flat_insert.
Qed.

Lemma NoDup_fmap_inj_on {A B} (f : A -> B) (P : A -> Prop) l :
  (forall x y, P x -> P y -> f x = f y -> x = y) -> Forall P l -> NoDup l -> NoDup (f <$> l).
Proof.
  intros Hf HP ND. induction ND as [|x l Hx ND IH]; simpl; [constructor |].
  apply Forall_cons in HP as [Hpx HP]. apply NoDup_cons. split; [| by apply IH].
  intros (y & E & Hy)%list_elem_of_fmap. apply Hf in E as ->; [done | done |].
  by eapply Forall_forall in HP.
Qed.

Lemma elem_of_flat_filter dirs gs x :
  x ∈ flat (filter (fun g => g.1 ∈ dirs) gs) <-> x ∈ flat gs /\ x.1 ∈ (dirs : gset gostr).
Proof.
  destruct x as [s it]. rewrite !elem_of_flat. setoid_rewrite list_elem_of_filter. simpl. split.
  - intros (its & [Hd Hg] & Hit). eauto.
  - intros [(its & Hg & Hit) Hd]. eauto.
Qed.

Lemma flat_filter_sublist (dirs : gset gostr) gs :
  flat (filter (fun g => g.1 ∈ dirs) gs) `sublist_of` flat gs.
Proof.
  induction gs as [|[s its] gs IH]; [done |]. rewrite filter_cons. simpl. set (gs' := filter _ gs) in *.
  change (flat ((s, its) :: gs)) with (((fun it => (s, it)) <$> its) ++ flat gs).
  case_decide; [| by apply sublist_inserts_l].
  change (flat ((s, its) :: gs')) with (((fun it => (s, it)) <$> its) ++ flat gs').
  by apply sublist_app.
Qed.

Section delete_batch.
Context (order : list (gostr * list chunkBatchItem) -> list (gostr * list chunkBatchItem)).
Hypothesis order_perm : forall l, order l ≡ₚ l.
Variables (known : gset Z) (hashes : list hash).

(** The items of a delete batch in the order they are visited. *)
Definition batch_items : list (gostr * chunkBatchItem) :=
  flat (order (map_to_list (grouped (groupAll false chunkBatchDelete known (indexed hashes))))).

Lemma batch_items_perm : batch_items ≡ₚ item_of <$> indexed hashes.
Proof. unfold batch_items. rewrite <- (groupAll_items known). unfold flat. by rewrite (order_perm _). Qed.

Lemma elem_of_batch_items x :
  x ∈ batch_items <-> exists i h, hashes !! i = Some h /\ x = item_of (i, h).
Proof.
  rewrite batch_items_perm, list_elem_of_fmap. split.
  - intros ([i h] & -> & Hin). apply lookup_indexed in Hin. eauto.
  - intros (i & h & Hi & ->). exists (i, h). by rewrite lookup_indexed.
Qed.

Lemma batch_items_NoDup : Forall wf_hash hashes -> NoDup hashes -> NoDup (item_path <$> batch_items).
Proof.
  intros Hw ND. rewrite batch_items_perm, <- list_fmap_compose.
  replace (item_path ∘ item_of) with (pathOf ∘ (snd : nat * hash -> hash)) by done.
  rewrite list_fmap_compose. unfold indexed. rewrite snd_zip by by rewrite length_seq.
  apply (NoDup_fmap_inj_on _ wf_hash); [by apply pathOf_inj | done | done].
Qed.

Lemma batch_items_labels (L : list (gostr * chunkBatchItem)) :
  (forall x, x ∈ L -> x ∈ batch_items) -> labels hashes L.
Proof.
  intros HL s it i Hin Hi. apply HL, elem_of_batch_items in Hin as (i' & h & Hh & [= -> ->]).
  simpl in Hi. apply list_elem_of_singleton in Hi as ->. by exists h.
Qed.

(** The reference behaviour of [DeleteMany] on distinct hashes, whatever the
    order of the groups. *)
Lemma deleteManyUnlocked_spec blake3 cs :
  knownShard cs = known -> cs_ok blake3 cs -> Forall wf_hash hashes -> NoDup hashes ->
  exists cs', deleteManyUnlocked order hashes cs = Ok ((fun h => on_disk h cs) <$> hashes, cs') /\
    (forall k, files cs' !! k = if decide (k ∈ pathOf <$> hashes) then None else files cs !! k) /\
    shardDirs cs' = shardDirs cs /\ knownShard cs' = knownShard cs.
Proof.
  intros Hknown O Hw ND. unfold deleteManyUnlocked, runChunkBatch. rewrite decide_True
    by (eapply Forall_impl; [exact Hw | by intros h [? _]]).
  rewrite process_delete, Hknown. set (L := flat (filter _ _)).
  assert (forall x, x ∈ L <-> x ∈ batch_items /\ x.1 ∈ shardDirs cs) as HL
    by (intros x; apply elem_of_flat_filter).
  destruct (visit_delete hashes L (replicate (length hashes) false) (files cs)) as (Hfs & Hlen & Hst).
  { apply batch_items_labels. intros x. rewrite HL. tauto. }
  { eapply sublist_NoDup; [by apply batch_items_NoDup |]. apply fmap_sublist, flat_filter_sublist. }
  { by rewrite length_replicate. }
  destruct (foldl _ _ L) as [r fs]. simpl in *.
  exists (mkCS fs (shardDirs cs) known). split; [| split; [| done]].
  - do 2 f_equal. apply list_eq. intros j. rewrite list_lookup_fmap.
    destruct (hashes !! j) as [h|] eqn:Hj; simpl.
    2: { apply lookup_ge_None. rewrite Hlen. by apply lookup_ge_None. }
    destruct (Hst j h Hj) as [Hin Hout]. destruct (decide (shardName h ∈ shardDirs cs)) as [Hd|Hd].
    + apply Hin. exists (item_of (j, h)). rewrite HL, elem_of_batch_items. simpl.
      rewrite list_elem_of_singleton. eauto 6.
    + rewrite (no_dir_absent blake3) by (done || by eapply Forall_lookup_1). rewrite Hout.
      * apply lookup_replicate. split; [done |]. by eapply lookup_lt_Some.
      * intros x [(i & h' & Hh' & ->)%elem_of_batch_items Hdir]%HL Hi.
        simpl in *. apply list_elem_of_singleton in Hi as ->. congruence.
  - intros k. simpl. rewrite Hfs. destruct (decide (k ∈ item_path <$> L)) as [Hk|Hk].
    + rewrite decide_True; [done |]. apply list_elem_of_fmap in Hk as (x & -> & Hx).
      apply HL in Hx as [(i & h & Hh & ->)%elem_of_batch_items _]. apply list_elem_of_fmap. exists h.
      split; [done |]. by eapply list_elem_of_lookup_2.
    + case_decide as Hk'; [| done]. apply list_elem_of_fmap in Hk' as (h & -> & Hh).
      apply eq_None_not_Some. intros Hs. destruct (decide (shardName h ∈ shardDirs cs)) as [Hd|Hd].
      * destruct Hk. apply list_elem_of_fmap. apply list_elem_of_lookup in Hh as [i Hi].
        exists (item_of (i, h)). rewrite HL, elem_of_batch_items. eauto 6.
      * rewrite Forall_forall in Hw.
        pose proof (no_dir_absent blake3 cs h O (Hw h Hh) Hd) as Ha. by apply bool_decide_eq_false in Ha.
Qed.
End delete_batch.

Lemma deleteMany_ok blake3 cs cs' (hashes : list hash) :
  cs_ok blake3 cs ->
  (forall k, files cs' !! k = if decide (k ∈ pathOf <$> hashes) then None else files cs !! k) ->
  shardDirs cs' = shardDirs cs -> knownShard cs' = knownShard cs -> cs_ok blake3 cs'.
Proof.
  intros O Hf Hd Hk. split. intros k data. rewrite Hf, Hd, Hk. case_decide; [done |].
  apply (cs_file _ _ O).
Qed.

Lemma on_disk_delete cs cs' (hashes : list hash) h :
  Forall wf_hash hashes -> wf_hash h ->
  (forall k, files cs' !! k = if decide (k ∈ pathOf <$> hashes) then None else files cs !! k) ->
  on_disk h cs' = on_disk h cs && negb (bool_decide (h ∈ hashes)).
Proof.
  intros Hw Hh Hf. unfold on_disk. rewrite Hf. rewrite Forall_forall in Hw.
  destruct (decide (pathOf h ∈ pathOf <$> hashes)) as [Hin|Hin].
  - apply list_elem_of_fmap in Hin as (h' & E & Hin). apply pathOf_inj in E as ->; auto.
    rewrite (bool_decide_true (h' ∈ hashes)) by done. by rewrite andb_false_r.
  - rewrite (bool_decide_false (h ∈ hashes)), andb_true_r; [done |].
    intros H. apply Hin, list_elem_of_fmap. eauto.
Qed.
