(* ===== verification/Gc.v ===== *)
(** * Chunk garbage collection and agent purge

    The sweep of unreferenced chunks (gc.go) and the removal of an agent's
    subtree (control_purge_agent.go).  A sweep runs its batches one after the
    other; the interleaving with manifest writes is the subject of Disk.v. *)

From S2P Require Import Prelude GoPath Codec TenantDB Journal Manifests FileSpec Refine Changes ChunkStore.

(** ** Garbage collection *)

Record gcConfig := mkGcConfig { BatchSize : Z; DryRun : bool }.

Record gcCandidate := mkCandidate { gc_hash : hash; gc_size : Z }.

Definition collectable (cutoff : Z) (c : chrow) : bool :=
  (ch_refcount c =? 0) && (ch_added_at c <? cutoff).

Definition older (a b : hash * chrow) : Prop := ch_added_at a.2 <= ch_added_at b.2.

#[export] Instance older_dec : RelDecision older.
Proof. intros a b. unfold older. apply _. Defined.

(** [order by added_at asc limit ?]: rows of one second come in any order, and
    a negative limit is no limit. *)
Definition sql_limit {A} (limit : Z) (l : list A) : list A :=
  if limit <? 0 then l else take (Z.to_nat limit) l.

Definition selectGCCandidates (cutoff limit : Z) (d : tdb) : list gcCandidate :=
  (fun hc => mkCandidate hc.1 (u64 (ch_size hc.2))) <$>
    sql_limit limit
      (merge_sort older
         (map_to_list (filter (fun hc => collectable cutoff hc.2 = true) (chunks d)))).

(** The rows that still satisfy the predicate when they are deleted. *)
Fixpoint deleteGCBatch (cutoff : Z) (candidates : list gcCandidate) (d : tdb)
    : list gcCandidate * Z * tdb :=
  match candidates with
  | [] => ([], 0, d)
  | c :: cs =>
      match chunks d !! gc_hash c with
      | Some r =>
          if collectable cutoff r then
            let '(del, freed, d') := deleteGCBatch cutoff cs (set_chunks (delete (gc_hash c) (chunks d)) d) in
            (c :: del, u64 (gc_size c + freed), d')
          else deleteGCBatch cutoff cs d
      | None => deleteGCBatch cutoff cs d
      end
  end.

Record sweepResult := mkSweep { sw_Count : Z; sw_BytesFreed : Z }.

Section sweep.
Context (order : list (gostr * list chunkBatchItem) -> list (gostr * list chunkBatchItem)).

(** [budget] is how often the clock is still before the deadline. *)
Fixpoint sweepTenant (budget : nat) (cfg : gcConfig) (cutoff : Z) (res : sweepResult)
    (d : tdb) (cs : chunkStore) : option sweepResult * tdb * chunkStore :=
  match budget with
  | O => (Some res, d, cs)
  | S budget' =>
      match selectGCCandidates cutoff (BatchSize cfg) d with
      | [] => (Some res, d, cs)
      | candidates =>
          if DryRun cfg then
            (Some (foldl (fun r c => mkSweep (u64 (sw_Count r + 1)) (u64 (sw_BytesFreed r + gc_size c)))
                     res candidates), d, cs)
          else
            match lockHashes (gc_hash <$> candidates) with
            | None => (None, d, cs)
            | Some _ =>
                let '(del, freed, d') := deleteGCBatch cutoff candidates d in
                let cs' := match deleteManyUnlocked order (gc_hash <$> del) cs with
                           | Ok (_, cs') => cs'
                           | Err _ => cs
                           end in
                sweepTenant budget' cfg cutoff
                  (mkSweep (u64 (sw_Count res + Z.of_nat (length del))) (u64 (sw_BytesFreed res + freed)))
                  d' cs'
            end
      end
  end.

(** One tenant's share of a tick: the sweep, then the tombstones. *)
Definition tickTenant (budget : nat) (cfg : gcConfig) (cutoff cutoffMs : Z) (d : tdb) (cs : chunkStore)
    : tdb * chunkStore :=
  match sweepTenant budget cfg cutoff (mkSweep 0 0) d cs with
  | (None, d', cs') => (d', cs')
  | (Some _, d', cs') => if DryRun cfg then (d', cs') else ((pruneTombstones cutoffMs d').2, cs')
  end.
End sweep.

(** ** Agent purge *)

Record agentPurgeResult := mkPurge {
  pr_ManifestsDeleted : Z; pr_JournalRowsDeleted : Z; pr_ChunkRowsDeleted : Z; pr_BytesFreed : Z }.

Definition is_alnum_ (c : ascii) : bool :=
  let v := byteval c in
  ((48 <=? v) && (v <=? 57)) || ((65 <=? v) && (v <=? 90)) || ((97 <=? v) && (v <=? 122)) || (v =? 95).

(** [^[A-Za-z0-9_][A-Za-z0-9_-]{0,62}$]. *)
Definition agentIDRe (s : gostr) : bool :=
  match s with
  | [] => false
  | c :: s' => is_alnum_ c && forallb (fun c => is_alnum_ c || (byteval c =? 45)) s' &&
               (length s' <=? 62)%nat
  end.

Definition agent_prefix (agentID : gostr) : gostr := str "/" ++ agentID.

(** The chunk references of the doomed rows, one row at a time. *)
Fixpoint doomedDelta (rows : list mrow) (delta : gmap hash Z) : option (gmap hash Z) :=
  match rows with
  | [] => Some delta
  | r :: rows' =>
      match unpackChunks (m_chunks r) with
      | None => None
      | Some refs => doomedDelta rows' (foldl (fun m c => bump (-1) (Hash c) m) delta refs)
      end
  end.

Definition doomed_manifests (prefix : gostr) (d : tdb) : gmap gostr mrow :=
  filter (fun kr => in_subtree_sql prefix kr.1 = true) (manifests d).

Definition doomed_entry (agentID : gostr) (k : gostr * gostr) : bool :=
  let prefix := agent_prefix agentID in
  bool_decide (k.1 = str "/" /\ k.2 = agentID) || in_subtree_sql prefix k.1.

(** Phase 1, one transaction.  [special_nodes] is not touched. *)
Definition purgeTx (now : Z) (agentID : gostr) : tx (Z * Z * gmap hash Z * Z) :=
  let prefix := agent_prefix agentID in
  doomed ← query (doomed_manifests prefix);
  delta ← (match doomedDelta (map_to_list doomed).*2 ∅ with
           | None => throw (ErrMsg "unpack doomed manifest")
           | Some delta => mret delta
           end);
  _ ← applyChunkRefDelta delta;
  rev ← allocChangeRevTx;
  _ ← tombstoneSubtreeTx now prefix rev;
  _ ← modify (fun d => set_manifests
        (filter (fun kr => in_subtree_sql prefix kr.1 = false) (manifests d)) d);
  _ ← modify (fun d => set_dir_entries
        (filter (fun ke => doomed_entry agentID ke.1 = false) (dir_entries d)) d);
  _ ← modify (fun d => set_symlinks
        (filter (fun kr => in_subtree_sql prefix kr.1 = false) (symlinks d)) d);
  n ← query (fun d => Z.of_nat (length
        (filter (fun j => in_subtree_sql prefix (j_path j) = true) (session_journal d))));
  _ ← modify (fun d => set_session_journal
        (filter (fun j => in_subtree_sql prefix (j_path j) = false) (session_journal d)) d);
  mret (Z.of_nat (size doomed), n, delta, rev).

Record purgedChunk := mkPurgedChunk { pc_hash : hash; pc_size : Z }.

(** Phase 2: the rows of the touched hashes that are at refcount 0.  [None] is
    the error on a negative size. *)
Fixpoint deletePurgedChunkRows (hs : list hash) (d : tdb) : option (list purgedChunk * tdb) :=
  match hs with
  | [] => Some ([], d)
  | h :: hs' =>
      match chunks d !! h with
      | Some c =>
          if ch_refcount c =? 0 then
            if ch_size c <? 0 then None
            else
              '(del, d') ← deletePurgedChunkRows hs' (set_chunks (delete h (chunks d)) d);
              Some (mkPurgedChunk h (ch_size c) :: del, d')
          else deletePurgedChunkRows hs' d
      | None => deletePurgedChunkRows hs' d
      end
  end.

(** The size of a chunk whose row has none is the size of its file. *)
Definition purged_bytes (cs : chunkStore) (c : purgedChunk) : Z :=
  if pc_size c =? 0 then
    match Path (pc_hash c) with
    | Some p => default 0 ((fun data => Z.of_nat (length data)) <$> files cs !! p)
    | None => 0
    end
  else pc_size c.

Section purge.
Context (order : list (gostr * list chunkBatchItem) -> list (gostr * list chunkBatchItem)).

Definition purgeAgentSubtree (now : Z) (agentID : gostr) (d : tdb) (cs : chunkStore)
    : result err agentPurgeResult * tdb * chunkStore :=
  match purgeTx now agentID d with
  | Err e => (Err e, d, cs)
  | Ok ((nm, nj, delta, rev), d1) =>
      match deletePurgedChunkRows (map_to_list delta).*1 d1 with
      | None => (Err (ErrMsg "negative chunk size"), d1, cs)
      | Some (del, d2) =>
          let cs' := match deleteManyUnlocked order (pc_hash <$> del) cs with
                     | Ok (_, cs') => cs'
                     | Err _ => cs
                     end in
          (Ok (mkPurge nm nj (Z.of_nat (length del))
                 (foldl (fun n c => u64 (n + purged_bytes cs c)) 0 del)), d2, cs')
      end
  end.

(** The handler's guard. *)
Definition purgeAgentData (now : Z) (agentID : gostr) (d : tdb) (cs : chunkStore)
    : result err agentPurgeResult * tdb * chunkStore :=
  if agentIDRe agentID then purgeAgentSubtree now agentID d cs
  else (Err (ErrMsg "invalid_agent_id"), d, cs).
End purge.

(** ** Lemmas on sweeps *)

(** The rows a sweep with this cutoff may collect. *)
Definition garbage (cutoff : Z) (d : tdb) (h : hash) : Prop :=
  exists r, chunks d !! h = Some r /\ collectable cutoff r = true.

(** [d'] is [d] without the chunk rows of [hs]. *)
Definition drops (hs : list hash) (d d' : tdb) : Prop :=
  d' = set_chunks (chunks d') d /\
  forall h, chunks d' !! h = if decide (h ∈ hs) then None else chunks d !! h.

Lemma drops_nil d : drops [] d d.
Proof. split; [by destruct d |]. intros h. rewrite decide_False by apply not_elem_of_nil. done. Qed.

Lemma drops_trans hs1 hs2 d d1 d2 : drops hs1 d d1 -> drops hs2 d1 d2 -> drops (hs1 ++ hs2) d d2.
Proof.
  intros [E1 H1] [E2 H2]. split; [rewrite E2, E1; by destruct d |]. intros h. rewrite H2, H1.
  destruct (decide (h ∈ hs2)), (decide (h ∈ hs1)), (decide (h ∈ hs1 ++ hs2)) as [H|H];
    try done; rewrite elem_of_app in H; tauto.
Qed.

Lemma drops_one h d : drops [h] d (set_chunks (delete h (chunks d)) d).
Proof.
  split; [done |]. intros k. simpl. destruct (decide (k ∈ [h])) as [Hk|Hk].
  - apply list_elem_of_singleton in Hk as ->. apply lookup_delete_eq.
  - rewrite list_elem_of_singleton in Hk. by apply lookup_delete_ne.
Qed.

(** Dropping rows at refcount 0 keeps every count, hence the file system. *)
Lemma drops_Inv hs d d' a :
  drops hs d d' -> (forall h, h ∈ hs -> rc h d = 0) -> Inv d a -> Inv d' a.
Proof.
  intros [E H] Hz I. eapply (Inv_same d d' a I (fun r => r)); try done.
  - rewrite E. simpl. by rewrite map_fmap_id.
  - by rewrite E.
  - intros h. destruct (decide (h ∈ hs)) as [Hin|Hin].
    + rewrite (Hz h Hin). unfold rc. by rewrite H, decide_True.
    + unfold rc. by rewrite H, decide_False.
Qed.

Lemma garbage_rc cutoff d h : garbage cutoff d h -> rc h d = 0.
Proof. intros (r & Hr & [Hz _]%andb_true_iff). unfold rc. rewrite Hr. lia. Qed.

Lemma garbage_drops cutoff hs d d' h :
  drops hs d d' -> garbage cutoff d' h <-> garbage cutoff d h /\ h ∉ hs.
Proof.
  intros [_ H]. unfold garbage. rewrite H. destruct (decide (h ∈ hs)); split; [by intros (? & ? & _) | tauto | by split | tauto].
Qed.

Lemma selectGC_elem cutoff limit d h :
  h ∈ gc_hash <$> selectGCCandidates cutoff limit d -> garbage cutoff d h.
Proof.
  intros (c & -> & Hc)%list_elem_of_fmap. unfold selectGCCandidates in Hc.
  apply list_elem_of_fmap in Hc as ([k r] & -> & Hc). simpl.
  assert ((k, r) ∈ map_to_list (filter (fun hc => collectable cutoff hc.2 = true) (chunks d))) as Hm.
  { rewrite <- (merge_sort_Permutation older). unfold sql_limit in Hc.
    destruct (limit <? 0); [done |]. by eapply elem_of_take in Hc as (i & ? & _); eapply list_elem_of_lookup_2. }
  apply elem_of_map_to_list, map_lookup_filter_Some in Hm as [? ?]. by exists r.
Qed.

Lemma selectGC_nil cutoff limit d :
  0 < limit -> selectGCCandidates cutoff limit d = [] -> forall h, ~ garbage cutoff d h.
Proof.
  intros Hl Hs h (r & Hr & Hc). unfold selectGCCandidates, sql_limit in Hs.
  replace (limit <? 0) with false in Hs by lia. apply fmap_nil_inv in Hs.
  assert ((h, r) ∈ merge_sort older (map_to_list (filter (fun hc => collectable cutoff hc.2 = true) (chunks d)))) as Hin.
  { rewrite merge_sort_Permutation. apply elem_of_map_to_list, map_lookup_filter_Some. done. }
  destruct (merge_sort _ _) as [|x l]; [by apply not_elem_of_nil in Hin |].
  replace (Z.to_nat limit) with (S (Z.to_nat (limit - 1))) in Hs by lia. done.
Qed.

Lemma deleteGCBatch_spec cutoff cands d :
  let '(del, _, d') := deleteGCBatch cutoff cands d in
  drops (gc_hash <$> del) d d' /\ NoDup (gc_hash <$> del) /\
  (forall h, h ∈ gc_hash <$> del <-> h ∈ gc_hash <$> cands /\ garbage cutoff d h).
Proof.
  revert d. induction cands as [|c cands IH]; intros d; simpl.
  { split; [apply drops_nil |]. split; [constructor |]. intros h. set_solver. }
  assert (~ garbage cutoff d (gc_hash c) ->
    let '(del, _, d') := deleteGCBatch cutoff cands d in
    drops (gc_hash <$> del) d d' /\ NoDup (gc_hash <$> del) /\
    (forall h, h ∈ gc_hash <$> del <-> h ∈ gc_hash c :: (gc_hash <$> cands) /\ garbage cutoff d h)) as Hskip.
  { intros Hn. specialize (IH d). destruct (deleteGCBatch cutoff cands d) as [[del fr] d'].
    destruct IH as (H1 & H2 & H3). split; [done |]. split; [done |]. intros h. rewrite H3, elem_of_cons.
    destruct (decide (h = gc_hash c)) as [->|]; tauto. }
  destruct (chunks d !! gc_hash c) as [r|] eqn:Hr; [| apply Hskip; intros (? & ? & _); congruence].
  destruct (collectable cutoff r) eqn:Hc; [| apply Hskip; intros (? & ? & ?); congruence].
  pose proof (drops_one (gc_hash c) d) as D1. set (d1 := set_chunks _ d) in *.
  specialize (IH d1). destruct (deleteGCBatch cutoff cands d1) as [[del fr] d'].
  destruct IH as (H1 & H2 & H3). simpl. split; [by apply (drops_trans [gc_hash c] _ d d1) |]. split.
  - apply NoDup_cons. split; [| done]. rewrite H3, (garbage_drops _ _ _ _ _ D1). set_solver.
  - intros h. rewrite !elem_of_cons, H3, (garbage_drops _ _ _ _ _ D1), list_elem_of_singleton.
    assert (garbage cutoff d (gc_hash c)) by by exists r.
    destruct (decide (h = gc_hash c)) as [->|]; tauto.
Qed.

(** Chunk rows are keyed by hashes. *)
Definition rows_wf (d : tdb) : Prop := forall h, is_Some (chunks d !! h) -> wf_hash h.

Lemma rows_wf_drops hs d d' : drops hs d d' -> rows_wf d -> rows_wf d'.
Proof. intros [_ H] Hw h. rewrite H. case_decide; [by intros [] | apply Hw]. Qed.

Lemma garbage_wf cutoff d hs : rows_wf d -> (forall h, h ∈ hs -> garbage cutoff d h) -> Forall wf_hash hs.
Proof. intros Hw H. apply Forall_forall. intros h (r & Hr & _)%H. apply Hw. eauto. Qed.

Definition garbage_rows (cutoff : Z) (d : tdb) : gmap hash chrow :=
  filter (fun hc => collectable cutoff hc.2 = true) (chunks d).

Lemma garbage_rows_drops cutoff h hs d d' :
  drops hs d d' -> h ∈ hs -> garbage cutoff d h ->
  (size (garbage_rows cutoff d') < size (garbage_rows cutoff d))%nat.
Proof.
  intros [_ D] Hin (r & Hr & Hc).
  assert (garbage_rows cutoff d !! h = Some r) as Hh by by apply map_lookup_filter_Some.
  rewrite <- (insert_delete_id _ _ _ Hh), map_size_insert_None by apply lookup_delete_eq.
  apply le_n_S, map_subseteq_size, map_subseteq_spec. intros k x Hk.
  apply map_lookup_filter_Some in Hk as [Hk Hx]. rewrite D in Hk. case_decide as Hkh; [done |].
  apply lookup_delete_Some. split; [by intros -> |]. by apply map_lookup_filter_Some.
Qed.

(** [cs'] is [cs] without the files of [hs]. *)
Definition unlinks (hs : list hash) (cs cs' : chunkStore) : Prop :=
  (forall k, files cs' !! k = if decide (k ∈ pathOf <$> hs) then None else files cs !! k) /\
  shardDirs cs' = shardDirs cs /\ knownShard cs' = knownShard cs.

Lemma unlinks_trans hs1 hs2 cs cs1 cs2 :
  unlinks hs1 cs cs1 -> unlinks hs2 cs1 cs2 -> unlinks (hs1 ++ hs2) cs cs2.
Proof.
  intros (F1 & D1 & K1) (F2 & D2 & K2). split; [| split; congruence]. intros k. rewrite F2, F1, fmap_app.
  destruct (decide (k ∈ pathOf <$> hs2)), (decide (k ∈ pathOf <$> hs1)),
    (decide (k ∈ (pathOf <$> hs1) ++ (pathOf <$> hs2))) as [H|H]; try done; rewrite elem_of_app in H; tauto.
Qed.

Lemma unlinks_nil cs : unlinks [] cs cs.
Proof. split; [| done]. intros k. by rewrite decide_False by apply not_elem_of_nil. Qed.

Section sweep_lemmas.
Context (blake3 : blob -> hash).
Context (order : list (gostr * list chunkBatchItem) -> list (gostr * list chunkBatchItem)).
Hypothesis order_perm : forall l, order l ≡ₚ l.

(** What one batch of a sweep or a purge unlinks. *)
Definition unlinkFiles (hs : list hash) (cs : chunkStore) : chunkStore :=
  match deleteManyUnlocked order hs cs with Ok (_, cs') => cs' | Err _ => cs end.

Lemma unlinkFiles_spec hs cs :
  cs_ok blake3 cs -> Forall wf_hash hs -> NoDup hs ->
  unlinks hs cs (unlinkFiles hs cs) /\ cs_ok blake3 (unlinkFiles hs cs).
Proof using order_perm.
  intros O Hw ND. unfold unlinkFiles.
  destruct (deleteManyUnlocked_spec order order_perm _ hs blake3 cs eq_refl O Hw ND)
    as (cs' & -> & Hf & Hd & Hk). split; [done |]. by eapply deleteMany_ok.
Qed.

Lemma sweepTenant_spec budget cfg cutoff res d cs :
  DryRun cfg = false -> 0 < BatchSize cfg -> rows_wf d -> cs_ok blake3 cs ->
  exists res' d' cs' hs, sweepTenant order budget cfg cutoff res d cs = (Some res', d', cs') /\
    drops hs d d' /\ unlinks hs cs cs' /\ cs_ok blake3 cs' /\
    (forall h, h ∈ hs -> garbage cutoff d h) /\
    ((size (garbage_rows cutoff d) <= budget)%nat -> forall h, ~ garbage cutoff d' h).
Proof using order_perm.
  intros Hdry Hbatch. revert res d cs. induction budget as [|budget IH]; intros res d cs Hw O; cbn [sweepTenant].
  { exists res, d, cs, []. split; [done |]. split; [apply drops_nil |]. split; [apply unlinks_nil |].
    split; [done |]. split; [intros h H; by apply not_elem_of_nil in H |].
    intros Hs h (r & Hr & Hc). assert (garbage_rows cutoff d !! h = Some r) as Hh
      by by apply map_lookup_filter_Some.
    assert (garbage_rows cutoff d = ∅) as E by (apply map_size_empty_iff; lia).
    by rewrite E, lookup_empty in Hh. }
  destruct (selectGCCandidates cutoff (BatchSize cfg) d) as [|c cands] eqn:Hsel.
  { exists res, d, cs, []. split; [done |]. split; [apply drops_nil |]. split; [apply unlinks_nil |].
    split; [done |]. split; [intros h H; by apply not_elem_of_nil in H |].
    intros _. by eapply selectGC_nil. }
  rewrite Hdry, <- Hsel. set (all := selectGCCandidates cutoff (BatchSize cfg) d) in *.
  assert (forall h, h ∈ gc_hash <$> all -> garbage cutoff d h) as Hall by (intros h; apply selectGC_elem).
  pose proof (garbage_wf cutoff d _ Hw Hall) as Hwf. unfold lockHashes.
  rewrite decide_True by (eapply Forall_impl; [exact Hwf | by intros h [? _]]).
  pose proof (deleteGCBatch_spec cutoff all d) as Hb.
  destruct (deleteGCBatch cutoff all d) as [[del freed] d1]. destruct Hb as (D1 & ND & Hdel).
  assert (Forall wf_hash (gc_hash <$> del)) as Hwd.
  { apply (garbage_wf cutoff d); [done |]. intros h [_ ?]%Hdel. done. }
  destruct (unlinkFiles_spec (gc_hash <$> del) cs O Hwd ND) as [U1 O1].
  fold (unlinkFiles (gc_hash <$> del) cs).
  destruct (IH (mkSweep (u64 (sw_Count res + Z.of_nat (length del))) (u64 (sw_BytesFreed res + freed)))
    d1 (unlinkFiles (gc_hash <$> del) cs) (rows_wf_drops _ _ _ D1 Hw) O1)
    as (res' & d' & cs' & hs & -> & D2 & U2 & O2 & Hg & Hdone).
  exists res', d', cs', ((gc_hash <$> del) ++ hs). split; [done |].
  split; [by eapply drops_trans |]. split; [by eapply unlinks_trans |]. split; [done |]. split.
  - intros h [?%Hdel|?%Hg]%elem_of_app; [tauto |]. by apply (garbage_drops _ _ _ _ _ D1).
  - intros Hs. apply Hdone.
    assert (gc_hash c ∈ gc_hash <$> all) as Hc by (rewrite Hsel; by apply elem_of_cons; left).
    pose proof (garbage_rows_drops cutoff (gc_hash c) _ _ _ D1) as Hlt.
    assert (gc_hash c ∈ gc_hash <$> del) as Hcd by (apply Hdel; auto). specialize (Hlt Hcd (Hall _ Hc)). lia.
Qed.
End sweep_lemmas.

(** ** Lemmas on purges *)

(** No other path names the file at [p]. *)
Definition sole (d : tdb) (p : gostr) : Prop :=
  forall q r s, manifests d !! p = Some r -> manifests d !! q = Some s -> m_inode r = m_inode s -> q = p.

Definition row_occ (h : hash) (r : mrow) : Z := occ h (default [] (unpackChunks (m_chunks r))).

Definition rows_occ (h : hash) (l : list (gostr * mrow)) : Z :=
  foldr (fun pr n => row_occ h pr.2 + n) 0 l.

Lemma sole_nlink d p r : manifests d !! p = Some r -> sole d p -> nlink (m_inode r) d = 1.
Proof.
  intros Hp Hs. unfold nlink. replace (links (m_inode r) d) with ({[ p := r ]} : gmap gostr mrow).
  - by rewrite map_size_singleton.
  - apply map_eq. intros q. apply option_eq. intros s. unfold links.
    rewrite map_lookup_filter_Some, lookup_singleton_Some. simpl. split.
    + by intros [<- <-].
    + intros [Hq Hi]. assert (q = p) as -> by by eapply Hs. split; congruence.
Qed.

(** The database without the row [p] and its references. *)
Definition unlink_row (p : gostr) (r : mrow) (d : tdb) : tdb :=
  set_manifests (delete p (manifests d))
    (set_chunks (map_imap (fun h c => Some (mkChrow (ch_size c) (ch_refcount c - row_occ h r)
                                              (ch_added_at c))) (chunks d)) d).

Lemma unlink_row_Inv p r d a :
  Inv d a -> manifests d !! p = Some r -> sole d p ->
  Inv (unlink_row p r d) (spec_unlink p a) /\ forall h, rc h (unlink_row p r d) = rc h d - row_occ h r.
Proof.
  intros I Hp Hs. destruct (inv_unpack d a I p r Hp) as (x & Hx & Hix & Hu & _ & _).
  assert (forall h, row_occ h r = occ h (i_chunks x)) as Ho by (intros h; unfold row_occ; by rewrite Hu).
  assert (forall h, rc h (unlink_row p r d) = rc h d - row_occ h r) as Hrc.
  { intros h. pose proof (inv_rc d a I h) as Hr. pose proof (refs_ge h _ _ _ Hix) as Hge.
    pose proof (occ_nonneg h (i_chunks x)) as Hnn. rewrite Ho in *. unfold rc in *. simpl.
    rewrite map_lookup_imap. destruct (chunks d !! h); simpl; rewrite ?Ho; lia. }
  split; [| done]. eapply (Inv_unlink d _ a I p r x); try done.
  intros h. rewrite Hrc, Ho, (sole_nlink d p r) by done. done.
Qed.

Lemma Inv_unlink_many l d d' a :
  Inv d a -> NoDup l.*1 ->
  (forall p r, (p, r) ∈ l -> manifests d !! p = Some r /\ sole d p) ->
  (forall q, manifests d' !! q = if decide (q ∈ l.*1) then None else manifests d !! q) ->
  inode_next_id d' = inode_next_id d ->
  (forall h, rc h d' = rc h d - rows_occ h l) -> exists a', Inv d' a'.
Proof.
  revert d a. induction l as [|[p r] l IH]; intros d a I ND Hl Hm Hn Hrc; simpl in *.
  - exists a. eapply (Inv_same d d' a I (fun r => r)); try done.
    + rewrite map_fmap_id. apply map_eq. intros q. by rewrite Hm.
    + intros h. rewrite Hrc. lia.
  - apply NoDup_cons in ND as [Hp ND]. destruct (Hl p r) as [Hpr Hs]; [by apply elem_of_cons; left |].
    destruct (unlink_row_Inv p r d a I Hpr Hs) as [I1 Hrc1].
    apply (IH (unlink_row p r d) (spec_unlink p a)); try done.
    + intros q s Hq. assert (q <> p) as Hne by (intros ->; apply Hp, list_elem_of_fmap; by exists (p, s)).
      destruct (Hl q s) as [Hqs Hsq]; [by apply elem_of_cons; right |]. unfold sole. simpl.
      rewrite lookup_delete_ne by congruence. split; [done |]. intros k u v Hu [_ Hv]%lookup_delete_Some. by eapply Hsq.
    + intros q. simpl. rewrite Hm. destruct (decide (q = p)) as [->|Hne].
      * rewrite lookup_delete_eq, decide_True by by apply elem_of_cons; left. by case_decide.
      * rewrite lookup_delete_ne by congruence.
        destruct (decide (q ∈ l.*1)) as [Hq|Hq].
        -- by rewrite decide_True by by apply elem_of_cons; right.
        -- rewrite decide_False; [done |]. by rewrite elem_of_cons; intros [].
    + intros h. rewrite Hrc, Hrc1. lia.
Qed.

Lemma doomedDelta_spec (l : list (gostr * mrow)) delta delta' h :
  doomedDelta l.*2 delta = Some delta' ->
  default 0 (delta' !! h) = default 0 (delta !! h) - rows_occ h l.
Proof.
  revert delta. induction l as [|[p r] l IH]; intros delta; simpl.
  - intros [= ->]. lia.
  - unfold row_occ. destruct (unpackChunks (m_chunks r)) as [cs|]; [| done]. simpl.
    intros ->%IH. rewrite foldl_bump. lia.
Qed.

(** What a committed purge leaves of the tables. *)
Lemma purgeTx_Ok now ag d nm nj delta rev d' :
  purgeTx now ag d = Ok ((nm, nj, delta, rev), d') ->
  manifests d' = filter (fun kr => in_subtree_sql (agent_prefix ag) kr.1 = false) (manifests d) /\
  symlinks d' = filter (fun kr => in_subtree_sql (agent_prefix ag) kr.1 = false) (symlinks d) /\
  special_nodes d' = special_nodes d /\ inode_next_id d' = inode_next_id d /\
  dir_entries d' = filter (fun ke => doomed_entry ag ke.1 = false) (dir_entries d) /\
  rev = last_rev d + 1 /\ last_rev d' = last_rev d + 1 /\
  change_tombstones d' = tombstone_all (subtree_paths (agent_prefix ag) d) (mkTsrow rev now) (change_tombstones d) /\
  (forall h, rc h d' = rc h d - rows_occ h (map_to_list (doomed_manifests (agent_prefix ag) d))).
Proof.
  unfold purgeTx. intros H. tx_inv H. destruct (doomedDelta _ _) as [dl|] eqn:Hd; [| done].
  apply tx_ret_Ok in H0 as [-> ->]. injection H2 as [= <- <-].
  apply applyChunkRefDelta_Ok in H1 as [E Hrc]. simpl. rewrite E. simpl.
  repeat (split; [done |]). intros h. unfold rc at 1. simpl. fold (rc h d1).
  rewrite Hrc, (doomedDelta_spec _ _ _ h Hd), lookup_empty. simpl. lia.
Qed.

Lemma elem_of_doomed pre d p r :
  (p, r) ∈ map_to_list (doomed_manifests pre d) <->
  manifests d !! p = Some r /\ in_subtree_sql pre p = true.
Proof. rewrite elem_of_map_to_list. unfold doomed_manifests. by rewrite map_lookup_filter_Some. Qed.

(** Where no purged file has a second name, what is left still implements a
    file system, with exact counts. *)
Lemma purgeTx_Inv now ag d x d' a :
  Inv d a -> (forall p, in_subtree_sql (agent_prefix ag) p = true -> sole d p) ->
  purgeTx now ag d = Ok (x, d') -> exists a', Inv d' a'.
Proof.
  intros I Hs. destruct x as [[[nm nj] delta] rev].
  intros (Hm & _ & _ & Hn & _ & _ & _ & _ & Hrc)%purgeTx_Ok.
  eapply (Inv_unlink_many _ d d' a I); [| | | done | exact Hrc].
  - apply NoDup_fst_map_to_list.
  - intros p r [Hp Hin]%elem_of_doomed. auto.
  - intros q. rewrite Hm. case_decide as Hq.
    + apply map_lookup_filter_None. right. intros r Hr.
      apply list_elem_of_fmap in Hq as ([q' r'] & -> & [_ Ht]%elem_of_doomed). simpl in *. congruence.
    + destruct (manifests d !! q) as [r|] eqn:Hr.
      * apply map_lookup_filter_Some. split; [done |]. simpl.
        destruct (in_subtree_sql (agent_prefix ag) q) eqn:Ht; [| done].
        destruct Hq. apply list_elem_of_fmap. exists (q, r). by rewrite elem_of_doomed.
      * apply map_lookup_filter_None. by left.
Qed.

Lemma deletePurged_spec hs d del d' :
  NoDup hs -> deletePurgedChunkRows hs d = Some (del, d') ->
  drops (pc_hash <$> del) d d' /\ NoDup (pc_hash <$> del) /\
  forall h, h ∈ pc_hash <$> del -> h ∈ hs /\ rc h d = 0 /\ is_Some (chunks d !! h).
Proof.
  intros ND. revert d del d'. induction ND as [|h hs Hh ND IH]; intros d del d'; simpl.
  { intros [= <- <-]. split; [apply drops_nil |]. split; [constructor |].
    intros h H. by apply not_elem_of_nil in H. }
  assert (deletePurgedChunkRows hs d = Some (del, d') ->
    drops (pc_hash <$> del) d d' /\ NoDup (pc_hash <$> del) /\
    forall k, k ∈ pc_hash <$> del -> k ∈ h :: hs /\ rc k d = 0 /\ is_Some (chunks d !! k)) as Hskip.
  { intros (H1 & H2 & H3)%IH. split; [done |]. split; [done |]. intros k (? & ? & ?)%H3.
    rewrite elem_of_cons. auto. }
  destruct (chunks d !! h) as [c|] eqn:Hc; [| done]. destruct (Z.eqb_spec (ch_refcount c) 0) as [Hz|]; [| done].
  destruct (ch_size c <? 0); [done |]. pose proof (drops_one h d) as D1. set (d1 := set_chunks _ d) in *.
  destruct (deletePurgedChunkRows hs d1) as [[del1 d2]|] eqn:E; [| done]. intros [= <- <-].
  destruct (IH _ _ _ E) as (H1 & H2 & H3). simpl.
  split; [by apply (drops_trans [h] _ d d1) |]. split.
  - apply NoDup_cons. split; [| done]. intros [? _]%H3. done.
  - intros k [->|Hk]%elem_of_cons.
    + split; [by apply elem_of_cons; left |]. unfold rc. rewrite Hc. eauto.
    + destruct (H3 k Hk) as (Hin & Hr & Hsome). split; [by apply elem_of_cons; right |].
      destruct D1 as [_ D1]. unfold rc in *. rewrite D1 in *.
      rewrite decide_False in * by (rewrite list_elem_of_singleton; by intros ->). done.
Qed.
