(* ===== verification/Disk.v ===== *)
(** * Concurrent writers, deletes and garbage collection

    The data plane serves requests concurrently while the sweeper and the purge
    run.  SQLite serializes the transactions, and the hash locks of the chunk
    store order the writers of a manifest, the writers of a chunk, the sweeper
    and the purge by the first byte of the hashes they touch.  A thread is in
    one of the phases of [pc]; a step of [dstep] takes one lock, runs one
    transaction or touches the disk once.

    Two invariants: [linv] of every interleaving (locks are taken in ascending
    order, rows and files have well-formed names), and [dinv], that the chunks of
    every file are on disk, of the interleavings in which no purge transaction meets
    a hard-linked file of its agent ([spares_links]): the purge counts such a file
    once per name (GcProps.purge_counts_names). *)

From S2P Require Import Prelude GoPath Codec TenantDB Journal Manifests FileSpec Refine Changes ChunkStore Gc.

(** ** Transactions that never take a reference *)

Lemma applyDeltas_rows l d u d' h :
  NoDup l.*1 -> applyDeltas l d = Ok (u, d') -> is_Some (chunks d' !! h) ->
  is_Some (chunks d !! h) \/ 0 < default 0 ((list_to_map l : gmap hash Z) !! h).
Proof.
  revert d. induction l as [|[k n] l IH]; intros d ND.
  - intros [_ <-]%tx_ret_Ok. auto.
  - apply NoDup_cons in ND as [Hk ND]. simpl list_to_map.
    assert (forall d1, applyDeltas l d1 = Ok (u, d') -> is_Some (chunks d' !! h) ->
      (is_Some (chunks d1 !! h) -> is_Some (chunks d !! h) \/ (h = k /\ 0 < n)) ->
      is_Some (chunks d !! h) \/ 0 < default 0 ((<[k := n]> (list_to_map l) : gmap hash Z) !! h)) as Hgo.
    { intros d1 Hl Hs Hd1. destruct (decide (h = k)) as [->|Hne].
      - rewrite lookup_insert_eq. destruct (IH d1 ND Hl Hs) as [H|H]; [tauto |].
        rewrite not_elem_of_list_to_map_1 in H by done. simpl in H. lia.
      - rewrite lookup_insert_ne by congruence. destruct (IH d1 ND Hl Hs) as [H|H]; tauto. }
    destruct (decide (n = 0)) as [->|Hn].
    + intros Hl Hs. apply (Hgo d); auto.
    + rewrite applyDeltas_cons, applyDelta_step by done.
      destruct (Z.leb_spec 0 (rc k d + n)); [| done]. intros Hl Hs. apply (Hgo _ Hl Hs). simpl.
      destruct (decide (h = k)) as [->|Hne]; [| by rewrite lookup_insert_ne by congruence; auto].
      intros _. destruct (chunks d !! k) eqn:E; [eauto |]. right. unfold rc in *. rewrite E in *.
      split; [done | lia].
Qed.

Lemma applyChunkRefDelta_rows delta d u d' h :
  applyChunkRefDelta delta d = Ok (u, d') -> is_Some (chunks d' !! h) ->
  is_Some (chunks d !! h) \/ 0 < default 0 (delta !! h).
Proof.
  intros Ha Hs. eapply applyDeltas_rows in Ha; [| apply NoDup_fst_map_to_list | exact Hs].
  by rewrite list_to_map_to_list in Ha.
Qed.

(** No count grows and no row appears, outside the hashes of [new]. *)
Definition grows_only (new : list ChunkRef) (d d' : tdb) : Prop :=
  (forall h, rc h d' <= rc h d \/ h ∈ Hash <$> new) /\
  (forall h, is_Some (chunks d' !! h) -> is_Some (chunks d !! h) \/ h ∈ Hash <$> new).

Definition grows {A} (new : list ChunkRef) (t : tx A) : Prop :=
  forall d x d', t d = Ok (x, d') -> grows_only new d d'.

Lemma grows_only_refl new d d' : chunks d' = chunks d -> grows_only new d d'.
Proof. intros E. split; intros h; unfold rc; rewrite E; [left; lia | auto]. Qed.

Lemma grows_only_trans new d d1 d2 : grows_only new d d1 -> grows_only new d1 d2 -> grows_only new d d2.
Proof.
  intros [R1 K1] [R2 K2]. split; intros h.
  - destruct (R1 h), (R2 h); auto. left. lia.
  - intros [H|H]%K2; auto.
Qed.

Lemma grows_bind {A B} new (m : tx A) (k : A -> tx B) :
  grows new m -> (forall x, grows new (k x)) -> grows new (m ≫= k).
Proof.
  intros Hm Hk d y d' H. apply tx_bind_Ok in H as (x & d1 & H1 & H2).
  eapply grows_only_trans; [by eapply Hm | by eapply Hk].
Qed.

Lemma grows_keeps {A} new (t : tx A) : keeps t -> grows new t.
Proof.
  intros Hk d x d' H. apply grows_only_refl. apply Hk in H. unfold core in H. congruence.
Qed.

Lemma grows_modify new f : (forall d, chunks (f d) = chunks d) -> grows new (modify f).
Proof. intros Hf d x d' [= _ <-]. by apply grows_only_refl. Qed.

Lemma grows_rekeyTx {A} new (r : tdb -> option A) (put : A -> tdb -> tdb) :
  (forall m d, chunks (put m d) = chunks d) -> grows new (rekeyTx r put).
Proof.
  intros Hp. unfold rekeyTx. apply grows_bind; [apply grows_keeps, keeps_query |].
  intros [m|]; [by apply grows_modify | apply grows_keeps, keeps_throw].
Qed.

Lemma grows_delta new old cs : (forall h, h ∈ Hash <$> cs -> h ∈ Hash <$> new) ->
  grows new (applyChunkRefDelta (chunkRefDelta old cs)).
Proof.
  intros Hcs d x d' H. split; intros h.
  - apply applyChunkRefDelta_Ok in H as [_ H]. rewrite H, chunkRefDelta_lookup.
    pose proof (occ_nonneg h old). destruct (decide (0 < occ h cs)) as [Ho%occ_pos|Ho]; [auto |].
    left. lia.
  - intros Hs. destruct (applyChunkRefDelta_rows _ _ _ _ h H Hs) as [|Hd]; [auto |].
    right. apply Hcs, occ_pos. rewrite chunkRefDelta_lookup in Hd. pose proof (occ_nonneg h old). lia.
Qed.

Create HintDb grows.
#[export] Hint Resolve grows_rekeyTx : grows.

Ltac grows_tac :=
  repeat first
    [ solve [apply grows_keeps; first [solve [eauto 2 with keeps] | keeps_tac; fail]]
    | solve [apply grows_delta; set_solver]
    | apply grows_rekeyTx; intros ? ?; reflexivity
    | apply grows_bind; [| intros ?]
    | apply grows_modify; intros ?; by repeat case_match
    | match goal with
      | |- grows _ (match ?x with _ => _ end) => destruct x
      | |- grows _ (if ?x then _ else _) => destruct x
      end ].

Section grows_ops.
Context {MP : MsgPack} (now : Z).

Lemma grows_put p v mf sid al ag : grows (mf_Chunks mf) (putTx now p v mf sid al ag).
Proof.
  unfold putTx, insertManifestTx, updateManifestTx, allocInode, bind_u64.
  destruct (splitParentName p). grows_tac.
Qed.

Lemma grows_link from to sid al ag : grows [] (linkTx now from to sid al ag).
Proof. unfold linkTx, restampTx, resolveKindTx. grows_tac. Qed.

Lemma grows_delete p v sid al ag : grows [] (deleteTx now p v sid al ag).
Proof. unfold deleteTx, restampTx. grows_tac. Qed.

Lemma grows_deleteDest to k rev : grows [] (deleteDestTx to k rev).
Proof. unfold deleteDestTx, restampTx. grows_tac. Qed.

Lemma grows_reparent from to rev : grows [] (reparentDescendantsTx now from to rev).
Proof. unfold reparentDescendantsTx. grows_tac. Qed.

Lemma grows_moveSource from to k nv i rev : grows [] (moveRenameSourceTx now from to k nv i rev).
Proof. unfold moveRenameSourceTx, bind_u64. destruct k; grows_tac. Qed.

Lemma grows_rename from to vf vt nr sid al ag : grows [] (renameTx now from to vf vt nr sid al ag).
Proof.
  unfold renameTx, resolveRenameDestTx, readRenameSourceTx, resolveKindTx.
  repeat first [ apply grows_deleteDest | apply grows_moveSource | progress grows_tac ].
Qed.

Lemma grows_setMeta fm fs fn fd p : grows [] (setMetaTx fm fs fn fd p).
Proof. unfold setMetaTx. grows_tac. Qed.
End grows_ops.

Lemma rows_occ_nonneg h l : 0 <= rows_occ h l.
Proof.
  induction l as [|[p r] l IH]; simpl; [lia |]. unfold row_occ. pose proof (occ_nonneg h (default [] (unpackChunks (m_chunks r)))). lia.
Qed.

Lemma grows_purge now ag : grows [] (purgeTx now ag).
Proof.
  intros d x d'. unfold purgeTx. intros H. tx_inv H.
  destruct (doomedDelta _ _) as [dl|] eqn:Hd; [| done]. apply tx_ret_Ok in H0 as [E ->].
  apply (grows_only_trans _ _ d1); [| injection H2 as [= <- <-]; by apply grows_only_refl].
  subst a. assert (forall h, default 0 (dl !! h) <= 0) as Hneg.
  { intros h. rewrite (doomedDelta_spec _ _ _ h Hd), lookup_empty. simpl.
    pose proof (rows_occ_nonneg h (map_to_list (doomed_manifests (agent_prefix ag) d))). lia. }
  split; intros h.
  - left. apply applyChunkRefDelta_Ok in H1 as [_ ->]. specialize (Hneg h). lia.
  - intros Hs. left. destruct (applyChunkRefDelta_rows _ _ _ _ h H1 Hs) as [|Hp]; [done |].
    specialize (Hneg h). lia.
Qed.

(** ** Requests that touch only the database *)

Inductive dbreq :=
| RLink (from to sid al ag : gostr)
| RDelete (p : gostr) (v : Z) (sid al ag : gostr)
| RRename (from to : gostr) (vf vt : Z) (noReplace : bool) (sid al ag : gostr)
| RDirCreate (p : gostr) (mode : Z)
| RSymlink (p target : gostr) (mode : Z)
| RMknod (p : gostr) (mode rdev : Z)
| RDirRemove (p : gostr)
| RSetOwner (p : gostr) (uid gid : Z)
| RSetAtime (p : gostr) (atime : Z)
| RSetModeNode (p : gostr) (mode : Z)
| RPrune (cutoff : Z).

Definition db_of {A} (o : op A) (d : tdb) : tdb := st_db (o (mkStore d None None None)).2.

(** [RSetModeNode] is the arm of [SetMode] for a path that is not a file. *)
Definition execDb `{MP : MsgPack} (now : Z) (r : dbreq) (d : tdb) : tdb :=
  match r with
  | RLink from to sid al ag => db_of (Link now from to sid al ag) d
  | RDelete p v sid al ag => db_of (Delete now p v sid al ag) d
  | RRename from to vf vt nr sid al ag => db_of (renameOpt now from to vf vt nr sid al ag) d
  | RDirCreate p mode => db_of (DirCreate p mode) d
  | RSymlink p target mode => db_of (Symlink p target mode) d
  | RMknod p mode rdev => db_of (Mknod p mode rdev) d
  | RDirRemove p => db_of (DirRemove now p) d
  | RSetOwner p uid gid => db_of (SetOwner p uid gid) d
  | RSetAtime p atime => db_of (SetAtime p atime) d
  | RSetModeNode p mode =>
      match Get p d with
      | Err ErrManifestNotFound => db_of (run_tx (setModeTx p (Z.land mode 4095))) d
      | _ => d
      end
  | RPrune cutoff => (pruneTombstones cutoff d).2
  end.

Lemma run_tx_grows {A} new (t : tx (outcome A)) d :
  grows new t -> grows_only new d (db_of (run_tx t) d).
Proof.
  intros Ht. unfold db_of, run_tx. simpl. destruct (t d) as [[[x e rev|x] d']|e] eqn:E; simpl.
  - by eapply Ht.
  - by apply grows_only_refl.
  - by apply grows_only_refl.
Qed.

Lemma Delete_grows `{MP : MsgPack} now p v sid al ag d :
  grows_only [] d (db_of (Delete now p v sid al ag) d).
Proof.
  unfold db_of, Delete, fail. case_decide; [by apply grows_only_refl |].
  set (s := mkStore d None None None).
  pose proof (run_tx_grows [] _ d (grows_keeps _ _ (keeps_deleteSpecialNode now p))) as G1.
  unfold deleteSpecialNode, db_of in *. fold s in G1.
  destruct (run_tx (deleteSpecialNodeTx now p) s) as [[u|e] s1] eqn:E1; [done |].
  apply run_tx_Err in E1 as [-> _]. destruct e; try done.
  pose proof (run_tx_grows [] _ d (grows_keeps _ _ (keeps_deleteSymlink now p))) as G2.
  unfold deleteSymlink, db_of in *. fold s in G2.
  destruct (run_tx (deleteSymlinkTx now p) s) as [[u|e] s2] eqn:E2; [done |].
  apply run_tx_Err in E2 as [-> _]. destruct e; try done.
  apply (run_tx_grows [] _ d), grows_delete.
Qed.

Lemma execDb_grows `{MP : MsgPack} now r d : grows_only [] d (execDb now r d).
Proof.
  destruct r; simpl.
  - unfold db_of, Link, fail. case_decide; [by apply grows_only_refl |].
    apply (run_tx_grows [] _ d), grows_link.
  - apply Delete_grows.
  - unfold db_of, renameOpt, fail. case_decide; [by apply grows_only_refl |].
    apply (run_tx_grows [] _ d), grows_rename.
  - apply run_tx_grows, grows_keeps, keeps_DirCreate.
  - apply run_tx_grows, grows_keeps, keeps_Symlink.
  - apply run_tx_grows, grows_keeps, keeps_Mknod.
  - apply run_tx_grows, grows_keeps, keeps_DirRemove.
  - apply run_tx_grows, grows_setMeta.
  - apply run_tx_grows, grows_setMeta.
  - destruct (Get p d) as [|[]]; try by apply grows_only_refl.
    apply run_tx_grows, grows_keeps, keeps_setMode.
  - unfold pruneTombstones. by destruct (max_pruned cutoff d); apply grows_only_refl.
Qed.

Lemma execDb_Inv `{MP : MsgPack} now r d a : Inv d a -> exists a', Inv (execDb now r d) a'.
Proof.
  intros I. set (s := mkStore d None None None). destruct r; simpl; unfold db_of; fold s.
  - by apply (Link_Inv _ _ _ _ _ _ s a).
  - by apply (Delete_Inv _ _ _ _ _ _ s a).
  - by apply (renameOpt_Inv _ _ _ _ _ _ _ _ _ s a).
  - by apply (run_keeps_Inv _ s a (keeps_DirCreate p mode)).
  - by apply (run_keeps_Inv _ s a (keeps_Symlink p target mode)).
  - by apply (run_keeps_Inv _ s a (keeps_Mknod p mode rdev)).
  - by apply (run_keeps_Inv _ s a (keeps_DirRemove now p)).
  - by apply (SetOwner_Inv _ _ _ s a).
  - by apply (SetAtime_Inv _ _ s a).
  - destruct (Get p d) as [|[]]; try by exists a.
    by apply (run_keeps_Inv _ s a (keeps_setMode p _)).
  - exists a. eapply Inv_core; [| exact I]. unfold pruneTombstones. by destruct (max_pruned cutoff d).
Qed.

(** ** Threads *)

Record putArgs := mkPutArgs {
  pa_path : gostr; pa_version : Z; pa_mf : Manifest; pa_sid : gostr; pa_al : gostr; pa_ag : gostr }.

Definition put_hashes (a : putArgs) : list hash := Hash <$> mf_Chunks (pa_mf a).

(** [held] are the locks taken so far and [todo] those still to take. *)
Inductive pc :=
| PutLocking (held todo : list Z) (a : putArgs)
| PutReady (held : list Z) (a : putArgs)
| StoreLocking (held todo : list Z) (h : hash) (data : blob)
| StoreNote (h : hash) (size : Z)
| GcLocking (held todo : list Z) (cutoff : Z) (cands : list gcCandidate)
| GcUnlink (held : list Z) (hs : list hash)
| PurgeLocking (held todo : list Z) (ag : gostr)
| PurgeRows (held : list Z) (hs : list hash)
| PurgeUnlink (held : list Z) (hs : list hash).

Definition held (p : pc) : list Z :=
  match p with
  | PutLocking l _ _ | PutReady l _ | StoreLocking l _ _ _ | GcLocking l _ _ _ | GcUnlink l _
  | PurgeLocking l _ _ | PurgeRows l _ | PurgeUnlink l _ => l
  | StoreNote _ _ => []
  end.

Definition todo (p : pc) : list Z :=
  match p with
  | PutLocking _ l _ | StoreLocking _ l _ _ | GcLocking _ l _ _ | PurgeLocking _ l _ => l
  | _ => []
  end.

(** The thread after it took the next lock. *)
Definition acquire (p : pc) : pc :=
  match p with
  | PutLocking l (b :: r) a => PutLocking (l ++ [b]) r a
  | StoreLocking l (b :: r) h data => StoreLocking (l ++ [b]) r h data
  | GcLocking l (b :: r) c cs => GcLocking (l ++ [b]) r c cs
  | PurgeLocking l (b :: r) ag => PurgeLocking (l ++ [b]) r ag
  | p => p
  end.

Record dstate := mkDS { g_db : tdb; g_cs : chunkStore; g_threads : gmap nat pc }.

Definition free (b : Z) (T : gmap nat pc) : Prop := forall t p, T !! t = Some p -> b ∉ held p.


Section steps.
Context {MP : MsgPack} (blake3 : blob -> hash).
Context (order : list (gostr * list chunkBatchItem) -> list (gostr * list chunkBatchItem)).

(** [handleManifestPut] and [SetMode] of a file start a [Put]: its argument
    checks, then [lockHashes]. *)
Inductive dstep : dstate -> dstate -> Prop :=
| ds_db now r d cs T : dstep (mkDS d cs T) (mkDS (execDb now r d) cs T)
| ds_acquire t p b r d cs T :
    T !! t = Some p -> todo p = b :: r -> free b T ->
    dstep (mkDS d cs T) (mkDS d cs (<[t := acquire p]> T))
| ds_put_start t a locks d cs T :
    T !! t = None -> pa_path a = mf_Path (pa_mf a) -> ~ (pa_sid a <> [] /\ pa_al a = []) ->
    Forall wf_ref (mf_Chunks (pa_mf a)) -> lockHashes (put_hashes a) = Some locks ->
    dstep (mkDS d cs T) (mkDS d cs (<[t := PutLocking [] locks a]> T))
| ds_put_validate t l a bs d cs T :
    T !! t = Some (PutLocking l [] a) -> HasMany order (put_hashes a) cs = Ok bs ->
    dstep (mkDS d cs T)
      (mkDS d cs (if forallb id bs then <[t := PutReady l a]> T else delete t T))
| ds_put_commit now t l a d cs T :
    T !! t = Some (PutReady l a) ->
    dstep (mkDS d cs T)
      (mkDS (db_of (run_tx (putTx now (pa_path a) (pa_version a) (pa_mf a) (pa_sid a) (pa_al a) (pa_ag a))) d)
         cs (delete t T))
| ds_store_start t h data locks d cs T :
    T !! t = None -> Z.of_nat (length data) <= maxChunkBytes -> Forall is_byte h ->
    lockHashes [h] = Some locks ->
    dstep (mkDS d cs T) (mkDS d cs (<[t := StoreLocking [] locks h data]> T))
| ds_store t l h data cap wr b cs' d cs T :
    T !! t = Some (StoreLocking l [] h data) ->
    putUnlocked blake3 cap wr h data cs = (Ok b, cs') ->
    dstep (mkDS d cs T) (mkDS d cs' (<[t := StoreNote h (Z.of_nat (length data))]> T))
| ds_store_fail t l h data cap wr e cs' d cs T :
    T !! t = Some (StoreLocking l [] h data) ->
    putUnlocked blake3 cap wr h data cs = (Err e, cs') ->
    dstep (mkDS d cs T) (mkDS d cs' (delete t T))
| ds_store_note now t h size d cs T :
    T !! t = Some (StoreNote h size) ->
    dstep (mkDS d cs T)
      (mkDS (match NoteChunkStored h size now d with Ok (_, d') => d' | Err _ => d end) cs (delete t T))
| ds_gc_start t cutoff limit locks d cs T :
    T !! t = None ->
    lockHashes (gc_hash <$> selectGCCandidates cutoff limit d) = Some locks ->
    dstep (mkDS d cs T)
      (mkDS d cs (<[t := GcLocking [] locks cutoff (selectGCCandidates cutoff limit d)]> T))
| ds_gc_rows t l cutoff cands del freed d' d cs T :
    T !! t = Some (GcLocking l [] cutoff cands) ->
    deleteGCBatch cutoff cands d = (del, freed, d') ->
    dstep (mkDS d cs T) (mkDS d' cs (<[t := GcUnlink l (gc_hash <$> del)]> T))
| ds_gc_unlink t l hs d cs T :
    T !! t = Some (GcUnlink l hs) ->
    dstep (mkDS d cs T) (mkDS d (unlinkFiles order hs cs) (delete t T))
| ds_purge_start t ag d cs T :
    T !! t = None -> agentIDRe ag = true ->
    dstep (mkDS d cs T) (mkDS d cs (<[t := PurgeLocking [] lockAllHashes ag]> T))
| ds_purge_tx now t l ag nm nj delta rev d' d cs T :
    T !! t = Some (PurgeLocking l [] ag) ->
    purgeTx now ag d = Ok ((nm, nj, delta, rev), d') ->
    dstep (mkDS d cs T) (mkDS d' cs (<[t := PurgeRows l (map_to_list delta).*1]> T))
| ds_purge_fail now t l ag e d cs T :
    T !! t = Some (PurgeLocking l [] ag) -> purgeTx now ag d = Err e ->
    dstep (mkDS d cs T) (mkDS d cs (delete t T))
| ds_purge_rows t l hs del d' d cs T :
    T !! t = Some (PurgeRows l hs) -> deletePurgedChunkRows hs d = Some (del, d') ->
    dstep (mkDS d cs T) (mkDS d' cs (<[t := PurgeUnlink l (pc_hash <$> del)]> T))
| ds_purge_rows_fail t l hs d cs T :
    T !! t = Some (PurgeRows l hs) -> deletePurgedChunkRows hs d = None ->
    dstep (mkDS d cs T) (mkDS d cs (delete t T))
| ds_purge_unlink t l hs d cs T :
    T !! t = Some (PurgeUnlink l hs) ->
    dstep (mkDS d cs T) (mkDS d (unlinkFiles order hs cs) (delete t T)).

(** The step is not the transaction of a purge of an agent that has a file with a
    second name. *)
Definition spares_links (g g' : dstate) : Prop :=
  forall t l hs ag p, g_threads g !! t = Some (PurgeLocking l [] ag) -> g_threads g' !! t = Some (PurgeRows l hs) ->
    in_subtree_sql (agent_prefix ag) p = true -> sole (g_db g) p.

Definition calm (g g' : dstate) : Prop := dstep g g' /\ spares_links g g'.
End steps.

(** ** The invariant *)

Definition pc_ok (d : tdb) (cs : chunkStore) (p : pc) : Prop :=
  match p with
  | PutLocking l r a => Forall wf_ref (mf_Chunks (pa_mf a)) /\ lockHashes (put_hashes a) = Some (l ++ r)
  | PutReady l a => Forall wf_ref (mf_Chunks (pa_mf a)) /\
      forall h, h ∈ put_hashes a -> wf_hash h /\ first_byte h ∈ l /\ on_disk h cs = true
  | StoreLocking l r h data => lockHashes [h] = Some (l ++ r)
  | StoreNote h size => wf_hash h
  | GcLocking l r cutoff cands => Forall wf_hash (gc_hash <$> cands) /\
      lockHashes (gc_hash <$> cands) = Some (l ++ r)
  | GcUnlink l hs | PurgeUnlink l hs => NoDup hs /\
      forall h, h ∈ hs -> wf_hash h /\ first_byte h ∈ l /\ rc h d = 0
  | PurgeLocking l r ag => l ++ r = allShards
  | PurgeRows l hs => NoDup hs /\ l = allShards
  end.

Record dinv (blake3 : blob -> hash) (g : dstate) : Prop := {
  di_fs : exists a, Inv (g_db g) a;
  di_rows : rows_wf (g_db g);
  di_cs : cs_ok blake3 (g_cs g);
  di_ref : forall h, 0 < rc h (g_db g) -> on_disk h (g_cs g) = true;
  di_excl : forall t t' p p' b, g_threads g !! t = Some p -> g_threads g !! t' = Some p' ->
    b ∈ held p -> b ∈ held p' -> t = t';
  di_pc : forall t p, g_threads g !! t = Some p -> pc_ok (g_db g) (g_cs g) p }.

(** What another thread's step must leave alone: under the locks a thread
    holds, files stay and unreferenced chunks stay unreferenced. *)
Definition stable (d : tdb) (cs : chunkStore) (d' : tdb) (cs' : chunkStore) (p : pc) : Prop :=
  forall h, wf_hash h -> first_byte h ∈ held p ->
    (on_disk h cs = true -> on_disk h cs' = true) /\ (rc h d = 0 -> rc h d' = 0).

Lemma pc_ok_stable d cs d' cs' p : stable d cs d' cs' p -> pc_ok d cs p -> pc_ok d' cs' p.
Proof.
  intros S. destruct p; simpl; try done.
  all: intros [? H]; split; [done |]; intros h (Hw & Hl & Hd)%H; split; [done |]; split; [done |].
  all: by apply S.
Qed.

Section dinv_updates.
Context (blake3 : blob -> hash) (d : tdb) (cs : chunkStore) (T : gmap nat pc).
Hypothesis D : dinv blake3 (mkDS d cs T).
Context (d' : tdb) (cs' : chunkStore).
Hypotheses (Hfs : exists a, Inv d' a) (Hrows : rows_wf d') (Hcs : cs_ok blake3 cs')
  (Href : forall h, 0 < rc h d' -> on_disk h cs' = true).

Lemma dinv_set t p' :
  (forall t1 p1, t1 <> t -> T !! t1 = Some p1 -> stable d cs d' cs' p1) ->
  pc_ok d' cs' p' ->
  (forall b, b ∈ held p' -> (exists p, T !! t = Some p /\ b ∈ held p) \/ free b T) ->
  dinv blake3 (mkDS d' cs' (<[t := p']> T)).
Proof using D Hfs Hrows Hcs Href.
  intros S Hok Hheld. split; try done; simpl.
  - assert (forall t1 p1 b, t1 <> t -> T !! t1 = Some p1 -> b ∈ held p1 -> b ∉ held p') as Hd.
    { intros t1 p1 b Hne H1 Hb [(p & Hp & Hbp)|Hf]%Hheld; [| by eapply Hf].
      apply Hne. by apply (di_excl _ _ D t1 t p1 p b). }
    intros t1 t2 p1 p2 b. rewrite !lookup_insert_Some.
    intros [[<- <-]|[N1 H1]] [[<- <-]|[N2 H2]] Hb1 Hb2; [done | | |].
    + by destruct (Hd t2 p2 b).
    + by destruct (Hd t1 p1 b).
    + by apply (di_excl _ _ D t1 t2 p1 p2 b).
  - intros t1 p1. rewrite lookup_insert_Some. intros [[<- <-]|[N1 H1]]; [done |].
    eapply pc_ok_stable; [by eapply S |]. by apply (di_pc _ _ D t1).
Qed.

Lemma dinv_del t :
  (forall t1 p1, t1 <> t -> T !! t1 = Some p1 -> stable d cs d' cs' p1) ->
  dinv blake3 (mkDS d' cs' (delete t T)).
Proof using D Hfs Hrows Hcs Href.
  intros S. split; try done; simpl.
  - intros t1 t2 p1 p2 b [N1 H1]%lookup_delete_Some [N2 H2]%lookup_delete_Some.
    by apply (di_excl _ _ D t1 t2 p1 p2 b).
  - intros t1 p1 [N1 H1]%lookup_delete_Some.
    eapply pc_ok_stable; [by eapply S |]. by apply (di_pc _ _ D t1).
Qed.

Lemma dinv_keep : (forall t p, T !! t = Some p -> stable d cs d' cs' p) -> dinv blake3 (mkDS d' cs' T).
Proof using D Hfs Hrows Hcs Href.
  intros S. split; try done; simpl.
  - apply (di_excl _ _ D).
  - intros t p H. eapply pc_ok_stable; [by eapply S |]. by apply (di_pc _ _ D t).
Qed.
End dinv_updates.

Lemma stable_refl d cs p : stable d cs d cs p.
Proof. by intros h _ _. Qed.

Lemma stable_grows d d' cs a a' p :
  Inv d a -> Inv d' a' -> grows_only [] d d' -> stable d cs d' cs p.
Proof.
  intros I I' [G _] h _ _. split; [done |]. intros Hz. pose proof (inv_rc _ _ I' h) as H.
  pose proof (refs_nonneg h (inodes a')). destruct (G h) as [|Hn]; [lia |]. by apply not_elem_of_nil in Hn.
Qed.

Lemma rows_wf_grows new d d' : Forall wf_ref new -> grows_only new d d' -> rows_wf d -> rows_wf d'.
Proof.
  intros Hn [_ G] Hw h Hs. destruct (G h Hs) as [|Hin]; [by apply Hw |].
  apply list_elem_of_fmap in Hin as (c & -> & Hc). rewrite Forall_forall in Hn. by apply Hn.
Qed.

(** A step of the database alone that takes no reference. *)
Lemma dinv_shrink blake3 d cs T d' :
  dinv blake3 (mkDS d cs T) -> (exists a, Inv d' a) -> grows_only [] d d' ->
  rows_wf d' /\ (forall h, 0 < rc h d' -> on_disk h cs = true) /\ (forall p, stable d cs d' cs p).
Proof.
  intros D [a' I'] G. destruct (di_fs _ _ D) as [a I]. split; [| split].
  - eapply rows_wf_grows; [constructor | exact G | apply (di_rows _ _ D)].
  - intros h Hh. apply (di_ref _ _ D h). destruct G as [G _]. simpl.
    destruct (G h) as [|Hn]; [lia | by apply not_elem_of_nil in Hn].
  - intros p. by eapply stable_grows.
Qed.

Lemma drops_dinv blake3 hs d cs T d' :
  dinv blake3 (mkDS d cs T) -> drops hs d d' -> (forall h, h ∈ hs -> rc h d = 0) ->
  (exists a, Inv d' a) /\ grows_only [] d d'.
Proof.
  intros D Hd Hz. destruct (di_fs _ _ D) as [a I]. split; [exists a; by eapply drops_Inv |].
  destruct Hd as [_ Hd]. split; intros h; unfold rc; rewrite Hd; case_decide as Hh.
  - left. specialize (Hz h Hh). unfold rc in Hz. simpl in Hz. lia.
  - left. lia.
  - by intros [].
  - auto.
Qed.

Lemma lockHashes_first hs l h : lockHashes hs = Some l -> Forall is_byte h -> h ∈ hs -> first_byte h ∈ l.
Proof.
  unfold lockHashes. case_decide as Hl; [| done]. intros [= <-] Hb Hh.
  rewrite Forall_forall in Hl. specialize (Hl h Hh). apply list_elem_of_filter. split.
  - apply list_elem_of_fmap. by exists h.
  - apply elem_of_seqZ. destruct h as [|b h]; [done |]. apply Forall_cons in Hb as [Hb _].
    unfold is_byte in Hb. simpl. lia.
Qed.

Lemma first_byte_shard h : wf_hash h -> first_byte h ∈ allShards.
Proof.
  intros [Hl Hb]. apply elem_of_seqZ. destruct h as [|b h]; [done |].
  apply Forall_cons in Hb as [Hb _]. unfold is_byte in Hb. simpl. lia.
Qed.

Lemma put_hashes_wf a : Forall wf_ref (mf_Chunks (pa_mf a)) -> Forall wf_hash (put_hashes a).
Proof.
  intros H. apply Forall_forall. intros h (c & -> & Hc)%list_elem_of_fmap.
  rewrite Forall_forall in H. by apply H.
Qed.

Section preservation.
Context {MP : MsgPack} (blake3 : blob -> hash).
Context (order : list (gostr * list chunkBatchItem) -> list (gostr * list chunkBatchItem)).
Hypothesis order_perm : forall l, order l ≡ₚ l.
Hypothesis blake3_wf : forall data, wf_hash (blake3 data).
Context (d : tdb) (cs : chunkStore) (T : gmap nat pc).
Hypothesis D : dinv blake3 (mkDS d cs T).

(** Only threads change. *)
Lemma pres_threads t p p' :
  T !! t = Some p -> pc_ok d cs p' -> (forall b, b ∈ held p' -> b ∈ held p) ->
  dinv blake3 (mkDS d cs (<[t := p']> T)).
Proof using D.
  intros Ht Hok Hb. apply (dinv_set blake3 d cs T D d cs); try apply D.
  - intros. apply stable_refl.
  - done.
  - intros b H%Hb. left. eauto.
Qed.

Lemma pres_start t p' :
  T !! t = None -> pc_ok d cs p' -> held p' = [] -> dinv blake3 (mkDS d cs (<[t := p']> T)).
Proof using D.
  intros Ht Hok Hb. apply (dinv_set blake3 d cs T D d cs); try apply D.
  - intros. apply stable_refl.
  - done.
  - intros b. rewrite Hb. intros H. by apply not_elem_of_nil in H.
Qed.

Lemma pres_exit t : dinv blake3 (mkDS d cs (delete t T)).
Proof using D. apply (dinv_del blake3 d cs T D d cs); try apply D. intros. apply stable_refl. Qed.

Lemma pres_acquire t p b r :
  T !! t = Some p -> todo p = b :: r -> free b T -> dinv blake3 (mkDS d cs (<[t := acquire p]> T)).
Proof using D.
  intros Ht Hr Hf. pose proof (di_pc _ _ D t p Ht) as Hok. simpl in Hok.
  apply (dinv_set blake3 d cs T D d cs); try apply D.
  - intros. apply stable_refl.
  - destruct p; simpl in *; subst; try done; simpl; by rewrite <- app_assoc.
  - intros c Hc. assert (c ∈ held p \/ c = b) as [Hp| ->]; [| left; eauto | by right].
    destruct p; simpl in *; subst; try done; simpl in Hc; by apply elem_of_snoc in Hc.
Qed.

Lemma pres_validate t l a bs :
  T !! t = Some (PutLocking l [] a) -> HasMany order (put_hashes a) cs = Ok bs ->
  dinv blake3 (mkDS d cs (if forallb id bs then <[t := PutReady l a]> T else delete t T)).
Proof using D order_perm.
  intros Ht Hb. destruct (forallb id bs) eqn:Hall; [| by apply pres_exit].
  destruct (di_pc _ _ D t _ Ht) as [Hw Hlock]. rewrite app_nil_r in Hlock.
  pose proof (put_hashes_wf a Hw) as Hh.
  apply (pres_threads t _ _ Ht); [| done]. split; [done |]. intros h Hin.
  rewrite (HasMany_present blake3 order) in Hb by (done || apply D). injection Hb as [= <-].
  rewrite Forall_forall in Hh. destruct (Hh h Hin) as [Hl Hby]. split; [done |]. split.
  - by eapply lockHashes_first.
  - apply forallb_forall with (x := on_disk h cs) in Hall; [done |].
    apply list_elem_of_In, list_elem_of_fmap. by exists h.
Qed.

Lemma pres_commit now t l a :
  T !! t = Some (PutReady l a) ->
  dinv blake3 (mkDS (db_of (run_tx (putTx now (pa_path a) (pa_version a) (pa_mf a) (pa_sid a)
                                      (pa_al a) (pa_ag a))) d) cs (delete t T)).
Proof using D.
  intros Ht. destruct (di_pc _ _ D t _ Ht) as [Hw Hready]. destruct (di_fs _ _ D) as [b I].
  set (tx := putTx _ _ _ _ _ _ _).
  assert (grows_only (mf_Chunks (pa_mf a)) d (db_of (run_tx tx) d)) as G by apply run_tx_grows, grows_put.
  assert (exists b', Inv (db_of (run_tx tx) d) b') as [b' I'].
  { apply (run_tx_Inv tx (mkStore d None None None) b I). intros x e rev d1 H.
    eapply putTx_refines in H as [_ (b' & _ & I')]; eauto. }
  set (d' := db_of (run_tx tx) d) in *. simpl in I.
  assert (forall h, h ∈ put_hashes a \/ rc h d' <= rc h d) as Hrc.
  { intros h. destruct G as [G _]. destruct (G h); auto. }
  apply (dinv_del blake3 d cs T D d' cs); try apply D.
  - eauto.
  - eapply rows_wf_grows; [exact Hw | exact G | apply (di_rows _ _ D)].
  - intros h Hh. destruct (Hrc h) as [Hin|Hle]; [by apply Hready |]. apply (di_ref _ _ D h). simpl. lia.
  - intros t1 p1 Hne H1 h Hwf Hheld. split; [done |]. intros Hz. destruct (Hrc h) as [Hin|Hle].
    + destruct (Hready h Hin) as (_ & Hl & _). destruct Hne.
      by apply (di_excl _ _ D t1 t p1 (PutReady l a) (first_byte h)).
    + pose proof (inv_rc _ _ I' h). pose proof (refs_nonneg h (inodes b')). lia.
Qed.

Lemma pres_store t p cap wr h data cs' T' :
  T !! t = Some p -> (putUnlocked blake3 cap wr h data cs).2 = cs' ->
  T' = delete t T \/ (exists size, T' = <[t := StoreNote h size]> T /\ blake3 data = h) ->
  dinv blake3 (mkDS d cs' T').
Proof using D blake3_wf.
  intros Ht Hp HT.
  assert (cs_ok blake3 cs') as O by (subst cs'; apply putUnlocked_ok; [done | apply D]).
  assert (forall k, wf_hash k -> on_disk k cs = true -> on_disk k cs' = true) as Hgrow.
  { intros k Hk Hd. destruct (putUnlocked blake3 cap wr h data cs) as [[b|e] cs1] eqn:E; simpl in Hp; subst cs1.
    - rewrite (on_disk_put _ _ _ _ _ _ _ _ k E) by done. rewrite Hd. apply orb_true_r.
    - unfold on_disk in *. replace (files cs') with (files cs); [done |]. unfold putUnlocked in E.
      repeat (case_decide; [by simplify_eq |]). simpl in E.
      destruct (files cs !! pathOf h), cap, wr; by simplify_eq. }
  assert (forall k, 0 < rc k d -> on_disk k cs' = true) as Href.
  { intros k Hk. apply Hgrow; [| by apply (di_ref _ _ D)]. apply (di_rows _ _ D). simpl. unfold rc in Hk.
    destruct (chunks d !! k); [eauto | lia]. }
  assert (forall p1, stable d cs d cs' p1) as S by (intros p1 k Hk _; split; auto).
  destruct HT as [-> |(size & -> & Hh)].
  - apply (dinv_del blake3 d cs T D d cs'); try done; apply D.
  - apply (dinv_set blake3 d cs T D d cs'); [apply D | apply D | done | done | done | |].
    + simpl. rewrite <- Hh. apply blake3_wf.
    + intros b Hb. by apply not_elem_of_nil in Hb.
Qed.

Lemma putUnlocked_Ok_hash cap wr h data b cs' :
  putUnlocked blake3 cap wr h data cs = (Ok b, cs') -> blake3 data = h.
Proof using Type.
  unfold putUnlocked. case_decide; [done |]. destruct (decide (blake3 data <> h)) as [|E]; [done |].
  intros _. by apply dec_stable in E.
Qed.

Lemma NoteChunkStored_rows now h size :
  wf_hash h -> rows_wf d -> rows_wf (match NoteChunkStored h size now d with Ok (_, d') => d' | Err _ => d end).
Proof using Type.
  intros Hw R. destruct (NoteChunkStored h size now d) as [[u d']|] eqn:E; [| done]. injection E as [= _ <-].
  intros k. destruct (chunks d !! h) eqn:Eh; [apply R |]. simpl.
  intros [r [[<- _]|[_ Hk]]%lookup_insert_Some]; [done |]. apply R. simpl. eauto.
Qed.

Lemma pres_note now t h size :
  T !! t = Some (StoreNote h size) ->
  dinv blake3 (mkDS (match NoteChunkStored h size now d with Ok (_, d') => d' | Err _ => d end) cs
                 (delete t T)).
Proof using D.
  intros Ht. pose proof (di_pc _ _ D t _ Ht) as Hw. pose proof (NoteChunkStored_rows now h size Hw (di_rows _ _ D)) as Hr.
  destruct (NoteChunkStored h size now d) as [[u d']|] eqn:E; [| by apply pres_exit].
  destruct (di_fs _ _ D) as [a I]. simpl in *.
  assert (forall k, rc k d' = rc k d) as Hrc by (intros k; injection E as [= _ <-]; apply rc_initChunk).
  apply (dinv_del blake3 d cs T D d' cs); try apply D.
  - exists a. by eapply NoteChunkStored_refines.
  - done.
  - intros k. rewrite Hrc. apply (di_ref _ _ D).
  - intros t1 p1 _ _ k _ _. by rewrite Hrc.
Qed.

(** Rows at count 0 are dropped, and the thread goes on to unlink their files. *)
Lemma pres_rows t p p' hs d' :
  T !! t = Some p -> held p' = held p -> drops hs d d' -> NoDup hs ->
  (forall h, h ∈ hs -> wf_hash h /\ first_byte h ∈ held p /\ rc h d = 0) ->
  (p' = GcUnlink (held p) hs \/ p' = PurgeUnlink (held p) hs) ->
  dinv blake3 (mkDS d' cs (<[t := p']> T)).
Proof using D.
  intros Ht Hheld Hd ND Hs Hp'.
  destruct (drops_dinv blake3 hs d cs T d' D Hd) as [Hfs G]; [intros h Hh; by apply Hs |].
  destruct (dinv_shrink blake3 d cs T d' D Hfs G) as (Hrows & Href & S).
  apply (dinv_set blake3 d cs T D d' cs); [done | done | apply D | done | intros; apply S | |].
  - assert (forall h, h ∈ hs -> wf_hash h /\ first_byte h ∈ held p /\ rc h d' = 0) as H.
    { intros h Hh. destruct (Hs h Hh) as (? & ? & _). split; [done |]. split; [done |].
      destruct Hd as [_ Hd]. unfold rc. by rewrite Hd, decide_True. }
    by destruct Hp' as [-> | ->].
  - intros b. rewrite Hheld. eauto.
Qed.

Lemma pres_unlink t l hs p :
  T !! t = Some p -> p = GcUnlink l hs \/ p = PurgeUnlink l hs ->
  dinv blake3 (mkDS d (unlinkFiles order hs cs) (delete t T)).
Proof using D order_perm.
  intros Ht Hp. pose proof (di_pc _ _ D t _ Ht) as Hok. simpl in Hok.
  assert (held p = l /\ NoDup hs /\ forall h, h ∈ hs -> wf_hash h /\ first_byte h ∈ l /\ rc h d = 0)
    as (Hl & ND & Hhs) by by destruct Hp as [-> | ->].
  assert (Forall wf_hash hs) as Hw by (apply Forall_forall; intros h Hh; by apply Hhs).
  destruct (unlinkFiles_spec blake3 order order_perm hs cs) as [(Hf & _ & _) O]; [apply D | done | done |].
  assert (forall h, wf_hash h -> on_disk h (unlinkFiles order hs cs) = on_disk h cs && negb (bool_decide (h ∈ hs))) as Hdisk
    by (intros h Hh; by apply on_disk_delete).
  apply (dinv_del blake3 d cs T D d (unlinkFiles order hs cs)); try done; try apply D.
  - intros h Hh. assert (wf_hash h) as Hwf.
    { apply (di_rows _ _ D). simpl. unfold rc in Hh. destruct (chunks d !! h); [eauto | lia]. }
    pose proof (di_ref _ _ D h Hh) as Hon. simpl in Hon. rewrite Hdisk, Hon by done.
    rewrite bool_decide_false; [done |]. intros (_ & _ & Hz)%Hhs. lia.
  - intros t1 p1 Hne H1 h Hwf Hheld. split; [| done]. intros Hon. rewrite Hdisk, Hon by done.
    rewrite bool_decide_false; [done |]. intros (_ & Hb & _)%Hhs. apply Hne.
    rewrite <- Hl in Hb. by apply (di_excl _ _ D t1 t p1 p (first_byte h)).
Qed.

Lemma pres_db now r : dinv blake3 (mkDS (execDb now r d) cs T).
Proof using D.
  destruct (di_fs _ _ D) as [a I]. pose proof (execDb_Inv now r d a I) as Hfs.
  destruct (dinv_shrink blake3 d cs T _ D Hfs (execDb_grows now r d)) as (Hrows & Href & S).
  apply (dinv_keep blake3 d cs T D (execDb now r d) cs); [done | done | apply D | done | intros; apply S].
Qed.

Lemma pres_purge_tx now t l ag nm nj delta rev d' :
  T !! t = Some (PurgeLocking l [] ag) ->
  (forall p, in_subtree_sql (agent_prefix ag) p = true -> sole d p) ->
  purgeTx now ag d = Ok ((nm, nj, delta, rev), d') ->
  dinv blake3 (mkDS d' cs (<[t := PurgeRows l (map_to_list delta).*1]> T)).
Proof using D.
  intros Ht Hs Hp. destruct (di_fs _ _ D) as [a I].
  pose proof (purgeTx_Inv now ag d _ d' a I Hs Hp) as Hfs.
  pose proof (grows_purge now ag d _ d' Hp) as G.
  destruct (dinv_shrink blake3 d cs T d' D Hfs G) as (Hrows & Href & S).
  pose proof (di_pc _ _ D t _ Ht) as Hl. simpl in Hl. rewrite app_nil_r in Hl.
  apply (dinv_set blake3 d cs T D d' cs); [done | done | apply D | done | intros; apply S | |].
  - split; [apply NoDup_fst_map_to_list | done].
  - intros b Hb. left. eauto.
Qed.

Lemma pres_gc_start t cutoff limit locks :
  T !! t = None -> lockHashes (gc_hash <$> selectGCCandidates cutoff limit d) = Some locks ->
  dinv blake3 (mkDS d cs (<[t := GcLocking [] locks cutoff (selectGCCandidates cutoff limit d)]> T)).
Proof using D.
  intros Ht Hl. apply pres_start; [done | | done]. split; [| done].
  apply (garbage_wf cutoff d); [apply D |]. intros h. apply selectGC_elem.
Qed.

Lemma pres_gc_rows t l cutoff cands del freed d' :
  T !! t = Some (GcLocking l [] cutoff cands) -> deleteGCBatch cutoff cands d = (del, freed, d') ->
  dinv blake3 (mkDS d' cs (<[t := GcUnlink l (gc_hash <$> del)]> T)).
Proof using D.
  intros Ht Hb. destruct (di_pc _ _ D t _ Ht) as [Hw Hl]. rewrite app_nil_r in Hl.
  pose proof (deleteGCBatch_spec cutoff cands d) as Hs. rewrite Hb in Hs. destruct Hs as (Hd & ND & Hdel).
  eapply (pres_rows t _ _ (gc_hash <$> del)); [exact Ht | done | done | done | | by left].
  intros h Hh. apply Hdel in Hh as [Hin Hg]. rewrite Forall_forall in Hw. pose proof (Hw h Hin) as [? Hby].
  split; [by apply Hw |]. split; [by eapply lockHashes_first | by eapply garbage_rc].
Qed.

Lemma pres_purge_rows t l hs del d' :
  T !! t = Some (PurgeRows l hs) -> deletePurgedChunkRows hs d = Some (del, d') ->
  dinv blake3 (mkDS d' cs (<[t := PurgeUnlink l (pc_hash <$> del)]> T)).
Proof using D.
  intros Ht Hp. destruct (di_pc _ _ D t _ Ht) as [ND Hl].
  destruct (deletePurged_spec hs d del d' ND Hp) as (Hd & ND' & Hdel).
  eapply (pres_rows t _ _ (pc_hash <$> del)); [exact Ht | done | done | done | | by right].
  intros h (_ & Hz & Hs)%Hdel. assert (wf_hash h) by by apply (di_rows _ _ D).
  split; [done |]. split; [| done]. simpl. rewrite Hl. by apply first_byte_shard.
Qed.
End preservation.

Section safety.
Context {MP : MsgPack} (blake3 : blob -> hash).
Context (order : list (gostr * list chunkBatchItem) -> list (gostr * list chunkBatchItem)).
Hypothesis order_perm : forall l, order l ≡ₚ l.
Hypothesis blake3_wf : forall data, wf_hash (blake3 data).

Lemma calm_dinv g g' : dinv blake3 g -> calm blake3 order g g' -> dinv blake3 g'.
Proof using order_perm blake3_wf.
  intros D [Hs Hl]. destruct Hs.
  - by apply pres_db.
  - by eapply pres_acquire.
  - by apply pres_start.
  - by eapply pres_validate.
  - by eapply pres_commit.
  - by apply pres_start.
  - eapply (pres_store blake3 blake3_wf d cs T D t _ cap wr h data cs'); [done | by rewrite H0 |].
    right. eexists. split; [done |]. by eapply putUnlocked_Ok_hash.
  - eapply (pres_store blake3 blake3_wf d cs T D t _ cap wr h data cs'); [done | by rewrite H0 | by left].
  - by apply pres_note.
  - by apply pres_gc_start.
  - by eapply pres_gc_rows.
  - eapply (pres_unlink blake3 order order_perm d cs T D t l hs); [done | by left].
  - by apply pres_start.
  - eapply pres_purge_tx; [done | done | | done].
    intros p. eapply (Hl t l ((map_to_list delta).*1) ag p H). simpl. by rewrite lookup_insert_eq.
  - by apply pres_exit.
  - by eapply pres_purge_rows.
  - by apply pres_exit.
  - eapply (pres_unlink blake3 order order_perm d cs T D t l hs); [done | by right].
Qed.

Definition dinit : dstate := mkDS emptyDB (NewChunkStore ∅ ∅) ∅.

Lemma dinv_init : dinv blake3 dinit.
Proof using Type.
  split; simpl.
  - exists empty_afs. apply Inv_empty.
  - intros h [x Hx]. done.
  - split. intros k x Hx. done.
  - intros h Hh. done.
  - intros t t' p p' b Ht. done.
  - intros t p Ht. done.
Qed.

Lemma reach_dinv g : rtc (calm blake3 order) dinit g -> dinv blake3 g.
Proof using order_perm blake3_wf.
  intros H. pose proof dinv_init as D. revert D. induction H; [done |]. intros D. by eauto using calm_dinv.
Qed.

(** ** Every interleaving *)

Definition pc_locks (p : pc) : Prop :=
  match p with
  | PutLocking l r a => Forall wf_ref (mf_Chunks (pa_mf a)) /\ lockHashes (put_hashes a) = Some (l ++ r)
  | PutReady l a => Forall wf_ref (mf_Chunks (pa_mf a))
  | StoreLocking l r h data => lockHashes [h] = Some (l ++ r)
  | StoreNote h size => wf_hash h
  | GcLocking l r cutoff cands => Forall wf_hash (gc_hash <$> cands) /\ lockHashes (gc_hash <$> cands) = Some (l ++ r)
  | GcUnlink l hs | PurgeUnlink l hs => NoDup hs /\ Forall wf_hash hs
  | PurgeLocking l r ag => l ++ r = allShards
  | PurgeRows l hs => NoDup hs
  end.

Record linv (g : dstate) : Prop := {
  li_rows : rows_wf (g_db g);
  li_cs : cs_ok blake3 (g_cs g);
  li_pc : map_Forall (fun _ => pc_locks) (g_threads g) }.

Lemma linv_set d cs T t p : rows_wf d -> cs_ok blake3 cs -> map_Forall (fun _ => pc_locks) T -> pc_locks p ->
  linv (mkDS d cs (<[t := p]> T)).
Proof using Type. intros. split; [done | done |]. by apply map_Forall_insert_2. Qed.

Lemma linv_del d cs T t : rows_wf d -> cs_ok blake3 cs -> map_Forall (fun _ => pc_locks) T -> linv (mkDS d cs (delete t T)).
Proof using Type. intros. split; [done | done |]. by apply map_Forall_delete. Qed.

Lemma dstep_linv g g' : linv g -> dstep blake3 order g g' -> linv g'.
Proof using order_perm blake3_wf.
  intros L Hs. destruct Hs; destruct L as [R O P]; simpl in *.
  all: try match goal with H : _ !! _ = Some _ |- _ => pose proof (P _ _ H) as Hp; simpl in Hp end.
  - split; [| done | done]. eapply rows_wf_grows; [constructor | apply execDb_grows | done].
  - apply linv_set; [done .. |]. destruct p; simpl in *; subst; try done; simpl; by rewrite <- app_assoc.
  - by apply linv_set.
  - destruct (forallb id bs); [apply linv_set; [done .. | by destruct Hp] | by apply linv_del].
  - apply linv_del; [| done | done]. eapply rows_wf_grows; [exact Hp | apply run_tx_grows, grows_put | done].
  - by apply linv_set.
  - apply linv_set; [done | | done |].
    + replace cs' with (putUnlocked blake3 cap wr h data cs).2 by (by rewrite H0). by apply putUnlocked_ok.
    + rewrite <- (putUnlocked_Ok_hash blake3 cs cap wr h data b cs' H0). apply blake3_wf.
  - apply linv_del; [done | | done].
    replace cs' with (putUnlocked blake3 cap wr h data cs).2 by (by rewrite H0). by apply putUnlocked_ok.
  - apply linv_del; [| done | done]. by apply NoteChunkStored_rows.
  - apply linv_set; [done .. |]. split; [| done]. apply (garbage_wf cutoff d); [done |]. intros h. apply selectGC_elem.
  - pose proof (deleteGCBatch_spec cutoff cands d) as Hs. rewrite H0 in Hs. destruct Hs as (Hd & ND & Hdel).
    apply linv_set; [by eapply rows_wf_drops | done | done |]. split; [done |]. apply Forall_forall.
    intros h [Hin _]%Hdel. destruct Hp as [Hw _]. rewrite Forall_forall in Hw. by apply Hw.
  - destruct Hp as [ND Hw]. apply linv_del; [done | | done]. by apply unlinkFiles_spec.
  - by apply linv_set.
  - apply linv_set; [| done | done |].
    + eapply rows_wf_grows; [constructor | by eapply grows_purge | done].
    + apply NoDup_fst_map_to_list.
  - by apply linv_del.
  - destruct (deletePurged_spec hs d del d' Hp H0) as (Hd & ND & Hdel).
    apply linv_set; [by eapply rows_wf_drops | done | done |]. split; [done |]. apply Forall_forall.
    intros h (_ & _ & Hs)%Hdel. by apply R.
  - by apply linv_del.
  - destruct Hp as [ND Hw]. apply linv_del; [done | | done]. by apply unlinkFiles_spec.
Qed.

Lemma reach_linv g : rtc (dstep blake3 order) dinit g -> linv g.
Proof using order_perm blake3_wf.
  intros H. assert (linv dinit) as L.
  { split; simpl; [by intros h [] | by split | apply map_Forall_empty]. }
  revert L. induction H; [done |]. intros L. by eauto using dstep_linv.
Qed.
End safety.
