(* ===== verification/DiskProps.v ===== *)
(** * Properties of the chunk store, the sweeper, the purge and their interleavings *)

From S2P Require Import Prelude GoPath Codec TenantDB Journal Manifests FileSpec Refine Changes ChunkStore Gc Disk.

(** ** An executable scheduler

    [dexec] runs one step of Disk.v chosen by an event; it only makes steps of
    [dstep].  It has no purges, so its runs are [calm]. *)

Inductive devent :=
| EvDb (now : Z) (r : dbreq)
| EvAcquire (t : nat)
| EvPutStart (t : nat) (a : putArgs)
| EvPutValidate (t : nat)
| EvPutCommit (t : nat) (now : Z)
| EvStoreStart (t : nat) (h : hash) (data : blob)
| EvStore (t : nat)
| EvStoreNote (t : nat) (now : Z)
| EvGcStart (t : nat) (cutoff limit : Z)
| EvGcRows (t : nat)
| EvGcUnlink (t : nat).

#[export] Instance wf_hash_dec h : Decision (wf_hash h).
Proof. unfold wf_hash, is_byte. apply _. Defined.
#[export] Instance wf_ref_dec c : Decision (wf_ref c).
Proof. unfold wf_ref. apply _. Defined.
#[export] Instance is_byte_dec b : Decision (is_byte b).
Proof. unfold is_byte. apply _. Defined.
#[export] Instance free_dec b T : Decision (free b T).
Proof.
  refine (cast_if (decide (map_Forall (fun _ p => b ∉ held p) T))); [by intros t p; apply m | by intros ?; apply n].
Defined.

Section exec.
Context {MP : MsgPack} (blake3 : blob -> hash).
Context (order : list (gostr * list chunkBatchItem) -> list (gostr * list chunkBatchItem)).

Definition dexec (e : devent) (g : dstate) : option dstate :=
  let '(mkDS d cs T) := g in
  match e with
  | EvDb now r => Some (mkDS (execDb now r d) cs T)
  | EvAcquire t =>
      p ← T !! t;
      match todo p with
      | b :: _ => if decide (free b T) then Some (mkDS d cs (<[t := acquire p]> T)) else None
      | [] => None
      end
  | EvPutStart t a =>
      match T !! t, lockHashes (put_hashes a) with
      | None, Some locks =>
          if decide (pa_path a = mf_Path (pa_mf a) /\ ~ (pa_sid a <> [] /\ pa_al a = []) /\
                     Forall wf_ref (mf_Chunks (pa_mf a)))
          then Some (mkDS d cs (<[t := PutLocking [] locks a]> T)) else None
      | _, _ => None
      end
  | EvPutValidate t =>
      match T !! t with
      | Some (PutLocking l [] a) =>
          match HasMany order (put_hashes a) cs with
          | Ok bs => Some (mkDS d cs (if forallb id bs then <[t := PutReady l a]> T else delete t T))
          | Err _ => None
          end
      | _ => None
      end
  | EvPutCommit t now =>
      match T !! t with
      | Some (PutReady l a) =>
          Some (mkDS (db_of (run_tx (putTx now (pa_path a) (pa_version a) (pa_mf a) (pa_sid a)
                                       (pa_al a) (pa_ag a))) d) cs (delete t T))
      | _ => None
      end
  | EvStoreStart t h data =>
      match T !! t, lockHashes [h] with
      | None, Some locks =>
          if decide (Z.of_nat (length data) <= maxChunkBytes /\ Forall is_byte h)
          then Some (mkDS d cs (<[t := StoreLocking [] locks h data]> T)) else None
      | _, _ => None
      end
  | EvStore t =>
      match T !! t with
      | Some (StoreLocking l [] h data) =>
          match putUnlocked blake3 None WriteDone h data cs with
          | (Ok _, cs') => Some (mkDS d cs' (<[t := StoreNote h (Z.of_nat (length data))]> T))
          | (Err _, cs') => Some (mkDS d cs' (delete t T))
          end
      | _ => None
      end
  | EvStoreNote t now =>
      match T !! t with
      | Some (StoreNote h size) =>
          Some (mkDS (match NoteChunkStored h size now d with Ok (_, d') => d' | Err _ => d end)
                  cs (delete t T))
      | _ => None
      end
  | EvGcStart t cutoff limit =>
      match T !! t, lockHashes (gc_hash <$> selectGCCandidates cutoff limit d) with
      | None, Some locks =>
          Some (mkDS d cs (<[t := GcLocking [] locks cutoff (selectGCCandidates cutoff limit d)]> T))
      | _, _ => None
      end
  | EvGcRows t =>
      match T !! t with
      | Some (GcLocking l [] cutoff cands) =>
          let '(del, _, d') := deleteGCBatch cutoff cands d in
          Some (mkDS d' cs (<[t := GcUnlink l (gc_hash <$> del)]> T))
      | _ => None
      end
  | EvGcUnlink t =>
      match T !! t with
      | Some (GcUnlink l hs) => Some (mkDS d (unlinkFiles order hs cs) (delete t T))
      | _ => None
      end
  end.

Lemma dexec_dstep e g g' : dexec e g = Some g' -> dstep blake3 order g g'.
Proof.
  destruct g as [d cs T], e; simpl; intros H.
  - simplify_eq. apply ds_db.
  - destruct (T !! t) as [p|] eqn:Ht; [| done]. simpl in H. destruct (todo p) eqn:Hp; [done |].
    case_decide; simplify_eq. by eapply ds_acquire.
  - destruct (T !! t) eqn:Ht; [done |]. destruct (lockHashes _) eqn:Hl; [| done].
    case_decide as Hc; [| done]. destruct Hc as (? & ? & ?). simplify_eq. by apply ds_put_start.
  - destruct (T !! t) as [[? td ?| |? td ? ?| |? td ? ?| |? td ?| |]|] eqn:Ht; try done. destruct td; [| done].
    destruct (HasMany _ _ _) eqn:Hb; simplify_eq. by eapply ds_put_validate.
  - destruct (T !! t) as [[]|] eqn:Ht; simplify_eq. by eapply ds_put_commit.
  - destruct (T !! t) eqn:Ht; [done |]. destruct (lockHashes _) eqn:Hl; [| done].
    case_decide as Hc; [| done]. destruct Hc as (? & ?). simplify_eq. by apply ds_store_start.
  - destruct (T !! t) as [[? td ?| |? td ? ?| |? td ? ?| |? td ?| |]|] eqn:Ht; try done. destruct td; [| done].
    destruct (putUnlocked _ _ _ _ _ _) as [[b|e] cs'] eqn:Hp; simplify_eq;
      [by eapply ds_store | by eapply ds_store_fail].
  - destruct (T !! t) as [[]|] eqn:Ht; simplify_eq. by eapply ds_store_note.
  - destruct (T !! t) eqn:Ht; [done |]. destruct (lockHashes _) eqn:Hl; simplify_eq. by apply ds_gc_start.
  - destruct (T !! t) as [[? td ?| |? td ? ?| |? td ? ?| |? td ?| |]|] eqn:Ht; try done. destruct td; [| done].
    destruct (deleteGCBatch _ _ _) as [[del fr] d'] eqn:Hb; simplify_eq. by eapply ds_gc_rows.
  - destruct (T !! t) as [[]|] eqn:Ht; simplify_eq. by eapply ds_gc_unlink.
Qed.

(** No purge is about to run its transaction. *)
Definition quiet (g : dstate) : bool :=
  forallb (fun tp => match tp.2 with PurgeLocking _ [] _ => false | _ => true end) (map_to_list (g_threads g)).

Lemma quiet_spares g g' : quiet g = true -> spares_links g g'.
Proof.
  unfold quiet. rewrite forallb_forall. intros Hq t l hs ag p Ht.
  apply elem_of_map_to_list, list_elem_of_In, Hq in Ht. done.
Qed.

Fixpoint drun (es : list devent) (g : dstate) : option dstate :=
  match es with
  | [] => Some g
  | e :: es' => if quiet g then g' ← dexec e g; drun es' g' else None
  end.

Lemma drun_reach es g g' : drun es g = Some g' -> rtc (calm blake3 order) g g'.
Proof.
  revert g. induction es as [|e es IH]; intros g; simpl; [by intros [= <-] |].
  destruct (quiet g) eqn:Q; [| done].
  destruct (dexec e g) as [g1|] eqn:E; [| done]. intros H%IH. eapply rtc_l; [| exact H].
  split; [by apply dexec_dstep in E | by apply quiet_spares].
Qed.

(** A run that gets through ends in a reachable state. *)
Lemma drun_ends es g g0 :
  bool_decide (is_Some (drun es g)) = true -> rtc (calm blake3 order) g (default g0 (drun es g)).
Proof. intros [g' H]%bool_decide_eq_true. rewrite H. by apply (drun_reach es). Qed.

Lemma calm_reach g g' : rtc (calm blake3 order) g g' -> rtc (dstep blake3 order) g g'.
Proof. induction 1 as [|x y z [S _] _ IH]; [done |]. by eapply rtc_l. Qed.
End exec.

(** ** Lock order *)

Lemma seqZ_sorted m n : StronglySorted Z.lt (seqZ m n).
Proof.
  destruct (decide (0 <= n)) as [Hn|Hn]; [| rewrite seqZ_nil by lia; constructor].
  revert m. pattern n. apply natlike_ind; [| | done]; clear n Hn.
  - intros m. rewrite seqZ_nil by lia. constructor.
  - intros n Hn IH m. rewrite seqZ_cons by lia. rewrite Z.pred_succ. constructor; [apply IH |].
    apply Forall_forall. intros x Hx%elem_of_seqZ. lia.
Qed.

Lemma lockHashes_sorted hs l : lockHashes hs = Some l -> StronglySorted Z.lt l.
Proof.
  unfold lockHashes. case_decide; [| done]. intros [= <-]. apply StronglySorted_filter, seqZ_sorted.
Qed.

(** A thread takes its locks in ascending order. *)
Lemma pc_sorted p : pc_locks p -> todo p <> [] -> StronglySorted Z.lt (held p ++ todo p).
Proof.
  destruct p; simpl; try done.
  - intros [_ H] _. by eapply lockHashes_sorted.
  - intros H _. by eapply lockHashes_sorted.
  - intros [_ H] _. by eapply lockHashes_sorted.
  - intros -> _. apply seqZ_sorted.
Qed.

Lemma sorted_next l b r x : StronglySorted Z.lt (l ++ b :: r) -> x ∈ l -> x < b.
Proof.
  induction l as [|y l IH]; intros Hs Hx; [by apply not_elem_of_nil in Hx |]. simpl in Hs.
  inversion Hs as [|? ? Hs' Hf]; subst. apply elem_of_cons in Hx as [-> |Hx]; [| by apply IH].
  rewrite Forall_forall in Hf. apply Hf. set_solver.
Qed.

Lemma max_elem (l : list Z) : l <> [] -> exists x, x ∈ l /\ forall y, y ∈ l -> y <= x.
Proof.
  induction l as [|a l IH]; [done |]. intros _. destruct l as [|b l].
  - exists a. split; [by apply list_elem_of_singleton |]. intros y Hy. apply list_elem_of_singleton in Hy. lia.
  - destruct IH as (x & Hx & Hmax); [done |]. destruct (decide (a <= x)).
    + exists x. split; [by apply elem_of_cons; right |]. intros y [->|Hy]%elem_of_cons; auto.
    + exists a. split; [by apply elem_of_cons; left |]. intros y [->|Hy]%elem_of_cons; [lia |].
      specialize (Hmax y Hy). lia.
Qed.

Section claims.
Context {MP : MsgPack} (blake3 : blob -> hash).
Context (order : list (gostr * list chunkBatchItem) -> list (gostr * list chunkBatchItem)).
Hypothesis order_perm : forall l, order l ≡ₚ l.
Hypothesis blake3_wf : forall data, wf_hash (blake3 data).

Lemma Get_referenced d a p mf h :
  Inv d a -> Get p d = Ok mf -> h ∈ Hash <$> mf_Chunks mf -> 0 < rc h d.
Proof using Type.
  intros I Hg Hh. destruct (Get_Ok p d mf a I Hg) as (i & x & _ & Hx & _ & ->). simpl in Hh.
  rewrite (inv_rc d a I h). apply refs_pos. eauto.
Qed.

(** The inodes of the files with their chunk lists: an inode counts once, whatever
    the number of its names. *)
Definition inode_chunks (d : tdb) : gmap Z (list ChunkRef) :=
  list_to_map ((fun pr => (m_inode pr.2, default [] (unpackChunks (m_chunks pr.2)))) <$> map_to_list (manifests d)).

Lemma inode_chunks_Inv d a : Inv d a -> inode_chunks d = i_chunks <$> inodes a.
Proof using Type.
  intros I. assert (forall i cs, inode_chunks d !! i = Some cs -> i_chunks <$> inodes a !! i = Some cs) as Hs.
  { intros i cs H%elem_of_list_to_map_2. apply list_elem_of_fmap in H as ([p r] & [= -> ->] & Hr).
    apply elem_of_map_to_list in Hr. destruct (inv_unpack d a I p r Hr) as (x & _ & -> & -> & _). done. }
  apply map_eq. intros i. rewrite lookup_fmap. destruct (inode_chunks d !! i) as [cs|] eqn:E; [by rewrite (Hs i cs E) |].
  destruct (inodes a !! i) as [x|] eqn:Hx; [| done]. exfalso.
  destruct (inv_live d a I i x Hx) as [p Hp]. destruct (inv_name_row d a I p i Hp) as (r & Hr & <-).
  apply not_elem_of_list_to_map_2 in E. apply E. rewrite <- list_fmap_compose. apply list_elem_of_fmap.
  exists (p, r). by rewrite elem_of_map_to_list.
Qed.

(** C1: in every interleaving of manifest writes, chunk uploads, deletes, renames,
    sweeps and purges in which no purge transaction runs on an agent that has a
    hard-linked file, every chunk of every file that [Get] returns is on disk, and
    its contents hash to the chunk's name.  (A purge of a hard-linked file counts its
    chunks once per name: GcProps.purge_counts_names.) *)
Theorem files_readable g p mf c :
  rtc (calm blake3 order) dinit g -> Get p (g_db g) = Ok mf -> c ∈ mf_Chunks mf ->
  exists data, chunkGet (Hash c) (g_cs g) = Ok data /\ blake3 data = Hash c.
Proof using order_perm blake3_wf.
  intros Hr Hg Hc. pose proof (reach_dinv blake3 order order_perm blake3_wf g Hr) as D.
  destruct (di_fs _ _ D) as [a I].
  assert (Hash c ∈ Hash <$> mf_Chunks mf) as Hh by (apply list_elem_of_fmap; eauto).
  pose proof (Get_referenced _ a p mf _ I Hg Hh) as Hpos.
  assert (wf_hash (Hash c)) as Hw.
  { apply (di_rows _ _ D). unfold rc in Hpos. destruct (chunks (g_db g) !! Hash c); [eauto | lia]. }
  pose proof (di_ref _ _ D _ Hpos) as [data Hd]%bool_decide_eq_true.
  destruct (cs_file _ _ (di_cs _ _ D) _ _ Hd) as (h & Hwh & Hp & Hb & _).
  apply pathOf_inj in Hp as <-; [| done | done]. exists data. split; [| done].
  unfold chunkGet, Path. destruct Hw as [Hl _]. rewrite decide_True by done. by rewrite Hd.
Qed.

Lemma rc_counts d a h : Inv d a -> rc h d = map_sum (occ h) (inode_chunks d).
Proof using Type. intros I. rewrite (inode_chunks_Inv d a I), map_sum_fmap. apply (inv_rc _ _ I). Qed.

Lemma rc_used d a h : Inv d a -> 0 < rc h d <-> exists p mf, Get p d = Ok mf /\ h ∈ Hash <$> mf_Chunks mf.
Proof using Type.
  intros I. split.
  - rewrite (inv_rc _ a I h). intros (i & x & Hx & Hh)%refs_pos.
    destruct (inv_live _ _ I i x Hx) as (p & Hp).
    destruct (inv_name_row _ _ I p i Hp) as (r & Hr' & Hi). exists p.
    destruct (inv_unpack _ _ I p r Hr') as (y & Hy & Hiy & Hu & _ & _).
    unfold Get. rewrite Hr', Hu. eexists. split; [done |]. simpl. rewrite Hi, Hx in Hiy. by simplify_eq.
  - intros (p & mf & Hg & Hh). by eapply Get_referenced.
Qed.

(** C7: in every interleaving in which no purge transaction runs on an agent that has
    a hard-linked file, the reference count of a chunk is the number of its
    occurrences in the chunk lists of the files' inodes (an inode counts once,
    whatever the number of its names); so it is positive exactly if some file uses
    the chunk, and a sweep or a purge that finds 0 may reclaim it. *)
Theorem refcount_exact g h :
  rtc (calm blake3 order) dinit g ->
  rc h (g_db g) = map_sum (occ h) (inode_chunks (g_db g)) /\
  (0 < rc h (g_db g) <-> exists p mf, Get p (g_db g) = Ok mf /\ h ∈ Hash <$> mf_Chunks mf).
Proof using order_perm blake3_wf.
  intros Hr. pose proof (reach_dinv blake3 order order_perm blake3_wf g Hr) as D.
  destruct (di_fs _ _ D) as [a I]. split; [by eapply rc_counts | by eapply rc_used].
Qed.

(** While threads hold or want locks, the next lock of some thread is free. *)
Lemma some_lock_free g :
  linv blake3 g -> g_threads g <> ∅ -> (forall t p, g_threads g !! t = Some p -> todo p <> []) ->
  exists t p b r, g_threads g !! t = Some p /\ todo p = b :: r /\ free b (g_threads g).
Proof using Type.
  intros D Hne Hall. set (T := g_threads g) in *.
  set (H := (map_to_list T).*2 ≫= held).
  assert (forall b, b ∈ H <-> exists t p, T !! t = Some p /\ b ∈ held p) as HH.
  { intros b. unfold H. rewrite list_elem_of_bind. split.
    - intros (p & Hb & ([t p'] & -> & Hp)%list_elem_of_fmap). apply elem_of_map_to_list in Hp. eauto.
    - intros (t & p & Hp & Hb). exists p. split; [done |]. apply list_elem_of_fmap. exists (t, p).
      split; [done |]. by apply elem_of_map_to_list. }
  destruct (decide (H = [])) as [E|E].
  - destruct (map_choose T Hne) as (t & p & Hp). destruct (todo p) as [|b r] eqn:Hr; [by destruct (Hall t p) |].
    exists t, p, b, r. split; [done |]. split; [done |]. intros t' p' Hp' Hb.
    assert (b ∈ H) as Hin by (apply HH; eauto). rewrite E in Hin. by apply not_elem_of_nil in Hin.
  - destruct (max_elem H E) as (m & Hm & Hmax). apply HH in Hm as (t & p & Hp & Hb).
    destruct (todo p) as [|b r] eqn:Hr; [by destruct (Hall t p) |]. exists t, p, b, r.
    split; [done |]. split; [done |]. intros t' p' Hp' Hb'.
    assert (b <= m) by (apply Hmax, HH; eauto).
    pose proof (pc_sorted p (li_pc _ _ D t p Hp) (Hall t p Hp)) as Hs. rewrite Hr in Hs.
    pose proof (sorted_next _ _ _ _ Hs Hb). lia.
Qed.

(** A thread that has its locks goes on by itself. *)
Lemma unlocked_moves g t p :
  linv blake3 g -> g_threads g !! t = Some p -> todo p = [] ->
  exists g', dstep blake3 order g g' /\ g_threads g' !! t <> Some p.
Proof using order_perm.
  intros D Ht Hr. destruct g as [d cs T]. simpl in *.
  assert (delete t T !! t <> Some p) as Hdel by by rewrite lookup_delete_eq.
  assert (forall p', p' <> p -> <[t := p']> T !! t <> Some p) as Hins by (intros p' Hp'; rewrite lookup_insert_eq; congruence).
  destruct p; simpl in Hr; subst.
  - destruct (li_pc _ _ D t _ Ht) as [Hw _]. eexists. split.
    + eapply (ds_put_validate blake3 order t); [done |].
      apply (HasMany_present blake3); [done | apply D | by apply put_hashes_wf].
    + simpl. destruct (forallb _ _); [by apply Hins | done].
  - eexists. split; [by eapply (ds_put_commit blake3 order 0 t) | done].
  - destruct (putUnlocked blake3 None WriteDone h data cs) as [[b|e] cs'] eqn:E; eexists.
    + split; [by eapply ds_store | by apply Hins].
    + split; [by eapply ds_store_fail | done].
  - eexists. split; [by eapply (ds_store_note blake3 order 0 t) | done].
  - destruct (deleteGCBatch cutoff cands d) as [[del fr] d'] eqn:E. eexists.
    split; [by eapply ds_gc_rows | by apply Hins].
  - eexists. split; [by eapply ds_gc_unlink | done].
  - destruct (purgeTx 0 ag d) as [[[[[nm nj] delta] rev] d']|e] eqn:E; eexists.
    + split; [by eapply ds_purge_tx | by apply Hins].
    + split; [by eapply ds_purge_fail | done].
  - destruct (deletePurgedChunkRows hs d) as [[del d']|] eqn:E; eexists.
    + split; [by eapply ds_purge_rows | by apply Hins].
    + split; [by eapply ds_purge_rows_fail | done].
  - eexists. split; [by eapply ds_purge_unlink | done].
Qed.

(** C32: the hash locks cannot deadlock: in every reachable state with threads
    in flight some thread can take its next step, because every thread takes
    its locks in ascending order. *)
Theorem locks_progress g :
  rtc (dstep blake3 order) dinit g -> g_threads g <> ∅ ->
  exists t p g', g_threads g !! t = Some p /\ dstep blake3 order g g' /\ g_threads g' !! t <> Some p.
Proof using order_perm blake3_wf.
  intros Hr Hne. pose proof (reach_linv blake3 order order_perm blake3_wf g Hr) as D.
  destruct (decide (map_Forall (fun _ p => todo p <> []) (g_threads g))) as [Hall|Hn].
  - destruct (some_lock_free g D Hne) as (t & p & b & r & Hp & Ht & Hf); [by intros t p; apply Hall |].
    destruct g as [d cs T]. exists t, p. eexists. split; [done |].
    split; [by eapply ds_acquire |]. simpl. rewrite lookup_insert_eq. intros [= E].
    apply (f_equal held) in E. apply (f_equal length) in E.
    destruct p; simpl in *; subst; try done; simpl in E; rewrite length_app in E; simpl in E; lia.
  - apply map_not_Forall in Hn as (t & p & Hp & Hd); [| apply _].
    apply dec_stable in Hd. destruct (unlocked_moves g t p D Hp Hd) as (g' & H1 & H2). eauto 6.
Qed.
End claims.

(** ** A concrete interleaving

    A chunk is uploaded and noted, a writer takes its lock, a sweep selects the
    still unreferenced chunk, the writer commits, and the sweep goes on. *)

Definition toy_hash (data : blob) : hash := replicate 32 (Z.of_nat (length data) mod 256).

Lemma toy_hash_wf data : wf_hash (toy_hash data).
Proof.
  split; [apply length_replicate |]. apply Forall_replicate. unfold is_byte.
  pose proof (Z.mod_pos_bound (Z.of_nat (length data)) 256). lia.
Qed.

Definition data3 : blob := [1; 2; 3].
Definition hash3 : hash := replicate 32 3.
Definition mf3 (p : gostr) : Manifest := mkManifest p 0 0 3 420 1000 0 [mkChunkRef hash3 0 3] 0 0 0.
Definition args3 : putArgs := mkPutArgs (str "/a") 0 (mf3 (str "/a")) [] [] [].

Definition upload3 : list devent :=
  [EvStoreStart 1 hash3 data3; EvAcquire 1; EvStore 1; EvStoreNote 1 50].
Definition race3 : list devent :=
  upload3 ++ [EvPutStart 2 args3; EvAcquire 2; EvGcStart 3 100 10; EvPutValidate 2; EvPutCommit 2 60;
              EvAcquire 3; EvGcRows 3; EvGcUnlink 3].
Definition no_state : dstate := dinit.
Definition after3 : dstate := default no_state (drun (MP := flat_msgpack) toy_hash id race3 dinit).

Lemma order_id (l : list (gostr * list chunkBatchItem)) : id l ≡ₚ l.
Proof. done. Qed.

Lemma after3_reach : rtc (calm (MP := flat_msgpack) toy_hash id) dinit after3.
Proof. apply (drun_ends (MP := flat_msgpack) toy_hash id race3). vm_compute. reflexivity. Qed.

Definition got3 : Manifest := mkManifest (str "/a") 1 1 3 420 1000 1 [mkChunkRef hash3 0 3] 0 0 1000.

Lemma files_readable_witness :
  exists data, chunkGet hash3 (g_cs after3) = Ok data /\ toy_hash data = hash3.
Proof.
  apply (files_readable (MP := flat_msgpack) toy_hash id order_id toy_hash_wf after3 (str "/a") got3
           (mkChunkRef hash3 0 3) after3_reach).
  - vm_compute. reflexivity.
  - left.
Defined.

Lemma refcount_exact_witness : 0 < rc hash3 (g_db after3).
Proof.
  apply (proj2 (refcount_exact (MP := flat_msgpack) toy_hash id order_id toy_hash_wf after3 hash3 after3_reach)).
  exists (str "/a"), got3. split; [vm_compute; reflexivity |]. left.
Defined.

(** The writer and the sweep both want the lock of the chunk. *)
Definition contended : dstate :=
  default no_state (drun (MP := flat_msgpack) toy_hash id (take 7 race3) dinit).

Lemma locks_progress_witness :
  exists t p g', g_threads contended !! t = Some p /\
    dstep (MP := flat_msgpack) toy_hash id contended g' /\ g_threads g' !! t <> Some p.
Proof.
  apply (locks_progress (MP := flat_msgpack) toy_hash id order_id toy_hash_wf contended).
  - apply calm_reach, (drun_ends (MP := flat_msgpack) toy_hash id (take 7 race3)). vm_compute. reflexivity.
  - intros E. apply (f_equal (fun T => bool_decide (is_Some (T !! 2%nat)))) in E. by vm_compute in E.
Defined.
