(* ===== verification/GcProps.v ===== *)
(** * Properties of the chunk store, the sweep and the purge on their own *)

From S2P Require Import Prelude GoPath Codec TenantDB Journal Manifests FileSpec Refine Changes ChunkStore Gc Disk DiskProps.

Section claims.
Context (blake3 : blob -> hash).
Context (order : list (gostr * list chunkBatchItem) -> list (gostr * list chunkBatchItem)).
Hypothesis order_perm : forall l, order l ≡ₚ l.

(** ** The chunk store *)

(** An accepted upload can be read back: the bytes that [Get] returns hash
    to the requested name, a second upload stores nothing, and a refused one
    leaves every stored file as it was. *)
Theorem chunk_put_get cap wr h data cs r cs' :
  cs_ok blake3 cs -> (forall x, wf_hash (blake3 x)) -> putUnlocked blake3 cap wr h data cs = (r, cs') ->
  match r with
  | Ok stored =>
      (exists data', chunkGet h cs' = Ok data' /\ blake3 data' = h /\ (stored = true -> data' = data)) /\
      forall cap' wr', (putUnlocked blake3 cap' wr' h data cs').1 = Ok false
  | Err _ => files cs' = files cs
  end.
Proof using Type.
  intros O Hb Hp. unfold putUnlocked in Hp.
  destruct (decide (length h <> HashLen)) as [|Hl]; [by simplify_eq |].
  destruct (decide (blake3 data <> h)) as [|Hh]; [by simplify_eq |].
  apply dec_stable in Hl, Hh. simpl in Hp.
  assert (forall x cs1, files cs1 !! pathOf h = Some x ->
    chunkGet h cs1 = Ok x /\ forall cap' wr', (putUnlocked blake3 cap' wr' h data cs1).1 = Ok false) as Hread.
  { intros x cs1 Hx. unfold chunkGet, Path, putUnlocked. rewrite decide_True by done. rewrite Hx.
    split; [done |]. intros. rewrite !decide_False by tauto. simpl. by rewrite Hx. }
  destruct (files cs !! pathOf h) as [x|] eqn:Hx.
  - injection Hp as [= <- <-]. edestruct (Hread x) as [H1 H2]; [| split; [| exact H2]]; [done |].
    exists x. split; [done |].
    split; [| done]. destruct (cs_file _ _ O _ _ Hx) as (h' & Hw & Hpath & Hbx & _).
    apply pathOf_inj in Hpath; [congruence | by rewrite <- Hh | done].
  - destruct cap; [by simplify_eq |]. destruct wr; simplify_eq; [| done | done].
    edestruct (Hread data) as [H1 H2]; [| split; [| exact H2]; eauto]. simpl. apply lookup_insert_eq.
Qed.

(** The batched presence query, with its shard hints, its grouping by shard
    and its collapsing of duplicates, answers exactly what one lookup per hash
    would, in the order of the request and whatever the order of the groups. *)
Theorem HasMany_is_presence hashes cs :
  cs_ok blake3 cs -> Forall wf_hash hashes ->
  HasMany order hashes cs = Ok ((fun h => is_ok (chunkGet h cs)) <$> hashes).
Proof using order_perm.
  intros O Hw. rewrite (HasMany_present blake3) by done. f_equal. apply list_fmap_ext. intros i h Hi.
  assert (wf_hash h) as [Hl _] by by eapply Forall_lookup_1.
  unfold on_disk, chunkGet, Path. rewrite decide_True by done.
  destruct (files cs !! pathOf h); [by rewrite bool_decide_true | by rewrite bool_decide_false by by intros []].
Qed.

(** The batched delete of distinct hashes removes exactly their files and
    reports for each whether it was there, whatever the order in which the
    workers process the shards. *)
Theorem DeleteMany_exact hashes cs :
  cs_ok blake3 cs -> Forall wf_hash hashes -> NoDup hashes ->
  exists cs', deleteManyUnlocked order hashes cs = Ok ((fun h => on_disk h cs) <$> hashes, cs') /\
    cs_ok blake3 cs' /\
    forall h, wf_hash h -> chunkGet h cs' = if decide (h ∈ hashes) then Err ErrNotExist else chunkGet h cs.
Proof using order_perm.
  intros O Hw ND. destruct (deleteManyUnlocked_spec order order_perm _ hashes blake3 cs eq_refl O Hw ND)
    as (cs' & E & Hf & Hd & Hk). exists cs'. split; [done |]. split; [by eapply deleteMany_ok |].
  intros h Hh. unfold chunkGet, Path. pose proof Hh as [Hl _]. rewrite decide_True by done. rewrite Hf.
  destruct (decide (h ∈ hashes)) as [Hin|Hin].
  - rewrite decide_True; [done |]. apply list_elem_of_fmap. eauto.
  - rewrite decide_False; [done |]. intros (h' & E' & Hh')%list_elem_of_fmap.
    rewrite Forall_forall in Hw. apply pathOf_inj in E' as ->; auto.
Qed.

(** ** The sweep *)

(** A sweep whose budget allows as many batches as there are collectable
    rows ends without an error and with nothing left to collect; it deletes
    only rows at reference count 0 added before the cutoff, unlinks exactly
    their files, and leaves the file system as it was. *)
Theorem sweep_exact budget cfg cutoff res d cs a :
  DryRun cfg = false -> 0 < BatchSize cfg -> rows_wf d -> cs_ok blake3 cs -> Inv d a ->
  (size (garbage_rows cutoff d) <= budget)%nat ->
  exists res' d' cs', sweepTenant order budget cfg cutoff res d cs = (Some res', d', cs') /\
    Inv d' a /\
    (forall h, chunks d' !! h =
       match chunks d !! h with
       | Some c => if collectable cutoff c then None else Some c
       | None => None
       end) /\
    (forall h, wf_hash h -> on_disk h cs' =
       on_disk h cs && match chunks d !! h with Some c => negb (collectable cutoff c) | None => true end).
Proof using order_perm.
  intros Hdry Hb Hw O I Hsz.
  destruct (sweepTenant_spec blake3 order order_perm budget cfg cutoff res d cs Hdry Hb Hw O)
    as (res' & d' & cs' & hs & E & D & U & O' & Hg & Hdone).
  assert (forall h, h ∈ hs <-> garbage cutoff d h) as Hiff.
  { intros h. split; [apply Hg |]. intros Hh. destruct (decide (h ∈ hs)) as [|Hn]; [done |].
    destruct (Hdone Hsz h). by apply (garbage_drops _ _ _ _ _ D). }
  exists res', d', cs'. split; [done |]. split; [eapply drops_Inv; [exact D | | done];
    intros h Hh; by eapply garbage_rc, Hg |].
  assert (forall h, match chunks d !! h with Some c => negb (collectable cutoff c) | None => true end =
                    negb (bool_decide (h ∈ hs))) as Hbool.
  { intros h. destruct (decide (h ∈ hs)) as [Hin|Hin].
    - rewrite bool_decide_true by done. apply Hiff in Hin as (c & -> & ->). done.
    - rewrite bool_decide_false by done. destruct (chunks d !! h) as [c|] eqn:Hc; [| done].
      destruct (collectable cutoff c) eqn:Hk; [| done]. destruct Hin. apply Hiff. by exists c. }
  split.
  - intros h. destruct D as [_ ->]. specialize (Hbool h). case_decide as Hin.
    + rewrite bool_decide_true in Hbool by done. destruct (chunks d !! h); [| done].
      by destruct (collectable cutoff c).
    + rewrite bool_decide_false in Hbool by done. destruct (chunks d !! h); [| done].
      by destruct (collectable cutoff c).
  - intros h Hh. rewrite Hbool. destruct U as (Uf & _ & _). apply on_disk_delete; try done.
    by apply (garbage_wf cutoff d).
Qed.
End claims.

(** ** The purge *)

Lemma nlink_filter d d' (keep : gostr -> bool) p r :
  manifests d' = filter (fun kr => keep kr.1 = true) (manifests d) ->
  manifests d !! p = Some r -> keep p = true ->
  (forall q, keep q = false -> sole d q) -> nlink (m_inode r) d' = nlink (m_inode r) d.
Proof.
  intros Hm Hp Hk Hs. unfold nlink, links. rewrite Hm. do 2 f_equal. apply map_eq. intros q.
  apply option_eq. intros s. rewrite !map_lookup_filter_Some. simpl. split; [tauto |].
  intros [Hq Hi]. destruct (keep q) eqn:Hkq; [done |].
  assert (p = q) as -> by (eapply (Hs q Hkq p); [exact Hq | exact Hp | done]). congruence.
Qed.

(** *** Which chunks a purge touches *)

(** The file at [p] uses the chunk [h]. *)
Definition uses (d : tdb) (h : hash) (p : gostr) : Prop :=
  exists mf, Get p d = Ok mf /\ h ∈ Hash <$> mf_Chunks mf.

Lemma applyDeltas_keep l d u d' h :
  applyDeltas l d = Ok (u, d') -> is_Some (chunks d !! h) -> is_Some (chunks d' !! h).
Proof.
  revert d. induction l as [|[k n] l IH]; intros d.
  - by intros [_ <-]%tx_ret_Ok.
  - destruct (decide (n = 0)) as [->|Hn].
    + change (applyDeltas ((k, 0) :: l) d) with (applyDeltas l d). apply IH.
    + rewrite applyDeltas_cons, applyDelta_step by done. destruct (0 <=? rc k d + n); [| done].
      intros Hl Hs. apply (IH _ Hl). simpl. apply lookup_insert_is_Some'. auto.
Qed.

Definition all_negative (delta : gmap hash Z) : Prop := map_Forall (fun _ n => n < 0) delta.

Lemma bump_negative cs delta :
  all_negative delta -> all_negative (foldl (fun m c => bump (-1) (Hash c) m) delta cs).
Proof.
  revert delta. induction cs as [|c cs IH]; intros delta Hd; [done |]. apply IH. unfold bump.
  intros h n [[_ <-]|[_ Hn]]%lookup_insert_Some; [| by eapply Hd].
  destruct (delta !! Hash c) as [m|] eqn:E; simpl; [| lia]. pose proof (Hd _ _ E). simpl in *. lia.
Qed.

Lemma doomedDelta_negative rows delta delta' :
  doomedDelta rows delta = Some delta' -> all_negative delta -> all_negative delta'.
Proof.
  revert delta. induction rows as [|r rows IH]; intros delta; simpl; [by intros [= ->] |].
  destruct (unpackChunks (m_chunks r)); [| done]. intros Hd Hn. by eapply IH, bump_negative.
Qed.

Lemma rows_occ_pos h l : 0 < rows_occ h l <-> exists p r, (p, r) ∈ l /\ 0 < row_occ h r.
Proof.
  induction l as [|[p r] l IH]; simpl; [split; [lia | by intros (? & ? & []%not_elem_of_nil & _)] |].
  pose proof (rows_occ_nonneg h l). assert (0 <= row_occ h r) by apply occ_nonneg.
  split.
  - intros Hp. destruct (decide (0 < row_occ h r)); [exists p, r; split; [left | done] |].
    destruct (proj1 IH) as (q & s & ? & ?); [lia |]. exists q, s. split; [by right | done].
  - intros (q & s & [[= -> ->]|Hin]%elem_of_cons & Hs); [lia |].
    assert (0 < rows_occ h l) by (apply IH; eauto). lia.
Qed.

(** The hashes a purge looks at again are those of the files it removes. *)
Lemma purgeTx_touched now ag d nm nj delta rev d' a h :
  Inv d a -> purgeTx now ag d = Ok ((nm, nj, delta, rev), d') ->
  is_Some (delta !! h) <-> exists p, in_subtree_sql (agent_prefix ag) p = true /\ uses d h p.
Proof.
  intros I. unfold purgeTx. intros H. tx_inv H. destruct (doomedDelta _ _) as [dl|] eqn:Hd; [| done].
  apply tx_ret_Ok in H0 as [-> ->]. injection H2 as [= <- <-].
  pose proof (doomedDelta_spec _ _ _ h Hd) as Hs. rewrite lookup_empty in Hs. simpl in Hs.
  assert (is_Some (delta !! h) <-> 0 < rows_occ h (map_to_list (doomed_manifests (agent_prefix ag) d))) as ->.
  { split; [| intros Hp; destruct (delta !! h); simpl in Hs; [eauto | lia]].
    intros [n Hn]. pose proof (doomedDelta_negative _ _ _ Hd (map_Forall_empty _) _ _ Hn). rewrite Hn in Hs.
    simpl in *. lia. }
  rewrite rows_occ_pos. split.
  - intros (p & r & [Hr Hp]%elem_of_doomed & Ho). exists p. split; [done |].
    destruct (inv_unpack _ a I p r Hr) as (x & _ & _ & Hu & _). unfold row_occ in Ho. rewrite Hu in Ho.
    unfold uses, Get. rewrite Hr, Hu. eexists. split; [done |]. by apply occ_pos.
  - intros (p & Hp & mf & Hg & Ho). unfold Get in Hg. destruct (manifests d !! p) as [r|] eqn:Hr; [| done].
    destruct (unpackChunks (m_chunks r)) as [cs|] eqn:Hu; [| done]. injection Hg as [= <-].
    exists p, r. rewrite elem_of_doomed. split; [done |]. unfold row_occ. rewrite Hu. by apply occ_pos.
Qed.

(** The rest of what a committed purge leaves: the journal without the agent's
    rows, and every chunk row. *)
Lemma purgeTx_rest now ag d x d' :
  purgeTx now ag d = Ok (x, d') ->
  session_journal d' = filter (fun j => in_subtree_sql (agent_prefix ag) (j_path j) = false) (session_journal d) /\
  forall h, is_Some (chunks d !! h) -> is_Some (chunks d' !! h).
Proof.
  unfold purgeTx. intros H. tx_inv H. destruct (doomedDelta _ _) as [dl|] eqn:Hd; [| done].
  apply tx_ret_Ok in H0 as [-> ->]. injection H2 as [= <- <-]. split.
  - apply applyChunkRefDelta_Ok in H1 as [E _]. simpl. by rewrite E.
  - intros h Hs. simpl. by eapply applyDeltas_keep.
Qed.

(** The touched rows at count 0 all go. *)
Lemma deletePurged_all hs d del d' h :
  NoDup hs -> deletePurgedChunkRows hs d = Some (del, d') ->
  h ∈ hs -> rc h d = 0 -> is_Some (chunks d !! h) -> h ∈ pc_hash <$> del.
Proof.
  intros ND. revert d del d'. induction ND as [|k hs Hk ND IH]; intros d del d'; simpl.
  { by intros _ []%not_elem_of_nil. }
  intros E Hin Hr Hs. apply elem_of_cons in Hin as [<-|Hin].
  - destruct Hs as [c Hc]. rewrite Hc in E. unfold rc in Hr. rewrite Hc in Hr. rewrite Hr in E. simpl in E.
    destruct (ch_size c <? 0); [done |]. destruct (deletePurgedChunkRows hs _) as [[del1 d1]|]; [| done].
    injection E as [= <- _]. left.
  - assert (k <> h) as Hne by by intros ->.
    destruct (chunks d !! k) as [c|]; [| by eapply IH]. destruct (ch_refcount c =? 0); [| by eapply IH].
    destruct (ch_size c <? 0); [done |]. destruct (deletePurgedChunkRows hs _) as [[del1 d1]|] eqn:E1; [| done].
    injection E as [= <- _]. right. eapply (IH _ _ _ E1 Hin); unfold rc; simpl; by rewrite lookup_delete_ne.
Qed.

(** What the files read as, without the purged ones. *)
Lemma purged_Get ag d d' p :
  manifests d' = filter (fun kr => in_subtree_sql (agent_prefix ag) kr.1 = false) (manifests d) ->
  (forall q, in_subtree_sql (agent_prefix ag) q = true -> sole d q) ->
  Get p d' = if in_subtree_sql (agent_prefix ag) p then Err ErrManifestNotFound else Get p d.
Proof.
  intros Hm Hs. unfold Get. rewrite Hm. destruct (in_subtree_sql (agent_prefix ag) p) eqn:Hin.
  - rewrite (proj2 (map_lookup_filter_None _ _ _)); [done |]. right. intros x _. simpl. congruence.
  - destruct (manifests d !! p) as [x|] eqn:Hx; [| by rewrite (proj2 (map_lookup_filter_None _ _ _)) by by left].
    rewrite (proj2 (map_lookup_filter_Some _ _ _ _)) by done.
    rewrite (nlink_filter d d' (fun q => negb (in_subtree_sql (agent_prefix ag) q)) p x); [done | | done | |].
    + rewrite Hm. apply map_filter_ext. intros q y _. by rewrite negb_true_iff.
    + by rewrite negb_true_iff.
    + intros q Hq%negb_false_iff. by apply Hs.
Qed.

(** The chunk rows a purge deletes: of the chunks of its files that no file left uses. *)
Lemma purged_rows now ag d a nm nj delta rev d1 del d2 h :
  Inv d a -> (forall q, in_subtree_sql (agent_prefix ag) q = true -> sole d q) ->
  purgeTx now ag d = Ok ((nm, nj, delta, rev), d1) ->
  deletePurgedChunkRows (map_to_list delta).*1 d1 = Some (del, d2) ->
  h ∈ pc_hash <$> del <->
  (exists p, in_subtree_sql (agent_prefix ag) p = true /\ uses d h p) /\
  ~ (exists p, in_subtree_sql (agent_prefix ag) p = false /\ uses d h p).
Proof.
  intros I Hs E1 E2. destruct (purgeTx_Inv now ag d _ d1 a I Hs E1) as [a1 I1].
  rewrite <- (purgeTx_touched now ag d nm nj delta rev d1 a h I E1).
  assert (rc h d1 = 0 <-> ~ exists p, in_subtree_sql (agent_prefix ag) p = false /\ uses d h p) as Hz.
  { pose proof (rc_used d1 a1 h I1) as Hu. pose proof (refs_nonneg h (inodes a1)) as Hnn.
    rewrite <- (inv_rc d1 a1 I1 h) in Hnn.
    apply purgeTx_Ok in E1 as (Hm & _).
    transitivity (~ exists p mf, Get p d1 = Ok mf /\ h ∈ Hash <$> mf_Chunks mf); [rewrite <- Hu; lia |].
    apply not_iff_compat. split.
    - intros (p & mf & Hg & Hh). rewrite (purged_Get ag d d1 p Hm Hs) in Hg.
      destruct (in_subtree_sql (agent_prefix ag) p) eqn:Hp; [done |]. exists p. split; [done |]. by exists mf.
    - intros (p & Hp & mf & Hg & Hh). exists p, mf. by rewrite (purged_Get ag d d1 p Hm Hs), Hp. }
  rewrite <- Hz. pose proof (NoDup_fst_map_to_list delta) as ND.
  destruct (deletePurged_spec _ d1 del d2 ND E2) as (_ & _ & Hdel).
  assert (h ∈ (map_to_list delta).*1 <-> is_Some (delta !! h)) as Hk.
  { rewrite list_elem_of_fmap. split.
    - intros ([k n] & -> & Hn%elem_of_map_to_list). by exists n.
    - intros [n Hn]. exists (h, n). by rewrite elem_of_map_to_list. }
  split; [intros (Hin & Hr & _)%Hdel; by rewrite <- Hk |]. intros [Hin Hr].
  eapply deletePurged_all; [exact ND | exact E2 | by rewrite Hk | done |].
  apply (proj2 (purgeTx_rest now ag d _ d1 E1)).
  apply (purgeTx_touched now ag d nm nj delta rev d1 a h I E1) in Hin as (p & _ & mf & Hg & Hh).
  pose proof (Get_referenced d a p mf h I Hg Hh) as Hp. unfold rc in Hp. destruct (chunks d !! h); [eauto | lia].
Qed.


(** ** Concrete runs *)

Definition put_file (p : gostr) (d : tdb) : tdb :=
  db_of (run_tx (putTx (MP := flat_msgpack) 7 p 0 (mf3 p) [] [] [])) d.
Definition mkdir (p : gostr) (d : tdb) : tdb := db_of (DirCreate p 0) d.
Definition hardlink (p q : gostr) (d : tdb) : tdb := db_of (Link (MP := flat_msgpack) 8 p q [] [] []) d.

Definition cs0 : chunkStore := NewChunkStore ∅ ∅.
Definition cs3 : chunkStore := (putUnlocked toy_hash None WriteDone hash3 data3 cs0).2.

(** [/bob/f] and a directory [/Bob]. *)
Definition db_bob : tdb := put_file (str "/bob/f") (mkdir (str "/bob") (mkdir (str "/Bob") emptyDB)).
(** [/A/f] with a second name in [/A]. *)
Definition db_link_in : tdb :=
  hardlink (str "/A/f") (str "/A/g") (put_file (str "/A/f") (mkdir (str "/A") emptyDB)).
(** [/A/f] with a second name in [/B]. *)
Definition db_link_out : tdb :=
  hardlink (str "/A/f") (str "/B/g") (put_file (str "/A/f") (mkdir (str "/B") (mkdir (str "/A") emptyDB))).
Definition db_fifo : tdb := db_of (Mknod (str "/A/p") 4516 0) (mkdir (str "/A") emptyDB).

Definition purge_of (ag : gostr) (d : tdb) := purgeAgentData id 9 ag d cs3.

(** The prefix of a purge is matched without regard to case: purging agent
    [Bob] also erases the file of agent [bob]. *)
Theorem purge_erases_other_case :
  is_ok (Get (str "/bob/f") db_bob) = true /\ is_ok (purge_of (str "Bob") db_bob).1.1 = true /\
  Get (str "/bob/f") (purge_of (str "Bob") db_bob).1.2 = Err ErrManifestNotFound.
Proof. vm_compute. auto. Qed.

(** The purge drops the references of an inode once per name.  Two names
    below the agent make every purge of it fail on the count's constraint; a
    second name elsewhere survives, but its chunk is unlinked. *)
Theorem purge_counts_names :
  (purge_of (str "A") db_link_in).1.1 = Err ErrConstraint /\
  is_ok (purge_of (str "A") db_link_out).1.1 = true /\
  (mf_Chunks <$> (match Get (str "/B/g") (purge_of (str "A") db_link_out).1.2 with
                  | Ok mf => Some mf | Err _ => None end)) = Some [mkChunkRef hash3 0 3] /\
  chunkGet hash3 (purge_of (str "A") db_link_out).2 = Err ErrNotExist.
Proof. vm_compute. auto. Qed.

(** The purge leaves the agent's special nodes in place, although it records
    their deletion in the change feed. *)
Theorem purge_keeps_special_nodes :
  let d' := (purge_of (str "A") db_fifo).1.2 in
  is_ok (purge_of (str "A") db_fifo).1.1 = true /\
  bool_decide (is_Some (SpecialNodeInfo (str "/A/p") d')) = true /\
  bool_decide (is_Some (change_tombstones d' !! str "/A/p")) = true.
Proof. vm_compute. auto. Qed.

(** A chunk uploaded at second 50, used by [/a] and deleted at second 1000. *)
Definition db_deleted : tdb :=
  db_of (Delete (MP := flat_msgpack) 1000000 (str "/a") 1 [] [] [])
    (put_file (str "/a") (match NoteChunkStored hash3 3 50 emptyDB with Ok (_, d) => d | Err _ => emptyDB end)).

(** The retention window runs from the upload of a chunk, not from the loss
    of its last reference: a sweep at second 1001 with a window of 100 seconds
    collects a chunk that was in use until second 1000. *)
Theorem gc_no_grace :
  let '(r, d', cs') := sweepTenant id 10 (mkGcConfig 100 false) (1001 - 100) (mkSweep 0 0) db_deleted cs3 in
  r = Some (mkSweep 1 3) /\ chunkGet hash3 cs' = Err ErrNotExist /\ is_ok (chunkGet hash3 cs3) = true.
Proof. vm_compute. auto. Qed.

(** ** Witnesses *)

Lemma cs0_ok : cs_ok toy_hash cs0.
Proof. split. intros k x H. done. Qed.

Lemma cs3_ok : cs_ok toy_hash cs3.
Proof. apply putUnlocked_ok; [exact toy_hash_wf | exact cs0_ok]. Qed.

Lemma hash3_wf : wf_hash hash3.
Proof. exact (toy_hash_wf data3). Qed.

Lemma chunk_put_get_witness :
  exists data', chunkGet hash3 cs3 = Ok data' /\ toy_hash data' = hash3 /\ (true = true -> data' = data3).
Proof.
  refine (proj1 (chunk_put_get toy_hash None WriteDone hash3 data3 cs0 (Ok true) cs3 cs0_ok toy_hash_wf _)).
  apply injective_projections; [vm_compute; reflexivity | reflexivity].
Defined.

Lemma HasMany_is_presence_witness :
  HasMany id [hash3; hash3] cs3 = Ok ((fun h => is_ok (chunkGet h cs3)) <$> [hash3; hash3]).
Proof.
  apply (HasMany_is_presence toy_hash id order_id [hash3; hash3] cs3 cs3_ok).
  apply Forall_cons. split; [exact hash3_wf |]. apply Forall_singleton. exact hash3_wf.
Defined.

Lemma DeleteMany_exact_witness :
  exists cs', deleteManyUnlocked id [hash3] cs3 = Ok ((fun h => on_disk h cs3) <$> [hash3], cs') /\
    cs_ok toy_hash cs' /\
    forall h, wf_hash h -> chunkGet h cs' = if decide (h ∈ [hash3]) then Err ErrNotExist else chunkGet h cs3.
Proof.
  apply (DeleteMany_exact toy_hash id order_id [hash3] cs3 cs3_ok).
  - apply Forall_singleton. exact hash3_wf.
  - apply NoDup_singleton.
Defined.

(** One unreferenced chunk, added at second 50. *)
Definition db_noted : tdb := match NoteChunkStored hash3 3 50 emptyDB with Ok (_, d) => d | Err _ => emptyDB end.

Lemma db_noted_Inv : Inv db_noted empty_afs.
Proof. apply (NoteChunkStored_refines hash3 3 50 emptyDB empty_afs tt); [exact Inv_empty | reflexivity]. Qed.

Lemma db_noted_wf : rows_wf db_noted.
Proof.
  intros h [c Hc]. change (chunks db_noted) with (<[hash3 := mkChrow 3 0 50]> (∅ : gmap hash chrow)) in Hc.
  apply lookup_insert_Some in Hc as [[<- _]|[_ Hc]]; [exact hash3_wf | done].
Qed.

Lemma sweep_exact_witness :
  exists res' d' cs', sweepTenant id 1 (mkGcConfig 10 false) 100 (mkSweep 0 0) db_noted cs3 = (Some res', d', cs') /\
    Inv d' empty_afs.
Proof.
  destruct (sweep_exact toy_hash id order_id 1 (mkGcConfig 10 false) 100 (mkSweep 0 0) db_noted cs3 empty_afs
    eq_refl eq_refl db_noted_wf cs3_ok db_noted_Inv) as (res' & d' & cs' & H1 & H2 & _).
  - apply Nat.leb_le. vm_compute. reflexivity.
  - exists res', d', cs'. exact (conj H1 H2).
Defined.

(** [/A/f] alone. *)
Definition db_A : tdb := put_file (str "/A/f") (mkdir (str "/A") emptyDB).

Lemma mf3_wf p : Forall wf_ref (mf_Chunks (mf3 p)).
Proof. apply Forall_singleton. split; [exact hash3_wf | simpl; lia]. Qed.

Lemma db_A_Inv : exists a, Inv db_A a.
Proof.
  unfold db_A, put_file, mkdir, db_of.
  destruct (run_keeps_Inv _ (mkStore emptyDB None None None) empty_afs (keeps_DirCreate (str "/A") 0) Inv_empty)
    as [a1 I1].
  eapply (run_tx_Inv _ (mkStore _ None None None)); [exact I1 |]. intros x e rev d H.
  eapply putTx_refines in H as [_ (a' & _ & I')]; eauto using mf3_wf.
Qed.

Lemma db_A_rows : rows_wf db_A.
Proof.
  eapply (rows_wf_grows (mf_Chunks (mf3 (str "/A/f"))) (mkdir (str "/A") emptyDB)); [apply mf3_wf | |].
  - apply run_tx_grows, grows_put.
  - eapply (rows_wf_grows [] emptyDB); [constructor | apply run_tx_grows, grows_keeps, keeps_DirCreate |].
    by intros h [].
Qed.

Lemma key_listed `{Countable K} {A} (m : gmap K A) k x : m !! k = Some x -> k ∈ (map_to_list m).*1.
Proof. intros Hk. apply list_elem_of_fmap. exists (k, x). by rewrite elem_of_map_to_list. Qed.

Lemma db_A_manifests p r : manifests db_A !! p = Some r -> p = str "/A/f".
Proof.
  intros H. assert ((map_to_list (manifests db_A)).*1 = [str "/A/f"]) as E by (vm_compute; reflexivity).
  pose proof (key_listed (manifests db_A) p r H) as Hp.
  rewrite E in Hp. exact (proj1 (list_elem_of_singleton _ _) Hp).
Qed.

