(* ===== verification/Track.v ===== *)
(** * The change feed follows every mutation

    Which rows of the feed a transaction may leave as they were: a path whose
    rows are not the same afterwards has a row, live or tombstone, with a
    revision above the counter before the transaction. *)

From S2P Require Import Prelude GoPath Codec TenantDB Journal Manifests FileSpec Refine Changes.

(** ** Rows with a new revision *)

Definition stamped (c : Z) (d : tdb) (q : gostr) : Prop :=
  exists r, r ∈ feed_rows d /\ f_path r = q /\ c < f_rev r.

(** The rows of [q] in the four live tables, and its link count. *)
Definition same_tables (d d' : tdb) (q : gostr) : Prop :=
  manifests d' !! q = manifests d !! q /\
  (forall r, manifests d !! q = Some r -> nlink (m_inode r) d' = nlink (m_inode r) d) /\
  symlinks d' !! q = symlinks d !! q /\ special_nodes d' !! q = special_nodes d !! q /\
  (forall k, full_path k = q -> dir_entries d' !! k = dir_entries d !! k).

(** A tombstone stays, or pruning took it and moved the watermark past it. *)
Definition keeps_tombstone (d d' : tdb) (q : gostr) : Prop :=
  forall t, change_tombstones d !! q = Some t ->
    change_tombstones d' !! q = Some t \/ ts_rev t < pruned_before_rev d'.

Record tracks (d d' : tdb) : Prop := {
  tr_rev : last_rev d <= last_rev d';
  tr_pruned : pruned_before_rev d <= pruned_before_rev d';
  tr_path : forall q, stamped (last_rev d) d' q \/ (same_tables d d' q /\ keeps_tombstone d d' q) }.

(** ** Stamped rows, table by table *)

Lemma stamped_file c d q x : manifests d !! q = Some x -> c < m_rev x -> stamped c d q.
Proof. intros H Hc. exists (file_row d q x). split; [| done]. apply elem_of_feed_rows. eauto 12. Qed.

Lemma stamped_symlink c d q x : symlinks d !! q = Some x -> c < sl_rev x -> stamped c d q.
Proof. intros H Hc. exists (symlink_row q x). split; [| done]. apply elem_of_feed_rows. eauto 12. Qed.

Lemma stamped_special c d q x : special_nodes d !! q = Some x -> c < sn_rev x -> stamped c d q.
Proof. intros H Hc. exists (special_row q x). split; [| done]. apply elem_of_feed_rows. eauto 12. Qed.

Lemma stamped_tombstone c d q x : change_tombstones d !! q = Some x -> c < ts_rev x -> stamped c d q.
Proof. intros H Hc. exists (tombstone_row q x). split; [| done]. apply elem_of_feed_rows. eauto 12. Qed.

Lemma stamped_dir c d k x :
  dir_entries d !! k = Some x -> shown_dir d k = true -> c < de_rev x -> stamped c d (full_path k).
Proof. intros H Hs Hc. exists (dir_row k x). split; [| done]. apply elem_of_feed_rows. eauto 12. Qed.

(** ** Equal tables give equal rows *)

Lemma same_tables_shown d d' k : same_tables d d' (full_path k) -> shown_dir d' k = shown_dir d k.
Proof. intros (Hm & _ & Hs & Hn & _). unfold shown_dir. by rewrite Hm, Hs, Hn. Qed.

Definition is_tombstone (r : feedRow) : Prop := f_kind r = "tombstone"%string.

Lemma same_tables_rows d d' q r :
  same_tables d d' q -> f_path r = q -> ~ is_tombstone r -> r ∈ feed_rows d' <-> r ∈ feed_rows d.
Proof.
  intros S Hq Ht. pose proof S as (Hm & Hl & Hs & Hn & Hd). rewrite !elem_of_feed_rows.
  assert (forall p x, manifests d !! p = Some x -> p = q -> file_row d' p x = file_row d p x) as Hf.
  { intros p x Hp ->. unfold file_row. by rewrite (Hl x Hp). }
  split.
  - intros [(p & x & H & ->)|[(p & x & H & ->)|[(p & x & H & ->)|[(k & x & H & Hk & ->)|(p & x & H & ->)]]]];
      simpl in Hq; subst.
    + left. rewrite Hm in H. exists q, x. by rewrite Hf.
    + right. left. rewrite Hs in H. eauto.
    + do 2 right. left. rewrite Hn in H. eauto.
    + do 3 right. left. rewrite (Hd k eq_refl) in H. rewrite (same_tables_shown d d' k S) in Hk. eauto.
    + by destruct Ht.
  - intros [(p & x & H & ->)|[(p & x & H & ->)|[(p & x & H & ->)|[(k & x & H & Hk & ->)|(p & x & H & ->)]]]];
      simpl in Hq; subst.
    + left. rewrite <- Hm in H. exists q, x. rewrite Hm in H. by rewrite Hm, Hf.
    + right. left. rewrite <- Hs in H. eauto.
    + do 2 right. left. rewrite <- Hn in H. eauto.
    + do 3 right. left. rewrite <- (Hd k eq_refl) in H. rewrite <- (same_tables_shown d d' k S) in Hk. eauto.
    + by destruct Ht.
Qed.

(** ** Composition *)

Lemma same_tables_refl d q : same_tables d d q.
Proof. by repeat split. Qed.

Lemma same_tables_trans d d1 d2 q : same_tables d d1 q -> same_tables d1 d2 q -> same_tables d d2 q.
Proof.
  intros (M1 & L1 & S1 & N1 & D1) (M2 & L2 & S2 & N2 & D2). repeat split; try congruence.
  - intros r Hr. rewrite L2 by congruence. by apply L1.
  - intros k Hk. by rewrite D2, D1.
Qed.

Lemma tracks_refl d : tracks d d.
Proof. split; [lia | lia |]. intros q. right. split; [apply same_tables_refl |]. intros t Ht. auto. Qed.

Lemma stamped_mono c c' d q : c <= c' -> stamped c' d q -> stamped c d q.
Proof. intros Hc (r & ? & ? & ?). exists r. repeat split; try done. lia. Qed.

(** A stamped row stays stamped above a cursor that pruning has not passed. *)
Lemma stamped_tracks c d d' q :
  tracks d d' -> c <= last_rev d -> pruned_before_rev d' <= c -> stamped c d q -> stamped c d' q.
Proof.
  intros T Hc Hp (r & Hr & Hq & Hrev). destruct (tr_path _ _ T q) as [Hs|[Hs Ht]].
  - by eapply stamped_mono.
  - destruct (decide (is_tombstone r)) as [Hk|Hk]; [| exists r; split; [by apply (same_tables_rows d d' q) | done]].
    apply elem_of_feed_rows in Hr as [(p & x & _ & ->)|[(p & x & _ & ->)|[(p & x & _ & ->)|
      [(k & x & _ & _ & ->)|(p & x & H & ->)]]]]; try done. simpl in Hq, Hrev. subst p.
    destruct (Ht x H) as [Hx|Hx]; [by eapply stamped_tombstone | lia].
Qed.

Lemma rtc_tracks (R : tdb -> tdb -> Prop) d d' :
  (forall x y, R x y -> tracks x y) -> rtc R d d' ->
  last_rev d <= last_rev d' /\ pruned_before_rev d <= pruned_before_rev d' /\
  (pruned_before_rev d' <= last_rev d -> forall q, stamped (last_rev d) d' q \/ same_tables d d' q).
Proof.
  intros HR. revert d'. apply rtc_ind_r.
  - split; [lia |]. split; [lia |]. intros _ q. right. apply same_tables_refl.
  - intros y z _ Hyz%HR (Hr & Hp & Hq). pose proof (tr_rev _ _ Hyz). pose proof (tr_pruned _ _ Hyz).
    split; [lia |]. split; [lia |]. intros Hb q. destruct Hq with q as [Hs|Hs]; [lia | |].
    + left. by eapply stamped_tracks.
    + destruct (tr_path _ _ Hyz q) as [Hst|[Hst _]].
      * left. by eapply stamped_mono.
      * right. by eapply same_tables_trans.
Qed.

(** ** Steps the feed does not see *)

Definition fcore (d : tdb) :=
  (manifests d, symlinks d, special_nodes d, dir_entries d, change_tombstones d,
   (last_rev d, pruned_before_rev d)).

Definition fkeeps {A} (t : tx A) : Prop := forall d x d', t d = Ok (x, d') -> fcore d' = fcore d.

Lemma fkeeps_bind {A B} (m : tx A) (k : A -> tx B) :
  fkeeps m -> (forall x, fkeeps (k x)) -> fkeeps (m ≫= k).
Proof.
  intros Hm Hk d y d' H. apply tx_bind_Ok in H as (x & d1 & H1 & H2).
  apply Hm in H1. apply Hk in H2. congruence.
Qed.

Lemma fkeeps_ret {A} (x : A) : fkeeps (mret x : tx A).
Proof. by intros d y d' [_ <-]%tx_ret_Ok. Qed.
Lemma fkeeps_query {A} (f : tdb -> A) : fkeeps (query f).
Proof. by intros d y d' [= _ <-]. Qed.
Lemma fkeeps_throw {A} e : fkeeps (throw e : tx A).
Proof. by intros d y d' H. Qed.
Lemma fkeeps_require b e : fkeeps (require b e).
Proof. by intros d y d' [_ <-]%require_Ok. Qed.
Lemma fkeeps_modify f : (forall d, fcore (f d) = fcore d) -> fkeeps (modify f).
Proof. intros Hf d y d' [= _ <-]. apply Hf. Qed.
Lemma fkeeps_delta delta : fkeeps (applyChunkRefDelta delta).
Proof. intros d y d' [-> _]%applyChunkRefDelta_Ok. done. Qed.

Create HintDb fkeeps.
#[export] Hint Resolve fkeeps_ret fkeeps_query fkeeps_throw fkeeps_require fkeeps_delta : fkeeps.

Ltac fkeeps_tac :=
  repeat first
    [ progress eauto 1 with fkeeps
    | apply fkeeps_bind; [| intros ?]
    | apply fkeeps_modify; intros ?; by repeat case_match
    | match goal with
      | |- fkeeps (match ?x with _ => _ end) => destruct x
      | |- fkeeps (if ?x then _ else _) => destruct x
      end ].

Lemma fkeeps_allocInode : fkeeps allocInode.
Proof. unfold allocInode. fkeeps_tac. Qed.
Lemma fkeeps_checkParentExists p : fkeeps (checkParentExists p).
Proof. unfold checkParentExists. fkeeps_tac. Qed.
#[export] Hint Resolve fkeeps_allocInode fkeeps_checkParentExists : fkeeps.

Section fkeeps_journal.
Context {MP : MsgPack}.

Lemma fkeeps_appendJournal now sid al ag op p bv av bm rf :
  fkeeps (appendJournal now sid al ag op p bv av bm rf).
Proof. unfold appendJournal. fkeeps_tac. Qed.

Lemma fkeeps_journalBeforeWrite now sid al ag op p prior av rf :
  fkeeps (journalBeforeWrite now sid al ag op p prior av rf).
Proof.
  unfold journalBeforeWrite. apply fkeeps_bind; [apply fkeeps_appendJournal |]. intros _. fkeeps_tac.
Qed.

Lemma fkeeps_journalPut now p v nv old cs sid al ag :
  fkeeps (journalPutTx now p v nv old cs sid al ag).
Proof.
  unfold journalPutTx. case_decide; [apply fkeeps_ret |]. destruct (if v =? 0 then _ else _) as [op prior].
  apply fkeeps_bind; [apply fkeeps_journalBeforeWrite |]. intros. apply fkeeps_ret.
Qed.

Lemma fkeeps_journalCreate now p v sid al ag : fkeeps (journalCreateTx now p v sid al ag).
Proof.
  unfold journalCreateTx. case_decide; [apply fkeeps_ret |].
  apply fkeeps_bind; [apply fkeeps_journalBeforeWrite |]. intros. apply fkeeps_ret.
Qed.

Lemma fkeeps_journalDelete now p r n cs sid al ag : fkeeps (journalDeleteTx now p r n cs sid al ag).
Proof.
  unfold journalDeleteTx. case_decide; [apply fkeeps_ret |].
  apply fkeeps_bind; [destruct (n >? 1); fkeeps_tac |]. intros q.
  apply fkeeps_bind; [apply fkeeps_journalBeforeWrite |]. intros. apply fkeeps_ret.
Qed.

Lemma fkeeps_journalRename now from to k v src sid al ag :
  fkeeps (journalRenameTx now from to k v src sid al ag).
Proof.
  unfold journalRenameTx. destruct src as [r|]; [| apply fkeeps_ret].
  case_decide; [apply fkeeps_ret |]. destruct (unpackChunks _); [| apply fkeeps_throw].
  apply fkeeps_bind; [apply fkeeps_journalBeforeWrite |]. intros. apply fkeeps_ret.
Qed.
End fkeeps_journal.
#[export] Hint Resolve fkeeps_journalPut fkeeps_journalCreate fkeeps_journalDelete
  fkeeps_journalRename : fkeeps.

Lemma fkeeps_fcore {A} (t : tx A) d x d' : fkeeps t -> t d = Ok (x, d') -> fcore d' = fcore d.
Proof. intros Hk. apply Hk. Qed.

(** [fcore_of H] keeps of a step only that the feed does not see it. *)
Ltac fcore_of H :=
  apply fkeeps_fcore in H; [| solve [eauto 2 with fkeeps | fkeeps_tac]].

(** ** Link counts *)

Lemma nlink_ext i d d' :
  (forall q, m_inode <$> manifests d' !! q = Some i <-> m_inode <$> manifests d !! q = Some i) ->
  nlink i d' = nlink i d.
Proof.
  intros H. unfold nlink. rewrite <- !(size_dom (D := gset gostr)). do 2 f_equal. apply set_eq. intros q.
  assert (forall e, q ∈ dom (links i e) <-> m_inode <$> manifests e !! q = Some i) as Hd.
  { intros e. rewrite elem_of_dom. unfold links. split.
    - intros [r [Hr Hi]%map_lookup_filter_Some]. rewrite Hr. simpl in *. congruence.
    - intros (r & Hr & ->)%fmap_Some. exists r. by apply map_lookup_filter_Some. }
  by rewrite !Hd.
Qed.

Lemma nlink_same i d d' : (forall q, manifests d' !! q = manifests d !! q) -> nlink i d' = nlink i d.
Proof. intros H. apply nlink_ext. intros q. by rewrite H. Qed.

Lemma update_inode_lookup i f d q :
  manifests (update_inode i f d) !! q =
  (fun r => if decide (m_inode r = i) then f r else r) <$> manifests d !! q.
Proof. simpl. by rewrite lookup_fmap. Qed.

Lemma fcore_inv d d' :
  fcore d' = fcore d -> manifests d' = manifests d /\ symlinks d' = symlinks d /\
  special_nodes d' = special_nodes d /\ dir_entries d' = dir_entries d /\
  change_tombstones d' = change_tombstones d /\ last_rev d' = last_rev d /\
  pruned_before_rev d' = pruned_before_rev d.
Proof. by intros [= -> -> -> -> -> -> ->]. Qed.

Lemma nlink_manifests i d d' : manifests d' = manifests d -> nlink i d' = nlink i d.
Proof. intros H. apply nlink_same. intros q. by rewrite H. Qed.

Lemma feed_rows_fcore d d' : fcore d' = fcore d -> feed_rows d' = feed_rows d.
Proof.
  intros (Hm & Hs & Hn & Hd & Ht & _ & _)%fcore_inv. unfold feed_rows. rewrite Hm, Hs, Hn, Hd, Ht.
  f_equal; [| f_equal; f_equal; f_equal; f_equal].
  - apply list_fmap_ext. intros i x _. unfold file_row. by rewrite (nlink_manifests _ d d').
  - apply list_filter_iff. intros x. unfold shown_dir. by rewrite Hm, Hs, Hn.
Qed.

Lemma tracks_fcore d d' e e' :
  fcore e = fcore d -> fcore e' = fcore d' -> tracks e e' -> tracks d d'.
Proof.
  intros E E' T. pose proof (fcore_inv _ _ E) as (Hm & Hs & Hn & Hd & Ht & Hr & Hp).
  pose proof (fcore_inv _ _ E') as (Hm' & Hs' & Hn' & Hd' & Ht' & Hr' & Hp').
  split; [rewrite <- Hr, <- Hr'; apply T | rewrite <- Hp, <- Hp'; apply T |].
  intros q. destruct (tr_path _ _ T q) as [(r & Hin & Hq & Hc)|[(M & L & S & N & D) K]].
  - left. exists r. rewrite <- (feed_rows_fcore d' e') by done. rewrite <- Hr. done.
  - right. split.
    + unfold same_tables. rewrite <- Hm, <- Hm', <- Hs, <- Hs', <- Hn, <- Hn', <- Hd, <- Hd'.
      repeat split; try done. intros r H. rewrite <- (nlink_manifests _ d e), <- (nlink_manifests _ d' e') by done.
      by apply L.
    + unfold keeps_tombstone. by rewrite <- Ht, <- Ht', <- Hp'.
Qed.

(** ** Steps that change only the paths of [P] *)

Record only (P : gostr -> bool) (d d' : tdb) : Prop := {
  on_rev : last_rev d <= last_rev d';
  on_pruned : pruned_before_rev d' = pruned_before_rev d;
  on_path : forall q, P q = false ->
    same_tables d d' q /\ change_tombstones d' !! q = change_tombstones d !! q }.

Lemma only_trans P d d1 d2 : only P d d1 -> only P d1 d2 -> only P d d2.
Proof.
  intros [R1 W1 H1] [R2 W2 H2]. split; [lia | congruence |]. intros q Hq.
  destruct (H1 q Hq) as [S1 T1], (H2 q Hq) as [S2 T2]. split; [by eapply same_tables_trans | congruence].
Qed.

(** If every path of [P] ends with a new revision, the feed follows. *)
Lemma only_tracks P d d' :
  only P d d' -> (forall q, P q = true -> stamped (last_rev d) d' q) -> tracks d d'.
Proof.
  intros [R W H] Hs. split; [done | lia |]. intros q. destruct (P q) eqn:Hq; [auto |]. right.
  destruct (H q Hq) as [S T]. split; [done |]. intros t. rewrite T. auto.
Qed.

Lemma only_same P d d' :
  manifests d' = manifests d -> last_rev d <= last_rev d' -> pruned_before_rev d' = pruned_before_rev d ->
  (forall q, P q = false -> symlinks d' !! q = symlinks d !! q /\ special_nodes d' !! q = special_nodes d !! q /\
     change_tombstones d' !! q = change_tombstones d !! q /\
     forall k, full_path k = q -> dir_entries d' !! k = dir_entries d !! k) -> only P d d'.
Proof.
  intros Hm Hr Hp H. split; [done | done |]. intros q Hq. destruct (H q Hq) as (? & ? & ? & ?).
  split; [| done]. repeat split; try done; [by rewrite Hm |]. intros r _. by apply nlink_manifests.
Qed.

Lemma only_fcore P d d' : fcore d' = fcore d -> only P d d'.
Proof.
  intros (Hm & Hs & Hn & Hd & Ht & Hr & Hp)%fcore_inv. apply only_same; [done | lia | done |].
  intros q _. by rewrite Hs, Hn, Hd, Ht.
Qed.

Lemma only_alloc P d : only P d (set_last_rev (last_rev d + 1) d).
Proof. apply only_same; simpl; [done | lia | done | done]. Qed.

Lemma only_entries P d m :
  (forall k, P (full_path k) = false -> m !! k = dir_entries d !! k) -> only P d (set_dir_entries m d).
Proof.
  intros H. apply only_same; simpl; [done | lia | done |]. intros q Hq. repeat split.
  intros k <-. by apply H.
Qed.

Lemma only_tombstones P d m :
  (forall q, P q = false -> m !! q = change_tombstones d !! q) -> only P d (set_change_tombstones m d).
Proof. intros H. apply only_same; simpl; [done | lia | done |]. intros q Hq. repeat split. by apply H. Qed.

Lemma only_symlinks P d m :
  (forall q, P q = false -> m !! q = symlinks d !! q) -> only P d (set_symlinks m d).
Proof. intros H. apply only_same; simpl; [done | lia | done |]. intros q Hq. repeat split. by apply H. Qed.

Lemma only_special P d m :
  (forall q, P q = false -> m !! q = special_nodes d !! q) -> only P d (set_special_nodes m d).
Proof. intros H. apply only_same; simpl; [done | lia | done |]. intros q Hq. repeat split. by apply H. Qed.

(** The rows of [m] differ in [P], and so do the names of their inodes. *)
Lemma only_manifests P d m :
  (forall q, P q = false -> m !! q = manifests d !! q) ->
  (forall p x q r, m !! p = Some x \/ manifests d !! p = Some x ->
     m_inode <$> m !! p <> m_inode <$> manifests d !! p ->
     manifests d !! q = Some r -> m_inode r = m_inode x -> P q = true) ->
  only P d (set_manifests m d).
Proof.
  intros H Hl. split; simpl; [lia | done |]. intros q Hq. split; [| done].
  repeat split; try done; [by apply H |]. intros r Hr. apply nlink_ext. intros p. simpl.
  destruct (decide (m_inode <$> m !! p = m_inode <$> manifests d !! p)) as [->|Hi]; [done |]. split.
  - intros (x & Hx & Hxi)%fmap_Some. rewrite (Hl p x q r) in Hq; auto; congruence.
  - intros (x & Hx & Hxi)%fmap_Some. rewrite (Hl p x q r) in Hq; auto; congruence.
Qed.

Lemma only_update P d i f :
  (forall r, m_inode (f r) = m_inode r) ->
  (forall q r, manifests d !! q = Some r -> m_inode r = i -> P q = true) -> only P d (update_inode i f d).
Proof.
  intros Hf HP. apply only_manifests.
  - intros q Hq. rewrite lookup_fmap. destruct (manifests d !! q) as [r|] eqn:E; [| done]. simpl.
    rewrite decide_False; [done |]. intros Hi. specialize (HP q r E Hi). congruence.
  - intros p x q r _ Hne _ _. destruct Hne. rewrite lookup_fmap. destruct (manifests d !! p) as [y|]; [| done].
    simpl. f_equal. case_decide; [apply Hf | done].
Qed.

(** ** The operations *)

(** A path whose directory entry is its own. *)
Definition own_entry (p : gostr) : Prop := full_path (splitParentName p) = p.

Lemma canonical_own_entry p : canonical p -> own_entry p.
Proof.
  intros H. unfold own_entry, full_path. destruct (decide (p = [slash])) as [->|Hp]; [done |].
  by apply sqlFullPath_splitParentName.
Qed.

Lemma only_insert_entry P parent name d x :
  P (full_path (parent, name)) = true -> only P d (set_dir_entries (<[(parent, name) := x]> (dir_entries d)) d).
Proof. intros Hp. apply only_entries. intros k Hk. apply lookup_insert_ne. intros <-. congruence. Qed.

Lemma only_insertIgnore P parent name d u d' :
  P (full_path (parent, name)) = true -> insertEntryOrIgnoreTx parent name d = Ok (u, d') -> only P d d'.
Proof.
  intros Hp [= _ <-]. destruct (has_entry parent name d); [by apply only_fcore | by apply only_insert_entry].
Qed.

Lemma only_removeEntry P p d u d' :
  own_entry p -> P p = true -> removeDirEntryTx p d = Ok (u, d') -> only P d d'.
Proof.
  unfold removeDirEntryTx, own_entry. intros Ho Hp. destruct (splitParentName p) as [parent name].
  case_decide; [intros [_ <-]%tx_ret_Ok; by apply only_fcore |].
  intros [= _ <-]. apply only_entries. intros k Hk. apply lookup_delete_ne. intros <-. congruence.
Qed.

Lemma only_clear P p d : P p = true -> only P d (set_change_tombstones (delete p (change_tombstones d)) d).
Proof. intros Hp. apply only_tombstones. intros q Hq. apply lookup_delete_ne. congruence. Qed.

Lemma only_upsert P p d t : P p = true -> only P d (set_change_tombstones (<[p := t]> (change_tombstones d)) d).
Proof. intros Hp. apply only_tombstones. intros q Hq. apply lookup_insert_ne. congruence. Qed.

(** [p] and the names of the inode [i]. *)
Definition affected (p : gostr) (i : option Z) (d : tdb) (q : gostr) : bool :=
  bool_decide (q = p) || bool_decide (is_Some i /\ m_inode <$> manifests d !! q = i).

Lemma affected_self p i d : affected p i d p = true.
Proof. unfold affected. by rewrite bool_decide_true. Qed.

Lemma affected_inode p i d q r : manifests d !! q = Some r -> m_inode r = i -> affected p (Some i) d q = true.
Proof.
  intros Hq Hi. unfold affected. rewrite (bool_decide_true (is_Some _ /\ _)), orb_true_r; [done |].
  rewrite Hq. simpl. split; [eauto | congruence].
Qed.

(** The visible part of a new file: the row at [p], its entry, no tombstone. *)
Lemma tracks_create d d1 p r :
  own_entry p -> only (affected p None d) d d1 -> manifests d1 = manifests d ->
  (forall q s, manifests d !! q = Some s -> m_inode s <> m_inode r) -> manifests d !! p = None ->
  only (affected p None d) d (set_manifests (<[p := r]> (manifests d1)) d1).
Proof.
  intros Ho H1 Hm Hf Hp. eapply only_trans; [exact H1 |]. apply only_manifests.
  - intros q Hq. apply lookup_insert_ne. intros <-. by rewrite affected_self in Hq.
  - intros q x q' s Hx Hne Hs Hi. rewrite Hm in *. destruct (decide (q = p)) as [->|Hqp].
    + rewrite lookup_insert_eq, Hp in Hx. destruct Hx as [[= <-]|]; [by destruct (Hf q' s) | done].
    + by rewrite lookup_insert_ne in Hne by congruence.
Qed.

Lemma allocChangeRev_Ok d rev d' :
  allocChangeRevTx d = Ok (rev, d') -> rev = last_rev d + 1 /\ d' = set_last_rev (last_rev d + 1) d.
Proof. by intros [= <- <-]. Qed.

Lemma fresh_inode d a q s :
  Inv d a -> manifests d !! q = Some s -> m_inode s <> inode_next_id d + 1.
Proof.
  intros I Hq. destruct (inv_rows _ _ I q s Hq) as (x & _ & Hx). pose proof (inv_ids _ _ I _ _ Hx). lia.
Qed.

(** The rows of inode [i] after an update carry the update's revision. *)
Lemma stamped_update c d i f q r :
  manifests d !! q = Some r -> m_inode r = i -> c < m_rev (f r) -> stamped c (update_inode i f d) q.
Proof.
  intros Hq Hi Hc. apply (stamped_file _ _ _ (f r)); [| done].
  rewrite update_inode_lookup, Hq. simpl. by rewrite decide_True.
Qed.


Lemma insertManifestTx_eq p i v rev mf d u d' :
  insertManifestTx p i v rev mf d = Ok (u, d') ->
  exists r, m_inode r = i /\ m_rev r = rev /\ manifests d !! p = None /\
    d' = set_change_tombstones (delete p (change_tombstones d)) (set_manifests (<[p := r]> (manifests d)) d).
Proof.
  unfold insertManifestTx, bind_u64. intros H. tx_inv H.
  destruct (manifests _ !! p) eqn:E; tx_inv H. eexists (mkMrow _ _ _ _ _ _ _ _ _ _).
  split; [| split; [| split; [reflexivity | reflexivity]]]; reflexivity.
Qed.

(** [pure_step H] runs a query, a check or a modification at the head of [H]. *)
Ltac pure_step H :=
  apply tx_bind_Ok in H;
  let x := fresh "x" in let e := fresh "e" in let E := fresh "E" in
  destruct H as (x & e & E & H);
  first [ apply require_Ok in E as [? ->] | unfold query, modify in E; injection E; clear E; intros <- <- ];
  cbv beta in H.

Section track_ops.
Context {MP : MsgPack} (now : Z).

Lemma insertManifest_tracks d d1 d2 d' p i v rev mf u u' parent name :
  own_entry p -> splitParentName p = (parent, name) -> only (affected p None d) d d1 -> manifests d1 = manifests d ->
  (forall q s, manifests d !! q = Some s -> m_inode s <> i) -> last_rev d < rev ->
  insertManifestTx p i v rev mf d1 = Ok (u, d2) ->
  (if decide (name = []) then mret tt else insertEntryOrIgnoreTx parent name) d2 = Ok (u', d') ->
  tracks d d'.
Proof using Type.
  intros Ho Hsp H1 Hm Hf Hr (r & Hri & Hrr & Hp & ->)%insertManifestTx_eq He.
  assert (only (affected p None d) d d' /\ manifests d' = <[p := r]> (manifests d1)) as [Hon Hm'].
  { set (dm := set_manifests _ d1) in *. set (dt := set_change_tombstones _ _) in *.
    assert (only (affected p None d) d dt) as Ht.
    { apply (only_trans _ d dm); [| exact (only_clear _ p dm (affected_self p None d))].
      apply tracks_create; try done; [| congruence]. intros q s Hq. rewrite Hri. by eapply Hf. }
    case_decide.
    - apply tx_ret_Ok in He as [_ <-]. done.
    - split.
      + eapply only_trans; [exact Ht |]. eapply only_insertIgnore; [| exact He].
        unfold own_entry in Ho. rewrite Hsp in Ho. rewrite Ho. apply affected_self.
      + injection He as [= _ <-]. by destruct (has_entry parent name dt). }
  eapply only_tracks; [exact Hon |]. intros q Hq. unfold affected in Hq.
  rewrite (bool_decide_false (is_Some None /\ _)), orb_false_r in Hq by (intros [[? ?] _]; done).
  apply bool_decide_eq_true in Hq as ->. apply (stamped_file _ _ _ r); [| lia].
  rewrite Hm'. apply lookup_insert_eq.
Qed.

(** A content write: all names of the inode. *)
Lemma updateManifest_tracks d d8 d' p r f u parent name :
  own_entry p -> splitParentName p = (parent, name) -> fcore d8 = fcore (set_last_rev (last_rev d + 1) d) ->
  manifests d !! p = Some r -> (forall s, m_inode (f s) = m_inode s) -> (forall s, last_rev d < m_rev (f s)) ->
  (if decide (name = []) then mret tt else insertEntryOrIgnoreTx parent name)
    (update_inode (m_inode r) f d8) = Ok (u, d') ->
  tracks d d'.
Proof using Type.
  intros Ho Hsp F8 Hp Hfi Hfr He. set (P := affected p (Some (m_inode r)) d).
  pose proof (fcore_inv _ _ F8) as (Hm8 & _). simpl in Hm8.
  assert (only P d (update_inode (m_inode r) f d8)) as H9.
  { apply (only_trans _ d d8).
    - eapply only_trans; [apply only_alloc | by apply only_fcore].
    - apply only_update; [done |]. intros q s. rewrite Hm8. apply affected_inode. }
  assert (only P d d' /\ manifests d' = manifests (update_inode (m_inode r) f d8)) as [Hon Hm'].
  { case_decide; [by apply tx_ret_Ok in He as [_ <-] |]. split.
    - eapply only_trans; [exact H9 |]. eapply only_insertIgnore; [| exact He].
      unfold own_entry in Ho. rewrite Hsp in Ho. rewrite Ho. apply affected_self.
    - injection He as [= _ <-]. by destruct (has_entry parent name _). }
  eapply only_tracks; [exact Hon |]. intros q Hq.
  assert (exists s, manifests d !! q = Some s /\ m_inode s = m_inode r) as (s & Hs & Hi).
  { unfold P, affected in Hq. apply orb_true_iff in Hq as [->%bool_decide_eq_true|Hq]; [eauto |].
    apply bool_decide_eq_true in Hq as [_ (s & ? & ?)%fmap_Some]. eauto. }
  apply (stamped_file _ _ _ (f s)); [| apply Hfr].
  rewrite Hm', update_inode_lookup, Hm8, Hs. simpl. by rewrite decide_True.
Qed.

Lemma putTx_tracks p v mf sid al ag d a o d' :
  own_entry p -> Inv d a -> putTx now p v mf sid al ag d = Ok (o, d') -> tracks d d'.
Proof using Type.
  intros Ho I H. unfold putTx in H. destruct (splitParentName p) as [parent name] eqn:Hsp.
  apply tx_bind_Ok in H as (i & d1 & H1 & H).
  assert (fcore d1 = fcore d /\ (v = 0 -> i = inode_next_id d + 1)) as [F1 Hi].
  { destruct (Z.eqb_spec v 0); [| by apply tx_ret_Ok in H1 as [_ <-]]. injection H1 as [= <- <-]. done. }
  apply tx_bind_Ok in H as (? & d2 & H2 & H). fcore_of H2.
  apply tx_bind_Ok in H as (old & d3 & [= <- <-] & H).
  apply tx_bind_Ok in H as (cs & d4 & H4 & H). fcore_of H4.
  apply tx_bind_Ok in H as (? & d5 & [Hv <-]%require_Ok & H).
  apply tx_bind_Ok in H as (rev & d6 & [-> ->]%allocChangeRev_Ok & H).
  apply tx_bind_Ok in H as (e & d7 & H7 & H). fcore_of H7.
  apply tx_bind_Ok in H as (? & d8 & H8 & H). fcore_of H8.
  apply tx_bind_Ok in H as (? & d9 & H9 & H). apply tx_bind_Ok in H as (? & d10 & H10 & H).
  apply tx_ret_Ok in H as [_ <-].
  assert (fcore d2 = fcore d) as F2 by congruence. assert (fcore d5 = fcore d) as F4 by congruence.
  pose proof (fcore_inv _ _ F2) as (Hm2 & _). pose proof (fcore_inv _ _ F4) as (_ & _ & _ & _ & _ & Hr4 & _).
  assert (fcore d8 = fcore (set_last_rev (last_rev d + 1) d)) as F8.
  { rewrite H8, H7, Hr4. unfold fcore in F4 |- *. simpl. congruence. }
  rewrite Hr4, Hm2 in *. destruct (Z.eqb_spec v 0) as [Hv0|Hv0].
  - eapply (insertManifest_tracks d d8); [done | done | | | | | exact H9 | exact H10].
    + eapply only_trans; [apply only_alloc | by apply only_fcore].
    + by pose proof (fcore_inv _ _ F8) as (Hm8 & _).
    + intros q s Hs. rewrite Hi by done. by eapply fresh_inode.
    + lia.
  - apply updateManifestTx_Ok in H9. destruct (manifests d !! p) as [r|] eqn:Hp.
    2: { apply Z.eqb_eq in Hv. by destruct Hv0. }
    rewrite H9 in H10. simpl in H10. eapply updateManifest_tracks; [done | done | done | done | | | exact H10].
    + done.
    + intros s. simpl. lia.
Qed.

Lemma only_insert_manifest P d p x :
  P p = true ->
  (forall q r, manifests d !! q = Some r -> m_inode r = m_inode x -> P q = true) ->
  (forall y q r, manifests d !! p = Some y -> manifests d !! q = Some r -> m_inode r = m_inode y -> P q = true) ->
  only P d (set_manifests (<[p := x]> (manifests d)) d).
Proof using Type.
  intros Hp Hx Hy. apply only_manifests.
  - intros q Hq. apply lookup_insert_ne. congruence.
  - intros q y q' r Hq Hne Hr Hi. destruct (decide (q = p)) as [->|Hqp].
    + rewrite lookup_insert_eq in Hq. destruct Hq as [[= <-]|Hq]; [by eapply Hx | by eapply Hy].
    + by rewrite lookup_insert_ne in Hne by congruence.
Qed.

Lemma only_delete_manifest P d p :
  P p = true ->
  (forall y q r, manifests d !! p = Some y -> manifests d !! q = Some r -> m_inode r = m_inode y -> P q = true) ->
  only P d (set_manifests (delete p (manifests d)) d).
Proof using Type.
  intros Hp Hy. apply only_manifests.
  - intros q Hq. apply lookup_delete_ne. congruence.
  - intros q y q' r Hq Hne Hr Hi. destruct (decide (q = p)) as [->|Hqp].
    + rewrite lookup_delete_eq in Hq. destruct Hq as [|Hq]; [done | by eapply Hy].
    + by rewrite lookup_delete_ne in Hne by congruence.
Qed.

Lemma insertEntryTx_eq parent name row d u d' :
  insertEntryTx parent name row d = Ok (u, d') ->
  d' = set_dir_entries (<[(parent, name) := row]> (dir_entries d)) d.
Proof using Type. unfold insertEntryTx. intros H. by tx_inv H. Qed.

Lemma affected_cases p i d q :
  affected p (Some i) d q = true -> q = p \/ exists s, manifests d !! q = Some s /\ m_inode s = i.
Proof using Type.
  unfold affected. intros [->%bool_decide_eq_true|Hq]%orb_true_iff; [auto |].
  apply bool_decide_eq_true in Hq as [_ (s & ? & ?)%fmap_Some]. eauto.
Qed.

Lemma linkTx_tracks from to sid al ag d o d' :
  own_entry to -> linkTx now from to sid al ag d = Ok (o, d') -> tracks d d'.
Proof using Type.
  intros Ho H. unfold linkTx in H.
  apply tx_bind_Ok in H as (? & d1 & H1 & H). fcore_of H1.
  pure_step H.
  pure_step H.
  pure_step H.
  destruct (manifests _ !! from) as [r|] eqn:Hr; [| done].
  apply tx_bind_Ok in H as (rev & ? & [-> ->]%allocChangeRev_Ok & H).
  pure_step H.
  pure_step H.
  pure_step H.
  pure_step H.
  pure_step H.
  destruct (splitParentName to) as [parent name] eqn:Hsp.
  apply tx_bind_Ok in H as (? & ? & ->%insertEntryTx_eq & H).
  apply tx_bind_Ok in H as (e & d9 & H9 & H). fcore_of H9.
  pure_step H. apply tx_ret_Ok in H as [_ <-].
  apply (tracks_fcore d d9 d1 _ H1 (eq_sym H9)). clear H1 H9.
  set (a1 := set_last_rev (last_rev d1 + 1) d1).
  set (a2 := set_manifests _ a1). set (a3 := update_inode _ _ a2).
  set (a4 := set_change_tombstones _ a3). set (P := affected to (Some (m_inode r)) d1).
  assert (manifests d1 !! to = None) as Hto by (apply negb_true_iff, bool_decide_eq_false in H2; by apply eq_None_not_Some).
  assert (forall q s, manifests a2 !! q = Some s -> m_inode s = m_inode r -> P q = true) as HP.
  { intros q s Hs Hi. simpl in Hs. apply lookup_insert_Some in Hs as [[<- _]|[_ Hs]];
      [apply affected_self | by eapply affected_inode]. }
  assert (only P d1 a3) as H3.
  { apply (only_trans _ _ a1); [apply only_alloc |]. apply (only_trans _ _ a2).
    - apply (only_insert_manifest P a1 to); [apply affected_self | |].
      + intros q s Hs Hi. by eapply affected_inode.
      + intros y q s Hy. simpl in Hy. congruence.
    - by apply only_update. }
  apply (only_tracks P).
  - apply (only_trans _ _ a3); [done |]. apply (only_trans _ _ a4).
    + exact (only_clear P to a3 (affected_self _ _ _)).
    + apply only_insert_entry. unfold own_entry in Ho. rewrite Hsp in Ho. rewrite Ho. apply affected_self.
  - intros q Hq. assert (exists s, manifests a2 !! q = Some s /\ m_inode s = m_inode r) as (s & Hs & Hi).
    { apply affected_cases in Hq as [->|(s & Hs & Hi)]; simpl.
      - rewrite lookup_insert_eq. by eexists.
      - exists s. rewrite lookup_insert_ne by congruence. done. }
    apply (stamped_file _ _ _ (set_m_rev (last_rev d1 + 1) s)); [| simpl; lia].
    change (manifests (set_dir_entries _ a4)) with (manifests a3).
    unfold a3. rewrite update_inode_lookup, Hs. simpl. by rewrite decide_True.
Qed.

(** Removing a symlink or a special node. *)
Lemma unlinkEntry_tracks p d d1 o d' :
  own_entry p -> only (affected p None d) d d1 -> last_rev d1 = last_rev d ->
  unlinkEntryTx now p d1 = Ok (o, d') -> tracks d d'.
Proof using Type.
  intros Ho H1 Hr H. unfold unlinkEntryTx in H.
  apply tx_bind_Ok in H as (? & d2 & H2 & H).
  assert (last_rev d2 = last_rev d1) as Hr2.
  { unfold removeDirEntryTx in H2. destruct (splitParentName p). case_decide;
      [by apply tx_ret_Ok in H2 as [_ <-] | by injection H2 as [= _ <-]]. }
  apply (only_removeEntry (affected p None d)) in H2; [| done | apply affected_self].
  apply tx_bind_Ok in H as (rev & ? & [-> ->]%allocChangeRev_Ok & H). pure_step H.
  apply tx_ret_Ok in H as [_ <-]. set (a1 := set_last_rev _ d2).
  apply (only_tracks (affected p None d)).
  - apply (only_trans _ _ d1); [done |]. apply (only_trans _ _ d2); [done |].
    apply (only_trans _ _ a1); [apply only_alloc |]. exact (only_upsert _ p a1 _ (affected_self _ _ _)).
  - intros q Hq. unfold affected in Hq.
    rewrite (bool_decide_false (is_Some None /\ _)), orb_false_r in Hq by (intros [[? ?] _]; done).
    apply bool_decide_eq_true in Hq as ->.
    eapply stamped_tombstone; [simpl; apply lookup_insert_eq | simpl; lia].
Qed.

Lemma deleteSymlinkTx_tracks p d o d' :
  own_entry p -> deleteSymlinkTx now p d = Ok (o, d') -> tracks d d'.
Proof using Type.
  intros Ho H. unfold deleteSymlinkTx in H. pure_step H. pure_step H. pure_step H.
  eapply unlinkEntry_tracks; [done | | | exact H]; [| done].
  apply only_symlinks. intros q Hq. apply lookup_delete_ne. intros <-. by rewrite affected_self in Hq.
Qed.

Lemma deleteSpecialNodeTx_tracks p d o d' :
  own_entry p -> deleteSpecialNodeTx now p d = Ok (o, d') -> tracks d d'.
Proof using Type.
  intros Ho H. unfold deleteSpecialNodeTx in H. pure_step H. pure_step H. pure_step H.
  eapply unlinkEntry_tracks; [done | | | exact H]; [| done].
  apply only_special. intros q Hq. apply lookup_delete_ne. intros <-. by rewrite affected_self in Hq.
Qed.

Lemma affected_None p d q : affected p None d q = true -> q = p.
Proof using Type.
  unfold affected. rewrite (bool_decide_false (is_Some None /\ _)), orb_false_r by (intros [[? ?] _]; done).
  by intros ?%bool_decide_eq_true.
Qed.

Lemma removeDirEntryTx_tables p d u d' :
  removeDirEntryTx p d = Ok (u, d') -> manifests d' = manifests d /\ last_rev d' = last_rev d.
Proof using Type.
  unfold removeDirEntryTx. destruct (splitParentName p).
  case_decide; [by intros [_ <-]%tx_ret_Ok | by intros [= _ <-]].
Qed.

Lemma nlink_one i d p r q s :
  nlink i d <= 1 -> manifests d !! p = Some r -> m_inode r = i -> manifests d !! q = Some s -> m_inode s = i -> q = p.
Proof using Type.
  intros Hn Hp Hr Hq Hs. destruct (decide (q = p)) as [|Hne]; [done |]. exfalso.
  assert (size ({[ p; q ]} : gset gostr) <= size (dom (links i d)))%nat as Hsz.
  { apply subseteq_size. intros x. rewrite elem_of_union, !elem_of_singleton, elem_of_dom. unfold links.
    intros [-> | ->]; eexists; by apply map_lookup_filter_Some. }
  rewrite size_union, !size_singleton in Hsz by set_solver. unfold nlink in Hn.
  rewrite size_dom in Hsz. lia.
Qed.

Lemma deleteTx_tracks p v sid al ag d o d' :
  own_entry p -> deleteTx now p v sid al ag d = Ok (o, d') -> tracks d d'.
Proof using Type.
  intros Ho H. unfold deleteTx in H. pure_step H.
  destruct (manifests d !! p) as [r|] eqn:Hp; [| done]. pure_step H. pure_step H.
  apply tx_bind_Ok in H as (cs & d1 & H1 & H). fcore_of H1.
  apply tx_bind_Ok in H as (e & d2 & H2 & H). fcore_of H2.
  apply tx_bind_Ok in H as (? & d3 & H3 & H). fcore_of H3.
  assert (fcore d3 = fcore d) as F3 by congruence. clear H1 H2 H3 d1 d2.
  pose proof (fcore_inv _ _ F3) as (Hm3 & _ & _ & _ & _ & Hr3 & _). pure_step H.
  set (P := affected p (Some (m_inode r)) d). set (a1 := set_manifests _ d3) in *.
  apply tx_bind_Ok in H as (? & d4 & H4 & H).
  pose proof (removeDirEntryTx_tables _ _ _ _ H4) as [Hm4 Hr4].
  apply (only_removeEntry P) in H4; [| done | apply affected_self].
  apply tx_bind_Ok in H as (rev & ? & [-> ->]%allocChangeRev_Ok & H). pure_step H.
  set (a2 := set_last_rev _ d4) in *. set (a3 := set_change_tombstones _ a2) in *.
  assert (only P d a3) as O3.
  { apply (only_trans _ _ d3); [by apply only_fcore |]. apply (only_trans _ _ a1).
    - apply (only_delete_manifest P d3 p); [apply affected_self |]. rewrite Hm3. intros y q s Hy Hq Hi.
      eapply affected_inode; [done | congruence].
    - apply (only_trans _ _ d4); [done |]. apply (only_trans _ _ a2); [apply only_alloc |].
      exact (only_upsert P p a2 _ (affected_self _ _ _)). }
  assert (forall c t, c < last_rev d4 + 1 -> t = a3 \/ t = update_inode (m_inode r) (set_m_rev (last_rev d4 + 1)) a3 ->
    stamped c t p) as Hsp.
  { intros c t Hc Ht. eapply (stamped_tombstone _ t p (mkTsrow (last_rev d4 + 1) now)); [| done].
    destruct Ht as [-> | ->]; simpl; apply lookup_insert_eq. }
  assert (forall q s, manifests a3 !! q = Some s -> q <> p /\ manifests d !! q = Some s) as Ha3.
  { intros q s Hs. change (manifests a3) with (manifests d4) in Hs. rewrite Hm4 in Hs. simpl in Hs. rewrite Hm3 in Hs.
    apply lookup_delete_Some in Hs as [? ?]. done. }
  simpl in Hr4. apply tx_bind_Ok in H as (? & d5 & H5 & H). apply tx_ret_Ok in H as [_ <-].
  destruct (Z.gtb_spec (nlink (m_inode r) d) 1) as [Hn|Hn].
  - injection H5 as [= _ <-]. apply (only_tracks P).
    + apply (only_trans _ _ a3); [done |]. apply only_update; [done |]. intros q s [_ Hs]%Ha3 Hi.
      by eapply affected_inode.
    + intros q [-> |(s & Hs & Hi)]%affected_cases; [apply Hsp; [lia | auto] |].
      destruct (decide (q = p)) as [->|Hne]; [apply Hsp; [lia | auto] |].
      eapply (stamped_update _ a3); [| exact Hi | simpl; lia].
      change (manifests a3) with (manifests d4). rewrite Hm4. simpl. rewrite Hm3, lookup_delete_ne; congruence.
  - apply tx_ret_Ok in H5 as [_ <-]. apply (only_tracks P); [done |].
    intros q [-> |(s & Hs & Hi)]%affected_cases; [apply Hsp; [lia | auto] |].
    assert (q = p) as ->; [| apply Hsp; [lia | auto]]. eapply nlink_one; [exact Hn | exact Hp | done | exact Hs | done].
Qed.

Lemma DirCreateTx_tracks p mode d o d' :
  own_entry p -> manifests d !! p = None -> symlinks d !! p = None -> special_nodes d !! p = None ->
  DirCreateTx p mode d = Ok (o, d') -> tracks d d'.
Proof using Type.
  intros Ho Hm Hs Hn H. unfold DirCreateTx in H. destruct (splitParentName p) as [parent name] eqn:Hsp.
  apply tx_bind_Ok in H as (? & d1 & H1 & H). fcore_of H1. pose proof (fcore_inv _ _ H1) as (Hm1 & Hs1 & Hn1 & _).
  pure_step H. pure_step H. apply tx_bind_Ok in H as (rev & ? & [-> ->]%allocChangeRev_Ok & H).
  apply tx_bind_Ok in H as (? & ? & ->%insertEntryTx_eq & H). pure_step H. apply tx_ret_Ok in H as [_ <-].
  apply (tracks_fcore d _ d1 _ H1 eq_refl). unfold own_entry in Ho. rewrite Hsp in Ho.
  set (a1 := set_last_rev _ d1). set (a2 := set_dir_entries _ a1). apply (only_tracks (affected p None d1)).
  - apply (only_trans _ _ a1); [apply only_alloc |]. apply (only_trans _ _ a2).
    + apply (only_insert_entry _ _ _ a1). rewrite Ho. apply affected_self.
    + exact (only_clear _ p a2 (affected_self _ _ _)).
  - intros q ->%affected_None. rewrite <- Ho. eapply stamped_dir.
    + simpl. apply lookup_insert_eq.
    + unfold shown_dir. simpl. rewrite Ho, Hm1, Hs1, Hn1, Hm, Hs, Hn. done.
    + simpl. lia.
Qed.

(** A new symlink or special node [put] at [p]. *)
Lemma node_create_tracks p parent name (put : tdb -> tdb) row d d1 :
  own_entry p -> splitParentName p = (parent, name) -> fcore d1 = fcore d ->
  (forall e, only (affected p None d1) e (put e)) ->
  (forall e c, c < last_rev d1 + 1 ->
     stamped c (set_change_tombstones (delete p (change_tombstones (put (set_last_rev (last_rev d1 + 1) d1))))
       (set_dir_entries e (put (set_last_rev (last_rev d1 + 1) d1)))) p) ->
  (forall e, dir_entries (put e) = dir_entries e /\ change_tombstones (put e) = change_tombstones e) ->
  tracks d (set_change_tombstones (delete p (change_tombstones d1))
    (set_dir_entries (<[(parent, name) := row]> (dir_entries d1)) (put (set_last_rev (last_rev d1 + 1) d1)))).
Proof using Type.
  intros Ho Hsp F Hput Hst He. unfold own_entry in Ho. rewrite Hsp in Ho.
  apply (tracks_fcore d _ d1 _ F eq_refl). set (a1 := set_last_rev _ d1).
  set (a2 := put a1) in *. set (a3 := set_dir_entries _ a2). apply (only_tracks (affected p None d1)).
  - apply (only_trans _ _ a1); [apply only_alloc |]. apply (only_trans _ _ a2); [apply Hput |].
    destruct (He a1) as [He1 Ht1]. fold a2 in He1, Ht1. apply (only_trans _ _ a3).
    + apply (only_entries _ a2). intros k Hk. rewrite He1. apply lookup_insert_ne. intros <-.
      by rewrite Ho, affected_self in Hk.
    + change (change_tombstones d1) with (change_tombstones a1). rewrite <- Ht1.
      exact (only_clear _ p a3 (affected_self _ _ _)).
  - intros q ->%affected_None. destruct (He a1) as [_ Ht1]. fold a2 in Ht1.
    change (change_tombstones d1) with (change_tombstones a1). rewrite <- Ht1. apply Hst. lia.
Qed.

Lemma SymlinkTx_tracks p target mode d o d' :
  own_entry p -> SymlinkTx p target mode d = Ok (o, d') -> tracks d d'.
Proof using Type.
  intros Ho H. unfold SymlinkTx in H. destruct (splitParentName p) as [parent name] eqn:Hsp. pure_step H.
  apply tx_bind_Ok in H as (? & d1 & H1 & H). fcore_of H1. pure_step H. pure_step H.
  apply tx_bind_Ok in H as (rev & ? & [-> ->]%allocChangeRev_Ok & H). pure_step H. pure_step H. pure_step H.
  apply tx_bind_Ok in H as (? & ? & ->%insertEntryTx_eq & H). pure_step H. apply tx_ret_Ok in H as [_ <-].
  apply (node_create_tracks p parent name (fun e => set_symlinks
    (<[p := mkSlrow target (Z.land (if mode =? 0 then 511 else mode) 4095) 0 0 0 0 (last_rev d1 + 1)]> (symlinks e)) e)
    _ d d1 Ho Hsp H1).
  - intros e. apply only_symlinks. intros q Hq. apply lookup_insert_ne. intros <-. by rewrite affected_self in Hq.
  - intros e c Hc. eapply stamped_symlink; [simpl; apply lookup_insert_eq | done].
  - done.
Qed.

Lemma MknodTx_tracks p mode rdev d o d' :
  own_entry p -> MknodTx p mode rdev d = Ok (o, d') -> tracks d d'.
Proof using Type.
  intros Ho H. unfold MknodTx, bind_u64 in H. destruct (splitParentName p) as [parent name] eqn:Hsp. pure_step H.
  apply tx_bind_Ok in H as (? & d1 & H1 & H). fcore_of H1. pure_step H. pure_step H.
  apply tx_bind_Ok in H as (rev & ? & [-> ->]%allocChangeRev_Ok & H). do 4 pure_step H.
  apply tx_bind_Ok in H as (? & ? & ->%insertEntryTx_eq & H). pure_step H. apply tx_ret_Ok in H as [_ <-].
  apply (node_create_tracks p parent name (fun e => set_special_nodes
    (<[p := mkSnrow mode rdev 0 0 0 0 (last_rev d1 + 1)]> (special_nodes e)) e) _ d d1 Ho Hsp H1).
  - intros e. apply only_special. intros q Hq. apply lookup_insert_ne. intros <-. by rewrite affected_self in Hq.
  - intros e c Hc. eapply stamped_special; [simpl; apply lookup_insert_eq | done].
  - done.
Qed.

Lemma DirRemoveTx_tracks p d o d' : own_entry p -> DirRemoveTx now p d = Ok (o, d') -> tracks d d'.
Proof using Type.
  intros Ho H. unfold DirRemoveTx in H. destruct (splitParentName p) as [parent name] eqn:Hsp.
  do 7 pure_step H. apply tx_bind_Ok in H as (rev & ? & [-> ->]%allocChangeRev_Ok & H).
  pure_step H. apply tx_ret_Ok in H as [_ <-]. unfold own_entry in Ho. rewrite Hsp in Ho.
  set (a1 := set_dir_entries _ d). set (a2 := set_last_rev _ a1). apply (only_tracks (affected p None d)).
  - apply (only_trans _ _ a1).
    + apply only_entries. intros k Hk. apply lookup_delete_ne. intros <-. by rewrite Ho, affected_self in Hk.
    + apply (only_trans _ _ a2); [apply only_alloc |]. exact (only_upsert _ p a2 _ (affected_self _ _ _)).
  - intros q ->%affected_None. eapply stamped_tombstone; [simpl; apply lookup_insert_eq | simpl; lia].
Qed.

(** Metadata of one node: the row at [p] is replaced by a stamped one. *)
Lemma meta_symlink_tracks p x d :
  last_rev d < sl_rev x ->
  tracks d (set_symlinks (<[p := x]> (symlinks d)) (set_last_rev (last_rev d + 1) d)).
Proof using Type.
  intros Hx. set (a1 := set_last_rev _ d). apply (only_tracks (affected p None d)).
  - apply (only_trans _ _ a1); [apply only_alloc |]. apply only_symlinks. intros q Hq.
    apply lookup_insert_ne. intros <-. by rewrite affected_self in Hq.
  - intros q ->%affected_None. eapply stamped_symlink; [simpl; apply lookup_insert_eq | done].
Qed.

Lemma meta_special_tracks p x d :
  last_rev d < sn_rev x ->
  tracks d (set_special_nodes (<[p := x]> (special_nodes d)) (set_last_rev (last_rev d + 1) d)).
Proof using Type.
  intros Hx. set (a1 := set_last_rev _ d). apply (only_tracks (affected p None d)).
  - apply (only_trans _ _ a1); [apply only_alloc |]. apply only_special. intros q Hq.
    apply lookup_insert_ne. intros <-. by rewrite affected_self in Hq.
  - intros q ->%affected_None. eapply stamped_special; [simpl; apply lookup_insert_eq | done].
Qed.

Lemma meta_dir_tracks p x d :
  own_entry p -> manifests d !! p = None -> symlinks d !! p = None -> special_nodes d !! p = None ->
  last_rev d < de_rev x ->
  tracks d (set_dir_entries (<[splitParentName p := x]> (dir_entries d)) (set_last_rev (last_rev d + 1) d)).
Proof using Type.
  intros Ho Hm Hs Hn Hx. set (a1 := set_last_rev _ d). apply (only_tracks (affected p None d)).
  - apply (only_trans _ _ a1); [apply only_alloc |]. apply only_entries. intros k Hk.
    apply lookup_insert_ne. intros <-. by rewrite Ho, affected_self in Hk.
  - intros q ->%affected_None.
    match goal with |- stamped ?c ?e _ => assert (stamped c e (full_path (splitParentName p))) as E end.
    { eapply stamped_dir; [simpl; apply lookup_insert_eq | | done].
      unfold shown_dir. simpl. by rewrite Ho, Hm, Hs, Hn. }
    by rewrite Ho in E.
Qed.

Lemma meta_file_tracks p r f d :
  manifests d !! p = Some r -> (forall s, m_inode (f s) = m_inode s) -> (forall s, last_rev d < m_rev (f s)) ->
  tracks d (update_inode (m_inode r) f (set_last_rev (last_rev d + 1) d)).
Proof using Type.
  intros Hp Hfi Hfr. set (a1 := set_last_rev _ d). apply (only_tracks (affected p (Some (m_inode r)) d)).
  - apply (only_trans _ _ a1); [apply only_alloc |]. apply only_update; [done |].
    intros q s. exact (affected_inode p (m_inode r) d q s).
  - intros q [->|(s & Hs & Hi)]%affected_cases.
    + exact (stamped_update _ a1 _ f p r Hp eq_refl (Hfr r)).
    + exact (stamped_update _ a1 _ f q s Hs Hi (Hfr s)).
Qed.

Lemma setMetaTx_tracks fm fs fn fd p d x e rev d' :
  (forall v s, m_inode (fm v s) = m_inode s /\ m_rev (fm v s) = v) -> (forall v s, sl_rev (fs v s) = v) ->
  (forall v s, sn_rev (fn v s) = v) -> (forall v s, de_rev (fd v s) = v) -> own_entry p ->
  setMetaTx fm fs fn fd p d = Ok (Commit x e rev, d') -> tracks d d'.
Proof using Type.
  intros Hm Hs Hn Hd Ho H. unfold setMetaTx in H.
  apply tx_bind_Ok in H as (? & ? & [-> ->]%allocChangeRev_Ok & H). pure_step H. simpl in H.
  destruct (manifests d !! p) as [r|] eqn:Er.
  { pure_step H. apply tx_ret_Ok in H as [_ <-]. apply (meta_file_tracks p); [done | |].
    - intros s. apply Hm.
    - intros s. rewrite (proj2 (Hm _ s)). lia. }
  destruct (symlinks d !! p) as [r|] eqn:El.
  { pure_step H. apply tx_ret_Ok in H as [_ <-]. apply meta_symlink_tracks. rewrite Hs. lia. }
  destruct (special_nodes d !! p) as [r|] eqn:En.
  { pure_step H. apply tx_ret_Ok in H as [_ <-]. apply meta_special_tracks. rewrite Hn. lia. }
  destruct (splitParentName p) as [parent name] eqn:Hsp. case_decide; [by apply tx_ret_Ok in H as [? _] |].
  destruct (dir_entries d !! (parent, name)) as [r|] eqn:Ed; [| done].
  pure_step H. apply tx_ret_Ok in H as [_ <-]. simpl. rewrite <- Hsp.
  apply meta_dir_tracks; try done. rewrite Hd. lia.
Qed.

Lemma setModeTx_tracks p mode d x e rev d' :
  own_entry p -> manifests d !! p = None -> setModeTx p mode d = Ok (Commit x e rev, d') -> tracks d d'.
Proof using Type.
  intros Ho Er H. unfold setModeTx in H.
  apply tx_bind_Ok in H as (? & ? & [-> ->]%allocChangeRev_Ok & H). pure_step H. simpl in H.
  destruct (symlinks d !! p) as [r|] eqn:El.
  { pure_step H. apply tx_ret_Ok in H as [_ <-]. apply meta_symlink_tracks. simpl. lia. }
  destruct (special_nodes d !! p) as [r|] eqn:En.
  { pure_step H. apply tx_ret_Ok in H as [_ <-]. apply meta_special_tracks. simpl. lia. }
  destruct (splitParentName p) as [parent name] eqn:Hsp. case_decide; [by apply tx_ret_Ok in H as [? _] |].
  destruct (dir_entries d !! (parent, name)) as [r|] eqn:Ed; [| done].
  pure_step H. apply tx_ret_Ok in H as [_ <-]. simpl. rewrite <- Hsp.
  apply meta_dir_tracks; try done. simpl. lia.
Qed.

(** ** Renaming anything but a directory *)

(** The inode of the file a rename replaces. *)
Definition dest_inode (to : gostr) (k : nodeKind) (d : tdb) : option Z :=
  if decide (k = nodeRegular) then m_inode <$> manifests d !! to else None.

Definition restamped (di : option Z) (rev : Z) (s : mrow) : mrow :=
  if decide (di = Some (m_inode s)) then set_m_rev rev s else s.

Lemma restamped_inode di rev s : m_inode (restamped di rev s) = m_inode s.
Proof using Type. unfold restamped. by case_decide. Qed.

Lemma affected_dest to k d q s :
  manifests d !! q = Some s -> dest_inode to k d = Some (m_inode s) ->
  affected to (dest_inode to k d) d q = true.
Proof using Type. intros Hq ->. by eapply affected_inode. Qed.

(** The dropped row and the restamped names of its inode. *)
Lemma dropDest_facts to r rev d d1 :
  manifests d !! to = Some r ->
  d1 = set_manifests (delete to (manifests d)) d \/
  d1 = update_inode (m_inode r) (set_m_rev rev) (set_manifests (delete to (manifests d)) d) ->
  only (affected to (Some (m_inode r)) d) d d1.
Proof using Type.
  intros Hr Hd. set (a := set_manifests _ d) in *. set (P := affected to (Some (m_inode r)) d).
  assert (only P d a) as Ha.
  { apply only_delete_manifest; [apply affected_self |]. intros y q s Hy Hq Hi.
    eapply affected_inode; [done | congruence]. }
  destruct Hd as [->| ->]; [done |]. eapply only_trans; [exact Ha |].
  apply only_update; [done |]. intros q s Hs Hi. unfold a in Hs. simpl in Hs.
  apply lookup_delete_Some in Hs as [_ Hs]. by eapply affected_inode.
Qed.

Lemma dropRegular_facts to rev d u d1 :
  (row ← query (fun d => manifests d !! to);
   match row with
   | None => throw (ErrMsg "read dest chunks")
   | Some r =>
       n ← query (nlink (m_inode r));
       _ ← (if n =? 1 then
              match unpackChunks (m_chunks r) with
              | None => throw (ErrMsg "unpack dest chunks")
              | Some cs => applyChunkRefDelta (chunkRefDelta cs [])
              end
            else mret tt);
       _ ← modify (fun d => set_manifests (delete to (manifests d)) d);
       if n >? 1 then restampTx (m_inode r) rev else mret tt
   end) d = Ok (u, d1) ->
  only (affected to (dest_inode to nodeRegular d) d) d d1 /\ last_rev d1 = last_rev d /\
  manifests d1 !! to = None /\
  forall q, q <> to -> manifests d1 !! q = restamped (dest_inode to nodeRegular d) rev <$> manifests d !! q.
Proof using Type.
  intros H. pure_step H. destruct (manifests d !! to) as [r|] eqn:Hr; [| done]. pure_step H.
  apply tx_bind_Ok in H as (? & d2 & H2 & H). fcore_of H2. pure_step H.
  pose proof (fcore_inv _ _ H2) as (Hm2 & _ & _ & _ & _ & Hr2 & _).
  assert (dest_inode to nodeRegular d = Some (m_inode r)) as -> by (unfold dest_inode; by rewrite decide_True, Hr).
  assert (d1 = set_manifests (delete to (manifests d2)) d2 /\ nlink (m_inode r) d <= 1 \/
    d1 = update_inode (m_inode r) (set_m_rev rev) (set_manifests (delete to (manifests d2)) d2)) as Hd1.
  { destruct (Z.gtb_spec (nlink (m_inode r) d) 1); [right | left].
    - by injection H as [= _ <-].
    - by apply tx_ret_Ok in H as [_ <-]. }
  split; [| split; [| split]].
  - eapply only_trans; [by apply only_fcore |].
    assert (affected to (Some (m_inode r)) d = affected to (Some (m_inode r)) d2) as ->
      by (unfold affected; by rewrite Hm2).
    eapply dropDest_facts; [by rewrite Hm2 |]. destruct Hd1 as [[-> _]| ->]; auto.
  - destruct Hd1 as [[-> _]| ->]; done.
  - destruct Hd1 as [[-> _]| ->]; [| rewrite update_inode_lookup]; simpl; by rewrite lookup_delete_eq.
  - intros q Hq. destruct Hd1 as [[-> Hn]| ->].
    + simpl. rewrite Hm2, lookup_delete_ne by done. destruct (manifests d !! q) as [s|] eqn:Hs; [| done].
      simpl. unfold restamped. rewrite decide_False; [done |]. intros [= Hi]. destruct Hq.
      by eapply nlink_one.
    + rewrite update_inode_lookup. simpl. rewrite Hm2, lookup_delete_ne by done.
      destruct (manifests d !! q) as [s|]; [| done]. simpl. unfold restamped. f_equal.
      repeat case_decide; congruence.
Qed.

Lemma deleteDest_facts to k rev d u d' :
  own_entry to -> k = nodeRegular \/ manifests d !! to = None -> deleteDestTx to k rev d = Ok (u, d') ->
  only (affected to (dest_inode to k d) d) d d' /\ last_rev d' = last_rev d /\
  manifests d' !! to = None /\
  forall q, q <> to -> manifests d' !! q = restamped (dest_inode to k d) rev <$> manifests d !! q.
Proof using Type.
  intros Ho Hto H. unfold deleteDestTx in H. apply tx_bind_Ok in H as (? & d1 & H1 & H).
  pose proof (removeDirEntryTx_tables _ _ _ _ H) as [Hm Hl].
  apply (only_removeEntry (affected to (dest_inode to k d) d)) in H; [| done | apply affected_self].
  enough (only (affected to (dest_inode to k d) d) d d1 /\ last_rev d1 = last_rev d /\ manifests d1 !! to = None /\
    forall q, q <> to -> manifests d1 !! q = restamped (dest_inode to k d) rev <$> manifests d !! q)
    as (O1 & L1 & T1 & M1).
  { split; [by eapply only_trans |]. split; [congruence |]. by rewrite Hm. }
  destruct (decide (k = nodeRegular)) as [->|Hk]; [by eapply dropRegular_facts |].
  assert (manifests d1 = manifests d /\ last_rev d1 = last_rev d /\
    only (affected to (dest_inode to k d) d) d d1) as (M1 & L1 & O1).
  { destruct k; try done.
    - apply tx_ret_Ok in H1 as [_ <-]. split; [done |]. split; [done | by apply only_fcore].
    - injection H1 as [= _ <-]. split; [done |]. split; [done |]. apply only_symlinks. intros q Hq.
      apply lookup_delete_ne. intros <-. by rewrite affected_self in Hq.
    - injection H1 as [= _ <-]. split; [done |]. split; [done |]. apply only_special. intros q Hq.
      apply lookup_delete_ne. intros <-. by rewrite affected_self in Hq.
    - apply tx_ret_Ok in H1 as [_ <-]. split; [done |]. split; [done | by apply only_fcore]. }
  split; [done |]. split; [done |]. rewrite M1. split; [by destruct Hto |]. intros q _.
  unfold dest_inode. rewrite decide_False by done.
  destruct (manifests d !! q); [| done]. simpl. unfold restamped. by rewrite decide_False.
Qed.

(** A live row at [q] with a new revision. *)
Definition live_stamped (c : Z) (d : tdb) (q : gostr) : Prop :=
  (exists s, manifests d !! q = Some s /\ c < m_rev s) \/
  (exists s, symlinks d !! q = Some s /\ c < sl_rev s) \/
  (exists s, special_nodes d !! q = Some s /\ c < sn_rev s).

Lemma live_stamped_stamped c d d' q :
  manifests d' = manifests d -> symlinks d' = symlinks d -> special_nodes d' = special_nodes d ->
  live_stamped c d q -> stamped c d' q.
Proof using Type.
  intros Hm Hs Hn. unfold live_stamped. rewrite <- Hm, <- Hs, <- Hn.
  intros [(x & ? & ?)|[(x & ? & ?)|(x & ? & ?)]].
  - by eapply stamped_file.
  - by eapply stamped_symlink.
  - by eapply stamped_special.
Qed.

(** What the node moved by a rename looks like before the move. *)
Definition movable (from to : gostr) (k : nodeKind) (i : Z) (d : tdb) : Prop :=
  match k with
  | nodeRegular => exists r, manifests d !! from = Some r /\ manifests d !! to = None /\ m_inode r = i
  | nodeSymlink => is_Some (symlinks d !! from)
  | nodeSpecial => is_Some (special_nodes d !! from)
  | nodeDir | nodeAbsent => False
  end.

Definition moved_row (k : nodeKind) (i nv rev : Z) (s : mrow) : mrow :=
  if decide (k = nodeRegular /\ m_inode s = i) then set_m_version_rev nv rev s else s.

Definition move_only (from to : gostr) (k : nodeKind) (i : Z) (d d' : tdb) : Prop :=
  forall P : gostr -> bool, P from = true -> P to = true ->
  (k = nodeRegular -> forall q s, manifests d !! q = Some s -> m_inode s = i -> P q = true) -> only P d d'.

Lemma moveFile_facts from to c nv rev i d u d' :
  movable from to nodeRegular i d -> from <> to -> c < rev ->
  moveRenameSourceTx now from to nodeRegular nv i rev d = Ok (u, d') ->
  move_only from to nodeRegular i d d' /\ last_rev d' = last_rev d /\ live_stamped c d' to /\
  forall q, q <> from -> q <> to -> manifests d' !! q = moved_row nodeRegular i nv rev <$> manifests d !! q.
Proof using Type.
  intros (r & Hf & Ht & Hi) Hne Hc H. simpl in H.
  apply tx_bind_Ok in H as (? & ? & (m & Hm & ->)%rekeyTx_Ok & H).
  apply tx_bind_Ok in H as (? & ? & [_ ->]%require_Ok & H). injection H as [= _ <-].
  pose proof (move_row_Some _ _ _ _ _ _ Hm Hf Hne) as ->. set (a := set_manifests _ d).
  split; [| split; [done | split]].
  - intros P Pf Pt Pi. specialize (Pi eq_refl). apply (only_trans _ _ a).
    + apply only_manifests.
      * intros q Hq. rewrite lookup_insert_ne, lookup_delete_ne by congruence. done.
      * intros p y q s Hx Hp Hq Hs. assert (m_inode y = i) as Hxi; [| apply (Pi q s); congruence].
        destruct (decide (p = to)) as [->|Hpt].
        { rewrite lookup_insert_eq, Ht in Hx. destruct Hx as [[= <-]|?]; done. }
        rewrite lookup_insert_ne in Hx, Hp by congruence. destruct (decide (p = from)) as [->|Hpf].
        { rewrite lookup_delete_eq in Hx. destruct Hx as [?|Hx]; [done | congruence]. }
        by rewrite lookup_delete_ne in Hp by congruence.
    + apply only_update; [done |]. intros q s Hs Hsi. unfold a in Hs. simpl in Hs.
      apply lookup_insert_Some in Hs as [[<- _]|[_ [_ Hs]%lookup_delete_Some]]; [done |]. by eapply Pi.
  - left. exists (set_m_version_rev nv rev r). split; [| done]. rewrite update_inode_lookup.
    unfold a. simpl. rewrite lookup_insert_eq. simpl. by rewrite decide_True.
  - intros q Hqf Hqt. rewrite update_inode_lookup. unfold a. simpl.
    rewrite lookup_insert_ne, lookup_delete_ne by congruence. destruct (manifests d !! q) as [s|]; [| done].
    simpl. unfold moved_row. f_equal. repeat case_decide; tauto.
Qed.

Lemma moveSource_facts from to k c nv rev i d u d' :
  movable from to k i d -> from <> to -> c < rev ->
  moveRenameSourceTx now from to k nv i rev d = Ok (u, d') ->
  move_only from to k i d d' /\ last_rev d' = last_rev d /\ live_stamped c d' to /\
  forall q, q <> from -> q <> to -> manifests d' !! q = moved_row k i nv rev <$> manifests d !! q.
Proof using Type.
  intros Hk Hne Hc H.
  assert (forall q, k <> nodeRegular -> moved_row k i nv rev <$> manifests d !! q = manifests d !! q) as Hid.
  { intros q Hn. destruct (manifests d !! q); [| done]. simpl. unfold moved_row. by rewrite decide_False by tauto. }
  destruct k; try done.
  - by eapply moveFile_facts.
  - destruct Hk as [r Hf]. simpl in H. apply rekeyTx_Ok in H as (m & Hm & ->).
    pose proof (move_row_Some _ _ _ _ _ _ Hm Hf Hne) as ->. split; [| split; [done | split]].
    + intros P Pf Pt _. apply only_symlinks. intros q Hq. rewrite lookup_insert_ne, lookup_delete_ne by congruence. done.
    + right. left. eexists. simpl. rewrite lookup_insert_eq. done.
    + intros q _ _. by rewrite Hid.
  - destruct Hk as [r Hf]. simpl in H. apply rekeyTx_Ok in H as (m & Hm & ->).
    pose proof (move_row_Some _ _ _ _ _ _ Hm Hf Hne) as ->. split; [| split; [done | split]].
    + intros P Pf Pt _. apply only_special. intros q Hq. rewrite lookup_insert_ne, lookup_delete_ne by congruence. done.
    + do 2 right. eexists. simpl. rewrite lookup_insert_eq. done.
    + intros q _ _. by rewrite Hid.
Qed.

Lemma rewriteEntries_facts from to k rev P d u d' :
  own_entry from -> own_entry to -> P from = true -> P to = true -> k <> nodeDir ->
  rewriteRenameDirEntriesTx from to k rev d = Ok (u, d') ->
  only P d d' /\ manifests d' = manifests d /\ symlinks d' = symlinks d /\
  special_nodes d' = special_nodes d /\ last_rev d' = last_rev d.
Proof using Type.
  unfold own_entry, rewriteRenameDirEntriesTx. intros Hf Ht Pf Pt Hk H.
  destruct (splitParentName from) as [fp fn], (splitParentName to) as [tp tn].
  pure_step H. rewrite !(decide_False (P := k = nodeDir)) in H by done.
  apply tx_bind_Ok in H as (? & d1 & H1 & H).
  assert (only P d d1 /\ manifests d1 = manifests d /\ symlinks d1 = symlinks d /\
    special_nodes d1 = special_nodes d /\ last_rev d1 = last_rev d) as (O1 & M1 & S1 & N1 & L1).
  { destruct (decide (fn = [])).
    - apply tx_ret_Ok in H1 as [_ <-]. split; [by apply only_fcore | done].
    - injection H1 as [= _ <-]. split; [| done]. apply only_entries. intros q Hq.
      apply lookup_delete_ne. intros <-. congruence. }
  rewrite <- M1, <- S1, <- N1, <- L1. destruct (decide (tn = [])).
  - by apply tx_ret_Ok in H as [_ <-].
  - split.
    + eapply only_trans; [exact O1 |]. eapply only_insertIgnore; [| exact H]. congruence.
    + injection H as [= _ <-]. by destruct (has_entry tp tn d1).
Qed.

Lemma movable_same from to k i d d' :
  same_tables d d' from -> manifests d' !! to = None ->
  (k = nodeRegular -> m_inode <$> manifests d !! from = Some i) ->
  resolveKind from d = k -> k <> nodeDir -> k <> nodeAbsent -> movable from to k i d'.
Proof using Type.
  intros (Hm & _ & Hs & Hn & _) Ht Hi Hk Hd Ha.
  unfold resolveKind, present in Hk.
  unfold movable. rewrite Hm, Hs, Hn. repeat case_bool_decide; subst k; try done.
  - specialize (Hi eq_refl). apply fmap_Some in Hi as (r & Hf & ?). eauto.
  - destruct (has_children from d); [done |]. destruct (splitParentName from).
    case_decide; [done |]. by destruct (has_entry _ _ _).
Qed.

(** The paths a rename touches. *)
Definition rename_affected (from to : gostr) (si di : option Z) (d : tdb) (q : gostr) : bool :=
  affected from si d q || affected to di d q.

Lemma only_weaken (Q P : gostr -> bool) d d' : (forall q, Q q = true -> P q = true) -> only Q d d' -> only P d d'.
Proof using Type.
  intros HQ [R W H]. split; [done | done |]. intros q Hq. apply H.
  destruct (Q q) eqn:E; [| done]. rewrite HQ in Hq; done.
Qed.

Lemma dropDest_stage to dk b u4 d4 :
  own_entry to -> dk = resolveKind to b ->
  (if decide (dk = nodeAbsent) then mret tt else deleteDestTx to dk (last_rev b + 1))
    (set_last_rev (last_rev b + 1) b) = Ok (u4, d4) ->
  only (affected to (dest_inode to dk b) b) b d4 /\ manifests d4 !! to = None /\
  forall q, q <> to -> manifests d4 !! q = restamped (dest_inode to dk b) (last_rev b + 1) <$> manifests b !! q.
Proof using Type.
  intros Hot Hdk H4. set (a1 := set_last_rev _ b) in *.
  assert (dk = nodeRegular \/ manifests b !! to = None) as Hto.
  { destruct (manifests b !! to) eqn:E; [| auto]. left. subst dk. apply resolveKind_regular. rewrite E. eauto. }
  case_decide as Hab.
  - apply tx_ret_Ok in H4 as [_ <-]. split; [apply only_alloc |].
    destruct Hto as [?|?]; [congruence |]. split; [done |]. intros q _. simpl.
    unfold dest_inode. rewrite decide_False by congruence. destruct (manifests b !! q); [| done].
    simpl. unfold restamped. by rewrite decide_False.
  - destruct (deleteDest_facts to dk (last_rev b + 1) a1 u4 d4 Hot Hto H4) as (O & _ & T & M).
    split; [| done]. eapply only_trans; [apply only_alloc | exact O].
Qed.

(** Every touched path ends with a new revision: a tombstone at the old name, the
    moved row at the new one, the other names of both inodes restamped. *)
Lemma rename_stamps from to k i nv si di b d6 d7 q :
  let rev := last_rev b + 1 in
  let t := <[from := mkTsrow rev now]> (change_tombstones d7) in
  from <> to -> si = (if decide (k = nodeRegular) then Some i else None) ->
  live_stamped (last_rev b) d6 to ->
  (forall q, q <> from -> q <> to ->
     manifests d6 !! q = (fun s => moved_row k i nv rev (restamped di rev s)) <$> manifests b !! q) ->
  manifests d7 = manifests d6 -> symlinks d7 = symlinks d6 -> special_nodes d7 = special_nodes d6 ->
  rename_affected from to si di b q = true ->
  stamped (last_rev b) (set_change_tombstones (delete to t) (set_change_tombstones t d7)) q.
Proof using Type.
  intros rev t Hne Hsi S6 M6 M7 Sy7 N7 Hq. set (z := set_change_tombstones _ _).
  destruct (decide (q = from)) as [->|Hqf].
  { apply (stamped_tombstone _ _ _ (mkTsrow rev now)); [| simpl; unfold rev; lia].
    unfold z, t. simpl. rewrite lookup_delete_ne, lookup_insert_eq by congruence. done. }
  destruct (decide (q = to)) as [->|Hqt]; [by apply (live_stamped_stamped _ d6 z) |].
  assert (exists s0, manifests b !! q = Some s0 /\ (si = Some (m_inode s0) \/ di = Some (m_inode s0))) as (s0 & Hs0 & Hin).
  { unfold rename_affected, affected in Hq. rewrite !orb_true_iff, !bool_decide_eq_true in Hq.
    destruct Hq as [[?|[[j Hj] E]]|[?|[[j Hj] E]]]; try done; rewrite Hj in E;
      apply fmap_Some in E as (s0 & ? & ->); eauto. }
  apply (stamped_file _ _ _ (moved_row k i nv rev (restamped di rev s0))).
  - unfold z. simpl. rewrite M7, M6, Hs0 by done. done.
  - unfold moved_row.
    destruct (decide (k = nodeRegular /\ m_inode (restamped di rev s0) = i)) as [Hc|Hc]; [simpl; unfold rev; lia |].
    unfold restamped. rewrite decide_True; [simpl; unfold rev; lia |].
    destruct Hin as [Hin|Hin]; [| done]. exfalso. rewrite Hsi in Hin. case_decide as Hkr; [| done].
    apply Hc. rewrite restamped_inode. split; congruence.
Qed.

(** The statements of a rename, after its checks. *)
Lemma rename_moves_tracks from to k dk i nv b u4 d4 d5 u6 d6 u7 d7 :
  own_entry from -> own_entry to -> from <> to -> k = resolveKind from b -> k <> nodeDir -> k <> nodeAbsent ->
  dk = resolveKind to b -> (k = nodeRegular -> m_inode <$> manifests b !! from = Some i) ->
  (k = nodeRegular -> dest_inode to dk b <> Some i) ->
  (if decide (dk = nodeAbsent) then mret tt else deleteDestTx to dk (last_rev b + 1))
    (set_last_rev (last_rev b + 1) b) = Ok (u4, d4) ->
  fcore d5 = fcore d4 ->
  moveRenameSourceTx now from to k nv i (last_rev b + 1) d5 = Ok (u6, d6) ->
  rewriteRenameDirEntriesTx from to k (last_rev b + 1) d6 = Ok (u7, d7) ->
  let t := <[from := mkTsrow (last_rev b + 1) now]> (change_tombstones d7) in
  tracks b (set_change_tombstones (delete to t) (set_change_tombstones t d7)).
Proof using Type.
  intros Hof Hot Hne Hk Hkd Hka Hdk Hi Hdi H4 H5 H6 H7 t.
  destruct (dropDest_stage _ _ _ _ _ Hot Hdk H4) as (O4 & T4 & M4).
  pose proof (fcore_inv _ _ H5) as (M5 & _).
  assert (affected to (dest_inode to dk b) b from = false) as Hfrom.
  { destruct (affected _ _ _ _) eqn:E; [| done]. unfold affected in E.
    apply orb_true_iff in E as [E|E]; [by apply bool_decide_eq_true in E |].
    apply bool_decide_eq_true in E as [[j Hj] E]. rewrite Hj in E. apply fmap_Some in E as (r & Hr & ->).
    assert (k = nodeRegular) as Hkr by (subst k; apply resolveKind_regular; rewrite Hr; eauto).
    specialize (Hi Hkr). specialize (Hdi Hkr). rewrite Hr in Hi. simpl in Hi. congruence. }
  set (si := if decide (k = nodeRegular) then Some i else None).
  set (di := dest_inode to dk b) in *. set (P := rename_affected from to si di b).
  assert (P from = true /\ P to = true) as [Pf Pt].
  { unfold P, rename_affected. by rewrite !affected_self, orb_true_r. }
  assert (only P b d5) as O5.
  { apply (only_trans _ _ d4); [| by apply only_fcore]. eapply only_weaken; [| exact O4].
    intros q Hq. unfold P, rename_affected. by rewrite Hq, orb_true_r. }
  assert (movable from to k i d5) as Hmov.
  { eapply (movable_same from to k i b); try done; [| by rewrite M5].
    eapply same_tables_trans; [apply (on_path _ _ _ O4 from Hfrom) |].
    apply (only_fcore (fun _ => false) _ _ H5 : only _ _ _). done. }
  destruct (moveSource_facts from to k (last_rev b) nv (last_rev b + 1) i d5 u6 d6 Hmov Hne ltac:(lia) H6)
    as (O6 & _ & S6 & M6).
  destruct (rewriteEntries_facts from to k _ P d6 u7 d7 Hof Hot Pf Pt Hkd H7) as (O7 & M7 & Sy7 & N7 & _).
  apply (only_tracks P).
  - apply (only_trans _ _ d5); [done |]. apply (only_trans _ _ d6).
    + apply O6; [done | done |]. intros Hkr q s Hs Hsi. rewrite M5 in Hs. unfold P, rename_affected.
      apply orb_true_iff. left. unfold si. rewrite decide_True by done.
      assert (q <> to) as Hqt by congruence. rewrite M4 in Hs by done. apply fmap_Some in Hs as (s0 & Hs0 & ->).
      rewrite restamped_inode in Hsi. by eapply affected_inode.
    + apply (only_trans _ _ d7); [done |]. change (only P d7 (set_change_tombstones (delete to t) d7)).
      apply only_tombstones. intros q Hq. unfold t.
      rewrite lookup_delete_ne, lookup_insert_ne by congruence. done.
  - intros q Hq. apply (rename_stamps from to k i nv si di b d6 d7 q); try done.
    intros q' Hf' Ht'. rewrite M6, M5, M4 by done. by rewrite <- option_fmap_compose.
Qed.

Lemma resolveKind_fcore p d d' : fcore d' = fcore d -> resolveKind p d' = resolveKind p d.
Proof using Type.
  intros (Hm & Hs & Hn & Hd & _)%fcore_inv. unfold resolveKind, has_children, has_entry.
  by rewrite Hm, Hs, Hn, Hd.
Qed.

Lemma resolveRenameDest_kind to k nr vt d dk dv d' :
  resolveRenameDestTx to k nr vt d = Ok ((dk, dv), d') -> d' = d /\ dk = resolveKind to d.
Proof using Type.
  unfold resolveRenameDestTx, resolveKindTx. intros H. pure_step H. case_decide.
  { by apply tx_ret_Ok in H as [[= <- _] <-]. }
  do 5 pure_step H. case_decide; [| by apply tx_ret_Ok in H as [[= <- _] <-]].
  pure_step H. destruct (manifests d !! to); [| done]. pure_step H. by apply tx_ret_Ok in H as [[= <- _] <-].
Qed.

Lemma renameTx_tracks from to vf vt nr sid al ag d x e rv d' :
  own_entry from -> own_entry to -> resolveKind from d <> nodeDir ->
  renameTx now from to vf vt nr sid al ag d = Ok (Commit x e rv, d') -> tracks d d'.
Proof using Type.
  intros Hof Hot Hk H. unfold renameTx, resolveKindTx in H. pure_step H. pure_step H.
  match goal with E : bool_decide (_ <> nodeAbsent) = true |- _ => rename E into Hka end.
  apply bool_decide_eq_true in Hka. case_decide as Hne.
  { by apply tx_bind_Ok in H as (? & ? & [= <- <-] & [? _]%tx_ret_Ok). }
  apply tx_bind_Ok in H as ([dk dv] & d1 & [-> Hdk]%resolveRenameDest_kind & H).
  apply tx_bind_Ok in H as (? & d2 & H2 & H). fcore_of H2.
  rewrite <- (resolveKind_fcore from d d2) in * by done. rewrite <- (resolveKind_fcore to d d2) in Hdk by done.
  apply (tracks_fcore d d' d2 d' H2 eq_refl).
  apply tx_bind_Ok in H as (src & d3 & H3 & H).
  assert (d3 = d2 /\ src = if decide (resolveKind from d2 = nodeRegular) then manifests d2 !! from else None) as [-> ->].
  { destruct (decide (resolveKind from d2 = nodeRegular)); [| by apply tx_ret_Ok in H3 as [<- <-]].
    unfold readRenameSourceTx in H3. apply tx_bind_Ok in H3 as (r & d4 & H4 & H3).
    apply tx_ret_Ok in H3 as [<- <-]. pure_step H4. destruct (manifests d2 !! from) as [s|]; [| done].
    pure_step H4. by apply tx_ret_Ok in H4 as [<- <-]. }
  pure_step H. destruct (same_inode _ _) eqn:Hsame; [by apply tx_ret_Ok in H as [? _] |].
  apply tx_bind_Ok in H as (rev & ? & [-> ->]%allocChangeRev_Ok & H).
  apply tx_bind_Ok in H as (? & d4 & H4 & H).
  apply tx_bind_Ok in H as ([nv en] & d5 & H5 & H). fcore_of H5.
  apply tx_bind_Ok in H as (? & d6 & H6 & H).
  apply tx_bind_Ok in H as (? & d7 & H7 & H). pure_step H. pure_step H. apply tx_ret_Ok in H as [_ <-].
  eapply (rename_moves_tracks from to _ dk); [done | done | done | reflexivity | done | done | done | | |
    exact H4 | exact H5 | exact H6 | exact H7].
  - intros Hr. rewrite decide_True by done. apply resolveKind_regular in Hr as [r ->]. done.
  - intros Hr. rewrite decide_True in * by done. apply resolveKind_regular in Hr as [r Hr].
    rewrite Hr in Hsame |- *. simpl. unfold dest_inode. intros E. rewrite E in Hsame. simpl in Hsame.
    by rewrite Z.eqb_refl in Hsame.
Qed.

(** ** Pruning *)

(** Revisions that fit a SQLite integer. *)
Definition small_revs (d : tdb) : Prop :=
  forall q t, change_tombstones d !! q = Some t -> 0 <= ts_rev t < 2 ^ 63.

Lemma pruneTombstones_tracks cutoff d : small_revs d -> tracks d (pruneTombstones cutoff d).2.
Proof using Type.
  intros Hs. destruct (pruneTombstones cutoff d) as [n d'] eqn:E.
  pose proof (pruneTombstones_watermark cutoff d n d') as Hw. simpl.
  assert (manifests d' = manifests d /\ symlinks d' = symlinks d /\ special_nodes d' = special_nodes d /\
    dir_entries d' = dir_entries d /\ last_rev d' = last_rev d /\ pruned_before_rev d <= pruned_before_rev d' /\
    forall q t, change_tombstones d' !! q = Some t -> change_tombstones d !! q = Some t)
    as (Hm & Hl & Hn & Hd & Hr & Hp & Ht).
  { unfold pruneTombstones in E. destruct (max_pruned cutoff d); injection E as [= _ <-]; simpl;
      repeat split; try done; try lia. by intros q t [? _]%map_lookup_filter_Some. }
  split; [lia | done |]. intros q. right. split.
  - split; [by rewrite Hm |]. split; [intros r _; by apply nlink_manifests |]. rewrite Hl, Hn, Hd. done.
  - intros t Hq. destruct (change_tombstones d' !! q) as [t'|] eqn:Eq.
    + left. apply Ht in Eq. congruence.
    + right. by eapply Hw.
Qed.
End track_ops.
