(* ===== verification/RenameProps.v ===== *)
(** * What a rename does

    manifests.go [Rename]: the refinement of a committed rename, for every kind of
    source, over the tree of files and the tables of symlinks and special nodes. *)

From S2P Require Import Prelude GoPath Codec TenantDB Journal Manifests FileSpec Refine ManifestProps Changes Track.

(** The two tables of nodes that are neither files nor directories. *)
Definition nodes (d : tdb) : gmap gostr slrow * gmap gostr snrow := (symlinks d, special_nodes d).

Definition nkeeps {A} (t : tx A) : Prop := forall d x d', t d = Ok (x, d') -> nodes d' = nodes d.

Lemma nkeeps_bind {A B} (m : tx A) (k : A -> tx B) :
  nkeeps m -> (forall x, nkeeps (k x)) -> nkeeps (m ≫= k).
Proof.
  intros Hm Hk d y d' H. apply tx_bind_Ok in H as (x & d1 & H1%Hm & H2%Hk). congruence.
Qed.

Lemma nkeeps_fkeeps {A} (t : tx A) : fkeeps t -> nkeeps t.
Proof.
  intros Hk d x d' H. apply Hk, fcore_inv in H as (_ & Hs & Hn & _). unfold nodes. by rewrite Hs, Hn.
Qed.

Lemma nkeeps_modify f : (forall d, nodes (f d) = nodes d) -> nkeeps (modify f).
Proof. intros Hf d y d' [= _ <-]. apply Hf. Qed.

Ltac nkeeps_tac :=
  repeat first
    [ apply nkeeps_fkeeps; solve [eauto 1 with fkeeps]
    | apply nkeeps_bind; [| intros ?]
    | apply nkeeps_modify; intros ?; by repeat case_match
    | match goal with
      | |- nkeeps (match ?x with _ => _ end) => destruct x
      | |- nkeeps (if ?x then _ else _) => destruct x
      end ].

Lemma nkeeps_removeEntry p : nkeeps (removeDirEntryTx p).
Proof. unfold removeDirEntryTx, deleteEntryTx. nkeeps_tac. Qed.

Lemma nkeeps_rewriteEntries from to k rev : nkeeps (rewriteRenameDirEntriesTx from to k rev).
Proof.
  unfold rewriteRenameDirEntriesTx, deleteEntryTx, insertEntryOrIgnoreTx.
  destruct (splitParentName from), (splitParentName to). nkeeps_tac.
Qed.

(** The nodes without a destination that is one of them. *)
Definition links_without (to : gostr) (k : nodeKind) (d : tdb) : gmap gostr slrow :=
  if decide (k = nodeSymlink) then delete to (symlinks d) else symlinks d.
Definition specials_without (to : gostr) (k : nodeKind) (d : tdb) : gmap gostr snrow :=
  if decide (k = nodeSpecial) then delete to (special_nodes d) else special_nodes d.

Lemma deleteDestTx_nodes to k rev d u d' :
  deleteDestTx to k rev d = Ok (u, d') -> nodes d' = (links_without to k d, specials_without to k d).
Proof.
  unfold deleteDestTx, links_without, specials_without.
  intros (u1 & d1 & H1 & H%nkeeps_removeEntry)%tx_bind_Ok. rewrite H. clear H.
  destruct k; [by apply tx_ret_Ok in H1 as [_ <-] | | by injection H1 as [= _ <-] | by injection H1 as [= _ <-]
    | by apply tx_ret_Ok in H1 as [_ <-]].
  match type of H1 with ?t _ = _ => assert (nkeeps t) as K by (unfold restampTx; nkeeps_tac) end.
  by apply K in H1.
Qed.

Section rename.
Context {MP : MsgPack} (now : Z).

(** The move behind a committed rename, and the node tables around it. *)
Lemma renameTx_nodes from to vf vt nr sid al ag d nv e rev d' :
  renameTx now from to vf vt nr sid al ag d = Ok (Commit nv e rev, d') ->
  from <> to /\
  (resolveKind from d = nodeDir -> resolveKind to d = nodeAbsent \/ resolveKind to d = nodeDir) /\
  exists i d3 u d4,
    nodes d3 = (links_without to (resolveKind to d) d, specials_without to (resolveKind to d) d) /\
    moveRenameSourceTx now from to (resolveKind from d) nv i rev d3 = Ok (u, d4) /\ nodes d' = nodes d4.
Proof using Type.
  intros H. unfold renameTx in H.
  apply tx_bind_Ok in H as (sk & ? & [= <- <-] & H).
  apply tx_bind_Ok in H as (u1 & ? & [_ ->]%require_Ok & H).
  case_decide as Hne; [apply tx_bind_Ok in H as (u2 & ? & _ & H); by apply tx_ret_Ok in H as [? _] |].
  split; [done |].
  apply tx_bind_Ok in H as ([dk dv] & d1 & H1 & H).
  apply resolveRenameDestTx_Ok in H1 as (-> & -> & -> & _ & Hdir & _ & _).
  split; [intros Hk; destruct (Hdir Hk) as [|[? _]]; auto |].
  apply tx_bind_Ok in H as (u3 & d1 & H1 & H).
  rewrite checkParentExists_eq in H1. destruct (parent_ok to d); [| done]. injection H1 as _ <-.
  apply tx_bind_Ok in H as (src & d1 & H1 & H).
  assert (d1 = d) as ->.
  { destruct (decide (resolveKind from d = nodeRegular)); [| by apply tx_ret_Ok in H1 as [_ <-]].
    apply tx_bind_Ok in H1 as (r & d2 & H2 & H1). apply tx_ret_Ok in H1 as [_ <-].
    unfold readRenameSourceTx in H2. apply tx_bind_Ok in H2 as (? & ? & [= <- <-] & H2).
    destruct (manifests d !! from); [| done].
    apply tx_bind_Ok in H2 as (? & ? & [_ ->]%require_Ok & H2). by apply tx_ret_Ok in H2 as [_ <-]. }
  clear H1. apply tx_bind_Ok in H as (di & ? & [= <- <-] & H).
  destruct (same_inode src _); [by apply tx_ret_Ok in H as [? _] |].
  apply tx_bind_Ok in H as (rev' & d1 & [-> ->]%allocChangeRev_Ok & H).
  apply tx_bind_Ok in H as (u4 & d2 & H2 & H).
  apply tx_bind_Ok in H as ([nv' e'] & d3 & H3 & H).
  apply (nkeeps_fkeeps _ (fkeeps_journalRename _ _ _ _ _ _ _ _ _)) in H3.
  apply tx_bind_Ok in H as (u5 & d4 & H4 & H).
  apply tx_bind_Ok in H as (u6 & d5 & H5%nkeeps_rewriteEntries & H).
  apply tx_bind_Ok in H as (u7 & d6 & [= _ <-] & H).
  apply tx_bind_Ok in H as (u8 & d7 & [= _ <-] & H).
  apply tx_ret_Ok in H as [[= -> _ <-] <-].
  eexists _, d3, u5, d4. split; [| split; [exact H4 |]].
  - rewrite H3. destruct (decide (resolveKind to d = nodeAbsent)) as [Ha|_].
    + apply tx_ret_Ok in H2 as [_ <-]. by rewrite Ha.
    + by apply deleteDestTx_nodes in H2.
  - by rewrite <- H5.
Qed.

(** The source of a rename, seen from its kind. *)
Lemma resolveKind_node p d :
  match resolveKind p d with
  | nodeSymlink => is_Some (symlinks d !! p)
  | nodeSpecial => is_Some (special_nodes d !! p)
  | _ => True
  end.
Proof using Type.
  unfold resolveKind, present. repeat (case_bool_decide; [done |]). by repeat case_match.
Qed.

(** The rows of a directory's subtree can be told by its name alone. *)
Definition clear_subtree (from : gostr) (d : tdb) : Prop :=
  plain from /\ no_wildcard from /\ unambiguous from (manifests d) /\
  unambiguous from (symlinks d) /\ unambiguous from (special_nodes d).

(** The promise of a rename from [d] and [a] to [d'] and [a'] at revision [rev]. *)
Definition renamed (from to : gostr) (vf nv rev : Z) (d : tdb) (a : afs) (d' : tdb) (a' : afs) : Prop :=
  let k := resolveKind to d in
  let a1 := without_dest to k a in
  match resolveKind from d with
  | nodeRegular =>
      (exists i x, names a !! from = Some i /\ inodes a !! i = Some x /\ i_version x = vf /\
         names a !! to <> Some i /\ nv = u64 (version_at to d + 1) /\
         a' = spec_write i (with_version nv x) (spec_move from to a1)) /\
      symlinks d' = links_without to k d /\ special_nodes d' = specials_without to k d
  | nodeSymlink =>
      a' = a1 /\ special_nodes d' = specials_without to k d /\
      exists r, symlinks d !! from = Some r /\
        symlinks d' = <[to := set_sl_rev rev r]> (delete from (links_without to k d))
  | nodeSpecial =>
      a' = a1 /\ symlinks d' = links_without to k d /\
      exists r, special_nodes d !! from = Some r /\
        special_nodes d' = <[to := set_sn_rev rev r]> (delete from (specials_without to k d))
  | nodeDir =>
      (k = nodeAbsent \/ k = nodeDir) /\ inodes a' = inodes a /\
      tree_moved from to id (names a) (names a') /\
      tree_moved from to (set_sl_rev rev) (symlinks d) (symlinks d') /\
      tree_moved from to (set_sn_rev rev) (special_nodes d) (special_nodes d')
  | nodeAbsent => False
  end.

Lemma moveDir_nodes from to nv i rev d u d' :
  moveRenameSourceTx now from to nodeDir nv i rev d = Ok (u, d') ->
  rekey (reparent_match from) (reparent_key from to) (set_sl_rev rev) (symlinks d) = Some (symlinks d') /\
  rekey (reparent_match from) (reparent_key from to) (set_sn_rev rev) (special_nodes d) = Some (special_nodes d').
Proof using Type.
  simpl. unfold reparentDescendantsTx. intros H.
  apply tx_bind_Ok in H as (? & d1 & [= _ <-] & H).
  apply tx_bind_Ok in H as (? & d2 & (m & _ & ->)%rekeyTx_Ok & H).
  apply tx_bind_Ok in H as (? & d3 & (ml & Hl & ->)%rekeyTx_Ok & H).
  apply tx_bind_Ok in H as (? & d4 & (mn & Hn & ->)%rekeyTx_Ok & H).
  apply tx_bind_Ok in H as (? & d5 & (? & _ & ->)%rekeyTx_Ok & H).
  apply tx_bind_Ok in H as (? & d6 & (? & _ & ->)%rekeyTx_Ok & [= _ <-]).
  done.
Qed.

Lemma names_unambiguous from d a : Inv d a -> unambiguous from (manifests d) -> unambiguous from (names a).
Proof using Type.
  intros I Hu q r i (s & Hs & _)%(inv_name_row d a I). by eapply Hu.
Qed.

(** C31: a rename that commits moves its source and nothing else.  A file's inode
    moves to the new name at the displaced version plus one under all its names; a
    symlink's or special node's row moves with its contents; of a directory (whose
    name is plain ASCII without [%] and [_], and from which no other name differs
    only in case) exactly the files, symlinks and special nodes below it get the new
    prefix, with the same contents.  A displaced file loses its name (and its chunks
    with its last name), a displaced symlink or special node its row, a displaced
    directory was empty, and the reference counts are exact again. *)
Theorem Rename_refines from to vf vt nr sid al ag s a nv e rev d' :
  Inv (st_db s) a ->
  (resolveKind from (st_db s) = nodeDir -> clear_subtree from (st_db s)) ->
  renameTx now from to vf vt nr sid al ag (st_db s) = Ok (Commit nv e rev, d') ->
  exists a', renamed from to vf nv rev (st_db s) a d' a' /\ Inv d' a'.
Proof using Type.
  intros I Hc H. destruct (renameTx_nodes _ _ _ _ _ _ _ _ _ _ _ _ _ H) as (Hne & Hto & i & d3 & u & d4 & H3 & Hm & H4).
  destruct (renameTx_refines now _ _ _ _ _ _ _ _ _ _ _ _ _ _ I H) as (a' & Hs & I').
  exists a'. split; [| done]. unfold renamed, rename_spec in *. set (d := st_db s) in *.
  injection H3 as [= Hl3 Hn3]. injection H4 as [= Hl4 Hn4]. pose proof (resolveKind_node from d) as Hk.
  rewrite Hl4, Hn4. clear Hl4 Hn4. destruct (resolveKind from d) eqn:Ek; [done | | | |].
  - split; [exact Hs |]. simpl in Hm. apply tx_bind_Ok in Hm as (? & ? & (m & _ & ->)%rekeyTx_Ok & Hm).
    apply tx_bind_Ok in Hm as (? & ? & [_ ->]%require_Ok & Hm). injection Hm as [= _ <-]. done.
  - destruct Hk as [r Hr]. simpl in Hm. apply rekeyTx_Ok in Hm as (m & Hm & ->).
    split; [done |]. split; [done |]. exists r. split; [done |]. rewrite <- Hl3.
    apply (move_row_Some _ _ _ _ _ _ Hm); [| done]. rewrite Hl3. unfold links_without.
    case_decide; [by rewrite lookup_delete_ne by congruence | done].
  - destruct Hk as [r Hr]. simpl in Hm. apply rekeyTx_Ok in Hm as (m & Hm & ->).
    split; [done |]. split; [done |]. exists r. split; [done |]. rewrite <- Hn3.
    apply (move_row_Some _ _ _ _ _ _ Hm); [| done]. rewrite Hn3. unfold specials_without.
    case_decide; [by rewrite lookup_delete_ne by congruence | done].
  - destruct (Hc eq_refl) as (Hp & Hw & Um & Us & Un). specialize (Hto eq_refl).
    destruct Hs as [_ Hs]. split; [done |].
    destruct (reparented_tree from to a a' Hp Hw (names_unambiguous _ _ _ I Um) Hs) as [Hi Ht].
    split; [done |]. split; [done |]. apply moveDir_nodes in Hm as [Hl Hn]. rewrite Hl3 in Hl. rewrite Hn3 in Hn.
    assert (links_without to (resolveKind to d) d = symlinks d /\
      specials_without to (resolveKind to d) d = special_nodes d) as [El En]
      by (unfold links_without, specials_without; by destruct Hto as [-> | ->]).
    rewrite El in Hl. rewrite En in Hn. split; by apply rekey_tree.
Qed.
End rename.

(** ** A witness *)

Lemma unambiguous_empty {A} (from : gostr) : unambiguous from (∅ : gmap gostr A).
Proof. intros q r x H. by rewrite lookup_empty in H. Qed.

Lemma listed_key {A} (m : gmap gostr A) q x : m !! q = Some x -> q ∈ (map_to_list m).*1.
Proof. intros H. apply list_elem_of_fmap. exists (q, x). by rewrite elem_of_map_to_list. Qed.

Lemma store4_rows q r : manifests (st_db store4) !! q = Some r -> q = str "/a" \/ q = str "/d/f".
Proof.
  intros H. assert ((map_to_list (manifests (st_db store4))).*1 = [str "/d/f"; str "/a"] \/
    (map_to_list (manifests (st_db store4))).*1 = [str "/a"; str "/d/f"]) as E
    by (vm_compute; auto).
  pose proof (listed_key _ q r H) as Hq. clear H.
  destruct E as [E|E]; rewrite E, !elem_of_cons, elem_of_nil in Hq; tauto.
Qed.

Lemma store4_clear : clear_subtree (str "/d") (st_db store4).
Proof.
  split; [repeat constructor |]. split; [repeat constructor; discriminate |].
  assert (symlinks (st_db store4) = ∅ /\ special_nodes (st_db store4) = ∅) as [-> ->]
    by (split; vm_compute; reflexivity).
  split; [| split; apply unambiguous_empty].
  intros q r x [E|E]%store4_rows Hci; apply Forall2_length in Hci;
    destruct q as [|c1 [|c2 [|c3 q]]]; try discriminate.
  simpl in E. injection E as <- <- _. reflexivity.
Qed.

Lemma Rename_refines_witness :
  exists a', Inv (commit_of rename_de emptyDB) a' /\ names a' !! str "/e/f" = Some 2.
Proof.
  destruct store4_Inv as [a I].
  destruct (Rename_refines (MP := flat_msgpack) 9 (str "/d") (str "/e") 0 0 false [] [] [] store4 a 1 None 4
    (commit_of rename_de emptyDB)) as (a' & H & I').
  - exact I.
  - intros _. exact store4_clear.
  - vm_compute. reflexivity.
  - exists a'. split; [exact I' |]. unfold renamed in H.
    assert (resolveKind (str "/d") (st_db store4) = nodeDir) as E by (vm_compute; reflexivity).
    rewrite E in H. destruct H as (_ & _ & H & _). apply H. left. exists (str "f"), 2.
    rewrite (store4_names a I). split; [vm_compute; reflexivity |]. split; reflexivity.
Defined.
