(* ===== verification/Revs.v ===== *)
(** * Revisions stay below the counter

    No row of the feed carries a revision above the tenant's counter: a mirror
    at the counter has seen every row. *)

From S2P Require Import Prelude GoPath Codec TenantDB Journal Manifests FileSpec Refine Changes ChunkStore Gc Disk Track.

Record revs_ok (d : tdb) : Prop := {
  ro_pos : 0 <= last_rev d;
  ro_files : map_Forall (fun _ x => m_rev x <= last_rev d) (manifests d);
  ro_symlinks : map_Forall (fun _ x => sl_rev x <= last_rev d) (symlinks d);
  ro_special : map_Forall (fun _ x => sn_rev x <= last_rev d) (special_nodes d);
  ro_entries : map_Forall (fun _ x => de_rev x <= last_rev d) (dir_entries d);
  ro_tombstones : map_Forall (fun _ x => 0 <= ts_rev x <= last_rev d) (change_tombstones d) }.

Lemma revs_ok_feed d r : revs_ok d -> r ∈ feed_rows d -> f_rev r <= last_rev d.
Proof.
  intros [_ Hm Hs Hn Hd Ht] Hr. apply elem_of_feed_rows in Hr.
  destruct Hr as [(p & x & H & ->)|[(p & x & H & ->)|[(p & x & H & ->)|[(k & x & H & _ & ->)|(p & x & H & ->)]]]]; simpl.
  - exact (Hm p x H).
  - exact (Hs p x H).
  - exact (Hn p x H).
  - exact (Hd k x H).
  - exact (proj2 (Ht p x H)).
Qed.

Lemma revs_ok_small d : revs_ok d -> last_rev d < 2 ^ 63 -> small_revs d.
Proof. intros R Hb q t Hq. pose proof (ro_tombstones _ R q t Hq) as Ht. simpl in Ht. lia. Qed.

(** ** Transactions that respect the counter

    [lo] is a revision the transaction may write: one it was given. *)
Definition bnd {A} (lo : Z) (t : tx A) : Prop :=
  forall d x d', revs_ok d -> 0 <= lo <= last_rev d -> t d = Ok (x, d') ->
    revs_ok d' /\ last_rev d <= last_rev d'.

Section bnd.
Context (lo : Z).

Lemma bnd_bind {A B} (m : tx A) (k : A -> tx B) : bnd lo m -> (forall x, bnd lo (k x)) -> bnd lo (m ≫= k).
Proof.
  intros Hm Hk d y d' R Hlo H. apply tx_bind_Ok in H as (x & d1 & H1 & H2).
  destruct (Hm _ _ _ R Hlo H1) as [R1 L1]. destruct (Hk x d1 y d' R1 ltac:(lia) H2). split; [done | lia].
Qed.

(** After the counter is advanced the new revision may be written. *)
Lemma bnd_alloc {B} (k : Z -> tx B) : (forall rev, bnd rev (k rev)) -> bnd lo (rev ← allocChangeRevTx; k rev).
Proof.
  intros Hk d y d' R Hlo H. apply tx_bind_Ok in H as (rev & d1 & [-> ->]%allocChangeRev_Ok & H).
  assert (revs_ok (set_last_rev (last_rev d + 1) d)) as R1.
  { destruct R as [? Hm Hs Hn Hd Ht]. split; simpl; [lia | | | | |];
      (eapply map_Forall_impl; [eassumption |]); intros ? ? ?; simpl in *; lia. }
  destruct (Hk (last_rev d + 1) _ y d' R1 ltac:(simpl; lia) H) as [R2 L2]. simpl in L2. split; [done | lia].
Qed.

Lemma bnd_ret {A} (x : A) : bnd lo (mret x : tx A).
Proof. intros d y d' R _ [_ <-]%tx_ret_Ok. split; [done | lia]. Qed.
Lemma bnd_query {A} (f : tdb -> A) : bnd lo (query f).
Proof. intros d y d' R _ [= _ <-]. split; [done | lia]. Qed.
Lemma bnd_throw {A} e : bnd lo (throw e : tx A).
Proof. by intros d y d'. Qed.
Lemma bnd_require b e : bnd lo (require b e).
Proof. intros d y d' R _ [_ <-]%require_Ok. split; [done | lia]. Qed.

Lemma fcore_revs d d' : fcore d' = fcore d -> revs_ok d -> revs_ok d' /\ last_rev d <= last_rev d'.
Proof.
  intros (Hm & Hs & Hn & Hd & Ht & Hr & _)%fcore_inv [? ? ? ? ? ?]. split; [| lia].
  split; rewrite ?Hr, ?Hm, ?Hs, ?Hn, ?Hd, ?Ht; done.
Qed.

Lemma bnd_fkeeps {A} (t : tx A) : fkeeps t -> bnd lo t.
Proof. intros Hk d x d' R _ H. apply Hk in H. by apply fcore_revs. Qed.

Lemma bnd_modify f :
  (forall d, revs_ok d -> 0 <= lo <= last_rev d -> revs_ok (f d) /\ last_rev d <= last_rev (f d)) ->
  bnd lo (modify f).
Proof. intros H d x d' R Hlo [= _ <-]. by apply H. Qed.

Lemma bnd_rekeyTx {A} (r : tdb -> option A) put :
  (forall d m, revs_ok d -> 0 <= lo <= last_rev d -> r d = Some m -> revs_ok (put m d) /\ last_rev d <= last_rev (put m d)) ->
  bnd lo (rekeyTx r put).
Proof. intros H d x d' R Hlo (m & Hm & ->)%rekeyTx_Ok. by apply H. Qed.
End bnd.

(** ** Statements *)

Section stmts.
Context (d : tdb) (R : revs_ok d).

Lemma revs_set_manifests m :
  map_Forall (fun _ x => m_rev x <= last_rev d) m -> revs_ok (set_manifests m d) /\ last_rev d <= last_rev d.
Proof using R. intros H. destruct R. split; [by split | lia]. Qed.
Lemma revs_set_symlinks m :
  map_Forall (fun _ x => sl_rev x <= last_rev d) m -> revs_ok (set_symlinks m d) /\ last_rev d <= last_rev d.
Proof using R. intros H. destruct R. split; [by split | lia]. Qed.
Lemma revs_set_special m :
  map_Forall (fun _ x => sn_rev x <= last_rev d) m -> revs_ok (set_special_nodes m d) /\ last_rev d <= last_rev d.
Proof using R. intros H. destruct R. split; [by split | lia]. Qed.
Lemma revs_set_entries m :
  map_Forall (fun _ x => de_rev x <= last_rev d) m -> revs_ok (set_dir_entries m d) /\ last_rev d <= last_rev d.
Proof using R. intros H. destruct R. split; [by split | lia]. Qed.
Lemma revs_set_tombstones m :
  map_Forall (fun _ x => 0 <= ts_rev x <= last_rev d) m ->
  revs_ok (set_change_tombstones m d) /\ last_rev d <= last_rev d.
Proof using R. intros H. destruct R. split; [by split | lia]. Qed.
End stmts.

Lemma map_Forall_rekey `{Countable K} {A} (P : A -> Prop) c (nk : K -> K) f (m m' : gmap K A) :
  rekey c nk f m = Some m' -> map_Forall (fun _ x => P x) m -> (forall x, P x -> P (f x)) ->
  map_Forall (fun _ x => P x) m'.
Proof.
  intros Hk Hm Hf k x Hx. apply (rekey_lookup _ _ _ _ _ _ _ Hk) in Hx
    as [(k0 & x0 & Hx0 & _ & _ & ->)|[Hx _]]; [apply Hf |]; by eapply Hm.
Qed.

Lemma map_Forall_tombstone_all (P : tsrow -> Prop) ps row t :
  map_Forall (fun _ x => P x) t -> P row -> map_Forall (fun _ x => P x) (tombstone_all ps row t).
Proof.
  intros Ht Hr. unfold tombstone_all. induction ps as [|p ps IH]; [done |]. simpl.
  by apply map_Forall_insert_2.
Qed.

Lemma map_Forall_filtered `{Countable K} {A} (P : A -> Prop) (Q : K * A -> Prop) `{!forall x, Decision (Q x)} (m : gmap K A) :
  map_Forall (fun _ x => P x) m -> map_Forall (fun _ x => P x) (filter Q m).
Proof. intros Hm k x [Hx _]%map_lookup_filter_Some. by eapply Hm. Qed.

(** [bnd_tac] checks the statements of a transaction one by one. *)
Ltac revs_row :=
  simpl; first [ lia | done | match goal with H : forall v s, _ = v |- _ => rewrite H; lia end ].

Ltac revs_map :=
  repeat first
    [ apply map_Forall_insert_2; [revs_row |]
    | apply map_Forall_delete
    | apply map_Forall_filtered
    | apply map_Forall_tombstone_all; [| revs_row]
    | eapply map_Forall_rekey; [eassumption | | intros ? ?; revs_row] ];
  eassumption.

Ltac revs_stmt :=
  match goal with R : revs_ok ?d |- _ =>
    first [ apply (revs_set_manifests d R) | apply (revs_set_symlinks d R) | apply (revs_set_special d R)
          | apply (revs_set_entries d R) | apply (revs_set_tombstones d R) ];
    destruct R
  end; revs_map.

Lemma bnd_update lo i f : (forall r, m_rev (f r) = lo) -> bnd lo (modify (update_inode i f)).
Proof.
  intros Hf. apply bnd_modify. intros d R Hlo. apply (revs_set_manifests d R). destruct R as [_ Hm _ _ _ _].
  intros p x Hx. rewrite lookup_fmap in Hx. apply fmap_Some in Hx as (y & Hy & ->).
  simpl. case_decide; [rewrite Hf; lia | by eapply Hm].
Qed.

Lemma bnd_insertEntryOrIgnore lo parent name : bnd lo (insertEntryOrIgnoreTx parent name).
Proof.
  apply bnd_modify. intros d R Hlo. destruct (has_entry parent name d); [split; [done | lia] |]. revs_stmt.
Qed.

Create HintDb bnd.
#[export] Hint Resolve bnd_ret bnd_query bnd_throw bnd_require bnd_insertEntryOrIgnore : bnd.

Ltac bnd_tac :=
  repeat first
    [ progress eauto 1 with bnd
    | apply bnd_fkeeps; solve [eauto 1 with fkeeps]
    | apply bnd_alloc; intros ?
    | apply bnd_rekeyTx; intros ? ? ? ? ?; cbv beta in *; solve [revs_stmt]
    | apply bnd_bind; [| intros ?]
    | apply bnd_update; intros ?; reflexivity
    | apply bnd_modify; intros ? ? ?; solve [revs_stmt]
    | match goal with
      | |- bnd _ (match ?x with _ => _ end) => destruct x
      | |- bnd _ (if ?x then _ else _) => destruct x
      end ].

Section bnd_ops.
Context {MP : MsgPack} (now : Z).

Lemma bnd_putTx p v mf sid al ag : bnd 0 (putTx now p v mf sid al ag).
Proof using Type.
  unfold putTx, insertManifestTx, updateManifestTx, clearTombstoneTx, bind_u64. bnd_tac.
Qed.

Lemma bnd_linkTx from to sid al ag : bnd 0 (linkTx now from to sid al ag).
Proof using Type.
  unfold linkTx, resolveKindTx, restampTx, clearTombstoneTx, insertEntryTx. bnd_tac.
Qed.

Lemma bnd_removeEntry lo p : bnd lo (removeDirEntryTx p).
Proof using Type. unfold removeDirEntryTx, deleteEntryTx. bnd_tac. Qed.
Hint Resolve bnd_removeEntry : bnd.

Lemma bnd_deleteTx p v sid al ag : bnd 0 (deleteTx now p v sid al ag).
Proof using Type. unfold deleteTx, restampTx, upsertTombstoneTx. bnd_tac. Qed.

Lemma bnd_deleteSymlinkTx p : bnd 0 (deleteSymlinkTx now p).
Proof using Type. unfold deleteSymlinkTx, unlinkEntryTx, upsertTombstoneTx. bnd_tac. Qed.

Lemma bnd_deleteSpecialNodeTx p : bnd 0 (deleteSpecialNodeTx now p).
Proof using Type. unfold deleteSpecialNodeTx, unlinkEntryTx, upsertTombstoneTx. bnd_tac. Qed.

Lemma bnd_deleteDestTx to k rev : bnd rev (deleteDestTx to k rev).
Proof using Type. unfold deleteDestTx, restampTx. bnd_tac. Qed.
Hint Resolve bnd_deleteDestTx : bnd.

Lemma bnd_moveSource from to k nv i rev : bnd rev (moveRenameSourceTx now from to k nv i rev).
Proof using Type.
  unfold moveRenameSourceTx, reparentDescendantsTx, tombstoneSubtreeTx, clearTombstoneSubtreeTx, bind_u64, move_row.
  bnd_tac.
Qed.
Hint Resolve bnd_moveSource : bnd.

Lemma bnd_renameTx from to vf vt nr sid al ag : bnd 0 (renameTx now from to vf vt nr sid al ag).
Proof using Type.
  unfold renameTx, resolveRenameDestTx, readRenameSourceTx, resolveKindTx, rewriteRenameDirEntriesTx,
    upsertTombstoneTx, clearTombstoneTx, deleteEntryTx. bnd_tac.
Qed.

Lemma bnd_DirCreateTx p mode : bnd 0 (DirCreateTx p mode).
Proof using Type. unfold DirCreateTx, insertEntryTx, clearTombstoneTx. bnd_tac. Qed.

Lemma bnd_SymlinkTx p target mode : bnd 0 (SymlinkTx p target mode).
Proof using Type. unfold SymlinkTx, insertEntryTx, clearTombstoneTx. bnd_tac. Qed.

Lemma bnd_MknodTx p mode rdev : bnd 0 (MknodTx p mode rdev).
Proof using Type. unfold MknodTx, insertEntryTx, clearTombstoneTx, bind_u64. bnd_tac. Qed.

Lemma bnd_DirRemoveTx p : bnd 0 (DirRemoveTx now p).
Proof using Type. unfold DirRemoveTx, deleteEntryTx, upsertTombstoneTx. bnd_tac. Qed.

Lemma bnd_setMetaTx fm fs fn fd p :
  (forall v s, m_rev (fm v s) = v) -> (forall v s, sl_rev (fs v s) = v) ->
  (forall v s, sn_rev (fn v s) = v) -> (forall v s, de_rev (fd v s) = v) ->
  bnd 0 (setMetaTx fm fs fn fd p).
Proof using Type.
  intros Hm Hs Hn Hd. unfold setMetaTx. bnd_tac. apply bnd_update. intros r. apply Hm.
Qed.

Lemma bnd_setModeTx p mode : bnd 0 (setModeTx p mode).
Proof using Type. unfold setModeTx. bnd_tac. Qed.

Lemma revs_run_tx {A} (t : tx (outcome A)) d : bnd 0 t -> revs_ok d -> revs_ok (db_of (run_tx t) d).
Proof using Type.
  intros Hb R. unfold db_of, run_tx. simpl. destruct (t d) as [[[x e rev|x] d']|e] eqn:E; simpl; try done.
  pose proof (ro_pos _ R). apply (Hb d (Commit x e rev) d' R ltac:(lia) E).
Qed.

Lemma revs_Delete p v sid al ag d : revs_ok d -> revs_ok (db_of (Delete now p v sid al ag) d).
Proof using Type.
  intros R. unfold db_of, Delete, fail. case_decide; [done |]. set (s := mkStore d None None None).
  pose proof (revs_run_tx _ d (bnd_deleteSpecialNodeTx p) R) as R1.
  unfold deleteSpecialNode, db_of in *. fold s in R1.
  destruct (run_tx (deleteSpecialNodeTx now p) s) as [[u|e] s1] eqn:E1; [done |].
  apply run_tx_Err in E1 as [-> _]. destruct e; try done.
  pose proof (revs_run_tx _ d (bnd_deleteSymlinkTx p) R) as R2.
  unfold deleteSymlink, db_of in *. fold s in R2.
  destruct (run_tx (deleteSymlinkTx now p) s) as [[u|e] s2] eqn:E2; [done |].
  apply run_tx_Err in E2 as [-> _]. destruct e; try done.
  by apply (revs_run_tx _ d (bnd_deleteTx p v sid al ag)).
Qed.

Lemma revs_prune cutoff d : revs_ok d -> revs_ok (pruneTombstones cutoff d).2.
Proof using Type.
  intros R. unfold pruneTombstones. destruct (max_pruned cutoff d); [| done]. destruct R. split; try done.
  by apply map_Forall_filtered.
Qed.

(** Every request of the tenant database keeps its revisions below the counter. *)
Lemma execDb_revs r d : revs_ok d -> revs_ok (execDb now r d).
Proof using Type.
  intros R. destruct r; simpl.
  - unfold db_of, Link, fail. case_decide; [done |]. by apply (revs_run_tx _ d (bnd_linkTx _ _ _ _ _)).
  - by apply revs_Delete.
  - unfold db_of, renameOpt, fail. case_decide; [done |].
    by apply (revs_run_tx _ d (bnd_renameTx _ _ _ _ _ _ _ _)).
  - apply revs_run_tx; [by apply bnd_DirCreateTx | done].
  - apply revs_run_tx; [by apply bnd_SymlinkTx | done].
  - apply revs_run_tx; [by apply bnd_MknodTx | done].
  - apply revs_run_tx; [by apply bnd_DirRemoveTx | done].
  - apply revs_run_tx; [by apply bnd_setMetaTx | done].
  - apply revs_run_tx; [by apply bnd_setMetaTx | done].
  - destruct (Get p d) as [|[]]; try done. apply revs_run_tx; [by apply bnd_setModeTx | done].
  - by apply revs_prune.
Qed.
End bnd_ops.
