(* ===== verification/ChangeProps.v ===== *)
(** * Properties of the change feed

    A mirror that follows the feed sees every mutation of the tenant's tree; a
    catch-up from a valid cursor delivers exactly the rows after it; pruning
    takes away only rows that no valid cursor still needs; the doorbell never
    announces less than what was committed. *)

From S2P Require Import Prelude GoPath Codec TenantDB Journal Manifests FileSpec Refine Changes ManifestProps ChunkStore Gc Disk GcProps Track Revs.

(** ** The transactions the feed follows *)

(** The paths of a request. *)
Definition req_paths (r : dbreq) : list gostr :=
  match r with
  | RLink from to _ _ _ | RRename from to _ _ _ _ _ _ => [from; to]
  | RDelete p _ _ _ _ | RDirCreate p _ | RSymlink p _ _ | RMknod p _ _ | RDirRemove p
  | RSetOwner p _ _ | RSetAtime p _ | RSetModeNode p _ => [p]
  | RPrune _ => []
  end.

(** The commits on the tenant database: a manifest write, any other request, the
    two transactions of a purge, the row deletions of a sweep and the note of an
    uploaded chunk. *)
Inductive tev :=
| TPut (now : Z) (p : gostr) (v : Z) (mf : Manifest) (sid al ag : gostr)
| TReq (now : Z) (r : dbreq)
| TPurge (now : Z) (ag : gostr)
| TPurgeRows (hs : gset hash)
| TSweepRows (cutoff : Z) (cands : list gcCandidate)
| TNote (h : hash) (size at_ : Z).

Section feed.
Context {MP : MsgPack}.

(** What a commit, or a refusal, makes of the database. *)
Definition texec (e : tev) (d : tdb) : tdb :=
  match e with
  | TPut now p v mf sid al ag => db_of (run_tx (putTx now p v mf sid al ag)) d
  | TReq now r => execDb now r d
  | TPurge now ag =>
      if agentIDRe ag then match purgeTx now ag d with Ok (_, d') => d' | Err _ => d end else d
  | TPurgeRows hs => match deletePurgedChunkRows (elements hs) d with Some (_, d') => d' | None => d end
  | TSweepRows cutoff cands => (deleteGCBatch cutoff cands d).2
  | TNote h size at_ => match NoteChunkStored h size at_ d with Ok (_, d') => d' | Err _ => d end
  end.

(** The commits the feed follows.  Paths are clean and chunk references well formed,
    a directory is created where no other node hides it, no purge runs on an agent
    with a hard-linked file, revisions fit a SQLite integer, and no directory is
    renamed (see [rename_dir_loses_deletion]). *)
Definition followed (e : tev) (d : tdb) : Prop :=
  match e with
  | TPut _ p _ mf _ _ _ => own_entry p /\ Forall wf_ref (mf_Chunks mf)
  | TReq _ r =>
      Forall own_entry (req_paths r) /\
      match r with
      | RDirCreate p _ => manifests d !! p = None /\ symlinks d !! p = None /\ special_nodes d !! p = None
      | RRename from _ _ _ _ _ _ _ => resolveKind from d <> nodeDir
      | RPrune _ => last_rev d < 2 ^ 63
      | _ => True
      end
  | TPurge _ ag => forall p, in_subtree_sql (agent_prefix ag) p = true -> sole d p
  | TPurgeRows _ | TSweepRows _ _ | TNote _ _ _ => True
  end.

Definition tstep (d d' : tdb) : Prop := exists e, followed e d /\ d' = texec e d.

Lemma run_tx_tracks {A} (t : tx (outcome A)) d :
  (forall x e rev d', t d = Ok (Commit x e rev, d') -> tracks d d') -> tracks d (db_of (run_tx t) d).
Proof using Type.
  intros H. unfold db_of, run_tx. simpl. destruct (t d) as [[[x e rev|x] d']|e] eqn:E; simpl.
  - by eapply H.
  - apply tracks_refl.
  - apply tracks_refl.
Qed.

Lemma Delete_tracks now p v sid al ag d : own_entry p -> tracks d (db_of (Delete now p v sid al ag) d).
Proof using Type.
  intros Ho. unfold db_of, Delete, fail. case_decide; [apply tracks_refl |].
  set (s := mkStore d None None None).
  pose proof (run_tx_tracks (deleteSpecialNodeTx now p) d) as T1.
  unfold deleteSpecialNode, db_of in *. fold s in T1.
  destruct (run_tx (deleteSpecialNodeTx now p) s) as [[u|e] s1] eqn:E1.
  { apply T1. intros. by eapply deleteSpecialNodeTx_tracks. }
  apply run_tx_Err in E1 as [-> _]. destruct e; try apply tracks_refl.
  pose proof (run_tx_tracks (deleteSymlinkTx now p) d) as T2.
  unfold deleteSymlink, db_of in *. fold s in T2.
  destruct (run_tx (deleteSymlinkTx now p) s) as [[u|e] s2] eqn:E2.
  { apply T2. intros. by eapply deleteSymlinkTx_tracks. }
  apply run_tx_Err in E2 as [-> _]. destruct e; try apply tracks_refl.
  apply (run_tx_tracks (deleteTx now p v sid al ag) d). intros. by eapply deleteTx_tracks.
Qed.

Lemma execDb_tracks now r d :
  revs_ok d -> followed (TReq now r) d -> tracks d (execDb now r d).
Proof using Type.
  intros R [Hp Hf]. destruct r; simpl in *; decompose_Forall.
  - unfold db_of, Link, fail. case_decide; [apply tracks_refl |].
    apply run_tx_tracks. intros. by eapply linkTx_tracks.
  - by apply Delete_tracks.
  - unfold db_of, renameOpt, fail. case_decide; [apply tracks_refl |].
    apply run_tx_tracks. intros x e rev d' E. eapply renameTx_tracks; [| | | exact E]; done.
  - destruct Hf as (? & ? & ?). apply run_tx_tracks. intros. by eapply DirCreateTx_tracks.
  - apply run_tx_tracks. intros. by eapply SymlinkTx_tracks.
  - apply run_tx_tracks. intros. by eapply MknodTx_tracks.
  - apply run_tx_tracks. intros. by eapply DirRemoveTx_tracks.
  - apply run_tx_tracks. intros x e rev d' E. eapply setMetaTx_tracks; [| | | | | exact E]; done.
  - apply run_tx_tracks. intros x e rev d' E. eapply setMetaTx_tracks; [| | | | | exact E]; done.
  - destruct (Get p d) as [|[]] eqn:E; try apply tracks_refl.
    apply run_tx_tracks. intros. eapply setModeTx_tracks; [done | | done].
    unfold Get in E. by destruct (manifests d !! p); [destruct (unpackChunks _) |].
  - by apply pruneTombstones_tracks, revs_ok_small.
Qed.

(** *** Purges *)

Lemma agentIDRe_plain ag : agentIDRe ag = true -> ag <> [] /\ plain (agent_prefix ag).
Proof using Type.
  assert (forall c, is_alnum_ c || (byteval c =? 45) = true -> is_ascii7 c = true) as Ha.
  { intros c. unfold is_alnum_, is_ascii7. rewrite !orb_true_iff, !andb_true_iff. lia. }
  destruct ag as [|c s]; [done |]. cbn [agentIDRe]. rewrite !andb_true_iff. intros [[Hc Hs] _].
  split; [done |]. unfold plain, agent_prefix. simpl. repeat constructor.
  - apply Ha. by rewrite Hc.
  - apply Forall_forall. intros x Hx%list_elem_of_In. rewrite forallb_forall in Hs. auto.
Qed.

(** The entries a purge removes name paths of the agent's subtree. *)
Lemma doomed_entry_path ag k :
  agentIDRe ag = true -> doomed_entry ag k = true -> in_subtree_sql (agent_prefix ag) (full_path k) = true.
Proof using Type.
  intros [Hne Hp]%agentIDRe_plain. destruct k as [parent name]. unfold doomed_entry, in_subtree_sql, full_path. cbn [fst snd].
  rewrite !orb_true_iff, !bool_decide_eq_true, !like_esc_subtree by done. unfold sqlFullPath.
  intros [[-> ->]|[->|(q & r & -> & Hq)]]; [by left | |]; right.
  - rewrite decide_False by by unfold agent_prefix; destruct ag. exists (agent_prefix ag), name.
    split; [done | apply eqci_refl].
  - rewrite decide_False.
    + exists q, (r ++ slash :: name). by rewrite <- app_assoc.
    + apply Forall2_length in Hq. intros E%(f_equal length). rewrite length_app in E. simpl in *. lia.
Qed.

Lemma tombstone_all_lookup ps t m q :
  tombstone_all ps t m !! q = if decide (q ∈ ps) then Some t else m !! q.
Proof using Type.
  induction ps as [|p ps IH]; [done |]. simpl. destruct (decide (q = p)) as [->|Hne].
  - rewrite lookup_insert_eq, decide_True by left. done.
  - rewrite lookup_insert_ne, IH by done. destruct (decide (q ∈ ps)) as [H|H].
    + by rewrite decide_True by by right.
    + rewrite decide_False; [done |]. by intros [|]%elem_of_cons.
Qed.

Lemma purgeTx_tracks now ag d x d' :
  agentIDRe ag = true -> (forall p, in_subtree_sql (agent_prefix ag) p = true -> sole d p) ->
  purgeTx now ag d = Ok (x, d') -> tracks d d'.
Proof using Type.
  intros Hag Hs H. destruct x as [[[nm nj] delta] rev].
  assert (pruned_before_rev d' = pruned_before_rev d) as Hpr.
  { revert H. unfold purgeTx. intros H. tx_inv H. destruct (doomedDelta _ _) as [dl|]; [| done].
    apply tx_ret_Ok in H0 as [-> ->]. injection H2 as [= <- <-].
    apply applyChunkRefDelta_Ok in H1 as [E _]. simpl. by rewrite E. }
  apply purgeTx_Ok in H as (Hm & Hl & Hx & _ & He & -> & Hr & Ht & _).
  apply (only_tracks (fun q => bool_decide (q ∈ subtree_paths (agent_prefix ag) d))).
  - split; [lia | done |]. intros q Hq%bool_decide_eq_false.
    unfold subtree_paths in Hq. rewrite list_elem_of_filter, !elem_of_app in Hq.
    assert (forall A (m : gmap gostr A) y, m !! q = Some y -> q ∈ keys_of m) as Hkey.
    { intros A m y Hy. apply list_elem_of_fmap. exists (q, y). by rewrite elem_of_map_to_list. }
    assert (forall A (m : gmap gostr A), (forall y, m !! q = Some y -> in_subtree_sql (agent_prefix ag) q = false) ->
      filter (fun kr : gostr * A => in_subtree_sql (agent_prefix ag) kr.1 = false) m !! q = m !! q) as Hkeep.
    { intros A m Hin. destruct (m !! q) as [y|] eqn:E; [| by apply map_lookup_filter_None; left].
      apply map_lookup_filter_Some. split; [done |]. by eapply Hin. }
    split; [| by rewrite Ht, tombstone_all_lookup, decide_False by
      (unfold subtree_paths; rewrite list_elem_of_filter, !elem_of_app; tauto)].
    assert (forall r, manifests d !! q = Some r -> in_subtree_sql (agent_prefix ag) q = false) as Hqm.
    { intros r Hqr. apply not_true_is_false. intros Hin. apply Hq. eauto. }
    repeat split.
    + rewrite Hm. by apply Hkeep.
    + intros r Hqr. eapply (nlink_filter d d' (fun p => negb (in_subtree_sql (agent_prefix ag) p)) q r); [| done | |].
      * rewrite Hm. apply map_filter_ext. intros p y _. by rewrite negb_true_iff.
      * rewrite negb_true_iff. by eapply Hqm.
      * intros p Hp%negb_false_iff. by apply Hs.
    + rewrite Hl. apply Hkeep. intros y Hy. apply not_true_is_false. intros Hin. apply Hq. eauto.
    + by rewrite Hx.
    + intros k <-. rewrite He. destruct (dir_entries d !! k) as [y|] eqn:E; [| by apply map_lookup_filter_None; left].
      apply map_lookup_filter_Some. split; [done |]. simpl. apply not_true_is_false.
      intros Hd%doomed_entry_path; [| done]. apply Hq. split; [done |]. do 3 right.
      apply list_elem_of_fmap. exists k. split; [done |]. apply list_elem_of_fmap. exists (k, y).
      by rewrite elem_of_map_to_list.
  - intros q Hq%bool_decide_eq_true. eapply stamped_tombstone; [by rewrite Ht, tombstone_all_lookup, decide_True |].
    simpl. lia.
Qed.

Lemma bnd_purgeTx now ag : bnd 0 (purgeTx now ag).
Proof using Type. unfold purgeTx, tombstoneSubtreeTx. bnd_tac. by apply bnd_fkeeps, fkeeps_modify. Qed.

(** Only the chunk rows change. *)
Lemma drops_fcore hs d d' : drops hs d d' -> fcore d' = fcore d.
Proof using Type. intros [-> _]. done. Qed.

(** What every step keeps. *)
Definition sound (d : tdb) : Prop := (exists a, Inv d a) /\ revs_ok d.

Lemma tracks_same_core d d' : fcore d' = fcore d -> tracks d d'.
Proof using Type. intros E. by apply (tracks_fcore d d' d d); [| | apply tracks_refl]. Qed.

Lemma sound_drops hs d d' :
  drops hs d d' -> (forall h, h ∈ hs -> rc h d = 0) -> sound d -> tracks d d' /\ sound d'.
Proof using Type.
  intros D Hz [[a I] R]. pose proof (drops_fcore _ _ _ D) as E. split; [by apply tracks_same_core |].
  split; [exists a; by eapply drops_Inv | by apply (fcore_revs d d')].
Qed.

Lemma purge_sound now ag d : sound d -> followed (TPurge now ag) d ->
  tracks d (texec (TPurge now ag) d) /\ sound (texec (TPurge now ag) d).
Proof using Type.
  intros S Hs. pose proof S as [[a I] R]. simpl. destruct (agentIDRe ag) eqn:Hag; [| by split; [apply tracks_refl |]].
  destruct (purgeTx now ag d) as [[x d']|] eqn:E; [| by split; [apply tracks_refl |]].
  split; [by eapply purgeTx_tracks |]. split; [by eapply purgeTx_Inv |].
  pose proof (ro_pos _ R). by apply (bnd_purgeTx now ag d x d' R ltac:(lia) E).
Qed.

Lemma tstep_tracks d d' : sound d -> tstep d d' -> tracks d d' /\ sound d'.
Proof using Type.
  intros S (e & Hf & ->). destruct e as [now p v mf sid al ag|now r|now ag|hs|cutoff cands|h size at_].
  - destruct S as [[a I] R], Hf as [Ho Hw]. split; [| split].
    + apply run_tx_tracks. intros x en rev d1 E. eapply putTx_tracks; [exact Ho | exact I | exact E].
    + apply (run_tx_Inv (putTx now p v mf sid al ag) (mkStore d None None None) a I).
      intros x en rev d1 H. destruct (putTx_refines now p v mf sid al ag _ _ _ _ I Hw H) as (_ & a' & _ & ?). eauto.
    + apply revs_run_tx; [apply bnd_putTx | done].
  - destruct S as [[a I] R]. split; [by apply execDb_tracks |]. split; [by eapply execDb_Inv | by apply execDb_revs].
  - by apply purge_sound.
  - simpl. destruct (deletePurgedChunkRows (elements hs) d) as [[del d']|] eqn:E; [| by split; [apply tracks_refl |]].
    destruct (deletePurged_spec _ d del d' (NoDup_elements hs) E) as (D & _ & Hdel).
    eapply sound_drops; [exact D | | done]. intros h Hh. by apply Hdel.
  - simpl. pose proof (deleteGCBatch_spec cutoff cands d) as H.
    destruct (deleteGCBatch cutoff cands d) as [[del fr] d']. destruct H as (D & _ & Hdel).
    eapply sound_drops; [exact D | | done]. intros h Hh. by eapply garbage_rc, Hdel.
  - cbn [texec]. destruct S as [[a I] R]. destruct (NoteChunkStored h size at_ d) as [[u d']|] eqn:E;
      [| by split; [apply tracks_refl | split; eauto]].
    assert (fcore d' = fcore d) as Hc.
    { unfold NoteChunkStored, initChunkTx, modify in E. injection E as [= <- <-]. by destruct (chunks d !! h). }
    split; [by apply tracks_same_core |].
    split; [exists a; by eapply NoteChunkStored_refines | by apply (fcore_revs d d')].
Qed.

Lemma rtc_tstep_tracks d d' : sound d -> rtc tstep d d' -> rtc tracks d d' /\ sound d'.
Proof using Type.
  intros S H. induction H as [x|x y z Hxy _ IH]; [done |].
  destruct (tstep_tracks _ _ S Hxy) as [T S']. destruct (IH S') as [H S'']. split; [by eapply rtc_l | done].
Qed.
End feed.

(** ** A mirror of the feed

    mirror.rs [apply_page_db]: rows guarded by their revision. *)

Abbreviation mirror := (gmap gostr ChangeEntry).

Definition apply_entry (M : mirror) (e : ChangeEntry) : mirror :=
  if String.eqb (ce_Kind e) "tombstone" then
    match M !! ce_Path e with
    | Some x => if ce_Rev x <=? ce_Rev e then delete (ce_Path e) M else M
    | None => M
    end
  else
    match M !! ce_Path e with
    | Some x => if ce_Rev x <=? ce_Rev e then <[ce_Path e := e]> M else M
    | None => <[ce_Path e := e]> M
    end.

Definition apply_page (M : mirror) (es : list ChangeEntry) : mirror := foldl apply_entry M es.

(** The mirror holds the live rows of the agent's part of the tree, and nothing
    else. *)
Definition mirrors (agent : gostr) (M : mirror) (d : tdb) : Prop :=
  forall q e, M !! q = Some e <->
    exists r, r ∈ feed (scopeSubtree agent) d /\ ~ is_tombstone r /\ f_path r = q /\ scanChange true r = Ok e.

Definition effect (e : ChangeEntry) : option ChangeEntry :=
  if String.eqb (ce_Kind e) "tombstone" then None else Some e.

Lemma apply_entry_lookup M e q :
  (forall x, M !! ce_Path e = Some x -> ce_Rev x <= ce_Rev e) ->
  apply_entry M e !! q = if decide (q = ce_Path e) then effect e else M !! q.
Proof.
  intros H. unfold apply_entry, effect. destruct (M !! ce_Path e) as [x|] eqn:Hx.
  - specialize (H x eq_refl). replace (ce_Rev x <=? ce_Rev e) with true by lia.
    destruct (String.eqb _ _); case_decide; subst.
    + by rewrite lookup_delete_eq.
    + by rewrite lookup_delete_ne by congruence.
    + by rewrite lookup_insert_eq.
    + by rewrite lookup_insert_ne by congruence.
  - destruct (String.eqb _ _); case_decide; subst; try done.
    + by rewrite lookup_insert_eq.
    + by rewrite lookup_insert_ne by congruence.
Qed.

Lemma apply_page_lookup es M q :
  NoDup (ce_Path <$> es) ->
  (forall e x, e ∈ es -> M !! ce_Path e = Some x -> ce_Rev x <= ce_Rev e) ->
  (forall e, e ∈ es -> ce_Path e = q -> apply_page M es !! q = effect e) /\
  (q ∉ ce_Path <$> es -> apply_page M es !! q = M !! q).
Proof.
  revert M. induction es as [|e es IH]; intros M Hn Hr; [split; [by intros ? ?%elem_of_nil | done] |].
  rewrite fmap_cons in Hn. apply NoDup_cons in Hn as [He Hn].
  assert (forall p, apply_entry M e !! p = if decide (p = ce_Path e) then effect e else M !! p) as Ha.
  { intros p. apply apply_entry_lookup. intros x Hx. by apply Hr; [left |]. }
  destruct (IH (apply_entry M e) Hn) as [IH1 IH2].
  { intros f x Hf Hx. rewrite Ha, decide_False in Hx; [by apply Hr; [right |] |].
    intros E. apply He. rewrite <- E. by apply list_elem_of_fmap_2. }
  split.
  - intros f Hf <-. apply elem_of_cons in Hf as [->|Hf]; [| by apply IH1].
    simpl. rewrite IH2 by done. by rewrite Ha, decide_True.
  - intros Hq. rewrite fmap_cons, elem_of_cons in Hq. simpl. rewrite IH2 by tauto.
    rewrite Ha, decide_False; tauto.
Qed.

Lemma scanChange_effect r e :
  scanChange true r = Ok e -> effect e = if decide (is_tombstone r) then None else Some e.
Proof.
  unfold scanChange, is_tombstone. intros H.
  destruct (String.eqb_spec (f_kind r) "file") as [E|_].
  { rewrite decide_False by congruence. destruct (unpackChunks (f_chunks r)); [| done].
    injection H as <-. unfold effect. simpl. by rewrite E. }
  destruct (String.eqb_spec (f_kind r) "dir") as [E|_].
  { rewrite decide_False by congruence. injection H as <-. unfold effect. simpl. by rewrite E. }
  destruct (String.eqb_spec (f_kind r) "symlink") as [E|_].
  { rewrite decide_False by congruence. injection H as <-. unfold effect. simpl. by rewrite E. }
  destruct (String.eqb_spec (f_kind r) "special") as [E|_].
  { rewrite decide_False by congruence. injection H as <-. unfold effect, specialNodeKind. simpl. rewrite E.
    by repeat case_match. }
  injection H as <-. unfold effect. simpl. case_decide as E; [by rewrite E |].
  by destruct (String.eqb_spec (f_kind r) "tombstone").
Qed.

(** ** Cursors *)

Lemma after_lt cur x y : after cur x = true -> feed_lt x y = true -> after cur y = true.
Proof.
  destruct cur as [c q]. unfold feed_lt. rewrite !after_spec. intros [H1|[H1 H1']] [H2|[H2 H2']];
    [left; lia | left; lia | left; lia |]. right. split; [lia | by eapply str_ltb_trans].
Qed.

Lemma feed_split cur l :
  sorted_by feed_lt l -> exists pre, l = pre ++ filter (fun r => after cur r = true) l.
Proof.
  induction l as [|x l IH]; intros Hs; [by exists [] |]. inversion Hs as [|? ? Hl Hx]; subst.
  destruct (after cur x) eqn:E.
  - exists []. symmetry. apply (filter_all_true (after cur)). constructor; [done |].
    eapply Forall_impl; [exact Hx |]. intros y. by apply after_lt.
  - destruct (IH Hl) as [pre Hp]. exists (x :: pre).
    rewrite filter_cons_False by congruence. simpl. by f_equal.
Qed.

Lemma in_feed_subtree_path sub r r' : f_path r = f_path r' -> in_feed_subtree sub r = in_feed_subtree sub r'.
Proof. unfold in_feed_subtree. by intros ->. Qed.

Lemma elem_of_scanAll l es e :
  scanAll true l = Ok es -> e ∈ es <-> exists r, r ∈ l /\ scanChange true r = Ok e.
Proof.
  revert es. induction l as [|r l IH]; simpl; intros es.
  { intros [= <-]. split; [by intros ?%elem_of_nil | intros (r & ?%elem_of_nil & _); done]. }
  destruct (scanChange true r) as [x|] eqn:Hx; [| done]. destruct (scanAll true l) as [xs|]; [| done].
  intros [= <-]. rewrite elem_of_cons, (IH xs) by done. split.
  - intros [->|(r' & Hr' & He)]; [exists r; split; [by left | done] | exists r'; split; [by right | done]].
  - intros (r' & [->|Hr']%elem_of_cons & He); [left; congruence | eauto].
Qed.

Lemma scanAll_paths l es : scanAll true l = Ok es -> ce_Path <$> es = f_path <$> l.
Proof.
  revert es. induction l as [|r l IH]; simpl; intros es; [by intros [= <-] |].
  destruct (scanChange true r) as [x|] eqn:Hx; [| done]. destruct (scanAll true l) as [xs|]; [| done].
  intros [= <-]. rewrite !fmap_cons. f_equal; [by eapply scanChange_key | by apply IH].
Qed.

Lemma Inv_scannable d a : Inv d a -> scannable d.
Proof.
  intros I r Hr. apply elem_of_feed_rows in Hr.
  destruct Hr as [(p & x & H & ->)|[(p & x & H & ->)|[(p & x & H & ->)|[(k & x & H & _ & ->)|(p & x & H & ->)]]]];
    unfold scanChange; simpl; eauto.
  destruct (inv_unpack d a I p x H) as (y & _ & _ & -> & _). eauto.
Qed.

Lemma unique_row d r r' : one_row_per_path d -> r ∈ feed_rows d -> r' ∈ feed_rows d -> f_path r = f_path r' -> r = r'.
Proof.
  intros Hn Hr Hr' Hp. apply list_elem_of_lookup in Hr as [i Hi]. apply list_elem_of_lookup in Hr' as [j Hj].
  assert (i = j) as ->; [| congruence]. eapply (NoDup_lookup _ i j (f_path r) Hn); rewrite list_lookup_fmap.
  - by rewrite Hi.
  - rewrite Hj. simpl. by rewrite Hp.
Qed.

(** The rows after a cursor bring a mirror of the old tree to the new one, when
    the paths without such a row have the same live rows in both. *)
Lemma apply_feed_mirrors agent M d0 d c es :
  let sub := scopeSubtree agent in
  one_row_per_path d -> (forall r, r ∈ feed_rows d0 -> f_rev r <= c) ->
  (forall q, (exists r, r ∈ feed_rows d /\ f_path r = q /\ after (c, []) r = true) \/
     (forall r, f_path r = q -> ~ is_tombstone r -> r ∈ feed_rows d <-> r ∈ feed_rows d0)) ->
  scanAll true (filter (fun r => after (c, []) r = true) (feed sub d)) = Ok es ->
  mirrors agent M d0 -> mirrors agent (apply_page M es) d.
Proof.
  intros sub Hu R Hq Hes HM.
  assert (NoDup (ce_Path <$> es)) as Hnd.
  { rewrite (scanAll_paths _ _ Hes). by apply NoDup_fmap_filter, feed_NoDup. }
  assert (forall e x, e ∈ es -> M !! ce_Path e = Some x -> ce_Rev x <= ce_Rev e) as Hrev.
  { intros e x He Hx. apply (elem_of_scanAll _ _ _ Hes) in He as (r & Hr & He).
    apply list_elem_of_filter in Hr as [Ha _]. apply after_spec in Ha.
    apply HM in Hx as (r0 & [Hr0 _]%elem_of_feed & _ & _ & Hx). pose proof (R r0 Hr0).
    apply scanChange_key in He as [_ ->]. apply scanChange_key in Hx as [_ ->]. lia. }
  intros q e. destruct (apply_page_lookup es M q Hnd Hrev) as [Hin Hout].
  destruct (decide (q ∈ ce_Path <$> es)) as [Hqe|Hqe].
  - apply list_elem_of_fmap in Hqe as (e0 & -> & He0). rewrite (Hin e0 He0 eq_refl).
    apply (elem_of_scanAll _ _ _ Hes) in He0 as (r0 & Hr0 & Hs0).
    apply list_elem_of_filter in Hr0 as [_ Hr0]. rewrite (scanChange_effect _ _ Hs0).
    pose proof (scanChange_key _ _ _ Hs0) as [Hp _]. split.
    + case_decide; [done |]. intros [= <-]. eauto.
    + intros (r & Hr & Ht & Hpr & Hs). apply elem_of_feed in Hr as [Hr _]. apply elem_of_feed in Hr0 as [Hr0 _].
      assert (r = r0) as -> by (eapply unique_row; eauto; congruence).
      rewrite decide_False by done. congruence.
  - rewrite (Hout Hqe), (HM q e). rewrite (scanAll_paths _ _ Hes) in Hqe.
    destruct (Hq q) as [(r1 & Hr1 & Hp1 & Hl)|Hsame].
    + assert (in_feed_subtree sub r1 = false) as Hsub.
      { destruct (in_feed_subtree sub r1) eqn:E; [| done]. destruct Hqe. apply list_elem_of_fmap.
        exists r1. split; [done |]. apply list_elem_of_filter. split; [done |].
        by apply elem_of_feed. }
      split; intros (r & [_ Hr]%elem_of_feed & _ & Hp & _); fold sub in Hr;
        rewrite (in_feed_subtree_path sub r r1) in Hr by congruence; congruence.
    + split; intros (r & [Hr Hsub]%elem_of_feed & Ht & Hp & Hs); exists r;
        (split; [apply elem_of_feed; split; [by apply (Hsame r Hp Ht) | done] | done]).
Qed.

(** ** The claims *)


(** Hydration.  A new client whose page boundaries do not fall below the
    prune watermark pages through the whole feed from [(0, "")]: it ends at the
    counter with exactly the live rows of the tree. *)
Theorem hydration_complete agent limit d a :
  Inv d a -> revs_ok d -> last_rev d < 2 ^ 63 -> one_row_per_path d -> 1 <= limit <= 1000 ->
  (forall r, r ∈ feed_rows d -> after (0, []) r = true) ->
  (forall r, r ∈ feed (scopeSubtree agent) d -> f_rev r = 0 \/ pruned_before_rev d <= f_rev r) ->
  exists es np,
    catchUp (fun _ => true) (S (length (feed (scopeSubtree agent) d))) agent limit (0, []) [] d =
      Some (es, last_rev d, np) /\
    mirrors agent (apply_page ∅ es) d.
Proof.
  intros I R Hb Hu Hl Ha Hw. set (sub := scopeSubtree agent) in *.
  assert (filter (fun r => after (0, []) r = true) (feed sub d) = feed sub d) as Hall.
  { apply (filter_all_true (after (0, []))). apply Forall_forall. intros r [Hr _]%elem_of_feed. by apply Ha. }
  destruct (scanAll_total (feed sub d)) as [es Hes].
  { intros r [Hr _]%elem_of_feed. by apply (Inv_scannable d a I). }
  destruct (catchUp_from (fun _ => true) agent limit d Hl (S (length (feed sub d))) [] (feed sub d) (0, []) [] es)
    as [np Hnp]; try done.
  - intros r Hin. split; [apply revs_ok_feed; [done | by apply elem_of_feed in Hin as [? _]] |].
    destruct (Hw r Hin); [left; lia | by right].
  - simpl. lia.
  - lia.
  - exists es, np. split; [done |]. 
    apply (apply_feed_mirrors agent ∅ emptyDB d 0); try done.
    + by intros r ?%elem_of_nil.
    + intros q. destruct (decide (q ∈ f_path <$> feed_rows d)) as [Hq|Hq].
      * apply list_elem_of_fmap in Hq as (r & -> & Hr). left. eauto.
      * right. intros r Hrq _. split; [| by intros ?%elem_of_nil]. intros Hr. destruct Hq.
        apply list_elem_of_fmap. eauto.
    + etrans; [| exact Hes]. f_equal. exact Hall.
    + intros q e. rewrite lookup_empty. split; [done |]. by intros (r & [?%elem_of_nil _]%elem_of_feed & _).
Qed.

(** Pruning takes away no row that a cursor at or above the new watermark
    still has to read: for such a cursor the rows after it are the same before
    and after. *)
Theorem pruning_invisible cutoff d n d' subtree c q r :
  revs_ok d -> last_rev d < 2 ^ 63 -> pruneTombstones cutoff d = (n, d') -> pruned_before_rev d' <= c ->
  after (c, q) r = true -> r ∈ feed subtree d <-> r ∈ feed subtree d'.
Proof. intros R Hb Hp Hc Ha. eapply prune_invisible; [by apply revs_ok_small | done | done | done]. Qed.

(** A new client whose first page is full and ends below the prune
    watermark never hydrates: the next request is answered with "resync", which
    sends it back to the start, for ever. *)
Theorem hydration_livelock agent limit d r :
  1 <= limit <= 1000 -> scannable d ->
  last (changeRows (scopeSubtree agent) 0 [] limit d) = Some r ->
  length (changeRows (scopeSubtree agent) 0 [] limit d) = Z.to_nat limit ->
  0 < f_rev r < pruned_before_rev d -> f_rev r < 2 ^ 63 ->
  forall fuel, catchUp (fun _ => true) fuel agent limit (0, []) [] d = None.
Proof.
  intros Hl Hs. unfold changeRows. replace (limit <? 0) with false by lia. intros Hlast Hlen Hr Hb fuel.
  by apply (catchUp_livelock (fun _ => true) agent limit d Hl r).
Qed.

(** ** The doorbell *)

Inductive bellEvent := Ring (rev : Z) | Pump.

(** What a connection's pump pushed, and the notifier, after some events. *)
Fixpoint bell (connID : Z) (es : list bellEvent) (n : changeNotifier) : list Z * changeNotifier :=
  match es with
  | [] => ([], n)
  | Ring rev :: es' => bell connID es' (Notify rev n)
  | Pump :: es' =>
      match pump connID n with
      | Some (rev, n') => let '(out, n'') := bell connID es' n' in (rev :: out, n'')
      | None => bell connID es' n
      end
  end.

Lemma bell_app connID es1 es2 n :
  bell connID (es1 ++ es2) n =
  let '(o1, n1) := bell connID es1 n in let '(o2, n2) := bell connID es2 n1 in (o1 ++ o2, n2).
Proof.
  revert n. induction es1 as [|[rev|] es1 IH]; intros n; simpl.
  - by destruct (bell connID es2 n).
  - apply IH.
  - destruct (pump connID n) as [[rev n']|]; [| apply IH]. rewrite IH.
    destruct (bell connID es1 n') as [o1 n1]. by destruct (bell connID es2 n1).
Qed.

Definition rung (es : list bellEvent) : list Z := omap (fun e => match e with Ring rev => Some rev | Pump => None end) es.

(** The highest revision rung so far. *)
Definition highest (es : list bellEvent) : Z := foldr Z.max 0 (rung es).

Lemma highest_snoc es rev : highest (es ++ [Ring rev]) = Z.max (highest es) rev \/ rev < 0.
Proof.
  unfold highest, rung. rewrite omap_app. simpl. rewrite foldr_app. simpl.
  destruct (Z.ltb_spec rev 0); [by right |]. left. rewrite Z.max_l by lia.
  induction (omap _ es) as [|x l IH]; simpl; lia.
Qed.

Lemma bell_state connID es n :
  Forall (fun rev => 0 <= rev) (rung es) ->
  let '(out, n') := bell connID es (Subscribe connID n).1 in
  exists s, n' !! connID = Some s /\ sub_rev s = highest es /\
    (sub_signal s = false -> rung es = [] \/ last out = Some (highest es)).
Proof.
  induction es as [|e es IH] using rev_ind; intros Hpos.
  { simpl. rewrite lookup_insert_eq. eexists. split; [done |]. simpl. auto. }
  unfold rung in Hpos. rewrite omap_app in Hpos. apply Forall_app in Hpos as [Hes He]. specialize (IH Hes).
  rewrite bell_app. destruct (bell connID es _) as [o1 n1]. destruct IH as (s & Hs & Hr & Hsig).
  destruct e as [rev|]; simpl.
  - rewrite app_nil_r. unfold Notify. rewrite lookup_fmap, Hs. eexists. split; [done |]. simpl.
    apply Forall_inv in He. destruct (highest_snoc es rev) as [->|]; [| lia]. rewrite Hr. done.
  - assert (rung (es ++ [Pump]) = rung es) as E by (unfold rung; rewrite omap_app; apply app_nil_r).
    unfold highest. rewrite E. fold (highest es). unfold pump. rewrite Hs. simpl.
    destruct (sub_signal s) eqn:Es.
    + rewrite lookup_insert_eq. eexists. split; [done |]. split; [done |]. intros _. right.
      by rewrite last_snoc, Hr.
    + rewrite app_nil_r. exists s. split; [done |]. split; [done |]. intros _. by apply Hsig.
Qed.

(** No commit is lost between the doorbell and its subscriber: after any
    interleaving of notifications and pump rounds, one more round leaves the
    highest notified revision as the last one pushed to the client. *)
Theorem doorbell_announces_max connID es n :
  Forall (fun rev => 0 <= rev) (rung es) -> rung es <> [] ->
  last (bell connID (es ++ [Pump]) (Subscribe connID n).1).1 = Some (highest es).
Proof.
  intros Hpos Hne. pose proof (bell_state connID es n Hpos) as Hb. rewrite bell_app.
  destruct (bell connID es _) as [o1 n1]. destruct Hb as (s & Hs & Hr & Hsig). simpl. unfold pump. rewrite Hs. simpl.
  destruct (sub_signal s) eqn:Es; simpl.
  - by rewrite last_snoc, Hr.
  - rewrite app_nil_r. by destruct Hsig.
Qed.

(** ** Witnesses *)

#[local] Existing Instance flat_msgpack.

Definition w_put (p : gostr) (d : tdb) : tdb :=
  db_of (run_tx (putTx 7 p 0 (file_of p h1 5) [] [] [])) d.

(** [/a] and [/b] are written, then [/a] is deleted. *)
Definition tree2 : tdb := w_put (str "/b") (w_put (str "/a") emptyDB).
Definition tree3 : tdb := execDb 9 (RDelete (str "/a") 1 [] [] []) tree2.

Lemma revs_empty : revs_ok emptyDB.
Proof. split; [done | | | | |]; apply map_Forall_empty. Qed.

Lemma sound_empty : sound emptyDB.
Proof. split; [exists empty_afs; exact Inv_empty | exact revs_empty]. Qed.

Lemma mirrors_empty agent : mirrors agent ∅ emptyDB.
Proof. intros q e. rewrite lookup_empty. split; [done |]. by intros (r & [?%elem_of_nil _]%elem_of_feed & _). Qed.

Lemma w_put_tstep p d : own_entry p -> tstep d (w_put p d).
Proof.
  intros Ho. exists (TPut 7 p 0 (file_of p h1 5) [] [] []). split; [| done]. split; [done |].
  apply file_of_wf; [by left | lia].
Qed.

Lemma tree2_steps : rtc tstep emptyDB tree2.
Proof. eapply rtc_l; [by apply (w_put_tstep (str "/a")) |]. by apply rtc_once, w_put_tstep. Qed.

Lemma tree3_steps : rtc tstep emptyDB tree3.
Proof.
  eapply rtc_r; [exact tree2_steps |]. exists (TReq 9 (RDelete (str "/a") 1 [] [] [])). split; [| done].
  split; [| done]. constructor; [done | constructor].
Qed.


Lemma tree2_sound : sound tree2.
Proof. apply (rtc_tstep_tracks emptyDB tree2 sound_empty tree2_steps). Qed.

Lemma hydration_complete_witness :
  exists es np,
    catchUp (fun _ => true) 3 [] 1 (0, []) [] tree2 = Some (es, 2, np) /\ mirrors [] (apply_page ∅ es) tree2.
Proof.
  destruct tree2_sound as [[a I] R]. apply (hydration_complete [] 1 tree2 a).
  - exact I.
  - exact R.
  - vm_compute. reflexivity.
  - apply (bool_decide_unpack (NoDup (f_path <$> feed_rows tree2))). vm_compute. exact Logic.I.
  - lia.
  - apply Forall_forall. apply (bool_decide_unpack (Forall (fun r => after (0, []) r = true) (feed_rows tree2))).
    vm_compute. exact Logic.I.
  - apply Forall_forall.
    apply (bool_decide_unpack (Forall (fun r => f_rev r = 0 \/ pruned_before_rev tree2 <= f_rev r) (feed [] tree2))).
    vm_compute. exact Logic.I.
Defined.

(** The tombstone of [/a] is pruned. *)
Definition tree4 : tdb := (pruneTombstones 100 tree3).2.

Lemma tree3_sound : sound tree3.
Proof. apply (rtc_tstep_tracks emptyDB tree3 sound_empty tree3_steps). Qed.

Lemma pruning_invisible_witness :
  symlink_row (str "/c") (mkSlrow (str "/b") 511 0 0 0 0 9) ∈ feed [] tree3 <->
  symlink_row (str "/c") (mkSlrow (str "/b") 511 0 0 0 0 9) ∈ feed [] tree4.
Proof.
  apply (pruning_invisible 100 tree3 1 tree4 [] 4 []).
  - exact (proj2 tree3_sound).
  - vm_compute. reflexivity.
  - assert ((pruneTombstones 100 tree3).1 = 1) as H by (vm_compute; reflexivity).
    rewrite <- H. unfold tree4. apply surjective_pairing.
  - vm_compute. discriminate.
  - vm_compute. reflexivity.
Defined.

(** One live file below the watermark, fetched one row at a time. *)
Lemma hydration_livelock_witness :
  catchUp (fun _ => true) 1000 [] 1 (0, []) [] tree4 = None.
Proof.
  destruct (last (changeRows (scopeSubtree []) 0 [] 1 tree4)) as [r|] eqn:E.
  - apply (hydration_livelock [] 1 tree4 r).
    + lia.
    + destruct tree3_sound as [[a I] _].
      destruct (execDb_Inv 9 (RPrune 100) tree3 a I) as [a' I']. exact (Inv_scannable tree4 a' I').
    + exact E.
    + vm_compute. reflexivity.
    + assert (f_rev <$> last (changeRows (scopeSubtree []) 0 [] 1 tree4) = Some 2) as H by (vm_compute; reflexivity).
      rewrite E in H. injection H as ->. split; [lia | vm_compute; reflexivity].
    + assert (f_rev <$> last (changeRows (scopeSubtree []) 0 [] 1 tree4) = Some 2) as H by (vm_compute; reflexivity).
      rewrite E in H. injection H as ->. lia.
  - exfalso. assert (is_Some (f_rev <$> last (changeRows (scopeSubtree []) 0 [] 1 tree4))) as [x H]
      by (exists 2; vm_compute; reflexivity).
    rewrite E in H. discriminate.
Defined.

Lemma doorbell_announces_max_witness :
  last (bell 1 [Ring 3; Pump; Ring 5; Ring 4; Pump] (Subscribe 1 ∅).1).1 = Some 5.
Proof.
  apply (doorbell_announces_max 1 [Ring 3; Pump; Ring 5; Ring 4] ∅).
  - repeat constructor; lia.
  - discriminate.
Defined.

(** ** A directory rename forgets deletions

    [/to/x] and [/to] are deleted, then [/a] is renamed to [/to]: the tombstone
    of [/to/x] is cleared although nothing exists there. *)
Definition rename_base : tdb :=
  w_put (str "/to/x") (execDb 7 (RDirCreate (str "/to") 493)
    (execDb 7 (RDirCreate (str "/a") 493) emptyDB)).

Definition rename_lost : tdb :=
  execDb 9 (RRename (str "/a") (str "/to") 0 0 false [] [] [])
    (execDb 9 (RDirRemove (str "/to"))
      (execDb 9 (RDelete (str "/to/x") 1 [] [] []) rename_base)).

(** After a rename onto the path of a removed directory, a mirror that
    had a file of that directory is never told that the file is gone: the
    caught-up mirror still holds [/to/x], which the tree does not have. *)
Theorem rename_dir_loses_deletion :
  let M := match catchUp (fun _ => true) 9 [] 500 (0, []) [] rename_base with
           | Some (es, _, _) => apply_page ∅ es | None => ∅ end in
  let M' := match catchUp (fun _ => true) 9 [] 500 (last_rev rename_base, []) [] rename_lost with
            | Some (es, _, _) => apply_page M es | None => ∅ end in
  pruned_before_rev rename_lost = 0 /\ manifests rename_lost !! str "/to/x" = None /\
  ce_Kind <$> M' !! str "/to/x" = Some "file"%string /\ ce_Kind <$> M' !! str "/to" = Some "dir"%string /\
  M' !! str "/a" = None.
Proof. repeat split; vm_compute; reflexivity. Qed.
