(* ===== verification/WireProps.v ===== *)
(** * Properties of the encodings and of the session journal *)

From S2P Require Import Prelude GoPath Codec TenantDB Journal.

(** ** Streams of frames *)

(** A connection's writer: one [WriteFrame] per frame. *)
Fixpoint write_all (fs : list Frame) : result codec_err (list Z) :=
  match fs with
  | [] => Ok []
  | f :: fs' =>
      match WriteFrame f with
      | Err e => Err e
      | Ok b => match write_all fs' with Err e => Err e | Ok bs => Ok (b ++ bs) end
      end
  end.

(** A connection's reader: [ReadFrame] until the stream ends. *)
Fixpoint read_all (fuel : nat) (s : list Z) : result codec_err (list Frame) :=
  match fuel with
  | O => Ok []
  | S fuel' =>
      match ReadFrame s with
      | Err EEOF => Ok []
      | Err e => Err e
      | Ok (f, rest) => match read_all fuel' rest with Err e => Err e | Ok fs => Ok (f :: fs) end
      end
  end.

(** Any sequence of frames that the protocol allows can be written, and the
    reader at the other end of the byte stream gets back the same frames in the
    same order, then the end of the stream. *)
Theorem frame_stream_roundtrip fs :
  Forall wf_frame fs ->
  exists bytes, write_all fs = Ok bytes /\ read_all (S (length fs)) bytes = Ok fs.
Proof.
  induction 1 as [|f fs Hf Hfs (bs & Hw & Hr)]; [by exists [] |].
  exists (frame_bytes f ++ bs). cbn [write_all]. rewrite WriteFrame_ok by apply Hf. rewrite Hw. split; [done |].
  cbn [length]. cbn [read_all] in Hr |- *. rewrite ReadFrame_frame_bytes by done.
  destruct fs as [|f' fs']; [| by rewrite Hr].
  injection Hw as <-. done.
Qed.

(** Whatever bytes arrive, the reader returns a frame or an error; a frame
    it accepts has a known operation and a payload within the limit, and exactly
    its header and payload were consumed; a length field above the limit is
    refused before any payload byte is read. *)
Theorem frame_reader_safe s :
  Forall is_byte s ->
  match ReadFrame s with
  | Ok (f, rest) =>
      op_valid (Op f) = true /\ Z.of_nat (length (Payload f)) <= MaxPayloadLen /\
      length s = (HeaderLen + length (Payload f) + length rest)%nat
  | Err EPayloadTooLarge => MaxPayloadLen < be_get (take 4 (drop 12 s))
  | Err EEOF => s = [] \/ (length s = HeaderLen)%nat
  | Err _ => True
  end.
Proof.
  intros Hs. destruct (ReadFrame s) as [[f rest]|e] eqn:E; [by eapply ReadFrame_bounds |].
  unfold ReadFrame, ReadFull at 1 in E. case_decide as Hn.
  2: { destruct s; simplify_eq; auto. }
  destruct (op_valid _); [| by injection E as <-]. cbn [negb] in E.
  destruct (_ || _); [by injection E as <- |].
  assert (take 4 (drop 12 (take HeaderLen s)) = take 4 (drop 12 s)) as Ht.
  { rewrite <- (take_drop HeaderLen s) at 2. rewrite drop_app_le, take_app_le; [done | |];
      rewrite ?length_drop, ?length_take; unfold HeaderLen in *; lia. }
  rewrite Ht in E. destruct (Z.gtb_spec (be_get (take 4 (drop 12 s))) MaxPayloadLen);
    [by injection E as <- |].
  destruct (_ >? 0); [| done]. unfold ReadFull in E. case_decide; [done |].
  destruct (drop HeaderLen s) as [|b r] eqn:Hd; [| by injection E as <-]. injection E as <-.
  right. apply (f_equal length) in Hd. rewrite length_drop in Hd. simpl in Hd. lia.
Qed.

(** ** The chunk column *)

Lemma be_put_snoc n v b : is_byte b -> be_put (S n) (v * 256 + b) = be_put n v ++ [b].
Proof.
  intros Hb. unfold is_byte in Hb. induction n as [|n IH].
  - cbn [be_put app Z.of_nat Z.mul]. rewrite Z.shiftr_0_r, land_255. f_equal.
    rewrite Z.add_comm, Z_mod_plus_full, Z.mod_small by lia. done.
  - change (be_put (S (S n)) (v * 256 + b)) with
      (Z.land (Z.shiftr (v * 256 + b) (8 * Z.of_nat (S n))) 255 :: be_put (S n) (v * 256 + b)).
    rewrite IH. cbn [be_put app]. f_equal. f_equal.
    rewrite !Z.shiftr_div_pow2 by lia. replace (8 * Z.of_nat (S n)) with (8 + 8 * Z.of_nat n) by lia.
    rewrite Z.pow_add_r by lia. rewrite <- Z.div_div by lia. f_equal.
    change (2 ^ 8) with 256. rewrite Z.div_add_l by lia. rewrite Z.div_small by lia. lia.
Qed.

Lemma be_put_get bs : Forall is_byte bs -> be_put (length bs) (be_get bs) = bs.
Proof.
  intros H. induction bs as [|b bs IH] using rev_ind; [done |].
  apply Forall_app in H as [Hb Hx]. apply Forall_inv in Hx.
  assert (be_get (bs ++ [b]) = be_get bs * 256 + b) as ->
    by (unfold be_get; rewrite foldl_app; simpl; by apply lor_shiftl8).
  rewrite length_app, Nat.add_1_r, be_put_snoc, IH by done. done.
Qed.

Lemma packRef_unpackRef b : Forall is_byte b -> length b = chunkRefSize -> packRef (unpackRef b) = b.
Proof.
  intros Hb Hl. unfold packRef, unpackRef. cbn [Hash Offset Len]. unfold chunkRefSize, HashLen in *.
  assert (be_put 8 (be_get (take 8 (drop 32 b))) = take 8 (drop 32 b)) as ->.
  { rewrite <- (be_put_get (take 8 (drop 32 b))) at 2 by by apply Forall_take, Forall_drop.
    f_equal. rewrite length_take, length_drop. lia. }
  assert (be_put 4 (be_get (take 4 (drop (32 + 8) b))) = take 4 (drop (32 + 8) b)) as ->.
  { rewrite <- (be_put_get (take 4 (drop (32 + 8) b))) at 2 by by apply Forall_take, Forall_drop.
    f_equal. rewrite length_take, length_drop. lia. }
  rewrite (firstn_all2 (n := 4)) by (rewrite length_drop; lia).
  rewrite <- drop_drop, take_drop, take_drop. done.
Qed.

(** The chunk column is an exact encoding: every chunk list that the Go
    types allow is read back from its packed bytes, every byte string that the
    reader accepts is the packed form of the list it returns, and the reader
    accepts exactly the lengths that are a multiple of one reference. *)
Theorem chunk_column_bijective :
  (forall cs, Forall wf_ref cs -> unpackChunks (packChunks cs) = Some cs) /\
  (forall b cs, Forall is_byte b -> unpackChunks b = Some cs -> packChunks cs = b /\ Forall wf_ref cs) /\
  (forall b, is_Some (unpackChunks b) <-> (length b `mod` chunkRefSize = 0)%nat).
Proof.
  split; [exact unpackChunks_packChunks |]. split.
  - intros b cs Hb H. split; [| by eapply unpackChunks_wf]. unfold unpackChunks in H.
    case_decide as Hm; [done |]. apply (inj Some) in H as <-.
    assert (length b = length b / chunkRefSize * chunkRefSize)%nat as Hl.
    { rewrite Nat.mul_comm. pose proof (Nat.div_mod_eq (length b) chunkRefSize). lia. }
    revert Hl. generalize (length b / chunkRefSize)%nat. clear Hm. intros n. revert b Hb.
    induction n as [|n IH]; intros b Hb Hl; [by apply nil_length_inv in Hl as -> |].
    cbn [unpack_n]. unfold packChunks. rewrite bind_cons. fold (packChunks (unpack_n n (drop chunkRefSize b))).
    rewrite packRef_unpackRef, IH; [apply take_drop | by apply Forall_drop | | by apply Forall_take |].
    + rewrite length_drop. lia.
    + rewrite length_take. lia.
  - intros b. unfold unpackChunks. case_decide as H; split; try done.
Qed.

(** ** The session journal *)

Section journal.
Context {MP : MsgPack}.

(** Reading the journal page by page with the returned cursors, whatever
    the page size, terminates and returns every row of the selected allocations
    exactly once, newest first. *)
Theorem journal_pages_complete fuel alloc limit ua d :
  0 <= limit -> ~ (alloc = [] /\ ua = []) -> journal_ok (session_journal d) ->
  Forall (fun r => 0 < j_ts_unix_ms r < 2 ^ 63 /\ in_i64 (j_rowid r)) (session_journal d) ->
  (length (session_journal d) < fuel)%nat ->
  exists rows, queryAll fuel alloc limit [] ua d = Some (scanJournalRow d <$> rows) /\
    rows ≡ₚ select_journal alloc ua d /\ StronglySorted (fun a b => newer a b = true) rows.
Proof using Type.
  intros Hl Hne Hok Hj Hf. exists (merge_sort newer_eq (select_journal alloc ua d)).
  split; [by apply queryAll_complete |]. split; [apply merge_sort_Permutation |].
  apply sorted_selection. apply NoDup_fmap_filter. by apply journal_ok_rowids.
Qed.

(** A journaled write appends exactly one row, under a sequence number that
    is new in its session; it keeps the journal ordered by rowid with no
    sequence number used twice; and the prior content it records is read back as
    it was, with owner and access time zeroed. *)
Theorem journal_append_exact `{!MsgPackLaws MP} now sid alloc agent op p prior av rf d e d' :
  journal_ok (session_journal d) -> Forall wf_ref (mf_Chunks prior) ->
  journalBeforeWrite now sid alloc agent op p (Some prior) av rf d = Ok (e, d') ->
  exists r, session_journal d' = session_journal d ++ [r] /\ journal_ok (session_journal d') /\
    j_seq r = je_Seq e /\ j_session_id r = sid /\
    (forall x, x ∈ session_journal d -> j_session_id x = sid -> j_seq x < j_seq r) /\
    exists b, j_before_manifest r = Some b /\
      decodeJournalManifest p b =
        Some (mkManifest p 0 0 (mf_Size prior) (mf_Mode prior) (mf_Mtime prior) (mf_Version prior)
                (mf_Chunks prior) 0 0 0).
Proof using Type.
  intros Hok Hw H. destruct (decide (sid = [])) as [->|Hs].
  { unfold journalBeforeWrite, appendJournal in H. simpl in H. done. }
  destruct (decide (alloc = [])) as [->|Ha].
  { destruct (journalBeforeWrite_noalloc now sid agent op p (Some prior) av rf d Hs) as [x Hx]. congruence. }
  rewrite journalBeforeWrite_ok in H by done. injection H as <- <-. simpl.
  eexists. split; [reflexivity |]. split; [by apply journal_ok_append |]. split; [done |]. split; [done |].
  split.
  - intros x Hx Hsx. pose proof (max_seq_ge sid _ x Hx Hsx). simpl. lia.
  - eexists. split; [reflexivity |]. by apply decode_encode_journal.
Qed.
End journal.

(** ** Witnesses *)

Definition ping (rid : Z) (p : list Z) : Frame := mkFrame 0x01 0 rid p.

Lemma frame_stream_roundtrip_witness :
  exists bytes, write_all [ping 1 [7; 8]; ping 2 []] = Ok bytes /\ read_all 3 bytes = Ok [ping 1 [7; 8]; ping 2 []].
Proof.
  apply (frame_stream_roundtrip [ping 1 [7; 8]; ping 2 []]).
  repeat constructor; unfold is_byte, MaxPayloadLen; simpl; try reflexivity; try lia.
Defined.

Lemma frame_reader_safe_witness :
  match ReadFrame ([0x01; 0] ++ be_put 8 5 ++ [0; 0] ++ be_put 4 (2 ^ 30)) with
  | Ok _ => False
  | Err EPayloadTooLarge => MaxPayloadLen < 2 ^ 30
  | Err _ => False
  end.
Proof.
  apply (frame_reader_safe ([0x01; 0] ++ be_put 8 5 ++ [0; 0] ++ be_put 4 (2 ^ 30))).
  repeat (apply Forall_app; split; [| try apply be_put_bytes]); try apply be_put_bytes;
    repeat constructor; unfold is_byte; lia.
Defined.

#[local] Existing Instance flat_msgpack.

(** Session [s] wrote twice, session [t] once, all for allocation [al]. *)
Definition jr (sid : gostr) (seq ts rowid : Z) : jrow :=
  mkJrow sid seq (str "/f") SessionOpUpdate (Some 1) None None ts (Some 2) (str "ag") (Some (str "al")) rowid.

Definition two_sessions : tdb :=
  set_session_journal [jr (str "s") 1 10 1; jr (str "s") 2 11 2; jr (str "t") 1 12 3] emptyDB.

Lemma two_sessions_ok : journal_ok (session_journal two_sessions).
Proof.
  split; [repeat constructor; simpl; lia |]. split; [| repeat constructor; simpl; lia].
  apply (bool_decide_unpack (NoDup ((fun r => (j_session_id r, j_seq r)) <$> session_journal two_sessions))).
  vm_compute. exact I.
Qed.

Lemma journal_pages_complete_witness :
  exists rows, queryAll 4 (str "al") 1 [] [] two_sessions = Some (scanJournalRow two_sessions <$> rows) /\
    rows ≡ₚ select_journal (str "al") [] two_sessions /\ StronglySorted (fun a b => newer a b = true) rows.
Proof.
  apply (journal_pages_complete 4 (str "al") 1 [] two_sessions).
  - lia.
  - intros [? _]. discriminate.
  - exact two_sessions_ok.
  - repeat constructor; unfold in_i64; simpl; lia.
  - simpl. lia.
Defined.

Definition prior0 : Manifest := mkManifest (str "/f") 0 0 5 420 9 1 [mkChunkRef (replicate 32 1) 0 5] 7 7 7.

Definition appended := journalBeforeWrite 13 (str "s") (str "al") (str "ag") SessionOpUpdate (str "/f")
  (Some prior0) (Some 2) [] two_sessions.

Definition entry0 : SessionJournalEntry := mkEntry (str "s") (str "al") (str "ag") 3 (str "/f") SessionOpUpdate
  (Some 1) (Some 2) (Some (encodeJournalManifest prior0)) [] 13.
Definition appended_db : tdb := set_session_journal (session_journal two_sessions ++
  [journal_row 13 (str "s") (str "al") (str "ag") SessionOpUpdate (str "/f") (Some 1) (Some 2)
     (Some (encodeJournalManifest prior0)) [] (session_journal two_sessions)]) two_sessions.

Lemma journal_append_exact_witness :
  exists r, session_journal appended_db = session_journal two_sessions ++ [r] /\ j_seq r = 3.
Proof.
  destruct (journal_append_exact (MP := flat_msgpack) (MsgPackLaws0 := flat_msgpack_laws) 13 (str "s") (str "al") (str "ag")
    SessionOpUpdate (str "/f") prior0 (Some 2) [] two_sessions entry0 appended_db) as (r & Hr & _ & Hs & _).
  - exact two_sessions_ok.
  - repeat constructor; unfold is_byte; simpl; lia.
  - vm_compute. reflexivity.
  - exists r. split; [exact Hr | exact Hs].
Defined.

(** The catch-up half of the journal stream asks for the rows of an
    allocation above the last sequence number seen, but sequence numbers count
    per session: a consumer that has seen row 2 of one session is not given the
    later first row of another session of the same allocation. *)
Theorem catch_up_by_seq_misses_row :
  QueryAfterSeq (str "al") 0 50 (set_session_journal (take 2 (session_journal two_sessions)) two_sessions) =
    Ok (scanJournalRow two_sessions <$> take 2 (session_journal two_sessions)) /\
  QueryAfterSeq (str "al") 2 50 two_sessions = Ok [] /\
  length (select_journal (str "al") [] two_sessions) = 3%nat.
Proof. repeat split; vm_compute; reflexivity. Qed.
