(* ===== verification/ManifestEdges.v ===== *)
(** * Edge cases of the manifest store

    Concrete runs of the operations on inputs where they do something that the
    rest of the store does not expect. *)

From S2P Require Import Prelude GoPath Codec TenantDB Journal Manifests FileSpec Refine ManifestProps.

#[local] Existing Instance flat_msgpack.

Definition e_put (p : gostr) (s : mstore) : mstore := (Put 9 p 0 (file_of p h1 5) [] [] [] s).2.
Definition e_mkdir (p : gostr) (s : mstore) : mstore := (DirCreate p 493 s).2.
Definition e_rename (from to : gostr) (s : mstore) : result err Z * mstore :=
  Rename 9 from to 0 0 [] [] [] s.

(** The paths that hold a file. *)
Definition files_of (s : mstore) : list gostr := (map_to_list (manifests (st_db s))).*1.

(** Directories [/a_b] and [/axb], a file in the second. *)
Definition sibling_dirs : mstore := e_put (str "/axb/f") (e_mkdir (str "/axb") (e_mkdir (str "/a_b") store0)).

(** The statement that moves the descendants of a directory does not escape
    its [LIKE] pattern: renaming [/a_b] to [/c] succeeds and also moves the file
    of the unrelated directory [/axb]. *)
Theorem rename_moves_sibling :
  files_of sibling_dirs = [str "/axb/f"] /\
  is_ok (e_rename (str "/a_b") (str "/c") sibling_dirs).1 = true /\
  files_of (e_rename (str "/a_b") (str "/c") sibling_dirs).2 = [str "/c/f"].
Proof. repeat split; vm_compute; reflexivity. Qed.

(** The two bytes of U+00E9 in UTF-8. *)
Definition e_acute : gostr := [ascii_of_N 195; ascii_of_N 169].
Definition accented : gostr := slash :: e_acute.
Definition accented_dir : mstore := e_put (accented ++ str "/file") (e_mkdir accented store0).

(** The new path of a descendant is cut by [substr], which counts
    characters, at an offset computed in bytes: renaming a directory whose name
    is not ASCII gives its files other names, outside the new directory. *)
Theorem rename_cuts_non_ascii :
  files_of accented_dir = [accented ++ str "/file"] /\
  is_ok (e_rename accented (str "/c") accented_dir).1 = true /\
  files_of (e_rename accented (str "/c") accented_dir).2 = [str "/cfile"].
Proof. repeat split; vm_compute; reflexivity. Qed.

Definition with_symlink : mstore := (Symlink (str "/l") (str "/t") 0 store0).2.

(** A content write to a new version-0 path does not look at the other
    tables: over a symlink it succeeds and leaves a file and a symlink at one
    path; a deletion then removes the symlink and the directory entry, and the
    file stays readable in a directory that does not list it. *)
Theorem put_over_symlink :
  let s := e_put (str "/l") with_symlink in
  let s' := (Delete 9 (str "/l") 1 [] [] [] s).2 in
  is_ok (Put 9 (str "/l") 0 (file_of (str "/l") h1 5) [] [] [] with_symlink).1 = true /\
  is_ok (Readlink (str "/l") (st_db s)) = true /\
  is_ok (Delete 9 (str "/l") 1 [] [] [] s).1 = true /\
  is_ok (Get (str "/l") (st_db s')) = true /\ ListChildren [slash] (st_db s') = [].
Proof. repeat split; vm_compute; reflexivity. Qed.

(** Removing a directory does not check that the path is one: on a file it
    succeeds, the file stays readable, and its directory no longer lists it. *)
Theorem dir_remove_on_file :
  let s := e_put (str "/f") store0 in
  let s' := (DirRemove 9 (str "/f") s).2 in
  is_ok (DirRemove 9 (str "/f") s).1 = true /\ is_ok (Get (str "/f") (st_db s')) = true /\
  ListChildren [slash] (st_db s') = [].
Proof. repeat split; vm_compute; reflexivity. Qed.

Definition nested_dirs : mstore := e_put (str "/a/f") (e_mkdir (str "/a/b") (e_mkdir (str "/a") store0)).

(** A directory can be renamed into its own subtree: [/a] to [/a/b/c]
    succeeds, and its contents can no longer be reached from the root. *)
Theorem rename_into_itself :
  is_ok (e_rename (str "/a") (str "/a/b/c") nested_dirs).1 = true /\
  files_of (e_rename (str "/a") (str "/a/b/c") nested_dirs).2 = [str "/a/b/c/f"] /\
  ListChildren [slash] (st_db (e_rename (str "/a") (str "/a/b/c") nested_dirs).2) = [].
Proof. repeat split; vm_compute; reflexivity. Qed.
