(* ===== verification/Handlers.v ===== *)
(** * The data-plane request handlers

    dataplane_server.go: the operation table, the path gates ([authorizePath],
    [checkAgentPath]), the session fence in front of writes, one handler per
    operation and the mapping of store errors to wire errors with their recovery
    hints.  dataplane/messages.go: the requests and responses.

    A handler is a function of the server's state.  The frame around a payload
    is that of Codec.v; msgpack is a library, so a request is either decoded or
    [Malformed].  Audit rows, metrics and the text of error messages are left
    out.  The wait of [YieldFor] is an interleaving of lease steps (Lease.v):
    [handleManifestPut] takes what it returned and runs on the state it left. *)

From S2P Require Import Prelude GoPath Codec TenantDB Journal Manifests Changes Lease ChunkStore Revert.

(** ** Wire errors *)

Definition ErrnoEIO : Z := 5.
Definition ErrnoEACCES : Z := 13.
Definition ErrnoENOENT : Z := 2.
Definition ErrnoEINVAL : Z := 22.
Definition ErrnoEEXIST : Z := 17.
Definition ErrnoENOTDIR : Z := 20.
Definition ErrnoEISDIR : Z := 21.
Definition ErrnoENOSPC : Z := 28.
Definition ErrnoENOTEMPTY : Z := 39.
Definition ErrnoEDQUOT : Z := 122.
Definition ErrnoESTALE : Z := 116.
Definition ErrnoEBUSY : Z := 16.

Record LastWriter := mkLastW {
  hw_AgentID : option gostr; hw_SessionID : option gostr; hw_AtUnixMs : Z }.

(** The kind is always [cas_conflict]; the suggested action repeats the
    current version. *)
Record RecoveryHint := mkHint {
  rh_YourVersion : Z; rh_CurrentVersion : option Z; rh_LastWriter : option LastWriter }.

Record ErrorPayload := mkErrP { ep_Errno : Z; ep_Recovery : option RecoveryHint }.

Definition errno (n : Z) : ErrorPayload := mkErrP n None.

Definition buildCasConflictHint (yourVersion : Z) (e : err) (lastWriter : option LastWriterRow)
    : RecoveryHint :=
  mkHint yourVersion
    (match e with VersionConflictError v => Some v | _ => None end)
    ((fun lw => mkLastW (if decide (lw_AgentID lw <> []) then Some (lw_AgentID lw) else None)
                  (if decide (lw_SessionID lw <> []) then Some (lw_SessionID lw) else None)
                  (lw_AtUnixMs lw)) <$> lastWriter).

(** No store error of the model is a full disk: [storageErrToWire] is then the
    fallback. *)
Definition manifestErrToWire (e : err) : ErrorPayload :=
  errno (match e with
         | ErrManifestNotFound | ErrParentNotFound => ErrnoENOENT
         | ErrAlreadyExists => ErrnoEEXIST
         | ErrVersionConflict | VersionConflictError _ => ErrnoESTALE
         | ErrNotEmpty => ErrnoENOTEMPTY
         | ErrNotDir => ErrnoENOTDIR
         | ErrIsDir => ErrnoEISDIR
         | _ => ErrnoEIO
         end).

Definition casConflict (d : tdb) (e : err) (p : gostr) (yourVersion : Z) : ErrorPayload :=
  mkErrP ErrnoESTALE (Some (buildCasConflictHint yourVersion e (LookupLastWriter p d))).

Definition manifestConflictToWire (d : tdb) (e : err) (p : gostr) (yourVersion : Z) : ErrorPayload :=
  if is_version_conflict e then casConflict d e p yourVersion else manifestErrToWire e.

(** [ioErrno] is the capacity error behind a failed write, if it is one. *)
Definition storageErrToWire (ioErrno : option Z) (e : cs_err) (fallback : Z) : ErrorPayload :=
  errno (match e with
         | errBackingQuota | errBackingStall => ErrnoEDQUOT
         | ErrIO => default fallback ioErrno
         | _ => fallback
         end).

(** ** Requests and responses *)

Record ManifestPutRequest := mkPutReq {
  pr_Path : gostr; pr_VersionExpected : Z; pr_Size : Z; pr_Mode : Z; pr_Mtime : Z;
  pr_Chunks : list WireChunkRef; pr_SessionID : option gostr; pr_AllocationID : option gostr }.

Record ManifestDeleteRequest := mkDelReq {
  dr_Path : gostr; dr_ExpectedVersion : Z;
  dr_SessionID : option gostr; dr_AllocationID : option gostr }.

Record ManifestRenameRequest := mkRenReq {
  nr_From : gostr; nr_To : gostr; nr_ExpectedVersionFrom : Z; nr_ExpectedVersionTo : Z;
  nr_NoReplace : bool; nr_SessionID : option gostr; nr_AllocationID : option gostr }.

Record LinkRequest := mkLinkReq {
  lq_From : gostr; lq_To : gostr; lq_SessionID : option gostr; lq_AllocationID : option gostr }.

Record SetattrRequest := mkSetReq {
  sr_Path : gostr; sr_Mode : Z; sr_UID : option Z; sr_GID : option Z; sr_Atime : option Z;
  sr_SessionID : option gostr; sr_AllocationID : option gostr }.

Record MknodRequest := mkMknodReq {
  mr_Path : gostr; mr_Mode : Z; mr_Rdev : Z;
  mr_SessionID : option gostr; mr_AllocationID : option gostr }.

Record EntryWire := mkEntryW {
  en_Name : gostr; en_Kind : string; en_Size : Z; en_InodeID : Z; en_Nlink : Z; en_Mode : Z;
  en_Uid : Z; en_Gid : Z; en_Atime : Z; en_Target : gostr; en_Rdev : Z; en_Mtime : Z;
  en_Version : Z }.

Inductive request :=
| RqList (p : gostr)
| RqStat (p : gostr)
| RqManifestGet (p : gostr)
| RqManifestPut (r : ManifestPutRequest)
| RqManifestDelete (r : ManifestDeleteRequest)
| RqManifestRename (r : ManifestRenameRequest)
| RqLink (r : LinkRequest)
| RqDirCreate (p : gostr) (mode : Z)
| RqDirRemove (p : gostr)
| RqSetattr (r : SetattrRequest)
| RqSymlink (p target : gostr) (mode : Z)
| RqMknod (r : MknodRequest)
| RqReadlink (p : gostr)
| RqChunkGet (h : hash)
| RqChunkHas (hashes : list Z)
| RqChunkPut (h : hash) (data : blob)
| RqJournalQuery (allocationID : gostr) (limit : Z) (cursor : gostr)
| RqJournalRevertPath (allocationID : gostr) (paths : list gostr) (force : bool)
| RqChangesFetch (r : fetchReq)
| Malformed
| Unsupported.

Inductive response :=
| RsList (entries : list EntryWire)
| RsStat (entry : EntryWire)
| RsManifestGet (version size mode mtime : Z) (chunks : list WireChunkRef)
| RsManifestPut (version : Z)
| RsDone
| RsManifestRename (newVersionAtTo : Z)
| RsLink (nlink : Z)
| RsReadlink (target : gostr)
| RsChunkGet (bytes : blob)
| RsChunkHas (present : list Z)
| RsChunkPut (stored : bool)
| RsJournalQuery (rows : list JournalQueryRow) (nextCursor : gostr)
| RsJournalRevert (reverted : list gostr) (conflicts : list JournalRevertConflict)
| RsChanges (r : fetchResp).

(** ** The server's state for one tenant *)

Record Identity := mkIdent { id_AgentID : gostr; id_ScopedAgentID : gostr }.

Record server := mkServer {
  sv_store : mstore; sv_chunks : chunkStore; sv_closed : bool;
  sv_leases : leaseManager; sv_mountLeases : mountLeaseRegistry }.

Definition set_store (st : mstore) (s : server) : server :=
  mkServer st (sv_chunks s) (sv_closed s) (sv_leases s) (sv_mountLeases s).

Definition sv_db (s : server) : tdb := st_db (sv_store s).

(** The manifest store sees the chunks that are on disk now. *)
Definition present_hashes (cs : chunkStore) : gset hash :=
  list_to_set (omap (fun kf => hex_decode kf.1.2) (map_to_list (files cs))).

Definition manifests_of (s : server) : mstore :=
  mkStore (sv_db s) (Some (present_hashes (sv_chunks s))) (st_broadcast (sv_store s)) (st_notified (sv_store s)).

Definition handler := server -> result ErrorPayload response * server.

Definition reject (e : ErrorPayload) : handler := fun s => (Err e, s).

(** A gate that may answer with an error. *)
Definition gate (c : option ErrorPayload) (k : handler) : handler :=
  match c with Some e => reject e | None => k end.

Definition answer (r : result ErrorPayload response) : handler := fun s => (r, s).

(** A call of the manifest store; [onErr] sees the database after it. *)
Definition call {A} (o : op A) (onErr : tdb -> err -> ErrorPayload) (onOk : A -> handler) : handler :=
  fun s =>
    match o (manifests_of s) with
    | (Ok x, st) => onOk x (set_store st s)
    | (Err e, st) => (Err (onErr (st_db st) e), set_store st s)
    end.

Definition sendDone : handler := answer (Ok RsDone).

(** ** The path gates *)

(** [path.Clean] of the path with a slash before it must be the path itself, in
    its form with one leading slash, and lie in the agent's directory. *)
Definition in_subtree (agent p : gostr) : bool :=
  bool_decide (p = slash :: agent) || HasPrefix p (slash :: agent ++ [slash]).

Definition checkAgentPath (ident : Identity) (p : gostr) : option ErrorPayload :=
  if decide (id_ScopedAgentID ident = []) then None
  else
    let raw := match p with c :: _ => if decide (c = slash) then p else slash :: p | [] => [slash] end in
    let cp := Clean (slash :: p) in
    if decide (cp <> raw) then Some (errno ErrnoEACCES)
    else if in_subtree (id_ScopedAgentID ident) cp then None
    else Some (errno ErrnoEACCES).

Definition derefSession (s : option gostr) : gostr := default [] s.

(** [bitmap[i/8] |= 1 << (i % 8)]. *)
Definition set_bit (i : nat) (bm : list Z) : list Z :=
  alter (fun x => Z.lor x (Z.shiftl 1 (Z.of_nat (i mod 8)))) (i / 8)%nat bm.

Definition fill_bitmap (present : list bool) (bm : list Z) : list Z :=
  foldl (fun bm ip => if (ip.2 : bool) then set_bit ip.1 bm else bm) bm
    (zip (seq 0 (length present)) present).

(** The request's buffer cut into hashes. *)
Definition cut_hashes (n : nat) (buf : list Z) : list hash :=
  (fun i => take HashLen (drop (i * HashLen) buf)) <$> seq 0 n.

Section handlers.
Context {MP : MsgPack} (blake3 : blob -> hash) (permits : gostr -> bool).

(** The order in which Go visits the shards of a batch. *)
Context (order : list (gostr * list chunkBatchItem) -> list (gostr * list chunkBatchItem)).

(** The clock in Unix milliseconds (the journal), seconds (chunk rows) and
    nanoseconds (leases). *)
Context (now nowSec nowNs : Z).

(** [authorizePath]: the policy, then the agent's subtree. *)
Definition authorizePath (ident : Identity) (p : gostr) : option ErrorPayload :=
  if permits (policyPath p) then checkAgentPath ident p else Some (errno ErrnoEACCES).

(** [resolveSessionFence]. *)
Definition fenced (ident : Identity) (connID : Z) (sessionID allocationID : option gostr)
    (k : gostr -> gostr -> gostr -> handler) : handler := fun s =>
  let sid := derefSession sessionID in
  let al := derefSession allocationID in
  let '(r, lm, reg) := checkSessionFence nowNs (id_AgentID ident) connID sid al (sv_leases s) (sv_mountLeases s) in
  let s' := mkServer (sv_store s) (sv_chunks s) (sv_closed s) lm reg in
  match r with
  | None => (Err (errno ErrnoEACCES), s')
  | Some activeLeaseHex => k sid al activeLeaseHex s'
  end.

Definition child_entry (d : tdb) (p : gostr) (c : DirChild) : EntryWire :=
  let e := mkEntryW (dc_Name c) (dc_Kind c) (dc_Size c) (dc_InodeID c) (dc_Nlink c) (dc_Mode c)
             (dc_Uid c) (dc_Gid c) (dc_Atime c) (dc_Target c) 0 (dc_Mtime c) (dc_Version c) in
  if decide (dc_Kind c = "dir"%string) then
    match SpecialNodeInfo (joinVirtual p (dc_Name c)) d with
    | Some (mode, rdev, uid, gid, atime, kind) =>
        mkEntryW (en_Name e) kind 0 (en_InodeID e) (en_Nlink e) mode uid gid atime (en_Target e)
          rdev (en_Mtime e) (en_Version e)
    | None => e
    end
  else e.

Definition handleList (ident : Identity) (p : gostr) : handler :=
  gate (authorizePath ident p) (fun s =>
    let children := filter (fun c => permits (policyPath (joinVirtual p (dc_Name c))) = true)
                      (ListChildren p (sv_db s)) in
    (Ok (RsList (child_entry (sv_db s) p <$> children)), s)).

Definition stat_entry (p : gostr) (d : tdb) : result ErrorPayload EntryWire :=
  let base := Base p in
  match Get p d with
  | Ok mf => Ok (mkEntryW base "file" (mf_Size mf) (mf_InodeID mf) (mf_Nlink mf) (mf_Mode mf)
                   (mf_Uid mf) (mf_Gid mf) (mf_Atime mf) [] 0 (mf_Mtime mf) (mf_Version mf))
  | Err ErrManifestNotFound =>
      match SymlinkInfo p d with
      | Some (target, mode, uid, gid, atime) =>
          Ok (mkEntryW base "symlink" (Z.of_nat (length target)) 0 0 mode uid gid atime target 0 0 0)
      | None =>
          match SpecialNodeInfo p d with
          | Some (mode, rdev, uid, gid, atime, kind) =>
              Ok (mkEntryW base kind 0 0 0 mode uid gid atime [] rdev 0 0)
          | None =>
              match DirInfo p d with
              | Some (mode, uid, gid, atime) => Ok (mkEntryW base "dir" 0 0 0 mode uid gid atime [] 0 0 0)
              | None => Err (errno ErrnoENOENT)
              end
          end
      end
  | Err _ => Err (errno ErrnoEIO)
  end.

Definition handleStat (ident : Identity) (p : gostr) : handler :=
  gate (authorizePath ident p) (fun s =>
    (match stat_entry p (sv_db s) with Ok e => Ok (RsStat e) | Err e => Err e end, s)).

Definition handleManifestGet (ident : Identity) (p : gostr) : handler :=
  gate (authorizePath ident p) (fun s =>
    (match Get p (sv_db s) with
     | Ok mf => Ok (RsManifestGet (mf_Version mf) (mf_Size mf) (mf_Mode mf) (mf_Mtime mf)
                      (toWireChunks (mf_Chunks mf)))
     | Err ErrManifestNotFound => Err (errno ErrnoENOENT)
     | Err _ => Err (errno ErrnoEIO)
     end, s)).

(** What [YieldFor] returned. *)
Inductive yieldResult := Yielded | YieldLeaseHeld | YieldFailed.

Definition yield_gate (y : yieldResult) : option ErrorPayload :=
  match y with
  | Yielded => None
  | YieldLeaseHeld => Some (errno ErrnoEBUSY)
  | YieldFailed => Some (errno ErrnoEIO)
  end.

Definition handleManifestPut (y : yieldResult) (ident : Identity) (connID : Z)
    (req : ManifestPutRequest) : handler :=
  let p := pr_Path req in
  gate (authorizePath ident p) (gate (yield_gate y) (
    let mf := mkManifest p 0 0 (pr_Size req) (pr_Mode req) (pr_Mtime req) 0
                (fromWireChunks (pr_Chunks req)) 0 0 0 in
    fenced ident connID (pr_SessionID req) (pr_AllocationID req) (fun sid al hex =>
      call (PutWithLeaseCheck now p (pr_VersionExpected req) mf sid al (id_AgentID ident) hex)
        (fun d e => if is_version_conflict e then casConflict d e p (pr_VersionExpected req)
                    else errno ErrnoEIO)
        (fun newVersion => answer (Ok (RsManifestPut newVersion)))))).

Definition handleManifestDelete (ident : Identity) (connID : Z) (req : ManifestDeleteRequest) : handler :=
  gate (authorizePath ident (dr_Path req)) (
    fenced ident connID (dr_SessionID req) (dr_AllocationID req) (fun sid al hex =>
      call (DeleteWithLeaseCheck now (dr_Path req) (dr_ExpectedVersion req) sid al (id_AgentID ident) hex)
        (fun d e => manifestConflictToWire d e (dr_Path req) (dr_ExpectedVersion req))
        (fun _ => sendDone))).

Definition both_permitted (from to : gostr) : option ErrorPayload :=
  if permits (policyPath from) && permits (policyPath to) then None else Some (errno ErrnoEACCES).

Definition handleManifestRename (ident : Identity) (connID : Z) (req : ManifestRenameRequest) : handler :=
  gate (both_permitted (nr_From req) (nr_To req)) (
  gate (checkAgentPath ident (nr_From req)) (gate (checkAgentPath ident (nr_To req)) (
    fenced ident connID (nr_SessionID req) (nr_AllocationID req) (fun sid al hex =>
      call (RenameWithLeaseCheck now (nr_From req) (nr_To req) (nr_ExpectedVersionFrom req)
              (nr_ExpectedVersionTo req) (nr_NoReplace req) sid al (id_AgentID ident) hex)
        (fun d e => manifestConflictToWire d e (nr_From req) (nr_ExpectedVersionFrom req))
        (fun newV => answer (Ok (RsManifestRename newV))))))).

Definition handleLink (ident : Identity) (connID : Z) (req : LinkRequest) : handler :=
  gate (both_permitted (lq_From req) (lq_To req)) (
  gate (checkAgentPath ident (lq_From req)) (gate (checkAgentPath ident (lq_To req)) (
    fenced ident connID (lq_SessionID req) (lq_AllocationID req) (fun sid al hex =>
      call (LinkWithLeaseCheck now (lq_From req) (lq_To req) sid al (id_AgentID ident) hex)
        (fun _ => manifestErrToWire)
        (fun n => answer (Ok (RsLink n))))))).

Definition handleDirCreate (ident : Identity) (p : gostr) (mode : Z) : handler :=
  gate (authorizePath ident p) (call (DirCreate p mode) (fun _ => manifestErrToWire) (fun _ => sendDone)).

Definition handleDirRemove (ident : Identity) (p : gostr) : handler :=
  gate (authorizePath ident p) (call (DirRemove now p) (fun _ => manifestErrToWire) (fun _ => sendDone)).

Definition statOwner (p : gostr) (d : tdb) : result err (Z * Z) :=
  match Get p d with
  | Ok mf => Ok (mf_Uid mf, mf_Gid mf)
  | Err ErrManifestNotFound =>
      match SymlinkInfo p d with
      | Some (_, _, uid, gid, _) => Ok (uid, gid)
      | None =>
          match SpecialNodeInfo p d with
          | Some (_, _, uid, gid, _, _) => Ok (uid, gid)
          | None => match DirInfo p d with
                    | Some (_, uid, gid, _) => Ok (uid, gid)
                    | None => Ok (0, 0)
                    end
          end
      end
  | Err e => Err e
  end.

Definition setattr_owner (req : SetattrRequest) (k : handler) : handler := fun s =>
  if decide (sr_UID req = None /\ sr_GID req = None) then k s
  else
    match statOwner (sr_Path req) (sv_db s) with
    | Err e => (Err (manifestErrToWire e), s)
    | Ok (curUID, curGID) =>
        call (SetOwner (sr_Path req) (default curUID (sr_UID req)) (default curGID (sr_GID req)))
          (fun _ => manifestErrToWire) (fun _ => k) s
    end.

Definition setattr_atime (req : SetattrRequest) (k : handler) : handler :=
  match sr_Atime req with
  | None => k
  | Some atime => call (SetAtime (sr_Path req) atime) (fun _ => manifestErrToWire) (fun _ => k)
  end.

Definition handleSetattr (ident : Identity) (connID : Z) (req : SetattrRequest) : handler :=
  gate (authorizePath ident (sr_Path req)) (
    fenced ident connID (sr_SessionID req) (sr_AllocationID req) (fun sid al hex =>
      call (SetMode now (sr_Path req) (sr_Mode req) sid al (id_AgentID ident) hex)
        (fun _ => manifestErrToWire)
        (fun _ => setattr_owner req (setattr_atime req sendDone)))).

Definition handleSymlink (ident : Identity) (p target : gostr) (mode : Z) : handler :=
  gate (authorizePath ident p) (call (Symlink p target mode) (fun _ => manifestErrToWire) (fun _ => sendDone)).

Definition handleMknod (ident : Identity) (connID : Z) (req : MknodRequest) : handler :=
  gate (authorizePath ident (mr_Path req)) (
    fenced ident connID (mr_SessionID req) (mr_AllocationID req) (fun _ _ _ =>
      call (Mknod (mr_Path req) (mr_Mode req) (mr_Rdev req)) (fun _ => manifestErrToWire) (fun _ => sendDone))).

Definition handleReadlink (ident : Identity) (p : gostr) : handler :=
  gate (authorizePath ident p) (fun s =>
    (match Readlink p (sv_db s) with
     | Ok target => Ok (RsReadlink target)
     | Err e => Err (manifestErrToWire e)
     end, s)).

Definition handleChunkGet (h : hash) : handler := fun s =>
  if decide (length h <> HashLen) then (Err (errno ErrnoEINVAL), s)
  else (match chunkGet h (sv_chunks s) with
        | Ok bytes => Ok (RsChunkGet bytes)
        | Err ErrNotExist => Err (errno ErrnoENOENT)
        | Err _ => Err (errno ErrnoEIO)
        end, s).

Definition handleChunkHas (hashes : list Z) : handler := fun s =>
  if decide ((length hashes mod HashLen)%nat <> 0%nat) then (Err (errno ErrnoEINVAL), s)
  else
    let n := (length hashes / HashLen)%nat in
    (match HasMany order (cut_hashes n hashes) (sv_chunks s) with
     | Err _ => Err (errno ErrnoEIO)
     | Ok present => Ok (RsChunkHas (fill_bitmap present (replicate ((n + 7) / 8) 0)))
     end, s).

(** A failed bookkeeping row is only logged. *)
Definition handleChunkPut (cap : option cs_err) (wr : writeOutcome) (ioErrno : option Z)
    (h : hash) (data : blob) : handler := fun s =>
  if maxChunkBytes <? Z.of_nat (length data) then (Err (errno ErrnoEINVAL), s)
  else if sv_closed s then (Err (errno ErrnoESTALE), s)
  else
    match putUnlocked blake3 cap wr h data (sv_chunks s) with
    | (Err e, cs) =>
        (Err (storageErrToWire ioErrno e ErrnoEINVAL),
         mkServer (sv_store s) cs (sv_closed s) (sv_leases s) (sv_mountLeases s))
    | (Ok stored, cs) =>
        let d := match NoteChunkStored h (Z.of_nat (length data)) nowSec (sv_db s) with
                 | Ok (_, d) => d
                 | Err _ => sv_db s
                 end in
        (Ok (RsChunkPut stored),
         mkServer (set_db d (sv_store s)) cs (sv_closed s) (sv_leases s) (sv_mountLeases s))
    end.

(** ** Journal and change feed *)

Definition handleJournalQuery (allocationID : gostr) (limit : Z) (cursor : gostr) : handler := fun s =>
  let userAllocations := if decide (allocationID = []) then ListAllocations (sv_db s) else [] in
  let '(rows, nextCursor) := Query allocationID limit cursor userAllocations (sv_db s) in
  (Ok (RsJournalQuery rows nextCursor), s).

(** The first path that the agent may not touch. *)
Fixpoint checkAgentPaths (ident : Identity) (ps : list gostr) : option ErrorPayload :=
  match ps with
  | [] => None
  | p :: ps' => match checkAgentPath ident p with Some e => Some e | None => checkAgentPaths ident ps' end
  end.

Definition handleJournalRevertPath (ident : Identity) (allocationID : gostr) (paths : list gostr)
    (force : bool) : handler :=
  gate (if decide (allocationID = []) then Some (errno ErrnoEINVAL) else None) (
  gate (if decide (paths = []) then Some (errno ErrnoEINVAL) else None) (
  gate (checkAgentPaths ident paths) (fun s =>
    match RevertPaths now allocationID paths None None
            (writerSessionForRevert allocationID (sv_mountLeases s)) (id_AgentID ident) force
            (manifests_of s) with
    | ((Some _, _), st) => (Err (errno ErrnoEIO), set_store st s)
    | ((None, rep), st) => (Ok (RsJournalRevert (rr_reverted rep) (rr_conflicts rep)), set_store st s)
    end))).

Definition handleChanges (ident : Identity) (req : fetchReq) : handler := fun s =>
  (match handleChangesFetch permits (id_ScopedAgentID ident) req (sv_db s) with
   | Ok r => Ok (RsChanges r)
   | Err FetchEINVAL => Err (errno ErrnoEINVAL)
   | Err (FetchEIO _) => Err (errno ErrnoEIO)
   end, s).

(** ** The operation table *)

(** What the environment answers while a request runs: the lease wait, the
    capacity guard and the disk. *)
Record environment := mkEnv {
  ev_yield : yieldResult; ev_cap : option cs_err; ev_write : writeOutcome; ev_errno : option Z }.

Definition handleRequest (ev : environment) (ident : Identity) (connID : Z) (rq : request) : handler :=
  match rq with
  | RqList p => handleList ident p
  | RqStat p => handleStat ident p
  | RqManifestGet p => handleManifestGet ident p
  | RqManifestPut r => handleManifestPut (ev_yield ev) ident connID r
  | RqManifestDelete r => handleManifestDelete ident connID r
  | RqManifestRename r => handleManifestRename ident connID r
  | RqLink r => handleLink ident connID r
  | RqDirCreate p mode => handleDirCreate ident p mode
  | RqDirRemove p => handleDirRemove ident p
  | RqSetattr r => handleSetattr ident connID r
  | RqSymlink p target mode => handleSymlink ident p target mode
  | RqMknod r => handleMknod ident connID r
  | RqReadlink p => handleReadlink ident p
  | RqChunkGet h => handleChunkGet h
  | RqChunkHas hashes => handleChunkHas hashes
  | RqChunkPut h data => handleChunkPut (ev_cap ev) (ev_write ev) (ev_errno ev) h data
  | RqJournalQuery al limit cursor => handleJournalQuery al limit cursor
  | RqJournalRevertPath al paths force => handleJournalRevertPath ident al paths force
  | RqChangesFetch r => handleChanges ident r
  | Malformed | Unsupported => reject (errno ErrnoEINVAL)
  end.
End handlers.
