(* ===== verification/HandlerProps.v ===== *)
(** * The request handlers keep their promises

    An agent-scoped connection changes only files of its own subtree
    ([agent_moat]); a request that is answered with an error has changed
    nothing; the hint of a version conflict is enough for the retry; the presence
    bitmap says of each chunk whether it is on disk; a listing and a stat of a
    file agree. *)

From S2P Require Import Prelude GoPath Codec TenantDB Journal Manifests FileSpec Refine ManifestProps Changes Lease ChunkStore Gc Disk DiskProps GcProps Revert ManifestEdges Handlers.

(** ** The moat *)

(** A directory and what is below it. *)
Definition under (root p : gostr) : bool :=
  bool_decide (p = root) || bool_decide ((root ++ [slash]) `prefix_of` p).

(** The paths of an agent: those under the directory of its name.  A path
    without its leading slash belongs to the same agent as with it. *)
Definition mine (agent p : gostr) : bool :=
  under (slash :: agent) p || under (slash :: agent) (slash :: p).

Lemma in_subtree_under agent p : in_subtree agent p = under (slash :: agent) p.
Proof. done. Qed.

Lemma checkAgentPath_mine ident p :
  id_ScopedAgentID ident <> [] -> checkAgentPath ident p = None -> mine (id_ScopedAgentID ident) p = true.
Proof.
  intros Hs. unfold checkAgentPath, mine. rewrite decide_False by done.
  case_decide as Hc; [done |]. rewrite Hc, !in_subtree_under.
  destruct p as [|c p]; [destruct (under _ [slash]); [by rewrite orb_true_r | done] |].
  destruct (decide (c = slash)) as [->|].
  - by destruct (under _ (slash :: p)).
  - destruct (under _ (slash :: c :: p)); [| done]. by rewrite orb_true_r.
Qed.

Section moat.
Context (agent : gostr).

(** An inode with names, all of them of others. *)
Definition foreign (a : afs) (i : Z) : Prop :=
  (exists q, names a !! q = Some i) /\ forall p, names a !! p = Some i -> mine agent p = false.

(** [moat a a']: the names and the files of others are as they were. *)
Definition moat (a a' : afs) : Prop :=
  (forall q, mine agent q = false -> names a' !! q = names a !! q) /\
  (forall i, foreign a i -> inodes a' !! i = inodes a !! i /\ foreign a' i).

#[export] Instance moat_preorder : PreOrder moat.
Proof.
  split; [done |]. intros a b c [N1 F1] [N2 F2]. split.
  - intros q Hq. by rewrite N2, N1.
  - intros i Hi. destruct (F1 i Hi) as [E1 H1]. destruct (F2 i H1) as [E2 H2]. by rewrite E2.
Qed.

(** A step that changes names of this agent only, and gives them no inode of
    others, leaves the others' files alone. *)
Lemma moat_intro a a' :
  (forall q, mine agent q = false -> names a' !! q = names a !! q) ->
  (forall p i, mine agent p = true -> names a' !! p = Some i -> ~ foreign a i) ->
  (forall i, foreign a i -> inodes a' !! i = inodes a !! i) ->
  moat a a'.
Proof.
  intros HN HP HI. split; [done |]. intros i Hi. split; [by apply HI |].
  pose proof Hi as [[q Hq] Hall]. split.
  - exists q. rewrite HN; [done |]. by apply Hall.
  - intros p Hp. destruct (mine agent p) eqn:Hm; [| done]. exfalso. by eapply HP.
Qed.

Lemma foreign_not_mine a p i : mine agent p = true -> names a !! p = Some i -> ~ foreign a i.
Proof. intros Hm Hp [_ H]. specialize (H p Hp). congruence. Qed.

Lemma moat_write a p i x : mine agent p = true -> names a !! p = Some i -> moat a (spec_write i x a).
Proof.
  intros Hm Hp. apply moat_intro; simpl; [done | by intros; eapply foreign_not_mine |].
  intros j Hj. rewrite lookup_insert_ne; [done |]. intros ->. by apply (foreign_not_mine a p j).
Qed.

Lemma moat_create a p i x :
  mine agent p = true -> (forall q, names a !! q <> Some i) -> moat a (spec_create p i x a).
Proof.
  intros Hm Hi. apply moat_intro; simpl.
  - intros q Hq. rewrite lookup_insert_ne; [done | congruence].
  - intros q j Hq [[<- <-]|[_ Hj]]%lookup_insert_Some; [| by apply (foreign_not_mine a q j)].
    intros [[q' Hq'] _]. by eapply Hi.
  - intros j [[q Hq] _]. rewrite lookup_insert_ne; [done |]. intros <-. by eapply Hi.
Qed.

Lemma moat_link a from to i :
  mine agent from = true -> mine agent to = true -> names a !! from = Some i ->
  moat a (spec_link to i a).
Proof.
  intros Hf Ht Hn. apply moat_intro; simpl; [| | done].
  - intros q Hq. rewrite lookup_insert_ne; [done | congruence].
  - intros q j Hq [[<- <-]|[_ Hj]]%lookup_insert_Some; [by apply (foreign_not_mine a from) | by apply (foreign_not_mine a q)].
Qed.

Lemma moat_unlink a p : mine agent p = true -> moat a (spec_unlink p a).
Proof.
  intros Hm. unfold spec_unlink. destruct (names a !! p) as [i|] eqn:Hp; [| done].
  apply moat_intro; simpl.
  - intros q Hq. rewrite lookup_delete_ne; [done | congruence].
  - intros q j Hq [_ Hj]%lookup_delete_Some. by apply (foreign_not_mine a q).
  - intros j Hj. destruct (has_alias p i a); [done |]. rewrite lookup_delete_ne; [done |].
    intros ->. by apply (foreign_not_mine a p j).
Qed.

Lemma moat_move a from to :
  mine agent from = true -> mine agent to = true -> moat a (spec_move from to a).
Proof.
  intros Hf Ht. unfold spec_move. destruct (names a !! from) as [i|] eqn:Hn; [| done].
  apply moat_intro; simpl; [| | done].
  - intros q Hq. rewrite lookup_insert_ne, lookup_delete_ne; [done | congruence | congruence].
  - intros q j Hq [[<- <-]|[_ [_ Hj]%lookup_delete_Some]]%lookup_insert_Some;
      [by apply (foreign_not_mine a from) | by apply (foreign_not_mine a q)].
Qed.

Lemma mine_below p r : mine agent p = true -> mine agent (p ++ slash :: r) = true.
Proof.
  assert (forall root q, under root q = true -> under root (q ++ slash :: r) = true) as Hu.
  { intros root q. unfold under. rewrite !orb_true_iff, !bool_decide_eq_true. intros [->|[k ->]]; right.
    - exists r. by rewrite <- app_assoc.
    - exists (k ++ slash :: r). by rewrite <- app_assoc. }
  unfold mine. rewrite !orb_true_iff. intros [H|H]; [left | right; rewrite app_comm_cons]; by apply Hu.
Qed.

Lemma moat_tree a a' from to :
  mine agent from = true -> mine agent to = true -> inodes a' = inodes a ->
  tree_moved from to id (names a) (names a') -> moat a a'.
Proof.
  intros Hf Ht Hi Hm. apply moat_intro; [| | by rewrite Hi].
  - intros q Hq. apply option_eq. intros i. rewrite (Hm q i). split.
    + intros [(r & y & _ & -> & _)|[? _]]; [by rewrite mine_below in Hq | done].
    + intros Hn. right. split; [done |]. intros [r ->]. by rewrite mine_below in Hq.
  - intros p i Hp [(r & y & Hy & _ & ->)|[Hn _]]%Hm; [| by apply (foreign_not_mine a p)].
    apply (foreign_not_mine a (from ++ slash :: r)); [by apply mine_below | done].
Qed.
End moat.

(** ** Store operations inside the moat *)

Definition op_safe {A} (agent : gostr) (o : op A) (st : mstore) : Prop :=
  forall a, Inv (st_db st) a -> exists a', Inv (st_db (o st).2) a' /\ moat agent a a'.

Lemma safe_tx {A} agent (t : tx (outcome A)) st :
  (forall a x e rev d, Inv (st_db st) a -> t (st_db st) = Ok (Commit x e rev, d) ->
     exists a', Inv d a' /\ moat agent a a') ->
  op_safe agent (run_tx t) st.
Proof.
  intros Ht a I. unfold run_tx. destruct (t (st_db st)) as [[[y e rev|y] d]|e] eqn:E; simpl;
    [by eapply Ht | by exists a | by exists a].
Qed.

Lemma safe_keeps {A} agent (t : tx (outcome A)) st : keeps t -> op_safe agent (run_tx t) st.
Proof.
  intros Hk. apply safe_tx. intros a x e rev d I Ht. exists a. split; [| done].
  eapply Inv_core; [| exact I]. symmetry. by eapply Hk.
Qed.

Lemma safe_fail {A} agent e st : op_safe agent (fail e : op A) st.
Proof. intros a I. by exists a. Qed.

Lemma safe_leaseCheck {A} agent sid hex (o : op A) st :
  op_safe agent o st -> op_safe agent (withLeaseCheck sid hex o) st.
Proof. unfold op_safe, withLeaseCheck. intros Ho. case_match; [apply safe_fail | done]. Qed.

(** A source whose descendants, if it is a directory, the pattern of the rename
    finds without error. *)
Definition clear_name (from : gostr) (d : tdb) : Prop :=
  resolveKind from d = nodeDir -> plain from /\ no_wildcard from /\ unambiguous from (manifests d).

Section safe_ops.
Context {MP : MsgPack} (now : Z) (agent : gostr).

Lemma safe_Put p v mf sid al ag st :
  mine agent p = true -> Forall wf_ref (mf_Chunks mf) ->
  op_safe agent (Put now p v mf sid al ag) st.
Proof.
  intros Hm Hwf. unfold op_safe, Put. repeat (case_decide; [apply safe_fail |]).
  destruct (negb _); [apply safe_fail |]. apply safe_tx. intros a x e rev d I Ht.
  destruct (putTx_refines now p v mf sid al ag _ a _ _ I Hwf Ht) as [_ (a' & Hs & I')].
  exists a'. split; [done |]. unfold put_spec in Hs. case_decide.
  - destruct Hs as [_ ->]. apply moat_create; [done |]. intros q.
    apply (inv_fresh_name _ _ I). lia.
  - destruct Hs as (i & y & Hn & _ & _ & ->). by apply (moat_write agent a p).
Qed.

Lemma safe_Delete p v sid al ag st :
  mine agent p = true -> op_safe agent (Delete now p v sid al ag) st.
Proof.
  intros Hm a I. unfold Delete, fail. case_decide; [by exists a |].
  destruct (safe_keeps agent _ st (keeps_deleteSpecialNode now p) a I) as (a1 & I1 & M1).
  unfold deleteSpecialNode in *. destruct (run_tx _ st) as [[u|e] s1]; [by exists a1 |].
  destruct e; try by exists a1.
  destruct (safe_keeps agent _ s1 (keeps_deleteSymlink now p) a1 I1) as (a2 & I2 & M2).
  unfold deleteSymlink in *. destruct (run_tx (deleteSymlinkTx now p) s1) as [[u|e] s2];
    [exists a2; split; [done | by etrans] |].
  destruct e; try by (exists a2; split; [done | by etrans]).
  destruct (safe_tx agent (deleteTx now p v sid al ag) s2) with (a := a2) as (a3 & I3 & M3); [| done |].
  - intros b x e rev d Ib Ht. eapply deleteTx_refines in Ht as (_ & _ & I'); [| done].
    eexists. split; [done |]. by apply moat_unlink.
  - exists a3. split; [done |]. by do 2 (etrans; [done |]).
Qed.

Lemma safe_Link from to sid al ag st :
  mine agent from = true -> mine agent to = true -> op_safe agent (Link now from to sid al ag) st.
Proof.
  intros Hf Ht. unfold op_safe, Link. case_decide; [apply safe_fail |]. apply safe_tx.
  intros a x e rev d I Hl. eapply linkTx_refines in Hl as (i & ? & ? & Hn & _ & I' & _); [| done].
  eexists. split; [done |]. by apply (moat_link agent a from).
Qed.

Lemma safe_Rename from to vf vt nr sid al ag st :
  mine agent from = true -> mine agent to = true -> clear_name from (st_db st) ->
  op_safe agent (renameOpt now from to vf vt nr sid al ag) st.
Proof.
  intros Hf Ht Hk. unfold op_safe, renameOpt. case_decide; [apply safe_fail |]. apply safe_tx.
  intros a x e rev d I Hl. eapply renameTx_refines in Hl as (a' & Hs & I'); [| done].
  exists a'. split; [done |]. unfold rename_spec in Hs.
  assert (moat agent a (without_dest to (resolveKind to (st_db st)) a)) as M.
  { unfold without_dest. case_decide; [by apply moat_unlink | done]. }
  unfold clear_name in Hk. destruct (resolveKind from (st_db st)); [done | | by subst a' | by subst a' |].
  2: { destruct (Hk eq_refl) as (Hp & Hw & Hu). destruct Hs as [_ Hs].
    destruct (reparented_tree from to a a' Hp Hw) as [Hi Hm]; [| done | by apply (moat_tree agent a a' from to)].
    intros q r i (s & Hs' & _)%(inv_name_row _ _ I). by eapply Hu. }
  destruct Hs as (i & y & Hn & _ & _ & Hne & _ & ->). etrans; [exact M |].
  etrans; [by apply (moat_move agent _ from to) |].
  apply (moat_write agent _ to); [done |]. unfold spec_move.
  enough (names (without_dest to (resolveKind to (st_db st)) a) !! from = Some i) as ->
    by (simpl; by rewrite lookup_insert_eq).
  unfold without_dest, spec_unlink. case_decide; [| done]. destruct (names a !! to) eqn:Et; [| done].
  simpl. rewrite lookup_delete_ne; [done |]. intros ->. congruence.
Qed.

Lemma safe_setMeta fm fs fn fd (g : inode -> inode) p st :
  mine agent p = true ->
  (forall rev r, m_inode (fm rev r) = m_inode r) ->
  (forall rev r x, row_inode r = Some x -> row_inode (fm rev r) = Some (g x)) ->
  (forall x, i_chunks (g x) = i_chunks x) ->
  op_safe agent (run_tx (setMetaTx fm fs fn fd p)) st.
Proof.
  intros Hm H1 H2 H3. apply safe_tx. intros a x e rev d I Ht.
  eapply (setMetaTx_refines _ _ _ _ g) in Ht; [| done..]. eexists. split; [done |].
  destruct (names a !! p) as [i|] eqn:Hp; [| done]. destruct (inodes a !! i); [| done].
  by apply (moat_write agent a p).
Qed.

Lemma safe_SetOwner p uid gid st : mine agent p = true -> op_safe agent (SetOwner p uid gid) st.
Proof.
  intros Hm. apply (safe_setMeta _ _ _ _ (with_owner uid gid)); try done.
  intros rev r x. apply row_inode_owner.
Qed.

Lemma safe_SetAtime p at_ st : mine agent p = true -> op_safe agent (SetAtime p at_) st.
Proof.
  intros Hm. apply (safe_setMeta _ _ _ _ (with_atime at_)); try done.
  intros rev r x. apply row_inode_atime.
Qed.

Lemma safe_SetMode p mode sid al ag hex st :
  mine agent p = true -> op_safe agent (SetMode now p mode sid al ag hex) st.
Proof.
  intros Hm a I. unfold SetMode. destruct (Get p (st_db st)) as [mf|e] eqn:Hg.
  - destruct (Get_Ok p _ mf a I Hg) as (i & x & _ & _ & Hwf & _).
    destruct (safe_leaseCheck agent sid hex (Put now p (mf_Version mf)
      (set_mf_mode (Z.land mode 4095) mf) sid al ag) st) with (a := a) as (a' & I' & M); [| done |].
    { by apply safe_Put. }
    unfold PutWithLeaseCheck. exists a'.
    by destruct (withLeaseCheck _ _ _ st) as [[v|e] s'].
  - destruct e; try by exists a. by apply (safe_keeps agent _ _ (keeps_setMode p _)).
Qed.
End safe_ops.

(** ** Handlers inside the moat *)

Definition safe_at (agent : gostr) (k : handler) (s : server) : Prop :=
  forall a, Inv (sv_db s) a -> exists a', Inv (sv_db (k s).2) a' /\ moat agent a a'.

Lemma safe_same agent k s : sv_db (k s).2 = sv_db s -> safe_at agent k s.
Proof. intros Hk a I. exists a. by rewrite Hk. Qed.

Lemma safe_gate agent c k s : (c = None -> safe_at agent k s) -> safe_at agent (gate c k) s.
Proof. intros Hk. destruct c; [by apply safe_same | by apply Hk]. Qed.

Lemma safe_fenced agent nowNs ident connID sid al k s :
  (forall x y hex s1, sv_db s1 = sv_db s -> safe_at agent (k x y hex) s1) ->
  safe_at agent (fenced nowNs ident connID sid al k) s.
Proof.
  intros Hk. unfold safe_at, fenced.
  destruct (checkSessionFence _ _ _ _ _ _ _) as [[[hex|] lm] reg]; [exact (Hk _ _ hex (mkServer _ _ _ _ _) eq_refl) |].
  intros a I. by exists a.
Qed.

Lemma safe_call {A} agent (o : op A) onErr onOk s :
  op_safe agent o (manifests_of s) -> (forall x s1, safe_at agent (onOk x) s1) ->
  safe_at agent (call o onErr onOk) s.
Proof.
  intros Ho Hk a I. destruct (Ho a I) as (a1 & I1 & M1). unfold call.
  destruct (o (manifests_of s)) as [[x|e] st]; [| by exists a1].
  destruct (Hk x (set_store st s) a1 I1) as (a2 & I2 & M2).
  exists a2. split; [done |]. by etrans.
Qed.

(** The requests that the moat is about: well-formed chunk lists, renames of
    directories only under a name whose pattern matches nothing else (see
    [moat_breach]) and no revert (its rows may name a second path). *)
Definition moat_scope (rq : request) (d : tdb) : Prop :=
  match rq with
  | RqManifestPut r => Forall wf_wire (pr_Chunks r)
  | RqManifestRename r => clear_name (nr_From r) d
  | RqJournalRevertPath _ _ _ => False
  | _ => True
  end.

(** ** The presence bitmap *)

(** Bit [i % 8] of byte [i / 8]. *)
Definition getbit (bm : list Z) (i : nat) : bool :=
  Z.testbit (default 0 (bm !! (i / 8)%nat)) (Z.of_nat (i mod 8)).

Lemma length_set_bit i bm : length (set_bit i bm) = length bm.
Proof. apply length_alter. Qed.

Lemma getbit_set_bit i j bm :
  (i / 8 < length bm)%nat -> getbit (set_bit i bm) j = getbit bm j || bool_decide (i = j).
Proof.
  intros Hi. unfold getbit, set_bit. destruct (decide (i / 8 = j / 8)%nat) as [Hd|Hd].
  - destruct (lookup_lt_is_Some_2 bm (i / 8)%nat Hi) as [x Hx].
    rewrite Hd in Hx |- *. rewrite list_lookup_alter_eq, Hx. cbn [fmap option_fmap option_map from_option id].
    rewrite Z.lor_spec, Z.shiftl_1_l, Z.pow2_bits_eqb by lia. f_equal.
    pose proof (Nat.div_mod_eq i 8). pose proof (Nat.div_mod_eq j 8).
    destruct (Z.eqb_spec (Z.of_nat (i mod 8)) (Z.of_nat (j mod 8)));
      [rewrite bool_decide_true; [done | lia] | rewrite bool_decide_false; [done | congruence]].
  - rewrite list_lookup_alter_ne by done. rewrite bool_decide_false by congruence.
    by rewrite orb_false_r.
Qed.

Lemma fill_from k l bm :
  (k + length l <= 8 * length bm)%nat ->
  let bm' := foldl (fun bm ip => if (ip.2 : bool) then set_bit ip.1 bm else bm) bm
               (zip (seq k (length l)) l) in
  length bm' = length bm /\
  forall j, getbit bm' j =
    getbit bm j || (bool_decide (k <= j)%nat && default false (l !! (j - k)%nat)).
Proof.
  revert k bm. induction l as [|b l IH]; intros k bm Hk; simpl in *.
  - split; [done |]. intros j. by rewrite andb_false_r, orb_false_r.
  - set (bm1 := if b then set_bit k bm else bm).
    assert (length bm1 = length bm) as Hl by (subst bm1; destruct b; [apply length_set_bit | done]).
    destruct (IH (S k) bm1) as [IHl IHb]; [lia |]. split; [by rewrite IHl |].
    intros j. rewrite IHb.
    assert (getbit bm1 j = getbit bm j || (b && bool_decide (k = j))) as ->.
    { subst bm1. destruct b; [| by rewrite orb_false_r].
      apply getbit_set_bit. apply Nat.Div0.div_lt_upper_bound. lia. }
    rewrite <- orb_assoc. f_equal. destruct (decide (k = j)) as [<-|Hne].
    + rewrite (bool_decide_true (k = k)), (bool_decide_true (k <= k)%nat), (bool_decide_false (S k <= k)%nat) by lia.
      rewrite Nat.sub_diag. simpl. by destruct b.
    + rewrite (bool_decide_false (k = j)), andb_false_r by done. simpl.
      destruct (decide (k <= j)%nat).
      * rewrite !bool_decide_true by lia. by replace (j - k)%nat with (S (j - S k)) by lia.
      * rewrite !bool_decide_false by lia. done.
Qed.

(** The bitmap has bit [i] exactly for the items that are present. *)
Lemma fill_bitmap_spec present n :
  (length present <= 8 * n)%nat ->
  length (fill_bitmap present (replicate n 0)) = n /\
  forall i, getbit (fill_bitmap present (replicate n 0)) i = default false (present !! i).
Proof.
  intros Hn. unfold fill_bitmap. destruct (fill_from 0 present (replicate n 0)) as [Hl Hb];
    [by rewrite length_replicate |]. split; [by rewrite Hl, length_replicate |].
  intros i. rewrite Hb, Nat.sub_0_r. unfold getbit at 1.
  replace (Z.testbit _ _) with false; [done |].
  destruct (replicate n 0 !! (i / 8)%nat) eqn:E; simpl; [| by rewrite Z.testbit_0_l].
  apply lookup_replicate in E as [-> _]. by rewrite Z.testbit_0_l.
Qed.

Lemma cut_hashes_wf n buf :
  Forall is_byte buf -> (n * HashLen <= length buf)%nat -> Forall wf_hash (cut_hashes n buf).
Proof.
  intros Hb Hn. apply Forall_forall. intros h (i & -> & Hi)%list_elem_of_fmap.
  apply elem_of_seq in Hi. split.
  - rewrite length_take, length_drop. unfold HashLen in *. lia.
  - by apply Forall_take, Forall_drop.
Qed.

Section claims.
Context {MP : MsgPack} (blake3 : blob -> hash) (permits : gostr -> bool).
Context (order : list (gostr * list chunkBatchItem) -> list (gostr * list chunkBatchItem)).
Context (now nowSec nowNs : Z).

Lemma authorizePath_mine ident p :
  id_ScopedAgentID ident <> [] -> authorizePath permits ident p = None ->
  mine (id_ScopedAgentID ident) p = true.
Proof.
  intros Hs. unfold authorizePath. destruct (permits _); [by apply checkAgentPath_mine | done].
Qed.

(** A store call behind the path gate. *)
Lemma safe_authorized {A} ident p (o : op A) onErr s :
  id_ScopedAgentID ident <> [] ->
  (mine (id_ScopedAgentID ident) p = true -> op_safe (id_ScopedAgentID ident) o (manifests_of s)) ->
  safe_at (id_ScopedAgentID ident)
    (gate (authorizePath permits ident p) (call o onErr (fun _ => sendDone))) s.
Proof.
  intros Hs Ho. apply safe_gate. intros Hp. apply safe_call; [| by intros; apply safe_same].
  by apply Ho, authorizePath_mine.
Qed.

Lemma safe_setattr_tail agent req s :
  mine agent (sr_Path req) = true -> safe_at agent (setattr_owner req (setattr_atime req sendDone)) s.
Proof.
  intros Hm.
  assert (forall s1, safe_at agent (setattr_atime req sendDone) s1) as Hat.
  { intros s1. unfold setattr_atime. destruct (sr_Atime req); [| by apply safe_same].
    apply safe_call; [by apply safe_SetAtime | by intros; apply safe_same]. }
  unfold safe_at, setattr_owner. case_decide; [apply Hat |].
  destruct (statOwner _ _) as [[u g]|e]; [| intros a I; by exists a].
  apply safe_call; [by apply safe_SetOwner | intros; apply Hat].
Qed.

(** C5: Whatever an agent-scoped connection requests, in its answer or its error,
    the names outside its subtree keep their inodes, and the files that have
    only such names keep their contents.  Not covered are journal reverts, and
    renames of a directory whose name is not plain ASCII, has a [%] or [_] or differs
    from another name only in case, where the code breaks the promise
    ([moat_breach]). *)
Theorem agent_moat ev ident connID rq s a rep s' :
  Inv (sv_db s) a -> id_ScopedAgentID ident <> [] -> moat_scope rq (sv_db s) ->
  handleRequest blake3 permits order now nowSec nowNs ev ident connID rq s = (rep, s') ->
  exists a', Inv (sv_db s') a' /\ moat (id_ScopedAgentID ident) a a'.
Proof.
  intros I Hs Hw H.
  assert (safe_at (id_ScopedAgentID ident)
    (handleRequest blake3 permits order now nowSec nowNs ev ident connID rq) s) as Hsafe;
    [clear a I H | destruct (Hsafe a I) as (a' & I' & M); rewrite H in I'; by exists a'].
  destruct rq; simpl in *; try (by apply safe_gate; intros _; apply safe_same); try (by apply safe_same).
  - apply safe_gate. intros Hp%authorizePath_mine; [| done]. apply safe_gate. intros _.
    apply safe_fenced. intros x y hex s1 _. apply safe_call; [| by intros; apply safe_same].
    apply safe_leaseCheck, safe_Put; [done |]. by apply fromWireChunks_wf.
  - apply safe_gate. intros Hp%authorizePath_mine; [| done].
    apply safe_fenced. intros x y hex s1 _. apply safe_call; [| by intros; apply safe_same].
    by apply safe_leaseCheck, safe_Delete.
  - apply safe_gate. intros _. apply safe_gate. intros Hf%checkAgentPath_mine; [| done].
    apply safe_gate. intros Ht%checkAgentPath_mine; [| done].
    apply safe_fenced. intros x y hex s1 Hdb. apply safe_call; [| by intros; apply safe_same].
    apply safe_leaseCheck, safe_Rename; [done | done |]. simpl. by rewrite Hdb.
  - apply safe_gate. intros _. apply safe_gate. intros Hf%checkAgentPath_mine; [| done].
    apply safe_gate. intros Ht%checkAgentPath_mine; [| done].
    apply safe_fenced. intros x y hex s1 _. apply safe_call; [| by intros; apply safe_same].
    by apply safe_leaseCheck, safe_Link.
  - apply safe_authorized; [done |]. intros _. apply safe_keeps, keeps_DirCreate.
  - apply safe_authorized; [done |]. intros _. apply safe_keeps, keeps_DirRemove.
  - apply safe_gate. intros Hp%authorizePath_mine; [| done].
    apply safe_fenced. intros x y hex s1 _. apply safe_call; [by apply safe_SetMode |].
    intros _ s2. by apply safe_setattr_tail.
  - apply safe_authorized; [done |]. intros _. apply safe_keeps, keeps_Symlink.
  - apply safe_gate. intros _. apply safe_fenced. intros x y hex s1 _.
    apply safe_call; [apply safe_keeps, keeps_Mknod | by intros; apply safe_same].
  - unfold handleChunkGet. apply safe_same. by case_decide.
  - unfold handleChunkHas. apply safe_same. by case_decide.
  - intros a I. unfold handleChunkPut. destruct (_ <? _); [by exists a |].
    destruct (sv_closed s); [by exists a |].
    destruct (putUnlocked _ _ _ _ _ _) as [[b|e] cs]; [| by exists a].
    exists a. split; [| done].
    change (Inv (match NoteChunkStored h (Z.of_nat (length data)) nowSec (sv_db s) with
                 | Ok (_, d) => d | Err _ => sv_db s end) a).
    destruct (NoteChunkStored h (Z.of_nat (length data)) nowSec (sv_db s)) as [[u d]|] eqn:E; [| done].
    by eapply NoteChunkStored_refines.
  - apply safe_same. unfold handleJournalQuery. by destruct (Query _ _ _ _ _).
Qed.

(** ** Errors *)

(** Nothing of the tenant's data has changed and nobody was told of a change;
    sessions may have been rebound. *)
Definition untouched (s s' : server) : Prop :=
  sv_db s' = sv_db s /\ files (sv_chunks s') = files (sv_chunks s) /\
  st_broadcast (sv_store s') = st_broadcast (sv_store s) /\
  st_notified (sv_store s') = st_notified (sv_store s).

Definition atomic {A} (o : op A) : Prop := forall st e st', o st = (Err e, st') -> st' = st.

Lemma atomic_tx {A} (t : tx (outcome A)) : atomic (run_tx t).
Proof. by intros st e st' [-> _]%run_tx_Err. Qed.

Lemma atomic_leaseCheck {A} sid hex (o : op A) : atomic o -> atomic (withLeaseCheck sid hex o).
Proof.
  intros Ho st e st'. unfold withLeaseCheck, fail. case_match; [by intros [= _ <-] | apply Ho].
Qed.

Lemma atomic_Put p v mf sid al ag : atomic (Put now p v mf sid al ag).
Proof.
  intros st e st'. unfold Put, fail. repeat (case_decide; [by intros [= _ <-] |]).
  destruct (negb _); [by intros [= _ <-] |]. apply atomic_tx.
Qed.

Lemma atomic_Link from to sid al ag : atomic (Link now from to sid al ag).
Proof.
  intros st e st'. unfold Link, fail. case_decide; [by intros [= _ <-] |]. apply atomic_tx.
Qed.

Lemma atomic_Rename from to vf vt nr sid al ag : atomic (renameOpt now from to vf vt nr sid al ag).
Proof.
  intros st e st'. unfold renameOpt, fail. case_decide; [by intros [= _ <-] |]. apply atomic_tx.
Qed.

Lemma atomic_Delete p v sid al ag : atomic (Delete now p v sid al ag).
Proof.
  intros st e st'. unfold Delete, fail. case_decide; [by intros [= _ <-] |].
  destruct (deleteSpecialNode now p st) as [[u|e1] s1] eqn:E1; [done |].
  apply atomic_tx in E1 as ->. destruct e1; try by intros [= _ <-].
  destruct (deleteSymlink now p st) as [[u|e2] s2] eqn:E2; [done |].
  apply atomic_tx in E2 as ->. destruct e2; try by intros [= _ <-]. apply atomic_tx.
Qed.

Definition clean_err (k : handler) : Prop := forall s e s', k s = (Err e, s') -> untouched s s'.

Lemma clean_gate c k : clean_err k -> clean_err (gate c k).
Proof. intros Hk s e s'. destruct c; [by intros [= _ <-] | apply Hk]. Qed.

Lemma clean_fenced ident connID sid al k :
  (forall x y hex, clean_err (k x y hex)) -> clean_err (fenced nowNs ident connID sid al k).
Proof.
  intros Hk s e s'. unfold fenced.
  destruct (checkSessionFence _ _ _ _ _ _ _) as [[[hex|] lm] reg]; [| by intros [= _ <-]].
  intros H%Hk. exact H.
Qed.

(** A call whose success is answered at once. *)
Lemma clean_call {A} (o : op A) onErr (f : A -> response) :
  atomic o -> clean_err (call o onErr (fun x => answer (Ok (f x)))).
Proof.
  intros Ho s e s'. unfold call. destruct (o (manifests_of s)) as [[x|er] st] eqn:E; [done |].
  intros [= _ <-]. apply Ho in E as ->. done.
Qed.

(** [s1] is [s] after the store call [o] has committed. *)
Definition committed {A} (o : op A) (s s1 : server) : Prop :=
  exists x st, o (manifests_of s) = (Ok x, st) /\ s1 = set_store st s.

(** What a request that is answered with an error may have done: nothing, or, for the
    two requests that make several commits in a row, some of them.  [setattr] sets the
    mode, then the owner, then the access time; [journal_revert_path] reverts its paths
    in order, each by the inverse write and the removal of its journal row. *)
Definition after_error (ident : Identity) (rq : request) (s s' : server) : Prop :=
  untouched s s' \/
  match rq with
  | RqSetattr r =>
      exists sid al hex s1, committed (SetMode now (sr_Path r) (sr_Mode r) sid al (id_AgentID ident) hex) s s1 /\
        (untouched s1 s' \/
         exists uid gid s2, committed (SetOwner (sr_Path r) uid gid) s1 s2 /\ untouched s2 s')
  | RqJournalRevertPath al paths force =>
      let writer := writerSessionForRevert al (sv_mountLeases s) in
      exists before p after rep st,
        paths = before ++ p :: after /\
        RevertPaths now al before None None writer (id_AgentID ident) force (manifests_of s) = ((None, rep), st) /\
        (untouched (set_store st s) s' \/
         exists row working w st', applyInverse now row working writer al (id_AgentID ident) st = (Ok w, st') /\
           untouched (set_store st' s) s')
  | _ => False
  end.

Lemma untouched_refl s : untouched s s.
Proof. done. Qed.

Lemma atomic_SetMode p mode sid al ag hex : atomic (SetMode now p mode sid al ag hex).
Proof.
  intros st e st'. unfold SetMode. destruct (Get p (st_db st)) as [mf|er].
  - unfold PutWithLeaseCheck. destruct (withLeaseCheck sid hex _ st) as [[v|e1] st1] eqn:E; [done |].
    intros [= _ <-]. by eapply (atomic_leaseCheck sid hex), E; apply atomic_Put.
  - destruct er; try by intros [= _ <-]. apply atomic_tx.
Qed.

(** A store call in front of another handler: it failed and nothing happened, or it
    committed and the rest failed. *)
Lemma call_Err {A} (o : op A) onErr (k : A -> handler) s e s' :
  atomic o -> call o onErr k s = (Err e, s') ->
  untouched s s' \/ exists x s1, committed o s s1 /\ k x s1 = (Err e, s').
Proof.
  intros Ho. unfold call. destruct (o (manifests_of s)) as [[x|er] st] eqn:E.
  - intros H. right. exists x, (set_store st s). split; [by exists x, st | done].
  - intros [= _ <-]. apply Ho in E as ->. by left.
Qed.

Lemma setattr_error ident connID r s e s' :
  handleSetattr permits now nowNs ident connID r s = (Err e, s') -> after_error ident (RqSetattr r) s s'.
Proof.
  unfold handleSetattr, gate, fenced. destruct (authorizePath _ _ _); [by intros [= _ <-]; left |].
  destruct (checkSessionFence _ _ _ _ _ _ _) as [[[hex|] lm] reg]; [| by intros [= _ <-]; left].
  set (s0 := mkServer (sv_store s) (sv_chunks s) (sv_closed s) lm reg).
  intros [H|(x & s1 & (y & st & Ho & ->) & H)]%(call_Err _ _ _ s0); [by left | | apply atomic_SetMode]. right.
  eexists _, _, hex, (set_store st s). split; [by exists y, st |].
  assert (forall u v, setattr_atime r sendDone u = (Err e, v) -> untouched u v) as Ha.
  { intros u v. unfold setattr_atime. destruct (sr_Atime r); [| done].
    by intros [?|(? & ? & _ & ?)]%call_Err; [| | apply atomic_tx]. }
  unfold setattr_owner in H. case_decide; [left; exact (Ha _ _ H) |].
  destruct (statOwner _ _) as [[cu cg]|]; [| injection H as [= _ <-]; by left].
  apply call_Err in H as [H|(? & s2 & (z & st2 & Ho2 & ->) & H)]; [by left | | apply atomic_tx]. right.
  eexists _, _, (set_store st2 (set_store st s)). split; [by exists z, st2 | exact (Ha _ _ H)].
Qed.

Lemma applyInverse_Err row working sid al ag st e st' :
  applyInverse now row working sid al ag st = (Err e, st') -> st' = st.
Proof.
  assert (forall A (o : op A) f x v, atomic o -> lift_op f (o st) = (Err x, v) -> v = st) as Hl.
  { intros A o f x v Ho. unfold lift_op. destruct (o st) as [[y|er] w] eqn:E; [done |].
    intros [= _ <-]. by eapply Ho. }
  unfold applyInverse. intros H. repeat case_match; simplify_eq; try done;
    match goal with E : lift_op _ (?o st) = (Err _, _) |- _ => eapply Hl, E end.
  all: first [apply atomic_Delete | apply atomic_Put | apply atomic_Link | apply atomic_Rename].
Qed.

Lemma revertLoop_error al force w ag paths rep0 st e rep st' :
  revertLoop now al force w ag ((fun p => (p, [], 0)) <$> paths) rep0 st = ((Some e, rep), st') ->
  exists before p after rep1 st1,
    paths = before ++ p :: after /\
    revertLoop now al force w ag ((fun p => (p, [], 0)) <$> before) rep0 st = ((None, rep1), st1) /\
    (st' = st1 \/ exists row working w1, applyInverse now row working w al ag st1 = (Ok w1, st')).
Proof.
  revert rep0 st. induction paths as [|p paths IH]; intros rep0 st; [done |]. rewrite fmap_cons. cbn [revertLoop].
  destruct (revertOne now al force w ag (p, [], 0) rep0 st) as [[rep1|er] st1] eqn:E.
  - intros (before & q & after & rep2 & st2 & -> & Hb & Hd)%IH. exists (p :: before), q, after, rep2, st2.
    split; [done |]. rewrite fmap_cons. cbn [revertLoop]. by rewrite E.
  - intros [= <- <- <-]. exists [], p, paths, rep0, st. split; [done |]. split; [done |].
    unfold revertOne in E. destruct (lookup_row _ _ _ _ _) as [[row|]|]; [| done | injection E as [= _ <-]; by left].
    destruct (_ && _); [done |]. destruct (liveManifestVersion _ _) as [live|]; [| injection E as [= _ <-]; by left].
    destruct (_ && _); [done |]. destruct (seed_working _ _ _ _) as [working|]; [| injection E as [= _ <-]; by left].
    destruct (applyInverse now row working w al ag st) as [[w1|[cp cv|ei]] st2] eqn:Ei; [| done |].
    + destruct (DeleteRow _ _ _) as [[n d]|]; [done |]. injection E as [= _ <-]. right. eauto.
    + injection E as [= _ <-]. left. by eapply applyInverse_Err.
Qed.

Lemma zip_unpinned (paths : list gostr) :
  zip (zip paths (replicate (length paths) [])) (replicate (length paths) 0) =
  (fun p => (p, [] : gostr, 0)) <$> paths.
Proof. induction paths as [|p paths IH]; [done |]. simpl. by rewrite IH. Qed.

Lemma RevertPaths_unpinned al paths w ag force st :
  RevertPaths now al paths None None w ag force st =
  revertLoop now al force w ag ((fun p => (p, [], 0)) <$> paths) (mkReport [] []) st.
Proof. unfold RevertPaths. simpl. by rewrite zip_unpinned. Qed.

Lemma revert_error ident al paths force s e s' :
  handleJournalRevertPath now ident al paths force s = (Err e, s') ->
  after_error ident (RqJournalRevertPath al paths force) s s'.
Proof.
  unfold handleJournalRevertPath, gate.
  destruct (if decide (al = []) then _ else _); [by intros [= _ <-]; left |].
  destruct (if decide (paths = []) then _ else _); [by intros [= _ <-]; left |].
  destruct (checkAgentPaths ident paths); [by intros [= _ <-]; left |].
  destruct (RevertPaths now al paths None None (writerSessionForRevert al (sv_mountLeases s)) (id_AgentID ident) force
    (manifests_of s)) as [[[er|] rep] st] eqn:E; [| done]. intros [= _ <-].
  rewrite RevertPaths_unpinned in E.
  apply revertLoop_error in E as (before & p & after & rep1 & st1 & -> & Hb & Hd). right.
  exists before, p, after, rep1, st1. split; [done |]. split; [by rewrite RevertPaths_unpinned |].
  destruct Hd as [->|(row & working & w1 & Hi)]; [by left | right]. by exists row, working, w1, st.
Qed.

Ltac clean_tac :=
  repeat first [ apply clean_gate | apply clean_fenced; intros ? ? ?
               | apply (clean_call _ _ (fun _ => RsDone)) | apply clean_call
               | apply atomic_Put | apply atomic_Link | apply atomic_Rename | apply atomic_Delete
               | apply atomic_leaseCheck | apply atomic_tx ].


(** ** Version conflicts *)

(** A session that has passed the fence passes it again, and its id is the one
    that [validateSessionIDForLease] expects. *)
Lemma fence_again agentID connID sid al lm reg hex lm1 reg1 :
  checkSessionFence nowNs agentID connID sid al lm reg = (Some hex, lm1, reg1) ->
  (exists lm2 reg2, checkSessionFence nowNs agentID connID sid al lm1 reg1 = (Some hex, lm2, reg2)) /\
  validateSessionIDForLease sid hex = None /\ journal_args_ok sid al.
Proof.
  unfold checkSessionFence, validateSessionIDForLease, journal_args_ok. case_decide as Hs.
  { intros [= <- <- <-]. eauto 10. }
  destruct (negb _ || _) eqn:Hpre; [done |].
  destruct (decodeLeaseHex _) as [id|] eqn:Hhex; [| done].
  destruct (AuthorizeOrRebindSession nowNs id agentID connID lm) as [[[] rb] lm'] eqn:Ha; [| done].
  destruct (Install al _ reg) as [[] reg'] eqn:Hi; [| done]. intros [= <- <- <-].
  assert (exists rb2 lm2, AuthorizeOrRebindSession nowNs id agentID connID lm' = ((true, rb2), lm2))
    as (rb2 & lm2 & ->).
  { revert Ha. unfold AuthorizeOrRebindSession. destruct (byID lm !! id) as [r|] eqn:Hr; [| done].
    destruct (decide (lr_holder r <> agentID)) as [|Hh]; [done |].
    destruct (negb (nowNs <? lr_expiresAt r) || lr_revoking r) eqn:He; [done |].
    destruct (lr_connID r =? connID) eqn:Hc.
    - intros [= <- <-]. rewrite Hr, decide_False, He, Hc by done. eauto.
    - destruct (connID <? lr_connID r) eqn:Hlt; [done |]. intros [= <- <-]. simpl.
      destruct (decide (lr_id r = id)) as [<-|Hne].
      + rewrite lookup_insert_eq. simpl. rewrite decide_False, He, Z.eqb_refl by done. eauto.
      + rewrite lookup_insert_ne, Hr, decide_False, He, Hc, Hlt by done. eauto. }
  revert Hi. unfold Install. destruct (decide (al = [] \/ _)) as [|Hal]; [done |].
  destruct (decide (_ ∈ al_fenced (default _ (reg !! al)))) as [|Hf]; [done |].
  intros [= <-]. rewrite lookup_insert_eq. simpl. rewrite decide_False by done.
  split; [eauto |]. split; [| right; tauto].
  rewrite decide_False by tauto. rewrite decide_False; [done |]. intros Hn. apply Hn.
  apply orb_false_iff in Hpre as [Hp _]. apply negb_false_iff, bool_decide_eq_true in Hp.
  destruct Hp as [k ->]. done.
Qed.

(** The request with another expected version. *)
Definition at_version (v : Z) (r : ManifestPutRequest) : ManifestPutRequest :=
  mkPutReq (pr_Path r) v (pr_Size r) (pr_Mode r) (pr_Mtime r) (pr_Chunks r) (pr_SessionID r)
    (pr_AllocationID r).

Definition put_manifest (r : ManifestPutRequest) : Manifest :=
  mkManifest (pr_Path r) 0 0 (pr_Size r) (pr_Mode r) (pr_Mtime r) 0 (fromWireChunks (pr_Chunks r)) 0 0 0.

(** The handler after its gates. *)
Lemma handleManifestPut_run ident connID r s hex lm reg :
  let sid := derefSession (pr_SessionID r) in
  let al := derefSession (pr_AllocationID r) in
  let s1 := mkServer (sv_store s) (sv_chunks s) (sv_closed s) lm reg in
  authorizePath permits ident (pr_Path r) = None ->
  checkSessionFence nowNs (id_AgentID ident) connID sid al (sv_leases s) (sv_mountLeases s)
    = (Some hex, lm, reg) ->
  handleManifestPut permits now nowNs Yielded ident connID r s =
  match Put now (pr_Path r) (pr_VersionExpected r) (put_manifest r) sid al (id_AgentID ident) (manifests_of s) with
  | (Ok n, st) => (Ok (RsManifestPut n), set_store st s1)
  | (Err e, st) =>
      (Err (if is_version_conflict e then casConflict (st_db st) e (pr_Path r) (pr_VersionExpected r)
            else errno ErrnoEIO), set_store st s1)
  end.
Proof.
  intros sid al s1 Hauth Hf. destruct (fence_again _ _ _ _ _ _ _ _ _ Hf) as (_ & Hval & _).
  unfold handleManifestPut, gate. rewrite Hauth. simpl. unfold fenced. fold sid al. rewrite Hf.
  unfold call, PutWithLeaseCheck, withLeaseCheck. rewrite Hval. done.
Qed.

(** A stale [manifest_put] is answered with ESTALE and a hint that carries the
    current version; the same request with that version succeeds at once. *)
Theorem conflict_hint_actionable ev ident connID r s a hex lm reg :
  let d := sv_db s in
  let cur := version_at (pr_Path r) d in
  Inv d a -> ev_yield ev = Yielded -> authorizePath permits ident (pr_Path r) = None ->
  checkSessionFence nowNs (id_AgentID ident) connID (derefSession (pr_SessionID r))
    (derefSession (pr_AllocationID r)) (sv_leases s) (sv_mountLeases s) = (Some hex, lm, reg) ->
  validateChunks (fromWireChunks (pr_Chunks r)) (manifests_of s) = true ->
  parent_ok (pr_Path r) d = true -> pr_Size r < 2 ^ 63 -> 0 <= cur < 2 ^ 63 - 1 ->
  (cur = 0 -> manifests d !! pr_Path r = None) -> pr_VersionExpected r <> cur ->
  exists hint s1 s2,
    handleRequest blake3 permits order now nowSec nowNs ev ident connID (RqManifestPut r) s =
      (Err (mkErrP ErrnoESTALE (Some hint)), s1) /\
    rh_CurrentVersion hint = Some cur /\ rh_YourVersion hint = pr_VersionExpected r /\ sv_db s1 = d /\
    handleRequest blake3 permits order now nowSec nowNs ev ident connID
      (RqManifestPut (at_version cur r)) s1 = (Ok (RsManifestPut (cur + 1)), s2).
Proof.
  intros d cur I Hy Hauth Hf Hc Hpar Hsz Hcur Hnew Hne.
  destruct (fence_again _ _ _ _ _ _ _ _ _ Hf) as ((lm2 & reg2 & Hf2) & _ & Hj).
  set (s1 := set_store (manifests_of s) (mkServer (sv_store s) (sv_chunks s) (sv_closed s) lm reg)).
  destruct (Put_run now (pr_Path r) cur (put_manifest r) (derefSession (pr_SessionID r))
    (derefSession (pr_AllocationID r)) (id_AgentID ident) (manifests_of s1) a)
    as (e & rev & d' & _ & Hput); try done.
  eexists _, s1, _. simpl. rewrite Hy.
  rewrite (handleManifestPut_run ident connID r s hex lm reg) by done.
  rewrite Put_checked by done. unfold run_tx. rewrite (putTx_stale now _ _ _ _ _ _ _ a) by done.
  split; [done |]. split; [done |]. split; [done |]. split; [done |].
  rewrite (handleManifestPut_run ident connID (at_version cur r) s1 hex lm2 reg2) by done.
  change (put_manifest (at_version cur r)) with (put_manifest r).
  cbn [at_version pr_Path pr_VersionExpected pr_SessionID pr_AllocationID]. by rewrite Hput.
Qed.

(** ** Presence *)

(** A [chunk_has] over whole hashes is answered, whatever the order in which the
    shards are visited, with one bit per hash, set exactly when that chunk is on
    disk, and no other bit set. *)
Theorem chunk_has_bitmap ev ident connID buf s :
  (forall l, order l ≡ₚ l) -> cs_ok blake3 (sv_chunks s) -> Forall is_byte buf ->
  (length buf mod HashLen = 0)%nat ->
  let n := (length buf / HashLen)%nat in
  exists bm,
    handleRequest blake3 permits order now nowSec nowNs ev ident connID (RqChunkHas buf) s
      = (Ok (RsChunkHas bm), s) /\
    length bm = ((n + 7) / 8)%nat /\
    forall i, getbit bm i = bool_decide (i < n)%nat && on_disk (take HashLen (drop (i * HashLen) buf)) (sv_chunks s).
Proof.
  intros Ho O Hb Hm n. simpl. unfold handleChunkHas. rewrite decide_False by congruence.
  assert (n * HashLen = length buf)%nat as Hn.
  { subst n. pose proof (Nat.div_mod_eq (length buf) HashLen). lia. }
  rewrite (HasMany_present blake3); [| done | done | apply cut_hashes_wf; [done | fold n; lia]].
  eexists. split; [done |].
  destruct (fill_bitmap_spec ((fun h => on_disk h (sv_chunks s)) <$> cut_hashes n buf) ((n + 7) / 8)) as [Hl Hbit].
  { unfold cut_hashes. rewrite !length_fmap, length_seq.
    pose proof (Nat.div_mod_eq (n + 7) 8). pose proof (Nat.mod_upper_bound (n + 7) 8). lia. }
  split; [done |]. intros i. rewrite Hbit. unfold cut_hashes. rewrite !list_lookup_fmap.
  destruct (decide (i < n)%nat) as [Hi|Hi].
  - rewrite bool_decide_true, lookup_seq_lt by done. done.
  - rewrite bool_decide_false, lookup_seq_ge by lia. done.
Qed.

(** ** Listing and stat *)

(** C39: What a listing of a directory shows of a file, at whose path there is no
    symlink, is what a stat of it answers, if the caller may stat it: name, size, mode,
    owner, times, inode, link count and version.  (A write over a symlink leaves both
    rows, and then the two differ: [put_over_symlink].) *)
Theorem stat_matches_list ident segs name s a es e :
  Inv (sv_db s) a -> Forall good_seg (segs ++ [name]) ->
  symlinks (sv_db s) !! abspath (segs ++ [name]) = None ->
  handleList permits ident (abspath segs) s = (Ok (RsList es), s) ->
  e ∈ es -> en_Name e = name -> en_Kind e = "file"%string ->
  authorizePath permits ident (abspath (segs ++ [name])) = None ->
  handleStat permits ident (abspath (segs ++ [name])) s = (Ok (RsStat e), s).
Proof.
  intros I Hg Hsl Hlist He Hname Hkind Hauth.
  unfold handleList, gate in Hlist. destruct (authorizePath permits ident (abspath segs)); [done |].
  injection Hlist as <-. apply list_elem_of_fmap in He as (c & -> & Hc).
  apply list_elem_of_filter in Hc as [_ Hc]. unfold ListChildren in Hc.
  apply list_elem_of_fmap in Hc as ([[parent n] de] & -> & Hc).
  rewrite merge_sort_Permutation in Hc. apply elem_of_map_to_list, map_lookup_filter_Some in Hc as [_ Hpar].
  simpl in Hpar. subst parent.
  assert (n = name) as ->.
  { unfold child_entry in Hname. case_decide; [| done]. by destruct (SpecialNodeInfo _ _) as [[[[[[]]]]]|]. }
  assert (full_path (abspath segs, name) = abspath (segs ++ [name])) as Hfp by by apply sqlFullPath_snoc.
  cbn [fst snd] in *. unfold handleStat, gate. rewrite Hauth. unfold stat_entry, Get.
  rewrite Base_abspath by done. unfold child_entry, child_row in *. rewrite Hfp, Hsl in *.
  destruct (manifests (sv_db s) !! abspath (segs ++ [name])) as [r|] eqn:Hr.
  - destruct (inv_unpack _ _ I _ r Hr) as (x & _ & _ & Hu & _). rewrite Hu. done.
  - exfalso. clear Hname. revert Hkind. simpl. unfold SpecialNodeInfo.
    destruct (special_nodes (sv_db s) !! joinVirtual (abspath segs) name) as [sn|]; [| done].
    simpl. unfold specialNodeKind. by repeat case_match.
Qed.
End claims.

(** ** Witnesses *)

#[local] Existing Instance flat_msgpack.

Definition run (agent : gostr) (rq : request) (s : server) : result ErrorPayload response * server :=
  handleRequest toy_hash (fun _ => true) id 9 9 9 (mkEnv Yielded None WriteDone None)
    (mkIdent (str "u") agent) 1 rq s.

Definition server_of (st : mstore) : server := mkServer st cs3 false newLeaseManager ∅.

(** Agents [alice] and [bob], each with a file. *)
Definition store_ab : mstore :=
  e_put (str "/alice/x") (e_put (str "/bob/y") (e_mkdir (str "/bob") (e_mkdir (str "/alice") store0))).
Definition sv_ab : server := server_of store_ab.

Lemma sv_ab_Inv : exists a, Inv (sv_db sv_ab) a.
Proof.
  destruct (run_keeps_Inv _ store0 empty_afs (keeps_DirCreate (str "/alice") 493) store0_Inv) as [a1 I1].
  destruct (run_keeps_Inv _ (e_mkdir (str "/alice") store0) a1 (keeps_DirCreate (str "/bob") 493) I1) as [a2 I2].
  destruct (Put_Inv 9 (str "/bob/y") 0 (file_of (str "/bob/y") h1 5) [] [] [] _ a2 I2) as [a3 I3];
    [apply file_of_wf; [by left | lia] |].
  apply (Put_Inv 9 (str "/alice/x") 0 (file_of (str "/alice/x") h1 5) [] [] [] _ a3 I3).
  apply file_of_wf; [by left | lia].
Qed.

Definition rm_x : request := RqManifestDelete (mkDelReq (str "/alice/x") 1 None None).

Lemma agent_moat_witness :
  exists a a', Inv (sv_db sv_ab) a /\ Inv (sv_db (run (str "alice") rm_x sv_ab).2) a' /\
    moat (str "alice") a a'.
Proof.
  destruct sv_ab_Inv as [a I].
  destruct (agent_moat toy_hash (fun _ => true) id 9 9 9 (mkEnv Yielded None WriteDone None)
    (mkIdent (str "u") (str "alice")) 1 rm_x sv_ab a (run (str "alice") rm_x sv_ab).1
    (run (str "alice") rm_x sv_ab).2) as (a' & I' & M).
  - exact I.
  - discriminate.
  - exact Logic.I.
  - apply surjective_pairing.
  - exists a, a'. split; [exact I | split; [exact I' | exact M]].
Defined.

Definition rm_y : request := RqManifestDelete (mkDelReq (str "/bob/y") 1 None None).


Definition put_x (v : Z) : ManifestPutRequest :=
  mkPutReq (str "/alice/x") v 3 420 1000 [mkWireChunkRef hash3 0 3] None None.

Lemma conflict_hint_actionable_witness :
  exists hint s1 s2,
    run (str "alice") (RqManifestPut (put_x 7)) sv_ab = (Err (mkErrP ErrnoESTALE (Some hint)), s1) /\
    rh_CurrentVersion hint = Some 1 /\
    run (str "alice") (RqManifestPut (put_x 1)) s1 = (Ok (RsManifestPut 2), s2).
Proof.
  destruct sv_ab_Inv as [a I].
  destruct (conflict_hint_actionable toy_hash (fun _ => true) id 9 9 9 (mkEnv Yielded None WriteDone None)
    (mkIdent (str "u") (str "alice")) 1 (put_x 7) sv_ab a [] newLeaseManager ∅)
    as (hint & s1 & s2 & H1 & H2 & _ & _ & H3).
  - exact I.
  - reflexivity.
  - vm_compute. reflexivity.
  - reflexivity.
  - vm_compute. reflexivity.
  - vm_compute. reflexivity.
  - reflexivity.
  - vm_compute. split; [discriminate | reflexivity].
  - vm_compute. discriminate.
  - vm_compute. discriminate.
  - exists hint, s1, s2. split; [exact H1 |]. split; [rewrite H2; vm_compute; reflexivity |].
    change (put_x 1) with (at_version 1 (put_x 7)).
    replace (version_at (pr_Path (put_x 7)) (sv_db sv_ab)) with 1 in H3 by (vm_compute; reflexivity).
    exact H3.
Defined.

Lemma chunk_has_bitmap_witness :
  exists bm, run (str "alice") (RqChunkHas (hash3 ++ replicate 32 9)) sv_ab = (Ok (RsChunkHas bm), sv_ab) /\
    getbit bm 0 = true /\ getbit bm 1 = false.
Proof.
  destruct (chunk_has_bitmap toy_hash (fun _ => true) id 9 9 9 (mkEnv Yielded None WriteDone None)
    (mkIdent (str "u") (str "alice")) 1 (hash3 ++ replicate 32 9) sv_ab) as (bm & H & _ & Hb).
  - exact order_id.
  - exact cs3_ok.
  - apply (bool_decide_unpack _). vm_compute. exact Logic.I.
  - reflexivity.
  - exists bm. split; [exact H |]. rewrite !Hb. split; vm_compute; reflexivity.
Defined.

Definition entry_y : EntryWire :=
  mkEntryW (str "y") "file" 5 1 1 420 0 0 1000 [] 0 1000 1.

Lemma stat_matches_list_witness :
  run (str "bob") (RqStat (str "/bob/y")) sv_ab = (Ok (RsStat entry_y), sv_ab).
Proof.
  destruct sv_ab_Inv as [a I].
  apply (stat_matches_list (fun _ => true) (mkIdent (str "u") (str "bob")) [str "bob"] (str "y") sv_ab a [entry_y]).
  - exact I.
  - repeat constructor; try discriminate; apply (bool_decide_unpack _); vm_compute; exact Logic.I.
  - vm_compute. reflexivity.
  - unfold handleList, gate. apply (f_equal2 pair); [vm_compute; reflexivity | reflexivity].
  - by left.
  - reflexivity.
  - reflexivity.
  - vm_compute. reflexivity.
Defined.

(** ** Where the moat and the listing fail *)

(** Agents [a_b] and [axb], each with a directory [d]; the second has a file. *)
Definition sv_breach : server :=
  server_of (e_put (str "/axb/d/f") (e_mkdir (str "/axb/d") (e_mkdir (str "/axb")
    (e_mkdir (str "/a_b/d") (e_mkdir (str "/a_b") store0))))).

Definition mv_d : request :=
  RqManifestRename (mkRenReq (str "/a_b/d") (str "/a_b/e") 0 0 false None None).

(** The pattern of a directory rename is not escaped: when agent [a_b] renames
    its own directory, the file of agent [axb] moves into its subtree. *)
Theorem moat_breach :
  files_of (sv_store sv_breach) = [str "/axb/d/f"] /\
  is_ok (run (str "a_b") mv_d sv_breach).1 = true /\
  files_of (sv_store (run (str "a_b") mv_d sv_breach).2) = [str "/a_b/e/f"].
Proof. repeat split; vm_compute; reflexivity. Qed.

(** A link whose target is the two bytes of U+00E9. *)
Definition sv_link : server :=
  server_of (Symlink (str "/l") [ascii_of_N 195; ascii_of_N 169] 511 store0).2.

(** The listing takes a link's size from SQLite, which counts characters; stat
    counts bytes. *)
Theorem link_size_differs :
  (exists es, (run [] (RqList [slash]) sv_link).1 = Ok (RsList es) /\ en_Size <$> es = [1]) /\
  (exists e, (run [] (RqStat (str "/l")) sv_link).1 = Ok (RsStat e) /\ en_Size e = 2).
Proof. split; eexists; split; vm_compute; reflexivity. Qed.
