(* ===== verification/LeaseHandlers.v ===== *)
(** * Lease requests

    lease_handlers.go: the three requests of a client on the lease manager (Lease.v),
    with their wire errors; dataplane/messages.go: their shapes.

    [grantCall] is what the manager's [Grant] returned to the handler and the state it
    left, since the call may wait for other connections; [Grant] of Lease.v is the call
    when nothing else runs.  A request that is not msgpack is [None]. *)

From S2P Require Import Prelude GoPath TenantDB Lease Handlers.

(** ** Requests *)

Record LeaseGrantRequest := mkGrantReq { gr_Path : gostr; gr_Mode : Z }.
Record LeaseGrantResponse := mkGrantResp { gp_LeaseID : list Z; gp_ExpiresAtUnixMs : Z; gp_ModeGranted : LeaseMode }.

Definition modeOf (z : Z) : option LeaseMode :=
  if z =? 1 then Some LeaseSharedRead else if z =? 2 then Some LeaseExclusiveWrite else None.

Definition ErrnoLeaseUnknown : Z := 100.

(** The return of [Grant]: a lease, [errLeaseHeld], or another error. *)
Inductive grantReturn := GrantReturned (r : leaseGrantResult) | GrantRefused | GrantFailed.

Section lease_handlers.
Context (permits : gostr -> bool).
Context (grantCall : gostr -> Z -> gostr -> LeaseMode -> leaseManager -> grantReturn * leaseManager).

Definition handleLeaseGrant (ident : Identity) (connID : Z) (body : option LeaseGrantRequest) (m : leaseManager)
    : result ErrorPayload LeaseGrantResponse * leaseManager :=
  match body with
  | None => (Err (errno ErrnoEINVAL), m)
  | Some req =>
      match modeOf (gr_Mode req) with
      | None => (Err (errno ErrnoEINVAL), m)
      | Some mode =>
          if negb (permits (policyPath (gr_Path req))) then (Err (errno ErrnoEACCES), m)
          else
            match grantCall (id_AgentID ident) connID (gr_Path req) mode m with
            | (GrantReturned g, m') => (Ok (mkGrantResp (lg_LeaseID g) (UnixMilli (lg_ExpiresAt g)) (lg_Mode g)), m')
            | (GrantRefused, m') => (Err (errno ErrnoEBUSY), m')
            | (GrantFailed, m') => (Err (errno ErrnoEIO), m')
            end
      end
  end.

Definition handleLeaseRefresh (cfg : leaseConfig) (now connID : Z) (body : option (list Z)) (m : leaseManager)
    : result ErrorPayload Z * leaseManager :=
  match body with
  | None => (Err (errno ErrnoEINVAL), m)
  | Some leaseID =>
      match Refresh cfg now leaseID connID m with
      | (Err _, m') => (Err (errno ErrnoLeaseUnknown), m')
      | (Ok exp, m') => (Ok (UnixMilli exp), m')
      end
  end.

Definition handleLeaseRelease (connID : Z) (body : option (list Z)) (m : leaseManager)
    : result ErrorPayload unit * leaseManager :=
  match body with
  | None => (Err (errno ErrnoEINVAL), m)
  | Some leaseID => (Ok tt, (Release leaseID connID m).2)
  end.
End lease_handlers.

(** [Grant] when nothing else runs. *)
Definition quietGrant (cfg : leaseConfig) (now : Z) (fresh : list Z) (holder : gostr) (connID : Z) (path : gostr)
    (mode : LeaseMode) (m : leaseManager) : grantReturn * leaseManager :=
  match Grant 1 cfg now fresh holder connID path mode m with
  | Some (GrantOk r, m') => (GrantReturned r, m')
  | Some (GrantHeld, m') => (GrantRefused, m')
  | _ => (GrantFailed, m)
  end.

(** ** The life of a lease over its requests *)

(** A lease on a free path is granted; on the connection it is bound to it can be
    refreshed; to every other connection it is unknown, and a release from there is
    answered but does nothing; once released by its connection it is unknown, and the
    path is free again. *)
Theorem lease_request_life permits cfg now later fresh ident connID other path mode m :
  permits (policyPath path) = true -> modeOf mode <> None -> lease_at path m = None ->
  length fresh = 16%nat -> connID <> 0 -> other <> connID ->
  exists resp m1,
    handleLeaseGrant permits (quietGrant cfg now fresh) ident connID (Some (mkGrantReq path mode)) m = (Ok resp, m1) /\
    gp_LeaseID resp = fresh /\
    (exists m2, handleLeaseRefresh cfg later connID (Some fresh) m1 = (Ok (UnixMilli (later + ttl cfg)), m2)) /\
    handleLeaseRefresh cfg later other (Some fresh) m1 = (Err (errno ErrnoLeaseUnknown), m1) /\
    handleLeaseRelease other (Some fresh) m1 = (Ok tt, m1) /\
    exists m3, handleLeaseRelease connID (Some fresh) m1 = (Ok tt, m3) /\ lease_at path m3 = None /\
      handleLeaseRefresh cfg later connID (Some fresh) m3 = (Err (errno ErrnoLeaseUnknown), m3).
Proof.
  intros Hp Hm Hf Hl Hc Ho. destruct (modeOf mode) as [md|] eqn:Em; [| done].
  unfold handleLeaseGrant, quietGrant. cbn [gr_Mode gr_Path]. rewrite Em, Hp. cbn [negb Grant].
  unfold yieldLocked. rewrite Hf. unfold grantLocked. rewrite Hf.
  do 2 eexists. split; [reflexivity |]. split; [reflexivity |].
  set (m1 := installLocked _ _ _ _ _ _ _ m).
  set (rec := mkLease fresh path md (id_AgentID ident) connID now (now + ttl cfg) false).
  assert (byID m1 !! fresh = Some rec) as Hid by (subst m1; cbn; apply lookup_insert_eq).
  assert (conn_may rec connID = true) as Hmay by (unfold conn_may; cbn; by rewrite Z.eqb_refl).
  assert (conn_may rec other = false) as Hno by (unfold conn_may; cbn; apply orb_false_iff; split; apply Z.eqb_neq; congruence).
  unfold handleLeaseRefresh, handleLeaseRelease, Refresh, Release. rewrite !(decide_False (P := length fresh <> 16%nat)) by (intros Hx; by apply Hx).
  rewrite Hid, Hmay, Hno. split; [by eexists |]. split; [done |]. split; [done |].
  eexists. split; [reflexivity |]. cbn [snd]. subst rec. unfold removeLocked. cbn [lr_path lr_id lr_connID byID byPath].
  rewrite !(decide_True (P := byPath m1 !! path = Some fresh)) by (subst m1; cbn; apply lookup_insert_eq).
  rewrite !(decide_False (P := length fresh <> 16%nat)) by (intros Hx; by apply Hx). rewrite lookup_delete_eq. split; [| done].
  unfold lease_at. cbn [byPath]. by rewrite lookup_delete_eq.
Qed.

(** ** Across the moat *)

(** The grant looks at the policy but not at the agent's subtree: an agent whose every
    other request on the path is refused takes an exclusive lease on it, and the write
    of the agent that the path belongs to is then refused until the minimum hold is
    over. *)
Example foreign_lease_blocks_owner :
  let cfg := mkLeaseConfig 30000 5000 2000 in
  let intruder := mkIdent (str "u2") (str "a_2") in
  let path := str "/a_1/f" in
  let '(r, m) := handleLeaseGrant (fun _ => true) (quietGrant cfg 0 (replicate 16 7)) intruder 2
                   (Some (mkGrantReq path 2)) newLeaseManager in
  authorizePath (fun _ => true) intruder path = Some (errno ErrnoEACCES) /\ is_ok r = true /\
  (yieldLocked cfg 4999 (str "u1") path m).1 = YieldHeld.
Proof. vm_compute. done. Qed.
