(* ===== verification/CtlStore.v ===== *)
(** * The control plane's database

    orlop-control/internal/storage/sqlite: the tables the allocation service
    works on and one function per statement (allocations.go, sessions.go,
    revocations.go).  A statement either takes effect or returns an error and
    leaves the tables as they are; [update ... returning] without a matching
    row is [SNotFound].  Ids are numbers in the order of their text form, times
    are in microseconds. *)

From S2P Require Import Prelude.

Abbreviation uuid := Z.

(** A row of [disk_allocations]; a text column that is NULL reads as [""] where
    the code does not tell them apart. *)
Record allocation := mkDA {
  da_UserID : option uuid; da_TenantID : gostr; da_AgentID : gostr; da_SizeBytes : Z;
  da_CreatedAt : Z; da_RevokedAt : option Z; da_PurgedAt : option Z;
  da_BoundAgentID : option uuid; da_BoundAt : option Z; da_LeaseExpiresAt : option Z;
  da_token : option gostr }.

Record user := mkUser { us_TenantID : gostr; us_QuotaBytes : Z }.
Record enrollment := mkEnroll { er_UserID : uuid; er_CertSerial : gostr; er_CertNotAfter : Z }.
Record certRevocation := mkRevocation { cr_TenantID : gostr; cr_ExpiresAt : Z; cr_Reason : string }.

Inductive serverStatus := StatusAvailable | StatusDraining | StatusUnavailable.

#[export] Instance serverStatus_eq_dec : EqDecision serverStatus.
Proof. solve_decision. Defined.

Record poolServer := mkPool {
  ps_DataAddr : gostr; ps_OpsAddr : gostr; ps_total : Z; ps_free : Z; ps_Status : serverStatus }.

Record reservation := mkResv { rs_size : Z; rs_created : Z }.

Record ServerVM := mkVM { vm_DataAddr : gostr; vm_Status : gostr }.

Record cdb := mkCdb {
  allocations : gmap uuid allocation; users : gmap uuid user;
  enrollments : gmap uuid enrollment; revocations : gmap gostr certRevocation;
  server_vms : gmap gostr ServerVM; server_pool : gmap uuid poolServer;
  reservations : gmap (uuid * uuid) reservation }.

Definition set_allocations x d := mkCdb x (users d) (enrollments d) (revocations d) (server_vms d) (server_pool d) (reservations d).
Definition set_revocations x d := mkCdb (allocations d) (users d) (enrollments d) x (server_vms d) (server_pool d) (reservations d).
Definition set_server_vms x d := mkCdb (allocations d) (users d) (enrollments d) (revocations d) x (server_pool d) (reservations d).
Definition set_server_pool x d := mkCdb (allocations d) (users d) (enrollments d) (revocations d) (server_vms d) x (reservations d).
Definition set_reservations x d := mkCdb (allocations d) (users d) (enrollments d) (revocations d) (server_vms d) (server_pool d) x.

(** [storage.ErrNotFound], [storage.ErrAlreadyExists], any other error. *)
Inductive serr := SNotFound | SAlreadyExists | SConstraint.

Definition sop (A : Type) : Type := cdb -> result serr (A * cdb).

#[export] Instance sop_ret : MRet sop := fun A x d => Ok (x, d).
#[export] Instance sop_bind : MBind sop := fun A B k m d =>
  match m d with Ok (x, d') => k x d' | Err e => Err e end.

Definition read {A} (f : cdb -> option A) : sop A := fun d =>
  match f d with Some x => Ok (x, d) | None => Err SNotFound end.

Definition get {A} (f : cdb -> A) : sop A := fun d => Ok (f d, d).

(** ** Allocations *)

(** The CHECK constraints and the foreign key of [bound_agent_id]. *)
Definition alloc_row_ok (a : allocation) (d : cdb) : bool :=
  (0 <? da_SizeBytes a) &&
  match da_BoundAgentID a, da_BoundAt a, da_LeaseExpiresAt a with
  | None, None, None => true
  | Some _, Some _, _ => true
  | _, _, _ => false
  end &&
  match da_BoundAgentID a with
  | None => true
  | Some g => bool_decide (is_Some (enrollments d !! g))
  end.

(** [update disk_allocations set ... where id = ? and ... returning]. *)
Definition update_alloc (id : uuid) (c : allocation -> bool) (f : allocation -> allocation)
    : sop allocation := fun d =>
  match allocations d !! id with
  | None => Err SNotFound
  | Some a =>
      if c a then
        if alloc_row_ok (f a) d then Ok (f a, set_allocations (<[id := f a]> (allocations d)) d)
        else Err SConstraint
      else Err SNotFound
  end.

Definition GetAllocation (id : uuid) : sop allocation := read (fun d => allocations d !! id).

Definition InsertAllocation (now : Z) (fresh userID : uuid) (sizeBytes : Z) : sop (uuid * allocation) := fun d =>
  let a := mkDA (Some userID) [] [] sizeBytes now None None None None None None in
  if bool_decide (is_Some (allocations d !! fresh)) then Err SAlreadyExists
  else if alloc_row_ok a d && bool_decide (is_Some (users d !! userID))
  then Ok ((fresh, a), set_allocations (<[fresh := a]> (allocations d)) d)
  else Err SConstraint.

Definition live (a : allocation) : bool := bool_decide (da_RevokedAt a = None).
Definition of_user (u : uuid) (a : allocation) : bool := bool_decide (da_UserID a = Some u).

Definition with_binding (b boundAt exp : option Z) (token : option gostr) (a : allocation) : allocation :=
  mkDA (da_UserID a) (da_TenantID a) (da_AgentID a) (da_SizeBytes a) (da_CreatedAt a)
    (da_RevokedAt a) (da_PurgedAt a) b boundAt exp token.
Definition with_revoked (t : Z) (a : allocation) : allocation :=
  mkDA (da_UserID a) (da_TenantID a) (da_AgentID a) (da_SizeBytes a) (da_CreatedAt a)
    (Some (default t (da_RevokedAt a))) (da_PurgedAt a) (da_BoundAgentID a) (da_BoundAt a)
    (da_LeaseExpiresAt a) (da_token a).
Definition with_purged (t : Z) (a : allocation) : allocation :=
  mkDA (da_UserID a) (da_TenantID a) (da_AgentID a) (da_SizeBytes a) (da_CreatedAt a)
    (da_RevokedAt a) (Some t) (da_BoundAgentID a) (da_BoundAt a) (da_LeaseExpiresAt a) (da_token a).
Definition with_size (n : Z) (a : allocation) : allocation :=
  mkDA (da_UserID a) (da_TenantID a) (da_AgentID a) n (da_CreatedAt a)
    (da_RevokedAt a) (da_PurgedAt a) (da_BoundAgentID a) (da_BoundAt a) (da_LeaseExpiresAt a) (da_token a).

Definition BindAllocation (now : Z) (id u agent : uuid) : sop allocation :=
  update_alloc id (fun a => of_user u a && live a && bool_decide (da_BoundAgentID a = None))
    (fun a => with_binding (Some agent) (Some now) (da_LeaseExpiresAt a) (da_token a) a).

Definition RevokeAllocation (now : Z) (id u : uuid) : sop allocation :=
  update_alloc id (of_user u) (with_revoked now).

Definition MarkAllocationPurged (now : Z) (id : uuid) : sop allocation :=
  update_alloc id (fun a => negb (live a) && bool_decide (da_PurgedAt a = None)) (with_purged now).

Definition UpdateAllocationSize (id u : uuid) (n : Z) : sop allocation :=
  update_alloc id (fun a => of_user u a && live a) (with_size n).

(** The active rows of a user. *)
Definition active_of (u : uuid) (d : cdb) : gmap uuid allocation :=
  filter (fun ka => (of_user u ka.2 && live ka.2) = true) (allocations d).

Definition CountActiveAllocationsForUser (u : uuid) (d : cdb) : Z := Z.of_nat (size (active_of u d)).
Definition SumActiveAllocationBytes (u : uuid) (d : cdb) : Z := map_sum da_SizeBytes (active_of u d).

(** ** Mount leases *)

Definition lease_live (now : Z) (a : allocation) : bool :=
  match da_LeaseExpiresAt a with Some t => now <? t | None => false end.
Definition bound_to (agent : uuid) (a : allocation) : bool := bool_decide (da_BoundAgentID a = Some agent).

Definition AcquireMountLease (now ttl : Z) (id agent : uuid) (force : bool) (token : gostr) : sop allocation :=
  update_alloc id
    (fun a => live a && (force || bool_decide (da_BoundAgentID a = None) || bound_to agent a
                         || negb (lease_live now a)))
    (fun a => with_binding (Some agent) (if bound_to agent a then da_BoundAt a else Some now)
                (Some (now + ttl)) (Some token) a).

(** [(? <> '' and hash = ?) or (? = '' and hash is null and bound_agent_id = ?)]. *)
Definition holds (agent : uuid) (token : gostr) (a : allocation) : bool :=
  if decide (token = []) then bool_decide (da_token a = None) && bound_to agent a
  else bool_decide (da_token a = Some token).

Definition RefreshMountLease (now ttl : Z) (id agent : uuid) (token newToken : gostr) : sop allocation :=
  update_alloc id (fun a => live a && lease_live now a && holds agent token a)
    (fun a => with_binding (Some agent) (da_BoundAt a) (Some (now + ttl))
                (if decide (newToken = []) then da_token a else Some newToken) a).

Definition ReleaseMountLease (id agent : uuid) (token : gostr) : sop allocation :=
  update_alloc id (fun a => bool_decide (da_BoundAgentID a = None) || holds agent token a)
    (with_binding None None None None).

Definition ForceReleaseMountLease (id u : uuid) : sop allocation :=
  update_alloc id (fun a => of_user u a && live a) (with_binding None None None None).

(** [on conflict do nothing]. *)
Definition AddCertRevocation (serial : gostr) (r : certRevocation) : sop unit := fun d =>
  Ok (tt, match revocations d !! serial with
          | Some _ => d
          | None => set_revocations (<[serial := r]> (revocations d)) d
          end).

(** ** Placement and capacity *)

Definition GetServerVMByTenant (tenant : gostr) : sop ServerVM := read (fun d => server_vms d !! tenant).

(** The tenant row it refers to was made with the allocation. *)
Definition CreateServerVM (tenant dataAddr status : gostr) : sop unit := fun d =>
  match server_vms d !! tenant with
  | Some _ => Err SAlreadyExists
  | None => Ok (tt, set_server_vms (<[tenant := mkVM dataAddr status]> (server_vms d)) d)
  end.

Definition DeleteServerVM (tenant : gostr) : sop unit := fun d =>
  Ok (tt, set_server_vms (delete tenant (server_vms d)) d).

Definition GetServerPoolByDataAddr (addr : gostr) : sop (uuid * poolServer) :=
  read (fun d => head (filter (fun kp => ps_DataAddr kp.2 = addr) (map_to_list (server_pool d)))).

(** [order by free_bytes desc, data_addr]. *)
Definition better (a b : uuid * poolServer) : bool :=
  (ps_free b.2 <? ps_free a.2)
  || ((ps_free a.2 =? ps_free b.2) && str_ltb (ps_DataAddr a.2) (ps_DataAddr b.2)).

Definition best (l : list (uuid * poolServer)) : option (uuid * poolServer) :=
  foldr (fun x acc => match acc with
                      | Some y => if better x y then Some x else acc
                      | None => Some x
                      end) None l.

Definition PickBestAvailableServer (n : Z) : sop (uuid * poolServer) :=
  read (fun d => best (filter (fun kp => ps_Status kp.2 = StatusAvailable /\ n <= ps_free kp.2)
                         (map_to_list (server_pool d)))).

Definition with_free (n : Z) (p : poolServer) : poolServer :=
  mkPool (ps_DataAddr p) (ps_OpsAddr p) (ps_total p) n (ps_Status p).

(** The update of a pool row with its CHECK. *)
Definition update_pool (id : uuid) (c : poolServer -> bool) (f : poolServer -> Z) : sop unit := fun d =>
  match server_pool d !! id with
  | None => Err SNotFound
  | Some p =>
      if c p then
        if (0 <=? f p) && (f p <=? ps_total p)
        then Ok (tt, set_server_pool (<[id := with_free (f p) p]> (server_pool d)) d)
        else Err SConstraint
      else Err SNotFound
  end.

Definition ReserveCapacity (id : uuid) (n : Z) : sop unit :=
  update_pool id (fun p => bool_decide (ps_Status p = StatusAvailable) && (n <=? ps_free p))
    (fun p => ps_free p - n).

Definition ReserveCapacityForGrowth (id : uuid) (n : Z) : sop unit :=
  update_pool id (fun p => bool_decide (ps_Status p <> StatusUnavailable) && (n <=? ps_free p))
    (fun p => ps_free p - n).

Definition ReleaseCapacity (id : uuid) (n : Z) : sop unit :=
  update_pool id (fun _ => true) (fun p => Z.min (ps_free p + n) (ps_total p)).

(** [join server_pool ... where user_id = ? order by created_at, server_id]. *)
Definition resv_le (a b : (uuid * uuid) * reservation) : Prop :=
  rs_created a.2 < rs_created b.2 \/ (rs_created a.2 = rs_created b.2 /\ a.1.2 <= b.1.2).

#[export] Instance resv_le_dec : RelDecision resv_le.
Proof. intros a b. unfold resv_le. apply _. Defined.

Definition ListOwnerCapacityReservations (u : uuid) (d : cdb) : list (uuid * Z * poolServer) :=
  omap (fun kr => p ← server_pool d !! kr.1.2; Some (kr.1.2, rs_size kr.2, p))
    (merge_sort resv_le (map_to_list (filter (fun kr => kr.1.1 = u) (reservations d)))).

Definition CreateOwnerCapacityReservation (now : Z) (u server : uuid) (n : Z) : sop unit := fun d =>
  if bool_decide (is_Some (reservations d !! (u, server))) then Err SAlreadyExists
  else if (0 <? n) && bool_decide (is_Some (users d !! u)) && bool_decide (is_Some (server_pool d !! server))
  then Ok (tt, set_reservations (<[(u, server) := mkResv n now]> (reservations d)) d)
  else Err SConstraint.

Definition UpdateOwnerCapacityReservationSize (u server : uuid) (n : Z) : sop unit := fun d =>
  match reservations d !! (u, server) with
  | None => Ok (tt, d)
  | Some r => if 0 <? n
              then Ok (tt, set_reservations (<[(u, server) := mkResv n (rs_created r)]> (reservations d)) d)
              else Err SConstraint
  end.

(** The number of deleted rows. *)
Definition DeleteOwnerCapacityReservation (u server : uuid) : sop Z := fun d =>
  Ok (match reservations d !! (u, server) with Some _ => 1 | None => 0 end,
      set_reservations (delete (u, server) (reservations d)) d).

(** [count(distinct tenant_id)] of the user's unpurged allocations placed at an
    address. *)
Definition placed_tenants (u : uuid) (addr : gostr) (d : cdb) : gset gostr :=
  list_to_set (omap (fun ka =>
    if of_user u ka.2 && bool_decide (da_PurgedAt ka.2 = None) then
      us ← users d !! u;
      let t := if decide (da_TenantID ka.2 = []) then us_TenantID us else da_TenantID ka.2 in
      vm ← server_vms d !! t;
      if decide (vm_DataAddr vm = addr) then Some t else None
    else None) (map_to_list (allocations d))).

Definition CountPlacedAllocationsForUserOnServer (u : uuid) (addr : gostr) (d : cdb) : Z :=
  Z.of_nat (size (placed_tenants u addr d)).
