(* ===== verification/Allocations.v ===== *)
(** * The allocation service of the control plane

    orlop-control/internal/allocations: quotas ([Allocate]), the binding of a
    disk to an agent, the mount lease with its continuity token, placement on a
    server with one capacity debit per owner ([Reserve],
    [ResizeOwnerCapacity], [releaseUnusedOwnerCapacity]), resizing and purging.

    A call that opens a transaction is a [sop] whose error rolls it back; a call
    of several statements keeps what the earlier ones did.  The answers of the
    server's admin API are arguments. *)

From S2P Require Import Prelude CtlStore.

Inductive aerr :=
| ErrQuotaExceeded | ErrAlreadyBound | ErrWrongUser | ErrWrongAgent | ErrAlreadyMounted
| ErrLeaseLost | ErrRevoked | ErrNotFound | LeaseLiveError (BoundAt : option Z) (LeaseExpiresAt : Z)
| ErrNoCapacity | ErrNotRevoked | ErrNotAgentAllocation
| ErrStorage (e : serr)                  (* a wrapped storage error *)
| ErrApi                                 (* the server's admin API failed *)
| ErrText (msg : string).

Definition svc (A : Type) : Type := cdb -> result aerr A * cdb.

(** A statement whose error is mapped by [k]. *)
Definition try {A B} (o : sop A) (onErr : serr -> svc B) (k : A -> svc B) : svc B := fun d =>
  match o d with
  | Ok (x, d') => k x d'
  | Err e => onErr e d
  end.

Definition give {A} (x : A) : svc A := fun d => (Ok x, d).
Definition failed {A} (e : aerr) : svc A := fun d => (Err e, d).
Definition wrapped {A} (e : serr) : svc A := failed (ErrStorage e).

(** A transaction: statements with the service's errors; an error rolls back. *)
Definition txn (A : Type) : Type := cdb -> result aerr (A * cdb).
#[export] Instance txn_ret : MRet txn := fun A x d => Ok (x, d).
#[export] Instance txn_bind : MBind txn := fun A B k m d =>
  match m d with Ok (x, d') => k x d' | Err e => Err e end.

Definition stmt {A} (e : serr -> aerr) (o : sop A) : txn A := fun d =>
  match o d with Ok r => Ok r | Err s => Err (e s) end.
Definition look {A} (f : cdb -> A) : txn A := fun d => Ok (f d, d).
Definition abort {A} (e : aerr) : txn A := fun _ => Err e.

Definition atomically {A} (t : txn A) : svc A := fun d =>
  match t d with Ok (x, d') => (Ok x, d') | Err e => (Err e, d) end.

(** [errors.Is(err, storage.ErrNotFound)] becomes one of the service's errors. *)
Definition missing (e : aerr) (s : serr) : aerr :=
  match s with SNotFound => e | s => ErrStorage s end.

(** [GetUserForUpdate]. *)
Definition GetUser (u : uuid) : sop user := read (fun d => users d !! u).

(** ** Quota *)

Definition Allocate (now : Z) (fresh u : uuid) (sizeBytes : Z) : svc (uuid * allocation) :=
  if sizeBytes <=? 0 then failed (ErrText "size_bytes must be positive")
  else atomically (
    us ← stmt ErrStorage (GetUser u);
    used ← look (SumActiveAllocationBytes u);
    if i64 (used + sizeBytes) >? us_QuotaBytes us then abort ErrQuotaExceeded
    else stmt ErrStorage (InsertAllocation now fresh u sizeBytes)).

(** ** Binding and revocation *)

Definition Bind (now : Z) (id u agent : uuid) : svc allocation :=
  try (BindAllocation now id u agent)
    (fun e => match e with
      | SNotFound =>
          try (GetAllocation id) (fun e => failed (missing ErrNotFound e)) (fun cur =>
            if negb (of_user u cur) then failed ErrWrongUser
            else if negb (live cur) then failed ErrRevoked
            else match da_BoundAgentID cur with
                 | Some _ => failed ErrAlreadyBound
                 | None => failed (ErrText "bind: zero rows but no guard matched")
                 end)
      | e => wrapped e
      end)
    give.

Definition Revoke (now : Z) (id u : uuid) : svc unit :=
  try (RevokeAllocation now id u)
    (fun e => match e with
      | SNotFound =>
          try (GetAllocation id) (fun e => failed (missing ErrNotFound e)) (fun cur =>
            if negb (of_user u cur) then failed ErrWrongUser
            else failed (ErrText "revoke: zero rows but no guard matched"))
      | e => wrapped e
      end)
    (fun _ => give tt).

Definition GetForUser (id u : uuid) : svc allocation :=
  try (GetAllocation id) (fun e => failed (missing ErrNotFound e)) (fun a =>
    if negb (of_user u a) then failed ErrWrongUser
    else if negb (live a) then failed ErrRevoked
    else give a).

(** ** Mount leases *)

Definition classifyLeaseMiss (now : Z) (id agent : uuid) (acquired : bool) : svc allocation :=
  try (GetAllocation id) (fun e => failed (missing ErrNotFound e)) (fun cur =>
    if negb (live cur) then failed ErrRevoked
    else if lease_live now cur then
      if negb (bound_to agent cur) then
        failed (if acquired then LeaseLiveError (da_BoundAt cur) (default 0 (da_LeaseExpiresAt cur))
                else ErrWrongAgent)
      else failed (if acquired then ErrAlreadyMounted else ErrWrongAgent)
    else if negb (bound_to agent cur) then
      failed (if acquired then ErrText "classify: acquire miss without live lease" else ErrWrongAgent)
    else failed (if acquired then ErrText "classify: acquire miss with no live lease" else ErrLeaseLost)).

(** The log line of a forced takeover is left out. *)
Definition AcquireMountLeaseWithToken (now ttl : Z) (id agent : uuid) (force : bool) (tokenHash : gostr)
    : svc allocation :=
  try (AcquireMountLease now ttl id agent force tokenHash)
    (fun e => match e with
      | SNotFound => classifyLeaseMiss now id agent true
      | e => wrapped e
      end) give.

Definition RefreshMountLeaseWithToken (now ttl : Z) (id agent : uuid) (tokenHash newTokenHash : gostr)
    : svc allocation :=
  try (RefreshMountLease now ttl id agent tokenHash newTokenHash)
    (fun e => match e with
      | SNotFound => classifyLeaseMiss now id agent false
      | e => wrapped e
      end) give.

(** Failures are only logged. *)
Definition revokeReleasedAgentCert (agent : uuid) (tenant : gostr) : svc unit := fun d =>
  if agent =? 0 then (Ok tt, d)
  else
    match enrollments d !! agent with
    | None => (Ok tt, d)
    | Some enr =>
        (Ok tt, match AddCertRevocation (er_CertSerial enr)
                        (mkRevocation tenant (er_CertNotAfter enr) "lease_released") d with
                | Ok (_, d') => d'
                | Err _ => d
                end)
    end.

Definition ReleaseMountLeaseWithToken (id agent : uuid) (tokenHash : gostr) : svc unit :=
  try (ReleaseMountLease id agent tokenHash)
    (fun e => match e with
      | SNotFound =>
          try (GetAllocation id) (fun e => failed (missing ErrNotFound e)) (fun cur =>
            match da_BoundAgentID cur with
            | Some b => if negb (b =? agent) || bool_decide (tokenHash <> []) then failed ErrWrongAgent
                        else failed (ErrText "release: zero rows but no guard matched")
            | None => failed (ErrText "release: zero rows but no guard matched")
            end)
      | e => wrapped e
      end)
    (fun row => revokeReleasedAgentCert agent (da_TenantID row)).

Definition ForceRelease (id u : uuid) : svc unit := fun d =>
  let prior := allocations d !! id in
  try (CtlStore.ForceReleaseMountLease id u)
    (fun e => match e with
      | SNotFound =>
          try (GetAllocation id) (fun e => failed (missing ErrNotFound e)) (fun cur =>
            if negb (of_user u cur) then failed ErrWrongUser
            else if negb (live cur) then failed ErrRevoked
            else failed (ErrText "force release: zero rows but no guard matched"))
      | e => wrapped e
      end)
    (fun _ => match prior with
              | Some p => match da_BoundAgentID p with
                          | Some b => revokeReleasedAgentCert b (da_TenantID p)
                          | None => give tt
                          end
              | None => give tt
              end) d.

(** ** Placement and the capacity ledger *)

(** Phase 1 of [Reserve]: the owner's server, with one debit per owner. *)
Definition reserveTx (now : Z) (owner : uuid) (sizeBytes : Z) : txn (uuid * gostr) :=
  _ ← stmt ErrStorage (GetUser owner);
  rs ← look (ListOwnerCapacityReservations owner);
  match rs with
  | (server, _, p) :: _ => mret (server, ps_DataAddr p)
  | [] =>
      '(server, p) ← stmt (missing ErrNoCapacity) (PickBestAvailableServer sizeBytes);
      _ ← stmt (missing ErrNoCapacity) (ReserveCapacity server sizeBytes);
      _ ← stmt ErrStorage (CreateOwnerCapacityReservation now owner server sizeBytes);
      mret (server, ps_DataAddr p)
  end.

(** Phase 3: the placement row, or that of a concurrent winner. *)
Definition recordPlacement (tenant dataAddr : gostr) : svc gostr :=
  try (CreateServerVM tenant dataAddr (str "active"))
    (fun e => match e with
      | SAlreadyExists => try (GetServerVMByTenant tenant) wrapped (fun winner => give (vm_DataAddr winner))
      | e => wrapped e
      end)
    (fun _ => give dataAddr).

(** [registered]: whether [RegisterTenant] succeeded. *)
Definition Reserve (now : Z) (registered : bool) (owner : uuid) (tenant : gostr) (sizeBytes : Z) : svc gostr :=
  try (GetServerVMByTenant tenant)
    (fun e => match e with
      | SNotFound => fun d =>
          match atomically (reserveTx now owner sizeBytes) d with
          | (Err e, d') => (Err e, d')
          | (Ok (_, dataAddr), d') =>
              if registered then recordPlacement tenant dataAddr d' else (Err ErrApi, d')
          end
      | e => wrapped e
      end) (fun existing => give (vm_DataAddr existing)).

(** The loop of [ResizeOwnerCapacity] over the owner's reservations. *)
Fixpoint resizeLoop (owner : uuid) (newSize : Z) (rs : list (uuid * Z * poolServer)) : txn unit :=
  match rs with
  | [] => mret tt
  | (server, size, _) :: rs' =>
      let delta := newSize - size in
      _ ← (if 0 <? delta then stmt (missing ErrNoCapacity) (ReserveCapacityForGrowth server delta)
           else if delta <? 0 then stmt ErrStorage (ReleaseCapacity server (- delta))
           else mret tt);
      _ ← (if delta =? 0 then mret tt
           else stmt ErrStorage (UpdateOwnerCapacityReservationSize owner server newSize));
      resizeLoop owner newSize rs'
  end.

Definition ResizeOwnerCapacity (owner : uuid) (newSize : Z) : svc unit :=
  if newSize <=? 0 then failed (ErrText "size_bytes must be positive")
  else atomically (
    _ ← stmt ErrStorage (GetUser owner);
    rs ← look (ListOwnerCapacityReservations owner);
    resizeLoop owner newSize rs).

(** ** Resizing one allocation *)

(** The tenant that holds the disk. *)
Definition tenantOf (us : user) (a : allocation) : gostr :=
  if decide (da_TenantID a = []) then us_TenantID us else da_TenantID a.

Definition updateSizeOnly (id u : uuid) (n : Z) : svc allocation :=
  try (UpdateAllocationSize id u n) (fun e => failed (missing ErrNotFound e)) give.

(** A failed compensation is only logged. *)
Definition compensatePoolDelta (server : uuid) (delta : Z) (d : cdb) : cdb :=
  match (if 0 <? delta then ReleaseCapacity server delta else ReserveCapacityForGrowth server (- delta)) d with
  | Ok (_, d') => d'
  | Err _ => d
  end.

(** [resized]: whether [ResizeTenant] succeeded. *)
Definition Resize (resized : bool) (id u : uuid) (newSize : Z) : svc allocation :=
  if newSize <=? 0 then failed (ErrText "size_bytes must be positive")
  else
    try (GetAllocation id) (fun e => failed (missing ErrNotFound e)) (fun a =>
      if negb (of_user u a) then failed ErrWrongUser
      else if negb (live a) then failed ErrRevoked
      else if newSize =? da_SizeBytes a then give a
      else
        try (GetUser u) wrapped (fun us =>
          try (GetServerVMByTenant (tenantOf us a))
            (fun e => match e with SNotFound => updateSizeOnly id u newSize | e => wrapped e end)
            (fun vm =>
              try (GetServerPoolByDataAddr (vm_DataAddr vm)) wrapped (fun sp =>
                let server := sp.1 in
                let delta := newSize - da_SizeBytes a in
                try (if 0 <? delta then ReserveCapacityForGrowth server delta
                     else ReleaseCapacity server (- delta))
                  (fun e => failed (if 0 <? delta then missing ErrNoCapacity e else ErrStorage e))
                  (fun _ =>
                    if negb resized then fun d => (Err ErrApi, compensatePoolDelta server delta d)
                    else
                      try (UpdateAllocationSize id u newSize)
                        (fun e d => (Err (ErrStorage e), compensatePoolDelta server delta d))
                        give))))).

(** ** Purging *)

Fixpoint releaseLoop (owner : uuid) (rs : list (uuid * Z * poolServer)) (released : Z) : txn Z :=
  match rs with
  | [] => mret released
  | (server, size, p) :: rs' =>
      placed ← look (CountPlacedAllocationsForUserOnServer owner (ps_DataAddr p));
      if negb (placed =? 0) then releaseLoop owner rs' released
      else
        n ← stmt ErrStorage (DeleteOwnerCapacityReservation owner server);
        if 0 <? n then
          _ ← stmt ErrStorage (ReleaseCapacity server size);
          releaseLoop owner rs' (released + size)
        else releaseLoop owner rs' released
  end.

Definition releaseTx (owner : uuid) (erasedTenant : gostr) : txn Z :=
  _ ← stmt ErrStorage (GetUser owner);
  _ ← (if decide (erasedTenant = []) then mret tt else stmt ErrStorage (DeleteServerVM erasedTenant));
  active ← look (CountActiveAllocationsForUser owner);
  rs ← look (ListOwnerCapacityReservations owner);
  if active =? 0 then releaseLoop owner rs 0 else mret 0.

Definition releaseUnusedOwnerCapacity (owner : uuid) (erasedTenant : gostr) : svc Z :=
  atomically (releaseTx owner erasedTenant).

Definition markPurged (now : Z) (id : uuid) : svc unit :=
  try (MarkAllocationPurged now id)
    (fun e => match e with SNotFound => give tt | e => wrapped e end) (fun _ => give tt).

Definition release_and_mark (now : Z) (id owner : uuid) (erased : gostr) : svc unit := fun d =>
  match releaseUnusedOwnerCapacity owner erased d with
  | (Err e, d') => (Err e, d')
  | (Ok _, d') => markPurged now id d'
  end.

(** [unregistered], [erased]: whether [UnregisterTenant] and [PurgeAgentData]
    succeeded; the fence before them is best effort. *)
Definition PurgeAllocation (now : Z) (unregistered erased : bool) (id : uuid) : svc unit :=
  try (GetAllocation id) (fun e => failed (missing ErrNotFound e)) (fun a =>
    if live a then failed ErrNotRevoked
    else if negb (bool_decide (da_PurgedAt a = None)) then give tt
    else if decide (da_AgentID a = []) then failed ErrNotAgentAllocation
    else
      let owner := default 0 (da_UserID a) in
      try (GetUser owner) wrapped (fun us =>
        try (GetServerVMByTenant (tenantOf us a))
          (fun e => match e with
            | SNotFound => release_and_mark now id owner []
            | e => wrapped e
            end)
          (fun vm =>
            try (GetServerPoolByDataAddr (vm_DataAddr vm)) wrapped (fun _ d =>
              let last := if decide (da_TenantID a = []) then CountActiveAllocationsForUser owner d =? 0
                          else true in
              if last then
                if unregistered then release_and_mark now id owner (tenantOf us a) d else (Err ErrApi, d)
              else
                if erased then markPurged now id d else (Err ErrApi, d))))).
