(* ===== verification/AllocProps.v ===== *)
(** * Capacity, leases and the life of an allocation

    Under every interleaving of the service's transactions the free bytes of a server
    stay within its capacity, and the books, with the balance of the resizes of single
    disks, are exact; a mount lease has one holder, whatever the others do short of
    force, and a takeover is final;
    a revoked allocation stays revoked; a purge strands no capacity; quotas are
    kept while the sum fits in 64 bits. *)

From S2P Require Import Prelude CtlStore Allocations.

(** ** Reasoning about statements and transactions *)

Lemma update_alloc_Ok id c f d a d' :
  update_alloc id c f d = Ok (a, d') <->
  exists a0, allocations d !! id = Some a0 /\ c a0 = true /\ alloc_row_ok (f a0) d = true /\
    a = f a0 /\ d' = set_allocations (<[id := f a0]> (allocations d)) d.
Proof.
  unfold update_alloc. split.
  - repeat (case_match; [| done]). intros [= <- <-]. eauto 10.
  - intros (a0 & -> & -> & -> & -> & ->). done.
Qed.

Lemma update_pool_Ok id c f d u d' :
  update_pool id c f d = Ok (u, d') <->
  exists p, server_pool d !! id = Some p /\ c p = true /\ 0 <= f p <= ps_total p /\
    d' = set_server_pool (<[id := with_free (f p) p]> (server_pool d)) d.
Proof.
  unfold update_pool. split.
  - destruct (server_pool d !! id) as [p|]; [| done]. destruct (c p) eqn:Hc; [| done].
    destruct (_ && _) eqn:Hb; [| done]. intros [= _ <-]. exists p. split; [done |].
    split; [done |]. split; [lia | done].
  - intros (p & -> & -> & Hb & ->). destruct u.
    by replace ((0 <=? f p) && (f p <=? ps_total p)) with true by lia.
Qed.

Lemma txn_bind_Ok {A B} (m : txn A) (k : A -> txn B) d b d' :
  (m ≫= k) d = Ok (b, d') <-> exists a d1, m d = Ok (a, d1) /\ k a d1 = Ok (b, d').
Proof.
  unfold mbind, txn_bind. destruct (m d) as [[a d1]|e].
  - split; [eauto |]. by intros (? & ? & [= <- <-] & ?).
  - split; [done |]. by intros (? & ? & ? & ?).
Qed.

Lemma stmt_Ok {A} e (o : sop A) d r : stmt e o d = Ok r <-> o d = Ok r.
Proof. unfold stmt. destruct (o d) as [x|x]; split; congruence. Qed.

(** ** The ledger *)

(** What the owners have reserved on a server. *)
Definition reserved_on (s : uuid) (rs : gmap (uuid * uuid) reservation) : Z :=
  map_sum rs_size (filter (fun kr => kr.1.2 = s) rs).

(** What resizes of single disks have taken from a server on balance: such a resize
    debits the server's free bytes and not the owner's reservation. *)
Definition net (g : gmap uuid Z) (s : uuid) : Z := default 0 (g !! s).

(** The free bytes of each server are its total less its reservations and less the
    balance [g] of the resizes. *)
Record books (g : gmap uuid Z) (d : cdb) : Prop := {
  ledger_rows : map_Forall (fun _ r => 0 < rs_size r) (reservations d);
  ledger_pool s p : server_pool d !! s = Some p ->
    (0 <= ps_free p /\ 0 <= net g s) /\ ps_free p + reserved_on s (reservations d) + net g s = ps_total p }.

Definition ledger : cdb -> Prop := books ∅.

Lemma reserved_ge u s rs r :
  map_Forall (fun _ r => 0 < rs_size r) rs -> rs !! (u, s) = Some r -> rs_size r <= reserved_on s rs.
Proof.
  intros Hp Hr. unfold reserved_on.
  rewrite (map_sum_delete _ _ (u, s) r) by (apply map_lookup_filter_Some; done).
  assert (map_Forall (fun _ r => 0 < rs_size r) (delete (u, s) (filter (fun kr => kr.1.2 = s) rs))) as Hd.
  { apply map_Forall_delete. intros k x [Hx _]%map_lookup_filter_Some. by apply (Hp k). }
  revert Hd. generalize (delete (u, s) (filter (fun kr : uuid * uuid * reservation => kr.1.2 = s) rs)).
  intros m. induction m as [|k x m Hk IH] using map_ind; intros Hd; [rewrite map_sum_empty; lia |].
  apply map_Forall_insert in Hd as [Hx Hm]; [| done]. rewrite map_sum_insert by done.
  specialize (IH Hm). simpl in Hx. lia.
Qed.

Lemma reserved_insert s u s' n rs :
  rs !! (u, s') = None ->
  reserved_on s (<[(u, s') := n]> rs) = reserved_on s rs + if decide (s' = s) then rs_size n else 0.
Proof.
  intros Hn. unfold reserved_on. case_decide as Hs.
  - rewrite map_filter_insert_True by done. rewrite map_sum_insert; [lia |].
    apply map_lookup_filter_None. by left.
  - rewrite map_filter_insert_not by naive_solver. lia.
Qed.

Lemma reserved_delete s u s' n rs :
  rs !! (u, s') = Some n ->
  reserved_on s rs = reserved_on s (delete (u, s') rs) + if decide (s' = s) then rs_size n else 0.
Proof.
  intros Hn. rewrite <- (insert_delete_id _ _ _ Hn) at 1.
  apply reserved_insert. apply lookup_delete_eq.
Qed.

Lemma reserved_replace s u s' old new rs :
  rs !! (u, s') = Some old ->
  reserved_on s (<[(u, s') := new]> rs) =
  reserved_on s rs + if decide (s' = s) then rs_size new - rs_size old else 0.
Proof.
  intros Ho. rewrite <- (insert_delete_eq (M := gmap (uuid * uuid))). rewrite reserved_insert by apply lookup_delete_eq.
  rewrite (reserved_delete s u s' old rs Ho). case_decide; lia.
Qed.

(** Inverts the binds of a transaction, one statement at a time. *)
Ltac txn_step H x d H1 :=
  apply txn_bind_Ok in H as (x & d & H1 & H); rewrite ?stmt_Ok in H1.

Section books.
Context (g : gmap uuid Z).

(** A debit of one server together with its entry in the ledger. *)
Lemma ledger_move d d' s p f :
  books g d -> server_pool d !! s = Some p ->
  server_pool d' = <[s := with_free f p]> (server_pool d) -> 0 <= f ->
  map_Forall (fun _ r => 0 < rs_size r) (reservations d') ->
  (forall t, reserved_on t (reservations d') =
     reserved_on t (reservations d) + if decide (s = t) then ps_free p - f else 0) ->
  books g d'.
Proof.
  intros L Hp Hpool Hf Hpos Hr. split; [done |]. intros t q Hq. rewrite Hpool in Hq.
  apply lookup_insert_Some in Hq as [[<- <-]|[Hne Hq]]; rewrite Hr.
  - simpl. rewrite decide_True by done. destruct (ledger_pool g d L s p Hp) as [[_ ?] E]. split; [done | lia].
  - rewrite decide_False by done. destruct (ledger_pool g d L t q Hq) as [? E]. split; [done | lia].
Qed.

(** Statements that touch neither the pool nor the reservations. *)
Definition off_ledger (d d' : cdb) : Prop :=
  server_pool d' = server_pool d /\ reservations d' = reservations d.

Lemma ledger_off d d' : off_ledger d d' -> books g d -> books g d'.
Proof. intros [Hp Hr] [L1 L2]. split; rewrite ?Hp, ?Hr; done. Qed.

Lemma update_alloc_off id c f d a d' : update_alloc id c f d = Ok (a, d') -> off_ledger d d'.
Proof. by intros (a0 & _ & _ & _ & _ & ->)%update_alloc_Ok. Qed.

Lemma list_owner_spec u d s n p :
  (s, n, p) ∈ ListOwnerCapacityReservations u d ->
  server_pool d !! s = Some p /\ exists r, reservations d !! (u, s) = Some r /\ rs_size r = n.
Proof.
  intros Hin. apply list_elem_of_omap in Hin as ([[u' s'] r] & Hin & Hp).
  rewrite merge_sort_Permutation in Hin.
  apply elem_of_map_to_list, map_lookup_filter_Some in Hin as [Hr Hu]. simpl in Hu, Hp. subst u'.
  destruct (server_pool d !! s') as [q|] eqn:Hq; [| done]. injection Hp as -> <- <-. eauto.
Qed.

(** The rows of the listing have different servers. *)
Lemma list_owner_NoDup u d : NoDup (ListOwnerCapacityReservations u d).*1.*1.
Proof.
  unfold ListOwnerCapacityReservations.
  set (l := merge_sort resv_le _).
  assert (NoDup (l.*1.*2)) as Hl.
  { subst l. rewrite merge_sort_Permutation.
    apply (NoDup_fmap_2_strong snd).
    - intros [u1 s1] [u2 s2] (x1 & Ex1 & H1)%list_elem_of_fmap (x2 & Ex2 & H2)%list_elem_of_fmap E.
      destruct x1 as [k1 r1], x2 as [k2 r2]. simpl in *. subst.
      apply elem_of_map_to_list, map_lookup_filter_Some in H1 as [_ H1], H2 as [_ H2].
      simpl in *. congruence.
    - apply NoDup_fst_map_to_list. }
  revert Hl. generalize l. clear l. induction l as [|[[u' s'] r] l IH]; simpl; [done |].
  intros [Hni Hnd]%NoDup_cons. specialize (IH Hnd).
  destruct (server_pool d !! s') as [p|]; simpl; [| done]. apply NoDup_cons. split; [| done].
  intros Hin. apply Hni. apply list_elem_of_fmap in Hin as ([s2 n2] & E2 & Hin). simpl in E2. subst s2.
  apply list_elem_of_fmap in Hin as ([[s3 n3] p3] & E3 & Hin). simpl in E3. injection E3 as <- <-.
  apply list_elem_of_omap in Hin as ([[u4 s4] r4] & Hin & Hp). simpl in Hp.
  destruct (server_pool d !! s4) as [q|]; [| done]. injection Hp as -> _ _.
  apply list_elem_of_fmap. exists (u4, s'). split; [done |]. apply list_elem_of_fmap.
  by exists (u4, s', r4).
Qed.

Lemma read_Ok {A} (f : cdb -> option A) d x d' : read f d = Ok (x, d') -> f d = Some x /\ d' = d.
Proof. unfold read. destruct (f d) as [y|]; [| done]. by intros [= -> <-]. Qed.

Lemma GetUser_Ok u d x d' : GetUser u d = Ok (x, d') -> users d !! u = Some x /\ d' = d.
Proof. intros H. by apply (read_Ok _ _ _ _ H). Qed.

Lemma GetAllocation_Ok id d x d' : GetAllocation id d = Ok (x, d') -> allocations d !! id = Some x /\ d' = d.
Proof. intros H. by apply (read_Ok _ _ _ _ H). Qed.

Lemma GetServerVM_Ok t d x d' : GetServerVMByTenant t d = Ok (x, d') -> server_vms d !! t = Some x /\ d' = d.
Proof. intros H. by apply (read_Ok _ _ _ _ H). Qed.

Lemma GetServerPool_Ok a d x d' : GetServerPoolByDataAddr a d = Ok (x, d') -> d' = d.
Proof. intros H. by apply (read_Ok _ _ _ _ H). Qed.

Lemma Pick_Ok n d x d' : PickBestAvailableServer n d = Ok (x, d') -> d' = d.
Proof. intros H. by apply (read_Ok _ _ _ _ H). Qed.

Lemma reserveTx_ledger now u n d r d' : reserveTx now u n d = Ok (r, d') -> books g d -> books g d'.
Proof.
  intros H L. unfold reserveTx in H. txn_step H us d1 H1. apply GetUser_Ok in H1 as [_ ->].
  txn_step H rs d2 H2. injection H2 as <- <-.
  destruct (ListOwnerCapacityReservations u d) as [|[[s m] p] rs]; [| by injection H as _ <-].
  txn_step H sp d3 H3. apply Pick_Ok in H3 as ->. destruct sp as [s p].
  txn_step H u1 d4 H4. apply update_pool_Ok in H4 as (q & Hq & _ & Hf & ->).
  txn_step H u2 d5 H5. injection H as _ <-. unfold CreateOwnerCapacityReservation in H5. simpl in H5.
  destruct (bool_decide (is_Some (reservations d !! (u, s)))) eqn:Hn; [done |].
  apply bool_decide_eq_false, eq_None_not_Some in Hn.
  destruct (Z.ltb_spec 0 n); simpl in H5; [| done]. destruct (_ && _); [| done]. injection H5 as _ <-.
  eapply (ledger_move d _ s q (ps_free q - n)); [done | done | done | lia | |].
  - simpl. apply map_Forall_insert_2; [done | apply L].
  - intros t. simpl. rewrite reserved_insert by done. case_decide; simpl; lia.
Qed.

(** The rows still to be handled are as the listing saw them. *)
Definition pending (u : uuid) (rs : list (uuid * Z * poolServer)) (d : cdb) : Prop :=
  NoDup rs.*1.*1 /\
  forall s n p, (s, n, p) ∈ rs -> exists r, reservations d !! (u, s) = Some r /\ rs_size r = n.

Lemma pending_list u d : pending u (ListOwnerCapacityReservations u d) d.
Proof. split; [apply list_owner_NoDup |]. by intros s n p [_ H]%list_owner_spec. Qed.

(** A change of the first row leaves the others. *)
Lemma pending_tail u s n p rs d d' :
  pending u ((s, n, p) :: rs) d ->
  (forall s', s' <> s -> reservations d' !! (u, s') = reservations d !! (u, s')) -> pending u rs d'.
Proof.
  intros [Hnd Hr] Hd. simpl in Hnd. apply NoDup_cons in Hnd as [Hni Hnd]. split; [done |].
  intros s' n' p' Hin. rewrite Hd; [apply (Hr s' n' p'); by right |].
  intros ->. apply Hni. apply list_elem_of_fmap. exists (s, n'). split; [done |].
  apply list_elem_of_fmap. by exists (s, n', p').
Qed.

(** The pool side of a change of size. *)
Lemma pool_delta_spec s delta d u d' :
  (if 0 <? delta then stmt (missing ErrNoCapacity) (ReserveCapacityForGrowth s delta)
   else if delta <? 0 then stmt ErrStorage (ReleaseCapacity s (- delta))
   else mret tt) d = Ok (u, d') ->
  delta = 0 /\ d' = d \/
  delta <> 0 /\ exists p f, server_pool d !! s = Some p /\ 0 <= f <= ps_total p /\
    f = Z.min (ps_free p - delta) (ps_total p) /\
    d' = set_server_pool (<[s := with_free f p]> (server_pool d)) d.
Proof.
  destruct (Z.ltb_spec 0 delta).
  - rewrite stmt_Ok. intros (p & Hp & Hc & Hf & ->)%update_pool_Ok. right. split; [lia |].
    exists p, (ps_free p - delta). split; [done |]. split; [done |]. split; [lia | done].
  - destruct (Z.ltb_spec delta 0).
    + rewrite stmt_Ok. intros (p & Hp & _ & Hf & ->)%update_pool_Ok. right. split; [lia |].
      eexists p, _. split; [done |]. split; [exact Hf |]. split; [lia | done].
    + intros [= _ <-]. left. split; [lia | done].
Qed.

Lemma resizeLoop_ledger u n rs d x d' :
  0 < n -> pending u rs d -> books g d -> resizeLoop u n rs d = Ok (x, d') -> books g d'.
Proof.
  intros Hn. revert d. induction rs as [|[[s m] p] rs IH]; intros d P L H; [by injection H as _ <- |].
  simpl in H. txn_step H u1 d1 H1. txn_step H u2 d2 H2.
  destruct (proj2 P s m p) as (r & Hr & Hm); [by left |].
  apply pool_delta_spec in H1 as [[Hd ->]|(Hd & q & f & Hq & Hf & Ef & ->)].
  - replace (n - m =? 0) with true in H2 by lia. injection H2 as _ <-.
    apply (IH d); [by eapply pending_tail | done | done].
  - replace (n - m =? 0) with false in H2 by lia. rewrite stmt_Ok in H2.
    unfold UpdateOwnerCapacityReservationSize in H2. simpl in H2. rewrite Hr in H2.
    replace (0 <? n) with true in H2 by lia. injection H2 as _ <-. refine (IH _ _ _ H).
    + eapply pending_tail; [done |]. intros s' Hs. simpl. rewrite lookup_insert_ne by congruence. done.
    + eapply (ledger_move d _ s q f); [done | done | done | lia | |]; simpl.
      * apply map_Forall_insert_2; [done | apply L].
      * intros t. erewrite reserved_replace by done. simpl. case_decide as Ht; [| lia].
        pose proof (reserved_ge u s _ r (ledger_rows g d L) Hr).
        destruct (ledger_pool g d L s q Hq) as [[? ?] ?]. lia.
Qed.

Lemma releaseLoop_ledger u rs acc d x d' :
  pending u rs d -> books g d -> releaseLoop u rs acc d = Ok (x, d') -> books g d'.
Proof.
  revert acc d. induction rs as [|[[s m] p] rs IH]; intros acc d P L H; [by injection H as _ <- |].
  simpl in H. txn_step H placed d1 H1. injection H1 as <- <-.
  destruct (negb _); [by apply (IH acc d); [eapply pending_tail | |] |].
  txn_step H k d2 H2. destruct (proj2 P s m p) as (r & Hr & Hm); [by left |].
  unfold DeleteOwnerCapacityReservation in H2. rewrite Hr in H2. injection H2 as <- <-.
  change (0 <? 1) with true in H. cbn iota in H. txn_step H u1 d3 H3.
  apply update_pool_Ok in H3 as (q & Hq & _ & Hf & ->). simpl in Hq. refine (IH _ _ _ _ H).
  - eapply pending_tail; [done |]. intros s' Hs. simpl. rewrite lookup_delete_ne by congruence. done.
  - eapply (ledger_move d _ s q); [done | done | done | apply Hf | |]; simpl.
    + apply map_Forall_delete, L.
    + intros t. pose proof (reserved_delete t u s r _ Hr) as E. case_decide as Ht; [subst t | lia].
      pose proof (reserved_ge u s _ r (ledger_rows g d L) Hr).
      destruct (ledger_pool g d L s q Hq) as [[? ?] ?]. lia.
Qed.
End books.

(** ** Steps of the service

    What concurrent requests interleave: the service's transactions and single
    statements. *)

Inductive cstep (d : cdb) : cdb -> Prop :=
| cs_Allocate now fresh u n : cstep d (Allocate now fresh u n d).2
| cs_Bind now id u g : cstep d (Bind now id u g d).2
| cs_Revoke now id u : cstep d (Revoke now id u d).2
| cs_Acquire now ttl id g force t : cstep d (AcquireMountLeaseWithToken now ttl id g force t d).2
| cs_Refresh now ttl id g t t' : cstep d (RefreshMountLeaseWithToken now ttl id g t t' d).2
| cs_Release id g t : cstep d (ReleaseMountLeaseWithToken id g t d).2
| cs_ForceRelease id u : cstep d (ForceRelease id u d).2
| cs_reserve now o n : cstep d (atomically (reserveTx now o n) d).2
| cs_record t addr : cstep d (recordPlacement t addr d).2
| cs_ResizeOwner o n : cstep d (ResizeOwnerCapacity o n d).2
| cs_release o t : cstep d (releaseUnusedOwnerCapacity o t d).2
| cs_mark now id : cstep d (markPurged now id d).2.

Lemma try_snd {A B} (P : cdb -> Prop) (o : sop A) (onErr : serr -> svc B) (k : A -> svc B) d :
  (forall x d', o d = Ok (x, d') -> P (k x d').2) ->
  (forall e, o d = Err e -> P (onErr e d).2) ->
  P (try o onErr k d).2.
Proof. intros H1 H2. unfold try. destruct (o d) as [[x d']|e]; eauto. Qed.

Lemma atomically_snd {A} (P : cdb -> Prop) (t : txn A) d :
  P d -> (forall x d', t d = Ok (x, d') -> P d') -> P (atomically t d).2.
Proof. intros H1 H2. unfold atomically. destruct (t d) as [[x d']|e] eqn:E; simpl; eauto. Qed.

(** The branches that explain an error only read. *)
Lemma explain_snd {A B} (f : cdb -> option A) onErr (k : A -> svc B) d :
  (forall e, (onErr e d).2 = d) -> (forall x, (k x d).2 = d) ->
  (try (read f) onErr k d).2 = d.
Proof. intros H1 H2. apply (try_snd (fun d' => d' = d)); [| done]. by intros x d' [_ ->]%read_Ok. Qed.

(** ** How rows may change

    Who owns a disk never changes; a revocation and a purge are kept; a purged
    row is revoked; a revoked row gets no new holder and no later expiry.  A
    revoked certificate stays revoked. *)
Record advances (a a' : allocation) : Prop := {
  adv_owner : (da_UserID a', da_TenantID a', da_AgentID a', da_CreatedAt a') =
              (da_UserID a, da_TenantID a, da_AgentID a, da_CreatedAt a);
  adv_revoked t : da_RevokedAt a = Some t -> da_RevokedAt a' = Some t;
  adv_purged t : da_PurgedAt a = Some t -> da_PurgedAt a' = Some t;
  adv_purge_late : is_Some (da_PurgedAt a') -> is_Some (da_PurgedAt a) \/ is_Some (da_RevokedAt a');
  adv_no_holder : is_Some (da_RevokedAt a) ->
    (da_BoundAgentID a', da_LeaseExpiresAt a') = (da_BoundAgentID a, da_LeaseExpiresAt a) \/
    (da_BoundAgentID a', da_LeaseExpiresAt a') = (None, None) }.

#[export] Instance advances_preorder : PreOrder advances.
Proof.
  split.
  - intros a. split; auto.
  - intros a b c [O1 R1 P1 L1 N1] [O2 R2 P2 L2 N2]. split; [congruence | auto | auto | |].
    + intros H3. destruct (L2 H3) as [H2|H2]; [| by right]. destruct (L1 H2) as [?|[t Ht]]; [by left |].
      right. exists t. by apply R2.
    + intros [t Ht]. destruct N2 as [-> | ->]; [exists t; by apply R1 | | by right].
      apply N1. by exists t.
Qed.

(** The constraints of the table of disks. *)
Definition rows_ok (d : cdb) : Prop := map_Forall (fun _ a => alloc_row_ok a d = true) (allocations d).

Definition grows (d d' : cdb) : Prop :=
  (forall id a, allocations d !! id = Some a ->
    exists a', allocations d' !! id = Some a' /\ advances a a') /\
  revocations d ⊆ revocations d' /\
  (forall id a, allocations d' !! id = Some a -> allocations d !! id = None -> da_AgentID a = []) /\
  (users d', enrollments d') = (users d, enrollments d) /\
  (rows_ok d -> rows_ok d').

#[export] Instance grows_preorder : PreOrder grows.
Proof.
  split; [intros d; split_and!; [intros id a Ha; exists a; by split | done | congruence | done | done] |].
  intros d1 d2 d3 (G1 & R1 & N1 & U1 & S1) (G2 & R2 & N2 & U2 & S2). split_and!.
  - intros id a (a' & Ha' & A1)%G1. apply G2 in Ha' as (a'' & Ha'' & A2).
    exists a''. split; [done | by transitivity a'].
  - by transitivity (revocations d2).
  - intros id a Ha Hn. destruct (allocations d2 !! id) as [b|] eqn:Hb; [| by eapply N2].
    destruct (G2 _ _ Hb) as (a' & Ha' & [O _ _ _ _]). rewrite Ha in Ha'. injection Ha' as <-.
    injection O as _ _ -> _. by eapply N1.
  - congruence.
  - auto.
Qed.

Definition kept (d d' : cdb) : Prop := off_ledger d d' /\ grows d d'.

Lemma kept_refl d : kept d d.
Proof. by split. Qed.
#[export] Hint Resolve kept_refl : core.

Lemma grows_same d d' :
  (allocations d', revocations d', users d', enrollments d') =
  (allocations d, revocations d, users d, enrollments d) -> grows d d'.
Proof.
  intros [= E1 E2 E3 E4]. unfold grows, rows_ok, alloc_row_ok. rewrite E1, E2, E3, E4.
  split_and!; [intros id a Ha; by exists a | done | congruence | done | done].
Qed.

Lemma update_alloc_kept id c f d a d' :
  (forall a, c a = true -> advances a (f a)) -> update_alloc id c f d = Ok (a, d') -> kept d d'.
Proof.
  intros Hf (a0 & Ha0 & Hc & Hok & _ & ->)%update_alloc_Ok. split; [done |].
  split_and!; [| done | | done | intros Hs; by apply map_Forall_insert_2]; simpl.
  - intros i b Hb. destruct (decide (i = id)) as [->|Hne].
    + rewrite Ha0 in Hb. injection Hb as <-. exists (f a0). rewrite lookup_insert_eq. auto.
    + exists b. by rewrite lookup_insert_ne.
  - intros i b Hb Hn. rewrite lookup_insert_ne in Hb by congruence. congruence.
Qed.

(** A change of a live row that keeps its owner and its purge mark. *)
Lemma advances_live f a :
  live a = true ->
  (da_UserID (f a), da_TenantID (f a), da_AgentID (f a), da_CreatedAt (f a), da_PurgedAt (f a)) =
  (da_UserID a, da_TenantID a, da_AgentID a, da_CreatedAt a, da_PurgedAt a) ->
  advances a (f a).
Proof.
  intros Hl%bool_decide_eq_true E. injection E as E1 E2 E3 E4 E5.
  split; rewrite ?Hl, ?E5; [congruence | done | done | by left | by intros [? ?]].
Qed.

Lemma advances_released a : advances a (with_binding None None None None a).
Proof. split; simpl; auto. Qed.

Lemma advances_revoked t a : advances a (with_revoked t a).
Proof. split; simpl; auto. by intros t' ->. Qed.

Lemma advances_purged t a :
  live a = false -> da_PurgedAt a = None -> advances a (with_purged t a).
Proof.
  intros Hl%bool_decide_eq_false Hp. split; simpl; auto; [by rewrite Hp |].
  intros _. right. by apply not_eq_None_Some.
Qed.

(** A statement on one row, by the guard it has. *)
Ltac row_kept := eapply update_alloc_kept; [| eassumption]; intros ? Hc; cbv beta in Hc;
  first [ apply advances_released | apply advances_revoked
        | rewrite !andb_true_iff in Hc; apply advances_live; [tauto | done]
        | apply andb_true_iff in Hc as [Hl%negb_true_iff Hp%bool_decide_eq_true]; by apply advances_purged ].

(** The branch that explains why no row matched reads the row only. *)
Ltac explained := apply (try_snd (kept _)); [by intros ? ? [_ ->]%GetAllocation_Ok; repeat case_match | done].

Lemma Insert_kept now f u n d x d' : InsertAllocation now f u n d = Ok (x, d') -> kept d d'.
Proof.
  unfold InsertAllocation. case_bool_decide as Hn; [done |].
  destruct (alloc_row_ok _ d) eqn:Hok; [| done]. destruct (bool_decide _); [| done].
  intros [= _ <-]. split; [done |]. split_and!; [| done | | done | intros Hs; by apply map_Forall_insert_2]; simpl.
  - intros i a Ha. exists a. rewrite lookup_insert_ne; [done |]. intros <-. by destruct Hn; exists a.
  - intros i a [[<- <-]|[_ ?]]%lookup_insert_Some ?; [done | congruence].
Qed.

Lemma Allocate_kept now f u n d : kept d (Allocate now f u n d).2.
Proof.
  unfold Allocate. case_match; [done |]. apply atomically_snd; [done |]. intros x d' H0.
  txn_step H0 us d1 H1. apply GetUser_Ok in H1 as [_ ->]. txn_step H0 used d2 H2. injection H2 as _ <-.
  case_match; [done |]. apply stmt_Ok in H0. by eapply Insert_kept.
Qed.

Lemma Bind_kept now id u g d : kept d (Bind now id u g d).2.
Proof. apply (try_snd (kept d)); [intros x d' H; row_kept |]. intros [] _; [explained | done | done]. Qed.

Lemma Revoke_kept now id u d : kept d (Revoke now id u d).2.
Proof. apply (try_snd (kept d)); [intros x d' H; row_kept |]. intros [] _; [explained | done | done]. Qed.

Lemma markPurged_kept now id d : kept d (markPurged now id d).2.
Proof. apply (try_snd (kept d)); [intros x d' H; row_kept |]. by intros [] _. Qed.

Lemma classify_kept now id g acq d : kept d (classifyLeaseMiss now id g acq d).2.
Proof. explained. Qed.

Lemma Acquire_kept now ttl id g force t d : kept d (AcquireMountLeaseWithToken now ttl id g force t d).2.
Proof. apply (try_snd (kept d)); [intros x d' H; row_kept |]. intros [] _; [apply classify_kept | done | done]. Qed.

Lemma Refresh_kept now ttl id g t t' d : kept d (RefreshMountLeaseWithToken now ttl id g t t' d).2.
Proof. apply (try_snd (kept d)); [intros x d' H; row_kept |]. intros [] _; [apply classify_kept | done | done]. Qed.

Lemma kept_trans d1 d2 d3 : kept d1 d2 -> kept d2 d3 -> kept d1 d3.
Proof.
  intros [[P1 R1] G1] [[P2 R2] G2]. split; [split; congruence | by transitivity d2].
Qed.

Lemma revokeCert_kept g t d : kept d (revokeReleasedAgentCert g t d).2.
Proof.
  unfold revokeReleasedAgentCert. case_match; [done |]. case_match; [| done]. simpl.
  destruct (revocations d !! _) eqn:E; [done |]. split; [done |].
  split_and!; [intros id a Ha; by exists a | by apply insert_subseteq | simpl; congruence | done | done].
Qed.

Lemma Release_kept id g t d : kept d (ReleaseMountLeaseWithToken id g t d).2.
Proof.
  apply (try_snd (kept d)); [intros x d' H; eapply kept_trans; [row_kept | apply revokeCert_kept] |].
  intros [] _; [explained | done | done].
Qed.

Lemma ForceRelease_kept id u d : kept d (ForceRelease id u d).2.
Proof.
  apply (try_snd (kept d)).
  - intros x d' H. eapply kept_trans; [row_kept |].
    case_match; [| done]. case_match; [apply revokeCert_kept | done].
  - intros [] _; [explained | done | done].
Qed.

Lemma record_kept t addr d : kept d (recordPlacement t addr d).2.
Proof.
  apply (try_snd (kept d)).
  - intros x d' H. unfold CreateServerVM in H. case_match; [done |]. injection H as _ <-.
    split; [done | by apply grows_same].
  - intros [] _; [done | | done]. apply (try_snd (kept d)); [| done]. by intros ? ? [_ ->]%GetServerVM_Ok.
Qed.

(** The capacity transactions leave allocations and revocations alone. *)
Definition rowless {A} (t : txn A) : Prop :=
  forall d x d', t d = Ok (x, d') ->
    (allocations d', revocations d', users d', enrollments d') =
    (allocations d, revocations d, users d, enrollments d).

Lemma rowless_bind {A B} (m : txn A) (k : A -> txn B) :
  rowless m -> (forall x, rowless (k x)) -> rowless (m ≫= k).
Proof.
  intros Hm Hk d y d' (x & d1 & H1 & H2)%txn_bind_Ok. rewrite (Hk _ _ _ _ H2). by eapply Hm.
Qed.

Lemma rowless_read {A} e (f : cdb -> option A) : rowless (stmt e (read f)).
Proof. intros d x d' H%stmt_Ok. by apply read_Ok in H as [_ ->]. Qed.

Lemma rowless_pool e id c f : rowless (stmt e (update_pool id c f)).
Proof. intros d x d' H%stmt_Ok. by apply update_pool_Ok in H as (p & _ & _ & _ & ->). Qed.

Lemma rowless_look {A} (f : cdb -> A) : rowless (look f).
Proof. by intros d x d' [= _ <-]. Qed.

Lemma rowless_ret {A} (x : A) : rowless (mret x).
Proof. by intros d y d' [= _ <-]. Qed.

Lemma rowless_create e now u s n : rowless (stmt e (CreateOwnerCapacityReservation now u s n)).
Proof.
  intros d x d' H%stmt_Ok. unfold CreateOwnerCapacityReservation in H.
  repeat case_match; try done; by injection H as _ <-.
Qed.

Lemma rowless_update e u s n : rowless (stmt e (UpdateOwnerCapacityReservationSize u s n)).
Proof.
  intros d x d' H%stmt_Ok. unfold UpdateOwnerCapacityReservationSize in H.
  repeat case_match; try done; by injection H as _ <-.
Qed.

Lemma rowless_delete e u s : rowless (stmt e (DeleteOwnerCapacityReservation u s)).
Proof. intros d x d' H%stmt_Ok. by injection H as _ <-. Qed.

Lemma rowless_vm e t : rowless (stmt e (DeleteServerVM t)).
Proof. intros d x d' H%stmt_Ok. by injection H as _ <-. Qed.

Create HintDb rowless.
#[export] Hint Resolve rowless_read rowless_pool rowless_look rowless_ret rowless_create
  rowless_update rowless_delete rowless_vm : rowless.

Ltac rowless := repeat first
  [ apply rowless_bind; [| intros ?] | solve [auto with rowless] | progress case_match | apply rowless_read | apply rowless_pool ].

Lemma reserveTx_rowless now o n : rowless (reserveTx now o n).
Proof. unfold reserveTx. rowless. Qed.

Lemma resizeLoop_rowless o n rs : rowless (resizeLoop o n rs).
Proof. induction rs as [|[[s m] p] rs IH]; simpl; rowless. Qed.

Lemma releaseLoop_rowless o rs acc : rowless (releaseLoop o rs acc).
Proof. revert acc. induction rs as [|[[s m] p] rs IH]; intros acc; simpl; rowless. Qed.

Lemma releaseTx_rowless o t : rowless (releaseTx o t).
Proof. unfold releaseTx. rowless. apply releaseLoop_rowless. Qed.

Section books_steps.
Context (g : gmap uuid Z).

Lemma ResizeOwner_ledger o n d : books g d -> books g (ResizeOwnerCapacity o n d).2.
Proof.
  intros L. unfold ResizeOwnerCapacity. destruct (Z.leb_spec n 0); [done |].
  apply atomically_snd; [done |]. intros x d' H1. txn_step H1 us d1 H2. apply GetUser_Ok in H2 as [_ ->].
  txn_step H1 rs d2 H3. injection H3 as <- <-. eapply resizeLoop_ledger; [done | apply pending_list | done | done].
Qed.

Lemma releaseTx_ledger o t d x d' : releaseTx o t d = Ok (x, d') -> books g d -> books g d'.
Proof.
  intros H L. unfold releaseTx in H. txn_step H us d1 H1. apply GetUser_Ok in H1 as [_ ->].
  txn_step H u d2 H2. assert (books g d2) as L2.
  { apply (ledger_off g d); [| done]. case_decide; [by injection H2 as _ <- |].
    apply stmt_Ok in H2. by injection H2 as _ <-. }
  txn_step H act d3 H3. injection H3 as <- <-. txn_step H rs d4 H4. injection H4 as <- <-.
  case_match; [| by injection H as _ <-]. eapply releaseLoop_ledger; [apply pending_list | done | done].
Qed.

Lemma cstep_ledger d d' : cstep d d' -> books g d -> books g d'.
Proof.
  intros S L. destruct S;
    try (eapply (ledger_off g d); [| done];
         first [ apply Allocate_kept | apply Bind_kept | apply Revoke_kept | apply Acquire_kept
               | apply Refresh_kept | apply Release_kept | apply ForceRelease_kept
               | apply record_kept | apply markPurged_kept ]).
  - apply atomically_snd; [done |]. intros x d' H. by eapply reserveTx_ledger.
  - by apply ResizeOwner_ledger.
  - unfold releaseUnusedOwnerCapacity. apply atomically_snd; [done |]. intros x d' H. by eapply releaseTx_ledger.
Qed.

Lemma steps_ledger d d' : rtc cstep d d' -> books g d -> books g d'.
Proof. induction 1; eauto using cstep_ledger. Qed.
End books_steps.

Lemma rowless_grows {A} (t : txn A) d : rowless t -> grows d (atomically t d).2.
Proof. intros R. apply (atomically_snd (grows d)); [done |]. intros x d' H. by eapply grows_same, R. Qed.

Lemma cstep_grows d d' : cstep d d' -> grows d d'.
Proof.
  intros S. destruct S;
    try first [ apply Allocate_kept | apply Bind_kept | apply Revoke_kept | apply Acquire_kept
              | apply Refresh_kept | apply Release_kept | apply ForceRelease_kept
              | apply record_kept | apply markPurged_kept ].
  - apply rowless_grows, reserveTx_rowless.
  - unfold ResizeOwnerCapacity. case_match; [done |]. apply rowless_grows.
    rowless. apply resizeLoop_rowless.
  - apply rowless_grows, releaseTx_rowless.
Qed.

(** The longer calls are sequences of steps. *)
Lemma Reserve_steps now reg o t n d : rtc cstep d (Reserve now reg o t n d).2.
Proof.
  unfold Reserve. apply (try_snd (rtc cstep d)); [by intros x d' [_ ->]%GetServerVM_Ok |].
  intros [] _; [| done | done].
  pose proof (cs_reserve d now o n) as S. destruct (atomically (reserveTx now o n) d) as [[[s a]|e] d1]; simpl in *.
  - destruct reg; [| by apply rtc_once]. eapply rtc_l; [done |]. apply rtc_once, cs_record.
  - by apply rtc_once.
Qed.

Lemma release_and_mark_steps now id o t d : rtc cstep d (release_and_mark now id o t d).2.
Proof.
  unfold release_and_mark. pose proof (cs_release d o t) as S.
  destruct (releaseUnusedOwnerCapacity o t d) as [[k|e] d1]; simpl in *; [| by apply rtc_once].
  eapply rtc_l; [done |]. apply rtc_once, cs_mark.
Qed.

Lemma Purge_steps now un er id d : rtc cstep d (PurgeAllocation now un er id d).2.
Proof.
  unfold PurgeAllocation. apply (try_snd (rtc cstep d)); [| done]. intros a ? [_ ->]%GetAllocation_Ok.
  do 3 (case_match; [done |]). apply (try_snd (rtc cstep d)); [| done]. intros us ? [_ ->]%GetUser_Ok.
  apply (try_snd (rtc cstep d)); [| intros [] _; [apply release_and_mark_steps | done | done]].
  intros addr ? [_ ->]%GetServerVM_Ok. apply (try_snd (rtc cstep d)); [| done].
  intros sp ? ->%GetServerPool_Ok.
  destruct un, er; repeat case_match; try done; first [apply release_and_mark_steps | apply rtc_once, cs_mark].
Qed.

(** ** Resizing one allocation keeps its history too *)

Lemma pool_grows id c f d u d' : update_pool id c f d = Ok (u, d') -> grows d d'.
Proof. intros (p & _ & _ & _ & ->)%update_pool_Ok. by apply grows_same. Qed.

Lemma compensate_grows s n d : grows d (compensatePoolDelta s n d).
Proof.
  unfold compensatePoolDelta.
  destruct (if 0 <? n then _ else _) as [[[] d']|e] eqn:E; [| done].
  destruct (0 <? n); by eapply pool_grows.
Qed.

Lemma UpdateSize_grows id u n d x d' : UpdateAllocationSize id u n d = Ok (x, d') -> grows d d'.
Proof.
  intros H. eapply (update_alloc_kept _ _ _ d x d'); [| exact H].
  intros b Hb. apply andb_true_iff in Hb as [_ Hl]. by apply advances_live.
Qed.

Lemma Resize_grows ok id u n d : grows d (Resize ok id u n d).2.
Proof.
  unfold Resize. case_match; [done |]. apply (try_snd (grows d)); [| done].
  intros a ? [_ ->]%GetAllocation_Ok. do 3 (case_match; [done |]).
  apply (try_snd (grows d)); [| done]. intros us ? [_ ->]%GetUser_Ok.
  apply (try_snd (grows d)).
  - intros addr ? [_ ->]%GetServerVM_Ok. apply (try_snd (grows d)); [| done].
    intros sp ? ->%GetServerPool_Ok. apply (try_snd (grows d)); [| done].
    intros ? d' Hp. transitivity d'; [case_match; by eapply pool_grows |].
    destruct ok; [| apply compensate_grows]. apply (try_snd (grows d')); [| intros; apply compensate_grows].
    intros y d2 Hx. by eapply UpdateSize_grows.
  - intros [] _; [| done | done]. apply (try_snd (grows d)); [| done].
    intros x d2 Hx. by eapply UpdateSize_grows.
Qed.

(** ** Claims *)

(** *** Resizes of single disks in the books *)

(** The steps of all requests with the balance of the resizes: those of [cstep], and the
    statements of [Resize], which debit or credit a server, change the size of the disk,
    and undo the debit when the server's API fails. *)
Inductive bstep : cdb * gmap uuid Z -> cdb * gmap uuid Z -> Prop :=
| bs_step d d' g : cstep d d' -> bstep (d, g) (d', g)
| bs_grow s n d d' g :
    0 < n -> ReserveCapacityForGrowth s n d = Ok (tt, d') -> bstep (d, g) (d', <[s := net g s + n]> g)
| bs_shrink s n d d' g :
    0 < n -> ReleaseCapacity s n d = Ok (tt, d') -> bstep (d, g) (d', <[s := net g s - n]> g)
| bs_size id u n a d d' g : UpdateAllocationSize id u n d = Ok (a, d') -> bstep (d, g) (d', g).

(** Resizes have on no server given back more than they took. *)
Definition steady (x y : cdb * gmap uuid Z) : Prop := bstep x y /\ forall s, 0 <= net y.2 s.

Lemma net_insert g s n t : net (<[s := n]> g) t = if decide (s = t) then n else net g t.
Proof.
  unfold net. case_decide as H; [subst; by rewrite lookup_insert_eq | by rewrite lookup_insert_ne].
Qed.

Lemma reserved_nonneg s rs : map_Forall (fun _ r => 0 < rs_size r) rs -> 0 <= reserved_on s rs.
Proof.
  intros Hp. unfold reserved_on.
  assert (map_Forall (fun _ r => 0 < rs_size r) (filter (fun kr : uuid * uuid * reservation => kr.1.2 = s) rs)) as H
    by (intros k x [Hx _]%map_lookup_filter_Some; by apply (Hp k)).
  revert H. generalize (filter (fun kr : uuid * uuid * reservation => kr.1.2 = s) rs). intros m.
  induction m as [|k x m Hk IH] using map_ind; intros H; [by rewrite map_sum_empty |].
  apply map_Forall_insert in H as [Hx Hm]; [| done]. rewrite map_sum_insert by done. specialize (IH Hm). simpl in Hx. lia.
Qed.

(** A change of one server's free bytes that the balance explains. *)
Lemma books_debit g d s p f :
  books g d -> server_pool d !! s = Some p -> 0 <= f -> 0 <= net g s + (ps_free p - f) ->
  books (<[s := net g s + (ps_free p - f)]> g) (set_server_pool (<[s := with_free f p]> (server_pool d)) d).
Proof.
  intros L Hp Hf Hn. split; [apply L |]. simpl. intros t q [[<- <-]|[Hne Hq]]%lookup_insert_Some; rewrite net_insert.
  - rewrite decide_True by done. destruct (ledger_pool g d L s p Hp) as [_ E]. simpl. split; [done | lia].
  - rewrite decide_False by done. by apply (ledger_pool g d L).
Qed.

Lemma steady_books x y : steady x y -> books x.2 x.1 -> books y.2 y.1.
Proof.
  intros [S Hs] L. destruct S as [d d' g S|s n d d' g Hn H|s n d d' g Hn H|id u n a d d' g H]; simpl in *.
  - by eapply cstep_ledger.
  - apply update_pool_Ok in H as (p & Hp & _ & Hf & ->).
    replace (net g s + n) with (net g s + (ps_free p - (ps_free p - n))) in * by lia.
    specialize (Hs s). rewrite net_insert, decide_True in Hs by done. apply books_debit; [done | done | lia | lia].
  - apply update_pool_Ok in H as (p & Hp & _ & Hf & ->). specialize (Hs s). rewrite net_insert, decide_True in Hs by done.
    destruct (ledger_pool g d L s p Hp) as [_ E]. pose proof (reserved_nonneg s _ (ledger_rows g d L)).
    replace (Z.min (ps_free p + n) (ps_total p)) with (ps_free p + n) in * by lia.
    replace (net g s - n) with (net g s + (ps_free p - (ps_free p + n))) by lia. apply books_debit; [done | done | lia | lia].
  - apply (ledger_off g d); [by eapply update_alloc_off | done].
Qed.

(** The free bytes of a server are never negative and never above its capacity. *)
Definition bounded (d : cdb) : Prop := map_Forall (fun _ p => 0 <= ps_free p <= ps_total p) (server_pool d).

Definition bounds {A} (t : txn A) : Prop := forall d x d', t d = Ok (x, d') -> bounded d -> bounded d'.

Lemma pool_bounded id c f d u d' : update_pool id c f d = Ok (u, d') -> bounded d -> bounded d'.
Proof. intros (p & _ & _ & Hf & ->)%update_pool_Ok B. unfold bounded. simpl. by apply map_Forall_insert_2. Qed.

Lemma bounds_bind {A B} (m : txn A) (k : A -> txn B) : bounds m -> (forall x, bounds (k x)) -> bounds (m ≫= k).
Proof. intros Hm Hk d y d' (x & d1 & H1 & H2)%txn_bind_Ok B0. eapply Hk; [exact H2 |]. by eapply Hm. Qed.

Lemma bounds_pool e id c f : bounds (stmt e (update_pool id c f)).
Proof. intros d x d' H%stmt_Ok. by eapply pool_bounded. Qed.

(** Statements that do not touch the pool. *)
Lemma bounds_other {A} (t : txn A) :
  (forall d x d', t d = Ok (x, d') -> server_pool d' = server_pool d) -> bounds t.
Proof. intros Ht d x d' H B. unfold bounded. by rewrite (Ht _ _ _ H). Qed.

Lemma bounds_read {A} e (f : cdb -> option A) : bounds (stmt e (read f)).
Proof. apply bounds_other. intros d x d' H%stmt_Ok. by apply read_Ok in H as [_ ->]. Qed.
Lemma bounds_look {A} (f : cdb -> A) : bounds (look f).
Proof. apply bounds_other. by intros d x d' [= _ <-]. Qed.
Lemma bounds_ret {A} (x : A) : bounds (mret x).
Proof. apply bounds_other. by intros d y d' [= _ <-]. Qed.
Lemma bounds_create e now u s n : bounds (stmt e (CreateOwnerCapacityReservation now u s n)).
Proof.
  apply bounds_other. intros d x d' H%stmt_Ok. unfold CreateOwnerCapacityReservation in H.
  repeat case_match; try done; by injection H as _ <-.
Qed.
Lemma bounds_update e u s n : bounds (stmt e (UpdateOwnerCapacityReservationSize u s n)).
Proof.
  apply bounds_other. intros d x d' H%stmt_Ok. unfold UpdateOwnerCapacityReservationSize in H.
  repeat case_match; try done; by injection H as _ <-.
Qed.
Lemma bounds_delete e u s : bounds (stmt e (DeleteOwnerCapacityReservation u s)).
Proof. apply bounds_other. intros d x d' H%stmt_Ok. by injection H as _ <-. Qed.
Lemma bounds_vm e t : bounds (stmt e (DeleteServerVM t)).
Proof. apply bounds_other. intros d x d' H%stmt_Ok. by injection H as _ <-. Qed.

#[export] Hint Resolve bounds_read bounds_pool bounds_look bounds_ret bounds_create
  bounds_update bounds_delete bounds_vm : rowless.

Ltac bounds_tac := repeat first
  [ apply bounds_bind; [| intros ?] | solve [auto with rowless] | progress case_match | apply bounds_read | apply bounds_pool ].

Lemma reserveTx_bounds now o n : bounds (reserveTx now o n).
Proof. unfold reserveTx. bounds_tac. Qed.
Lemma resizeLoop_bounds o n rs : bounds (resizeLoop o n rs).
Proof. induction rs as [|[[s m] p] rs IH]; simpl; bounds_tac. Qed.
Lemma releaseLoop_bounds o rs acc : bounds (releaseLoop o rs acc).
Proof. revert acc. induction rs as [|[[s m] p] rs IH]; intros acc; simpl; bounds_tac. Qed.

Lemma cstep_bounded d d' : cstep d d' -> bounded d -> bounded d'.
Proof.
  intros S B. assert (forall d2, off_ledger d d2 -> bounded d2) as Hoff by (intros d2 [Hp _]; unfold bounded; by rewrite Hp).
  destruct S; try (apply Hoff;
         first [ apply Allocate_kept | apply Bind_kept | apply Revoke_kept | apply Acquire_kept
               | apply Refresh_kept | apply Release_kept | apply ForceRelease_kept
               | apply record_kept | apply markPurged_kept ]).
  - apply atomically_snd; [done |]. intros x d' H. by eapply reserveTx_bounds.
  - unfold ResizeOwnerCapacity. case_match; [done |]. apply atomically_snd; [done |]. intros x d' H1.
    revert H1 B. generalize d x d'. change (bounds (_ ← stmt ErrStorage (GetUser o);
      rs ← look (ListOwnerCapacityReservations o); resizeLoop o n rs)). bounds_tac. apply resizeLoop_bounds.
  - unfold releaseUnusedOwnerCapacity. apply atomically_snd; [done |]. intros x d' H1.
    revert H1 B. generalize d x d'. change (bounds (releaseTx o t)). unfold releaseTx. bounds_tac. apply releaseLoop_bounds.
Qed.

Lemma bstep_bounded x y : bstep x y -> bounded x.1 -> bounded y.1.
Proof.
  intros S B. destruct S as [d d' g S|s n d d' g Hn H|s n d d' g Hn H|id u n a d d' g H]; simpl in *.
  - by eapply cstep_bounded.
  - by eapply pool_bounded.
  - by eapply pool_bounded.
  - apply update_alloc_off in H as [Hp _]. unfold bounded. by rewrite Hp.
Qed.

Lemma bsteps_bounded x y : rtc bstep x y -> bounded x.1 -> bounded y.1.
Proof. induction 1; eauto using bstep_bounded. Qed.

Lemma steady_steps x y : rtc steady x y -> books x.2 x.1 -> books y.2 y.1.
Proof. induction 1; eauto using steady_books. Qed.

(** [Resize] is a sequence of these steps. *)
Lemma Resize_bsteps (ok : bool) (id u : uuid) (n : Z) (d : cdb) (g : gmap uuid Z) : exists g', rtc bstep (d, g) ((Resize ok id u n d).2, g').
Proof.
  assert (forall d', d' = d -> exists g', rtc bstep (d, g) (d', g')) as Hrefl by (intros ? ->; by exists g).
  unfold Resize. case_match; [by apply Hrefl |].
  apply (try_snd (fun d' => exists g', rtc bstep (d, g) (d', g'))); [| intros; by apply Hrefl].
  intros a ? [_ ->]%GetAllocation_Ok. do 3 (case_match; [by apply Hrefl |]).
  apply (try_snd (fun d' => exists g', rtc bstep (d, g) (d', g'))); [| intros; by apply Hrefl].
  intros us ? [_ ->]%GetUser_Ok.
  assert (forall d1 x d2 g1, rtc bstep (d, g) (d1, g1) -> UpdateAllocationSize id u n d1 = Ok (x, d2) ->
    exists g', rtc bstep (d, g) (d2, g')) as Hsize.
  { intros d1 x d2 g1 S Hx. exists g1. eapply rtc_r; [exact S | by eapply bs_size]. }
  apply (try_snd (fun d' => exists g', rtc bstep (d, g) (d', g'))).
  - intros addr ? [_ ->]%GetServerVM_Ok.
    apply (try_snd (fun d' => exists g', rtc bstep (d, g) (d', g'))); [| intros; by apply Hrefl].
    intros [s p] ? ->%GetServerPool_Ok. cbn [fst]. set (delta := n - da_SizeBytes a).
    assert (delta <> 0) as Hd by (subst delta; lia).
    apply (try_snd (fun d' => exists g', rtc bstep (d, g) (d', g'))); [| intros; by apply Hrefl].
    intros [] d1 Hp.
    assert (exists g1, bstep (d, g) (d1, g1)) as (g1 & S1).
    { destruct (Z.ltb_spec 0 delta); eexists; [by apply bs_grow | apply (bs_shrink s (- delta)); [lia | done]]. }
    assert (exists g', rtc bstep (d, g) (compensatePoolDelta s delta d1, g')) as Hcomp.
    { unfold compensatePoolDelta. destruct (Z.ltb_spec 0 delta).
      - destruct (ReleaseCapacity s delta d1) as [[[] d2]|] eqn:E; [| exists g1; by apply rtc_once].
        eexists. eapply rtc_l; [exact S1 |]. apply rtc_once. by apply bs_shrink.
      - destruct (ReserveCapacityForGrowth s (- delta) d1) as [[[] d2]|] eqn:E; [| exists g1; by apply rtc_once].
        eexists. eapply rtc_l; [exact S1 |]. apply rtc_once. apply (bs_grow s (- delta)); [lia | done]. }
    destruct ok; [| exact Hcomp].
    apply (try_snd (fun d' => exists g', rtc bstep (d, g) (d', g'))); [| by intros].
    intros x d2 Hx. eapply (Hsize d1); [by apply rtc_once | exact Hx].
  - intros [] _; [| by apply Hrefl | by apply Hrefl].
    apply (try_snd (fun d' => exists g', rtc bstep (d, g) (d', g'))); [| intros; by apply Hrefl].
    intros x d2 Hx. by eapply (Hsize d); [apply rtc_refl | exact Hx].
Qed.

(** C8: Whatever concurrent requests do and in whatever order their transactions commit,
    no server's free bytes are negative or above its capacity.  While the resizes of
    single disks have on no server given back more than they took, the pool's books are
    exact: on every server the free bytes, the reservations of the owners and the balance
    of those resizes add up to the capacity (without such a resize, free bytes and
    reservations alone: a resize of one disk changes no reservation, see
    [resize_drifts_ledger]).  The multi-step calls [Reserve] and [PurgeAllocation] keep
    the books from any such state, also when they fail half way, and [Resize] makes only
    the steps said. *)
Theorem capacity_ledger_exact d g d' g' :
  books g d -> bounded d -> rtc bstep (d, g) (d', g') ->
  bounded d' /\
  (forall ok id u n, exists g2, rtc bstep (d', g') ((Resize ok id u n d').2, g2)) /\
  (rtc steady (d, g) (d', g') ->
     books g' d' /\
     (forall now reg o t n, books g' (Reserve now reg o t n d').2) /\
     (forall now un er id, books g' (PurgeAllocation now un er id d').2)).
Proof.
  intros L B S. split; [by apply (bsteps_bounded _ _ S) |]. split; [intros; apply Resize_bsteps |].
  intros T. pose proof (steady_steps _ _ T L) as L'. split; [done |].
  split; intros; eapply steps_ledger; eauto using Reserve_steps, Purge_steps.
Qed.

(** A step of any call, the resize of one allocation included. *)
Definition anystep (d d' : cdb) : Prop :=
  cstep d d' \/ exists ok id u n, d' = (Resize ok id u n d).2.

Lemma steps_grow d d' : rtc anystep d d' -> grows d d'.
Proof.
  induction 1 as [|d1 d2 d3 S _ IH]; [done |]. transitivity d2; [| done].
  destruct S as [S|(ok & i & u & n & ->)]; [by apply cstep_grows | apply Resize_grows].
Qed.

(** A revocation is final: under any sequence of calls a revoked allocation
    stays revoked with the time of its revocation, keeps its owner, is never bound to another agent and never has its lease
    extended, and a purge mark once set is never changed. *)
Theorem revoked_forever d d' id a t :
  rtc anystep d d' -> allocations d !! id = Some a -> da_RevokedAt a = Some t ->
  exists a', allocations d' !! id = Some a' /\ da_RevokedAt a' = Some t /\
    da_UserID a' = da_UserID a /\
    ((da_BoundAgentID a', da_LeaseExpiresAt a') = (da_BoundAgentID a, da_LeaseExpiresAt a) \/
     (da_BoundAgentID a', da_LeaseExpiresAt a') = (None, None)) /\
    (forall tp, da_PurgedAt a = Some tp -> da_PurgedAt a' = Some tp).
Proof.
  intros S Ha Ht. pose proof (steps_grow d d' S) as G.
  destruct (proj1 G id a Ha) as (a' & Ha' & [O R P _ N]). exists a'. injection O as O1 _ _ _.
  split; [done |]. split; [by apply R |]. split; [done |]. split; [apply N; by exists t | done].
Qed.

(** ** Releasing capacity *)

Lemma list_owner_complete u d s r p :
  reservations d !! (u, s) = Some r -> server_pool d !! s = Some p ->
  (s, rs_size r, p) ∈ ListOwnerCapacityReservations u d.
Proof.
  intros Hr Hp. apply list_elem_of_omap. exists (u, s, r). split; [| simpl; by rewrite Hp].
  rewrite merge_sort_Permutation. by apply elem_of_map_to_list, map_lookup_filter_Some.
Qed.

(** What [CountPlacedAllocationsForUserOnServer] reads. *)
Definition same_placement (d d' : cdb) : Prop :=
  allocations d' = allocations d /\ users d' = users d /\ server_vms d' = server_vms d.

Lemma placed_same d d' u addr :
  same_placement d d' ->
  CountPlacedAllocationsForUserOnServer u addr d' = CountPlacedAllocationsForUserOnServer u addr d.
Proof.
  intros (Ha & Hu & Hv). unfold CountPlacedAllocationsForUserOnServer, placed_tenants.
  by rewrite Ha, Hu, Hv.
Qed.

(** The release of one row that nothing is placed on. *)
Lemma release_row u s m p rs acc d r q :
  pending u ((s, m, p) :: rs) d -> ledger d ->
  reservations d !! (u, s) = Some r -> server_pool d !! s = Some q ->
  CountPlacedAllocationsForUserOnServer u (ps_DataAddr p) d = 0 ->
  exists d1, releaseLoop u ((s, m, p) :: rs) acc d = releaseLoop u rs (acc + m) d1 /\
    same_placement d d1 /\ reservations d1 = delete (u, s) (reservations d) /\
    (exists f, server_pool d1 = <[s := with_free f q]> (server_pool d)) /\ pending u rs d1 /\ ledger d1.
Proof.
  intros P L Hr Hq H0. destruct (proj2 P s m p) as (r' & Hr' & Hm); [by left |].
  rewrite Hr in Hr'. injection Hr' as <-.
  pose proof (reserved_ge u s _ r (ledger_rows _ d L) Hr) as Hge.
  destruct (ledger_pool _ d L s q Hq) as [Hf Ht].
  set (d1 := set_server_pool (<[s := with_free (Z.min (ps_free q + m) (ps_total q)) q]> (server_pool d))
               (set_reservations (delete (u, s) (reservations d)) d)).
  exists d1. split; [| split; [done |]; split; [done |]; split; [by eexists |]; split].
  - simpl releaseLoop. unfold mbind, txn_bind, look, stmt, DeleteOwnerCapacityReservation.
    rewrite H0. simpl. rewrite Hr. simpl. unfold ReleaseCapacity, update_pool. simpl. rewrite Hq. simpl.
    pose proof (ledger_rows _ d L _ _ Hr). simpl in *.
    replace ((0 <=? Z.min (ps_free q + m) (ps_total q)) && (Z.min (ps_free q + m) (ps_total q) <=? ps_total q))
      with true by lia. done.
  - eapply pending_tail; [done |]. intros s' Hs. simpl. rewrite lookup_delete_ne by congruence. done.
  - pose proof (ledger_rows _ d L _ _ Hr) as Hpos. simpl in Hpos.
    eapply (ledger_move ∅ d d1 s q); [done | done | done | lia | apply map_Forall_delete, L |].
    intros t. simpl. pose proof (reserved_delete t u s r _ Hr). case_decide; [subst t; lia | lia].
Qed.

Lemma releaseLoop_spec u rs acc d :
  pending u rs d -> ledger d -> (forall s n p, (s, n, p) ∈ rs -> is_Some (server_pool d !! s)) ->
  exists k d', releaseLoop u rs acc d = Ok (k, d') /\ same_placement d d' /\
    (forall o s, o <> u \/ s ∉ rs.*1.*1 -> reservations d' !! (o, s) = reservations d !! (o, s)) /\
    (forall s n p, (s, n, p) ∈ rs -> reservations d' !! (u, s) =
       if CountPlacedAllocationsForUserOnServer u (ps_DataAddr p) d =? 0 then None else reservations d !! (u, s)).
Proof.
  revert acc d. induction rs as [|[[s m] p] rs IH]; intros acc d P L Hpool.
  { exists acc, d. split; [done |]. split; [done |]. split; [done |]. by intros ? ? ? ?%not_elem_of_nil. }
  destruct (Hpool s m p) as [q Hq]; [by left |]. destruct (proj2 P s m p) as (r & Hr & Hm); [by left |].
  pose proof (proj1 P) as Hnd. simpl in Hnd. apply NoDup_cons in Hnd as [Hni _].
  destruct (Z.eqb_spec (CountPlacedAllocationsForUserOnServer u (ps_DataAddr p) d) 0) as [E|E].
  - destruct (release_row u s m p rs acc d r q P L Hr Hq E) as (d1 & -> & Sp & Ed & [f Ef] & P1 & L1).
    destruct (IH (acc + m) d1 P1 L1) as (k & d' & -> & Sp' & Ho & Hi).
    { intros s' n' p' Hin. rewrite Ef. apply lookup_insert_is_Some'. right. eapply Hpool. by right. }
    exists k, d'. split; [done |]. split; [unfold same_placement in *; intuition congruence |]. split.
    + intros o s' Hos. rewrite Ho, Ed; [apply lookup_delete_ne | simpl in Hos; set_solver].
      intros [= <- <-]. destruct Hos as [?|Hos]; [done |]. apply Hos. by left.
    + intros s' n' p' [[= -> -> ->]|Hin]%elem_of_cons.
      * rewrite E. simpl. rewrite Ho, Ed by (by right). apply lookup_delete_eq.
      * rewrite (Hi s' n' p' Hin), (placed_same d d1), Ed, lookup_delete_ne; [done | | done].
        intros [= <-]. apply Hni, list_elem_of_fmap. exists (s, n'). split; [done |].
        apply list_elem_of_fmap. by exists (s, n', p').
  - destruct (IH acc d) as (k & d' & Hk & Sp & Ho & Hi).
    { by eapply pending_tail. } { done. } { intros ? ? ? ?. eapply Hpool. by right. }
    exists k, d'. split; [simpl; unfold mbind, txn_bind, look | split; [done |]; split].
    + by rewrite (proj2 (Z.eqb_neq _ _) E).
    + intros o s' Hos. apply Ho. simpl in Hos. set_solver.
    + intros s' n' p' [[= -> -> ->]|Hin]%elem_of_cons; [| by eapply Hi].
      rewrite Ho by (by right). by rewrite (proj2 (Z.eqb_neq _ _) E).
Qed.

(** Releasing an owner's capacity works and is exact: when the owner has no
    active allocation the call succeeds, every reservation on a server where none
    of the owner's unpurged disks is placed any more is gone, every other
    reservation, also of other owners, is as it was, and the tenant's placement
    row is deleted. *)
Theorem release_exact o t d us :
  ledger d -> users d !! o = Some us -> CountActiveAllocationsForUser o d = 0 ->
  exists k d', releaseUnusedOwnerCapacity o t d = (Ok k, d') /\
    server_vms d' = (if decide (t = []) then server_vms d else delete t (server_vms d)) /\
    allocations d' = allocations d /\
    (forall o' s, o' <> o -> reservations d' !! (o', s) = reservations d !! (o', s)) /\
    (forall s p, server_pool d !! s = Some p -> reservations d' !! (o, s) =
       if CountPlacedAllocationsForUserOnServer o (ps_DataAddr p) d' =? 0 then None
       else reservations d !! (o, s)).
Proof.
  intros L Hu H0.
  set (d0 := if decide (t = []) then d else set_server_vms (delete t (server_vms d)) d).
  assert (ledger d0 /\ reservations d0 = reservations d /\ server_pool d0 = server_pool d
          /\ allocations d0 = allocations d) as (L0 & Er & Ep & Ea).
  { subst d0. case_decide; [done |]. split; [by apply (ledger_off _ d) | done]. }
  destruct (releaseLoop_spec o (ListOwnerCapacityReservations o d0) 0 d0) as (k & d' & Hk & (Sa & Su & Sv) & Ho & Hi);
    [apply pending_list | done | by intros s n p [? _]%list_owner_spec |].
  exists k, d'. split; [| split; [| split; [congruence | split]]].
  - assert (stmt ErrStorage (GetUser o) d = Ok (us, d)) as E1.
    { unfold stmt, GetUser, read. by rewrite Hu. }
    assert ((if decide (t = []) then mret tt else stmt ErrStorage (DeleteServerVM t) : txn unit) d
            = Ok (tt, d0)) as E2 by (subst d0; by case_decide).
    unfold releaseUnusedOwnerCapacity, atomically, releaseTx, mbind, txn_bind. rewrite E1, E2. unfold look.
    unfold CountActiveAllocationsForUser, active_of in *. rewrite Ea, H0. simpl. by rewrite Hk.
  - rewrite Sv. subst d0. by case_decide.
  - intros o' s Hne. rewrite Ho by (by left). by rewrite Er.
  - intros s p Hp. rewrite (placed_same d0 d') by done. rewrite <- Er.
    destruct (reservations d0 !! (o, s)) as [r|] eqn:Hr.
    + rewrite <- Hr. eapply Hi, list_owner_complete; [done | by rewrite Ep].
    + destruct (decide (s ∈ (ListOwnerCapacityReservations o d0).*1.*1)) as [Hin|Hni].
      * apply list_elem_of_fmap in Hin as ([s' n] & -> & Hin).
        apply list_elem_of_fmap in Hin as ([[s2 n2] p2] & [= -> ->] & Hin).
        apply list_owner_spec in Hin as (_ & r & Hr' & _). simpl in Hr. congruence.
      * rewrite Ho, Hr by (by right). by case_match.
Qed.

(** ** Quota *)

Lemma sum_insert_new u d id a :
  allocations d !! id = None ->
  SumActiveAllocationBytes u (set_allocations (<[id := a]> (allocations d)) d) =
  SumActiveAllocationBytes u d + if of_user u a && live a then da_SizeBytes a else 0.
Proof.
  intros Hn. unfold SumActiveAllocationBytes, active_of. simpl. destruct (of_user u a && live a) eqn:E.
  - rewrite map_filter_insert_True by done. rewrite map_sum_insert; [lia |].
    apply map_lookup_filter_None. by left.
  - rewrite map_filter_insert_not'; [lia | simpl; congruence | intros y Hy; congruence].
Qed.

(** The quota decides exactly: for a known user, a positive size and a sum
    that fits in 64 bits the call creates the allocation and charges it to that
    user alone if the total stays within the quota, and otherwise answers that the
    quota is exceeded and changes nothing. *)
Theorem allocate_within_quota now fresh u us n d :
  users d !! u = Some us -> 0 < n -> allocations d !! fresh = None ->
  0 <= SumActiveAllocationBytes u d -> SumActiveAllocationBytes u d + n < 2 ^ 63 ->
  if SumActiveAllocationBytes u d + n <=? us_QuotaBytes us then
    exists a d', Allocate now fresh u n d = (Ok (fresh, a), d') /\
      allocations d' = <[fresh := a]> (allocations d) /\ da_SizeBytes a = n /\ live a = true /\
      SumActiveAllocationBytes u d' = SumActiveAllocationBytes u d + n /\
      forall u', u' <> u -> SumActiveAllocationBytes u' d' = SumActiveAllocationBytes u' d
  else Allocate now fresh u n d = (Err ErrQuotaExceeded, d).
Proof.
  intros Hu Hn Hf Hs Hlt. unfold Allocate. replace (n <=? 0) with false by lia.
  unfold atomically, mbind, txn_bind, stmt, look, GetUser, read. rewrite Hu.
  rewrite i64_small by lia. rewrite Z.gtb_ltb.
  destruct (Z.leb_spec (SumActiveAllocationBytes u d + n) (us_QuotaBytes us)).
  - replace (us_QuotaBytes us <? _) with false by lia.
    unfold InsertAllocation. rewrite Hf, bool_decide_false by (by intros [? ?]).
    rewrite Hu, (bool_decide_true (is_Some (Some us))) by done. unfold alloc_row_ok. simpl.
    replace (0 <? n) with true by lia. simpl. eexists _, _. split; [done |]. split; [done |].
    split; [done |]. split; [done |]. split.
    + rewrite sum_insert_new by done. unfold of_user. simpl. by rewrite bool_decide_true.
    + intros u' Hne. rewrite sum_insert_new by done. unfold of_user. simpl.
      rewrite bool_decide_false by congruence. simpl. lia.
  - by replace (us_QuotaBytes us <? _) with true by lia.
Qed.

(** ** Mount leases *)

(** A row just leased. *)
Lemma Acquire_Ok now ttl id g force t d a d1 :
  AcquireMountLeaseWithToken now ttl id g force t d = (Ok a, d1) ->
  allocations d1 !! id = Some a /\ enrollments d1 = enrollments d /\ alloc_row_ok a d = true /\ live a = true /\
  da_BoundAgentID a = Some g /\ da_LeaseExpiresAt a = Some (now + ttl) /\ da_token a = Some t.
Proof.
  unfold AcquireMountLeaseWithToken, try. destruct (AcquireMountLease _ _ _ _ _ _ d) as [[x d']|e] eqn:E.
  - intros [= -> ->]. apply update_alloc_Ok in E as (a0 & Ha & Hc & Hr & -> & ->). simpl.
    rewrite lookup_insert_eq. apply andb_true_iff in Hc as [Hl _]. done.
  - destruct e; simpl; try done. unfold classifyLeaseMiss, try.
    destruct (GetAllocation id d) as [[cur d']|e']; [| done]. by repeat case_match.
Qed.

Lemma update_alloc_miss id c f d a :
  allocations d !! id = Some a -> c a = false -> update_alloc id c f d = Err SNotFound.
Proof. intros Ha Hc. unfold update_alloc. by rewrite Ha, Hc. Qed.

(** What everyone but the holder may do to a lease on [id] that was taken by [g] with the
    token [t] and runs until [until]: any call on another disk, and on this one every call
    but a forced acquisition, the owner's [ForceRelease] and [Revoke]; not the holder's own
    calls, which name [g] or present [t]. *)
Section others.
Context (id g : uuid) (t : gostr) (until : Z).

Inductive ostep (d : cdb) : cdb -> Prop :=
| os_Allocate now fresh u n : ostep d (Allocate now fresh u n d).2
| os_Bind now i u h : ostep d (Bind now i u h d).2
| os_Revoke now i u : i <> id -> ostep d (Revoke now i u d).2
| os_Acquire now ttl i h force t' :
    i <> id \/ h <> g /\ force = false /\ now < until ->
    ostep d (AcquireMountLeaseWithToken now ttl i h force t' d).2
| os_Refresh now ttl i h t' nt :
    i <> id \/ t' <> t -> ostep d (RefreshMountLeaseWithToken now ttl i h t' nt d).2
| os_Release i h t' : i <> id \/ t' <> t -> ostep d (ReleaseMountLeaseWithToken i h t' d).2
| os_ForceRelease i u : i <> id -> ostep d (ForceRelease i u d).2
| os_reserve now o n : ostep d (atomically (reserveTx now o n) d).2
| os_record te addr : ostep d (recordPlacement te addr d).2
| os_ResizeOwner o n : ostep d (ResizeOwnerCapacity o n d).2
| os_Resize ok i u n : ostep d (Resize ok i u n d).2
| os_release o te : ostep d (releaseUnusedOwnerCapacity o te d).2
| os_mark now i : ostep d (markPurged now i d).2.

(** The row of the lease. *)
Definition leased_row (ba : option Z) (a : allocation) : Prop :=
  live a = true /\
  (da_BoundAgentID a, da_BoundAt a, da_LeaseExpiresAt a, da_token a) = (Some g, ba, Some until, Some t).
Definition held (ba : option Z) (d : cdb) : Prop :=
  exists a, allocations d !! id = Some a /\ leased_row ba a /\ alloc_row_ok a d = true.

Context (ba : option Z).

Lemma held_same d d' :
  allocations d' = allocations d -> enrollments d' = enrollments d -> held ba d -> held ba d'.
Proof.
  intros E1 E2 (a & Ha & Hr & Hok). exists a. rewrite E1. split; [done |]. split; [done |].
  unfold alloc_row_ok in *. by rewrite E2.
Qed.

Lemma held_update i c f d x d' :
  (i = id -> forall a, leased_row ba a -> c a = true -> leased_row ba (f a)) ->
  update_alloc i c f d = Ok (x, d') -> held ba d -> held ba d'.
Proof.
  intros Hf (b & Hb & Hc & Hok & _ & ->)%update_alloc_Ok (a & Ha & Hr & Hra). destruct (decide (i = id)) as [->|Hne].
  - rewrite Ha in Hb. injection Hb as <-. exists (f a). simpl. rewrite lookup_insert_eq. auto.
  - exists a. simpl. by rewrite lookup_insert_ne.
Qed.

Lemma holds_not h t' a : leased_row ba a -> t' <> t -> holds h t' a = false.
Proof.
  intros [_ E] Hne. injection E as _ _ _ Ht. unfold holds. rewrite Ht. case_decide; [done |].
  apply bool_decide_eq_false. congruence.
Qed.

Lemma held_explain {B} i onErr (k : allocation -> svc B) d :
  (forall e, (onErr e d).2 = d) -> (forall a, (k a d).2 = d) -> held ba d -> held ba (try (GetAllocation i) onErr k d).2.
Proof. intros H1 H2. unfold GetAllocation. by rewrite explain_snd. Qed.

Lemma held_classify now i h acq d : held ba d -> held ba (classifyLeaseMiss now i h acq d).2.
Proof. apply held_explain; [by intros [] |]. intros a. by repeat case_match. Qed.

Lemma held_revokeCert h te d : held ba d -> held ba (revokeReleasedAgentCert h te d).2.
Proof.
  apply held_same; unfold revokeReleasedAgentCert; (case_match; [done |]); (case_match; [| done]); simpl; by case_match.
Qed.

Lemma held_rowless {A} (m : txn A) d : rowless m -> held ba d -> held ba (atomically m d).2.
Proof.
  intros R H. apply (atomically_snd (held ba)); [done |]. intros x d' [= E1 _ _ E4]%R. by apply (held_same d).
Qed.

Lemma held_pool s c f d u d' : update_pool s c f d = Ok (u, d') -> held ba d -> held ba d'.
Proof. intros (p & _ & _ & _ & ->)%update_pool_Ok. by apply held_same. Qed.

Lemma held_size i u n d x d' : UpdateAllocationSize i u n d = Ok (x, d') -> held ba d -> held ba d'.
Proof. apply held_update. intros _ a Hr _. exact Hr. Qed.

Lemma held_Resize ok i u n d : held ba d -> held ba (Resize ok i u n d).2.
Proof.
  intros H. unfold Resize. case_match; [done |]. apply (try_snd (held ba)); [| done].
  intros a ? [_ ->]%GetAllocation_Ok. do 3 (case_match; [done |]).
  apply (try_snd (held ba)); [| done]. intros us ? [_ ->]%GetUser_Ok.
  assert (forall s m d', held ba d' -> held ba (compensatePoolDelta s m d')) as Hcomp.
  { intros s m d' H'. unfold compensatePoolDelta. destruct (if 0 <? m then _ else _) as [[[] d2]|] eqn:E; [| done].
    destruct (0 <? m); by eapply held_pool. }
  apply (try_snd (held ba)).
  - intros addr ? [_ ->]%GetServerVM_Ok. apply (try_snd (held ba)); [| done].
    intros sp ? ->%GetServerPool_Ok. apply (try_snd (held ba)); [| done].
    intros ? d' Hp. assert (held ba d') as H' by (case_match; by eapply held_pool).
    destruct ok; [| by apply Hcomp]. apply (try_snd (held ba)); [| intros; by apply Hcomp].
    intros y d2 Hx. by eapply held_size.
  - intros [] _; [| done | done]. apply (try_snd (held ba)); [| done]. intros x d2 Hx. by eapply held_size.
Qed.

Lemma held_Allocate now fresh u n d : held ba d -> held ba (Allocate now fresh u n d).2.
Proof.
  intros L. unfold Allocate. destruct (n <=? 0); [done |]. apply (atomically_snd (held ba)); [done |]. intros x d' H0.
  txn_step H0 us d1 H1. apply GetUser_Ok in H1 as [_ ->]. txn_step H0 used d2 H2. injection H2 as _ <-.
  destruct (_ >? _); [done |]. apply stmt_Ok in H0. unfold InsertAllocation in H0. case_bool_decide as Hn; [done |].
  destruct (alloc_row_ok _ d); [| done]. destruct (bool_decide _); [| done]. injection H0 as _ <-.
  destruct L as (a & Ha & L). exists a. simpl. rewrite lookup_insert_ne; [done |]. intros ->. by destruct Hn.
Qed.

Local Ltac explain_held := apply held_explain; [by intros [] | intros; by repeat case_match | done].

Lemma ostep_held d d' : ostep d d' -> held ba d -> held ba d'.
Proof.
  intros S H. assert (forall a, leased_row ba a -> bool_decide (da_BoundAgentID a = None) = false) as Hbound
    by (intros a [_ [= Hb _ _ _]]; by rewrite Hb).
  destruct S as [now fr u n|now i u h|now i u Hi|now ttl i h force t' Hi|now ttl i h t' nt Hi|i h t' Hi|i u Hi
    |now o n|te addr|o n|ok i u n|o te|now i].
  - by apply held_Allocate.
  - apply (try_snd (held ba)); [| intros [] _; [explain_held | done | done]].
    intros x d' Hx. eapply held_update; [| exact Hx | done]. intros _ a Hr. cbv beta. by rewrite Hbound, andb_false_r.
  - apply (try_snd (held ba)); [| intros [] _; [explain_held | done | done]].
    intros x d' Hx. by eapply held_update.
  - apply (try_snd (held ba)); [| intros [] _; [by apply held_classify | done | done]].
    intros x d' Hx. eapply held_update; [| exact Hx | done]. intros -> a Hr. destruct Hi as [?|(Hg & -> & Hlt)]; [done |].
    cbv beta. rewrite Hbound by done. destruct Hr as [_ [= Hb _ He _]]. unfold bound_to, lease_live. rewrite Hb, He.
    rewrite bool_decide_false by congruence. replace (now <? until) with true by lia. by rewrite andb_false_r.
  - apply (try_snd (held ba)); [| intros [] _; [by apply held_classify | done | done]].
    intros x d' Hx. eapply held_update; [| exact Hx | done]. intros -> a Hr. destruct Hi as [?|Hne]; [done |].
    cbv beta. by rewrite holds_not, andb_false_r.
  - apply (try_snd (held ba)); [| intros [] _; [explain_held | done | done]].
    intros x d' Hx. apply held_revokeCert. eapply held_update; [| exact Hx | done]. intros -> a Hr.
    destruct Hi as [?|Hne]; [done |]. cbv beta. by rewrite Hbound, holds_not.
  - apply (try_snd (held ba)); [| intros [] _; [explain_held | done | done]].
    intros x d' Hx. assert (held ba d') by (by eapply held_update).
    repeat case_match; try done; by apply held_revokeCert.
  - by apply held_rowless, H; apply reserveTx_rowless.
  - apply (try_snd (held ba)).
    + intros x d' Hx. unfold CreateServerVM in Hx. case_match; [done |]. injection Hx as _ <-. by apply (held_same d).
    + intros [] _; [done | | done]. apply (try_snd (held ba)); [| done]. by intros ? ? [_ ->]%GetServerVM_Ok.
  - unfold ResizeOwnerCapacity. case_match; [done |]. apply held_rowless; [| done]. rowless. apply resizeLoop_rowless.
  - by apply held_Resize.
  - apply held_rowless; [apply releaseTx_rowless | done].
  - apply (try_snd (held ba)); [| by intros [] _]. intros x d' Hx. eapply held_update; [| exact Hx | done].
    intros _ a [Hl _]. cbv beta. by rewrite Hl.
Qed.

Lemma osteps_held d d' : rtc ostep d d' -> held ba d -> held ba d'.
Proof. induction 1; eauto using ostep_held. Qed.
End others.

(** C9: A mount lease has one holder.  After an agent has acquired a lease with a non-empty
    token, and until that lease expires, whatever calls the others make in between (any
    sequence of [ostep]: only a forced acquisition of the same disk, the owner's
    [ForceRelease] and a revocation of the disk end the lease of another): an agent that
    asks for the disk without force is told since when it is mounted and until when; whoever
    presents another token, the former holder of a lease that was taken over included, can
    neither refresh nor release; none of these change anything; and any enrolled agent that
    presents the token, the same machine with a rotated certificate, can refresh it and
    becomes the holder. *)
Theorem mount_lease_exclusive now ttl now' ttl' id g force t d a d1 d2 :
  AcquireMountLeaseWithToken now ttl id g force t d = (Ok a, d1) -> t <> [] ->
  rtc (ostep id g t (now + ttl)) d1 d2 -> now' < now + ttl ->
  (forall g' t', g' <> g ->
     AcquireMountLeaseWithToken now' ttl' id g' false t' d2 =
       (Err (LeaseLiveError (da_BoundAt a) (now + ttl)), d2)) /\
  (forall g' t' nt, t' <> t ->
     RefreshMountLeaseWithToken now' ttl' id g' t' nt d2 = (Err ErrWrongAgent, d2) /\
     exists e, ReleaseMountLeaseWithToken id g' t' d2 = (Err e, d2)) /\
  (forall g' nt, is_Some (enrollments d2 !! g') ->
     exists a' d3, RefreshMountLeaseWithToken now' ttl' id g' t nt d2 = (Ok a', d3) /\
       allocations d3 !! id = Some a' /\ da_BoundAgentID a' = Some g' /\
       da_LeaseExpiresAt a' = Some (now' + ttl') /\ da_token a' = Some (if decide (nt = []) then t else nt)).
Proof.
  intros (Ha1 & He & Hok1 & Hl1 & Hb1 & Hx1 & Ht1)%Acquire_Ok Ht0 S Hnow.
  apply (osteps_held _ _ _ _ (da_BoundAt a)) in S as (b & Ha & [Hl E] & Hok).
  2: { exists a. split; [done |]. split; [split; [done | congruence] |]. unfold alloc_row_ok in *. by rewrite He. }
  pose proof (holds_not g t (now + ttl) (da_BoundAt a)) as Hh. injection E as Hb Hba Hx Ht.
  assert (lease_live now' b = true) as Hll by (unfold lease_live; rewrite Hx; lia).
  assert (forall g' t', t' <> t -> holds g' t' b = false) as Hnh
    by (intros g' t' ?; apply Hh; [split; [done | congruence] | done]).
  split; [| split].
  - intros g' t' Hne. unfold AcquireMountLeaseWithToken, try, AcquireMountLease.
    assert (bound_to g' b = false) as Hbt by (apply bool_decide_eq_false; congruence).
    erewrite update_alloc_miss; [| done |].
    2: { simpl. rewrite Hl, Hll, Hbt, Hb. done. }
    unfold classifyLeaseMiss, try, GetAllocation, read. rewrite Ha, Hl, Hll, Hbt, Hx, Hba. done.
  - intros g' t' nt Hne. split.
    + unfold RefreshMountLeaseWithToken, try, RefreshMountLease. erewrite update_alloc_miss; [| done |].
      2: { simpl. rewrite Hnh by done. by rewrite andb_false_r. }
      unfold classifyLeaseMiss, try, GetAllocation, read. rewrite Ha, Hl, Hll. simpl.
      by destruct (bound_to g' b).
    + unfold ReleaseMountLeaseWithToken, try, ReleaseMountLease. erewrite update_alloc_miss; [| done |].
      2: { simpl. rewrite Hnh by done. by rewrite Hb. }
      unfold GetAllocation, read. rewrite Ha, Hb. case_match; eauto.
  - intros g' nt Hg. unfold RefreshMountLeaseWithToken, try, RefreshMountLease, update_alloc.
    rewrite Ha, Hl, Hll. simpl. unfold holds. rewrite decide_False, Ht, bool_decide_true by done.
    unfold alloc_row_ok in *. simpl. rewrite Hb in Hok.
    destruct (da_BoundAt b); [| by rewrite andb_false_r in Hok]. rewrite andb_true_r in Hok.
    apply andb_true_iff in Hok as [-> _]. rewrite (bool_decide_true (is_Some _)) by done.
    simpl. eexists _, _. split; [done |]. simpl. rewrite lookup_insert_eq.
    split; [done |]. split; [done |]. split; [done |]. by case_decide.
Qed.

(** ** Witnesses *)

Module AllocExample.
Definition pool : poolServer := mkPool (str "h:1") (str "h:2") 100 100 StatusAvailable.
(** One user with a quota of 50 on an empty server, one enrolled agent, one
    revoked disk. *)
Definition revoked : allocation := mkDA (Some 1) (str "ten") (str "ag") 5 0 (Some 3) None None None None None.
Definition leasable : allocation := mkDA (Some 1) (str "ten") (str "ag") 5 0 None None None None None None.
Definition db : cdb :=
  mkCdb {[ 20 := revoked; 21 := leasable ]} {[ 1 := mkUser (str "ten") 50 ]}
    {[ 5 := mkEnroll 1 (str "c5") 1000; 6 := mkEnroll 1 (str "c6") 1000 ]} ∅ ∅ {[ 9 := pool ]} ∅.
Definition reserved : cdb := (Reserve 0 true 1 (str "ten") 40 db).2.
Definition lease : allocation := with_binding (Some 5) (Some 10) (Some 70) (Some (str "t5")) leasable.
Definition leased : cdb := (AcquireMountLeaseWithToken 10 60 21 5 false (str "t5") db).2.

Lemma db_ledger : ledger db.
Proof.
  split; [apply map_Forall_empty |]. intros s p Hp. change (({[ 9 := pool ]} : gmap uuid poolServer) !! s = Some p) in Hp. apply lookup_singleton_Some in Hp as [<- <-].
  by vm_compute.
Qed.

Lemma db_bounded : bounded db.
Proof.
  intros s p Hp. change (({[ 9 := pool ]} : gmap uuid poolServer) !! s = Some p) in Hp.
  apply lookup_singleton_Some in Hp as [<- <-]. by vm_compute.
Qed.
End AllocExample.

(** An owner reserves 40 bytes, then grows a disk by 10. *)
Lemma capacity_ledger_exact_witness :
  exists d, ps_free <$> (server_pool d !! 9) = Some 50 /\ books {[ 9 := 10 ]} d.
Proof.
  set (d1 := (atomically (reserveTx 0 1 40) AllocExample.db).2).
  set (d2 := match ReserveCapacityForGrowth 9 10 d1 with Ok (_, x) => x | Err _ => d1 end).
  assert (rtc steady (AllocExample.db, ∅) (d2, <[9 := net ∅ 9 + 10]> ∅)) as T.
  { eapply rtc_l; [split; [apply bs_step, (cs_reserve _ 0 1 40) | intros s; unfold net; simpl; by rewrite lookup_empty] |].
    apply rtc_once. split; [apply bs_grow; [lia | vm_compute; reflexivity] |].
    intros s. cbn [snd]. rewrite net_insert. unfold net. rewrite !lookup_empty. case_decide; simpl; lia. }
  assert (rtc bstep (AllocExample.db, ∅) (d2, <[9 := net ∅ 9 + 10]> ∅)) as S
    by (eapply rtc_subrel; [| exact T]; by intros x y [? _]).
  destruct (capacity_ledger_exact AllocExample.db ∅ d2 _ AllocExample.db_ledger AllocExample.db_bounded S)
    as (_ & _ & H). exists d2. split; [vm_compute; reflexivity | exact (proj1 (H T))].
Defined.

Lemma revoked_forever_witness :
  exists a', allocations (Bind 8 20 1 5 AllocExample.db).2 !! 20 = Some a' /\ da_RevokedAt a' = Some 3.
Proof.
  destruct (revoked_forever AllocExample.db (Bind 8 20 1 5 AllocExample.db).2 20 AllocExample.revoked 3)
    as (a' & Ha & Hr & _); [apply rtc_once; left; apply cs_Bind | by vm_compute | done |].
  by exists a'.
Defined.

Lemma release_exact_witness :
  let d := set_allocations {[ 20 := AllocExample.revoked ]} AllocExample.db in
  exists k d', releaseUnusedOwnerCapacity 1 (str "ten") d = (Ok k, d').
Proof.
  destruct (release_exact 1 (str "ten") (set_allocations {[ 20 := AllocExample.revoked ]} AllocExample.db) (mkUser (str "ten") 50))
    as (k & d' & H & _); [by apply (ledger_off _ AllocExample.db), AllocExample.db_ledger | by vm_compute | by vm_compute |].
  by exists k, d'.
Defined.

Lemma allocate_within_quota_witness :
  (exists a d', Allocate 4 30 1 45 AllocExample.db = (Ok (30, a), d')) /\
  Allocate 4 30 1 46 AllocExample.db = (Err ErrQuotaExceeded, AllocExample.db).
Proof.
  split.
  - destruct (allocate_within_quota 4 30 1 (mkUser (str "ten") 50) 45 AllocExample.db) as (a & d' & H & _);
      [by vm_compute .. |]. by exists a, d'.
  - exact (allocate_within_quota 4 30 1 (mkUser (str "ten") 50) 46 AllocExample.db eq_refl eq_refl eq_refl
             ltac:(by vm_compute) eq_refl).
Defined.

(** The lease taken by agent 5 is refused to agent 6, also after agent 6 has tried with a
    token of its own. *)
Lemma mount_lease_exclusive_witness :
  let d := (RefreshMountLeaseWithToken 15 60 21 6 (str "t6") [] AllocExample.leased).2 in
  AcquireMountLeaseWithToken 20 60 21 6 false (str "t6") d = (Err (LeaseLiveError (Some 10) 70), d).
Proof.
  refine (proj1 (mount_lease_exclusive 10 60 20 60 21 5 false (str "t5") AllocExample.db
                   AllocExample.lease AllocExample.leased _ _ _ _ _) 6 (str "t6") _);
    [by vm_compute | done | apply rtc_once, os_Refresh; by right | done | done].
Defined.

(** ** Where the code falls short *)

(** A lease taken without a token is stored with the empty token, which the
    token-less refresh and release (that look for none) do not accept: the holder
    of a live lease can neither extend nor end it. *)
Example legacy_lease_cannot_refresh :
  exists a d1, AcquireMountLeaseWithToken 10 60 21 5 false [] AllocExample.db = (Ok a, d1) /\
    RefreshMountLeaseWithToken 20 60 21 5 [] [] d1 = (Err ErrWrongAgent, d1) /\
    ReleaseMountLeaseWithToken 21 5 [] d1 = (Err (ErrText "release: zero rows but no guard matched"), d1).
Proof. eexists _, _. by vm_compute. Qed.

(** Growing one allocation takes from the server's free bytes and not from the
    owner's reservation: the books no longer add up, and the release that follows
    the purge gives back less than was taken. *)
Example resize_drifts_ledger :
  ledger AllocExample.reserved /\
  (Resize true 21 1 15 AllocExample.reserved).1 = Ok (with_size 15 AllocExample.leasable) /\
  ps_free <$> (server_pool (Resize true 21 1 15 AllocExample.reserved).2 !! 9) = Some 50 /\
  reservations (Resize true 21 1 15 AllocExample.reserved).2 = {[ (1, 9) := mkResv 40 0 ]}.
Proof.
  split; [| by vm_compute].
  apply (steps_ledger _ AllocExample.db); [apply Reserve_steps | apply AllocExample.db_ledger].
Qed.

(** The quota is computed in wrapping 64-bit arithmetic: a large enough request
    passes. *)
Example quota_overflow :
  exists a d', Allocate 4 30 1 (2 ^ 63 - 1) AllocExample.db = (Ok (30, a), d') /\
    us_QuotaBytes (mkUser (str "ten") 50) < SumActiveAllocationBytes 1 d'.
Proof. eexists _, _. by vm_compute. Qed.
