(* ===== verification/Cdc.v ===== *)
(** * Content-defined chunking

    cdc.go: the FastCDC cut-point search [v2020Cut] with its gear tables and the
    loop [chunkBytes] that cuts a file into hashed chunks.  The theorems: the
    chunks are a partition of the data within the size limits, and where a
    chunk ends depends on nothing outside it but a bounded window. *)

From S2P Require Import Prelude Codec.

(** ** Sizes and tables *)

Definition ChunkAvg : Z := 4 * 1024 * 1024.
Definition ChunkMin : Z := 1 * 1024 * 1024.
Definition ChunkMax : Z := 16 * 1024 * 1024.

Record Chunk := mkChunk { ck_Hash : hash; ck_Offset : Z; ck_Len : Z; ck_Bytes : blob }.

Definition maskS : Z := 0x0000d93777537000.
Definition maskL : Z := 0x0000d91767537000.
Definition maskSLS : Z := Z.shiftl maskS 1.
Definition maskLLS : Z := Z.shiftl maskL 1.

Definition gear : list Z :=
  [
   0x3b5d3c7d207e37dc; 0x784d68ba91123086; 0xcd52880f882e7298; 0xeacf8e4e19fdcca7;
   0xc31f385dfbd1632b; 0x1d5f27001e25abe6; 0x83130bde3c9ad991; 0xc4b225676e9b7649;
   0xaa329b29e08eb499; 0xb67fcbd21e577d58; 0x0027baaada2acf6b; 0xe3ef2d5ac73c2226;
   0x0890f24d6ed312b7; 0xa809e036851d7c7e; 0xf0a6fe5e0013d81b; 0x1d026304452cec14;
   0x03864632648e248f; 0xcdaacf3dcd92b9b4; 0xf5e012e63c187856; 0x8862f9d3821c00b6;
   0xa82f7338750f6f8a; 0x1e583dc6c1cb0b6f; 0x7a3145b69743a7f1; 0xabb20fee404807eb;
   0xb14b3cfe07b83a5d; 0xb9dc27898adb9a0f; 0x3703f5e91baa62be; 0xcf0bb866815f7d98;
   0x3d9867c41ea9dcd3; 0x1be1fa65442bf22c; 0x14300da4c55631d9; 0xe698e9cbc6545c99;
   0x4763107ec64e92a5; 0xc65821fc65696a24; 0x76196c064822f0b7; 0x485be841f3525e01;
   0xf652bc9c85974ff5; 0xcad8352face9e3e9; 0x2a6ed1dceb35e98e; 0xc6f483badc11680f;
   0x3cfd8c17e9cf12f1; 0x89b83c5e2ea56471; 0xae665cfd24e392a9; 0xec33c4e504cb8915;
   0x3fb9b15fc9fe7451; 0xd7fd1fd1945f2195; 0x31ade0853443efd8; 0x255efc9863e1e2d2;
   0x10eab6008d5642cf; 0x46f04863257ac804; 0xa52dc42a789a27d3; 0xdaaadf9ce77af565;
   0x6b479cd53d87febb; 0x6309e2d3f93db72f; 0xc5738ffbaa1ff9d6; 0x6bd57f3f25af7968;
   0x67605486d90d0a4a; 0xe14d0b9663bfbdae; 0xb7bbd8d816eb0414; 0xdef8a4f16b35a116;
   0xe7932d85aaaffed6; 0x08161cbae90cfd48; 0x855507beb294f08b; 0x91234ea6ffd399b2;
   0xad70cf4b2435f302; 0xd289a97565bc2d27; 0x8e558437ffca99de; 0x96d2704b7115c040;
   0x0889bbcdfc660e41; 0x5e0d4e67dc92128d; 0x72a9f8917063ed97; 0x438b69d409e016e3;
   0xdf4fed8a5d8a4397; 0x00f41dcf41d403f7; 0x4814eb038e52603f; 0x9dafbacc58e2d651;
   0xfe2f458e4be170af; 0x4457ec414df6a940; 0x06e62f1451123314; 0xbd1014d173ba92cc;
   0xdef318e25ed57760; 0x9fea0de9dfca8525; 0x459de1e76c20624b; 0xaeec189617e2d666;
   0x126a2c06ab5a83cb; 0xb1321532360f6132; 0x65421503dbb40123; 0x2d67c287ea089ab3;
   0x6c93bff5a56bd6b6; 0x4ffb2036cab6d98d; 0xce7b785b1be7ad4f; 0xedb42ef6189fd163;
   0xdc905288703988f6; 0x365f9c1d2c691884; 0xc640583680d99bfe; 0x3cd4624c07593ec6;
   0x7f1ea8d85d7c5805; 0x014842d480b57149; 0x0b649bcb5a828688; 0xbcd5708ed79b18f0;
   0xe987c862fbd2f2f0; 0x982731671f0cd82c; 0xbaf13e8b16d8c063; 0x8ea3109cbd951bba;
   0xd141045bfb385cad; 0x2acbc1a0af1f7d30; 0xe6444d89df03bfdf; 0xa18cc771b8188ff9;
   0x9834429db01c39bb; 0x214add07fe086a1f; 0x8f07c19b1f6b3ff9; 0x56a297b1bf4ffe55;
   0x94d558e493c54fc7; 0x40bfc24c764552cb; 0x931a706f8a8520cb; 0x32229d322935bd52;
   0x2560d0f5dc4fefaf; 0x9dbcc48355969bb6; 0x0fd81c3985c0b56a; 0xe03817e1560f2bda;
   0xc1bb4f81d892b2d5; 0xb0c4864f4e28d2d7; 0x3ecc49f9d9d6c263; 0x51307e99b52ba65e;
   0x8af2b688da84a752; 0xf5d72523b91b20b6; 0x6d95ff1ff4634806; 0x562f21555458339a;
   0xc0ce47f889336346; 0x487823e5089b40d8; 0xe4727c7ebc6d9592; 0x5a8f7277e94970ba;
   0xfca2f406b1c8bb50; 0x5b1f8a95f1791070; 0xd304af9fc9028605; 0x5440ab7fc930e748;
   0x312d25fbca2ab5a1; 0x10f4a4b234a4d575; 0x90301d55047e7473; 0x3b6372886c61591e;
   0x293402b77c444e06; 0x451f34a4d3e97dd7; 0x3158d814d81bc57b; 0x034942425b9bda69;
   0xe2032ff9e532d9bb; 0x62ae066b8b2179e5; 0x9545e10c2f8d71d8; 0x7ff7483eb2d23fc0;
   0x00945fcebdc98d86; 0x8764bbbe99b26ca2; 0x1b1ec62284c0bfc3; 0x58e0fcc4f0aa362b;
   0x5f4abefa878d458d; 0xfd74ac2f9607c519; 0xa4e3fb37df8cbfa9; 0xbf697e43cac574e5;
   0x86f14a3f68f4cd53; 0x24a23d076f1ce522; 0xe725cd8048868cc8; 0xbf3c729eb2464362;
   0xd8f6cd57b3cc1ed8; 0x6329e52425541577; 0x62aa688ad5ae1ac0; 0x0a242566269bf845;
   0x168b1a4753aca74b; 0xf789afefff2e7e3c; 0x6c3362093b6fccdb; 0x4ce8f50bd28c09b2;
   0x006a2db95ae8aa93; 0x975b0d623c3d1a8c; 0x18605d3935338c5b; 0x5bb6f6136cad3c71;
   0x0f53a20701f8d8a6; 0xab8c5ad2e7e93c67; 0x40b5ac5127acaa29; 0x8c7bf63c2075895f;
   0x78bd9f7e014a805c; 0xb2c9e9f4f9c8c032; 0xefd6049827eb91f3; 0x2be459f482c16fbd;
   0xd92ce0c5745aaa8c; 0x0aaa8fb298d965b9; 0x2b37f92c6c803b15; 0x8c54a5e94e0f0e78;
   0x95f9b6e90c0a3032; 0xe7939faa436c7874; 0xd16bfe8f6a8a40c9; 0x44982b86263fd2fa;
   0xe285fb39f984e583; 0x779a8df72d7619d3; 0xf2d79a8de8d5dd1e; 0xd1037354d66684e2;
   0x004c82a4e668a8e5; 0x31d40a7668b044e6; 0xd70578538bd02c11; 0xdb45431078c5f482;
   0x977121bb7f6a51ad; 0x73d5ccbd34eff8dd; 0xe437a07d356e17cd; 0x47b2782043c95627;
   0x9fb251413e41d49a; 0xccd70b60652513d3; 0x1c95b31e8a1b49b2; 0xcae73dfd1bcb4c1b;
   0x34d98331b1f5b70f; 0x784e39f22338d92f; 0x18613d4a064df420; 0xf1d8dae25f0bcebe;
   0x33f77c15ae855efc; 0x3c88b3b912eb109c; 0x956a2ec96bafeea5; 0x1aa005b5e0ad0e87;
   0x5500d70527c4bb8e; 0xe36c57196421cc44; 0x13c4d286cc36ee39; 0x5654a23d818b2a81;
   0x77b1dc13d161abdc; 0x734f44de5f8d5eb5; 0x60717e174a6c89a2; 0xd47d9649266a211e;
   0x5b13a4322bb69e90; 0xf7669609f8b5fc3c; 0x21e6ac55bedcdac9; 0x9b56b62b61166dea;
   0xf48f66b939797e9c; 0x35f332f9c0e6ae9a; 0xcc733f6a9a878db0; 0x3da161e41cc108c2;
   0xb7d74ae535914d51; 0x4d493b0b11d36469; 0xce264d1dfba9741a; 0xa9d1f2dc7436dc06;
   0x70738016604c2a27; 0x231d36e96e93f3d5; 0x7666881197838d19; 0x4a2a83090aaad40c;
   0xf1e761591668b35d; 0x7363236497f730a7; 0x301080e37379dd4d; 0x502dea2971827042;
   0xc2c5eb858f32625f; 0x786afb9edfafbdff; 0xdaee0d868490b2a4; 0x617366b3268609f6;
   0xae0e35a0fe46173e; 0xd1a07de93e824f11; 0x079b8b115ea4cca8; 0x93a99274558faebb;
   0xfb1e6e22e08a03b3; 0xea635fdba3698dd0; 0xcf53659328503a5c; 0xcde3b31e6fd5d780;
   0x8e3e4221d3614413; 0xef14d0d86bf1a22c; 0xe1d830d3f16c5ddb; 0xaabd2b2a451504e1].

Definition gearLS : list Z := (fun v => u64 (Z.shiftl v 1)) <$> gear.

(** [t[src[i]]]; the indices of the search are inside the slice. *)
Definition at_ (t : list Z) (src : blob) (i : Z) : Z :=
  nth (Z.to_nat (nth (Z.to_nat i) src 0)) t 0.

(** ** The cut point *)

(** One of the two loops of [v2020Cut]: [k] iterations are left.  The result is
    the cut, or the hash with which the next loop goes on. *)
Fixpoint cut_loop (src : blob) (maskLS mask : Z) (k : nat) (index h : Z) : Z + Z :=
  match k with
  | O => inr h
  | S k' =>
      let a := index * 2 in
      let h := u64 (u64 (Z.shiftl h 2) + at_ gearLS src a) in
      if Z.land h maskLS =? 0 then inl a
      else
        let h := u64 (h + at_ gear src (a + 1)) in
        if Z.land h mask =? 0 then inl (a + 1)
        else cut_loop src maskLS mask k' (index + 1) h
  end.

(** [for index < bound]. *)
Definition iterations (index bound : Z) : nat := Z.to_nat (bound - index).

Definition v2020Cut (src : blob) (minSize avgSize maxSize maskS maskL maskSLS maskLLS : Z) : Z :=
  let n := Z.of_nat (length src) in
  if n <=? minSize then n
  else
    let center := if maxSize <? n then avgSize else if n <? avgSize then n else avgSize in
    let n := if maxSize <? n then maxSize else n in
    let index := minSize / 2 in
    match cut_loop src maskSLS maskS (iterations index (center / 2)) index 0 with
    | inl a => a
    | inr h =>
        let index := Z.max index (center / 2) in
        match cut_loop src maskLLS maskL (iterations index (n / 2)) index h with
        | inl a => a
        | inr _ => n
        end
    end.

(** ** The chunks of a file *)

Section chunks.
Context (blake3 : blob -> hash).

(** The cut with the sizes and masks of the server. *)
Definition cut (src : blob) : Z := v2020Cut src ChunkMin ChunkAvg ChunkMax maskS maskL maskSLS maskLLS.

(** The loop over what remains; a chunk is not empty, so as many rounds as bytes
    are enough. *)
Fixpoint chunk_loop (fuel : nat) (offset : Z) (remaining : blob) : list Chunk :=
  match fuel, remaining with
  | O, _ | _, [] => []
  | S fuel', _ =>
      let length := cut remaining in
      let buf := take (Z.to_nat length) remaining in
      mkChunk (blake3 buf) offset (u32 length) buf
        :: chunk_loop fuel' (u64 (offset + length)) (drop (Z.to_nat length) remaining)
  end.

Definition chunkBytes (data : blob) : list Chunk :=
  match data with
  | [] => [mkChunk (blake3 []) 0 0 []]
  | _ => chunk_loop (length data) 0 data
  end.
End chunks.

(** ** Where a cut lies *)

Lemma cut_loop_bounds src mLS m k i h a :
  cut_loop src mLS m k i h = inl a -> 2 * i <= a < 2 * (i + Z.of_nat k).
Proof.
  revert i h. induction k as [|k IH]; intros i h; simpl; [done |].
  case_match; [intros [= <-]; lia |]. case_match; [intros [= <-]; lia |].
  intros H1%IH. lia.
Qed.

(** A cut lies between the minimum and the end of the window; only data that is
    not longer than the minimum is cut shorter. *)
Lemma v2020Cut_bounds src mn av mx mS mL mSLS mLLS :
  0 <= mn -> mn mod 2 = 0 -> mn <= mx -> av <= mx ->
  let n := Z.of_nat (length src) in let c := v2020Cut src mn av mx mS mL mSLS mLLS in
  Z.min n mn <= c <= Z.min n mx.
Proof.
  intros H0 He Hm Ha. unfold v2020Cut. set (n := Z.of_nat (length src)).
  assert (0 <= n) by lia. destruct (Z.leb_spec n mn); [lia |].
  pose proof (Z_div_mod_eq_full mn 2).
  set (c := if mx <? n then av else if n <? av then n else av).
  set (n' := if mx <? n then mx else n).
  assert (mn <= n' <= n /\ n' <= mx /\ c <= n').
  { subst n' c. destruct (Z.ltb_spec mx n); [lia |]. destruct (Z.ltb_spec n av); lia. }
  pose proof (Z_div_mod_eq_full n' 2). pose proof (Z.mod_pos_bound n' 2).
  pose proof (Z_div_mod_eq_full c 2). pose proof (Z.mod_pos_bound c 2).
  case_match eqn:E1.
  - apply cut_loop_bounds in E1. unfold iterations in E1. lia.
  - case_match eqn:E2; [| lia]. apply cut_loop_bounds in E2. unfold iterations in E2. lia.
Qed.

Lemma cut_bounds src :
  let n := Z.of_nat (length src) in Z.min n ChunkMin <= cut src <= Z.min n ChunkMax.
Proof. apply v2020Cut_bounds; done. Qed.

(** The search reads the bytes before the bound of its loop only. *)
Lemma cut_loop_window src src' mLS m k i h :
  0 <= i -> (forall j, (Z.of_nat j < 2 * (i + Z.of_nat k)) -> nth j src 0 = nth j src' 0) ->
  cut_loop src mLS m k i h = cut_loop src' mLS m k i h.
Proof.
  revert i h. induction k as [|k IH]; intros i h Hi Hs; [done |]. cbn [cut_loop].
  assert (forall t, at_ t src (i * 2) = at_ t src' (i * 2) /\ at_ t src (i * 2 + 1) = at_ t src' (i * 2 + 1)) as Hat.
  { intros t. unfold at_. rewrite !Hs by lia. done. }
  destruct (Hat gearLS) as [-> _]. destruct (Hat gear) as [_ ->].
  case_match; [done |]. case_match; [done |]. apply IH; [lia |]. intros j Hj. apply Hs. lia.
Qed.

(** Data that agree on the first [ChunkMax] bytes and are longer have the same
    first cut. *)
Lemma cut_window w x y :
  Z.of_nat (length w) = ChunkMax -> x <> [] -> y <> [] -> cut (w ++ x) = cut (w ++ y).
Proof.
  intros Hw Hx Hy. unfold cut, v2020Cut.
  assert (forall z : blob, z <> [] -> ChunkMax < Z.of_nat (length (w ++ z))) as Hlen.
  { intros z Hz. rewrite length_app. destruct z; [done |]. simpl. lia. }
  pose proof (Hlen x Hx) as Hlx. pose proof (Hlen y Hy) as Hly.
  assert (ChunkMin = 1048576 /\ ChunkMax = 16777216 /\ ChunkAvg = 4194304) as (Emin & Emax & Eavg) by done.
  rewrite !(proj2 (Z.leb_gt _ _)) by lia. rewrite !(proj2 (Z.ltb_lt ChunkMax _)) by lia.
  assert (forall mLS m k i h, 0 <= i -> 2 * (i + Z.of_nat k) <= ChunkMax ->
    cut_loop (w ++ x) mLS m k i h = cut_loop (w ++ y) mLS m k i h) as Hc.
  { intros mLS m k i h Hi Hk. apply cut_loop_window; [done |]. intros j Hj.
    rewrite !app_nth1; [done | lia | lia]. }
  rewrite Hc; [| done | by vm_compute]. case_match; [done |].
  by rewrite Hc; [| done | by vm_compute].
Qed.

(** ** The chunks partition the data *)

Section partition.
Context (blake3 : blob -> hash).

(** The chunks lie side by side from [off] on and describe their bytes. *)
Fixpoint contiguous (off : Z) (cs : list Chunk) : Prop :=
  match cs with
  | [] => True
  | c :: cs' =>
      ck_Offset c = off /\ ck_Len c = Z.of_nat (length (ck_Bytes c)) /\
      ck_Hash c = blake3 (ck_Bytes c) /\ contiguous (off + ck_Len c) cs'
  end.

(** A round of the loop on data that is not empty. *)
Lemma chunk_loop_cons fuel off data :
  data <> [] ->
  let n := Z.to_nat (cut data) in
  chunk_loop blake3 (S fuel) off data =
    mkChunk (blake3 (take n data)) off (u32 (cut data)) (take n data)
      :: chunk_loop blake3 fuel (u64 (off + cut data)) (drop n data) /\
  (0 < n <= length data)%nat /\ u32 (cut data) = Z.of_nat n /\ length (take n data) = n.
Proof.
  intros Hd n. pose proof (cut_bounds data) as Hb. simpl in Hb.
  assert (ChunkMin = 1048576 /\ ChunkMax = 16777216) as [Emin Emax] by done.
  assert (0 < length data)%nat by (destruct data; [done | simpl; lia]).
  split; [by destruct data |]. split; [subst n; lia |]. subst n. split.
  - unfold u32. rewrite Z.mod_small by lia. lia.
  - rewrite length_take. lia.
Qed.

Lemma chunk_loop_concat fuel off data :
  (length data <= fuel)%nat -> concat (ck_Bytes <$> chunk_loop blake3 fuel off data) = data.
Proof.
  revert off data. induction fuel as [|fuel IH]; intros off data Hf.
  { by destruct data; [| simpl in Hf; lia]. }
  destruct (decide (data = [])) as [->|Hd]; [done |].
  destruct (chunk_loop_cons fuel off data Hd) as (-> & Hn & Hl & Ht).
  rewrite fmap_cons. cbn [concat ck_Bytes]. rewrite IH; [apply take_drop | rewrite length_drop; lia].
Qed.

(** The offset after a round. *)
Lemma next_offset off data :
  data <> [] -> 0 <= off -> off + Z.of_nat (length data) < 2 ^ 64 ->
  u64 (off + cut data) = off + Z.of_nat (Z.to_nat (cut data)).
Proof.
  intros Hd Ho Hlt. pose proof (cut_bounds data) as Hb. simpl in Hb.
  assert (ChunkMin = 1048576) by done. unfold u64. rewrite Z.mod_small by lia. lia.
Qed.

Lemma chunk_loop_contiguous fuel off data :
  0 <= off -> off + Z.of_nat (length data) < 2 ^ 64 -> contiguous off (chunk_loop blake3 fuel off data).
Proof.
  revert off data. induction fuel as [|fuel IH]; intros off data Ho Hlt; [done |].
  destruct (decide (data = [])) as [->|Hd]; [done |].
  destruct (chunk_loop_cons fuel off data Hd) as (-> & Hn & Hl & Ht).
  rewrite next_offset by done. simpl. rewrite Hl, Ht. split; [done |]. split; [done |]. split; [done |].
  apply IH; rewrite ?length_drop; lia.
Qed.

Lemma contiguous_offset off cs c :
  contiguous off cs -> Forall (fun c => 0 < ck_Len c) cs -> c ∈ cs -> off <= ck_Offset c.
Proof.
  revert off. induction cs as [|c1 cs IH]; intros off; [by intros _ _ ?%not_elem_of_nil |].
  simpl. intros (Ho & _ & _ & Hc) [Hp Hps]%Forall_cons [->|Hin]%elem_of_cons; [lia |].
  specialize (IH _ Hc Hps Hin). lia.
Qed.

Lemma chunk_loop_sizes fuel off data c :
  c ∈ chunk_loop blake3 fuel off data ->
  0 < ck_Len c <= ChunkMax /\ ck_Len c = Z.of_nat (length (ck_Bytes c)).
Proof.
  revert off data. induction fuel as [|fuel IH]; intros off data; [by intros ?%not_elem_of_nil |].
  destruct (decide (data = [])) as [->|Hd]; [by intros ?%not_elem_of_nil |].
  destruct (chunk_loop_cons fuel off data Hd) as (-> & Hn & Hl & Ht).
  intros [->|Hc]%elem_of_cons; [simpl | by eapply IH].
  pose proof (cut_bounds data). simpl in *. lia.
Qed.

(** Only the last chunk may be short: a short cut takes all the data. *)
Lemma chunk_loop_min fuel off data c :
  c ∈ removelast (chunk_loop blake3 fuel off data) -> ChunkMin <= ck_Len c.
Proof.
  revert off data. induction fuel as [|fuel IH]; intros off data; [by intros ?%not_elem_of_nil |].
  destruct (decide (data = [])) as [->|Hd]; [by intros ?%not_elem_of_nil |].
  destruct (chunk_loop_cons fuel off data Hd) as (-> & Hn & Hl & Ht). cbn [removelast].
  destruct (chunk_loop blake3 fuel _ _) as [|c2 cs] eqn:E; [by intros ?%not_elem_of_nil |].
  rewrite <- E. intros [->|Hc]%elem_of_cons; [simpl | by eapply IH].
  pose proof (cut_bounds data) as Hb. simpl in Hb. rewrite Hl.
  destruct (decide (ChunkMin <= cut data)) as [|Hs]; [lia |].
  assert (drop (Z.to_nat (cut data)) data = []) as E0 by (apply drop_ge; lia).
  rewrite E0 in E. by destruct fuel.
Qed.

(** What a chunk holds, wherever it lies. *)
Definition content (c : Chunk) : hash * blob := (ck_Hash c, ck_Bytes c).

Lemma chunk_loop_anywhere f f' off off' data :
  (length data <= f)%nat -> (length data <= f')%nat ->
  content <$> chunk_loop blake3 f off data = content <$> chunk_loop blake3 f' off' data.
Proof.
  revert f' off off' data. induction f as [|f IH]; intros f' off off' data Hf Hf'.
  { destruct data; [by destruct f' | simpl in Hf; lia]. }
  destruct (decide (data = [])) as [->|Hd]; [by destruct f' |].
  destruct f' as [|f']; [destruct data; [done | simpl in Hf'; lia] |].
  destruct (chunk_loop_cons f off data Hd) as (-> & Hn & Hl & Ht).
  destruct (chunk_loop_cons f' off' data Hd) as (-> & _). rewrite !fmap_cons. f_equal.
  apply IH; rewrite length_drop; lia.
Qed.

(** The chunks after a boundary are those of the rest of the data. *)
Lemma chunk_loop_suffix f off data cs1 cs2 :
  (length data <= f)%nat -> chunk_loop blake3 f off data = cs1 ++ cs2 ->
  let rest := concat (ck_Bytes <$> cs2) in
  content <$> cs2 = content <$> chunk_loop blake3 (length rest) 0 rest.
Proof.
  revert f off data. induction cs1 as [|c cs1 IH]; intros f off data Hf E; simpl.
  - simpl in E. rewrite <- E. rewrite chunk_loop_concat by done. by apply chunk_loop_anywhere.
  - destruct f as [|f]; [done |]. destruct (decide (data = [])) as [->|Hd]; [done |].
    destruct (chunk_loop_cons f off data Hd) as (E2 & Hn & _). rewrite E2 in E. injection E as _ E.
    eapply IH; [| exact E]. rewrite length_drop. lia.
Qed.

(** Chunks that begin a window before the end of a common prefix do not depend
    on what follows. *)
Lemma chunk_loop_prefix f f' off a x y c :
  x <> [] -> y <> [] -> (length (a ++ y) <= f')%nat -> 0 <= off ->
  off + Z.of_nat (length (a ++ x)) < 2 ^ 64 -> off + Z.of_nat (length (a ++ y)) < 2 ^ 64 ->
  c ∈ chunk_loop blake3 f off (a ++ x) -> ck_Offset c + ChunkMax <= off + Z.of_nat (length a) ->
  c ∈ chunk_loop blake3 f' off (a ++ y).
Proof.
  intros Hx Hy. revert f' off a. induction f as [|f IH]; intros f' off a Hf' Ho Hlx Hly Hin Hc.
  { by apply not_elem_of_nil in Hin. }
  assert (off <= ck_Offset c) as Hge.
  { apply (contiguous_offset _ (chunk_loop blake3 (S f) off (a ++ x))); [by apply chunk_loop_contiguous | | done].
    apply Forall_forall. intros c' Hc'. apply chunk_loop_sizes in Hc'. lia. }
  assert (0 < ChunkMax) as HM by done.
  assert (a ++ x <> []) as Hdx by (by intros [_ ?]%app_nil).
  assert (a ++ y <> []) as Hdy by (by intros [_ ?]%app_nil).
  destruct f' as [|f']; [rewrite length_app in Hf'; destruct y; [done | simpl in Hf'; lia] |].
  destruct (chunk_loop_cons f off (a ++ x) Hdx) as (Ex & Hnx & _).
  destruct (chunk_loop_cons f' off (a ++ y) Hdy) as (Ey & Hny & _).
  assert (cut (a ++ x) = cut (a ++ y)) as Ec.
  { rewrite <- (take_drop (Z.to_nat ChunkMax) a), <- !app_assoc.
    apply cut_window; [rewrite length_take; lia | by intros [_ ?]%app_nil | by intros [_ ?]%app_nil]. }
  pose proof (cut_bounds (a ++ x)) as Hb. simpl in Hb.
  assert (Z.to_nat (cut (a ++ x)) <= length a)%nat as Hna by lia.
  rewrite Ex, next_offset, take_app_le, drop_app_le in Hin by done.
  rewrite Ey, <- Ec, next_offset, Ec, take_app_le, drop_app_le by (done || lia). rewrite <- Ec.
  apply elem_of_cons in Hin as [->|Hin]; [by left | right].
  rewrite length_app in Hlx, Hly, Hf'. 
  apply IH; rewrite ?length_app, ?length_drop; [lia | lia | lia | lia | done | lia].
Qed.
End partition.

(** ** Claims *)

(** Chunking loses nothing and keeps its limits: the chunks of a file in
    order are the file, they lie side by side from offset 0 with the length and
    the hash of their bytes, none is longer than [ChunkMax], and all but the last
    have at least [ChunkMin] bytes. *)
Theorem chunking_partition blake3 data :
  Z.of_nat (length data) < 2 ^ 64 ->
  let cs := chunkBytes blake3 data in
  concat (ck_Bytes <$> cs) = data /\ contiguous blake3 0 cs /\
  (forall c, c ∈ cs -> ck_Len c <= ChunkMax) /\
  (forall c, c ∈ removelast cs -> ChunkMin <= ck_Len c).
Proof.
  intros Hl cs. subst cs. destruct data as [|b data].
  { split; [done |]. split; [done |]. split; [| by intros c ?%not_elem_of_nil].
    by intros c ->%list_elem_of_singleton. }
  unfold chunkBytes. split; [by apply chunk_loop_concat |].
  split; [by apply chunk_loop_contiguous |].
  split; [intros c Hc%chunk_loop_sizes; lia | apply chunk_loop_min].
Qed.

(** Equal content is cut into equal chunks, which is what deduplication
    needs: a chunk that begins at least [ChunkMax] before the end of a common
    prefix of two longer files is a chunk of both, and from any boundary on the
    chunks are those of the rest of the file taken for itself, so two files that
    reach a common tail at a boundary share every chunk of it. *)
Theorem chunking_dedup blake3 :
  (forall a x y c, x <> [] -> y <> [] ->
     Z.of_nat (length (a ++ x)) < 2 ^ 64 -> Z.of_nat (length (a ++ y)) < 2 ^ 64 ->
     c ∈ chunkBytes blake3 (a ++ x) -> ck_Offset c + ChunkMax <= Z.of_nat (length a) ->
     c ∈ chunkBytes blake3 (a ++ y)) /\
  (forall data cs1 cs2, chunkBytes blake3 data = cs1 ++ cs2 -> cs2 <> [] ->
     content <$> cs2 = content <$> chunkBytes blake3 (concat (ck_Bytes <$> cs2))).
Proof.
  assert (forall d, d <> [] -> chunkBytes blake3 d = chunk_loop blake3 (length d) 0 d) as Hcb by (by intros []).
  split.
  - intros a x y c Hx Hy Hlx Hly. rewrite !Hcb by (by intros [_ ?]%app_nil). intros Hin Hc.
    by eapply (chunk_loop_prefix blake3 _ _ 0 a x y c).
  - intros data cs1 cs2 E Hne. destruct (decide (data = [])) as [->|Hd].
    { destruct cs1 as [|c cs1]; simpl in E; [by rewrite <- E |]. by destruct cs1, cs2. }
    rewrite Hcb in E by done. rewrite (Hcb (concat _)); [by eapply chunk_loop_suffix |].
    destruct cs2 as [|c cs2]; [done |].
    assert (c ∈ chunk_loop blake3 (length data) 0 data) as Hc by (rewrite E; set_solver).
    apply chunk_loop_sizes in Hc as [Hc1 Hc2]. rewrite fmap_cons. cbn [concat]. intros [E0 _]%app_nil.
    rewrite E0 in Hc2. simpl in Hc2. lia.
Qed.

(** ** Witnesses *)

Lemma chunking_partition_witness :
  concat (ck_Bytes <$> chunkBytes (fun b => b) [1; 2; 3]) = [1; 2; 3].
Proof. exact (proj1 (chunking_partition (fun b => b) [1; 2; 3] eq_refl)). Defined.

Lemma blob_of_length n : 0 <= n -> exists a : blob, Z.of_nat (length a) = n.
Proof. intros Hn. exists (replicate (Z.to_nat n) 0). rewrite length_replicate. by apply Z2Nat.id. Qed.

(** A file that is not empty has a first chunk at offset 0. *)
Lemma first_chunk blake3 data :
  data <> [] -> exists c, c ∈ chunkBytes blake3 data /\ ck_Offset c = 0.
Proof.
  intros Hd. destruct (chunk_loop_cons blake3 (pred (length data)) 0 data Hd) as (Ec & _).
  unfold chunkBytes. destruct data as [|b data]; [done |]. cbn [length Nat.pred] in *. rewrite Ec.
  eexists. split; [by left | reflexivity].
Qed.

(** Two files of [ChunkMax] equal bytes and one different byte share their first
    chunk. *)
Lemma chunking_dedup_witness :
  exists a c, Z.of_nat (length a) = ChunkMax /\
    c ∈ chunkBytes (fun b => b) (a ++ [1]) /\ c ∈ chunkBytes (fun b => b) (a ++ [2]).
Proof.
  destruct (blob_of_length ChunkMax) as [a Ha]; [done |].
  destruct (first_chunk (fun b => b) (a ++ [1])) as (c & Hc & Ho); [by intros [_ ?]%app_nil |].
  exists a, c. split; [exact Ha |]. split; [exact Hc |].
  apply (proj1 (chunking_dedup (fun b => b)) a [1] [2]); [done | done | | | exact Hc | rewrite Ho; lia].
  all: rewrite length_app, Nat2Z.inj_add, Ha; reflexivity.
Defined.
