(* ===== verification/Seed.v ===== *)
(** * Importing files

    seed.go and migrate.go: a file is cut into chunks (Cdc.v), the chunks go to
    the chunk store, the directories above the file are registered and the
    manifest is written by compare-and-swap.  Flag parsing, the walk over the
    directory tree and logging are left out. *)

From S2P Require Import Prelude GoPath Codec TenantDB Journal Manifests FileSpec Refine ManifestProps Changes ChunkStore Gc Disk DiskProps Lease Handlers Cdc.

(** ** From chunks to manifests *)

Definition toManifestRefs (chunks : list Chunk) : list ChunkRef :=
  (fun c => mkChunkRef (ck_Hash c) (ck_Offset c) (ck_Len c)) <$> chunks.

Fixpoint refs_match (existing : list ChunkRef) (chunks : list Chunk) : bool :=
  match existing, chunks with
  | [], [] => true
  | ec :: es, c :: cs =>
      bool_decide (Hash ec = ck_Hash c) && (Offset ec =? ck_Offset c) && (Len ec =? ck_Len c)
      && refs_match es cs
  | _, _ => false
  end.

Definition manifestMatches (existing : Manifest) (chunks : list Chunk) (size : Z) : bool :=
  (mf_Size existing =? size) && refs_match (mf_Chunks existing) chunks.

(** ** Parents *)

Fixpoint registerLoop (parts : list gostr) (cur : gostr) : tx unit :=
  match parts with
  | [] => mret tt
  | p :: parts' =>
      if decide (p = []) then registerLoop parts' cur
      else
        _ ← RegisterDir (if decide (cur = []) then [slash] else cur) p;
        registerLoop parts' (cur ++ slash :: p)
  end.

Definition registerParents (virtualPath : gostr) : tx unit :=
  registerLoop (split_slash (trim_slashes (Dir virtualPath))) [].

(** ** Seeding *)

Inductive seedErr :=
| SeedFlag (msg : string) | SeedTenant | SeedChunk (offset : Z) (e : cs_err) | SeedStore (e : err).

Section seed.
Context {MP : MsgPack} (blake3 : blob -> hash) (now nowSec : Z).
(** What the capacity guard and the disk do with the n-th chunk. *)
Context (disk : nat -> option cs_err * writeOutcome).

Definition set_chunks (cs : chunkStore) (s : server) : server :=
  mkServer (sv_store s) cs (sv_closed s) (sv_leases s) (sv_mountLeases s).

(** The loop that stores the chunks; an error ends it. *)
Fixpoint putChunks (i : nat) (chunks : list Chunk) (cs : chunkStore) : result seedErr unit * chunkStore :=
  match chunks with
  | [] => (Ok tt, cs)
  | c :: chunks' =>
      match putUnlocked blake3 (disk i).1 (disk i).2 (ck_Hash c) (ck_Bytes c) cs with
      | (Err e, cs') => (Err (SeedChunk (ck_Offset c) e), cs')
      | (Ok _, cs') => putChunks (S i) chunks' cs'
      end
  end.

(** [known]: the tenant is configured on the server. *)
Definition runSeed (known : bool) (tenantID virtualPath : gostr) (data : blob) (s : server)
    : result seedErr unit * server :=
  if decide (tenantID = []) then (Err (SeedFlag "--seed-tenant is required"), s)
  else if decide (virtualPath = []) then (Err (SeedFlag "--seed-virtual-path is required"), s)
  else if negb (HasPrefix virtualPath [slash]) then (Err (SeedFlag "--seed-virtual-path must be absolute"), s)
  else if negb known then (Err SeedTenant, s)
  else
    let chunks := chunkBytes blake3 data in
    match putChunks 0 chunks (sv_chunks s) with
    | (Err e, cs) => (Err e, set_chunks cs s)
    | (Ok _, cs) =>
        let s := set_chunks cs s in
        match registerParents virtualPath (sv_db s) with
        | Err e => (Err (SeedStore e), s)
        | Ok (_, d) =>
            let s := set_store (set_db d (sv_store s)) s in
            let put expected :=
              let mf := mkManifest virtualPath 0 0 (u64 (Z.of_nat (length data))) 420 nowSec 0
                          (toManifestRefs chunks) 0 0 0 in
              match Put now virtualPath expected mf [] [] [] (manifests_of s) with
              | (Err e, st) => (Err (SeedStore e), set_store st s)
              | (Ok _, st) => (Ok tt, set_store st s)
              end in
            match Get virtualPath (sv_db s) with
            | Ok existing => put (mf_Version existing)
            | Err ErrManifestNotFound => put 0
            | Err e => (Err (SeedStore e), s)
            end
        end
    end.

(** The second half of the walk of [migrateTenant] for one file: its chunks, then
    its manifest. *)
Definition migrateStore (virtualPath : gostr) (mode mtime size expected : Z) (chunks : list Chunk)
    (s : server) : result seedErr bool * server :=
  match putChunks 0 chunks (sv_chunks s) with
  | (Err e, cs) => (Err e, set_chunks cs s)
  | (Ok _, cs) =>
      let s := set_chunks cs s in
      let mf := mkManifest virtualPath 0 0 size mode mtime 0 (toManifestRefs chunks) 0 0 0 in
      match Put now virtualPath expected mf [] [] [] (manifests_of s) with
      | (Err e, st) => (Err (SeedStore e), set_store st s)
      | (Ok _, st) => (Ok true, set_store st s)
      end
  end.

(** The walk for one regular file with these attributes; the result is whether a
    manifest was written. *)
Definition migrateFile (virtualPath : gostr) (mode mtime size : Z) (data : blob) (s : server)
    : result seedErr bool * server :=
  let chunks := chunkBytes blake3 data in
  match Get virtualPath (sv_db s) with
  | Ok existing =>
      if manifestMatches existing chunks size then (Ok false, s)
      else migrateStore virtualPath mode mtime size (mf_Version existing) chunks s
  | Err ErrManifestNotFound => migrateStore virtualPath mode mtime size 0 chunks s
  | Err e => (Err (SeedStore e), s)
  end.
End seed.

(** ** Reading back: fetch the chunks a manifest names, in order. *)
Fixpoint assemble (refs : list ChunkRef) (cs : chunkStore) : option blob :=
  match refs with
  | [] => Some []
  | r :: refs' =>
      match chunkGet (Hash r) cs, assemble refs' cs with
      | Ok data, Some rest => Some (data ++ rest)
      | _, _ => None
      end
  end.

(** ** Storing chunks *)

(** Nothing stored and no chunk of the file has the hash of another content. *)
Definition no_collision (blake3 : blob -> hash) (chunks : list Chunk) (cs : chunkStore) : Prop :=
  forall c, c ∈ chunks ->
    (forall x, files cs !! pathOf (ck_Hash c) = Some x -> x = ck_Bytes c) /\
    (forall c', c' ∈ chunks -> pathOf (ck_Hash c') = pathOf (ck_Hash c) -> ck_Bytes c' = ck_Bytes c).

Definition holds_chunk (cs : chunkStore) (c : Chunk) : Prop :=
  files cs !! pathOf (ck_Hash c) = Some (ck_Bytes c).

Section put_chunks.
Context (blake3 : blob -> hash).
Hypothesis hash_wf : forall x, wf_hash (blake3 x).

(** A disk that takes the write. *)
Lemma putUnlocked_done c cs :
  ck_Hash c = blake3 (ck_Bytes c) ->
  (forall x, files cs !! pathOf (ck_Hash c) = Some x -> x = ck_Bytes c) ->
  exists b cs', putUnlocked blake3 None WriteDone (ck_Hash c) (ck_Bytes c) cs = (Ok b, cs') /\
    holds_chunk cs' c /\
    (forall k, k <> pathOf (ck_Hash c) -> files cs' !! k = files cs !! k) /\
    (forall k x, files cs !! k = Some x -> files cs' !! k = Some x).
Proof using hash_wf.
  intros Hh Hs. destruct (hash_wf (ck_Bytes c)) as [Hl _]. unfold putUnlocked, holds_chunk.
  rewrite decide_False by (rewrite Hh; lia). rewrite decide_False by (rewrite Hh; tauto). simpl.
  destruct (files cs !! pathOf (ck_Hash c)) as [x|] eqn:E.
  - exists false. eexists. split; [done |]. simpl. rewrite (Hs x eq_refl) in E. auto.
  - exists true. eexists. split; [done |]. simpl. rewrite lookup_insert_eq. split; [done |].
    split; [intros k Hk; by rewrite lookup_insert_ne |].
    intros k x Hk. rewrite lookup_insert_ne; [done |]. intros <-. congruence.
Qed.

Lemma putChunks_done disk i chunks cs :
  (forall n, disk n = (None, WriteDone)) ->
  Forall (fun c => ck_Hash c = blake3 (ck_Bytes c)) chunks -> no_collision blake3 chunks cs ->
  exists cs', putChunks blake3 disk i chunks cs = (Ok tt, cs') /\ Forall (holds_chunk cs') chunks /\
    (forall k x, files cs !! k = Some x -> files cs' !! k = Some x).
Proof using hash_wf.
  intros Hd. revert i cs. induction chunks as [|c chunks IH]; intros i cs Hf Hn.
  { exists cs. auto. }
  apply Forall_cons in Hf as [Hc Hf]. simpl. rewrite Hd. simpl.
  destruct (putUnlocked_done c cs Hc) as (b & cs1 & -> & Hold & Hne & Hkeep).
  { apply (Hn c). by left. }
  destruct (IH (S i) cs1 Hf) as (cs' & -> & Hall & Hk).
  { intros c' Hc'. split; [| intros c'' Hc''; apply (Hn c'); by right].
    intros x Hx. destruct (decide (pathOf (ck_Hash c') = pathOf (ck_Hash c))) as [E|E].
    - rewrite E in Hx. unfold holds_chunk in Hold. rewrite Hx in Hold. injection Hold as ->.
      symmetry. apply (Hn c); [by left | by right | done].
    - rewrite Hne in Hx by done. apply (Hn c'); [by right | done]. }
  exists cs'. split; [done |]. split; [| by eauto]. constructor; [by apply Hk | done].
Qed.

Lemma assemble_chunks chunks cs :
  Forall (fun c => ck_Hash c = blake3 (ck_Bytes c)) chunks -> Forall (holds_chunk cs) chunks ->
  assemble (toManifestRefs chunks) cs = Some (concat (ck_Bytes <$> chunks)).
Proof using hash_wf.
  induction chunks as [|c chunks IH]; [done |]. intros [Hc Hf]%Forall_cons [Hh Hhs]%Forall_cons.
  simpl. unfold chunkGet, Path. destruct (hash_wf (ck_Bytes c)) as [Hl _].
  rewrite decide_True by (by rewrite Hc). rewrite Hh. rewrite IH by done. done.
Qed.

Lemma chunks_present chunks cs :
  Forall (fun c => ck_Hash c = blake3 (ck_Bytes c)) chunks -> Forall (holds_chunk cs) chunks ->
  Forall (fun r => Hash r ∈ present_hashes cs) (toManifestRefs chunks).
Proof using hash_wf.
  intros Hc Hh. apply Forall_fmap. rewrite Forall_forall in *. intros c Hin. simpl.
  specialize (Hc c Hin). specialize (Hh c Hin). apply elem_of_list_to_set, list_elem_of_omap.
  exists (pathOf (ck_Hash c), ck_Bytes c). split; [by apply elem_of_map_to_list |].
  simpl. rewrite hex_decode_encode; [done |]. rewrite Hc. apply hash_wf.
Qed.
End put_chunks.

(** ** Registering the parents *)

Lemma parent_parts segs :
  Forall good_seg segs ->
  split_slash (trim_slashes (abspath segs)) = match segs with [] => [[]] | _ => segs end.
Proof.
  intros Hf. destruct segs as [|s segs]; [done |]. unfold trim_slashes.
  destruct (exists_last (l := s :: segs)) as (l & x & El); [done |].
  rewrite El, trim_right_slash_abspath by (by rewrite <- El). rewrite <- El.
  change (abspath (s :: segs)) with (mkpath (s :: segs)).
  pose proof (split_slash_mkpath (s :: segs) (good_segs_no_slash _ Hf)) as Hs.
  rewrite mkpath_cons in *. apply Forall_cons in Hf as [(Hne & _ & _ & Hsl) _].
  assert (trim_left_slash (slash :: s ++ mkpath segs) = s ++ mkpath segs) as ->.
  { destruct s as [|c s]; [done |]. simpl. rewrite decide_False; [done |]. intros ->. apply Hsl. by left. }
  simpl in Hs. by injection Hs as ->.
Qed.

(** A registered directory stays registered; only the entries change. *)
Record registered (pre segs : list gostr) (d d' : tdb) : Prop := {
  reg_core : core d' = core d;
  reg_keeps p n : has_entry p n d = true -> has_entry p n d' = true;
  reg_has l s r : segs = l ++ s :: r -> has_entry (abspath (pre ++ l)) s d' = true }.

Lemma RegisterDir_ok p n d :
  exists d1, RegisterDir p n d = Ok (tt, d1) /\ core d1 = core d /\ has_entry p n d1 = true /\
    forall q m, has_entry q m d = true -> has_entry q m d1 = true.
Proof.
  eexists. split; [done |]. destruct (has_entry p n d) eqn:E; [done |]. split; [done |].
  unfold has_entry. simpl. split; [by rewrite lookup_insert_eq, bool_decide_true by eauto |].
  intros q m H%bool_decide_eq_true. apply bool_decide_eq_true.
  destruct (decide ((p, n) = (q, m))) as [<-|Hne]; [by rewrite lookup_insert_eq; eauto |].
  by rewrite lookup_insert_ne.
Qed.

Lemma registerLoop_ok pre segs d :
  Forall good_seg segs -> exists d', registerLoop segs (mkpath pre) d = Ok (tt, d') /\ registered pre segs d d'.
Proof.
  revert pre d. induction segs as [|s segs IH]; intros pre d Hf.
  { exists d. split; [done |]. split; [done | done |]. by intros []. }
  apply Forall_cons in Hf as [(Hne & _) Hf]. simpl. rewrite decide_False by done.
  assert ((if decide (mkpath pre = []) then [slash] else mkpath pre) = abspath pre) as ->.
  { destruct pre as [|t pre]; [done |]. by rewrite decide_False. }
  destruct (RegisterDir_ok (abspath pre) s d) as (d1 & E1 & C1 & H1 & K1).
  destruct (IH (pre ++ [s]) d1 Hf) as (d' & E' & [C' K' H']).
  exists d'. erewrite tx_bind_eq by done. rewrite <- mkpath_snoc. split; [done |].
  split; [congruence | auto |]. intros [|t l] x r [= <- Hr].
  - rewrite app_nil_r. by apply K'.
  - subst. specialize (H' l x r eq_refl). by rewrite <- app_assoc in H'.
Qed.

Lemma registerParents_ok segs n d :
  Forall good_seg (segs ++ [n]) ->
  exists d', registerParents (abspath (segs ++ [n])) d = Ok (tt, d') /\ core d' = core d /\
    parent_ok (abspath (segs ++ [n])) d' = true.
Proof.
  intros Hf. pose proof Hf as [Hs _]%Forall_app. unfold registerParents.
  rewrite Dir_abspath, parent_parts by done. unfold parent_ok. rewrite splitParentName_snoc by done. simpl.
  destruct segs as [|s segs]; [by exists d |].
  destruct (registerLoop_ok [] (s :: segs) d Hs) as (d' & E & [C K H]).
  exists d'. split; [exact E |]. split; [done |].
  destruct (exists_last (l := s :: segs)) as (l & x & El); [done |]. rewrite El in *.
  case_decide; [done |]. rewrite splitParentName_snoc by done. simpl. by apply (H l x []).
Qed.

Lemma Get_row d a p r :
  Inv d a -> manifests d !! p = Some r -> exists m, Get p d = Ok m /\ mf_Version m = m_version r.
Proof.
  intros I Hr. unfold Get. rewrite Hr. destruct (inv_unpack _ _ I p r Hr) as (y & _ & _ & -> & _).
  by eexists.
Qed.

Lemma abspath_rooted segs : abspath segs <> [] /\ HasPrefix (abspath segs) [slash] = true.
Proof. by destruct segs as [|[|c s] segs]. Qed.

Section claims.
Context {MP : MsgPack} (blake3 : blob -> hash) (now nowSec : Z).
Hypothesis hash_wf : forall x, wf_hash (blake3 x).

Lemma contiguous_refs off cs :
  contiguous blake3 off cs -> 0 <= off -> Forall (fun c => ck_Len c < 2 ^ 32) cs ->
  off + Z.of_nat (length (concat (ck_Bytes <$> cs))) < 2 ^ 64 ->
  Forall (fun c => ck_Hash c = blake3 (ck_Bytes c)) cs /\ Forall wf_ref (toManifestRefs cs).
Proof using hash_wf.
  revert off. induction cs as [|c cs IH]; intros off Hc Hoff Hm Hlen; [done |].
  destruct Hc as (Ho & Hn & Hh & Hcs). apply Forall_cons in Hm as [Hm Hms].
  rewrite fmap_cons in Hlen. cbn [concat] in Hlen. rewrite length_app in Hlen.
  destruct (IH (off + ck_Len c)) as [IH1 IH2]; [done | lia | done | lia |]. split; [by constructor |].
  unfold toManifestRefs. rewrite fmap_cons. constructor; [| done]. unfold wf_ref. simpl.
  rewrite Hh. split; [apply hash_wf |]. lia.
Qed.

Lemma chunks_described data :
  Z.of_nat (length data) < 2 ^ 63 ->
  concat (ck_Bytes <$> chunkBytes blake3 data) = data /\
  Forall (fun c => ck_Hash c = blake3 (ck_Bytes c)) (chunkBytes blake3 data) /\
  Forall wf_ref (toManifestRefs (chunkBytes blake3 data)).
Proof using hash_wf.
  intros Hl.
  assert (concat (ck_Bytes <$> chunkBytes blake3 data) = data) as Hcat.
  { destruct data; [done |]. by apply chunk_loop_concat. }
  split; [done |]. apply (contiguous_refs 0); [| lia | | rewrite Hcat; lia].
  - destruct data; [done |]. apply chunk_loop_contiguous; lia.
  - destruct data as [|b data]; [by repeat constructor |]. apply Forall_forall. intros c Hin.
    apply chunk_loop_sizes in Hin. assert (ChunkMax = 16777216) by done. lia.
Qed.

(** What is seeded can be read: on a disk that takes the writes and without
    hash collisions, seeding an absolute path succeeds whatever directories exist
    above it, at the version the file has, and the chunks named by the manifest
    that a reader then gets are the data. *)
Theorem seed_read_back disk tenant segs n data s a :
  let p := abspath (segs ++ [n]) in
  Inv (sv_db s) a -> tenant <> [] -> Forall good_seg (segs ++ [n]) ->
  (forall i, disk i = (None, WriteDone)) -> no_collision blake3 (chunkBytes blake3 data) (sv_chunks s) ->
  Z.of_nat (length data) < 2 ^ 63 -> version_at p (sv_db s) < 2 ^ 63 - 1 ->
  (forall r, manifests (sv_db s) !! p = Some r -> 0 < m_version r) ->
  exists s' m, runSeed blake3 now nowSec disk true tenant p data s = (Ok tt, s') /\
    Get p (sv_db s') = Ok m /\ mf_Size m = Z.of_nat (length data) /\
    mf_Version m = version_at p (sv_db s) + 1 /\ assemble (mf_Chunks m) (sv_chunks s') = Some data.
Proof using hash_wf.
  intros p I Ht Hg Hd Hnc Hlen Hv Hpos.
  destruct (chunks_described data Hlen) as (Hcat & Hh & Hwf).
  destruct (putChunks_done blake3 hash_wf disk 0 _ (sv_chunks s) Hd Hh Hnc) as (cs & Ep & Hall & _).
  destruct (registerParents_ok segs n (sv_db s) Hg) as (d & Er & Ec & Hpar).
  assert (Inv d a) as Id by (by eapply Inv_core).
  assert (manifests d = manifests (sv_db s)) as Em by (unfold core in Ec; congruence).
  set (mf := mkManifest p 0 0 (u64 (Z.of_nat (length data))) 420 nowSec 0
               (toManifestRefs (chunkBytes blake3 data)) 0 0 0).
  set (s1 := set_store (set_db d (sv_store s)) (set_chunks cs s)).
  destruct (Put_run now p (version_at p (sv_db s)) mf [] [] [] (manifests_of s1) a) as (e & rev & d' & Htx & HP).
  { done. } { done. } { by left. } { apply bool_decide_eq_true. by eapply chunks_present. } { done. }
  { unfold version_at. change (st_db (manifests_of s1)) with d. by rewrite Em. }
  { intros H0. change (st_db (manifests_of s1)) with d. rewrite Em. unfold version_at in H0.
    destruct (manifests (sv_db s) !! p) as [r|] eqn:Hr; [| done]. specialize (Hpos r eq_refl). simpl in H0. lia. }
  { simpl. unfold u64. rewrite Z.mod_small; lia. }
  { unfold version_at in *. destruct (manifests (sv_db s) !! p) as [r|] eqn:Hr; simpl in *; [| lia].
    specialize (Hpos r eq_refl). lia. }
  destruct (Get_written now p (version_at p (sv_db s)) mf [] [] [] (manifests_of s1) a _ _ p Id Hwf HP)
    as (m & Hm & Hsz & _ & _ & Hver & Hch); [by left |].
  exists (set_store (notifyChange rev (Broadcast e (set_db d' (manifests_of s1)))) s1), m.
  split; [| split; [exact Hm |]; split; [rewrite Hsz; simpl; unfold u64; rewrite Z.mod_small; lia |];
            split; [done |]; rewrite Hch; simpl; rewrite (assemble_chunks blake3 hash_wf) by done; by rewrite Hcat].
  unfold runSeed. rewrite decide_False by done. rewrite decide_False by (by apply abspath_rooted).
  assert (HasPrefix p [slash] = true) as -> by apply abspath_rooted. rewrite Ep. simpl negb. cbn iota.
  change (sv_db (set_chunks cs s)) with (sv_db s). fold p in Er. rewrite Er. change (set_store (set_db d (sv_store (set_chunks cs s))) (set_chunks cs s)) with s1. fold mf.
  change (sv_db s1) with d. destruct (manifests d !! p) as [r|] eqn:Hr.
  - destruct (Get_row d a p r Id Hr) as (m0 & -> & Hv0).
    assert (mf_Version m0 = version_at p (sv_db s)) as -> by (unfold version_at; by rewrite <- Em, Hr).
    by rewrite HP.
  - assert (Get p d = Err ErrManifestNotFound) as -> by (unfold Get; by rewrite Hr).
    assert (0 = version_at p (sv_db s)) as -> by (unfold version_at; by rewrite <- Em, Hr). by rewrite HP.
Qed.

Lemma refs_match_refl chunks : refs_match (toManifestRefs chunks) chunks = true.
Proof.
  induction chunks as [|c chunks IH]; [done |]. simpl.
  by rewrite bool_decide_true, !Z.eqb_refl, IH.
Qed.

(** The manifest that a migrated file has. *)
Lemma migrateStore_matches disk p mode mtime size v data s a b s1 :
  Inv (sv_db s) a -> Z.of_nat (length data) < 2 ^ 63 ->
  migrateStore blake3 now disk p mode mtime size v (chunkBytes blake3 data) s = (Ok b, s1) ->
  exists m, Get p (sv_db s1) = Ok m /\ manifestMatches m (chunkBytes blake3 data) size = true.
Proof using hash_wf.
  intros I Hl H. destruct (chunks_described data Hl) as (_ & _ & Hwf). unfold migrateStore in H.
  destruct (putChunks _ _ _ _ _) as [[[]|e] cs]; [| done].
  set (mf := mkManifest _ _ _ _ _ _ _ _ _ _ _) in H.
  destruct (Put _ _ _ _ _ _ _ _) as [[nv|e] st] eqn:HP; [| done]. injection H as _ <-.
  destruct (Get_written now p v mf [] [] [] (manifests_of (set_chunks cs s)) a nv st p I Hwf HP)
    as (m & Hm & Hsz & _ & _ & _ & Hch); [by left |].
  exists m. split; [exact Hm |]. unfold manifestMatches. rewrite Hsz, Hch. simpl.
  by rewrite Z.eqb_refl, refs_match_refl.
Qed.

(** Migrating is idempotent: after a file has been migrated, migrating it
    again finds the manifest equal to the chunks of the data and changes
    nothing, whatever the disk would do with the writes. *)
Theorem migrate_twice disk disk' p mode mtime size data s a b s1 :
  Inv (sv_db s) a -> Z.of_nat (length data) < 2 ^ 63 ->
  migrateFile blake3 now disk p mode mtime size data s = (Ok b, s1) ->
  forall now' mode' mtime',
    migrateFile blake3 now' disk' p mode' mtime' size data s1 = (Ok false, s1).
Proof using hash_wf.
  intros I Hl H now' mode' mtime'.
  enough (exists m, Get p (sv_db s1) = Ok m /\ manifestMatches m (chunkBytes blake3 data) size = true)
    as (m & Hm & Hmm) by (unfold migrateFile; by rewrite Hm, Hmm).
  unfold migrateFile in H. destruct (Get p (sv_db s)) as [m|e] eqn:EG.
  - destruct (manifestMatches m _ size) eqn:EM; [injection H as <- <-; eauto |].
    by eapply migrateStore_matches.
  - destruct e; try done. by eapply migrateStore_matches.
Qed.
End claims.

(** ** Witnesses *)

Definition no_server : server :=
  mkServer (mkStore emptyDB None None None) (mkCS ∅ ∅ ∅) false newLeaseManager ∅.

Lemma one_chunk_no_collision b data c :
  chunkBytes b data = [c] -> no_collision b (chunkBytes b data) (mkCS ∅ ∅ ∅).
Proof.
  intros -> c0 ->%list_elem_of_singleton. split; [intros x Hx; simpl in Hx; by rewrite lookup_empty in Hx |].
  by intros c' ->%list_elem_of_singleton.
Qed.

Lemma seed_read_back_witness :
  exists s' m, runSeed (MP := flat_msgpack) toy_hash 0 5 (fun _ => (None, WriteDone)) true (str "t")
      (str "/a/f") [1; 2; 3] no_server = (Ok tt, s') /\
    Get (str "/a/f") (sv_db s') = Ok m /\ assemble (mf_Chunks m) (sv_chunks s') = Some [1; 2; 3].
Proof.
  destruct (seed_read_back (MP := flat_msgpack) toy_hash 0 5 toy_hash_wf (fun _ => (None, WriteDone)) (str "t")
    [str "a"] (str "f") [1; 2; 3] no_server empty_afs) as (s' & m & H1 & H2 & _ & _ & H3);
    [exact Inv_empty | discriminate | | reflexivity | | vm_compute; reflexivity | vm_compute; reflexivity | |].
  - repeat constructor; try discriminate; apply (bool_decide_unpack _); vm_compute; exact I.
  - eapply one_chunk_no_collision. vm_compute. reflexivity.
  - intros r Hr. vm_compute in Hr. discriminate.
  - exists s', m. split; [exact H1 |]. split; [exact H2 | exact H3].
Defined.

(** The outcome of a first migration. *)
Definition migrated : result seedErr bool * server :=
  migrateFile (MP := flat_msgpack) toy_hash 0 (fun _ => (None, WriteDone)) (str "/f") 420 5 3
    [1; 2; 3] no_server.

Lemma migrated_Ok : migrated = (Ok true, migrated.2).
Proof.
  assert (migrated.1 = Ok true) as <- by (vm_compute; reflexivity). apply surjective_pairing.
Qed.

Lemma migrate_twice_witness :
  migrateFile (MP := flat_msgpack) toy_hash 9 (fun _ => (None, WriteFailed)) (str "/f") 420 6 3
    [1; 2; 3] migrated.2 = (Ok false, migrated.2).
Proof.
  apply (migrate_twice (MP := flat_msgpack) toy_hash 0 toy_hash_wf (fun _ => (None, WriteDone))
    (fun _ => (None, WriteFailed)) (str "/f") 420 5 3 [1; 2; 3] no_server empty_afs true).
  - exact Inv_empty.
  - reflexivity.
  - exact migrated_Ok.
Defined.
