(* ===== verification/Enroll.v ===== *)
(** * Tokens, enrolment and the certificate deny-list

    orlop-control/internal/devauth: opaque bearer tokens, of which an enrol token
    is spent once.  devauth_handlers.go [RequireEnrollBearer] and
    agent_enroll_handlers.go [handleEnroll]: a pod trades its token for an agent
    certificate.  cert_revocation_reconcile.go and the server's
    cert_revocation_registry.go, control_cert_revocations.go: revoked serials are
    pushed to the servers, which refuse them until they expire.

    Tables are keyed by the hash of the token; [sha256] is the hash library's
    function.  Header values and serials are ASCII text.  The rate limiter, the
    certificate authority and the server's answers are arguments. *)

From S2P Require Import Prelude CtlStore Allocations.

(** ** Text *)

Definition is_space (c : ascii) : bool :=
  let n := Z.of_N (N_of_ascii c) in ((9 <=? n) && (n <=? 13)) || (n =? 32).

Fixpoint trim_left (s : gostr) : gostr :=
  match s with
  | c :: s' => if is_space c then trim_left s' else s
  | [] => []
  end.

Definition TrimSpace (s : gostr) : gostr := reverse (trim_left (reverse (trim_left s))).

Definition upper (c : ascii) : ascii :=
  let n := N_of_ascii c in
  if (97 <=? Z.of_N n) && (Z.of_N n <=? 122) then ascii_of_N (n - 32) else c.

Definition ToUpper (s : gostr) : gostr := upper <$> s.

Definition bearerPrefix : gostr := str "Bearer ".

(** [strings.EqualFold] on the prefix compares upper-cased letters. *)
Definition BearerToken (header : gostr) : gostr :=
  if (length header <=? length bearerPrefix)%nat
     || negb (bool_decide (ToUpper (take (length bearerPrefix) header) = ToUpper bearerPrefix))
  then [] else TrimSpace (drop (length bearerPrefix) header).

(** ** Tables *)

Inductive purpose := PurposeAdmin | PurposeAPIToken | PurposeAgentEnroll.

#[export] Instance purpose_eq_dec : EqDecision purpose.
Proof. solve_decision. Defined.

Record accessToken := mkTok {
  at_Purpose : purpose; at_UserID : uuid; at_TenantID : gostr; at_AllocationID : option uuid;
  at_ExpiresAt : Z; at_revoked : option Z; at_consumed : option Z }.

Record apiToken := mkApi {
  ap_ID : uuid; ap_UserID : uuid; ap_revoked : option Z; ap_ExpiresAt : option Z; ap_LastUsedAt : option Z;
  ap_Name : gostr; ap_Prefix : gostr; ap_CreatedAt : Z }.

Record tenantRow := mkTenant { tn_Name : gostr; tn_suspended : bool }.

(** The tables of CtlStore.v and those of the sessions. *)
Record edb := mkE {
  e_db : cdb; e_tokens : gmap gostr accessToken; e_api : gmap gostr apiToken;
  e_tenants : gmap gostr tenantRow; e_suspended : gset uuid }.

Definition set_edb (d : cdb) (e : edb) : edb := mkE d (e_tokens e) (e_api e) (e_tenants e) (e_suspended e).
Definition set_tokens t (e : edb) : edb := mkE (e_db e) t (e_api e) (e_tenants e) (e_suspended e).
Definition set_api t (e : edb) : edb := mkE (e_db e) (e_tokens e) t (e_tenants e) (e_suspended e).

(** The unique hash and the foreign keys of a new token. *)
Definition CreateAccessToken (hash : gostr) (t : accessToken) (e : edb) : result serr edb :=
  if bool_decide (is_Some (e_tokens e !! hash)) then Err SAlreadyExists
  else if bool_decide (is_Some (users (e_db e) !! at_UserID t)) && bool_decide (is_Some (e_tenants e !! at_TenantID t))
    && match at_AllocationID t with
       | None => true
       | Some a => bool_decide (is_Some (allocations (e_db e) !! a))
       end
  then Ok (set_tokens (<[hash := t]> (e_tokens e)) e) else Err SConstraint.

Definition consumed_at (now : Z) (t : accessToken) : accessToken :=
  mkTok (at_Purpose t) (at_UserID t) (at_TenantID t) (at_AllocationID t) (at_ExpiresAt t) (at_revoked t) (Some now).

(** The result says whether this call spent the token. *)
Definition ConsumeToken (now : Z) (hash : gostr) (e : edb) : bool * edb :=
  match e_tokens e !! hash with
  | Some t =>
      if bool_decide (at_Purpose t = PurposeAgentEnroll) && bool_decide (at_consumed t = None)
      then (true, set_tokens (<[hash := consumed_at now t]> (e_tokens e)) e) else (false, e)
  | None => (false, e)
  end.

(** ** [devauth.Service] *)

Inductive authErr :=
| ErrBearerMissing | ErrTokenUnknown | ErrTokenWrongPurpose | ErrTokenRevoked | ErrTokenConsumed
| ErrTokenExpired | ErrUserSuspended | ErrTenantSuspended.

Record identity := mkIdent {
  in_UserID : uuid; in_TenantID : gostr; in_Purpose : purpose; in_AllocationID : option uuid }.

Definition AgentEnrollTokenTTL : Z := 10 * 60 * 1000000.
Definition AdminSessionTTL : Z := 30 * 24 * 3600 * 1000000.

Section service.
Context (sha256 : gostr -> gostr).

(** [raw] is the freshly drawn token. *)
Definition IssueAgentEnrollToken (now : Z) (raw : gostr) (user : uuid) (tenant : gostr)
    (alloc : option uuid) (e : edb) : result serr edb :=
  CreateAccessToken (sha256 raw)
    (mkTok PurposeAgentEnroll user tenant alloc (now + AgentEnrollTokenTTL) None None) e.

Definition IssueAdminSession (now : Z) (raw : gostr) (user : uuid) (tenant : gostr) (e : edb)
    : result serr edb :=
  CreateAccessToken (sha256 raw) (mkTok PurposeAdmin user tenant None (now + AdminSessionTTL) None None) e.

(** The token joined with its user and tenant; a missing one is no row. *)
Definition authenticateRaw (now : Z) (raw : gostr) (p : purpose) (e : edb) : result authErr identity :=
  if decide (raw = []) then Err ErrBearerMissing
  else
    match e_tokens e !! sha256 raw with
    | None => Err ErrTokenUnknown
    | Some t =>
        match users (e_db e) !! at_UserID t, e_tenants e !! at_TenantID t with
        | Some _, Some ten =>
            if decide (at_Purpose t <> p) then Err ErrTokenWrongPurpose
            else if bool_decide (is_Some (at_revoked t)) then Err ErrTokenRevoked
            else if bool_decide (is_Some (at_consumed t)) then Err ErrTokenConsumed
            else if at_ExpiresAt t <? now then Err ErrTokenExpired
            else if bool_decide (at_UserID t ∈ e_suspended e) then Err ErrUserSuspended
            else if tn_suspended ten then Err ErrTenantSuspended
            else Ok (mkIdent (at_UserID t) (at_TenantID t) (at_Purpose t) (at_AllocationID t))
        | _, _ => Err ErrTokenUnknown
        end
    end.

Definition AuthenticateEnrollBearer (now : Z) (header : gostr) (e : edb) : result authErr identity :=
  authenticateRaw now (BearerToken header) PurposeAgentEnroll e.

Definition ConsumeAgentEnrollToken (now : Z) (header : gostr) (e : edb) : result authErr bool * edb :=
  let raw := BearerToken header in
  if decide (raw = []) then (Err ErrBearerMissing, e)
  else let '(b, e') := ConsumeToken now (sha256 raw) e in (Ok b, e').

(** ** The middleware *)

(** An answer other than 200: the status, the error and its description. *)
Record refusal := mkRefusal { rf_status : Z; rf_error : string; rf_desc : string }.

Definition apiTokenTouchInterval : Z := 60 * 1000000.
Definition tokenPrefix : gostr := str "orlop_".

Definition touched (now : Z) (t : apiToken) : apiToken :=
  mkApi (ap_ID t) (ap_UserID t) (ap_revoked t) (ap_ExpiresAt t) (Some now) (ap_Name t) (ap_Prefix t) (ap_CreatedAt t).

Definition RequireEnrollBearer (now : Z) (header : gostr) (e : edb) : result refusal identity * edb :=
  let raw := BearerToken header in
  if bool_decide (take (length tokenPrefix) raw = tokenPrefix) then
    let denied := (Err (mkRefusal 401 "invalid_token" ""), e) in
    match e_api e !! sha256 raw with
    | None => denied
    | Some t =>
        match users (e_db e) !! ap_UserID t with
        | None => denied
        | Some us =>
            match e_tenants e !! us_TenantID us with
            | None => denied
            | Some ten =>
                if bool_decide (is_Some (ap_revoked t)) then denied
                else if match ap_ExpiresAt t with Some x => x <? now | None => false end
                then (Err (mkRefusal 401 "invalid_token" "expired"), e)
                else if tn_suspended ten then (Err (mkRefusal 403 "access_denied" "tenant_suspended"), e)
                else if bool_decide (ap_UserID t ∈ e_suspended e)
                then (Err (mkRefusal 403 "access_denied" "user_suspended"), e)
                else
                  let e' := if match ap_LastUsedAt t with
                               | Some x => apiTokenTouchInterval <? now - x
                               | None => true
                               end
                            then set_api (<[sha256 raw := touched now t]> (e_api e)) e else e in
                  (Ok (mkIdent (ap_UserID t) (us_TenantID us) PurposeAPIToken None), e')
            end
        end
    end
  else
    (match AuthenticateEnrollBearer now header e with
     | Ok i => Ok i
     | Err ErrTenantSuspended => Err (mkRefusal 403 "access_denied" "tenant_suspended")
     | Err ErrUserSuspended => Err (mkRefusal 403 "access_denied" "user_suspended")
     | Err _ => Err (mkRefusal 401 "invalid_token" "")
     end, e).

(** ** [handleEnroll] *)

(** What the certificate authority does with a tenant: an unknown one is
    bootstrapped, then a leaf with this serial and expiry is minted. *)
Inductive caOutcome :=
| CaNotAllowed | CaBootstrapFailed | CaMintFailed | CaParseFailed
| CaMinted (serial : gostr) (notAfter : Z).

(** The outcomes that do not depend on the tables: the limiter, the server's
    registration of a tenant and whether its failure is a full quota, the
    authority, and the id of the enrolment row. *)
Record enrollEnv := mkEnv {
  ev_allowed : bool; ev_registered : bool; ev_quotaFull : bool; ev_ca : caOutcome; ev_id : uuid }.

Record enrolled := mkEnrolled {
  en_TenantID : gostr; en_UserID : uuid; en_AgentID : gostr; en_serial : gostr; en_notAfter : Z;
  en_server : gostr; en_allocation : uuid; en_size : Z }.

Definition CreateAgentEnrollment (id user : uuid) (serial : gostr) (notAfter : Z) (d : cdb) : result serr cdb :=
  if bool_decide (is_Some (enrollments d !! id)) then Err SAlreadyExists
  else if bool_decide (is_Some (users d !! user))
  then Ok (mkCdb (allocations d) (users d) (<[id := mkEnroll user serial notAfter]> (enrollments d))
             (revocations d) (server_vms d) (server_pool d) (reservations d))
  else Err SConstraint.

Definition retryable (code : string) : refusal := mkRefusal 503 code "".
Definition serverError : refusal := mkRefusal 500 "server_error" "".

Definition serverStatusActive : gostr := str "active".

(** The server the tenant is on, if its row is active, or is placed on now. *)
Definition enrollPlace (ev : enrollEnv) (now : Z) (ident : identity) (alloc : option allocation) (d : cdb)
    : result refusal gostr * cdb :=
  match GetServerVMByTenant (in_TenantID ident) d with
  | Ok (vm, _) =>
      if decide (vm_Status vm = serverStatusActive) then (Ok (vm_DataAddr vm), d)
      else (Err (retryable "server_vm_unavailable"), d)
  | Err SNotFound =>
      match alloc with
      | None => (Err (retryable "server_vm_unavailable"), d)
      | Some a =>
          match Reserve now (ev_registered ev) (default 0 (da_UserID a)) (in_TenantID ident) (da_SizeBytes a) d with
          | (Ok addr, d') => (Ok addr, d')
          | (Err ErrNoCapacity, d') => (Err (retryable "no_capacity"), d')
          | (Err ErrApi, d') =>
              (Err (if ev_quotaFull ev then mkRefusal 507 "account_disk_full" "account disk quota exceeded"
                    else serverError), d')
          | (Err _, d') => (Err serverError, d')
          end
      end
  | Err _ => (Err serverError, d)
  end.

(** A tenant that the authority does not know is bootstrapped first. *)
Definition caGate (ev : enrollEnv) : option refusal :=
  match ev_ca ev with
  | CaNotAllowed => Some (mkRefusal 403 "access_denied" "tenant_not_allowed")
  | CaBootstrapFailed => Some (retryable "tenant_ca_unavailable")
  | _ => None
  end.

Definition scopeRequired : refusal := mkRefusal 403 "access_denied" "agent_scope_required".

(** The agent certificate: the leaf, the token, the enrolment row. *)
Definition enrollMint (ev : enrollEnv) (now : Z) (header : gostr) (ident : identity) (id : uuid)
    (a : allocation) (addr : gostr) (e : edb) : result refusal enrolled * edb :=
  match ev_ca ev with
  | CaNotAllowed | CaBootstrapFailed | CaMintFailed => (Err (retryable "tenant_ca_unavailable"), e)
  | CaParseFailed => (Err serverError, e)
  | CaMinted serial notAfter =>
      let record e :=
        match CreateAgentEnrollment (ev_id ev) (in_UserID ident) serial notAfter (e_db e) with
        | Err _ => (Err serverError, e)
        | Ok d => (Ok (mkEnrolled (in_TenantID ident) (in_UserID ident) (da_AgentID a) serial notAfter addr id
                         (da_SizeBytes a)), set_edb d e)
        end in
      if decide (in_Purpose ident = PurposeAgentEnroll) then
        match ConsumeAgentEnrollToken now header e with
        | (Err _, e') => (Err serverError, e')
        | (Ok false, e') => (Err (mkRefusal 401 "invalid_token" "token_consumed"), e')
        | (Ok true, e') => record e'
        end
      else record e
  end.

Definition handleEnroll (ev : enrollEnv) (now : Z) (header : gostr) (ident : identity) (e : edb)
    : result refusal enrolled * edb :=
  if negb (ev_allowed ev) then (Err (mkRefusal 429 "rate_limited" ""), e)
  else
    match e_tenants e !! in_TenantID ident with
    | None => (Err (mkRefusal 403 "access_denied" "tenant_not_found"), e)
    | Some ten =>
        if tn_suspended ten then (Err (mkRefusal 403 "access_denied" "tenant_suspended"), e)
        else
          let go (alloc : option (uuid * allocation)) :=
            match enrollPlace ev now ident (snd <$> alloc) (e_db e) with
            | (Err r, d) => (Err r, set_edb d e)
            | (Ok addr, d) =>
                match caGate ev, alloc with
                | Some r, _ => (Err r, set_edb d e)
                | None, Some (id, a) =>
                    if decide (da_AgentID a = []) then (Err scopeRequired, set_edb d e)
                    else enrollMint ev now header ident id a addr (set_edb d e)
                | None, None => (Err scopeRequired, set_edb d e)
                end
            end in
          match in_AllocationID ident with
          | None => go None
          | Some id =>
              match allocations (e_db e) !! id with
              | None => (Err serverError, e)
              | Some a =>
                  if negb (of_user (in_UserID ident) a) || negb (live a) then
                    (Err (mkRefusal 403 "access_denied"
                            (if live a then "allocation_not_found" else "allocation_revoked")), e)
                  else go (Some (id, a))
              end
          end
    end.
End service.

(** ** The deny-list of a server *)

(** Serials in their normal form; [None] is the zero time. *)
Abbreviation denylist := (gmap gostr (option Z)).

Definition normalizeSerial (s : gostr) : gostr := ToUpper (TrimSpace s).

Definition denyAdd (serial : gostr) (expiresAt : option Z) (r : denylist) : denylist :=
  if decide (normalizeSerial serial = []) then r else <[normalizeSerial serial := expiresAt]> r.

Definition IsRevoked (now : Z) (serial : gostr) (r : denylist) : bool :=
  if decide (normalizeSerial serial = []) then false
  else match r !! normalizeSerial serial with
       | None => false
       | Some None => true
       | Some (Some exp) => now <? exp
       end.

Definition Prune (now : Z) (r : denylist) : denylist :=
  filter (fun kv => match kv.2 with Some exp => negb (exp <? now) | None => true end = true) r.

(** [PUT /control/cert-revocations] after decoding. *)
Definition pushCertRevocations (now : Z) (revs : list (gostr * option Z)) (r : denylist) : denylist :=
  Prune now (foldl (fun r kv => denyAdd kv.1 kv.2 r) r revs).

(** ** The reconciler of the control plane *)

(** [order by expires_at]. *)
Definition sooner (a b : gostr * Z) : Prop := a.2 <= b.2.

#[export] Instance sooner_dec : RelDecision sooner.
Proof. intros a b. unfold sooner. apply _. Defined.

Definition ListActiveCertRevocations (now : Z) (d : cdb) : list (gostr * Z) :=
  merge_sort sooner ((fun kv => (kv.1, cr_ExpiresAt kv.2)) <$>
    map_to_list (filter (fun kv => now < cr_ExpiresAt kv.2) (revocations d))).

(** One round towards one server; [reached] is whether the push got there. *)
Definition reconcileOnce (now : Z) (reached : bool) (d : cdb) (r : denylist) : denylist :=
  let revs := ListActiveCertRevocations now d in
  if decide (revs = []) then r
  else if reached then pushCertRevocations now ((fun kv => (kv.1, Some kv.2)) <$> revs) r else r.
