(* ===== verification/EnrollProps.v ===== *)
(** * Enrolment and the deny-list keep their promises

    An enrol token yields at most one certificate, an API token none; a revoked
    serial is refused by every server that a round has reached since the server's last
    restart, until the certificate has expired. *)

From S2P Require Import Prelude CtlStore Allocations AllocProps Enroll.

(** ** Consumption *)

Definition spent (h : gostr) (e : edb) : Prop :=
  exists t, e_tokens e !! h = Some t /\ is_Some (at_consumed t).

Definition keeps_spent (e e' : edb) : Prop := forall h, spent h e -> spent h e'.

Lemma keeps_spent_tokens e e' : e_tokens e' = e_tokens e -> keeps_spent e e'.
Proof. intros E h (t & Ht & Hc). exists t. by rewrite E. Qed.

Lemma Create_keeps_spent h t e e' : CreateAccessToken h t e = Ok e' -> keeps_spent e e'.
Proof.
  unfold CreateAccessToken. case_bool_decide as Hn; [done |]. destruct (_ && _ && _); [| done].
  intros [= <-] k (t' & Ht' & Hc). exists t'. simpl. split; [| done].
  rewrite lookup_insert_ne; [done |]. intros <-. destruct Hn. by exists t'.
Qed.

(** A token is spent by the call that finds it unspent. *)
Lemma Consume_true now h e e' :
  ConsumeToken now h e = (true, e') -> ~ spent h e /\ spent h e' /\ keeps_spent e e' /\ e_db e' = e_db e.
Proof.
  unfold ConsumeToken. destruct (e_tokens e !! h) as [t|] eqn:Ht; [| done].
  destruct (_ && _) eqn:Hc; [| done]. apply andb_true_iff in Hc as [_ Hn%bool_decide_eq_true].
  intros [= <-]. split; [intros (t' & Ht' & [x Hx]); simplify_eq; congruence |].
  assert (spent h (set_tokens (<[h := consumed_at now t]> (e_tokens e)) e)) as Hs.
  { exists (consumed_at now t). simpl. rewrite lookup_insert_eq. eauto. }
  split; [done |]. split; [| done]. intros k (t' & Ht' & Hx).
  destruct (decide (h = k)) as [<-|Hne]; [done |]. exists t'. simpl. by rewrite lookup_insert_ne.
Qed.

Lemma Consume_false now h e e' : ConsumeToken now h e = (false, e') -> e' = e.
Proof. unfold ConsumeToken. repeat case_match; naive_solver. Qed.

Section enroll.
Context (sha256 : gostr -> gostr).

(** What a run does with the token: a certificate on an enrol token spends it. *)
Definition token_effect (header : gostr) (ident : identity) (e : edb) (r : result refusal enrolled)
    (e' : edb) : Prop :=
  keeps_spent e e' /\
  (is_ok r = true -> in_Purpose ident = PurposeAgentEnroll ->
    ~ spent (sha256 (BearerToken header)) e /\ spent (sha256 (BearerToken header)) e').

Lemma refused_effect header ident e x d : token_effect header ident e (Err x) (set_edb d e).
Proof. split; [by apply keeps_spent_tokens | done]. Qed.

Lemma set_edb_id e : set_edb (e_db e) e = e.
Proof. by destruct e. Qed.

Lemma refused_same header ident e x : token_effect header ident e (Err x) e.
Proof. split; [by apply keeps_spent_tokens | done]. Qed.

(** The last step of a mint: the enrolment row. *)
Definition record (ev : enrollEnv) (ident : identity) (id : uuid) (a : allocation) (addr serial : gostr)
    (na : Z) (e : edb) : result refusal enrolled * edb :=
  match CreateAgentEnrollment (ev_id ev) (in_UserID ident) serial na (e_db e) with
  | Err _ => (Err serverError, e)
  | Ok d => (Ok (mkEnrolled (in_TenantID ident) (in_UserID ident) (da_AgentID a) serial na addr id
                   (da_SizeBytes a)), set_edb d e)
  end.

Lemma record_keeps ev ident id a addr serial na e r e' :
  record ev ident id a addr serial na e = (r, e') -> e_tokens e' = e_tokens e.
Proof. unfold record. by case_match; intros [= <- <-]. Qed.

(** A mint that gets to the enrolment row. *)
Lemma enrollMint_cases ev now header ident id a addr e r e' :
  enrollMint sha256 ev now header ident id a addr e = (r, e') ->
  (exists x, r = Err x /\ e' = e) \/
  exists serial na e1, ev_ca ev = CaMinted serial na /\ record ev ident id a addr serial na e1 = (r, e') /\
    (in_Purpose ident <> PurposeAgentEnroll /\ e1 = e \/
     in_Purpose ident = PurposeAgentEnroll /\ ConsumeToken now (sha256 (BearerToken header)) e = (true, e1)).
Proof.
  unfold enrollMint. destruct (ev_ca ev) as [| | | |serial na]; [by intros [= <- <-]; eauto .. |].
  fold (record ev ident id a addr serial na). case_decide as Hp.
  - unfold ConsumeAgentEnrollToken. case_decide; [intros [= <- <-]; eauto |].
    destruct (ConsumeToken _ _ e) as [[] e1] eqn:E; intros H1.
    + right. exists serial, na, e1. auto.
    + apply Consume_false in E as ->. injection H1 as <- <-. eauto.
  - intros H1. right. exists serial, na, e. auto.
Qed.

Lemma enrollMint_effect ev now header ident id a addr e r e' :
  enrollMint sha256 ev now header ident id a addr e = (r, e') -> token_effect header ident e r e'.
Proof.
  intros [(x & -> & ->)|(serial & na & e1 & _ & Hr & Hp)]%enrollMint_cases; [apply refused_same |].
  apply record_keeps, keeps_spent_tokens in Hr. destruct Hp as [[Hp ->]|[Hp Hc]].
  - by split.
  - apply Consume_true in Hc as (H1 & H2 & H3 & _). split; [intros h Hh; auto | auto].
Qed.

(** A request that is not refused before the mint. *)
Lemma handleEnroll_cases ev now header ident e r e' :
  handleEnroll sha256 ev now header ident e = (r, e') ->
  (exists x d, r = Err x /\ e' = set_edb d e) \/
  exists id a addr d ten, in_AllocationID ident = Some id /\ allocations (e_db e) !! id = Some a /\
    of_user (in_UserID ident) a = true /\ live a = true /\ da_AgentID a <> [] /\
    e_tenants e !! in_TenantID ident = Some ten /\ tn_suspended ten = false /\
    enrollMint sha256 ev now header ident id a addr (set_edb d e) = (r, e').
Proof.
  assert (forall (x : refusal), (@Err refusal enrolled x, e) = (r, e') ->
    exists x d, r = Err x /\ e' = set_edb d e) as Hsame.
  { intros x [= <- <-]. exists x, (e_db e). by rewrite set_edb_id. }
  unfold handleEnroll. case_match; [intros Hx; left; by eapply Hsame |].
  destruct (e_tenants e !! in_TenantID ident) as [ten|] eqn:Ht; [| intros Hx; left; by eapply Hsame].
  destruct (tn_suspended ten) eqn:Hs; [intros Hx; left; by eapply Hsame |].
  destruct (in_AllocationID ident) as [id|].
  - destruct (allocations (e_db e) !! id) as [a|] eqn:Ha; [| intros Hx; left; by eapply Hsame].
    destruct (negb (of_user (in_UserID ident) a) || negb (live a)) eqn:Hol; [intros Hx; left; by eapply Hsame |].
    apply orb_false_iff in Hol as [Ho%negb_false_iff Hl%negb_false_iff]. simpl.
    destruct (enrollPlace ev now ident (Some a) (e_db e)) as [[addr|x] d]; [| intros [= <- <-]; eauto].
    destruct (caGate ev); [intros [= <- <-]; eauto |].
    case_decide as Hag; [intros [= <- <-]; eauto |]. intros Hm. right. exists id, a, addr, d, ten. auto 10.
  - simpl. destruct (enrollPlace ev now ident None (e_db e)) as [[addr|x] d]; [| intros [= <- <-]; eauto].
    destruct (caGate ev); intros [= <- <-]; eauto.
Qed.

Lemma handleEnroll_effect ev now header ident e r e' :
  handleEnroll sha256 ev now header ident e = (r, e') -> token_effect header ident e r e'.
Proof.
  intros [(x & d & -> & ->)|(id & a & addr & d & ten & _ & _ & _ & _ & _ & _ & _ & Hm)]%handleEnroll_cases.
  - apply refused_effect.
  - by apply enrollMint_effect in Hm.
Qed.
End enroll.

(** ** One certificate per token *)

Section once.
Context (sha256 : gostr -> gostr).

(** Requests of pods, whose identity was established at any time before, between
    the other calls of the service.  The log lists the hashes of the enrol tokens
    on which a certificate was answered. *)
Inductive estep : edb * list gostr -> edb * list gostr -> Prop :=
| es_issue now raw u t al e e' log :
    IssueAgentEnrollToken sha256 now raw u t al e = Ok e' -> estep (e, log) (e', log)
| es_admin now raw u t e e' log :
    IssueAdminSession sha256 now raw u t e = Ok e' -> estep (e, log) (e', log)
| es_auth now header e log :
    estep (e, log) ((RequireEnrollBearer sha256 now header e).2, log)
| es_service e d log : anystep (e_db e) d -> estep (e, log) (set_edb d e, log)
| es_enroll ev now header ident e r e' log :
    handleEnroll sha256 ev now header ident e = (r, e') ->
    estep (e, log)
      (e', if is_ok r && bool_decide (in_Purpose ident = PurposeAgentEnroll)
           then sha256 (BearerToken header) :: log else log).

Definition log_ok (s : edb * list gostr) : Prop := NoDup s.2 /\ Forall (fun h => spent h s.1) s.2.

Lemma log_ok_keeps e e' log : keeps_spent e e' -> log_ok (e, log) -> log_ok (e', log).
Proof. intros K [Hn Hf]. split; [done |]. eapply Forall_impl; [done |]. exact K. Qed.

Lemma bearer_keeps now header e : keeps_spent e (RequireEnrollBearer sha256 now header e).2.
Proof. apply keeps_spent_tokens. unfold RequireEnrollBearer. by repeat case_match. Qed.

Lemma estep_log s s' : estep s s' -> log_ok s -> log_ok s'.
Proof.
  intros S. destruct S as [? ? ? ? ? e e' log H|? ? ? ? e e' log H|now header e log|e d log H|ev now header ident e r e' log H].
  - eapply log_ok_keeps, Create_keeps_spent, H.
  - eapply log_ok_keeps, Create_keeps_spent, H.
  - apply log_ok_keeps, bearer_keeps.
  - apply log_ok_keeps. by apply keeps_spent_tokens.
  - apply handleEnroll_effect in H as [K Hs]. intros L.
    destruct (is_ok r) eqn:Hr; simpl; [| by apply (log_ok_keeps e)].
    case_bool_decide as Hp; [| by apply (log_ok_keeps e)].
    destruct (Hs eq_refl Hp) as [Hno Hyes]. apply (log_ok_keeps e e' log K) in L as L'.
    destruct L as [Hn Hf], L' as [_ Hf']. split; simpl.
    + apply NoDup_cons. split; [| done]. intros Hin. apply Hno. rewrite Forall_forall in Hf. by apply Hf.
    + by constructor.
Qed.

(** C12: an enrol token yields at most one certificate, however many requests
    race with it, whenever they were authenticated, and whatever else the service
    does in between. *)
Theorem enroll_token_once e e' log : rtc estep (e, []) (e', log) -> NoDup log.
Proof.
  intros S. enough (log_ok (e', log)) as [Hn _] by done.
  assert (log_ok (e, [])) as L0 by (split; constructor). revert L0.
  induction S as [|s1 s2 s3 S1 _ IH]; [done |]. intros L. apply IH. by eapply estep_log.
Qed.

(** ** Who gets a certificate *)

Lemma authenticate_Ok now raw p e i :
  authenticateRaw sha256 now raw p e = Ok i ->
  exists t, e_tokens e !! sha256 raw = Some t /\ at_Purpose t = p /\ at_revoked t = None /\
    at_consumed t = None /\ now <= at_ExpiresAt t /\ at_UserID t ∉ e_suspended e /\
    i = mkIdent (at_UserID t) (at_TenantID t) (at_Purpose t) (at_AllocationID t).
Proof.
  unfold authenticateRaw. case_decide; [done |]. destruct (e_tokens e !! sha256 raw) as [t|]; [| done].
  destruct (users _ !! _); [| done]. destruct (e_tenants _ !! _) as [ten|]; [| done].
  case_decide as Hp; [done |].
  case_bool_decide as Hr; [done |]. case_bool_decide as Hc; [done |].
  destruct (Z.ltb_spec (at_ExpiresAt t) now); [done |]. case_bool_decide; [done |]. case_match; [done |].
  intros [= <-]. exists t. apply eq_None_not_Some in Hr, Hc. auto 10.
Qed.

(** An API token yields no certificate, in any state. *)
Lemma api_token_no_certificate ev now now' header e i e1 e2 c e3 :
  take (length tokenPrefix) (BearerToken header) = tokenPrefix ->
  RequireEnrollBearer sha256 now header e = (Ok i, e1) -> handleEnroll sha256 ev now' header i e2 <> (Ok c, e3).
Proof.
  intros Hp Hb [(x & d & ? & _)|(id & a & addr & d & ten & Hid & _)]%handleEnroll_cases; [done |].
  unfold RequireEnrollBearer in Hb. rewrite bool_decide_true in Hb by done.
  repeat case_match; try done; injection Hb as <- _; done.
Qed.
End once.

(** ** The deny-list converges *)

(** The list refuses the normal form [k] at least until [exp]. *)
Definition denies (k : gostr) (exp : Z) (r : denylist) : Prop :=
  exists x, r !! k = Some x /\ match x with Some y => exp <= y | None => True end.

Definition pushAll (l : list (gostr * Z)) (r : denylist) : denylist :=
  foldl (fun r kv => denyAdd kv.1 kv.2 r) r ((fun kv => (kv.1, Some kv.2)) <$> l).

(** Pushes that end later do not shorten an entry. *)
Lemma pushAll_keeps k exp l r :
  Forall (fun kv => normalizeSerial kv.1 = k -> exp <= kv.2) l -> denies k exp r -> denies k exp (pushAll l r).
Proof.
  unfold pushAll. revert r. induction l as [|[s y] l IH]; intros r Hf D; [done |].
  apply Forall_cons in Hf as [Hy Hf]. simpl in *. apply IH; [done |]. unfold denyAdd.
  case_decide; [done |]. destruct (decide (normalizeSerial s = k)) as [E|Hne].
  - exists (Some y). rewrite E, lookup_insert_eq. split; [done | by apply Hy].
  - destruct D as (x & Hx & Hge). exists x. by rewrite lookup_insert_ne.
Qed.

Lemma pushAll_denies k exp l r s :
  StronglySorted sooner l -> (s, exp) ∈ l -> normalizeSerial s = k -> k <> [] -> denies k exp (pushAll l r).
Proof.
  intros Hs Hin Hk Hne. apply list_elem_of_split in Hin as (l1 & l2 & ->).
  unfold pushAll. rewrite fmap_app, foldl_app, fmap_cons. simpl. apply pushAll_keeps.
  - apply StronglySorted_app_1_r in Hs. apply StronglySorted_inv in Hs as [_ Hall].
    eapply Forall_impl; [exact Hall |]. intros [s' y] Hle _. exact Hle.
  - exists (Some exp). unfold denyAdd. rewrite decide_False by congruence.
    rewrite Hk, lookup_insert_eq. done.
Qed.

Lemma Prune_denies now k exp r : now <= exp -> denies k exp r -> denies k exp (Prune now r).
Proof.
  intros Hn (x & Hx & Hge). exists x. split; [| done]. apply map_lookup_filter_Some. split; [done |].
  simpl. destruct x as [y|]; [| done]. apply negb_true_iff. lia.
Qed.

#[local] Instance sooner_trans : Transitive sooner.
Proof. intros a b c. unfold sooner. lia. Qed.
#[local] Instance sooner_total : Total sooner.
Proof. intros a b. unfold sooner. lia. Qed.

Lemma active_sorted now d : StronglySorted sooner (ListActiveCertRevocations now d).
Proof. apply StronglySorted_merge_sort; apply _. Qed.

Lemma active_elem now d s v :
  revocations d !! s = Some v -> now < cr_ExpiresAt v -> (s, cr_ExpiresAt v) ∈ ListActiveCertRevocations now d.
Proof.
  intros Hs Hv. unfold ListActiveCertRevocations. rewrite merge_sort_Permutation.
  apply list_elem_of_fmap. exists (s, v). split; [done |].
  by apply elem_of_map_to_list, map_lookup_filter_Some.
Qed.

(** A round reaches the server, or leaves its list. *)
Lemma reconcile_denies now reached d r s v :
  revocations d !! s = Some v -> now < cr_ExpiresAt v -> normalizeSerial s <> [] ->
  reached = true \/ denies (normalizeSerial s) (cr_ExpiresAt v) r ->
  denies (normalizeSerial s) (cr_ExpiresAt v) (reconcileOnce now reached d r).
Proof.
  intros Hs Hv Hne Hr. pose proof (active_elem now d s v Hs Hv) as Hin. unfold reconcileOnce.
  case_decide as E; [rewrite E in Hin; by apply not_elem_of_nil in Hin |].
  destruct reached; [| by destruct Hr].
  apply Prune_denies; [lia |]. eapply pushAll_denies; [apply active_sorted | done | done | done].
Qed.

(** What happens to the list of one server: the rounds of the reconciler, each with the
    tables as they are then, and restarts of the server, which begin with an empty list. *)
Inductive denyEvent :=
| Round (now : Z) (reached : bool) (d : cdb)
| Restart.

Definition denyStep (r : denylist) (ev : denyEvent) : denylist :=
  match ev with Round now reached d => reconcileOnce now reached d r | Restart => ∅ end.
Definition denyRun (l : list denyEvent) (r : denylist) : denylist := foldl denyStep r l.

(** Whether a round has reached the server since its last restart. *)
Definition reachedSince (l : list denyEvent) : bool :=
  foldl (fun b ev => match ev with Round _ reached _ => b || reached | Restart => false end) false l.

Lemma denyRun_denies l r d s v :
  revocations d !! s = Some v -> normalizeSerial s <> [] ->
  Forall (fun ev => match ev with Round now _ d' => rtc anystep d d' /\ now < cr_ExpiresAt v | Restart => True end) l ->
  reachedSince l = true -> denies (normalizeSerial s) (cr_ExpiresAt v) (denyRun l r).
Proof.
  intros Hs Hne. induction l as [|ev l IH] using rev_ind; [done |].
  unfold denyRun, reachedSince. rewrite !foldl_app, Forall_app, Forall_singleton. intros [Hf Hev] Hr.
  destruct ev as [now reached d'|]; [| done]. simpl in *. destruct Hev as [Hsteps Hnow].
  apply reconcile_denies; [| done | done |].
  - eapply lookup_weaken; [done |]. apply steps_grow, Hsteps.
  - apply orb_true_iff in Hr as [Hr| ->]; [right; by apply IH | by left].
Qed.

(** C14: A revoked certificate is refused.  Once the control plane has recorded a serial, a
    server that some later round has reached since the server's last restart (a restarted
    server begins with an empty list, see [restarted_server_accepts]) refuses the serial
    under any spelling with the same normal form until the certificate has expired,
    whatever was on its list before, whatever the service does between the rounds, and
    whether or not the other rounds get through. *)
Theorem revoked_serial_denied d s v l r now s' :
  revocations d !! s = Some v -> normalizeSerial s <> [] ->
  Forall (fun ev => match ev with Round now _ d' => rtc anystep d d' /\ now < cr_ExpiresAt v | Restart => True end) l ->
  reachedSince l = true ->
  normalizeSerial s' = normalizeSerial s -> now < cr_ExpiresAt v ->
  IsRevoked now s' (denyRun l r) = true.
Proof.
  intros Hs Hne Hf Hex E Hnow. destruct (denyRun_denies l r d s v) as (x & Hx & Hge); auto.
  unfold IsRevoked. rewrite E, decide_False, Hx by done. destruct x as [y|]; [lia | done].
Qed.

(** ** Witnesses *)

Module EnrollExample.
Definition tok : gostr := str "secret".
Definition header : gostr := str "bearer secret ".
Definition ident : identity := mkIdent 1 (str "ten") PurposeAgentEnroll (Some 21).
Definition db : edb :=
  mkE (set_server_vms {[ str "ten" := mkVM (str "h:1") serverStatusActive ]} AllocExample.db)
    {[ tok := mkTok PurposeAgentEnroll 1 (str "ten") (Some 21) 100 None None ]} ∅
    {[ str "ten" := mkTenant (str "n") false ]} ∅.
Definition env : enrollEnv := mkEnv true true false (CaMinted (str "0A") 500) 77.
Definition cert : enrolled := mkEnrolled (str "ten") 1 (str "ag") (str "0A") 500 (str "h:1") 21 5.
Definition after : edb := (handleEnroll id env 20 header ident db).2.

(** A serial that was revoked and a round that reaches the server. *)
Definition revokedDb : cdb := set_revocations {[ str "0a" := mkRevocation (str "ten") 500 "lease_released" ]} AllocExample.db.
End EnrollExample.

(** The token of the example gives a certificate and then none. *)
Lemma enroll_token_once_witness :
  rtc (estep id) (EnrollExample.db, [])
    (EnrollExample.after, [EnrollExample.tok]) /\ NoDup [EnrollExample.tok] /\
  (handleEnroll id EnrollExample.env 21 EnrollExample.header EnrollExample.ident EnrollExample.after).1
    = Err (mkRefusal 401 "invalid_token" "token_consumed").
Proof.
  assert (rtc (estep id) (EnrollExample.db, []) (EnrollExample.after, [EnrollExample.tok])) as S.
  { apply rtc_once.
    exact (es_enroll id EnrollExample.env 20 EnrollExample.header EnrollExample.ident EnrollExample.db
             (Ok EnrollExample.cert) EnrollExample.after [] eq_refl). }
  split; [exact S |]. split; [exact (enroll_token_once id _ _ _ S) | by vm_compute].
Defined.

(** The serial is recorded in lower case and asked for in upper case; the server was
    restarted, then reached once. *)
Lemma revoked_serial_denied_witness :
  IsRevoked 40 (str " 0A")
    (denyRun [Round 10 true EnrollExample.revokedDb; Restart; Round 20 true EnrollExample.revokedDb;
              Round 30 false EnrollExample.revokedDb] ∅) = true.
Proof.
  apply (revoked_serial_denied EnrollExample.revokedDb (str "0a") (mkRevocation (str "ten") 500 "lease_released"));
    [by vm_compute | by vm_compute | | by vm_compute | by vm_compute | by vm_compute].
  repeat constructor.
Defined.

(** Between a restart and the next round the serial is not refused. *)
Example restarted_server_accepts :
  IsRevoked 40 (str " 0A") (denyRun [Round 10 true EnrollExample.revokedDb; Restart] ∅) = false.
Proof. by vm_compute. Qed.
