(* ===== verification/Provision.v ===== *)
(** * Provisioning of agents

    orlop-control/entity_handlers.go: the service API that gives an agent its
    disk, resizes it, re-homes it to another owner, mints its enrol token and
    deletes it; storage/sqlite/provisioning.go: the statements behind it.
    purge_sweep_handlers.go: the sweep that retries the erasure of deleted disks.

    The tables are those of Enroll.v.  A handler maps the tables to its answer and
    the tables it leaves; a decoded body is [None] when it is malformed.  The
    parsing of ids is that of the uuid library; the answers of the server's admin
    API are arguments.  Log lines are left out, as is the e-mail address of a user
    row, which is made from its id. *)

From S2P Require Import Prelude GoPath Codec CtlStore Allocations Enroll.

(** ** Text *)

Definition uuidBytes (u : uuid) : list Z :=
  (fun i => (u / 2 ^ (8 * (15 - i))) mod 256) <$> seqZ 0 16.

(** ["%x-%x-%x-%x-%x"] of the sixteen bytes. *)
Definition uuidString (u : uuid) : gostr :=
  let b := uuidBytes u in
  hex_encode (take 4 b) ++ str "-" ++ hex_encode (take 2 (drop 4 b)) ++ str "-"
    ++ hex_encode (take 2 (drop 6 b)) ++ str "-" ++ hex_encode (take 2 (drop 8 b)) ++ str "-"
    ++ hex_encode (drop 10 b).

(** [path.Join]: leading empty elements are skipped. *)
Fixpoint pathJoin (elems : list gostr) : gostr :=
  match elems with
  | [] => []
  | [] :: elems' => pathJoin elems'
  | _ => Clean (join_slash elems)
  end.

Definition defaultMountPrefix : gostr := str "/mnt/orlop".

(** [None] is the error. *)
Definition normalizeMountPrefix (prefix : gostr) : option gostr :=
  let p := TrimSpace prefix in
  if decide (p = []) then Some defaultMountPrefix
  else if rooted p then Some (Clean p) else None.

Definition agentVirtualPath (mountPrefix agentID : gostr) : gostr :=
  pathJoin [mountPrefix; str "agents"; agentID].

Definition tenantIDForOwner (ownerID : gostr) : gostr := str "u_" ++ ownerID.
Definition tenantForAgent (agentID : gostr) : gostr := str "a_" ++ agentID.

(** ** Statements *)

Definition eop (A : Type) : Type := edb -> result serr (A * edb).

(** A statement on the tables of CtlStore.v. *)
Definition on_db {A} (o : sop A) : eop A := fun e =>
  match o (e_db e) with Ok (x, d) => Ok (x, set_edb d e) | Err s => Err s end.

Definition set_tenants t (e : edb) : edb := mkE (e_db e) (e_tokens e) (e_api e) t (e_suspended e).
Definition set_users x d := mkCdb (allocations d) x (enrollments d) (revocations d) (server_vms d) (server_pool d) (reservations d).

(** [on conflict do nothing]. *)
Definition EnsureTenant (id name : gostr) : eop unit := fun e =>
  Ok (tt, match e_tenants e !! id with
          | Some _ => e
          | None => set_tenants (<[id := mkTenant name false]> (e_tenants e)) e
          end).

Definition defaultQuotaBytes : Z := 10737418240.

Definition EnsureUserWithID (id : uuid) (tenant : gostr) : eop unit := fun e =>
  match users (e_db e) !! id with
  | Some _ => Ok (tt, e)
  | None =>
      if bool_decide (is_Some (e_tenants e !! tenant))
      then Ok (tt, set_edb (set_users (<[id := mkUser tenant defaultQuotaBytes]> (users (e_db e))) (e_db e)) e)
      else Err SConstraint
  end.

(** [agent_id = ? and revoked_at is null]; a row without an agent matches no
    argument. *)
Definition live_agent (agent : gostr) (a : allocation) : bool :=
  bool_decide (da_AgentID a = agent) && bool_decide (agent <> []) && live a.

(** The row of the partial unique index. *)
Definition live_row (agent : gostr) (d : cdb) : option (uuid * allocation) :=
  head (filter (fun ka => live_agent agent ka.2 = true) (map_to_list (allocations d))).

Definition GetAllocationByAgent (agent : gostr) : sop (uuid * allocation) := read (live_row agent).

Definition with_user (u : uuid) (a : allocation) : allocation :=
  mkDA (Some u) (da_TenantID a) (da_AgentID a) (da_SizeBytes a) (da_CreatedAt a)
    (da_RevokedAt a) (da_PurgedAt a) (da_BoundAgentID a) (da_BoundAt a) (da_LeaseExpiresAt a) (da_token a).

(** [insert ... on conflict(agent_id) where revoked_at is null do update set
    user_id]: the CHECK, then the keys, then the foreign keys. *)
Definition UpsertAgentAllocation (now : Z) (fresh u : uuid) (agent tenant : gostr) (size : Z)
    : eop (uuid * allocation) := fun e =>
  let d := e_db e in
  if size <=? 0 then Err SConstraint
  else if bool_decide (is_Some (allocations d !! fresh)) then Err SAlreadyExists
  else if negb (bool_decide (is_Some (users d !! u))) then Err SConstraint
  else
    match live_row agent d with
    | Some (id, a) =>
        Ok ((id, with_user u a), set_edb (set_allocations (<[id := with_user u a]> (allocations d)) d) e)
    | None =>
        if bool_decide (is_Some (e_tenants e !! tenant)) then
          let a := mkDA (Some u) tenant agent size now None None None None None None in
          Ok ((fresh, a), set_edb (set_allocations (<[fresh := a]> (allocations d)) d) e)
        else Err SConstraint
    end.

(** No matching row is no error. *)
Definition ReassignAgentAllocation (agent : gostr) (newUser : uuid) : sop unit := fun d =>
  match live_row agent d with
  | None => Ok (tt, d)
  | Some _ =>
      if bool_decide (is_Some (users d !! newUser))
      then Ok (tt, set_allocations ((fun a => if live_agent agent a then with_user newUser a else a)
                                      <$> allocations d) d)
      else Err SConstraint
  end.

(** [order by created_at desc]. *)
Definition newer (x y : uuid * allocation) : Prop := da_CreatedAt y.2 <= da_CreatedAt x.2.

#[export] Instance newer_dec : RelDecision newer.
Proof. intros x y. unfold newer. apply _. Defined.

Definition ListAllocationsForUser (u : uuid) (d : cdb) : list (uuid * allocation) :=
  merge_sort newer (map_to_list (active_of u d)).

(** [revoked_at is not null and purged_at is null and agent_id is not null],
    joined with the owner. *)
Definition purge_pending (d : cdb) (a : allocation) : bool :=
  negb (live a) && bool_decide (da_PurgedAt a = None) && bool_decide (da_AgentID a <> [])
  && match da_UserID a with Some u => bool_decide (is_Some (users d !! u)) | None => false end.

(** [order by revoked_at]. *)
Definition revoked_first (x y : uuid * allocation) : Prop :=
  default 0 (da_RevokedAt x.2) <= default 0 (da_RevokedAt y.2).

#[export] Instance revoked_first_dec : RelDecision revoked_first.
Proof. intros x y. unfold revoked_first. apply _. Defined.

Definition pending_rows (d : cdb) : list (uuid * allocation) :=
  map_to_list (filter (fun ka => purge_pending d ka.2 = true) (allocations d)).

Definition ListPurgePendingAllocations (limit : Z) (d : cdb) : list (uuid * gostr) :=
  (fun ka => (ka.1, da_AgentID ka.2)) <$> take (Z.to_nat limit) (merge_sort revoked_first (pending_rows d)).

(** ** Handlers *)

Definition hdl (A : Type) : Type := edb -> result refusal A * edb.

Definition deny {A} (r : refusal) : hdl A := fun e => (Err r, e).
Definition reply {A} (x : A) : hdl A := fun e => (Ok x, e).

(** A statement whose error is answered with [onErr]. *)
Definition run {A B} (o : eop A) (onErr : serr -> refusal) (k : A -> hdl B) : hdl B := fun e =>
  match o e with Ok (x, e') => k x e' | Err s => (Err (onErr s), e) end.

(** A call of the allocation service. *)
Definition call {A B} (s : svc A) (k : result aerr A -> hdl B) : hdl B := fun e =>
  let '(r, d) := s (e_db e) in k r (set_edb d e).

Definition badRequest (desc : string) : refusal := mkRefusal 400 "invalid_request" desc.
Definition notFound : refusal := mkRefusal 404 "not_found" "".
Definition internal (_ : serr) : refusal := serverError.
Definition notFoundOr500 (s : serr) : refusal :=
  match s with SNotFound => notFound | _ => serverError end.

Definition EntityTypeAgent : gostr := str "agent".

Definition quoted (s : string) : string := String (ascii_of_N 34) (s ++ String (ascii_of_N 34) "")%string.

Record provisionEntityRequest := mkProvision {
  pr_EntityType : gostr; pr_EntityID : gostr; pr_OwnerID : gostr; pr_GrantBytes : Z; pr_QuotaBytes : Z }.

Definition grant (req : provisionEntityRequest) : Z :=
  if 0 <? pr_GrantBytes req then pr_GrantBytes req else pr_QuotaBytes req.

Record entityResponse := mkEntity { rp_Handle : gostr; rp_VirtualPath : gostr }.

(** The configuration of the handlers; [eh_purge]: whether the server's admin
    API is configured. *)
Record entityHandlers := mkHandlers { eh_initialGrantBytes : Z; eh_mountPrefix : gostr; eh_purge : bool }.

Definition agentDiskInitialGrantBytes : Z := 1024 * 1024 * 1024.

Definition newEntityHandlers (initialGrantBytes : Z) (mountPrefix : gostr) (purge : bool) : entityHandlers :=
  mkHandlers (if initialGrantBytes <=? 0 then agentDiskInitialGrantBytes else initialGrantBytes)
    (if decide (mountPrefix = []) then defaultMountPrefix else mountPrefix) purge.

Definition serviceTokenRefused : refusal := mkRefusal 401 "invalid_token" "".

(** The middleware before every handler of this file. *)
Definition RequireServiceToken {A} (expected header : gostr) (next : hdl A) : hdl A :=
  if decide (expected = []) then deny serviceTokenRefused
  else if decide (BearerToken header <> expected) then deny serviceTokenRefused
  else next.

Definition entityOf (h : entityHandlers) (id : uuid) (agentID : gostr) : entityResponse :=
  mkEntity (uuidString id) (agentVirtualPath (eh_mountPrefix h) agentID).

(** The checks of the URL parameters. *)
Definition agentParam {A} (type id : gostr) (k : hdl A) : hdl A :=
  if decide (type <> EntityTypeAgent) then deny (badRequest ("type must be " ++ quoted "agent"))
  else if decide (id = []) then deny (badRequest "id is required") else k.

Definition handleResolve (h : entityHandlers) (type id : gostr) : hdl entityResponse :=
  agentParam type id (
    run (on_db (GetAllocationByAgent id)) notFoundOr500 (fun row => reply (entityOf h row.1 id))).

(** [resized]: the answer of the server to the resize. *)
Definition handleSetQuota (h : entityHandlers) (resized : bool) (type id : gostr)
    (body : option provisionEntityRequest) : hdl entityResponse :=
  agentParam type id (
    match body with
    | None => deny (badRequest "malformed body")
    | Some req =>
        if grant req <=? 0 then deny (badRequest "grant_bytes must be > 0")
        else
          run (on_db (GetAllocationByAgent id)) notFoundOr500 (fun row =>
            call (Resize resized row.1 (default 0 (da_UserID row.2)) (grant req)) (fun r =>
              match r with
              | Ok _ => reply (entityOf h row.1 id)
              | Err ErrNotFound => deny notFound
              | Err ErrNoCapacity =>
                  deny (mkRefusal 409 "insufficient_capacity" "no server capacity to grow the disk")
              | Err _ => deny serverError
              end))
    end).

(** What follows the lookup of a delete: the revocation of the row that was read, which
    names the owner that was read, then the erasure. *)
Definition deleteRow (h : entityHandlers) (now : Z) (unregistered erased : bool) (row : uuid * allocation)
    : hdl unit := fun e =>
  let purge e' :=
    if eh_purge h then call (PurgeAllocation now unregistered erased row.1) (fun _ => reply tt) e'
    else (Ok tt, e') in
  match on_db (RevokeAllocation now row.1 (default 0 (da_UserID row.2))) e with
  | Ok (_, e') => purge e'
  | Err SNotFound => purge e
  | Err _ => (Err serverError, e)
  end.

(** Deleting an unknown agent succeeds; so does a delete whose erasure fails,
    which the sweep retries. *)
Definition handleDelete (h : entityHandlers) (now : Z) (unregistered erased : bool) (type id : gostr)
    : hdl unit :=
  agentParam type id (fun e =>
    match on_db (GetAllocationByAgent id) e with
    | Err SNotFound => (Ok tt, e)
    | Err _ => (Err serverError, e)
    | Ok (row, _) => deleteRow h now unregistered erased row e
    end).

(** ** The purge sweep *)

Record purgeSweepResponse := mkSweep { sw_Pending : Z; sw_Purged : Z; sw_Failed : Z }.

(** What happens around one row: whether the request was cancelled before it, and
    the answers of the server. *)
Record rowEnv := mkRowEnv { re_now : Z; re_cancelled : bool; re_unregistered : bool; re_erased : bool }.

Fixpoint sweepLoop (env : uuid -> rowEnv) (rows : list (uuid * gostr)) (resp : purgeSweepResponse) (d : cdb)
    : purgeSweepResponse * cdb :=
  match rows with
  | [] => (resp, d)
  | (id, _) :: rows' =>
      if re_cancelled (env id) then (resp, d)
      else
        match PurgeAllocation (re_now (env id)) (re_unregistered (env id)) (re_erased (env id)) id d with
        | (Err _, d') => sweepLoop env rows' (mkSweep (sw_Pending resp) (sw_Purged resp) (sw_Failed resp + 1)) d'
        | (Ok _, d') => sweepLoop env rows' (mkSweep (sw_Pending resp) (sw_Purged resp + 1) (sw_Failed resp)) d'
        end
  end.

(** [None]: no admin API is configured. *)
Definition sweep (api : bool) (env : uuid -> rowEnv) (limit : Z) (d : cdb)
    : option purgeSweepResponse * cdb :=
  if negb api then (None, d)
  else
    let rows := ListPurgePendingAllocations limit d in
    let '(resp, d') := sweepLoop env rows (mkSweep (Z.of_nat (length rows)) 0 0) d in (Some resp, d').

Definition purgeSweepDefaultLimit : Z := 100.
Definition purgeSweepMaxLimit : Z := 500.

(** [limit]: the query parameter, absent, or parsed by [strconv.ParseInt] with
    32 bits, which may fail. *)
Definition handleSweep (api : bool) (env : uuid -> rowEnv) (limit : option (option Z))
    : hdl purgeSweepResponse := fun e =>
  if negb api then deny (mkRefusal 503 "server_error" "no data-plane admin client configured") e
  else
    let go n :=
      match sweep api env n (e_db e) with
      | (None, d) => (Err serverError, set_edb d e)
      | (Some resp, d) => (Ok resp, set_edb d e)
      end in
    match limit with
    | None => go purgeSweepDefaultLimit
    | Some None => deny (badRequest "limit must be a positive integer") e
    | Some (Some n) =>
        if n <=? 0 then deny (badRequest "limit must be a positive integer") e
        else go (Z.min n purgeSweepMaxLimit)
    end.

(** Where the ops listener of a tenant's server is; [Ok None]: not placed. *)
Definition resolveTenantOpsAddr (tenant : gostr) (d : cdb) : result serr (option gostr) :=
  match GetServerVMByTenant tenant d with
  | Err SNotFound => Ok None
  | Err s => Err s
  | Ok (vm, _) =>
      match GetServerPoolByDataAddr (vm_DataAddr vm) d with
      | Ok (sp, _) => Ok (Some (ps_OpsAddr sp.2))
      | Err s => Err s
      end
  end.

(** The new size on the rows of a listing, one statement after the other. *)
Fixpoint restamp {A} (rows : list (uuid * allocation)) (n : Z) (k : hdl A) : hdl A :=
  match rows with
  | [] => k
  | (id, a) :: rows' =>
      run (on_db (UpdateAllocationSize id (default 0 (da_UserID a)) n)) internal (fun _ => restamp rows' n k)
  end.

(** The servers on which the quota of the owner is set, one call for each; their
    failures are only logged. *)
Definition quotaServers (ownerTenant : gostr) (rows : list (uuid * allocation)) (d : cdb) : gset gostr :=
  list_to_set (omap (fun ka =>
    let tenant := if decide (da_TenantID ka.2 <> []) then da_TenantID ka.2 else ownerTenant in
    match resolveTenantOpsAddr tenant d with Ok o => o | Err _ => None end) rows).

(** The answer, with the servers that were called for the owner's tenant. *)
Record budgetResponse := mkBudget {
  bg_owner : gostr; bg_bytes : Z; bg_tenant : gostr; bg_servers : gset gostr }.

(** ** Handlers that parse an id *)

Record enrollTokenResponse := mkTokenResponse { tr_Token : gostr; tr_ExpiresAt : Z }.

Section handlers.
(** [uuid.Parse] and the hash of the tokens. *)
Context (uuidParse : gostr -> option uuid) (sha256 : gostr -> gostr).

(** The tenant and the user of an owner. *)
Definition ensureOwner {A} (owner : uuid) (ownerID : gostr) (k : hdl A) : hdl A :=
  run (EnsureTenant (tenantIDForOwner ownerID) (tenantIDForOwner ownerID)) internal (fun _ =>
    run (EnsureUserWithID owner (tenantIDForOwner ownerID)) internal (fun _ => k)).

(** [fresh]: the id drawn for a new row. *)
Definition handleProvision (h : entityHandlers) (now : Z) (fresh : uuid)
    (body : option provisionEntityRequest) : hdl entityResponse :=
  match body with
  | None => deny (badRequest "malformed body")
  | Some req =>
      if decide (pr_EntityType req <> EntityTypeAgent)
      then deny (badRequest ("entity_type must be " ++ quoted "agent"))
      else if decide (pr_EntityID req = [] \/ pr_OwnerID req = [])
      then deny (badRequest "entity_id and owner_id are required")
      else
        match uuidParse (pr_OwnerID req) with
        | None => deny (badRequest "owner_id must be a uuid")
        | Some owner =>
            let agentTenant := tenantForAgent (pr_EntityID req) in
            let size := if grant req <=? 0 then eh_initialGrantBytes h else grant req in
            ensureOwner owner (pr_OwnerID req) (
              run (EnsureTenant agentTenant agentTenant) internal (fun _ =>
                run (UpsertAgentAllocation now fresh owner (pr_EntityID req) agentTenant size) internal
                  (fun row => reply (entityOf h row.1 (pr_EntityID req)))))
        end
  end.

(** [raw]: the random token; [None] when none could be drawn. *)
Definition handleEnrollToken (now : Z) (raw : option gostr) (agentID : gostr) : hdl enrollTokenResponse :=
  if decide (agentID = []) then deny (badRequest "id is required")
  else
    run (on_db (GetAllocationByAgent agentID)) notFoundOr500 (fun row =>
      let owner := default 0 (da_UserID row.2) in
      run (on_db (GetUser owner)) internal (fun us =>
        let tenant := if decide (da_TenantID row.2 <> []) then da_TenantID row.2 else us_TenantID us in
        match raw with
        | None => deny serverError
        | Some token =>
            run (fun e => match IssueAgentEnrollToken sha256 now token owner tenant (Some row.1) e with
                          | Ok e' => Ok (tt, e')
                          | Err s => Err s
                          end) internal
              (fun _ => reply (mkTokenResponse token (now + AgentEnrollTokenTTL)))
        end)).

Definition handleReassign (type id : gostr) (body : option gostr) : hdl unit :=
  agentParam type id (
    match body with
    | None => deny (badRequest "malformed body")
    | Some ownerID =>
        match uuidParse ownerID with
        | None => deny (badRequest "owner_id must be a uuid")
        | Some newOwner =>
            ensureOwner newOwner ownerID (
              run (on_db (ReassignAgentAllocation id newOwner)) internal reply)
        end
    end).

(** [setter]: whether the admin client can set the quota of an account. *)
Definition handleSetAccountBudget (setter : bool) (owner : gostr) (body : option Z) : hdl budgetResponse :=
  match uuidParse owner with
  | None => deny (badRequest "owner must be a uuid")
  | Some u =>
      match body with
      | None => deny (badRequest "malformed body")
      | Some n =>
          if n <=? 0 then deny (badRequest "disk_bytes must be > 0")
          else fun e =>
            let allocs := ListAllocationsForUser u (e_db e) in
            call (ResizeOwnerCapacity u n) (fun r =>
              match r with
              | Err ErrNoCapacity => deny (mkRefusal 503 "no_capacity" "")
              | Err _ => deny serverError
              | Ok _ =>
                  restamp allocs n (fun e' =>
                    (Ok (mkBudget owner n (tenantIDForOwner owner)
                           (if setter then quotaServers (tenantIDForOwner owner) allocs (e_db e') else ∅)), e'))
              end) e
      end
  end.
End handlers.
