(* ===== verification/Mounts.v ===== *)
(** * Mount leases, dashboard and usage over HTTP

    orlop-control/control_mount_handlers.go: a pod takes, refreshes and releases
    the mount lease of its disk with its certificate; the owner ends it from the
    dashboard.  dashboard_handlers.go: the owner's view, revocation and the fence
    that follows; tenant_usage_handlers.go: the metering of an owner.  main.go:
    the adapters that find the server of a tenant.

    A handler that calls a server carries the call in its answer: the address of
    the server, the tenant and the allocation.  The probe of a mount session and
    the usage of a tenant are answers of the server, [None] an error. *)

From S2P Require Import Prelude GoPath CtlStore Allocations Enroll Provision.

(** ** Statements *)

(** [lower(cert_serial) = lower(?)]. *)
Definition same_serial (fp : gostr) (r : enrollment) : bool :=
  bool_decide (lower <$> er_CertSerial r = lower <$> fp).

Definition GetEnrollmentByFingerprint (fp : gostr) : sop (uuid * enrollment) :=
  read (fun d => head (filter (fun kr => same_serial fp kr.2 = true) (map_to_list (enrollments d)))).

Definition GetActiveEnrollmentByFingerprint (now : Z) (fp : gostr) : sop (uuid * enrollment) :=
  read (fun d => head (filter (fun kr => (same_serial fp kr.2 && (now <? er_CertNotAfter kr.2)) = true)
                         (map_to_list (enrollments d)))).

(** ** The request of a pod *)

Record mountLeaseRequest := mkMountReq { mq_AgentFingerprint : gostr; mq_LeaseToken : gostr; mq_Force : bool }.

(** The id of the URL, the body (an empty one is the zero record, [None] is
    invalid), the header of the clients that know tokens, and the serial of the
    client certificate in hexadecimal. *)
Record mountCall := mkCall {
  mc_id : gostr; mc_body : option mountLeaseRequest; mc_header : gostr; mc_cert : option gostr }.

Definition agentFingerprintFromRequest (c : mountCall) : result string (gostr * bool * gostr * bool) :=
  match mc_body c with
  | None => Err "invalid json body"%string
  | Some body =>
      let leaseToken := TrimSpace (mq_LeaseToken body) in
      if (256 <? length leaseToken)%nat then Err "lease_token is too long"%string
      else
        let supports := bool_decide (mc_header c = str "1") || bool_decide (leaseToken <> []) in
        let bodyFP := TrimSpace (mq_AgentFingerprint body) in
        let certFP := match mc_cert c with Some s => ToUpper s | None => [] end in
        if bool_decide (bodyFP <> []) && bool_decide (certFP <> [])
           && negb (bool_decide (ToUpper bodyFP = ToUpper certFP))
        then Err "agent_fingerprint does not match client certificate"%string
        else Ok (if decide (certFP <> []) then certFP else bodyFP, mq_Force body, leaseToken, supports)
  end.

Record mountRequest := mkMount {
  mt_alloc : uuid; mt_agent : uuid; mt_force : bool; mt_token : gostr; mt_supports : bool }.

(** ** Errors *)

Inductive leaseRefusal :=
| Refused (r : refusal)
| LeaseLive (boundAt : option Z) (leaseExpiresAt : Z).      (* 409 lease_live *)

Definition writeLeaseError (e : aerr) : leaseRefusal :=
  match e with
  | LeaseLiveError boundAt exp => LeaseLive boundAt exp
  | ErrAlreadyMounted | ErrWrongAgent => Refused (mkRefusal 409 "already_mounted" "")
  | ErrRevoked => Refused (mkRefusal 410 "revoked" "")
  | ErrLeaseLost => Refused (mkRefusal 410 "lease_lost" "")
  | ErrNotFound => Refused notFound
  | _ => Refused serverError
  end.

Definition writeAllocOwnershipError (e : aerr) : refusal :=
  match e with
  | ErrNotFound | ErrWrongUser => notFound
  | ErrRevoked => mkRefusal 410 "revoked" ""
  | _ => serverError
  end.

(** ** Sessions on the data plane *)

(** A call of the server's admin API: its ops address, the tenant, the
    allocation. *)
Abbreviation fenceCall := (gostr * gostr * gostr)%type.

(** The liveness probe; [None] of the option: no client is configured. *)
Abbreviation prober := (option (gostr -> gostr -> gostr -> option bool)).

(** [serverapiMountLeaseFencer]. *)
Definition FenceAllocation (tenant allocationID : gostr) (d : cdb) : option fenceCall :=
  match resolveTenantOpsAddr tenant d with
  | Ok (Some ops) => Some (ops, tenant, allocationID)
  | _ => None
  end.

Definition MountSessionLive (probe : gostr -> gostr -> gostr -> option bool) (tenant allocationID : gostr)
    (d : cdb) : option bool :=
  match resolveTenantOpsAddr tenant d with
  | Err _ => None
  | Ok None => Some true
  | Ok (Some ops) => probe ops tenant allocationID
  end.

(** The owner of a disk; both lookups may fail. *)
Definition ownerOf (id : uuid) (d : cdb) : option user :=
  a ← allocations d !! id; users d !! default 0 (da_UserID a).

Definition fenceAllocationBestEffort (fencer : prober) (id : uuid) (d : cdb) : option fenceCall :=
  match fencer with
  | None => None
  | Some _ => us ← ownerOf id d; FenceAllocation (us_TenantID us) (uuidString id) d
  end.

Definition deadHolder (fencer : prober) (id : uuid) (d : cdb) : bool :=
  match fencer with
  | None => false
  | Some probe =>
      match ownerOf id d with
      | None => false
      | Some us =>
          match MountSessionLive probe (us_TenantID us) (uuidString id) d with
          | Some live => negb live
          | None => false
          end
      end
  end.

(** ** Handlers *)

Definition mhdl (A : Type) : Type := edb -> result leaseRefusal A * edb.

Record acquireResponse := mkAcquired {
  aq_lease_id : gostr; aq_expires_at : Z; aq_lease_token : option gostr; aq_fence : option fenceCall }.
Record refreshResponse := mkRefreshed { rf_expires_at : Z; rf_lease_token : option gostr }.

Section handlers.
(** [pgtype.UUID.Scan], the hash of the access tokens, and the encoded SHA-256 of
    a lease token. *)
Context (parseUUIDParam : gostr -> option uuid) (sha256 sha256b64 : gostr -> gostr).

Definition hashMountLeaseToken (token : gostr) : gostr :=
  if decide (token = []) then [] else sha256b64 token.

(** [drawn]: the encoded random bytes; [None] when the source fails. *)
Definition newMountLeaseToken (drawn : option gostr) : option (gostr * gostr) :=
  token ← drawn; Some (token, hashMountLeaseToken token).

Definition resolveMountRequest (now : Z) (c : mountCall) (e : edb) : result refusal mountRequest :=
  match parseUUIDParam (mc_id c) with
  | None => Err (badRequest "id must be a uuid")
  | Some allocID =>
      match agentFingerprintFromRequest c with
      | Err msg => Err (badRequest msg)
      | Ok (fp, force, leaseToken, supports) =>
          if decide (fp = [])
          then Err (mkRefusal 401 "invalid_client" "agent certificate or agent_fingerprint is required")
          else
            match GetActiveEnrollmentByFingerprint now fp (e_db e) with
            | Err SNotFound =>
                match GetEnrollmentByFingerprint fp (e_db e) with
                | Ok _ => Err (mkRefusal 401 "expired_client" "")
                | Err SNotFound => Err (mkRefusal 401 "invalid_client" "")
                | Err _ => Err serverError
                end
            | Err _ => Err serverError
            | Ok ((agentID, agent), _) =>
                match GetAllocation allocID (e_db e) with
                | Err s => Err (notFoundOr500 s)
                | Ok (a, _) =>
                    if negb (default 0 (da_UserID a) =? er_UserID agent) || bool_decide (da_AgentID a = [])
                    then Err (mkRefusal 403 "access_denied" "")
                    else Ok (mkMount allocID agentID force leaseToken supports)
                end
            end
      end
  end.

(** A call of the service that keeps the other tables. *)
Definition on_svc {A} (s : svc A) (e : edb) : result aerr A * edb :=
  let '(r, d) := s (e_db e) in (r, set_edb d e).

(** A token is drawn for the clients that know them. *)
Definition drawIf (b : bool) (drawn : option gostr) : option (gostr * gostr) :=
  if b then newMountLeaseToken drawn else Some ([], []).

Definition nonempty (s : gostr) : option gostr := if decide (s = []) then None else Some s.

Definition handleAcquireMount (now now' ttl : Z) (fencer : prober) (drawn : option gostr) (c : mountCall)
    : mhdl acquireResponse := fun e =>
  match resolveMountRequest now c e with
  | Err r => (Err (Refused r), e)
  | Ok m =>
      match drawIf (mt_supports m) drawn with
      | None => (Err (Refused serverError), e)
      | Some (token, hash) =>
          let acquire t force := on_svc (AcquireMountLeaseWithToken t ttl (mt_alloc m) (mt_agent m) force hash) in
          let done r :=
            match r with
            | (Err x, e') => (Err (writeLeaseError x), e')
            | (Ok a, e') =>
                (Ok (mkAcquired (uuidString (mt_alloc m)) (default 0 (da_LeaseExpiresAt a)) (nonempty token)
                       (fenceAllocationBestEffort fencer (mt_alloc m) (e_db e'))), e')
            end in
          match acquire now (mt_force m) e with
          | (Err (LeaseLiveError b x), e') =>
              if negb (mt_force m) && deadHolder fencer (mt_alloc m) (e_db e')
              then done (acquire now' true e') else done (Err (LeaseLiveError b x), e')
          | r => done r
          end
      end
  end.

Definition handleRefreshMount (now ttl : Z) (drawn : option gostr) (c : mountCall) : mhdl refreshResponse := fun e =>
  match resolveMountRequest now c e with
  | Err r => (Err (Refused r), e)
  | Ok m =>
      match drawIf (mt_supports m && bool_decide (mt_token m = [])) drawn with
      | None => (Err (Refused serverError), e)
      | Some (issued, issuedHash) =>
          match on_svc (RefreshMountLeaseWithToken now ttl (mt_alloc m) (mt_agent m)
                          (hashMountLeaseToken (mt_token m)) issuedHash) e with
          | (Err x, e') => (Err (writeLeaseError x), e')
          | (Ok a, e') => (Ok (mkRefreshed (default 0 (da_LeaseExpiresAt a)) (nonempty issued)), e')
          end
      end
  end.

Definition handleReleaseMount (now : Z) (fencer : prober) (c : mountCall) : hdl (option fenceCall) := fun e =>
  match resolveMountRequest now c e with
  | Err r => (Err r, e)
  | Ok m =>
      match on_svc (ReleaseMountLeaseWithToken (mt_alloc m) (mt_agent m) (hashMountLeaseToken (mt_token m))) e with
      | (Err ErrNotFound, e') => (Err notFound, e')
      | (Err ErrWrongAgent, e') => (Err (mkRefusal 409 "wrong_agent" ""), e')
      | (Err _, e') => (Err serverError, e')
      | (Ok _, e') => (Ok (fenceAllocationBestEffort fencer (mt_alloc m) (e_db e')), e')
      end
  end.

(** ** The dashboard *)

(** [cookie]: the value of the admin-session cookie. *)
Definition adminIdentity {A} (now : Z) (cookie : option gostr) (k : identity -> hdl A) : hdl A := fun e =>
  let denied := (Err (mkRefusal 401 "invalid_token" ""), e) in
  match cookie with
  | None => denied
  | Some raw =>
      match authenticateRaw sha256 now raw PurposeAdmin e with
      | Err _ => denied
      | Ok ident => k ident e
      end
  end.

Definition allocParam {A} (id : gostr) (k : uuid -> hdl A) : hdl A :=
  match parseUUIDParam id with
  | None => deny (badRequest "id must be a uuid")
  | Some u => k u
  end.

(** A call of the owner followed by the fence. *)
Definition ownerCall (fencer : prober) (s : svc unit) (id : uuid) : hdl (option fenceCall) :=
  call s (fun r => match r with
    | Err x => deny (writeAllocOwnershipError x)
    | Ok _ => fun e => (Ok (fenceAllocationBestEffort fencer id (e_db e)), e)
    end).

Definition handleOwnerUnmount (now : Z) (fencer : prober) (cookie : option gostr) (id : gostr)
    : hdl (option fenceCall) :=
  adminIdentity now cookie (fun ident =>
    allocParam id (fun u => ownerCall fencer (ForceRelease u (in_UserID ident)) u)).

Definition handleRevokeAllocation (now : Z) (fencer : prober) (cookie : option gostr) (id : gostr)
    : hdl (option fenceCall) :=
  adminIdentity now cookie (fun ident =>
    allocParam id (fun u => ownerCall fencer (Revoke now u (in_UserID ident)) u)).

(** The e-mail address is left out. *)
Record meResponse := mkMe {
  me_user_id : gostr; me_tenant_id : gostr; me_purpose : purpose; me_quota_bytes : Z; me_used_bytes : Z }.

Definition handleMe (now : Z) (cookie : option gostr) : hdl meResponse :=
  adminIdentity now cookie (fun ident =>
    run (on_db (GetUser (in_UserID ident))) internal (fun us =>
      run (on_db (get (SumActiveAllocationBytes (in_UserID ident)))) internal (fun used =>
        reply (mkMe (uuidString (in_UserID ident)) (in_TenantID ident) (in_Purpose ident)
                 (us_QuotaBytes us) used)))).

(** [ad_mounted]: the holder and the end of its lease; without it the disk is
    idle. *)
Record allocationDTO := mkDTO {
  ad_ID : gostr; ad_SizeBytes : Z; ad_CreatedAt : Z; ad_mounted : option (gostr * Z) }.

Definition shortAgentID (u : uuid) : gostr := take 8 (uuidString u).

Definition allocationView (now ttl : Z) (ka : uuid * allocation) : allocationDTO :=
  let '(id, a) := ka in
  mkDTO (uuidString id) (da_SizeBytes a) (da_CreatedAt a)
    match da_BoundAgentID a, da_LeaseExpiresAt a with
    | Some g, Some t => if now + ttl `quot` 2 <? t then Some (shortAgentID g, t) else None
    | _, _ => None
    end.

Definition handleListAllocations (now ttl : Z) (cookie : option gostr) : hdl (list allocationDTO) :=
  adminIdentity now cookie (fun ident =>
    run (on_db (get (ListAllocationsForUser (in_UserID ident)))) internal (fun rows =>
      reply (allocationView now ttl <$> rows))).

Record allocationUsageDTO := mkUsage { ud_AllocationID : gostr; ud_UsedBytes : Z; ud_SizeBytes : Z }.

(** What the server reports as used by a tenant; the first [None]: no client. *)
Abbreviation meter := (option (gostr -> gostr -> option Z)).

Definition handleAllocationUsage (now : Z) (usage : meter) (cookie : option gostr) (id : gostr)
    : hdl allocationUsageDTO :=
  adminIdentity now cookie (fun ident =>
    match usage with
    | None => deny (mkRefusal 503 "usage_unavailable" "")
    | Some GetTenantUsage =>
        allocParam id (fun u =>
          call (GetForUser u (in_UserID ident)) (fun r =>
            match r with
            | Err x => deny (writeAllocOwnershipError x)
            | Ok a =>
                run (on_db (GetUser (in_UserID ident))) internal (fun us e =>
                  match resolveTenantOpsAddr (us_TenantID us) (e_db e) with
                  | Err _ => (Err serverError, e)
                  | Ok None => (Ok (mkUsage (uuidString u) 0 (da_SizeBytes a)), e)
                  | Ok (Some ops) =>
                      match GetTenantUsage ops (us_TenantID us) with
                      | None => (Err (mkRefusal 502 "usage_failed" ""), e)
                      | Some used => (Ok (mkUsage (uuidString u) used (da_SizeBytes a)), e)
                      end
                  end)
            end))
    end).

(** ** The metering of an owner *)

Record tenantUsageDTO := mkTenantUsage { tu_OwnerID : gostr; tu_UsedBytes : Z; tu_Partial : bool }.

(** The tenants of the owner's disks. *)
Definition ownerTenants (us : user) (rows : list (uuid * allocation)) : gset gostr :=
  list_to_set ((fun ka => tenantOf us ka.2) <$> rows).

(** The loop over the tenants: the bytes, the placed tenants and those that
    failed; [None] is the abort on a database error. *)
Fixpoint meterLoop (usage : gostr -> gostr -> option Z) (tenants : list gostr) (acc : Z * Z * Z) (d : cdb)
    : option (Z * Z * Z) :=
  match tenants with
  | [] => Some acc
  | t :: tenants' =>
      match resolveTenantOpsAddr t d with
      | Err _ => None
      | Ok None => meterLoop usage tenants' acc d
      | Ok (Some ops) =>
          let '(total, placed, failed) := acc in
          match usage ops t with
          | None => meterLoop usage tenants' (total, placed + 1, failed + 1) d
          | Some n => meterLoop usage tenants' (i64 (total + n), placed + 1, failed) d
          end
      end
  end.

Definition handleTenantUsage (usage : meter) (owner : gostr) : hdl tenantUsageDTO :=
  match usage with
  | None => deny (mkRefusal 503 "usage_unavailable" "")
  | Some GetTenantUsage =>
      match parseUUIDParam owner with
      | None => deny (badRequest "owner must be a uuid")
      | Some u => fun e =>
          match users (e_db e) !! u with
          | None => (Ok (mkTenantUsage (uuidString u) 0 false), e)
          | Some us =>
              let tenants := ownerTenants us (ListAllocationsForUser u (e_db e)) in
              match meterLoop GetTenantUsage (elements tenants) (0, 0, 0) (e_db e) with
              | None => (Err serverError, e)
              | Some (total, placed, failed) =>
                  if (0 <? placed) && (failed =? placed) then (Err (mkRefusal 502 "usage_failed" ""), e)
                  else (Ok (mkTenantUsage (uuidString u) total (0 <? failed)), e)
              end
          end
      end
  end.
End handlers.
