(* ===== verification/ProvisionProps.v ===== *)
(** * The life of an agent's disk

    From provisioning over enrolment and mounting to deletion and erasure, under
    any interleaving of the statements of concurrent requests: one live disk per
    agent in a tenant of its own, idempotent provisioning, certificates that name the
    disk of their token with its agent, owner and tenant, and final deletion. *)

From S2P Require Import Prelude GoPath Codec CtlStore Allocations AllocProps Enroll EnrollProps Provision Mounts.

(** ** Rows of an agent *)

Lemma live_agent_true g a :
  live_agent g a = true <-> da_AgentID a = g /\ g <> [] /\ live a = true.
Proof. unfold live_agent. rewrite !andb_true_iff, !bool_decide_eq_true. tauto. Qed.

Lemma head_filter_Some {A} (P : A -> Prop) `{!forall x, Decision (P x)} l x :
  head (filter P l) = Some x -> x ∈ l /\ P x.
Proof.
  intros Hh. destruct (filter P l) as [|y k] eqn:E; [done |]. injection Hh as ->.
  assert (x ∈ filter P l) as [? ?]%list_elem_of_filter by (rewrite E; by left). done.
Qed.

Lemma head_filter_None {A} (P : A -> Prop) `{!forall x, Decision (P x)} l x :
  head (filter P l) = None -> x ∈ l -> ~ P x.
Proof.
  intros Hh Hin HP. destruct (filter P l) as [|y k] eqn:E; [| done].
  assert (x ∈ filter P l) as Hx by (by apply list_elem_of_filter). rewrite E in Hx. by apply not_elem_of_nil in Hx.
Qed.

(** The only row that qualifies is the one that is found. *)
Lemma head_filter_unique `{Countable K} {A} (P : K * A -> Prop) `{!forall x, Decision (P x)} (m : gmap K A) k x :
  m !! k = Some x -> P (k, x) -> (forall k' x', m !! k' = Some x' -> P (k', x') -> k' = k) ->
  head (filter P (map_to_list m)) = Some (k, x).
Proof.
  intros Hx HP U. destruct (head (filter P (map_to_list m))) as [[k' x']|] eqn:E.
  - apply head_filter_Some in E as [Hin%elem_of_map_to_list HP']. assert (k' = k) as -> by eauto. congruence.
  - exfalso. eapply head_filter_None; [exact E | by apply elem_of_map_to_list | done].
Qed.

Lemma live_row_Some g d id a :
  live_row g d = Some (id, a) -> allocations d !! id = Some a /\ live_agent g a = true.
Proof. intros [Hin%elem_of_map_to_list ?]%head_filter_Some. done. Qed.

Lemma live_row_None g d id a :
  live_row g d = None -> allocations d !! id = Some a -> live_agent g a = false.
Proof.
  intros H Ha. apply not_true_iff_false. intros Hl.
  eapply (head_filter_None _ _ (id, a) H); [by apply elem_of_map_to_list | done].
Qed.

(** ** Well-formed tables *)

Record wf (e : edb) : Prop := {
  wf_one g i1 i2 a1 a2 : allocations (e_db e) !! i1 = Some a1 -> allocations (e_db e) !! i2 = Some a2 ->
    live_agent g a1 = true -> live_agent g a2 = true -> i1 = i2;
  wf_tenant id a : allocations (e_db e) !! id = Some a -> da_AgentID a <> [] ->
    da_TenantID a = tenantForAgent (da_AgentID a) /\ is_Some (e_tenants e !! da_TenantID a);
  wf_owner id a : allocations (e_db e) !! id = Some a -> da_AgentID a <> [] ->
    exists u, da_UserID a = Some u /\ is_Some (users (e_db e) !! u);
  wf_users u us : users (e_db e) !! u = Some us -> is_Some (e_tenants e !! us_TenantID us);
  wf_rows : rows_ok (e_db e) }.

Lemma live_row_unique e g id a :
  wf e -> allocations (e_db e) !! id = Some a -> live_agent g a = true -> live_row g (e_db e) = Some (id, a).
Proof.
  intros W Ha Hl. apply head_filter_unique; [done | done |]. intros k x Hx Hlx. by eapply (wf_one e W g).
Qed.

(** Every row of the new tables is a changed old one that kept agent and tenant,
    or carries no agent; a revoked row stays revoked and its owner stays. *)
Record row_kept (a a' : allocation) : Prop := {
  rk_agent : (da_TenantID a', da_AgentID a') = (da_TenantID a, da_AgentID a);
  rk_revoked t : da_RevokedAt a = Some t -> da_RevokedAt a' = Some t /\ da_UserID a' = da_UserID a }.

Lemma advances_kept a a' : advances a a' -> row_kept a a'.
Proof. intros [O R _ _ _]. split; [congruence |]. intros t Ht. split; [auto | congruence]. Qed.

Lemma row_kept_live a a' : row_kept a a' -> live a' = true -> live a = true.
Proof.
  intros [_ R] Hl. apply bool_decide_eq_true in Hl. apply bool_decide_eq_true.
  destruct (da_RevokedAt a) as [t|]; [| done]. by destruct (R t eq_refl) as [? _]; congruence.
Qed.

Lemma row_kept_live_agent g a a' : row_kept a a' -> live_agent g a' = true -> live_agent g a = true.
Proof.
  intros K. rewrite !live_agent_true. intros (<- & Hg & Hl). pose proof (rk_agent _ _ K) as [= _ Ea].
  split; [done |]. split; [done |]. eapply row_kept_live; [exact K | done].
Qed.

#[export] Instance row_kept_preorder : PreOrder row_kept.
Proof.
  split.
  - intros a. by split.
  - intros a b c [E1 R1] [E2 R2]. split; [congruence |]. intros t Ht.
    destruct (R1 t Ht) as [H1 E]. destruct (R2 t H1) as [H2 E']. split; [done | congruence].
Qed.

(** ** Steps

    The statements and transactions that concurrent requests interleave.  The
    tables of tokens take any value: nothing here depends on them. *)

Inductive pstep (e : edb) : edb -> Prop :=
| ps_service d : anystep (e_db e) d -> pstep e (set_edb d e)
| ps_revoke now id u x e' : on_db (RevokeAllocation now id u) e = Ok (x, e') -> pstep e e'
| ps_size id u n x e' : on_db (UpdateAllocationSize id u n) e = Ok (x, e') -> pstep e e'
| ps_tenant id name x e' : EnsureTenant id name e = Ok (x, e') -> pstep e e'
| ps_user id t x e' : EnsureUserWithID id t e = Ok (x, e') -> pstep e e'
| ps_upsert now fresh u g n x e' :
    g <> [] -> UpsertAgentAllocation now fresh u g (tenantForAgent g) n e = Ok (x, e') -> pstep e e'
| ps_reassign g u x e' : on_db (ReassignAgentAllocation g u) e = Ok (x, e') -> pstep e e'
| ps_enrollment id u s na d : CreateAgentEnrollment id u s na (e_db e) = Ok d -> pstep e (set_edb d e)
| ps_tokens t api : pstep e (mkE (e_db e) t api (e_tenants e) (e_suspended e)).

(** What a step keeps. *)
Record holds_on (e e' : edb) : Prop := {
  ho_rows id a : allocations (e_db e) !! id = Some a ->
    exists a', allocations (e_db e') !! id = Some a' /\ row_kept a a';
  ho_users : users (e_db e) ⊆ users (e_db e');
  ho_tenants : e_tenants e ⊆ e_tenants e' }.

#[export] Instance holds_on_preorder : PreOrder holds_on.
Proof.
  split.
  - intros e. split; [intros id a Ha; by exists a | done | done].
  - intros e1 e2 e3 [R1 U1 T1] [R2 U2 T2]. split; [| by transitivity (users (e_db e2)) | by transitivity (e_tenants e2)].
    intros id a (b & Hb & K1)%R1. destruct (R2 id b Hb) as (c & Hc & K2). exists c. split; [done | by transitivity b].
Qed.

Lemma grows_holds e d : grows (e_db e) d -> holds_on e (set_edb d e).
Proof.
  intros (G & _ & _ & [= EU _] & _). split; simpl; [| by rewrite EU | done].
  intros id a (a' & Ha' & A)%G. exists a'. split; [done | by apply advances_kept].
Qed.

Lemma on_db_Ok {A} (o : sop A) e x e' :
  on_db o e = Ok (x, e') -> exists d, o (e_db e) = Ok (x, d) /\ e' = set_edb d e.
Proof. unfold on_db. destruct (o (e_db e)) as [[y d]|s]; [| done]. intros [= <- <-]. eauto. Qed.

Lemma anystep_grows d d' : anystep d d' -> grows d d'.
Proof. intros S. by apply steps_grow, rtc_once. Qed.

(** Statements on one row that keep its history are steps of the service's kind. *)
Lemma revoke_grows now id u d x d' : RevokeAllocation now id u d = Ok (x, d') -> grows d d'.
Proof. intros H. eapply (update_alloc_kept id _ _ d x d'); [| exact H]. intros a _. apply advances_revoked. Qed.

Lemma with_user_kept u a : live a = true -> row_kept a (with_user u a).
Proof. intros Hl%bool_decide_eq_true. split; [done |]. intros t Ht. congruence. Qed.

(** ** The invariant is kept *)

(** A state whose rows are changed old ones, or agentless, or the new row of an
    agent that had none. *)
Lemma wf_step e e' :
  wf e -> holds_on e e' -> rows_ok (e_db e') ->
  (forall u us, users (e_db e') !! u = Some us -> is_Some (e_tenants e' !! us_TenantID us)) ->
  (forall id a', allocations (e_db e') !! id = Some a' -> da_AgentID a' <> [] ->
    (exists u, da_UserID a' = Some u /\ is_Some (users (e_db e') !! u)) /\
    (is_Some (allocations (e_db e) !! id) \/
     live_row (da_AgentID a') (e_db e) = None /\ da_TenantID a' = tenantForAgent (da_AgentID a') /\
     is_Some (e_tenants e' !! da_TenantID a') /\
     (forall i b, i <> id -> allocations (e_db e') !! i = Some b -> is_Some (allocations (e_db e) !! i)))) ->
  wf e'.
Proof.
  intros W [R U T] Hs Hu Hn.
  assert (forall id a', allocations (e_db e') !! id = Some a' -> is_Some (allocations (e_db e) !! id) ->
            exists a, allocations (e_db e) !! id = Some a /\ row_kept a a') as Hold.
  { intros id a' Ha' [a Ha]. destruct (R id a Ha) as (b & Hb & K). exists a. split; [done |]. by simplify_eq. }
  split; [| | | exact Hu | exact Hs].
  - intros g i1 i2 a1 a2 H1 H2 L1 L2. pose proof (proj1 (live_agent_true _ _) L1) as (E1 & Hg & _).
    pose proof (proj1 (live_agent_true _ _) L2) as (E2 & _ & _).
    destruct (Hn i1 a1 H1) as [_ C1]; [congruence |]. destruct (Hn i2 a2 H2) as [_ C2]; [congruence |].
    destruct (decide (i1 = i2)) as [|Hne]; [done | exfalso].
    assert (forall i a, allocations (e_db e') !! i = Some a -> live_agent g a = true ->
              is_Some (allocations (e_db e) !! i) -> live_row g (e_db e) <> None) as Hno.
    { intros i a Hi Hl Ho Hnone. destruct (Hold i a Hi Ho) as (b & Hb & K).
      pose proof (live_row_None g _ i b Hnone Hb) as Hf. by rewrite (row_kept_live_agent g b a K Hl) in Hf. }
    destruct C1 as [O1|(N1 & _ & _ & X1)], C2 as [O2|(N2 & _ & _ & X2)].
    + destruct (Hold i1 a1 H1 O1) as (b1 & Hb1 & K1), (Hold i2 a2 H2 O2) as (b2 & Hb2 & K2).
      apply Hne, (wf_one e W g i1 i2 b1 b2); eauto using row_kept_live_agent.
    + rewrite E2 in N2. by eapply (Hno i1 a1).
    + rewrite E1 in N1. by eapply (Hno i2 a2).
    + rewrite E1 in N1. eapply (Hno i2 a2); [done | done | by eapply X1 | done].
  - intros id a' Ha' Hne. destruct (Hn id a' Ha' Hne) as [_ [O|(_ & ? & ? & _)]]; [| done].
    destruct (Hold id a' Ha' O) as (b & Hb & [[= Et Ea] _]). destruct (wf_tenant e W id b Hb) as [E1 E2]; [congruence |].
    rewrite Et, Ea. split; [done |]. destruct E2 as [x Hx]. exists x. by eapply lookup_weaken.
  - intros id a' Ha' Hne. by destruct (Hn id a' Ha' Hne) as [? _].
Qed.

Lemma wf_grows e d : wf e -> grows (e_db e) d -> wf (set_edb d e).
Proof.
  intros W G. pose proof (grows_holds e d G) as Ho. destruct G as (G & _ & N & [= EU _] & Hs).
  apply (wf_step e); [done | done | apply Hs, W | simpl; rewrite EU; apply W |].
  intros id a' Ha' Hne. simpl in *. destruct (allocations (e_db e) !! id) as [a|] eqn:Ha; [| by destruct Hne; eapply N].
  split; [| left; by exists a]. destruct (G id a Ha) as (b & Hb & [O _ _ _ _]). rewrite Ha' in Hb. injection Hb as <-.
  injection O as O1 O2 O3 _. rewrite EU. destruct (wf_owner e W id a Ha) as (u & Hu & ?); [congruence |].
  exists u. split; [congruence | done].
Qed.

(** Rows change their owner only; the users and the tenants stay. *)
Lemma wf_rehome e (P : uuid -> bool) u :
  wf e -> is_Some (users (e_db e) !! u) ->
  (forall id a, allocations (e_db e) !! id = Some a -> P id = true -> live a = true) ->
  let d := set_allocations (map_imap (fun id a => Some (if P id then with_user u a else a)) (allocations (e_db e))) (e_db e) in
  holds_on e (set_edb d e) /\ wf (set_edb d e).
Proof.
  intros W Hu HP d.
  assert (forall id, allocations d !! id = (fun a => if P id then with_user u a else a) <$> allocations (e_db e) !! id) as Hl.
  { intros id. simpl. rewrite map_lookup_imap. by destruct (allocations (e_db e) !! id). }
  assert (holds_on e (set_edb d e)) as Ho.
  { split; [| done | done]. intros id a Ha. simpl in *. rewrite Hl, Ha. simpl. eexists. split; [done |].
    destruct (P id) eqn:E; [| done]. by eapply with_user_kept, HP. }
  split; [done |]. apply (wf_step e); [done | done | | apply W |].
  - intros id a Ha. simpl in Ha. rewrite Hl in Ha. apply fmap_Some in Ha as (b & Hb & ->).
    pose proof (wf_rows e W id b Hb). by destruct (P id).
  - intros id a Ha Hne. change (allocations d !! id = Some a) in Ha. rewrite Hl in Ha.
    apply fmap_Some in Ha as (b & Hb & ->). split; [| left; by exists b].
    destruct (P id); [by exists u |]. by eapply (wf_owner e W).
Qed.

(** Setting a field of one row, or of the rows of one agent, as such a change. *)
Lemma rehome_insert (m : gmap uuid allocation) id a u :
  m !! id = Some a ->
  <[id := with_user u a]> m = map_imap (fun i b => Some (if bool_decide (i = id) then with_user u b else b)) m.
Proof.
  intros Ha. apply map_eq. intros i. rewrite map_lookup_imap. destruct (decide (i = id)) as [->|Hne].
  - rewrite lookup_insert_eq, Ha. simpl. by rewrite bool_decide_true.
  - rewrite lookup_insert_ne by done. destruct (m !! i); simpl; [| done]. by rewrite bool_decide_false.
Qed.

Lemma rehome_agent (m : gmap uuid allocation) g u :
  (fun a => if live_agent g a then with_user u a else a) <$> m =
  map_imap (fun i b => Some (if default false (live_agent g <$> m !! i) then with_user u b else b)) m.
Proof. apply map_eq. intros i. rewrite map_lookup_imap, lookup_fmap. by destruct (m !! i). Qed.

Lemma Upsert_ok e now fresh u g n x e' :
  wf e -> g <> [] -> UpsertAgentAllocation now fresh u g (tenantForAgent g) n e = Ok (x, e') ->
  holds_on e e' /\ wf e'.
Proof.
  intros W Hg. unfold UpsertAgentAllocation. destruct (Z.leb_spec n 0); [done |].
  case_bool_decide as Hf; [done |]. case_bool_decide as Hu; [| done]. simpl.
  destruct (live_row g (e_db e)) as [[id a]|] eqn:Hr.
  - intros [= _ <-]. apply live_row_Some in Hr as [Ha (_ & _ & Hl)%live_agent_true].
    rewrite (rehome_insert _ _ _ _ Ha). apply wf_rehome; [done | done |].
    intros i b Hb Hi%bool_decide_eq_true. subst i. by simplify_eq.
  - case_bool_decide as Ht; [| done]. intros [= _ <-].
    apply eq_None_not_Some in Hf.
    assert (forall i b, allocations (e_db e) !! i = Some b -> i <> fresh) as Hne by (intros i b Hb ->; congruence).
    set (e' := set_edb _ _). assert (holds_on e e') as Ho.
    { split; [| done | done]. intros i b Hb. exists b. simpl. rewrite lookup_insert_ne; [done |].
      apply not_eq_sym. by eapply Hne. }
    split; [done |]. apply (wf_step e); [done | done | | apply W |].
    + apply map_Forall_insert_2; [| apply W]. unfold alloc_row_ok. simpl. by replace (0 <? n) with true by lia.
    + simpl. intros i b [[<- <-]|[Hi Hb]]%lookup_insert_Some Hne'; simpl in *.
      * split; [by exists u |]. right. split; [done |]. split; [done |]. split; [done |].
        intros j b Hj Hb. rewrite lookup_insert_ne in Hb by done. by exists b.
      * split; [by eapply (wf_owner e W) | left; by exists b].
Qed.

Lemma Reassign_ok e g u x e' :
  wf e -> on_db (ReassignAgentAllocation g u) e = Ok (x, e') -> holds_on e e' /\ wf e'.
Proof.
  intros W (d & H & ->)%on_db_Ok. unfold ReassignAgentAllocation in H.
  destruct (live_row g (e_db e)) as [[id a]|] eqn:Hr.
  - case_bool_decide as Hu; [| done]. injection H as _ <-. rewrite rehome_agent. apply wf_rehome; [done | done |].
    intros i b Hb Hi. rewrite Hb in Hi. simpl in Hi. by apply live_agent_true in Hi as (_ & _ & ?).
  - injection H as _ <-. by rewrite set_edb_id.
Qed.

Lemma Tenant_ok e id name x e' : wf e -> EnsureTenant id name e = Ok (x, e') -> holds_on e e' /\ wf e'.
Proof.
  intros W [= _ <-]. destruct (e_tenants e !! id) as [t|] eqn:Ht; [done |].
  set (e' := set_tenants _ _). assert (e_tenants e ⊆ e_tenants e') as Hsub by (by apply insert_subseteq).
  split; [split; [intros i a Ha; by exists a | done | done] |].
  assert (forall t, is_Some (e_tenants e !! t) -> is_Some (e_tenants e' !! t)) as Hs.
  { intros t [y Hy]. exists y. by eapply lookup_weaken. }
  split; [apply W | | apply W | | apply W].
  - intros i a Ha Hne. destruct (wf_tenant e W i a Ha Hne). auto.
  - intros u us Hu. by apply Hs, (wf_users e W u).
Qed.

Lemma User_ok e id t x e' : wf e -> EnsureUserWithID id t e = Ok (x, e') -> holds_on e e' /\ wf e'.
Proof.
  intros W. unfold EnsureUserWithID. destruct (users (e_db e) !! id) as [us|] eqn:Hu; [by intros [= _ <-] |].
  case_bool_decide as Ht; [| done]. intros [= _ <-]. set (e' := set_edb _ _).
  assert (users (e_db e) ⊆ users (e_db e')) as Hsub by (by apply insert_subseteq).
  split; [split; [intros i a Ha; by exists a | done | done] |].
  split; [apply W | apply W | | | apply W].
  - intros i a Ha Hne. destruct (wf_owner e W i a Ha Hne) as (u & E & [y Hy]). exists u. split; [done |].
    exists y. by eapply lookup_weaken.
  - simpl. intros u us [[<- <-]|[_ Hus]]%lookup_insert_Some; [done |]. by apply (wf_users e W u).
Qed.

Lemma pstep_ok e e' : wf e -> pstep e e' -> holds_on e e' /\ wf e'.
Proof.
  intros W S. destruct S as [d H|now id u x e' H|id u n x e' H|id name x e' H|id t x e' H|now fresh u g n x e' Hg H
    |g u x e' H|id u s na d H|t api].
  - apply anystep_grows in H. split; [by apply grows_holds | by apply wf_grows].
  - apply on_db_Ok in H as (d & H%revoke_grows & ->). split; [by apply grows_holds | by apply wf_grows].
  - apply on_db_Ok in H as (d & H%UpdateSize_grows & ->). split; [by apply grows_holds | by apply wf_grows].
  - by eapply Tenant_ok.
  - by eapply User_ok.
  - by eapply Upsert_ok.
  - by eapply Reassign_ok.
  - unfold CreateAgentEnrollment in H. case_bool_decide; [done |]. case_bool_decide; [| done].
    injection H as <-. split; [split; [intros i a Ha; by exists a | done | done] |].
    split; [apply W | apply W | apply W | apply W |]. intros i a Ha. pose proof (wf_rows e W i a Ha) as Hok.
    unfold alloc_row_ok in *. simpl in *. destruct (da_BoundAgentID a) as [b|]; [| done].
    rewrite !andb_true_iff, !bool_decide_eq_true in *. split; [tauto |].
    apply lookup_insert_is_Some'. tauto.
  - split; [split; [intros i a Ha; by exists a | done | done] |]. split; apply W.
Qed.

Lemma psteps_ok e e' : wf e -> rtc pstep e e' -> holds_on e e' /\ wf e'.
Proof.
  intros W S. revert W. induction S as [|e1 e2 e3 S _ IH]; intros W; [done |].
  destruct (pstep_ok _ _ W S) as [H1 W1]. destruct (IH W1) as [H2 W2]. split; [by transitivity e2 | done].
Qed.

(** ** Handlers are sequences of steps *)

Lemma services_steps e d : rtc anystep (e_db e) d -> rtc pstep e (set_edb d e).
Proof.
  intros S. remember (e_db e) as d0 eqn:E. revert e E. induction S as [d|d1 d2 d3 S _ IH]; intros e ->.
  - by rewrite set_edb_id.
  - eapply rtc_l; [apply ps_service, S |]. exact (IH (set_edb d2 e) eq_refl).
Qed.

Lemma csteps_any d d' : rtc cstep d d' -> rtc anystep d d'.
Proof. apply rtc_subrel. intros x y S. by left. Qed.

Lemma cstep_one e d : cstep (e_db e) d -> rtc pstep e (set_edb d e).
Proof. intros S. by apply services_steps, csteps_any, rtc_once. Qed.

Lemma run_steps {A B} (o : eop A) onErr (k : A -> hdl B) e :
  (forall x e', o e = Ok (x, e') -> rtc pstep e e' /\ rtc pstep e' (k x e').2) -> rtc pstep e (run o onErr k e).2.
Proof.
  intros H. unfold run. destruct (o e) as [[x e']|s]; [| done]. destruct (H x e' eq_refl). by transitivity e'.
Qed.

Lemma call_steps {A B} (s : svc A) (k : result aerr A -> hdl B) e :
  rtc anystep (e_db e) (s (e_db e)).2 -> (forall r e', rtc pstep e' (k r e').2) -> rtc pstep e (call s k e).2.
Proof.
  intros Hs Hk. unfold call. destruct (s (e_db e)) as [r d]. transitivity (set_edb d e); [by apply services_steps | auto].
Qed.

Lemma read_steps {A B} (f : cdb -> option A) onErr (k : A -> hdl B) e :
  (forall x, f (e_db e) = Some x -> rtc pstep e (k x e).2) -> rtc pstep e (run (on_db (read f)) onErr k e).2.
Proof.
  intros H. apply run_steps. intros x e' (d & [Hf ->]%read_Ok & ->)%on_db_Ok.
  rewrite set_edb_id. split; [done | auto].
Qed.

Lemma agentParam_steps {A} type id (k : hdl A) e : (id <> [] -> rtc pstep e (k e).2) -> rtc pstep e (agentParam type id k e).2.
Proof. intros H. unfold agentParam. repeat (case_decide; [done |]). auto. Qed.

Lemma Resize_any ok id u n d : rtc anystep d (Resize ok id u n d).2.
Proof. apply rtc_once. right. eauto. Qed.

Lemma service_any d d' : cstep d d' -> rtc anystep d d'.
Proof. intros S. apply rtc_once. by left. Qed.

Create HintDb steps.
#[export] Hint Resolve Resize_any : steps.
#[export] Hint Extern 1 (rtc anystep _ (PurgeAllocation _ _ _ _ _).2) => apply csteps_any, Purge_steps : steps.
#[export] Hint Extern 3 (rtc anystep _ _) => apply service_any; constructor : steps.

Section handler_steps.
Context (uuidParse parseUUIDParam : gostr -> option uuid) (sha256 sha256b64 : gostr -> gostr).

Lemma ensureOwner_steps {A} u o (k : hdl A) e :
  (forall e', rtc pstep e' (k e').2) -> rtc pstep e (ensureOwner u o k e).2.
Proof.
  intros H. apply run_steps. intros x e' H1. split; [by eapply rtc_once, ps_tenant |].
  apply run_steps. intros y e'' H2. split; [by eapply rtc_once, ps_user | auto].
Qed.

Lemma provision_steps h now fresh body e : rtc pstep e (handleProvision uuidParse h now fresh body e).2.
Proof.
  unfold handleProvision. destruct body as [req|]; [| done]. case_decide; [done |].
  case_decide as Hid; [done |]. destruct (uuidParse _) as [u|]; [| done].
  apply ensureOwner_steps. intros e1. apply run_steps. intros x e2 H1. split; [by eapply rtc_once, ps_tenant |].
  apply run_steps. intros y e3 H2. split; [| done]. eapply rtc_once, ps_upsert; [| exact H2]. tauto.
Qed.

Lemma setQuota_steps h ok type id body e : rtc pstep e (handleSetQuota h ok type id body e).2.
Proof.
  apply agentParam_steps. intros _. destruct body as [req|]; [| done]. case_match; [done |].
  apply read_steps. intros row _. apply call_steps; [auto with steps |]. intros r e'. by repeat case_match.
Qed.

(** Also on tables that other requests have changed since the lookup. *)
Lemma deleteRow_steps h now un er row e : rtc pstep e (deleteRow h now un er row e).2.
Proof.
  assert (forall e', rtc pstep e' (if eh_purge h then call (PurgeAllocation now un er row.1) (fun _ => reply tt) e'
    else (Ok tt, e')).2) as Hp.
  { intros e'. case_match; [| done]. apply call_steps; [auto with steps | done]. }
  unfold deleteRow. destruct (on_db (RevokeAllocation _ _ _) e) as [[x e1]|[]] eqn:E; [| apply Hp | done ..].
  eapply rtc_l; [by eapply ps_revoke | apply Hp].
Qed.

Lemma delete_steps h now un er type id e : rtc pstep e (handleDelete h now un er type id e).2.
Proof.
  apply agentParam_steps. intros _. unfold on_db at 1.
  destruct (GetAllocationByAgent id (e_db e)) as [[row d]|[]]; [apply deleteRow_steps | done ..].
Qed.

Lemma enrollToken_steps now raw id e : rtc pstep e (handleEnrollToken sha256 now raw id e).2.
Proof.
  unfold handleEnrollToken. case_decide; [done |]. apply read_steps. intros row _. apply read_steps. intros us _.
  destruct raw as [tok|]; [| done]. apply run_steps. intros x e' Hi. split; [| done].
  unfold IssueAgentEnrollToken, CreateAccessToken in Hi. case_bool_decide; [done |]. destruct (_ && _ && _); [| done].
  injection Hi as _ <-. apply rtc_once, ps_tokens.
Qed.

Lemma reassign_steps type id body e : rtc pstep e (handleReassign uuidParse type id body e).2.
Proof.
  apply agentParam_steps. intros _. destruct body as [o|]; [| done]. destruct (uuidParse o) as [u|]; [| done].
  apply ensureOwner_steps. intros e1. apply run_steps. intros x e2 H. split; [by eapply rtc_once, ps_reassign | done].
Qed.

Lemma restamp_steps {A} rows n (k : hdl A) e :
  (forall e', rtc pstep e' (k e').2) -> rtc pstep e (restamp rows n k e).2.
Proof.
  intros H. revert e. induction rows as [|[id a] rows IH]; intros e; [apply H |].
  apply run_steps. intros x e' Hx. split; [by eapply rtc_once, ps_size | apply IH].
Qed.

Lemma budget_steps setter owner body e : rtc pstep e (handleSetAccountBudget uuidParse setter owner body e).2.
Proof.
  unfold handleSetAccountBudget. destruct (uuidParse owner) as [u|]; [| done]. destruct body as [n|]; [| done].
  case_match; [done |]. apply call_steps; [auto with steps |]. intros r e'.
  destruct r as [x|[]]; try done. by apply restamp_steps.
Qed.

Lemma sweepLoop_steps env rows resp d : rtc anystep d (sweepLoop env rows resp d).2.
Proof.
  revert resp d. induction rows as [|[id g] rows IH]; intros resp d; [done |]. simpl.
  case_match; [done |]. assert (rtc anystep d (PurgeAllocation (re_now (env id)) (re_unregistered (env id))
    (re_erased (env id)) id d).2) as S by auto with steps.
  destruct (PurgeAllocation _ _ _ _ _) as [[x|x] d']; simpl in S; (etransitivity; [exact S | apply IH]).
Qed.

Lemma sweep_steps api env limit e : rtc pstep e (handleSweep api env limit e).2.
Proof.
  unfold handleSweep. destruct api; [| done].
  assert (forall n, rtc pstep e (match sweep true env n (e_db e) with
    | (None, d) => (Err serverError, set_edb d e)
    | (Some resp, d) => (Ok resp, set_edb d e)
    end : result refusal purgeSweepResponse * edb).2) as Hgo.
  { intros n. unfold sweep. simpl. pose proof (sweepLoop_steps env (ListPurgePendingAllocations n (e_db e))
      (mkSweep (Z.of_nat (length (ListPurgePendingAllocations n (e_db e)))) 0 0) (e_db e)) as S.
    destruct (sweepLoop _ _ _ _) as [resp d]. by apply services_steps. }
  destruct limit as [[n|]|]; [| done | apply Hgo]. simpl. destruct (n <=? 0); [done | apply Hgo].
Qed.

(** A call of the allocation service by a mount handler. *)
Lemma on_svc_steps {A} (s : svc A) e : rtc anystep (e_db e) (s (e_db e)).2 -> rtc pstep e (on_svc s e).2.
Proof. intros H. unfold on_svc. destruct (s (e_db e)) as [r d]. by apply services_steps. Qed.

Lemma acquire_steps now now' ttl fencer drawn c e :
  rtc pstep e (handleAcquireMount parseUUIDParam sha256b64 now now' ttl fencer drawn c e).2.
Proof.
  unfold handleAcquireMount. destruct (resolveMountRequest _ _ _ _) as [m|]; [| done].
  destruct (drawIf _ _ _) as [[tok hash]|]; [| done].
  assert (forall t f e', rtc pstep e' (on_svc (AcquireMountLeaseWithToken t ttl (mt_alloc m) (mt_agent m) f hash) e').2) as S
    by (intros; apply on_svc_steps; auto with steps).
  pose proof (S now (mt_force m) e) as S1. destruct (on_svc _ e) as [[a|x] e1]; [done |]. simpl in S1.
  destruct x; try done. case_match; [| done]. etransitivity; [exact S1 |].
  pose proof (S now' true e1) as S2. by destruct (on_svc _ e1) as [[a|x] e2].
Qed.

Lemma refresh_steps now ttl drawn c e :
  rtc pstep e (handleRefreshMount parseUUIDParam sha256b64 now ttl drawn c e).2.
Proof.
  unfold handleRefreshMount. destruct (resolveMountRequest _ _ _ _) as [m|]; [| done].
  destruct (drawIf _ _ _) as [[tok hash]|]; [| done].
  assert (rtc pstep e (on_svc (RefreshMountLeaseWithToken now ttl (mt_alloc m) (mt_agent m)
    (hashMountLeaseToken sha256b64 (mt_token m)) hash) e).2) as S by (apply on_svc_steps; auto with steps).
  by destruct (on_svc _ e) as [[a|x] e1].
Qed.

Lemma release_steps now fencer c e : rtc pstep e (handleReleaseMount parseUUIDParam sha256b64 now fencer c e).2.
Proof.
  unfold handleReleaseMount. destruct (resolveMountRequest _ _ _ _) as [m|]; [| done].
  assert (rtc pstep e (on_svc (ReleaseMountLeaseWithToken (mt_alloc m) (mt_agent m)
    (hashMountLeaseToken sha256b64 (mt_token m))) e).2) as S by (apply on_svc_steps; auto with steps).
  destruct (on_svc _ e) as [[a|[]] e1]; done.
Qed.

Lemma adminIdentity_steps {A} now cookie (k : identity -> hdl A) e :
  (forall i, rtc pstep e (k i e).2) -> rtc pstep e (adminIdentity sha256 now cookie k e).2.
Proof. intros H. unfold adminIdentity. repeat (case_match; [| done]). auto. Qed.

Lemma ownerCall_steps fencer s id e : rtc anystep (e_db e) (s (e_db e)).2 -> rtc pstep e (ownerCall fencer s id e).2.
Proof. intros H. apply call_steps; [done |]. intros [x|x] e'; done. Qed.

Lemma unmount_steps now fencer cookie id e :
  rtc pstep e (handleOwnerUnmount parseUUIDParam sha256 now fencer cookie id e).2.
Proof.
  apply adminIdentity_steps. intros i. unfold allocParam. case_match; [| done].
  apply ownerCall_steps. auto with steps.
Qed.

Lemma revoke_steps now fencer cookie id e :
  rtc pstep e (handleRevokeAllocation parseUUIDParam sha256 now fencer cookie id e).2.
Proof.
  apply adminIdentity_steps. intros i. unfold allocParam. case_match; [| done].
  apply ownerCall_steps. auto with steps.
Qed.
End handler_steps.

Lemma enrollPlace_any ev now ident alloc d : rtc anystep d (enrollPlace ev now ident alloc d).2.
Proof.
  unfold enrollPlace. destruct (GetServerVMByTenant _ d) as [[vm d0]|[]]; [by case_decide | | done | done].
  destruct alloc as [a|]; [| done].
  assert (rtc anystep d (Reserve now (ev_registered ev) (default 0 (da_UserID a)) (in_TenantID ident)
    (da_SizeBytes a) d).2) as S by apply csteps_any, Reserve_steps.
  destruct (Reserve _ _ _ _ _ d) as [[addr|[]] d']; done.
Qed.

Section enroll_steps.
Context (sha256 : gostr -> gostr).

Lemma enrollMint_steps ev now header ident id a addr e :
  rtc pstep e (enrollMint sha256 ev now header ident id a addr e).2.
Proof.
  unfold enrollMint. destruct (ev_ca ev) as [| | | |serial na]; [done .. |].
  fold (record ev ident id a addr serial na).
  assert (forall e0, rtc pstep e0 (record ev ident id a addr serial na e0).2) as Hrec.
  { intros e0. unfold record. destruct (CreateAgentEnrollment _ _ _ _ _) as [d|] eqn:E; [| done].
    by eapply rtc_once, ps_enrollment. }
  case_decide; [| apply Hrec]. unfold ConsumeAgentEnrollToken. case_decide; [done |].
  assert (rtc pstep e (ConsumeToken now (sha256 (BearerToken header)) e).2) as S.
  { unfold ConsumeToken. case_match; [| done]. case_match; [| done]. apply rtc_once, ps_tokens. }
  destruct (ConsumeToken _ _ e) as [[] e1]; [| done]. etransitivity; [exact S | apply Hrec].
Qed.

Lemma enroll_steps ev now header ident e : rtc pstep e (handleEnroll sha256 ev now header ident e).2.
Proof.
  assert (forall al, rtc pstep e (set_edb (enrollPlace ev now ident al (e_db e)).2 e)) as Hp.
  { intros al. apply services_steps, enrollPlace_any. }
  unfold handleEnroll. case_match; [done |]. case_match; [| done]. case_match; [done |].
  destruct (in_AllocationID ident) as [id|].
  - destruct (allocations (e_db e) !! id) as [a|]; [| done]. destruct (_ || _); [done |]. simpl.
    specialize (Hp (Some a)). destruct (enrollPlace _ _ _ _ _) as [[addr|r] d]; simpl in Hp; [| done].
    destruct (caGate ev); [done |]. case_decide; [done |]. etransitivity; [exact Hp | apply enrollMint_steps].
  - simpl. specialize (Hp None). destruct (enrollPlace _ _ _ _ _) as [[addr|r] d]; [| done].
    by destruct (caGate ev).
Qed.
End enroll_steps.

(** ** Requests *)

Section claims.
Context (uuidParse parseUUIDParam : gostr -> option uuid) (sha256 sha256b64 : gostr -> gostr).

(** A request served from start to end; the requests that only read are left
    out. *)
Inductive request (e : edb) : edb -> Prop :=
| rq_provision h now fresh body : request e (handleProvision uuidParse h now fresh body e).2
| rq_setQuota h ok type id body : request e (handleSetQuota h ok type id body e).2
| rq_delete h now un er type id : request e (handleDelete h now un er type id e).2
| rq_enrollToken now raw id : request e (handleEnrollToken sha256 now raw id e).2
| rq_reassign type id body : request e (handleReassign uuidParse type id body e).2
| rq_budget setter owner body : request e (handleSetAccountBudget uuidParse setter owner body e).2
| rq_sweep api env limit : request e (handleSweep api env limit e).2
| rq_acquire now now' ttl fencer drawn c :
    request e (handleAcquireMount parseUUIDParam sha256b64 now now' ttl fencer drawn c e).2
| rq_refresh now ttl drawn c : request e (handleRefreshMount parseUUIDParam sha256b64 now ttl drawn c e).2
| rq_release now fencer c : request e (handleReleaseMount parseUUIDParam sha256b64 now fencer c e).2
| rq_unmount now fencer cookie id : request e (handleOwnerUnmount parseUUIDParam sha256 now fencer cookie id e).2
| rq_revoke now fencer cookie id : request e (handleRevokeAllocation parseUUIDParam sha256 now fencer cookie id e).2
| rq_enroll ev now header ident : request e (handleEnroll sha256 ev now header ident e).2.

Lemma request_steps e e' : request e e' -> rtc pstep e e'.
Proof.
  intros [].
  - apply provision_steps.
  - apply setQuota_steps.
  - apply delete_steps.
  - apply enrollToken_steps.
  - apply reassign_steps.
  - apply budget_steps.
  - apply sweep_steps.
  - apply acquire_steps.
  - apply refresh_steps.
  - apply release_steps.
  - apply unmount_steps.
  - apply revoke_steps.
  - apply enroll_steps.
Qed.

(** What runs: whole requests, and the single steps of requests that overlap. *)
Definition runs (e e' : edb) : Prop := rtc (fun x y => request x y \/ pstep x y) e e'.

Lemma runs_steps e e' : runs e e' -> rtc pstep e e'.
Proof.
  induction 1 as [|x y z [S|S] _ IH]; [done | etransitivity; [by apply request_steps | done] | by eapply rtc_l].
Qed.

Lemma tenantForAgent_inj g g' : tenantForAgent g = tenantForAgent g' -> g = g'.
Proof. unfold tenantForAgent. intros H. by apply app_inv_head in H. Qed.

(** C11: Whatever requests are served, one after the other or interleaved
    statement by statement, the tables keep what the rest of the system relies on:
    an agent has at most one live disk; every disk of an agent lies in the tenant
    of that agent, which exists and is not the tenant of another agent; it has an
    owner, who exists. *)
Theorem one_disk_per_agent e e' :
  wf e -> runs e e' ->
  (forall i1 i2 a1 a2, allocations (e_db e') !! i1 = Some a1 -> allocations (e_db e') !! i2 = Some a2 ->
     da_AgentID a1 <> [] -> da_AgentID a2 <> [] ->
     (da_AgentID a1 = da_AgentID a2 -> live a1 = true -> live a2 = true -> i1 = i2) /\
     (da_TenantID a1 = da_TenantID a2 -> da_AgentID a1 = da_AgentID a2)) /\
  (forall id a, allocations (e_db e') !! id = Some a -> da_AgentID a <> [] ->
     da_TenantID a = tenantForAgent (da_AgentID a) /\ is_Some (e_tenants e' !! da_TenantID a) /\
     (exists u, da_UserID a = Some u /\ is_Some (users (e_db e') !! u))) /\
  wf e'.
Proof.
  intros W S%runs_steps. destruct (psteps_ok _ _ W S) as [_ W']. split; [| split; [| done]].
  - intros i1 i2 a1 a2 H1 H2 N1 N2. split.
    + intros E L1 L2. apply (wf_one e' W' (da_AgentID a1) i1 i2 a1 a2); [done | done | |]; by apply live_agent_true.
    + destruct (wf_tenant e' W' i1 a1 H1 N1) as [-> _], (wf_tenant e' W' i2 a2 H2 N2) as [-> _].
      apply tenantForAgent_inj.
  - intros id a Ha Hne. destruct (wf_tenant e' W' id a Ha Hne) as [E Ht]. split; [done |]. split; [done |].
    by apply (wf_owner e' W' id).
Qed.

(** ** Provisioning *)

(** What is outside the rows of the disks, the users and the tenants. *)
Definition rest (e : edb) :=
  (e_tokens e, e_api e, e_suspended e, enrollments (e_db e), revocations (e_db e), server_vms (e_db e),
   server_pool (e_db e), reservations (e_db e)).

Lemma EnsureTenant_spec t e :
  exists e', EnsureTenant t t e = Ok (tt, e') /\ e_db e' = e_db e /\ rest e' = rest e /\
    is_Some (e_tenants e' !! t) /\
    (forall x ten, e_tenants e' !! x = Some ten -> e_tenants e !! x = Some ten \/ tn_suspended ten = false) /\
    e_tenants e ⊆ e_tenants e'.
Proof.
  unfold EnsureTenant. destruct (e_tenants e !! t) as [ten|] eqn:Ht.
  - exists e. by eauto 10.
  - eexists. split; [done |]. split; [done |]. split; [done |]. simpl. rewrite lookup_insert_eq.
    split; [done |]. split; [| by apply insert_subseteq].
    intros x ten [[<- <-]|[_ ?]]%lookup_insert_Some; auto.
Qed.

Lemma EnsureUser_spec u t e :
  is_Some (e_tenants e !! t) ->
  exists e', EnsureUserWithID u t e = Ok (tt, e') /\ allocations (e_db e') = allocations (e_db e) /\
    rest e' = rest e /\ is_Some (users (e_db e') !! u) /\ e_tenants e' = e_tenants e /\
    users (e_db e) ⊆ users (e_db e').
Proof.
  intros Ht. unfold EnsureUserWithID. destruct (users (e_db e) !! u) as [us|] eqn:Hu; [by eauto 10 |].
  rewrite bool_decide_true by done. eexists. split; [done |]. simpl. rewrite lookup_insert_eq.
  split_and!; try done. by apply insert_subseteq.
Qed.

Definition provisioned (h : entityHandlers) (now : Z) (fresh u : uuid) (g : gostr) (size : Z) (e e' : edb)
    (id : uuid) (a : allocation) : Prop :=
  match live_row g (e_db e) with
  | Some (id0, a0) => id = id0 /\ a = with_user u a0
  | None => id = fresh /\ a = mkDA (Some u) (tenantForAgent g) g size now None None None None None None
  end /\
  allocations (e_db e') = <[id := a]> (allocations (e_db e)) /\ live_agent g a = true /\
  rest e' = rest e /\ is_Some (users (e_db e') !! u) /\
  (forall x ten, e_tenants e' !! x = Some ten -> e_tenants e !! x = Some ten \/ tn_suspended ten = false).

Lemma provision_spec h now fresh g o gb qb u e :
  uuidParse o = Some u -> g <> [] -> o <> [] -> 0 < eh_initialGrantBytes h ->
  allocations (e_db e) !! fresh = None ->
  let req := mkProvision EntityTypeAgent g o gb qb in
  let size := if grant req <=? 0 then eh_initialGrantBytes h else grant req in
  exists id a e', handleProvision uuidParse h now fresh (Some req) e = (Ok (entityOf h id g), e') /\
    provisioned h now fresh u g size e e' id a.
Proof.
  intros Hp Hg Ho Hi Hf req size.
  assert (0 < size) as Hsize by (subst size; destruct (Z.leb_spec (grant req) 0); lia).
  unfold handleProvision. rewrite decide_False by (simpl; tauto).
  rewrite decide_False by (simpl; tauto). change (pr_OwnerID req) with o. rewrite Hp.
  change (pr_EntityID req) with g. fold size. unfold ensureOwner, run at 1.
  destruct (EnsureTenant_spec (tenantIDForOwner o) e) as (e1 & -> & D1 & R1 & T1 & S1 & Sub1).
  unfold run at 1. destruct (EnsureUser_spec u (tenantIDForOwner o) e1 T1) as (e2 & -> & D2 & R2 & U2 & T2 & Sub2).
  unfold run at 1. destruct (EnsureTenant_spec (tenantForAgent g) e2) as (e3 & -> & D3 & R3 & T3 & S3 & Sub3).
  assert (allocations (e_db e3) = allocations (e_db e)) as Ea by (rewrite D3, D2, D1; done).
  assert (live_row g (e_db e3) = live_row g (e_db e)) as El by (unfold live_row; by rewrite Ea).
  assert (is_Some (users (e_db e3) !! u)) as Hu by (by rewrite D3).
  assert (rest e3 = rest e) as Er by congruence.
  assert (forall x ten, e_tenants e3 !! x = Some ten -> e_tenants e !! x = Some ten \/ tn_suspended ten = false) as Hs.
  { intros x ten [Hx|?]%S3; [| by right]. rewrite T2 in Hx. by apply S1. }
  unfold run, UpsertAgentAllocation. replace (size <=? 0) with false by lia.
  rewrite Ea, Hf, bool_decide_false, bool_decide_true by (done || by intros [? ?]). simpl.
  unfold provisioned. rewrite El. destruct (live_row g (e_db e)) as [[id a]|] eqn:Hr.
  - apply live_row_Some in Hr as [Ha Hl]. eexists id, (with_user u a), _. split; [done |]. simpl.
    split_and!; done.
  - rewrite bool_decide_true by done. eexists fresh, _, _. split; [done |]. simpl.
    split; [done |]. split; [done |]. split; [by apply live_agent_true | split_and!; done].
Qed.

Lemma resolve_spec h g id a e :
  wf e -> allocations (e_db e) !! id = Some a -> live_agent g a = true ->
  handleResolve h EntityTypeAgent g e = (Ok (entityOf h id g), e).
Proof.
  intros W Ha Hl. pose proof (proj1 (live_agent_true _ _) Hl) as (_ & Hg & _).
  unfold handleResolve, agentParam. rewrite decide_False by tauto. rewrite decide_False by done.
  unfold run, on_db, GetAllocationByAgent, read. rewrite (live_row_unique e g id a W Ha Hl).
  by rewrite set_edb_id.
Qed.

(** Provisioning gives an agent its disk and is idempotent: on well-formed
    tables a valid request succeeds with the live disk the agent has, otherwise
    with a new one of the requested size; only the owner of an existing disk
    changes.  From then on, whatever else is served, as long as the disk is not
    revoked every lookup and every further provisioning of the agent, by any
    owner and with any size, answers the same handle and path and leaves the size
    of the disk. *)
Theorem provision_idempotent grantBytes prefix purge now fresh g o gb qb u e :
  let h := newEntityHandlers grantBytes prefix purge in
  let req := mkProvision EntityTypeAgent g o gb qb in
  wf e -> uuidParse o = Some u -> g <> [] -> o <> [] -> allocations (e_db e) !! fresh = None ->
  exists id a e', handleProvision uuidParse h now fresh (Some req) e = (Ok (entityOf h id g), e') /\
    allocations (e_db e') = <[id := a]> (allocations (e_db e)) /\ da_UserID a = Some u /\ live a = true /\
    match live_row g (e_db e) with
    | Some (id0, a0) => id = id0 /\ da_SizeBytes a = da_SizeBytes a0
    | None => id = fresh /\ da_SizeBytes a = if grant req <=? 0 then eh_initialGrantBytes h else grant req
    end /\
    forall e2 a2, runs e' e2 -> allocations (e_db e2) !! id = Some a2 -> live a2 = true ->
      handleResolve h EntityTypeAgent g e2 = (Ok (entityOf h id g), e2) /\
      forall now2 fresh2 o2 u2 gb2 qb2, uuidParse o2 = Some u2 -> o2 <> [] -> allocations (e_db e2) !! fresh2 = None ->
        exists e3, handleProvision uuidParse h now2 fresh2 (Some (mkProvision EntityTypeAgent g o2 gb2 qb2)) e2
                     = (Ok (entityOf h id g), e3) /\
          allocations (e_db e3) = <[id := with_user u2 a2]> (allocations (e_db e2)).
Proof.
  intros h req W Hp Hg Ho Hf.
  assert (0 < eh_initialGrantBytes h) as Hi.
  { simpl. destruct (Z.leb_spec grantBytes 0); [done | lia]. }
  destruct (provision_spec h now fresh g o gb qb u e Hp Hg Ho Hi Hf) as (id & a & e' & Hr & Hc & Ha & Hl & _).
  exists id, a, e'. split; [exact Hr |]. split; [done |].
  pose proof (proj1 (live_agent_true _ _) Hl) as (Eg & _ & Hlive).
  assert (da_UserID a = Some u) as Hu by (destruct (live_row g (e_db e)) as [[? ?]|]; destruct Hc as [_ ->]; done).
  split; [done |]. split; [done |]. split.
  { destruct (live_row g (e_db e)) as [[? ?]|]; destruct Hc as [-> ->]; done. }
  intros e2 a2 S Ha2 Hl2.
  pose proof (provision_steps uuidParse h now fresh (Some req) e) as S0. unfold req in S0. rewrite Hr in S0.
  destruct (psteps_ok _ _ W S0) as [_ W']. simpl in W'. destruct (psteps_ok _ _ W' (runs_steps _ _ S)) as [[R _ _] W2].
  destruct (R id a) as (b & Hb & [[= _ Eb] _]); [rewrite Ha; apply lookup_insert_eq |].
  rewrite Ha2 in Hb. injection Hb as <-.
  assert (live_agent g a2 = true) as Hla by (apply live_agent_true; split; [congruence | done]).
  split; [by eapply resolve_spec |]. intros now2 fresh2 o2 u2 gb2 qb2 Hp2 Ho2 Hf2.
  destruct (provision_spec h now2 fresh2 g o2 gb2 qb2 u2 e2 Hp2 Hg Ho2 Hi Hf2) as (id2 & a3 & e3 & Hr3 & Hc3 & Ha3 & _).
  rewrite (live_row_unique e2 g id a2 W2 Ha2 Hla) in Hc3. destruct Hc3 as [-> ->].
  exists e3. split; [exact Hr3 | done].
Qed.

(** ** Deletion *)

Lemma live_row_wf e g :
  wf e -> (forall id a, allocations (e_db e) !! id = Some a -> live_agent g a = false) -> live_row g (e_db e) = None.
Proof.
  intros W H. destruct (live_row g (e_db e)) as [[id a]|] eqn:E; [| done].
  apply live_row_Some in E as [Ha Hl]. by rewrite (H id a Ha) in Hl.
Qed.

(** Revoking the live disk of an agent by its owner works. *)
Lemma revoke_spec e now id a :
  wf e -> allocations (e_db e) !! id = Some a -> da_AgentID a <> [] ->
  on_db (RevokeAllocation now id (default 0 (da_UserID a))) e =
  Ok (with_revoked now a, set_edb (set_allocations (<[id := with_revoked now a]> (allocations (e_db e))) (e_db e)) e).
Proof.
  intros W Ha Hne. destruct (wf_owner e W id a Ha Hne) as (u & Hu & _).
  unfold on_db, RevokeAllocation, update_alloc. rewrite Ha, Hu. simpl.
  unfold of_user. rewrite Hu, bool_decide_true by done.
  by replace (alloc_row_ok (with_revoked now a) (e_db e)) with true by (symmetry; exact (wf_rows e W id a Ha)).
Qed.

(** The lease of a revoked disk is neither taken nor extended. *)
Lemma revoked_no_lease e id a :
  allocations (e_db e) !! id = Some a -> live a = false ->
  (forall now ttl g force t, on_svc (AcquireMountLeaseWithToken now ttl id g force t) e = (Err ErrRevoked, e)) /\
  (forall now ttl g t t', on_svc (RefreshMountLeaseWithToken now ttl id g t t') e = (Err ErrRevoked, e)).
Proof.
  intros Ha Hl. split; intros; unfold on_svc.
  - unfold AcquireMountLeaseWithToken, try, AcquireMountLease. erewrite update_alloc_miss; [| done | by rewrite Hl].
    unfold classifyLeaseMiss, try, GetAllocation, read. rewrite Ha, Hl. simpl. by rewrite set_edb_id.
  - unfold RefreshMountLeaseWithToken, try, RefreshMountLease. erewrite update_alloc_miss; [| done | by rewrite Hl].
    unfold classifyLeaseMiss, try, GetAllocation, read. rewrite Ha, Hl. simpl. by rewrite set_edb_id.
Qed.

(** A certificate names a live disk. *)
Lemma enrolled_live ev now header ident e c e' :
  handleEnroll sha256 ev now header ident e = (Ok c, e') ->
  exists a, allocations (e_db e) !! en_allocation c = Some a /\ live a = true.
Proof.
  intros [(x & d & ? & _)|(id & a & addr & d & ten & _ & Ha & _ & Hl & _ & _ & _ & Hm)]%handleEnroll_cases; [done |].
  apply enrollMint_cases in Hm as [(x & ? & _)|(serial & na & e3 & _ & Hr & _)]; [done |].
  unfold record in Hr. destruct (CreateAgentEnrollment _ _ _ _ _); [| done]. injection Hr as <- _. by exists a.
Qed.

(** *** What an enrol token gives access to

    The steps of all requests with what they do to the table of tokens: an enrol token is
    minted for a row of an agent and its tenant (the row may have been read before, its
    agent and tenant never change), sessions are issued, and a token is marked as spent or
    revoked or its row removed. *)
Inductive astep (e : edb) : edb -> Prop :=
| as_step e' : pstep e e' -> e_tokens e' = e_tokens e -> astep e e'
| as_mint now raw u id a e' :
    allocations (e_db e) !! id = Some a -> da_AgentID a <> [] ->
    IssueAgentEnrollToken sha256 now raw u (da_TenantID a) (Some id) e = Ok e' -> astep e e'
| as_session now raw u t e' : IssueAdminSession sha256 now raw u t e = Ok e' -> astep e e'
| as_mark h t c r :
    e_tokens e !! h = Some t ->
    astep e (set_tokens (<[h := mkTok (at_Purpose t) (at_UserID t) (at_TenantID t) (at_AllocationID t)
                                  (at_ExpiresAt t) r c]> (e_tokens e)) e)
| as_drop h : astep e (set_tokens (delete h (e_tokens e)) e).

(** An enrol token carries a disk of an agent and the tenant of this disk. *)
Definition scoped (e : edb) : Prop := forall h t,
  e_tokens e !! h = Some t -> at_Purpose t = PurposeAgentEnroll ->
  exists id a, at_AllocationID t = Some id /\ allocations (e_db e) !! id = Some a /\
    da_AgentID a <> [] /\ at_TenantID t = da_TenantID a.

Lemma astep_pstep e e' : astep e e' -> pstep e e'.
Proof.
  intros S. destruct S as [e' S _|now raw u id a e' _ _ H|now raw u t e' H|h t c r Ht|h]; [done | | | apply ps_tokens ..].
  all: unfold IssueAgentEnrollToken, IssueAdminSession, CreateAccessToken in H; case_bool_decide; [done |];
    destruct (_ && _ && _); [| done]; injection H as <-; apply ps_tokens.
Qed.

Lemma asteps_psteps e e' : rtc astep e e' -> rtc pstep e e'.
Proof. apply rtc_subrel, astep_pstep. Qed.

Lemma scoped_rows e e' : holds_on e e' -> e_tokens e' = e_tokens e -> scoped e -> scoped e'.
Proof.
  intros [R _ _] Et Sc h t Ht Hp. rewrite Et in Ht. destruct (Sc h t Ht Hp) as (id & a & Hid & Ha & Hag & Hten).
  destruct (R id a Ha) as (a' & Ha' & [[= E1 E2] _]). exists id, a'. split_and!; [done | done | congruence | congruence].
Qed.

Lemma create_token_inv h t e e' : CreateAccessToken h t e = Ok e' -> e' = set_tokens (<[h := t]> (e_tokens e)) e.
Proof.
  unfold CreateAccessToken. case_bool_decide; [done |]. destruct (_ && _ && _); [| done]. by intros [= <-].
Qed.

Lemma scoped_insert h t e :
  scoped e ->
  (at_Purpose t = PurposeAgentEnroll ->
     exists id a, at_AllocationID t = Some id /\ allocations (e_db e) !! id = Some a /\
       da_AgentID a <> [] /\ at_TenantID t = da_TenantID a) ->
  scoped (set_tokens (<[h := t]> (e_tokens e)) e).
Proof.
  intros Sc Ht h' t' Hl Hp. simpl in Hl. apply lookup_insert_Some in Hl as [[_ <-]|[_ Hl]]; [by apply Ht | by apply (Sc h' t')].
Qed.

Lemma astep_scoped e e' : wf e -> astep e e' -> scoped e -> scoped e'.
Proof.
  intros W S Sc. destruct S as [e' S Et|now raw u id a e' Ha Hag H|now raw u t e' H|h t c r Ht|h].
  - eapply scoped_rows; [by apply pstep_ok | done | done].
  - apply create_token_inv in H as ->. apply scoped_insert; [done |]. intros _. exists id, a. done.
  - apply create_token_inv in H as ->. by apply scoped_insert.
  - apply scoped_insert; [done |]. simpl. intros Hp. by apply (Sc h t).
  - intros h' t' Hl Hp. simpl in Hl. apply lookup_delete_Some in Hl as [_ Hl]. by apply (Sc h' t').
Qed.

Lemma asteps_scoped e e' : wf e -> rtc astep e e' -> scoped e -> scoped e'.
Proof.
  intros W S. revert W. induction S as [|e1 e2 e3 S _ IH]; [done |]. intros W Sc.
  apply IH; [by eapply pstep_ok, astep_pstep | by eapply astep_scoped].
Qed.

(** The two handlers that write enrol tokens make these steps. *)
Lemma enrollToken_asteps now raw g e : wf e -> rtc astep e (handleEnrollToken sha256 now raw g e).2.
Proof.
  intros W. unfold handleEnrollToken. case_decide as Hg; [done |]. unfold run, on_db, GetAllocationByAgent, GetUser, read.
  destruct (live_row g (e_db e)) as [[id a]|] eqn:Hr; [| done]. simpl.
  apply live_row_Some in Hr as [Ha (Eg & _ & _)%live_agent_true].
  rewrite set_edb_id. destruct (users _ !! _) as [us|]; [| done]. simpl. rewrite set_edb_id.
  destruct raw as [tok|]; [| done]. destruct (wf_tenant e W id a Ha) as [Eten _]; [congruence |].
  rewrite decide_True by (rewrite Eten; discriminate).
  destruct (IssueAgentEnrollToken _ _ _ _ _ _ e) as [e'|] eqn:E; [| done].
  eapply rtc_once, as_mint; [exact Ha | congruence | exact E].
Qed.

Lemma services_asteps e d : rtc anystep (e_db e) d -> rtc astep e (set_edb d e).
Proof.
  intros S. remember (e_db e) as d0 eqn:E. revert e E. induction S as [d|d1 d2 d3 S _ IH]; intros e ->.
  - by rewrite set_edb_id.
  - eapply rtc_l; [apply as_step; [apply ps_service, S | done] |]. exact (IH (set_edb d2 e) eq_refl).
Qed.

Lemma enroll_asteps ev now header ident e : rtc astep e (handleEnroll sha256 ev now header ident e).2.
Proof.
  assert (forall al, rtc astep e (set_edb (enrollPlace ev now ident al (e_db e)).2 e)) as Hp.
  { intros al. apply services_asteps, enrollPlace_any. }
  assert (forall id a addr e0, rtc astep e0 (enrollMint sha256 ev now header ident id a addr e0).2) as Hm.
  { intros id a addr e0. destruct (enrollMint _ _ _ _ _ _ _ _ e0) as [r e1] eqn:E.
    apply enrollMint_cases in E as [(x & -> & ->)|(serial & na & e2 & _ & Hr & Hc)]; [done |].
    transitivity e2.
    - destruct Hc as [[_ ->]|[_ Hc]]; [done |]. unfold ConsumeToken in Hc.
      destruct (e_tokens e0 !! _) as [t|] eqn:Ht; [| done]. destruct (_ && _); [| done]. injection Hc as <-.
      by apply rtc_once, as_mark.
    - unfold record in Hr. destruct (CreateAgentEnrollment _ _ _ _ _) as [d|] eqn:Ed; [| by injection Hr as _ <-].
      injection Hr as _ <-. apply rtc_once, as_step; [by eapply ps_enrollment | done]. }
  unfold handleEnroll. case_match; [done |]. case_match; [| done]. case_match; [done |].
  destruct (in_AllocationID ident) as [id|].
  - destruct (allocations (e_db e) !! id) as [a|]; [| done]. destruct (_ || _); [done |]. simpl.
    specialize (Hp (Some a)). destruct (enrollPlace _ _ _ _ _) as [[addr|r] d]; simpl in Hp; [| done].
    destruct (caGate ev); [done |]. case_decide; [done |]. etransitivity; [exact Hp | apply Hm].
  - simpl. specialize (Hp None). destruct (enrollPlace _ _ _ _ _) as [[addr|r] d]; [| done]. by destruct (caGate ev).
Qed.

(** C13: A certificate is scoped to one live disk.  On well-formed tables whose enrol
    tokens each carry the disk of an agent with its tenant, as a table without tokens, and
    after any steps of requests, the mints of further tokens included: a request that the
    middleware authenticated and that, whatever was served in between, is answered with a
    certificate presented an enrol token that at its authentication was neither revoked,
    spent nor expired, of a user who was not suspended; when the certificate is minted the
    tenant is not suspended and the disk that the token carries is live; and the
    certificate names that disk, its agent, its owner, who is the user of the token, and
    its tenant, which is the tenant of that agent. *)
Theorem certificate_is_scoped ev now now' header e0 e i e1 e2 c e3 :
  wf e0 -> scoped e0 -> rtc astep e0 e ->
  RequireEnrollBearer sha256 now header e = (Ok i, e1) -> rtc astep e1 e2 ->
  handleEnroll sha256 ev now' header i e2 = (Ok c, e3) ->
  exists t a ten, e_tokens e !! sha256 (BearerToken header) = Some t /\
    at_Purpose t = PurposeAgentEnroll /\ at_revoked t = None /\ at_consumed t = None /\
    now <= at_ExpiresAt t /\ at_UserID t ∉ e_suspended e /\
    e_tenants e2 !! en_TenantID c = Some ten /\ tn_suspended ten = false /\
    at_AllocationID t = Some (en_allocation c) /\ allocations (e_db e2) !! en_allocation c = Some a /\ live a = true /\
    en_UserID c = at_UserID t /\ da_UserID a = Some (en_UserID c) /\
    en_AgentID c = da_AgentID a /\ en_AgentID c <> [] /\
    en_TenantID c = da_TenantID a /\ en_TenantID c = tenantForAgent (en_AgentID c).
Proof.
  intros W0 Sc0 S0 Hb S1 He. apply handleEnroll_cases in He as [(x & d & ? & _)|
    (id & a & addr & d & ten & Hid & Ha & Ho & Hl & Hag & Htn & Hs & Hm)]; [done |].
  apply enrollMint_cases in Hm as [(x & ? & _)|(serial & na & e4 & _ & Hr & _)]; [done |].
  unfold record in Hr. destruct (CreateAgentEnrollment _ _ _ _ _); [| done]. injection Hr as <- _. simpl.
  destruct (psteps_ok e0 e W0 (asteps_psteps _ _ S0)) as [_ W]. pose proof (asteps_scoped e0 e W0 S0 Sc0) as Sc.
  unfold RequireEnrollBearer in Hb. case_bool_decide.
  { repeat case_match; try done; injection Hb as <- <-; done. }
  injection Hb as Hb <-. destruct (AuthenticateEnrollBearer sha256 now header e) as [i'|[]] eqn:E; try done.
  injection Hb as ->. apply authenticate_Ok in E as (t & Ht & Hp & Hrev & Hc & Hx & Hsus & ->). simpl in *.
  destruct (psteps_ok e e2 W (asteps_psteps _ _ S1)) as [[R _ _] W2].
  destruct (Sc _ _ Ht Hp) as (id' & ar & Hid' & Har & Hagr & Hten). rewrite Hid in Hid'. injection Hid' as <-.
  destruct (R id ar Har) as (a' & Ha' & [[= E1 E2] _]). rewrite Ha in Ha'. injection Ha' as <-.
  destruct (wf_tenant e2 W2 id a Ha Hag) as [Eten _]. apply bool_decide_eq_true in Ho.
  exists t, a, ten. split_and!; try done; congruence.
Qed.

Lemma resolve_alloc now c e m :
  resolveMountRequest parseUUIDParam now c e = Ok m -> parseUUIDParam (mc_id c) = Some (mt_alloc m).
Proof.
  unfold resolveMountRequest. destruct (parseUUIDParam (mc_id c)) as [id|]; [| done].
  destruct (agentFingerprintFromRequest c) as [[[[fp f] t] sp]|]; [| done]. case_decide; [done |].
  destruct (GetActiveEnrollmentByFingerprint _ _ _) as [[[g r] ?]|[]]; [| by repeat case_match | done | done].
  destruct (GetAllocation _ _) as [[a ?]|]; [| done]. case_match; [done |]. by intros [= <-].
Qed.

(** A revoked disk stays revoked. *)
Lemma dead_forever e e' id a :
  wf e -> allocations (e_db e) !! id = Some a -> live a = false -> rtc pstep e e' ->
  exists a', allocations (e_db e') !! id = Some a' /\ live a' = false.
Proof.
  intros W Ha Hl S. destruct (psteps_ok e e' W S) as [[R _ _] _]. destruct (R id a Ha) as (a' & Ha' & K).
  exists a'. split; [done |]. apply not_true_iff_false. intros Hl'. by rewrite (row_kept_live _ _ K Hl') in Hl.
Qed.

Lemma delete_spec h now un er g id a e :
  wf e -> allocations (e_db e) !! id = Some a -> live_agent g a = true ->
  exists e', handleDelete h now un er EntityTypeAgent g e = (Ok tt, e') /\ wf e' /\ live_row g (e_db e') = None /\
    exists a', allocations (e_db e') !! id = Some a' /\ live a' = false.
Proof.
  intros W Ha Hl. pose proof (proj1 (live_agent_true _ _) Hl) as (Eg & Hg & _).
  pose proof (revoke_spec e now id a W Ha ltac:(congruence)) as Hrev.
  set (e1 := set_edb _ _) in Hrev.
  assert (pstep e e1) as Hr by (by eapply ps_revoke). destruct (pstep_ok _ _ W Hr) as [_ W1].
  assert (exists e', handleDelete h now un er EntityTypeAgent g e = (Ok tt, e') /\ rtc pstep e1 e' /\
            grows (e_db e1) (e_db e')) as (e' & Hd & S1 & (_ & _ & Hnew & _)).
  { unfold handleDelete, agentParam. rewrite decide_False by tauto. rewrite decide_False by done.
    unfold on_db at 1, GetAllocationByAgent, read. rewrite (live_row_unique e g id a W Ha Hl). simpl.
    unfold deleteRow. simpl. rewrite Hrev. destruct (eh_purge h); [| by exists e1].
    pose proof (csteps_any _ _ (Purge_steps now un er id (e_db e1))) as Sp.
    unfold call, reply in *. destruct (PurgeAllocation now un er id (e_db e1)) as [r d]. simpl in Sp.
    eexists. split; [done |]. split; [by apply services_steps | by apply steps_grow]. }
  destruct (psteps_ok _ _ W1 S1) as [_ W'].
  destruct (dead_forever e1 e' id (with_revoked now a) W1) as (a2 & Ha2 & Hf); [apply lookup_insert_eq | done | done |].
  exists e'. split; [done |]. split; [done |]. split; [| eauto].
  apply live_row_wf; [done |]. intros i b Hb. apply not_true_iff_false. intros Hlb.
  pose proof (proj1 (live_agent_true _ _) Hlb) as (Ei & _ & Hlive).
  destruct (decide (i = id)) as [->|Hne]; [congruence |].
  destruct (allocations (e_db e) !! i) as [b0|] eqn:Hb0.
  - destruct (psteps_ok e e' W) as [[R _ _] _]; [by eapply rtc_l |]. destruct (R i b0 Hb0) as (b' & Hb' & K).
    rewrite Hb in Hb'. injection Hb' as <-. apply Hne, (wf_one e W g i id b0 a); [done | done | | done].
    by eapply row_kept_live_agent.
  - rewrite (Hnew i b) in Ei; [congruence | done |]. simpl. by rewrite lookup_insert_ne.
Qed.

(** C15: Deleting an agent is final.  On well-formed tables, served in one piece (a
    reassignment between its two statements makes it miss, see [delete_misses_reassigned]),
    it succeeds and from then on the agent has no disk: it is not found, and no token is minted for it.
    Whatever is served after that, also if the agent is provisioned again, the
    deleted disk stays revoked: no lookup answers it, no request is given a
    certificate for it, whatever token it carries, and neither is its mount lease
    taken, not even by force, nor extended: such a request changes nothing. *)
Theorem delete_is_final h now un er g id a e :
  wf e -> allocations (e_db e) !! id = Some a -> live_agent g a = true ->
  exists e', handleDelete h now un er EntityTypeAgent g e = (Ok tt, e') /\
    handleResolve h EntityTypeAgent g e' = (Err notFound, e') /\
    (forall now raw, handleEnrollToken sha256 now raw g e' = (Err notFound, e')) /\
    forall e2, runs e' e2 ->
      (exists a2, allocations (e_db e2) !! id = Some a2 /\ live a2 = false) /\
      (forall g' row d, GetAllocationByAgent g' (e_db e2) = Ok (row, d) -> row.1 <> id) /\
      (forall ev now header ident c e3, handleEnroll sha256 ev now header ident e2 = (Ok c, e3) ->
         en_allocation c <> id) /\
      (forall now now' ttl fencer drawn c, parseUUIDParam (mc_id c) = Some id ->
         exists r, handleAcquireMount parseUUIDParam sha256b64 now now' ttl fencer drawn c e2 = (Err (Refused r), e2)) /\
      (forall now ttl drawn c, parseUUIDParam (mc_id c) = Some id ->
         exists r, handleRefreshMount parseUUIDParam sha256b64 now ttl drawn c e2 = (Err (Refused r), e2)).
Proof.
  intros W Ha Hl. pose proof (proj1 (live_agent_true _ _) Hl) as (Eg & Hg & _).
  destruct (delete_spec h now un er g id a e W Ha Hl) as (e' & Hd & W' & Hnone & a' & Ha' & Hf').
  assert (GetAllocationByAgent g (e_db e') = Err SNotFound) as Hget
    by (unfold GetAllocationByAgent, read; by rewrite Hnone).
  exists e'. split; [done |]. split; [| split].
  { unfold handleResolve, agentParam, run, on_db. rewrite decide_False by tauto. rewrite decide_False by done.
    by rewrite Hget. }
  { intros now2 raw. unfold handleEnrollToken, run, on_db. rewrite decide_False by done. by rewrite Hget. }
  intros e2 S2%runs_steps. destruct (dead_forever e' e2 id a' W' Ha' Hf' S2) as (a2 & Ha2 & Hf). split; [eauto |].
  destruct (revoked_no_lease e2 id a2 Ha2 Hf) as [Hacq Href]. split_and!.
  - intros g' row d [Hrow _]%read_Ok. destruct row as [i b]. apply live_row_Some in Hrow as [Hb (_ & _ & Hlb)%live_agent_true].
    simpl. intros ->. congruence.
  - intros ev now2 header ident c e3 (b & Hb & Hlb)%enrolled_live Hc. rewrite Hc in Hb. congruence.
  - intros now2 now' ttl fencer drawn c Hp. unfold handleAcquireMount.
    destruct (resolveMountRequest _ _ _ _) as [m|r] eqn:E; [| by exists r]. apply resolve_alloc in E.
    assert (mt_alloc m = id) as -> by congruence. destruct (drawIf _ _ _) as [[tok hash]|]; [| by exists serverError].
    rewrite Hacq. by eexists.
  - intros now2 ttl drawn c Hp. unfold handleRefreshMount.
    destruct (resolveMountRequest _ _ _ _) as [m|r] eqn:E; [| by exists r]. apply resolve_alloc in E.
    assert (mt_alloc m = id) as -> by congruence. destruct (drawIf _ _ _) as [[tok hash]|]; [| by exists serverError].
    rewrite Href. by eexists.
Qed.
End claims.
