(* ===== verification/MountsProps.v ===== *)
(** * From a provisioned disk to a mounted one

    An agent that has a live disk gets an enrol token, a certificate and a mount
    lease; a live lease is not taken over without force unless the data plane says
    that nobody holds the mount; the metering of an owner adds up. *)

From S2P Require Import Prelude GoPath Codec CtlStore Allocations AllocProps Enroll EnrollProps Provision Mounts ProvisionProps.

(** ** Placement succeeds when there is room *)

(** The tenant is placed on a server whose row is active, or it has no placement row, is
    registered now and a server has room. *)
Definition placeable (registered : bool) (tenant : gostr) (size : Z) (d : cdb) : Prop :=
  (exists vm, server_vms d !! tenant = Some vm /\ vm_Status vm = serverStatusActive) \/
  server_vms d !! tenant = None /\ registered = true /\ exists s p, server_pool d !! s = Some p /\ ps_Status p = StatusAvailable /\
    size <= ps_free p <= ps_total p.

(** Pool rows respect their CHECK. *)
Definition pool_ok (d : cdb) : Prop := map_Forall (fun _ p => 0 <= ps_free p <= ps_total p) (server_pool d).

Lemma best_Some l x : x ∈ l -> exists y, best l = Some y /\ y ∈ l.
Proof.
  revert x. induction l as [|z l IH]; intros x Hx; [by apply not_elem_of_nil in Hx |]. simpl.
  destruct l as [|w l]; [exists z; split; [done | by left] |].
  destruct (IH w) as (y & -> & Hy); [by left |].
  destruct (better z y); eexists; (split; [done |]); [by left | by right].
Qed.

Lemma Pick_room n d s p :
  server_pool d !! s = Some p -> ps_Status p = StatusAvailable -> n <= ps_free p ->
  exists s' p', PickBestAvailableServer n d = Ok ((s', p'), d) /\ server_pool d !! s' = Some p' /\
    ps_Status p' = StatusAvailable /\ n <= ps_free p'.
Proof.
  intros Hs Ha Hn. unfold PickBestAvailableServer, read.
  destruct (best_Some (filter (fun kp : uuid * poolServer => ps_Status kp.2 = StatusAvailable /\ n <= ps_free kp.2)
    (map_to_list (server_pool d))) (s, p)) as ([s' p'] & -> & Hin).
  { apply list_elem_of_filter. split; [done |]. by apply elem_of_map_to_list. }
  apply list_elem_of_filter in Hin as [[? ?] Hin%elem_of_map_to_list]. eauto 10.
Qed.

Lemma reserveTx_room now u us n d s p :
  pool_ok d -> users d !! u = Some us -> 0 < n ->
  server_pool d !! s = Some p -> ps_Status p = StatusAvailable -> n <= ps_free p ->
  exists s' addr d', reserveTx now u n d = Ok ((s', addr), d') /\
    (allocations d', users d', enrollments d', server_vms d') = (allocations d, users d, enrollments d, server_vms d).
Proof.
  intros Hok Hu Hn Hs Ha Hf. unfold reserveTx, mbind, txn_bind, stmt, look, GetUser, read at 1. rewrite Hu.
  destruct (ListOwnerCapacityReservations u d) as [|[[s0 n0] p0] rs] eqn:El; [| eauto 10].
  destruct (Pick_room n d s p Hs Ha Hf) as (s' & p' & -> & Hs' & Ha' & Hf'). simpl.
  unfold ReserveCapacity, update_pool. rewrite Hs', Ha'. simpl. rewrite (proj2 (Z.leb_le _ _) Hf').
  pose proof (Hok s' p' Hs') as Hb. simpl in Hb.
  replace ((0 <=? ps_free p' - n) && (ps_free p' - n <=? ps_total p')) with true by lia. simpl.
  unfold CreateOwnerCapacityReservation. simpl. rewrite bool_decide_false.
  - rewrite Hu, lookup_insert_eq. replace (0 <? n) with true by lia. simpl. eauto 10.
  - intros [r Hr]. pose proof (list_owner_complete u d s' r p' Hr Hs') as Hin. rewrite El in Hin.
    by apply not_elem_of_nil in Hin.
Qed.

Lemma enrollPlace_room ev now ident a u us d :
  pool_ok d -> da_UserID a = Some u -> users d !! u = Some us -> 0 < da_SizeBytes a ->
  placeable (ev_registered ev) (in_TenantID ident) (da_SizeBytes a) d ->
  exists addr d', enrollPlace ev now ident (Some a) d = (Ok addr, d') /\
    (allocations d', users d', enrollments d') = (allocations d, users d, enrollments d).
Proof.
  intros Hok Hu Hus Hn Hp. unfold enrollPlace, GetServerVMByTenant, read.
  destruct Hp as [(vm & -> & Hst)|(Hv & Hreg & s & p & Hs & Ha & Hf)];
    [rewrite decide_True by done; by exists (vm_DataAddr vm), d |]. rewrite Hv, Hreg, Hu. simpl.
  unfold Reserve, try, GetServerVMByTenant, read. rewrite Hv. unfold atomically.
  destruct (reserveTx_room now u us (da_SizeBytes a) d s p) as (s' & addr & d' & -> & E); try done; [lia |].
  injection E as E1 E2 E3 E4. unfold recordPlacement, try, CreateServerVM. rewrite E4, Hv. simpl.
  eexists _, _. split; [done |]. simpl. congruence.
Qed.

(** ** Leases *)

Lemma Acquire_Err now ttl id g force t d x d' :
  AcquireMountLeaseWithToken now ttl id g force t d = (Err x, d') -> d' = d.
Proof.
  unfold AcquireMountLeaseWithToken, try. destruct (AcquireMountLease _ _ _ _ _ _ d) as [[a d1]|[]]; [done | | by intros [= _ <-] ..].
  intros H. change d' with (@Err aerr allocation x, d').2. rewrite <- H. by apply explain_snd; [| intros y; repeat case_match].
Qed.

(** The row on which a lease was taken. *)
Lemma Acquire_row now ttl id g force t d a d' :
  AcquireMountLeaseWithToken now ttl id g force t d = (Ok a, d') ->
  exists a0, allocations d !! id = Some a0 /\ live a0 = true /\
    (force = true \/ da_BoundAgentID a0 = None \/ da_BoundAgentID a0 = Some g \/ lease_live now a0 = false).
Proof.
  unfold AcquireMountLeaseWithToken, try. destruct (AcquireMountLease _ _ _ _ _ _ d) as [[a1 d1]|[]] eqn:E; [| | done ..].
  - intros _. apply update_alloc_Ok in E as (a0 & Ha & Hc & _). exists a0. split; [done |].
    apply andb_true_iff in Hc as [Hl Hc]. split; [done |].
    rewrite !orb_true_iff, negb_true_iff in Hc. unfold bound_to in Hc. rewrite !bool_decide_eq_true in Hc. tauto.
  - unfold classifyLeaseMiss, try, GetAllocation, read. destruct (allocations d !! id); [| done]. by repeat case_match.
Qed.

(** The row after it. *)
Lemma Acquire_after now ttl id g force t d a d' :
  AcquireMountLeaseWithToken now ttl id g force t d = (Ok a, d') ->
  allocations d' = <[id := a]> (allocations d) /\ da_BoundAgentID a = Some g.
Proof.
  unfold AcquireMountLeaseWithToken, try. destruct (AcquireMountLease _ _ _ _ _ _ d) as [[a1 d1]|[]] eqn:E; [| | done ..].
  - intros [= <- <-]. by apply update_alloc_Ok in E as (a0 & Ha & _ & _ & -> & ->).
  - unfold classifyLeaseMiss, try, GetAllocation, read. destruct (allocations d !! id); [| done]. by repeat case_match.
Qed.

Lemma deadHolder_true fencer id d :
  deadHolder fencer id d = true ->
  exists a us probe ops, fencer = Some probe /\ allocations d !! id = Some a /\
    users d !! default 0 (da_UserID a) = Some us /\
    resolveTenantOpsAddr (us_TenantID us) d = Ok (Some ops) /\
    probe ops (us_TenantID us) (uuidString id) = Some false.
Proof.
  unfold deadHolder. destruct fencer as [probe|]; [| done]. unfold ownerOf.
  destruct (allocations d !! id) as [a|] eqn:Ha; [| done]. simpl.
  destruct (users d !! _) as [us|] eqn:Hus; [| done]. unfold MountSessionLive.
  destruct (resolveTenantOpsAddr _ d) as [[ops|]|] eqn:Er; [| done | done].
  destruct (probe ops _ _) as [[]|] eqn:Ep; [done | | done]. intros _. eauto 10.
Qed.

(** ** The steps of a pod *)

Section pod.
Context (parseUUIDParam : gostr -> option uuid) (sha256 sha256b64 : gostr -> gostr).

Lemma enrollToken_spec now tok g id a u us e :
  wf e -> allocations (e_db e) !! id = Some a -> live_agent g a = true -> da_UserID a = Some u ->
  users (e_db e) !! u = Some us -> e_tokens e !! sha256 tok = None ->
  handleEnrollToken sha256 now (Some tok) g e =
  (Ok (mkTokenResponse tok (now + AgentEnrollTokenTTL)),
   set_tokens (<[sha256 tok := mkTok PurposeAgentEnroll u (tenantForAgent g) (Some id)
                   (now + AgentEnrollTokenTTL) None None]> (e_tokens e)) e).
Proof.
  intros W Ha Hl Hu Hus Ht. pose proof (proj1 (live_agent_true _ _) Hl) as (Eg & Hg & _).
  destruct (wf_tenant e W id a Ha) as [Eten Hten]; [congruence |]. rewrite Eg in Eten.
  unfold handleEnrollToken. rewrite decide_False by done.
  unfold run, on_db, GetAllocationByAgent, GetUser, read. rewrite (live_row_unique e g id a W Ha Hl). simpl.
  rewrite set_edb_id, Hu. simpl. rewrite Hus, set_edb_id.
  rewrite decide_True by (rewrite Eten; discriminate).
  unfold IssueAgentEnrollToken, CreateAccessToken. rewrite Ht, bool_decide_false by (by intros [? ?]). simpl.
  rewrite Eten in *. rewrite !bool_decide_true by (done || by eexists). done.
Qed.

Lemma bearer_spec now header tok t ten us e :
  BearerToken header = tok -> tok <> [] -> take (length tokenPrefix) tok <> tokenPrefix ->
  e_tokens e !! sha256 tok = Some t -> at_Purpose t = PurposeAgentEnroll -> at_revoked t = None ->
  at_consumed t = None -> now <= at_ExpiresAt t -> users (e_db e) !! at_UserID t = Some us ->
  e_tenants e !! at_TenantID t = Some ten -> tn_suspended ten = false -> at_UserID t ∉ e_suspended e ->
  RequireEnrollBearer sha256 now header e =
  (Ok (mkIdent (at_UserID t) (at_TenantID t) PurposeAgentEnroll (at_AllocationID t)), e).
Proof.
  intros Hb Hn Hp Ht H1 H2 H3 H4 Hus Hten Hs Hsus. unfold RequireEnrollBearer. rewrite Hb.
  rewrite bool_decide_false by done. unfold AuthenticateEnrollBearer, authenticateRaw. rewrite Hb.
  rewrite decide_False by done. rewrite Ht, Hus, Hten. rewrite decide_False by (rewrite H1; tauto).
  rewrite H2, H3. rewrite !(bool_decide_false (is_Some None)) by (by intros [? ?]).
  replace (at_ExpiresAt t <? now) with false by lia. rewrite bool_decide_false by done. by rewrite Hs, H1.
Qed.

(** The certificate and its row. *)
Lemma enroll_spec ev now header tok t ten us id a serial na e :
  pool_ok (e_db e) -> BearerToken header = tok -> tok <> [] ->
  e_tokens e !! sha256 tok = Some t -> at_Purpose t = PurposeAgentEnroll -> at_consumed t = None ->
  allocations (e_db e) !! id = Some a -> live a = true -> da_UserID a = Some (at_UserID t) -> da_AgentID a <> [] ->
  0 < da_SizeBytes a -> users (e_db e) !! at_UserID t = Some us ->
  e_tenants e !! at_TenantID t = Some ten -> tn_suspended ten = false ->
  ev_allowed ev = true -> ev_ca ev = CaMinted serial na -> enrollments (e_db e) !! ev_id ev = None ->
  placeable (ev_registered ev) (at_TenantID t) (da_SizeBytes a) (e_db e) ->
  exists addr e', handleEnroll sha256 ev now header
      (mkIdent (at_UserID t) (at_TenantID t) PurposeAgentEnroll (Some id)) e =
    (Ok (mkEnrolled (at_TenantID t) (at_UserID t) (da_AgentID a) serial na addr id (da_SizeBytes a)), e') /\
    allocations (e_db e') = allocations (e_db e) /\ users (e_db e') = users (e_db e) /\
    enrollments (e_db e') = <[ev_id ev := mkEnroll (at_UserID t) serial na]> (enrollments (e_db e)).
Proof.
  intros Hpool Hb Hn Ht Hp Hc Ha Hl Hu Hag Hsz Hus Hten Hs Hal Hca Hid Hplace.
  set (ident := mkIdent _ _ _ _).
  destruct (enrollPlace_room ev now ident a (at_UserID t) us (e_db e) Hpool Hu Hus Hsz Hplace)
    as (addr & d' & Hpl & E). injection E as E1 E2 E3.
  unfold handleEnroll. rewrite Hal. simpl negb. cbv iota. change (in_TenantID ident) with (at_TenantID t).
  rewrite Hten, Hs. change (in_AllocationID ident) with (Some id). cbv iota beta. rewrite Ha.
  change (in_UserID ident) with (at_UserID t). unfold of_user. rewrite Hu, bool_decide_true by done.
  rewrite Hl. simpl orb. cbv iota. change (snd <$> Some (id, a)) with (Some a). rewrite Hpl.
  unfold caGate. rewrite Hca. rewrite decide_False by done.
  unfold enrollMint. rewrite Hca. rewrite decide_True by done.
  unfold ConsumeAgentEnrollToken. rewrite Hb. rewrite decide_False by done.
  unfold ConsumeToken. simpl e_tokens. rewrite Ht, Hp, Hc. simpl.
  unfold CreateAgentEnrollment. rewrite E2, E3, Hid, Hus. rewrite bool_decide_false by (by intros [? ?]).
  rewrite bool_decide_true by done. eexists _, _. split; [done |]. simpl. by rewrite E1.
Qed.

Lemma lower_upper c : lower (upper c) = lower c.
Proof. by destruct c as [[] [] [] [] [] [] [] []]. Qed.

Lemma lower_ToUpper s : lower <$> ToUpper s = lower <$> s.
Proof. unfold ToUpper. rewrite <- list_fmap_compose. apply list_fmap_ext. intros i c _. apply lower_upper. Qed.

(** The certificate finds its row when no other row has its serial. *)
Lemma fingerprint_spec now serial g u na (d : cdb) m :
  enrollments d = <[g := mkEnroll u serial na]> m -> m !! g = None ->
  map_Forall (fun _ r => same_serial serial r = false) m -> now < na ->
  GetActiveEnrollmentByFingerprint now (ToUpper serial) d = Ok ((g, mkEnroll u serial na), d).
Proof.
  intros Ed Hg Hm Hna. unfold GetActiveEnrollmentByFingerprint, read. rewrite Ed.
  erewrite (head_filter_unique _ _ g (mkEnroll u serial na)); [done | apply lookup_insert_eq | |].
  - simpl. unfold same_serial. rewrite lower_ToUpper, bool_decide_true by done. simpl. lia.
  - simpl. intros k r [[<- _]|[_ Hr]]%lookup_insert_Some Hq; [done |]. exfalso.
    apply andb_true_iff in Hq as [Hq _]. pose proof (Hm k r Hr) as Hf. unfold same_serial in *.
    rewrite lower_ToUpper in Hq. simpl in Hf. congruence.
Qed.

(** The request of a pod that presents its certificate and knows tokens. *)
Definition podCall (id serial : gostr) (force : bool) : mountCall :=
  mkCall id (Some (mkMountReq [] [] force)) (str "1") (Some serial).

Lemma podCall_spec id serial force :
  serial <> [] -> agentFingerprintFromRequest (podCall id serial force) = Ok (ToUpper serial, force, [], true).
Proof.
  intros Hs. unfold agentFingerprintFromRequest, podCall. simpl. rewrite decide_True; [done |].
  intros E. apply Hs. by destruct serial.
Qed.

Lemma mount_resolve now idText id serial force g u na a e :
  parseUUIDParam idText = Some id -> serial <> [] ->
  GetActiveEnrollmentByFingerprint now (ToUpper serial) (e_db e) = Ok ((g, mkEnroll u serial na), e_db e) ->
  allocations (e_db e) !! id = Some a -> da_UserID a = Some u -> da_AgentID a <> [] ->
  resolveMountRequest parseUUIDParam now (podCall idText serial force) e = Ok (mkMount id g force [] true).
Proof.
  intros Hp Hs Hf Ha Hu Hag. unfold resolveMountRequest. change (mc_id (podCall idText serial force)) with idText.
  rewrite Hp, podCall_spec by done. rewrite decide_False by (intros E; apply Hs; by destruct serial).
  rewrite Hf. unfold GetAllocation, read. rewrite Ha, Hu. simpl. rewrite Z.eqb_refl.
  by rewrite bool_decide_false.
Qed.

Lemma acquire_free now now' ttl fencer lt idText id serial g u na a e :
  parseUUIDParam idText = Some id -> serial <> [] -> lt <> [] ->
  GetActiveEnrollmentByFingerprint now (ToUpper serial) (e_db e) = Ok ((g, mkEnroll u serial na), e_db e) ->
  allocations (e_db e) !! id = Some a -> live a = true -> da_UserID a = Some u -> da_AgentID a <> [] ->
  0 < da_SizeBytes a -> is_Some (enrollments (e_db e) !! g) -> da_BoundAgentID a <> Some g -> lease_live now a = false ->
  exists r e', handleAcquireMount parseUUIDParam sha256b64 now now' ttl fencer (Some lt) (podCall idText serial false) e
      = (Ok r, e') /\
    aq_lease_id r = uuidString id /\ aq_expires_at r = now + ttl /\ aq_lease_token r = Some lt /\
    allocations (e_db e') =
      <[id := with_binding (Some g) (Some now) (Some (now + ttl)) (Some (sha256b64 lt)) a]> (allocations (e_db e)).
Proof.
  intros Hp Hs Hlt Hf Ha Hl Hu Hag Hsz Hg Hb Hll. unfold handleAcquireMount.
  rewrite (mount_resolve now idText id serial false g u na a e) by done. simpl.
  unfold hashMountLeaseToken. rewrite decide_False by done.
  unfold on_svc, AcquireMountLeaseWithToken, try, AcquireMountLease, update_alloc. rewrite Ha, Hl, Hll.
  rewrite orb_true_r. simpl. unfold bound_to at 1. rewrite (bool_decide_false _ Hb).
  unfold alloc_row_ok. simpl. rewrite (bool_decide_true _ Hg). replace (0 <? da_SizeBytes a) with true by lia. simpl.
  unfold bound_to. rewrite (bool_decide_false _ Hb). eexists _, _. split; [done |]. simpl.
  unfold nonempty. by rewrite decide_False.
Qed.

(** C29: An agent with a live disk gets it mounted.  On well-formed tables, with
    an owner and a tenant that are not suspended, a tenant that is placed on an active
    row or a server with room for the disk, an enrol token, a row id and a serial that
    are not in the tables yet, and when the limiter lets the pod through, the authority
    mints and no lease of the disk is live, the chain of a pod start succeeds: the enrol
    token is minted, it authenticates the pod while it is valid, it is traded for a
    certificate that names the agent, its tenant and its disk, and the certificate,
    while it has not expired, takes the mount lease of the disk when no lease is
    live, for the full term. *)
Theorem disk_reaches_mount e g id a u us ten tok header t0 t1 t2 t2' ttl ev serial na fencer lt idText :
  wf e -> pool_ok (e_db e) -> allocations (e_db e) !! id = Some a -> live_agent g a = true ->
  da_UserID a = Some u -> users (e_db e) !! u = Some us -> u ∉ e_suspended e ->
  e_tenants e !! tenantForAgent g = Some ten -> tn_suspended ten = false ->
  placeable (ev_registered ev) (tenantForAgent g) (da_SizeBytes a) (e_db e) ->
  BearerToken header = tok -> tok <> [] -> take (length tokenPrefix) tok <> tokenPrefix ->
  e_tokens e !! sha256 tok = None -> t1 <= t0 + AgentEnrollTokenTTL ->
  ev_allowed ev = true -> ev_ca ev = CaMinted serial na -> enrollments (e_db e) !! ev_id ev = None ->
  serial <> [] -> map_Forall (fun _ r => same_serial serial r = false) (enrollments (e_db e)) -> t2 < na ->
  lease_live t2 a = false -> parseUUIDParam idText = Some id -> lt <> [] ->
  let ident := mkIdent u (tenantForAgent g) PurposeAgentEnroll (Some id) in
  exists e1 addr e2 r e3,
    handleEnrollToken sha256 t0 (Some tok) g e = (Ok (mkTokenResponse tok (t0 + AgentEnrollTokenTTL)), e1) /\
    RequireEnrollBearer sha256 t1 header e1 = (Ok ident, e1) /\
    handleEnroll sha256 ev t1 header ident e1 =
      (Ok (mkEnrolled (tenantForAgent g) u g serial na addr id (da_SizeBytes a)), e2) /\
    handleAcquireMount parseUUIDParam sha256b64 t2 t2' ttl fencer (Some lt) (podCall idText serial false) e2 = (Ok r, e3) /\
    aq_lease_id r = uuidString id /\ aq_expires_at r = t2 + ttl /\ aq_lease_token r = Some lt /\
    allocations (e_db e3) =
      <[id := with_binding (Some (ev_id ev)) (Some t2) (Some (t2 + ttl)) (Some (sha256b64 lt)) a]> (allocations (e_db e)).
Proof.
  intros W Hpool Ha Hl Hu Hus Hsus Hten Htn Hplace Hb Hn Hpre Htok Ht1 Hal Hca Hid Hser Huniq Hna Hll Hp Hlt ident.
  pose proof (proj1 (live_agent_true _ _) Hl) as (Eg & Hg & Hlive).
  pose proof (wf_rows e W id a Ha) as Hok. simpl in Hok.
  assert (0 < da_SizeBytes a) as Hsz by (unfold alloc_row_ok in Hok; rewrite !andb_true_iff in Hok; lia).
  assert (da_BoundAgentID a <> Some (ev_id ev)) as Hbound.
  { intros E. unfold alloc_row_ok in Hok. rewrite E, !andb_true_iff, bool_decide_eq_true, Hid in Hok.
    by destruct Hok as [_ [? ?]]. }
  pose proof (enrollToken_spec t0 tok g id a u us e W Ha Hl Hu Hus Htok) as H1. set (e1 := set_tokens _ _) in H1.
  set (t := mkTok PurposeAgentEnroll u (tenantForAgent g) (Some id) (t0 + AgentEnrollTokenTTL) None None).
  assert (e_tokens e1 !! sha256 tok = Some t) as Ht by apply lookup_insert_eq.
  pose proof (bearer_spec t1 header tok t ten us e1 Hb Hn Hpre Ht eq_refl eq_refl eq_refl Ht1 Hus Hten Htn Hsus) as H2.
  destruct (enroll_spec ev t1 header tok t ten us id a serial na e1)
    as (addr & e2 & H3 & Ea & Eu & Een); try done; [congruence |].
  rewrite Eg in H3.
  destruct (acquire_free t2 t2' ttl fencer lt idText id serial (ev_id ev) u na a e2)
    as (r & e3 & H4 & R1 & R2 & R3 & Ed); try done.
  - by eapply (fingerprint_spec t2 serial (ev_id ev) u na (e_db e2) (enrollments (e_db e))).
  - by rewrite Ea.
  - congruence.
  - rewrite Een. apply lookup_insert_is_Some'. by left.
  - exists e1, addr, e2, r, e3. rewrite Ea in Ed. split_and!; done.
Qed.

(** The fingerprint that the request presents: the serial of the client certificate, or, of
    a client without one, what the body names. *)
Definition callerFingerprint (c : mountCall) : option gostr :=
  body ← mc_body c;
  let certFP := match mc_cert c with Some s => ToUpper s | None => [] end in
  let fp := if decide (certFP <> []) then certFP else TrimSpace (mq_AgentFingerprint body) in
  if decide (fp = []) then None else Some fp.

Lemma resolve_inv now c e m :
  resolveMountRequest parseUUIDParam now c e = Ok m ->
  parseUUIDParam (mc_id c) = Some (mt_alloc m) /\
  (exists body, mc_body c = Some body /\ mt_force m = mq_Force body) /\
  exists fp a en, callerFingerprint c = Some fp /\ same_serial fp en = true /\ allocations (e_db e) !! mt_alloc m = Some a /\ enrollments (e_db e) !! mt_agent m = Some en /\
    now < er_CertNotAfter en /\ default 0 (da_UserID a) = er_UserID en /\ da_AgentID a <> [].
Proof.
  unfold resolveMountRequest. destruct (parseUUIDParam (mc_id c)) as [id|]; [| done].
  destruct (agentFingerprintFromRequest c) as [[[[fp f] t] sp]|] eqn:Ef; [| done]. case_decide; [done |].
  destruct (GetActiveEnrollmentByFingerprint _ _ _) as [[[g r] ?]|[]] eqn:Eg; [| by repeat case_match | done | done].
  unfold GetActiveEnrollmentByFingerprint in Eg. apply read_Ok in Eg as [[Hin%elem_of_map_to_list Hx]%head_filter_Some _]. simpl in Hx.
  apply andb_true_iff in Hx as [Hs Hx%Z.ltb_lt].
  destruct (GetAllocation _ _) as [[a ?]|] eqn:Ea; [| done]. apply GetAllocation_Ok in Ea as [Ha _].
  destruct (_ || _) eqn:Hc; [done |]. apply orb_false_iff in Hc as [Hu%negb_false_iff%Z.eqb_eq Hag%bool_decide_eq_false].
  intros [= <-]. simpl. split; [done |].
  unfold agentFingerprintFromRequest in Ef. destruct (mc_body c) as [body|] eqn:Eb; [| done].
  case_match; [done |]. case_match; [done |]. injection Ef as Efp Ef _ _. split; [by exists body |].
  exists fp, a, r. split; [| done]. unfold callerFingerprint. rewrite Eb. cbn [mbind option_bind].
  rewrite Efp. by rewrite decide_False.
Qed.

(** C10: A pod never displaces a live mount unasked.  A mount request is granted only to
    the enrolment [g] of the certificate that it presents (a client that shows no
    certificate names a fingerprint in the body instead), which has not expired and whose
    owner is the owner of the disk, and it is [g] that the disk is bound to afterwards, no
    other disk changing.  One that does not force and is granted the lease found the disk
    unbound, bound to [g] already or with an expired lease, or the data plane, asked for
    the tenant of the owner at the address of its server, answered that no session is
    live.  A refused request changes no table. *)
Theorem no_unasked_takeover now now' ttl fencer drawn c e r e' :
  handleAcquireMount parseUUIDParam sha256b64 now now' ttl fencer drawn c e = (r, e') ->
  match r with
  | Err _ => e' = e
  | Ok _ =>
      exists body fp id a a' g en, mc_body c = Some body /\ parseUUIDParam (mc_id c) = Some id /\
        callerFingerprint c = Some fp /\ enrollments (e_db e) !! g = Some en /\ same_serial fp en = true /\
        now < er_CertNotAfter en /\ allocations (e_db e) !! id = Some a /\ live a = true /\
        default 0 (da_UserID a) = er_UserID en /\
        allocations (e_db e') = <[id := a']> (allocations (e_db e)) /\ da_BoundAgentID a' = Some g /\
        (mq_Force body = true \/ da_BoundAgentID a = None \/ da_BoundAgentID a = Some g \/ lease_live now a = false \/
         exists us probe ops, users (e_db e) !! er_UserID en = Some us /\ fencer = Some probe /\
           resolveTenantOpsAddr (us_TenantID us) (e_db e) = Ok (Some ops) /\
           probe ops (us_TenantID us) (uuidString id) = Some false)
  end.
Proof.
  unfold handleAcquireMount. destruct (resolveMountRequest _ now c e) as [m|x] eqn:Em; [| by intros [= <- <-]].
  apply resolve_inv in Em as (Hp & (body & Hbody & Hforce) & fp & a & en & Hfp & Hser & Ha & Hen & Hna & Hu & Hag).
  destruct (drawIf _ _ _) as [[tok hash]|]; [| by intros [= <- <-]].
  unfold on_svc. destruct (AcquireMountLeaseWithToken now ttl _ _ _ hash (e_db e)) as [[a1|x] d1] eqn:E1.
  - intros [= <- <-]. pose proof (Acquire_after _ _ _ _ _ _ _ _ _ E1) as [Ed Eg].
    apply Acquire_row in E1 as (a0 & Ha0 & Hl & Hc). rewrite Ha in Ha0. injection Ha0 as <-.
    exists body, fp, (mt_alloc m), a, a1, (mt_agent m), en. rewrite Hforce in Hc. split_and!; try done.
    destruct Hc as [?|[?|[?|?]]]; auto 6.
  - apply Acquire_Err in E1 as ->. rewrite set_edb_id.
    assert ((Err (writeLeaseError x), e) = (r, e') -> match r with Err _ => e' = e | Ok _ => False end) as Hdone
      by (by intros [= <- <-]).
    destruct x; try (by intros H%Hdone; destruct r).
    destruct (negb (mt_force m) && deadHolder fencer (mt_alloc m) (e_db e)) eqn:Ed; [| by intros [= <- <-]].
    apply andb_true_iff in Ed as [_ (a0 & us & probe & ops & Hf & Ha0 & Hus & Hops & Hpr)%deadHolder_true].
    rewrite Ha in Ha0. injection Ha0 as <-. rewrite Hu in Hus.
    destruct (AcquireMountLeaseWithToken now' ttl _ _ _ hash (e_db e)) as [[a2|x] d2] eqn:E2.
    + intros [= <- <-]. pose proof (Acquire_after _ _ _ _ _ _ _ _ _ E2) as [Ed Eg].
      apply Acquire_row in E2 as (a0 & Ha0 & Hl & _). rewrite Ha in Ha0. injection Ha0 as <-.
      exists body, fp, (mt_alloc m), a, a2, (mt_agent m), en. split_and!; try done. do 4 right. eauto 10.
    + apply Acquire_Err in E2 as ->. rewrite set_edb_id. by intros [= <- <-].
Qed.
End pod.

(** ** Witnesses *)

Module PodExample.
(** One server with a free kilobyte and nothing else. *)
Definition pool : poolServer := mkPool (str "h:1") (str "h:2") 1000 1000 StatusAvailable.
Definition empty : edb := mkE (mkCdb ∅ ∅ ∅ ∅ ∅ {[ 9 := pool ]} ∅) ∅ ∅ ∅ ∅.
(** The text of an id is the decimal digit string of the tests. *)
Definition parse (s : gostr) : option uuid :=
  if decide (s = str "1") then Some 1 else if decide (s = str "21") then Some 21
  else if decide (s = str "2") then Some 2 else None.
Definition hash (s : gostr) : gostr := s.
Definition h : entityHandlers := newEntityHandlers 0 [] true.
Definition req (o : string) : option provisionEntityRequest :=
  Some (mkProvision EntityTypeAgent (str "ag") (str o) 100 0).
Definition owned : edb := (handleProvision parse h 5 21 (req "1") empty).2.
Definition disk : allocation := mkDA (Some 1) (str "a_ag") (str "ag") 100 5 None None None None None None.
Definition env (id : uuid) (serial : string) : enrollEnv := mkEnv true true false (CaMinted (str serial) 500) id.
Definition header : gostr := str "Bearer secret".
Definition ident : identity := mkIdent 1 (str "a_ag") PurposeAgentEnroll (Some 21).
Definition tokened : edb := (handleEnrollToken hash 10 (Some (str "secret")) (str "ag") owned).2.
Definition certified : edb := (handleEnroll hash (env 77 "0A") 11 header ident tokened).2.
Definition mounted : edb :=
  (handleAcquireMount parse hash 20 20 60 None (Some (str "lt")) (podCall (str "21") (str "0A") false) certified).2.
Definition overlapped : edb := (handleEnrollToken hash 10 (Some (str "other")) (str "ag") tokened).2.
Definition enrolment : result refusal enrolled * edb := handleEnroll hash (env 77 "0A") 11 header ident overlapped.

(** A second pod of the agent, with its own certificate. *)
Definition second : edb :=
  (handleEnroll hash (env 78 "0B") 31 (str "Bearer other") ident
     (handleEnrollToken hash 30 (Some (str "other")) (str "ag") mounted).2).2.
Definition takeover (fencer : prober) : result leaseRefusal acquireResponse * edb :=
  handleAcquireMount parse hash 40 40 60 fencer (Some (str "l2")) (podCall (str "21") (str "0B") false) second.
Definition late : result leaseRefusal acquireResponse * edb :=
  handleAcquireMount parse hash 90 90 60 None (Some (str "l2")) (podCall (str "21") (str "0B") false) second.

Lemma empty_wf : wf empty.
Proof.
  split; simpl; [intros g i1 i2 a1 a2 H1 | intros id a H1 | intros id a H1 | intros u us H1 |].
  1-4: by rewrite lookup_empty in H1.
  apply map_Forall_empty.
Qed.

Lemma owned_runs : runs parse parse hash hash empty owned.
Proof. apply rtc_once. left. apply rq_provision. Qed.

Lemma owned_wf : wf owned.
Proof. apply (psteps_ok empty owned empty_wf). eapply runs_steps, owned_runs. Qed.

Lemma tokened_wf : wf tokened.
Proof. apply (psteps_ok owned tokened owned_wf). apply enrollToken_steps. Qed.
End PodExample.

Lemma one_disk_per_agent_witness :
  da_TenantID PodExample.disk = str "a_ag" /\ wf PodExample.owned.
Proof.
  destruct (one_disk_per_agent PodExample.parse PodExample.parse PodExample.hash PodExample.hash
    PodExample.empty PodExample.owned PodExample.empty_wf PodExample.owned_runs) as (_ & H & W).
  split; [| exact W]. by destruct (H 21 PodExample.disk) as [-> _]; [by vm_compute | by vm_compute |].
Defined.

(** The second owner gets the handle of the first. *)
Lemma provision_idempotent_witness :
  exists e3, handleProvision PodExample.parse PodExample.h 6 22 (PodExample.req "2") PodExample.owned
    = (Ok (entityOf PodExample.h 21 (str "ag")), e3).
Proof.
  destruct (provision_idempotent PodExample.parse PodExample.parse PodExample.hash PodExample.hash
    0 [] true 5 21 (str "ag") (str "1") 100 0 1 PodExample.empty)
    as (id & a & e' & Hr & _ & _ & _ & Hc & H);
    [exact PodExample.empty_wf | by vm_compute | done | done | by vm_compute |].
  destruct Hc as [-> _].
  assert (e' = PodExample.owned) as -> by (unfold PodExample.owned, PodExample.h, PodExample.req; by rewrite Hr).
  destruct (H PodExample.owned PodExample.disk (rtc_refl _ _)) as [_ H2]; [by vm_compute | by vm_compute |].
  destruct (H2 6 22 (str "2") 2 100 0) as (e3 & H3 & _); [by vm_compute | done | by vm_compute |].
  exists e3. exact H3.
Defined.

Lemma disk_reaches_mount_witness :
  exists r, (handleAcquireMount PodExample.parse PodExample.hash 20 20 60 None (Some (str "lt"))
     (podCall (str "21") (str "0A") false) PodExample.certified).1 = Ok r /\ aq_expires_at r = 80.
Proof.
  destruct (disk_reaches_mount PodExample.parse PodExample.hash PodExample.hash PodExample.owned (str "ag") 21
    PodExample.disk 1 (mkUser (str "u_1") defaultQuotaBytes) (mkTenant (str "a_ag") false) (str "secret")
    PodExample.header 10 11 20 20 60 (PodExample.env 77 "0A") (str "0A") 500 None (str "lt") (str "21"))
    as (e1 & addr & e2 & r & e3 & H1 & H2 & H3 & H4 & _ & Hx & _).
  - exact PodExample.owned_wf.
  - unfold pool_ok. change (server_pool (e_db PodExample.owned)) with ({[ 9 := PodExample.pool ]} : gmap uuid poolServer).
    by apply map_Forall_singleton.
  - by vm_compute.
  - by vm_compute.
  - done.
  - by vm_compute.
  - change (e_suspended PodExample.owned) with (∅ : gset uuid). set_solver.
  - by vm_compute.
  - done.
  - right. split; [by vm_compute |]. split; [done |]. exists 9, PodExample.pool. by vm_compute.
  - by vm_compute.
  - done.
  - by vm_compute.
  - by vm_compute.
  - by vm_compute.
  - done.
  - done.
  - by vm_compute.
  - done.
  - change (enrollments (e_db PodExample.owned)) with (∅ : gmap uuid enrollment). apply map_Forall_empty.
  - done.
  - by vm_compute.
  - by vm_compute.
  - done.
  - exists r. assert (e1 = PodExample.tokened) as -> by (unfold PodExample.tokened; by rewrite H1).
    split; [| exact Hx].
    assert (e2 = PodExample.certified) as -> by exact (f_equal snd (eq_sym H3)). by rewrite H4.
Defined.

Lemma delete_is_final_witness :
  exists e', handleDelete PodExample.h 7 true true EntityTypeAgent (str "ag") PodExample.owned = (Ok tt, e') /\
    handleResolve PodExample.h EntityTypeAgent (str "ag") e' = (Err notFound, e').
Proof.
  destruct (delete_is_final PodExample.parse PodExample.parse PodExample.hash PodExample.hash PodExample.h 7 true true
    (str "ag") 21 PodExample.disk PodExample.owned PodExample.owned_wf) as (e' & H1 & H2 & _);
    [by vm_compute | by vm_compute |].
  exists e'. split; [exact H1 | exact H2].
Defined.

(** The token of the first pod, spent while another token is being minted. *)
Lemma certificate_is_scoped_witness :
  exists c, PodExample.enrolment.1 = Ok c /\ en_allocation c = 21 /\ en_TenantID c = str "a_ag" /\ en_AgentID c = str "ag".
Proof.
  set (c := mkEnrolled (str "a_ag") 1 (str "ag") (str "0A") 500 (str "h:1") 21 100).
  assert (PodExample.enrolment.1 = Ok c) as E by (vm_compute; reflexivity).
  destruct (certificate_is_scoped PodExample.hash (PodExample.env 77 "0A") 11 11 PodExample.header PodExample.owned
    PodExample.tokened PodExample.ident PodExample.tokened PodExample.overlapped c PodExample.enrolment.2)
    as (t & a & ten & _ & _ & _ & _ & _ & _ & _ & _ & _ & _ & _ & _ & _ & _ & _ & _ & Hten).
  - exact PodExample.owned_wf.
  - intros h t Ht. change (e_tokens PodExample.owned) with (∅ : gmap gostr accessToken) in Ht. by rewrite lookup_empty in Ht.
  - apply enrollToken_asteps, PodExample.owned_wf.
  - by vm_compute.
  - apply enrollToken_asteps, PodExample.tokened_wf.
  - exact (eq_trans (surjective_pairing PodExample.enrolment) (f_equal (fun r => (r, PodExample.enrolment.2)) E)).
  - exists c. split; [exact E |]. split; [done |]. rewrite Hten. by vm_compute.
Defined.

(** The lease of the first pod is live at 40: the second one is refused; at 90 it has
    expired, and the disk becomes that of the second certificate. *)
Lemma no_unasked_takeover_witness :
  (PodExample.takeover None).1 = Err (LeaseLive (Some 20) 80) /\
  (PodExample.takeover None).2 = PodExample.second /\
  exists a g en, allocations (e_db PodExample.late.2) !! 21 = Some a /\ da_BoundAgentID a = Some g /\
    enrollments (e_db PodExample.second) !! g = Some en /\ same_serial (str "0B") en = true.
Proof.
  assert ((PodExample.takeover None).1 = Err (LeaseLive (Some 20) 80)) as E by (by vm_compute). split; [exact E |].
  pose proof (no_unasked_takeover PodExample.parse PodExample.hash 40 40 60 None (Some (str "l2"))
    (podCall (str "21") (str "0B") false) PodExample.second _ _ (surjective_pairing (PodExample.takeover None))) as H.
  rewrite E in H. split; [exact H |].
  pose proof (no_unasked_takeover PodExample.parse PodExample.hash 90 90 60 None (Some (str "l2"))
    (podCall (str "21") (str "0B") false) PodExample.second _ _ (surjective_pairing PodExample.late)) as G.
  assert (exists q, PodExample.late.1 = Ok q) as [q Eq] by (eexists; vm_compute; reflexivity). rewrite Eq in G.
  destruct G as (body & fp & id & a & a' & g & en & _ & Hid & Hfp & Hen & Hs & _ & _ & _ & _ & Ha & Hg & _).
  vm_compute in Hid. injection Hid as <-. vm_compute in Hfp. injection Hfp as <-.
  exists a', g, en. rewrite Ha. split; [apply lookup_insert_eq |]. split_and!; [exact Hg | exact Hen | exact Hs].
Defined.

(** ** Where the code falls short *)

(** The probe and the fence ask for the tenant of the owner, but the disk of an
    agent is placed under the tenant of the agent: although the data plane would
    answer that the holder is gone, the lease is not reclaimed, and neither is a
    session fenced when the lease is taken by force. *)
Example dead_holder_not_reclaimed :
  (PodExample.takeover (Some (fun _ _ _ => Some false))).1 = Err (LeaseLive (Some 20) 80) /\
  server_vms (e_db PodExample.second) !! str "a_ag" = Some (mkVM (str "h:1") serverStatusActive) /\
  fenceAllocationBestEffort (Some (fun _ _ _ => Some false)) 21 (e_db PodExample.second) = None.
Proof. by vm_compute. Qed.

(** A reassignment between the lookup of a delete and its revocation: the revocation names
    the old owner and finds no row, which counts as done; the delete succeeds, nothing is
    left for the sweep, and the disk stays live. *)
Example delete_misses_reassigned :
  let e := PodExample.owned in
  let e1 := (handleReassign PodExample.parse EntityTypeAgent (str "ag") (Some (str "2")) e).2 in
  exists row e2, GetAllocationByAgent (str "ag") (e_db e) = Ok (row, e_db e) /\
    deleteRow PodExample.h 7 true true row e1 = (Ok tt, e2) /\
    exists a, allocations (e_db e2) !! 21 = Some a /\ live a = true.
Proof. eexists _, _. split; [by vm_compute |]. split; [by vm_compute |]. eexists. by vm_compute. Qed.

(** The usage that the dashboard shows is asked for the same tenant: for the disk
    of an agent it is zero, whatever the server has stored, while the metering of
    the owner finds it. *)
Example dashboard_usage_blind :
  let admin := mkE (e_db PodExample.second) {[ str "s" := mkTok PurposeAdmin 1 (str "u_1") None 99 None None ]} ∅
                 (e_tenants PodExample.second) ∅ in
  (handleAllocationUsage PodExample.parse PodExample.hash 50 (Some (fun _ _ => Some 42)) (Some (str "s")) (str "21") admin).1
    = Ok (mkUsage (uuidString 21) 0 100) /\
  (handleTenantUsage PodExample.parse (Some (fun _ _ => Some 42)) (str "1") admin).1
    = Ok (mkTenantUsage (uuidString 1) 42 false).
Proof. by vm_compute. Qed.

(** A disk that changed hands is released on the books of its new owner, while the
    reservation is on those of the old one: when it is deleted and purged the
    capacity of the server is not given back, as it is without the reassignment. *)
Example reassign_leaks_capacity :
  let moved := (handleReassign PodExample.parse EntityTypeAgent (str "ag") (Some (str "2")) PodExample.certified).2 in
  let free e := ps_free <$> server_pool (e_db e) !! 9 in
  let purged := handleDelete PodExample.h 50 true true EntityTypeAgent (str "ag") in
  (purged PodExample.certified).1 = Ok tt /\ free (purged PodExample.certified).2 = Some 1000 /\
  (purged moved).1 = Ok tt /\ free (purged moved).2 = Some 900 /\
  (da_PurgedAt <$> allocations (e_db (purged moved).2) !! 21) = Some (Some 50).
Proof. by vm_compute. Qed.

(** Provisioning an agent a second time, for another owner, hands its disk over. *)
Example reprovision_moves_owner :
  let '(r, e) := handleProvision PodExample.parse PodExample.h 6 22 (PodExample.req "2") PodExample.owned in
  is_ok r = true /\ (da_UserID <$> allocations (e_db PodExample.owned) !! 21) = Some (Some 1) /\
  (da_UserID <$> allocations (e_db e) !! 21) = Some (Some 2) /\ allocations (e_db e) !! 22 = None.
Proof. by vm_compute. Qed.
