(* ===== verification/SweepProps.v ===== *)
(** * The purge sweep drains what is pending

    When the servers answer, a sweep erases the oldest pending disks, as many as
    its limit allows, and none of its calls fails; repeated sweeps leave nothing
    pending.  The release of capacity that a purge runs cannot fail on tables
    that respect their constraints. *)

From S2P Require Import Prelude CtlStore Allocations AllocProps Enroll Provision.

(** ** Tables that respect their constraints *)

Record books (d : cdb) : Prop := {
  bk_resv : map_Forall (fun _ r => 0 < rs_size r) (reservations d);
  bk_pool : map_Forall (fun _ p => 0 <= ps_free p <= ps_total p) (server_pool d);
  bk_placed t vm : server_vms d !! t = Some vm ->
    exists s p, server_pool d !! s = Some p /\ ps_DataAddr p = vm_DataAddr vm }.

(** What releasing capacity leaves as it is. *)
Record releases (d d' : cdb) : Prop := {
  rl_tables : (allocations d', users d', enrollments d') = (allocations d, users d, enrollments d);
  rl_vms : server_vms d' ⊆ server_vms d;
  rl_pool s p : server_pool d !! s = Some p -> exists p', server_pool d' !! s = Some p' /\ ps_DataAddr p' = ps_DataAddr p }.

#[export] Instance releases_preorder : PreOrder releases.
Proof.
  split.
  - intros d. split; [done | done | eauto].
  - intros d1 d2 d3 [T1 V1 P1] [T2 V2 P2]. split; [congruence | by transitivity (server_vms d2) |].
    intros s p (p' & Hp' & E1)%P1. destruct (P2 s p' Hp') as (p'' & Hp'' & E2). exists p''. split; [done | congruence].
Qed.

Lemma releases_placed d d' t vm :
  books d -> releases d d' -> server_vms d' !! t = Some vm ->
  exists s p, server_pool d' !! s = Some p /\ ps_DataAddr p = vm_DataAddr vm.
Proof.
  intros B [_ V P] Ht. destruct (bk_placed d B t vm) as (s & p & Hp & E); [by eapply lookup_weaken |].
  destruct (P s p Hp) as (p' & Hp' & E'). exists s, p'. split; [done | congruence].
Qed.

(** ** Releasing capacity *)

Lemma ReleaseCapacity_total s n p d :
  books d -> server_pool d !! s = Some p -> 0 < n ->
  exists d', ReleaseCapacity s n d = Ok (tt, d') /\ books d' /\ releases d d' /\ reservations d' = reservations d.
Proof.
  intros B Hp Hn. pose proof (bk_pool d B s p Hp) as Hb. simpl in Hb.
  set (f := Z.min (ps_free p + n) (ps_total p)). exists (set_server_pool (<[s := with_free f p]> (server_pool d)) d).
  split; [apply update_pool_Ok; exists p; split_and!; try done; subst f; lia |].
  assert (releases d (set_server_pool (<[s := with_free f p]> (server_pool d)) d)) as R.
  { split; [done | done |]. intros s' q Hq. simpl. destruct (decide (s = s')) as [<-|Hne].
    - rewrite lookup_insert_eq. eexists. split; [done |]. simpl. congruence.
    - rewrite lookup_insert_ne by done. eauto. }
  split; [| done]. split; [apply B | | intros t addr; by apply (releases_placed d)].
  apply map_Forall_insert_2; [subst f; simpl; lia | apply B].
Qed.

Lemma books_delete u s d : books d -> books (set_reservations (delete (u, s) (reservations d)) d).
Proof. intros [R P V]. split; [by apply map_Forall_delete | done | done]. Qed.

Lemma releaseLoop_total u rs acc d :
  books d -> pending u rs d -> (forall s n p, (s, n, p) ∈ rs -> is_Some (server_pool d !! s)) ->
  exists k d', releaseLoop u rs acc d = Ok (k, d') /\ books d' /\ releases d d'.
Proof.
  revert acc d. induction rs as [|[[s n] p] rs IH]; intros acc d B P Hpool; [by exists acc, d |].
  destruct (proj2 P s n p) as (r & Hr & Hn); [by left |]. destruct (Hpool s n p) as [q Hq]; [by left |].
  assert (0 < n) as Hpos by (pose proof (bk_resv d B _ _ Hr) as Hp; simpl in Hp; lia).
  simpl. unfold mbind, txn_bind, look, stmt.
  destruct (negb _).
  { apply IH; [done | by eapply pending_tail |]. intros s' n' p' Hin. apply (Hpool s' n' p'). by right. }
  unfold DeleteOwnerCapacityReservation. rewrite Hr. simpl.
  set (d0 := set_reservations (delete (u, s) (reservations d)) d).
  destruct (ReleaseCapacity_total s n q d0) as (d1 & -> & B1 & R1 & E1); [by apply books_delete | done | done |].
  destruct (IH (acc + n) d1) as (k & d' & -> & B' & R').
  - done.
  - eapply pending_tail; [done |]. intros s' Hs. rewrite E1. simpl. by rewrite lookup_delete_ne by congruence.
  - intros s' n' p' Hin. destruct (Hpool s' n' p') as [q' Hq']; [by right |].
    destruct (rl_pool _ _ R1 s' q' Hq') as (q'' & ? & _). eauto.
  - exists k, d'. split; [done |]. split; [done |]. transitivity d1; [| done].
    destruct R1 as [T V PP]. by split.
Qed.

Lemma release_total o us t d :
  users d !! o = Some us -> books d ->
  exists k d', releaseUnusedOwnerCapacity o t d = (Ok k, d') /\ books d' /\ releases d d'.
Proof.
  intros Hu B. set (d0 := if decide (t = []) then d else set_server_vms (delete t (server_vms d)) d).
  assert (books d0 /\ releases d d0) as [B0 R0].
  { subst d0. case_decide; [done |].
    assert (releases d (set_server_vms (delete t (server_vms d)) d)) as R
      by (split; [done | apply delete_subseteq | eauto]).
    split; [| done]. split; [apply B | apply B | intros x addr; by apply (releases_placed d)]. }
  unfold releaseUnusedOwnerCapacity, atomically, releaseTx, mbind, txn_bind, stmt at 1, GetUser, read. rewrite Hu.
  assert ((if decide (t = []) then mret tt else stmt ErrStorage (DeleteServerVM t) : txn unit) d = Ok (tt, d0)) as ->
    by (subst d0; by case_decide).
  unfold look. destruct (_ =? 0); [| by exists 0, d0].
  destruct (releaseLoop_total o (ListOwnerCapacityReservations o d0) 0 d0) as (k & d' & -> & B' & R');
    [done | apply pending_list | by intros s n p [? _]%list_owner_spec |].
  exists k, d'. split; [done |]. split; [done | by transitivity d0].
Qed.

(** ** One purge *)

Lemma mark_total now id a d :
  rows_ok d -> allocations d !! id = Some a -> live a = false -> da_PurgedAt a = None ->
  markPurged now id d = (Ok tt, set_allocations (<[id := with_purged now a]> (allocations d)) d).
Proof.
  intros Hok Ha Hl Hp. unfold markPurged, try, MarkAllocationPurged, update_alloc. rewrite Ha, Hl, Hp. simpl.
  by replace (alloc_row_ok (with_purged now a) d) with true by (symmetry; exact (Hok id a Ha)).
Qed.

(** The tables between two purges. *)
Record sweepable (d : cdb) : Prop := { sb_rows : rows_ok d; sb_books : books d }.

Lemma sweepable_mark now id a d :
  sweepable d -> allocations d !! id = Some a ->
  sweepable (set_allocations (<[id := with_purged now a]> (allocations d)) d).
Proof.
  intros [Hr [B1 B2 B3]] Ha. split; [| by split]. apply map_Forall_insert_2; [exact (Hr id a Ha) | exact Hr].
Qed.

Lemma purge_pending_inv d a :
  purge_pending d a = true ->
  live a = false /\ da_PurgedAt a = None /\ da_AgentID a <> [] /\
  exists u us, da_UserID a = Some u /\ users d !! u = Some us.
Proof.
  unfold purge_pending. rewrite !andb_true_iff, negb_true_iff, !bool_decide_eq_true.
  intros [[[Hl Hp] Ha] Hu]. split_and!; [done | done | done |].
  destruct (da_UserID a) as [u|]; [| done]. apply bool_decide_eq_true in Hu as [us Hus]. eauto.
Qed.

Lemma purge_total now id a d :
  sweepable d -> allocations d !! id = Some a -> purge_pending d a = true ->
  exists d', PurgeAllocation now true true id d = (Ok tt, d') /\ sweepable d' /\ users d' = users d /\
    allocations d' = <[id := with_purged now a]> (allocations d).
Proof.
  intros Sb Ha (Hl & Hp & Hag & u & us & Hu & Hus)%purge_pending_inv.
  assert (forall t, exists d', release_and_mark now id u t d = (Ok tt, d') /\ sweepable d' /\ users d' = users d /\
    allocations d' = <[id := with_purged now a]> (allocations d)) as Hrel.
  { intros t. unfold release_and_mark.
    destruct (release_total u us t d Hus (sb_books d Sb)) as (k & d1 & -> & B1 & [[= E1 E2 E3] _ _]).
    assert (sweepable d1) as Sb1.
    { split; [| done]. unfold rows_ok, alloc_row_ok. rewrite E1, E3. apply (sb_rows d Sb). }
    assert (allocations d1 !! id = Some a) as Ha1 by congruence.
    rewrite (mark_total now id a d1 (sb_rows d1 Sb1) Ha1 Hl Hp).
    eexists. split; [done |]. split; [by apply sweepable_mark |]. simpl. by rewrite E1. }
  unfold PurgeAllocation, try, GetAllocation, GetUser, GetServerVMByTenant, read. rewrite Ha, Hl, Hp. simpl.
  rewrite decide_False by done. rewrite Hu. simpl. rewrite Hus.
  destruct (server_vms d !! tenantOf us a) as [addr|] eqn:Hv; [| apply Hrel].
  unfold GetServerPoolByDataAddr, read.
  destruct (bk_placed d (sb_books d Sb) _ _ Hv) as (s & p & Hs & Eaddr).
  destruct (head (filter _ (map_to_list (server_pool d)))) as [sp|] eqn:Eh.
  - case_match; [apply Hrel |]. rewrite (mark_total now id a d (sb_rows d Sb) Ha Hl Hp).
    eexists. split; [done |]. split; [by apply sweepable_mark | done].
  - exfalso. destruct (filter _ (map_to_list (server_pool d))) as [|x l] eqn:Ef; [| done].
    assert ((s, p) ∈ filter (fun kp : uuid * poolServer => ps_DataAddr kp.2 = (vm_DataAddr addr)) (map_to_list (server_pool d))) as Hin
      by (apply list_elem_of_filter; split; [done | by apply elem_of_map_to_list]).
    rewrite Ef in Hin. by apply not_elem_of_nil in Hin.
Qed.

(** ** The loop *)

Definition pendings (d : cdb) : gmap uuid allocation :=
  filter (fun ka => purge_pending d ka.2 = true) (allocations d).

Lemma pendings_lookup d id a :
  pendings d !! id = Some a <-> allocations d !! id = Some a /\ purge_pending d a = true.
Proof. apply map_lookup_filter_Some. Qed.

(** Every call of the sweep is answered and the request is not cancelled. *)
Definition answered (env : uuid -> rowEnv) : Prop :=
  forall id, re_cancelled (env id) = false /\ re_unregistered (env id) = true /\ re_erased (env id) = true.

Lemma purged_not_pending d now a : purge_pending d (with_purged now a) = false.
Proof. unfold purge_pending. simpl. by rewrite andb_false_r. Qed.

(** A purged disk leaves the queue, the others stay in it. *)
Lemma purged_pendings now id a d d' :
  allocations d !! id = Some a -> users d' = users d ->
  allocations d' = <[id := with_purged now a]> (allocations d) -> pendings d' = delete id (pendings d).
Proof.
  intros Ha Eu Ea. apply map_eq. intros i. unfold pendings. rewrite Ea.
  assert (forall b, purge_pending d' b = purge_pending d b) as Ep by (intros b; unfold purge_pending; by rewrite Eu).
  destruct (decide (i = id)) as [->|Hne].
  - rewrite lookup_delete_eq. apply map_lookup_filter_None. right. intros b Hb.
    rewrite lookup_insert_eq in Hb. injection Hb as <-. simpl. by rewrite purged_not_pending.
  - rewrite lookup_delete_ne by done. apply option_eq. intros b.
    rewrite !map_lookup_filter_Some, lookup_insert_ne by done. simpl. by rewrite Ep.
Qed.

Lemma sweepLoop_answered env rows resp d :
  answered env -> sweepable d -> NoDup rows.*1 ->
  (forall r, r ∈ rows -> is_Some (pendings d !! r.1)) ->
  exists d', sweepLoop env rows resp d =
      (mkSweep (sw_Pending resp) (sw_Purged resp + Z.of_nat (length rows)) (sw_Failed resp), d') /\
    sweepable d' /\ users d' = users d /\
    (forall id, allocations d' !! id =
       if decide (id ∈ rows.*1) then with_purged (re_now (env id)) <$> allocations d !! id else allocations d !! id) /\
    (size (pendings d') + length rows)%nat = size (pendings d).
Proof.
  intros Hans. revert resp d. induction rows as [|[id g] rows IH]; intros resp d Sb Hnd Hpend.
  { exists d. simpl. rewrite Z.add_0_r, Nat.add_0_r. by destruct resp. }
  apply NoDup_cons in Hnd as [Hni Hnd]. simpl in Hni.
  destruct (Hpend (id, g)) as [a Hpa]; [by left |]. simpl in Hpa. pose proof (proj1 (pendings_lookup d id a) Hpa) as [Ha Hp].
  destruct (Hans id) as (Hc & Hun & Her).
  destruct (purge_total (re_now (env id)) id a d Sb Ha Hp) as (d1 & Hpu & Sb1 & Eu1 & Ea1).
  pose proof (purged_pendings _ id a d d1 Ha Eu1 Ea1) as Ep.
  destruct (IH (mkSweep (sw_Pending resp) (sw_Purged resp + 1) (sw_Failed resp)) d1) as (d' & Hl & Sb' & Eu' & Ea' & Hs).
  - done.
  - done.
  - intros [i g'] Hin. rewrite Ep, lookup_delete_ne; [apply Hpend; by right |].
    simpl. intros E. apply Hni, list_elem_of_fmap. by exists (i, g').
  - exists d'. split_and!.
    + simpl. rewrite Hc, Hun, Her, Hpu, Hl. f_equal. f_equal. simpl. lia.
    + done.
    + congruence.
    + intros i. rewrite Ea', Ea1. simpl. destruct (decide (i = id)) as [->|Hne].
      * rewrite decide_False by done. rewrite decide_True by (by left). by rewrite lookup_insert_eq, Ha.
      * rewrite lookup_insert_ne by done. repeat case_decide; set_solver.
    + rewrite Ep, map_size_delete_Some in Hs by (by exists a). simpl.
      assert (size (pendings d) <> 0%nat) by (intros E; apply map_size_empty_inv in E; rewrite E in Hpa; done). lia.
Qed.

#[local] Instance revoked_first_trans : Transitive revoked_first.
Proof. intros a b c. unfold revoked_first. lia. Qed.
#[local] Instance revoked_first_total : Total revoked_first.
Proof. intros a b. unfold revoked_first. lia. Qed.

Lemma pending_rows_elem d r : r ∈ merge_sort revoked_first (pending_rows d) <-> pendings d !! r.1 = Some r.2.
Proof. rewrite merge_sort_Permutation. destruct r as [id a]. apply elem_of_map_to_list. Qed.

Lemma listed_ids limit d :
  (ListPurgePendingAllocations limit d).*1 = (take (Z.to_nat limit) (merge_sort revoked_first (pending_rows d))).*1.
Proof. unfold ListPurgePendingAllocations. rewrite <- list_fmap_compose. by apply list_fmap_ext. Qed.

Lemma listed_NoDup limit d : NoDup (ListPurgePendingAllocations limit d).*1.
Proof.
  rewrite listed_ids, fmap_take. eapply sublist_NoDup; [| apply sublist_take].
  rewrite merge_sort_Permutation. apply NoDup_fst_map_to_list.
Qed.

(** One sweep. *)
Lemma sweep_answered env limit d :
  answered env -> sweepable d -> 0 <= limit ->
  let n := Z.min limit (Z.of_nat (size (pendings d))) in
  exists d', sweep true env limit d = (Some (mkSweep n n 0), d') /\ sweepable d' /\
    Z.of_nat (size (pendings d')) = Z.of_nat (size (pendings d)) - n /\
    (forall id a, allocations d !! id = Some a ->
       allocations d' !! id = Some a \/
       purge_pending d a = true /\ allocations d' !! id = Some (with_purged (re_now (env id)) a)) /\
    (forall i j a b, pendings d !! i = Some a -> pendings d' !! i = None -> pendings d' !! j = Some b ->
       default 0 (da_RevokedAt a) <= default 0 (da_RevokedAt b)).
Proof.
  intros Hans Sb Hl n. set (sorted := merge_sort revoked_first (pending_rows d)).
  assert (length sorted = size (pendings d)) as Hlen.
  { subst sorted. rewrite merge_sort_Permutation. apply length_map_to_list. }
  set (rows := ListPurgePendingAllocations limit d).
  assert (Z.of_nat (length rows) = n) as Hn.
  { subst rows n. unfold ListPurgePendingAllocations. rewrite length_fmap, length_take. fold sorted. lia. }
  assert (forall r, r ∈ rows -> is_Some (pendings d !! r.1)) as Hrows.
  { intros r (x & -> & Hin)%list_elem_of_fmap. simpl. exists x.2. apply pending_rows_elem.
    by eapply elem_of_take in Hin as (i & Hi & _); apply list_elem_of_lookup_2 in Hi. }
  destruct (sweepLoop_answered env rows (mkSweep (Z.of_nat (length rows)) 0 0) d Hans Sb (listed_NoDup limit d) Hrows)
    as (d' & Hs & Sb' & Eu & Ea & Hsz).
  exists d'. split; [unfold sweep; simpl; fold rows; rewrite Hs; simpl; by rewrite Hn |]. split; [done |].
  split; [lia |]. split.
  - intros id a Ha. rewrite Ea. case_decide as Hin; [| by left]. right. rewrite Ha.
    apply list_elem_of_fmap in Hin as (r & -> & Hin). destruct (Hrows r Hin) as [b Hb].
    apply pendings_lookup in Hb as [Hb Hpb]. rewrite Ha in Hb. injection Hb as <-. done.
  - intros i j a b Hi Hi' Hj.
    assert (purge_pending d' = purge_pending d) as Ep by (unfold purge_pending; by rewrite Eu).
    assert (i ∈ rows.*1) as Hin.
    { destruct (decide (i ∈ rows.*1)) as [|Hout]; [done | exfalso].
      apply pendings_lookup in Hi as [Hi Hp]. assert (pendings d' !! i = Some a); [| congruence].
      apply pendings_lookup. rewrite Ea, decide_False, Ep by done. done. }
    assert (pendings d !! j = Some b /\ j ∉ rows.*1) as [Hj0 Hout].
    { apply pendings_lookup in Hj as [Hj Hp]. rewrite Ea in Hj. rewrite Ep in Hp. case_decide as Hc.
      - apply fmap_Some in Hj as (b0 & _ & ->). by rewrite purged_not_pending in Hp.
      - split; [by apply pendings_lookup | done]. }
    unfold rows in Hin, Hout. rewrite listed_ids in Hin, Hout. fold sorted in Hin, Hout.
    assert (StronglySorted revoked_first sorted) as Hsort by (apply StronglySorted_merge_sort; apply _).
    apply list_elem_of_fmap in Hin as ([i' a'] & -> & Hin). simpl in *.
    assert ((j, b) ∈ drop (Z.to_nat limit) sorted) as Hd.
    { assert ((j, b) ∈ sorted) as Hjs by (by apply pending_rows_elem).
      rewrite <- (take_drop (Z.to_nat limit) sorted) in Hjs. apply elem_of_app in Hjs as [Ht|?]; [| done].
      destruct Hout. apply list_elem_of_fmap. by exists (j, b). }
    assert (a' = a) as ->.
    { assert ((i', a') ∈ sorted) as Hx by (by eapply elem_of_take in Hin as (k & Hk & _); apply list_elem_of_lookup_2 in Hk).
      apply pending_rows_elem in Hx. simpl in Hx. congruence. }
    rewrite <- (take_drop (Z.to_nat limit) sorted) in Hsort.
    exact (StronglySorted_app_1_elem_of _ _ _ (i', a) (j, b) Hsort Hin Hd).
Qed.

(** Sweeps one after the other, as the reconciler runs them. *)
Fixpoint sweeps (k : nat) (env : uuid -> rowEnv) (limit : Z) (d : cdb) : cdb :=
  match k with
  | O => d
  | S k' => sweeps k' env limit (sweep true env limit d).2
  end.

Lemma sweeps_drain k env limit d :
  answered env -> sweepable d -> 0 < limit -> Z.of_nat (size (pendings d)) <= Z.of_nat k * limit ->
  pendings (sweeps k env limit d) = ∅.
Proof.
  intros Hans. revert d. induction k as [|k IH]; intros d Sb Hl Hk; simpl.
  - apply map_size_empty_inv. lia.
  - destruct (sweep_answered env limit d Hans Sb) as (d' & -> & Sb' & Hsz & _); [lia |]. simpl.
    apply IH; [done | done |]. rewrite Hsz. lia.
Qed.

(** C35: The purge sweep makes progress until nothing is pending.  When the
    servers answer, a sweep reports every disk it took as purged and none as
    failed; it takes as many as its limit allows, those that were revoked first;
    the disks it did not take and those that were not pending are as they were,
    and the tables are fit for the next sweep.  After k sweeps with limit n nothing
    is pending if at most k times n disks were. *)
Theorem sweep_drains env limit d :
  answered env -> sweepable d -> 0 < limit ->
  (let n := Z.min limit (Z.of_nat (size (pendings d))) in
   exists d', sweep true env limit d = (Some (mkSweep n n 0), d') /\ sweepable d' /\
     Z.of_nat (size (pendings d')) = Z.of_nat (size (pendings d)) - n /\
     (forall id a, allocations d !! id = Some a ->
        allocations d' !! id = Some a \/
        purge_pending d a = true /\ allocations d' !! id = Some (with_purged (re_now (env id)) a)) /\
     (forall i j a b, pendings d !! i = Some a -> pendings d' !! i = None -> pendings d' !! j = Some b ->
        default 0 (da_RevokedAt a) <= default 0 (da_RevokedAt b))) /\
  forall k, Z.of_nat (size (pendings d)) <= Z.of_nat k * limit -> pendings (sweeps k env limit d) = ∅.
Proof.
  intros Hans Sb Hl. split; [apply sweep_answered; [done | done | lia] |].
  intros k Hk. by apply sweeps_drain.
Qed.

(** ** Witness *)

Module SweepExample.
Definition gone (g : string) (t : Z) : allocation :=
  mkDA (Some 1) (str "a_" ++ str g) (str g) 5 0 (Some t) None None None None None.
(** Three deleted disks, one of a tenant that is placed. *)
Definition db : cdb :=
  mkCdb {[ 20 := gone "x" 3; 21 := gone "y" 1; 22 := gone "z" 2 ]} {[ 1 := mkUser (str "u_1") 50 ]} ∅ ∅
    {[ str "a_y" := mkVM (str "h:1") serverStatusActive ]} {[ 9 := mkPool (str "h:1") (str "h:2") 100 60 StatusAvailable ]}
    {[ (1, 9) := mkResv 40 0 ]}.
Definition env (_ : uuid) : rowEnv := mkRowEnv 8 false true true.

Lemma db_sweepable : sweepable db.
Proof.
  split; [| split].
  - intros id a Ha. unfold db in Ha. simpl in Ha.
    repeat (apply lookup_insert_Some in Ha as [[_ <-]|[_ Ha]]; [by vm_compute |]).
    apply lookup_singleton_Some in Ha as [_ <-]. by vm_compute.
  - unfold db. simpl. by apply map_Forall_singleton.
  - unfold db. simpl. by apply map_Forall_singleton.
  - unfold db. simpl. intros t addr [_ <-]%lookup_singleton_Some. exists 9. eexists. by vm_compute.
Qed.
End SweepExample.

(** Two sweeps with limit two erase the three disks. *)
Lemma sweep_drains_witness :
  pendings (sweeps 2 SweepExample.env 2 SweepExample.db) = ∅ /\
  (sweep true SweepExample.env 2 SweepExample.db).1 = Some (mkSweep 2 2 0).
Proof.
  destruct (sweep_drains SweepExample.env 2 SweepExample.db) as [(d' & H & _) H2];
    [done | exact SweepExample.db_sweepable | done |].
  split; [apply H2; by vm_compute |]. rewrite H. by vm_compute.
Defined.
