(* ===== verification/Quota.v ===== *)
(** * Storage quotas of tenants

    orlop-server/internal/quota: project ids and sizes per tenant, kept in a state
    file, applied with [chattr] and [setquota] on ext4 or with [juicefs quota set].
    account_quota_async.go: the worker that applies the quotas of accounts off the
    request path.

    Each method of the manager runs under its mutex and is one step.  Whether the
    state file could be written and whether a command succeeded are arguments, in
    the order of the calls; a successful command takes effect on the limits of the
    file system.  Arguments of commands are numbers, not their decimal text. *)

From S2P Require Import Prelude GoPath Provision.

(** ** The manager *)

Record tenantRecord := mkRec { tr_ProjectID : Z; tr_SizeBytes : Z }.

Record qstate := mkQ { q_NextProjectID : Z; q_Tenants : gmap gostr tenantRecord }.

(** What the file system enforces: the project of a directory and the limit of a
    project in KiB, or the capacity of a directory of the volume in GiB. *)
Record limits := mkLimits { l_project : gmap gostr Z; l_kib : gmap Z Z; l_gib : gmap gostr Z }.

Record Manager := mkManager {
  m_mountPoint : gostr; m_enforce : bool; m_burstMargin : Z; m_jfsMetaURL : gostr; m_jfsMountRoot : gostr;
  m_st : qstate; m_disk : option qstate; m_limits : limits }.

Definition set_st st m := mkManager (m_mountPoint m) (m_enforce m) (m_burstMargin m) (m_jfsMetaURL m) (m_jfsMountRoot m)
  st (m_disk m) (m_limits m).
Definition set_disk d m := mkManager (m_mountPoint m) (m_enforce m) (m_burstMargin m) (m_jfsMetaURL m) (m_jfsMountRoot m)
  (m_st m) d (m_limits m).
Definition set_limits l m := mkManager (m_mountPoint m) (m_enforce m) (m_burstMargin m) (m_jfsMetaURL m) (m_jfsMountRoot m)
  (m_st m) (m_disk m) l.

Inductive qerr :=
| ErrSizeMismatch (existing : Z) | ErrNotProjectQuotaFS | ErrTenantNotFound
| ErrPersist | ErrChattr.

(** [load]: a missing file is the initial state. *)
Definition load (disk : option qstate) : qstate :=
  match disk with Some st => st | None => mkQ 100 ∅ end.

Definition NewManager (mountPoint : gostr) (enforce : bool) (burstMargin : Z) (metaURL mountRoot : gostr)
    (disk : option qstate) (l : limits) : Manager :=
  mkManager mountPoint enforce (if 0 <? burstMargin then burstMargin else 0) metaURL mountRoot (load disk) disk l.

(** The file is replaced by a rename, or stays. *)
Definition persist (ok : bool) (m : Manager) : bool * Manager :=
  (ok, if ok then set_disk (Some (m_st m)) m else m).

Definition gib : Z := 2 ^ 30.

Definition juicefsQuotaGiB (m : Manager) (sizeBytes : Z) : Z :=
  let g := i64 (sizeBytes + m_burstMargin m + gib - 1) `quot` gib in
  if g <? 1 then 1 else g.

Definition hardLimitKB (m : Manager) (sizeBytes : Z) : Z :=
  i64 (sizeBytes + m_burstMargin m + 1023) `quot` 1024.

Definition juicefsQuotaPath (m : Manager) (dir : gostr) : gostr :=
  let rel := TrimPrefix (Clean dir) (Clean (m_jfsMountRoot m)) in
  let rel := if decide (rel = []) then [slash] else rel in
  if HasPrefix rel [slash] then rel else slash :: rel.

Definition applyJuicefsQuota (ok : bool) (dir : gostr) (sizeBytes : Z) (m : Manager) : bool * Manager :=
  (ok, if ok then set_limits (mkLimits (l_project (m_limits m)) (l_kib (m_limits m))
                   (<[juicefsQuotaPath m dir := juicefsQuotaGiB m sizeBytes]> (l_gib (m_limits m)))) m
       else m).

Definition chattr (ok : bool) (projID : Z) (dir : gostr) (m : Manager) : bool * Manager :=
  (ok, if ok then set_limits (mkLimits (<[dir := projID]> (l_project (m_limits m))) (l_kib (m_limits m))
                   (l_gib (m_limits m))) m
       else m).

Definition setquota (ok : bool) (projID sizeBytes : Z) (m : Manager) : bool * Manager :=
  (ok, if ok then set_limits (mkLimits (l_project (m_limits m))
                   (<[projID := hardLimitKB m sizeBytes]> (l_kib (m_limits m))) (l_gib (m_limits m))) m
       else m).

Definition forget (tenantID : gostr) (m : Manager) : Manager :=
  set_st (mkQ (u32 (q_NextProjectID (m_st m) - 1)) (delete tenantID (q_Tenants (m_st m)))) m.

(** A failure of its write is joined to the error of the caller. *)
Definition rollback (ok : bool) (tenantID : gostr) (m : Manager) : Manager :=
  (persist ok (forget tenantID m)).2.

(** The outcomes of the calls of one method: the state file, [chattr], the limit,
    and the state file again when an allocation is rolled back. *)
Record qenv := mkQenv { qe_persist : bool; qe_chattr : bool; qe_limit : bool; qe_rollback : bool }.

Definition qAllocate (ev : qenv) (tenantID dir : gostr) (sizeBytes : Z) (m : Manager) : result qerr Z * Manager :=
  match q_Tenants (m_st m) !! tenantID with
  | Some rec =>
      if negb (tr_SizeBytes rec =? sizeBytes) then (Err (ErrSizeMismatch (tr_SizeBytes rec)), m)
      else (Ok (tr_ProjectID rec), m)
  | None =>
      let projID := q_NextProjectID (m_st m) in
      let m1 := set_st (mkQ (u32 (projID + 1))
                          (<[tenantID := mkRec projID sizeBytes]> (q_Tenants (m_st m)))) m in
      match persist (qe_persist ev) m1 with
      | (false, m2) => (Err ErrPersist, forget tenantID m2)
      | (true, m2) =>
          if negb (m_enforce m) then (Ok projID, m2)
          else if bool_decide (m_jfsMetaURL m <> []) then
            match applyJuicefsQuota (qe_limit ev) dir sizeBytes m2 with
            | (false, m3) => (Err ErrNotProjectQuotaFS, rollback (qe_rollback ev) tenantID m3)
            | (true, m3) => (Ok projID, m3)
            end
          else
            match chattr (qe_chattr ev) projID dir m2 with
            | (false, m3) => (Err ErrChattr, rollback (qe_rollback ev) tenantID m3)
            | (true, m3) =>
                match setquota (qe_limit ev) projID sizeBytes m3 with
                | (false, m4) => (Err ErrNotProjectQuotaFS, rollback (qe_rollback ev) tenantID m4)
                | (true, m4) => (Ok projID, m4)
                end
            end
      end
  end.

Definition put_record (tenantID : gostr) (rec : tenantRecord) (m : Manager) : Manager :=
  set_st (mkQ (q_NextProjectID (m_st m)) (<[tenantID := rec]> (q_Tenants (m_st m)))) m.

(** [Manager.Resize]; the limit is changed first. *)
Definition qResize (ev : qenv) (tenantID : gostr) (sizeBytes : Z) (m : Manager) : result qerr Z * Manager :=
  match q_Tenants (m_st m) !! tenantID with
  | None => (Err ErrTenantNotFound, m)
  | Some rec =>
      if tr_SizeBytes rec =? sizeBytes then (Ok (tr_ProjectID rec), m)
      else
        let '(ok, m1) :=
          if m_enforce m then
            if bool_decide (m_jfsMetaURL m <> [])
            then applyJuicefsQuota (qe_limit ev) (pathJoin [m_mountPoint m; tenantID]) sizeBytes m
            else setquota (qe_limit ev) (tr_ProjectID rec) sizeBytes m
          else (true, m) in
        if negb ok then (Err ErrNotProjectQuotaFS, m1)
        else
          match persist (qe_persist ev) (put_record tenantID (mkRec (tr_ProjectID rec) sizeBytes) m1) with
          | (false, m2) => (Err ErrPersist, put_record tenantID rec m2)
          | (true, m2) => (Ok (tr_ProjectID rec), m2)
          end
  end.

(** Two calls, each under the mutex. *)
Definition EnsureQuota (ev ev' : qenv) (tenantID dir : gostr) (sizeBytes : Z) (m : Manager)
    : result qerr Z * Manager :=
  match qAllocate ev tenantID dir sizeBytes m with
  | (Err (ErrSizeMismatch _), m1) => qResize ev' tenantID sizeBytes m1
  | r => r
  end.

Definition Lookup (tenantID : gostr) (m : Manager) : option (Z * Z) :=
  (fun rec => (tr_ProjectID rec, tr_SizeBytes rec)) <$> q_Tenants (m_st m) !! tenantID.

(** ** The background worker *)

Record pendingQuota := mkPending { pq_dir : gostr; pq_sizeBytes : Z }.

#[export] Instance pendingQuota_eq_dec : EqDecision pendingQuota.
Proof. solve_decision. Defined.

(** Where the worker is: waiting in the select, or in [drainOnce] with the rest of
    its snapshot and whether an apply has failed. *)
Inductive workerPc := WSelect | WDrain (todo : list (gostr * pendingQuota)) (failed : bool) | WStopped.

Record applier := mkApplier {
  ap_pending : gmap gostr pendingQuota; ap_wake : bool; ap_timer : bool; ap_stop : bool; ap_pc : workerPc }.

Definition newAccountQuotaApplier : applier := mkApplier ∅ false false false WSelect.

(** The channel [wake] holds at most one signal. *)
Definition Enqueue (ownerTenant ownerDir : gostr) (sizeBytes : Z) (a : applier) : applier :=
  mkApplier (<[ownerTenant := mkPending ownerDir sizeBytes]> (ap_pending a)) true (ap_timer a) (ap_stop a) (ap_pc a).

Definition Stop (a : applier) : applier :=
  mkApplier (ap_pending a) (ap_wake a) (ap_timer a) true (ap_pc a).

(** The second critical section of [drainOnce], after the apply of [pq]. *)
Definition settle (owner : gostr) (pq : pendingQuota) (ok : bool) (pending : gmap gostr pendingQuota)
    : gmap gostr pendingQuota :=
  if negb ok then pending
  else if bool_decide (pending !! owner = Some pq) then delete owner pending else pending.

(** The steps of the worker between its blocking points, and the end of the
    server.  The map is iterated in any order. *)
Inductive wstep : applier * Manager -> applier * Manager -> Prop :=
| ws_stop a m : wstep (a, m) (Stop a, m)
| ws_exit p w t m : wstep (mkApplier p w t true WSelect, m) (mkApplier p w t true WStopped, m)
| ws_wake p t s m snap :
    snap ≡ₚ map_to_list p ->
    wstep (mkApplier p true t s WSelect, m) (mkApplier p false t s (WDrain snap false), m)
| ws_timer p w s m snap :
    snap ≡ₚ map_to_list p ->
    wstep (mkApplier p w true s WSelect, m) (mkApplier p w false s (WDrain snap false), m)
| ws_abandon p w t x todo f m :
    wstep (mkApplier p w t true (WDrain (x :: todo) f), m) (mkApplier p w t true WSelect, m)
| ws_apply p w t s o pq todo f ev ev' r m m' :
    EnsureQuota ev ev' o (pq_dir pq) (pq_sizeBytes pq) m = (r, m') ->
    wstep (mkApplier p w t s (WDrain ((o, pq) :: todo) f), m)
      (mkApplier (settle o pq (is_ok r) p) w t s (WDrain todo (f || negb (is_ok r))), m')
| ws_done p w t s f m :
    wstep (mkApplier p w t s (WDrain [] f), m) (mkApplier p w (t || f) s WSelect, m).

(** The worker among the requests, with what was last requested for each owner. *)
Inductive astep : gmap gostr pendingQuota * (applier * Manager) ->
    gmap gostr pendingQuota * (applier * Manager) -> Prop :=
| as_enqueue want o dir n a m :
    astep (want, (a, m)) (<[o := mkPending dir n]> want, (Enqueue o dir n a, m))
| as_worker want s s' : wstep s s' -> astep (want, s) (want, s').
