(* ===== verification/QuotaProps.v ===== *)
(** * Quotas are exact and the worker loses none

    The manager applies what it records: under its invariant the limit of every
    recorded tenant is that of its recorded size, project ids are unique, and a
    failed call records nothing.  The worker never sleeps on work and converges to
    the last size requested for each owner. *)

From S2P Require Import Prelude GoPath Provision Quota.

(** ** What a call records *)

Definition record_of (t : gostr) (m : Manager) : option tenantRecord := q_Tenants (m_st m) !! t.

Lemma rollback_st ok t m : m_st (rollback ok t m) = m_st (forget t m).
Proof. by destruct ok. Qed.

Lemma Allocate_records ev t dir n m r m' :
  qAllocate ev t dir n m = (r, m') ->
  (forall t', t' <> t -> record_of t' m' = record_of t' m) /\
  match r with
  | Ok p => record_of t m' = Some (mkRec p n)
  | Err (ErrSizeMismatch _) => m' = m /\ is_Some (record_of t m)
  | Err _ => record_of t m = None /\ record_of t m' = None
  end.
Proof.
  unfold qAllocate, record_of. destruct (q_Tenants (m_st m) !! t) as [rec|] eqn:Hr.
  { destruct (Z.eqb_spec (tr_SizeBytes rec) n) as [<-|]; simpl; intros [= <- <-]; [| eauto].
    split; [done |]. rewrite Hr. by destruct rec. }
  assert (forall t', t' <> t -> delete t (<[t := mkRec (q_NextProjectID (m_st m)) n]> (q_Tenants (m_st m))) !! t'
    = q_Tenants (m_st m) !! t') as Hother by (intros t' Hne; by rewrite lookup_delete_ne, lookup_insert_ne).
  destruct (qe_persist ev); simpl; [| intros [= <- <-]; simpl; split; [done | split; [done | apply lookup_delete_eq]]].
  destruct (m_enforce m); simpl.
  2: { intros [= <- <-]. simpl. rewrite lookup_insert_eq. split; [intros; by rewrite lookup_insert_ne | done]. }
  destruct (bool_decide _); [destruct (qe_limit ev) | destruct (qe_chattr ev); [destruct (qe_limit ev) |]]; simpl;
    intros [= <- <-]; rewrite ?rollback_st; simpl; rewrite ?lookup_insert_eq, ?lookup_delete_eq;
    (split; [intros t' Hne; rewrite ?lookup_delete_ne, ?lookup_insert_ne by done; done | done]).
Qed.

Lemma Resize_records ev t n m r m' :
  qResize ev t n m = (r, m') ->
  (forall t', t' <> t -> record_of t' m' = record_of t' m) /\
  match r with
  | Ok p => record_of t m' = Some (mkRec p n) /\ tr_ProjectID <$> record_of t m = Some p
  | Err _ => record_of t m' = record_of t m
  end.
Proof.
  unfold qResize, record_of. destruct (q_Tenants (m_st m) !! t) as [rec|] eqn:Hr; [| by intros [= <- <-]].
  destruct (Z.eqb_spec (tr_SizeBytes rec) n) as [<-|].
  { intros [= <- <-]. rewrite Hr. by destruct rec. }
  set (lim := if m_enforce m then _ else _).
  assert (m_st lim.2 = m_st m) as Hst by (subst lim; repeat case_match; by destruct (qe_limit ev)).
  destruct lim as [ok m1]. simpl in Hst. destruct ok; simpl; [| intros [= <- <-]; by rewrite Hst, Hr].
  destruct (qe_persist ev); intros [= <- <-]; simpl; rewrite Hst.
  - rewrite lookup_insert_eq. split; [intros; by rewrite lookup_insert_ne | done].
  - rewrite insert_insert_eq, lookup_insert_eq. split; [intros; by rewrite lookup_insert_ne | done].
Qed.

Lemma Ensure_records ev ev' t dir n m r m' :
  EnsureQuota ev ev' t dir n m = (r, m') ->
  (forall t', t' <> t -> record_of t' m' = record_of t' m) /\
  match r with
  | Ok p => record_of t m' = Some (mkRec p n)
  | Err _ => record_of t m' = record_of t m
  end.
Proof.
  unfold EnsureQuota. destruct (qAllocate ev t dir n m) as [[p|x] m1] eqn:E.
  - apply Allocate_records in E as [Ho Hr]. by intros [= <- <-].
  - apply Allocate_records in E as [Ho Hr].
    destruct x; try (intros [= <- <-]; split; [done | by destruct Hr as [-> ->]]).
    destruct Hr as [-> _]. intros E2. apply Resize_records in E2 as [Ho2 Hr2].
    split; [done |]. destruct r; naive_solver.
Qed.

Definition fine : qenv := mkQenv true true true true.

(** Nothing but a failing call makes it fail. *)
Lemma Ensure_fine t dir n m : exists p m', EnsureQuota fine fine t dir n m = (Ok p, m').
Proof.
  unfold EnsureQuota, qAllocate. destruct (q_Tenants (m_st m) !! t) as [rec|] eqn:Hr.
  - destruct (Z.eqb_spec (tr_SizeBytes rec) n) as [|Hne]; simpl; [eauto |].
    unfold qResize. rewrite Hr. replace (tr_SizeBytes rec =? n) with false by lia.
    destruct (m_enforce m); [destruct (bool_decide _) |]; simpl; eauto.
  - simpl. destruct (m_enforce m); [destruct (bool_decide _) |]; simpl; eauto.
Qed.

(** ** The worker *)

Definition recorded (o : gostr) (pq : pendingQuota) (m : Manager) : Prop :=
  exists p, record_of o m = Some (mkRec p (pq_sizeBytes pq)).

(** The rest of the snapshot and the failure flag of the worker. *)
Definition todo_of (pc : workerPc) : list (gostr * pendingQuota) :=
  match pc with WDrain todo _ => todo | _ => [] end.
Definition failed_of (pc : workerPc) : bool :=
  match pc with WDrain _ f => f | _ => false end.

Record worker_inv (want : gmap gostr pendingQuota) (a : applier) (m : Manager) : Prop := {
  wi_pending o pq : ap_pending a !! o = Some pq -> want !! o = Some pq;
  wi_want o pq : want !! o = Some pq -> ap_pending a !! o = Some pq \/ ap_pending a !! o = None /\ recorded o pq m;
  wi_todo : NoDup (todo_of (ap_pc a)).*1;
  wi_todo_pending o pq : (o, pq) ∈ todo_of (ap_pc a) -> is_Some (ap_pending a !! o);
  wi_awake o pq : ap_stop a = false -> ap_pending a !! o = Some pq ->
    ap_wake a = true \/ ap_timer a = true \/ failed_of (ap_pc a) = true \/ (o, pq) ∈ todo_of (ap_pc a);
  wi_alive : ap_stop a = false -> ap_pc a <> WStopped }.

Lemma enqueue_inv want o dir n a m :
  worker_inv want a m -> worker_inv (<[o := mkPending dir n]> want) (Enqueue o dir n a) m.
Proof.
  intros [P W T TP A L]. split; simpl; [| | done | | by left | done].
  - intros o' pq [[<- <-]|[Hne Hp]]%lookup_insert_Some; [apply lookup_insert_eq |].
    rewrite lookup_insert_ne by done. auto.
  - intros o' pq [[<- <-]|[Hne Hp]]%lookup_insert_Some; [left; apply lookup_insert_eq |].
    rewrite lookup_insert_ne by done. auto.
  - intros o' pq Hin. apply lookup_insert_is_Some'. right. eauto.
Qed.

(** A pass begins with everything that is pending. *)
Lemma snapshot_inv want p w t s snap w' t' m :
  snap ≡ₚ map_to_list p -> worker_inv want (mkApplier p w t s WSelect) m ->
  worker_inv want (mkApplier p w' t' s (WDrain snap false)) m.
Proof.
  intros Hsnap [P W _ _ _ _]. simpl in *. split; simpl; [done | done | | | | done].
  - rewrite Hsnap. apply NoDup_fst_map_to_list.
  - intros o pq Hin. rewrite Hsnap in Hin. apply elem_of_map_to_list in Hin. by exists pq.
  - intros o pq _ Hp. do 3 right. rewrite Hsnap. by apply elem_of_map_to_list.
Qed.

Lemma settle_Some o pq ok p o' pq' :
  settle o pq ok p !! o' = Some pq' -> p !! o' = Some pq' /\ (o' = o -> ok = true -> pq' <> pq).
Proof.
  unfold settle. destruct ok; simpl; [| done]. case_bool_decide as Hp.
  - intros [Hne Hp']%lookup_delete_Some. split; [done |]. by intros ->.
  - intros Hp'. split; [done |]. intros -> _ ->. done.
Qed.

Lemma settle_None o pq ok p o' :
  settle o pq ok p !! o' = None -> p !! o' = None \/ o' = o /\ ok = true /\ p !! o = Some pq.
Proof.
  unfold settle. destruct ok; simpl; [| by left]. case_bool_decide as Hp; [| by left].
  intros [<-|?]%lookup_delete_None; [by right | by left].
Qed.

Lemma apply_inv want p w t s o pq todo f ev ev' r m m' :
  EnsureQuota ev ev' o (pq_dir pq) (pq_sizeBytes pq) m = (r, m') ->
  worker_inv want (mkApplier p w t s (WDrain ((o, pq) :: todo) f)) m ->
  worker_inv want (mkApplier (settle o pq (is_ok r) p) w t s (WDrain todo (f || negb (is_ok r)))) m'.
Proof.
  intros [Ho Hr]%Ensure_records [P W T TP A L]. simpl in *. apply NoDup_cons in T as [Hni T].
  assert (forall q, (o, q) ∉ todo) as Hno by (intros q Hq; apply Hni, list_elem_of_fmap; by exists (o, q)).
  split; simpl; [| | done | | | done].
  - intros o' pq' [Hp _]%settle_Some. auto.
  - intros o' pq' Hw. destruct (settle o pq (is_ok r) p !! o') as [q|] eqn:Hs.
    + apply settle_Some in Hs as [Hp _]. left. by rewrite (P o' q Hp) in Hw.
    + right. split; [done |]. apply settle_None in Hs as [Hp|(-> & Hok & Hp)].
      * destruct (decide (o' = o)) as [->|Hne].
        { destruct (TP o pq) as [q Hq]; [by left | congruence]. }
        destruct (W o' pq' Hw) as [?|[_ (k & Hk)]]; [congruence |]. exists k. by rewrite Ho.
      * assert (pq' = pq) as -> by (apply P in Hp; congruence). destruct r as [k|]; [| done]. by exists k.
  - intros o' q Hin. destruct (settle o pq (is_ok r) p !! o') as [?|] eqn:Hs; [done |].
    apply settle_None in Hs as [Hp|(-> & _)]; [| by apply Hno in Hin].
    destruct (TP o' q) as [? ?]; [by right | congruence].
  - intros o' pq' Hst [Hp Hne]%settle_Some. destruct (A o' pq' Hst Hp) as [?|[?|[-> |Hin]]]; [auto .. |].
    apply elem_of_cons in Hin as [[= -> ->]|Hin]; [| auto].
    destruct (is_ok r); [by destruct (Hne eq_refl eq_refl) |]. rewrite orb_true_r. auto.
Qed.

Lemma wstep_inv want s s' : wstep s s' -> worker_inv want s.1 s.2 -> worker_inv want s'.1 s'.2.
Proof.
  intros S. destruct S as [a m|p w t m|p t s m snap Hsnap|p w s m snap Hsnap|p w t x todo f m
    |p w t s o pq todo f ev ev' r m m' E|p w t s f m]; simpl.
  - intros [P W T TP A L]. by split.
  - intros [P W T TP A L]. by split.
  - by apply snapshot_inv.
  - by apply snapshot_inv.
  - intros [P W T TP A L]. split; simpl in *; try done; [constructor | by intros ? ? ?%not_elem_of_nil].
  - by eapply apply_inv.
  - intros [P W T TP A L]. split; simpl in *; try done. intros o pq Hs Hp.
    destruct (A o pq Hs Hp) as [?|[-> |[-> |?%not_elem_of_nil]]]; rewrite ?orb_true_r; auto.
Qed.

Lemma astep_inv s s' : astep s s' -> worker_inv s.1 s.2.1 s.2.2 -> worker_inv s'.1 s'.2.1 s'.2.2.
Proof. intros [want o dir n a m|want x y S]; simpl; [apply enqueue_inv | by apply wstep_inv]. Qed.

Lemma asteps_inv s s' : rtc astep s s' -> worker_inv s.1 s.2.1 s.2.2 -> worker_inv s'.1 s'.2.1 s'.2.2.
Proof. induction 1; eauto using astep_inv. Qed.

Lemma worker_init m : worker_inv ∅ newAccountQuotaApplier m.
Proof.
  split; simpl; [by intros ? ?; rewrite lookup_empty .. | constructor | by intros ? ? ?%not_elem_of_nil
    | by intros ? ? ?; rewrite lookup_empty | done].
Qed.

(** The rest of a pass whose applies succeed. *)
Lemma drain_rest todo p w t f m :
  exists p' m', rtc wstep (mkApplier p w t false (WDrain todo f), m) (mkApplier p' w (t || f) false WSelect, m') /\
    p' ⊆ p /\ forall o pq, (o, pq) ∈ todo -> p' !! o <> Some pq.
Proof.
  revert p m. induction todo as [|[o pq] todo IH]; intros p m.
  { exists p, m. split; [apply rtc_once, ws_done |]. split; [done | by intros ? ? ?%not_elem_of_nil]. }
  destruct (Ensure_fine o (pq_dir pq) (pq_sizeBytes pq) m) as (k & m1 & E).
  destruct (IH (settle o pq true p) m1) as (p' & m' & S & Hsub & Hgone).
  assert (settle o pq true p ⊆ p) as Hs.
  { apply map_subseteq_spec. by intros o' q [? _]%settle_Some. }
  exists p', m'. split; [| split; [by transitivity (settle o pq true p) |]].
  - pose proof (ws_apply p w t false o pq todo f fine fine (Ok k) m m1 E) as Hst. simpl in Hst.
    rewrite orb_false_r in Hst. eapply rtc_l; [exact Hst | exact S].
  - intros o' q [[= -> ->]|Hin]%elem_of_cons; [| by apply Hgone].
    intros Hp. apply (lookup_weaken _ _ _ _ Hp), settle_Some in Hsub as [_ Hne]. by apply Hne.
Qed.

(** A whole pass empties the map. *)
Lemma drain_pass p w t m :
  w = true \/ t = true ->
  exists w' t' m', rtc wstep (mkApplier p w t false WSelect, m) (mkApplier ∅ w' t' false WSelect, m').
Proof.
  intros Hwt.
  assert (exists w' t', wstep (mkApplier p w t false WSelect, m) (mkApplier p w' t' false (WDrain (map_to_list p) false), m))
    as (w' & t' & S1).
  { destruct Hwt as [-> | ->]; eexists _, _; [by apply ws_wake | by apply ws_timer]. }
  destruct (drain_rest (map_to_list p) p w' t' false m) as (p' & m' & S & Hsub & Hgone).
  assert (p' = ∅) as ->.
  { apply map_empty. intros o. destruct (p' !! o) as [q|] eqn:Hq; [| done]. exfalso.
    apply (Hgone o q); [| done]. apply elem_of_map_to_list. by eapply lookup_weaken. }
  eexists w', _, m'. eapply rtc_l; [exact S1 | exact S].
Qed.

(** C28: No requested account quota is lost.  Whatever the interleaving of
    requests with the worker, whichever applies fail and however often a size is
    replaced by a later one, until the server stops: the size last requested for an
    owner is recorded with its quota, or it is still pending; a worker that waits
    while something is pending has a wake-up or a timer set; and when the applies
    succeed the worker gets, by its own steps, to a state in which nothing is
    pending and every owner has the size that was requested last. *)
Theorem quota_worker_converges m0 want a m :
  rtc astep (∅, (newAccountQuotaApplier, m0)) (want, (a, m)) -> ap_stop a = false ->
  (forall o pq, want !! o = Some pq -> ap_pending a !! o = Some pq \/ ap_pending a !! o = None /\ recorded o pq m) /\
  (ap_pc a = WSelect -> ap_pending a <> ∅ -> ap_wake a = true \/ ap_timer a = true) /\
  exists a' m', rtc wstep (a, m) (a', m') /\ ap_pending a' = ∅ /\
    forall o pq, want !! o = Some pq -> recorded o pq m'.
Proof.
  intros S Hstop. pose proof (asteps_inv _ _ S (worker_init m0)) as I. simpl in I.
  assert (forall want a m, worker_inv want a m -> ap_stop a = false -> ap_pc a = WSelect -> ap_pending a <> ∅ ->
    ap_wake a = true \/ ap_timer a = true) as Hawake.
  { intros want' a' m' I' Hs Hpc Hne. apply map_choose in Hne as (o & pq & Hp).
    destruct (wi_awake _ _ _ I' o pq Hs Hp) as [?|[?|[Hf|Hin]]]; [auto .. | |]; rewrite Hpc in *; [done |].
    by apply not_elem_of_nil in Hin. }
  split; [apply I |]. split; [by eapply Hawake |].
  assert (exists a1 m1, rtc wstep (a, m) (a1, m1) /\ ap_stop a1 = false /\ ap_pc a1 = WSelect) as (a1 & m1 & S1 & Hs1 & Hpc1).
  { destruct a as [p w t s [|todo f|]]; simpl in *; subst s.
    - by exists (mkApplier p w t false WSelect), m.
    - destruct (drain_rest todo p w t f m) as (p' & m' & Sd & _). eauto.
    - by destruct (wi_alive _ _ _ I). }
  assert (forall x y, rtc wstep x y -> worker_inv want x.1 x.2 -> worker_inv want y.1 y.2) as Hinv
    by (induction 1; eauto using wstep_inv).
  pose proof (Hinv _ _ S1 I) as I1. simpl in I1.
  assert (exists a2 m2, rtc wstep (a1, m1) (a2, m2) /\ ap_pending a2 = ∅) as (a2 & m2 & S2 & Hemp).
  { destruct (decide (ap_pending a1 = ∅)) as [|Hne]; [by exists a1, m1 |].
    pose proof (Hawake _ _ _ I1 Hs1 Hpc1 Hne) as Hwt. destruct a1 as [p w t s pc]. simpl in *. subst s pc.
    destruct (drain_pass p w t m1 Hwt) as (w' & t' & m' & Sd). eauto. }
  exists a2, m2. split; [by transitivity (a1, m1) |]. split; [done |]. intros o pq Hw.
  destruct (wi_want _ _ _ (Hinv _ _ S2 I1) o pq Hw) as [Hp|[_ Hr]]; [| done]. simpl in Hp. by rewrite Hemp, lookup_empty in Hp.
Qed.

(** ** Exact quotas *)

Definition cfg (m : Manager) : gostr * bool * Z * gostr * gostr :=
  (m_mountPoint m, m_enforce m, m_burstMargin m, m_jfsMetaURL m, m_jfsMountRoot m).

Definition dirOf (m : Manager) (t : gostr) : gostr := pathJoin [m_mountPoint m; t].

(** What the file system does for a recorded tenant. *)
Definition enforced (m : Manager) (l : limits) (t : gostr) (rec : tenantRecord) : Prop :=
  if bool_decide (m_jfsMetaURL m <> [])
  then l_gib l !! juicefsQuotaPath m (dirOf m t) = Some (juicefsQuotaGiB m (tr_SizeBytes rec))
  else l_project l !! dirOf m t = Some (tr_ProjectID rec) /\
       l_kib l !! tr_ProjectID rec = Some (hardLimitKB m (tr_SizeBytes rec)).

(** The tenants root is a canonical path, below the mount of the volume. *)
Record mounted_at (m : Manager) (segs : list gostr) (rest : gostr) : Prop := {
  mt_path : m_mountPoint m = abspath segs;
  mt_good : Forall good_seg segs;
  mt_below : segs <> [];
  mt_volume : m_jfsMetaURL m <> [] -> mkpath segs = Clean (m_jfsMountRoot m) ++ rest }.

Lemma dirOf_eq m segs rest t : mounted_at m segs rest -> good_seg t -> dirOf m t = mkpath segs ++ slash :: t.
Proof.
  intros [Hp Hg Hs _] Ht. unfold dirOf. rewrite Hp, <- abspath_snoc.
  assert (abspath segs = mkpath segs) as E by (by destruct segs).
  assert (exists c s, mkpath segs = c :: s) as (c & s & Ec) by (destruct segs; [done | by eexists _, _]).
  unfold pathJoin. rewrite E, Ec. change (join_slash [c :: s; t]) with ((c :: s) ++ slash :: t).
  rewrite <- Ec, <- abspath_snoc. apply Clean_abspath. apply Forall_app. split; [done |]. by constructor.
Qed.

Lemma quotaPath_eq m segs rest t :
  mounted_at m segs rest -> m_jfsMetaURL m <> [] -> good_seg t ->
  juicefsQuotaPath m (dirOf m t) =
  (if HasPrefix (rest ++ [slash]) [slash] then [] else [slash]) ++ rest ++ slash :: t.
Proof.
  intros M Hj Ht. pose proof (dirOf_eq m segs rest t M Ht) as E. unfold juicefsQuotaPath.
  assert (Clean (dirOf m t) = dirOf m t) as ->.
  { rewrite E, <- abspath_snoc. apply Clean_abspath, Forall_app. split; [apply M | by constructor]. }
  rewrite E, (mt_volume m segs rest M Hj), <- app_assoc, TrimPrefix_app.
  rewrite decide_False by (by destruct rest). unfold HasPrefix.
  destruct rest as [|c rest]; [done |]. simpl. destruct (decide (c = slash)) as [->|Hc].
  - rewrite !bool_decide_true by apply prefix_cons, prefix_nil. done.
  - rewrite !bool_decide_false; [done | |]; by intros ?%prefix_cons_inv_1.
Qed.

Lemma quotaPath_inj m segs rest t t' :
  mounted_at m segs rest -> m_jfsMetaURL m <> [] -> good_seg t -> good_seg t' ->
  juicefsQuotaPath m (dirOf m t) = juicefsQuotaPath m (dirOf m t') -> t = t'.
Proof.
  intros M Hj Ht Ht'. rewrite !(quotaPath_eq m segs rest) by done. intros E. by apply app_inv_head, app_inv_head in E as [= ?].
Qed.

Lemma dirOf_inj m segs rest t t' :
  mounted_at m segs rest -> good_seg t -> good_seg t' -> dirOf m t = dirOf m t' -> t = t'.
Proof. intros M Ht Ht'. rewrite !(dirOf_eq m segs rest) by done. intros E. by apply app_inv_head in E as [= ?]. Qed.

Record quota_inv (m : Manager) : Prop := {
  qi_next : 0 <= q_NextProjectID (m_st m) < 2 ^ 32;
  qi_good t rec : record_of t m = Some rec -> good_seg t;
  qi_ids t rec : record_of t m = Some rec -> 0 <= tr_ProjectID rec < q_NextProjectID (m_st m);
  qi_unique t t' rec rec' : record_of t m = Some rec -> record_of t' m = Some rec' ->
    tr_ProjectID rec = tr_ProjectID rec' -> t = t';
  qi_enforced t rec : m_enforce m = true -> record_of t m = Some rec -> enforced m (m_limits m) t rec }.

(** Setting the limit of one tenant leaves those of the others. *)
Lemma enforced_other_gib m segs rest l t t' rec (v : Z) :
  mounted_at m segs rest -> good_seg t -> good_seg t' -> t' <> t ->
  enforced m l t' rec ->
  enforced m (mkLimits (l_project l) (l_kib l) (<[juicefsQuotaPath m (dirOf m t) := v]> (l_gib l))) t' rec.
Proof.
  intros M Ht Ht' Hne. unfold enforced. case_bool_decide; simpl; [| done].
  rewrite lookup_insert_ne; [done |]. intros E. by apply (quotaPath_inj m segs rest) in E; auto.
Qed.

Lemma enforced_other_kib (m : Manager) (segs : list gostr) (rest : gostr) (l : limits) (lp : gmap gostr Z)
    (lk : gmap Z Z) (t t' : gostr) (rec : tenantRecord) (k : Z) :
  mounted_at m segs rest -> good_seg t -> good_seg t' -> t' <> t ->
  lk !! tr_ProjectID rec = l_kib l !! tr_ProjectID rec ->
  lp = l_project l \/ lp = <[dirOf m t := k]> (l_project l) ->
  enforced m l t' rec -> enforced m (mkLimits lp lk (l_gib l)) t' rec.
Proof.
  intros M Ht Ht' Hne Hk Hp. unfold enforced. case_bool_decide; simpl; [done |]. intros [H1 H2].
  rewrite Hk. split; [| done]. destruct Hp as [-> | ->]; [done |].
  rewrite lookup_insert_ne; [done |]. intros E. by apply (dirOf_inj m segs rest) in E.
Qed.

(** A record that is added or changed, with its limit, keeps the invariant. *)
Lemma quota_inv_put m m' t rec :
  quota_inv m -> good_seg t ->
  cfg m' = cfg m ->
  q_Tenants (m_st m') = <[t := rec]> (q_Tenants (m_st m)) ->
  q_NextProjectID (m_st m) <= q_NextProjectID (m_st m') < 2 ^ 32 ->
  0 <= tr_ProjectID rec < q_NextProjectID (m_st m') ->
  (forall t' rec', t' <> t -> record_of t' m = Some rec' -> tr_ProjectID rec' <> tr_ProjectID rec) ->
  (m_enforce m = true -> enforced m (m_limits m') t rec) ->
  (forall t' rec', m_enforce m = true -> t' <> t -> record_of t' m = Some rec' ->
     enforced m (m_limits m) t' rec' -> enforced m (m_limits m') t' rec') ->
  quota_inv m'.
Proof.
  intros [Q1 Q2 Q3 Q4 Q5] Ht Hcfg Hst Hnext Hp Hfresh Henf Hoth. injection Hcfg as C1 C2 C3 C4 C5.
  assert (forall x y z, enforced m' x y z <-> enforced m x y z) as Ecfg.
  { intros x y z. unfold enforced, dirOf, juicefsQuotaPath, juicefsQuotaGiB, hardLimitKB. by rewrite C1, C3, C4, C5. }
  unfold record_of in *. split; unfold record_of; rewrite ?Hst.
  - lia.
  - intros x y [[<- _]|[_ Hx]]%lookup_insert_Some; eauto.
  - intros x y [[<- <-]|[_ Hx]]%lookup_insert_Some; [done |]. specialize (Q3 x y Hx). lia.
  - intros x x' y y' [[<- <-]|[Hn Hx]]%lookup_insert_Some [[<- <-]|[Hn' Hx']]%lookup_insert_Some E; [done | | | by eapply Q4].
    + by destruct (Hfresh x' y' ltac:(done) Hx').
    + by destruct (Hfresh x y ltac:(done) Hx).
  - rewrite C2. intros x y He [[<- <-]|[Hn Hx]]%lookup_insert_Some; apply Ecfg; [auto |]. apply Hoth; auto.
Qed.

(** So does a change of limits alone. *)
Lemma quota_inv_limits m m' :
  quota_inv m ->
  cfg m' = cfg m ->
  m_st m' = m_st m ->
  (forall t rec, m_enforce m = true -> record_of t m = Some rec ->
     enforced m (m_limits m) t rec -> enforced m (m_limits m') t rec) ->
  quota_inv m'.
Proof.
  intros [Q1 Q2 Q3 Q4 Q5] Hcfg Hst Hlim. injection Hcfg as C1 C2 C3 C4 C5.
  unfold record_of in *. split; unfold record_of; rewrite ?Hst; [done .. |].
  rewrite C2. intros t rec He Hr. specialize (Hlim t rec He Hr (Q5 t rec He Hr)). revert Hlim.
  unfold enforced, dirOf, juicefsQuotaPath, juicefsQuotaGiB, hardLimitKB. by rewrite C1, C3, C4, C5.
Qed.

Definition room (m : Manager) : Prop := q_NextProjectID (m_st m) + 1 < 2 ^ 32.

(** What undoing an allocation gives back. *)
Lemma forget_put t n m m1 :
  quota_inv m -> room m -> record_of t m = None ->
  m_st m1 = mkQ (u32 (q_NextProjectID (m_st m) + 1))
              (<[t := mkRec (q_NextProjectID (m_st m)) n]> (q_Tenants (m_st m))) ->
  m_st (forget t m1) = m_st m.
Proof.
  intros [[Q1 Q1'] _ _ _ _] Hroom Hr E. unfold forget, room, record_of in *. simpl. rewrite E. simpl.
  rewrite delete_insert_id by done. rewrite (u32_small (_ + 1)) by lia. rewrite u32_small by lia.
  destruct (m_st m). simpl. f_equal. lia.
Qed.

(** What holds after a call on tenant [t]. *)
Record call_ok (m m' : Manager) (r : result qerr Z) : Prop := {
  co_inv : quota_inv m';
  co_err : is_ok r = false -> m_st m' = m_st m }.

Lemma fresh_id m t rec : quota_inv m -> record_of t m = Some rec -> tr_ProjectID rec <> q_NextProjectID (m_st m).
Proof. intros Q Hr. pose proof (qi_ids m Q t rec Hr). lia. Qed.

(** A new tenant whose limit was applied. *)
Lemma alloc_inv m segs rest t n l d :
  quota_inv m -> mounted_at m segs rest -> room m -> good_seg t -> record_of t m = None ->
  let rec := mkRec (q_NextProjectID (m_st m)) n in
  let m' := mkManager (m_mountPoint m) (m_enforce m) (m_burstMargin m) (m_jfsMetaURL m) (m_jfsMountRoot m)
              (mkQ (u32 (q_NextProjectID (m_st m) + 1)) (<[t := rec]> (q_Tenants (m_st m)))) d l in
  (m_enforce m = true -> enforced m l t rec) ->
  (forall t' rec', m_enforce m = true -> t' <> t -> record_of t' m = Some rec' ->
     enforced m (m_limits m) t' rec' -> enforced m l t' rec') ->
  quota_inv m'.
Proof.
  intros Q M Hroom Ht Hr rec m' He Ho. unfold room in Hroom. pose proof (qi_next m Q) as Hn.
  apply (quota_inv_put m m' t rec); simpl; try done; rewrite ?u32_small by lia; [lia .. |].
  intros t' rec' _ Hr'. by apply fresh_id in Hr'.
Qed.

Lemma Allocate_call ev segs rest t n m r m' :
  quota_inv m -> mounted_at m segs rest -> room m -> good_seg t ->
  qAllocate ev t (dirOf m t) n m = (r, m') -> call_ok m m' r.
Proof.
  intros Q M Hroom Ht. unfold qAllocate. destruct (q_Tenants (m_st m) !! t) as [rec|] eqn:Hr.
  { destruct (_ =? _); intros [= <- <-]; by split. }
  pose proof (qi_good m Q) as Hgood.
  assert (forall m1, m_st m1 = mkQ (u32 (q_NextProjectID (m_st m) + 1))
              (<[t := mkRec (q_NextProjectID (m_st m)) n]> (q_Tenants (m_st m))) -> m_st (forget t m1) = m_st m)
    as Hback by (intros; by eapply forget_put).
  destruct (qe_persist ev); simpl.
  2: { intros [= <- <-]. split; [| by intros _; apply Hback]. by eapply quota_inv_limits; [exact Q | | apply Hback |]. }
  destruct (m_enforce m) eqn:He; simpl.
  2: { intros [= <- <-]. split; [| done]. apply (alloc_inv m segs rest); try done; by rewrite He. }
  case_bool_decide as Hj.
  - destruct (qe_limit ev); simpl; intros [= <- <-]; (split; [| try done]).
    + apply (alloc_inv m segs rest); try done.
      * intros _. unfold enforced. rewrite bool_decide_true by done. apply lookup_insert_eq.
      * intros t' rec' _ Hne Hr'. apply (enforced_other_gib m segs rest); eauto.
    + by eapply quota_inv_limits; [exact Q | by destruct (qe_rollback ev) | rewrite rollback_st; by apply Hback |
        destruct (qe_rollback ev)].
    + intros _. rewrite rollback_st. by apply Hback.
  - destruct (qe_chattr ev); simpl.
    2: { intros [= <- <-]. split; [| intros _; rewrite rollback_st; by apply Hback].
      by eapply quota_inv_limits; [exact Q | by destruct (qe_rollback ev) | rewrite rollback_st; by apply Hback |
        destruct (qe_rollback ev)]. }
    destruct (qe_limit ev); simpl; intros [= <- <-]; (split; [| try done]).
    + apply (alloc_inv m segs rest); try done.
      * intros _. unfold enforced. rewrite bool_decide_false by (by intros []). simpl. by rewrite !lookup_insert_eq.
      * intros t' rec' _ Hne Hr'. eapply (enforced_other_kib m segs rest _ _ _ t); eauto.
        simpl. apply lookup_insert_ne. apply fresh_id in Hr'; congruence.
    + eapply quota_inv_limits; [exact Q | by destruct (qe_rollback ev) | rewrite rollback_st; by apply Hback |].
      intros t' rec' _ Hr' He'.
      assert (t' <> t) by (intros ->; unfold record_of in Hr'; congruence).
      replace (m_limits _) with (mkLimits (<[dirOf m t := q_NextProjectID (m_st m)]> (l_project (m_limits m)))
        (l_kib (m_limits m)) (l_gib (m_limits m))) by (by destruct (qe_rollback ev)).
      eapply (enforced_other_kib m segs rest _ _ _ t); eauto.
    + intros _. rewrite rollback_st. by apply Hback.
Qed.

Lemma Resize_call ev segs rest t n m r m' :
  quota_inv m -> mounted_at m segs rest -> qResize ev t n m = (r, m') ->
  (is_ok r = false -> m_st m' = m_st m) /\ (qe_persist ev = true \/ is_ok r = true -> quota_inv m').
Proof.
  intros Q M. unfold qResize. destruct (q_Tenants (m_st m) !! t) as [rec|] eqn:Hr; [| by intros [= <- <-]].
  destruct (_ =? _); [by intros [= <- <-] |].
  pose proof (qi_good m Q) as Hgood. pose proof (Hgood t rec Hr) as Ht. pose proof (qi_ids m Q t rec Hr) as Hid.
  assert (m_st m = mkQ (q_NextProjectID (m_st m)) (<[t := rec]> (<[t := mkRec (tr_ProjectID rec) n]> (q_Tenants (m_st m)))))
    as Hst by (by rewrite insert_insert_eq, insert_id by done; destruct (m_st m)).
  assert (forall l d, (m_enforce m = true -> enforced m l t (mkRec (tr_ProjectID rec) n)) ->
    (forall t' rec', m_enforce m = true -> t' <> t -> record_of t' m = Some rec' ->
      enforced m (m_limits m) t' rec' -> enforced m l t' rec') ->
    quota_inv (set_disk d (put_record t (mkRec (tr_ProjectID rec) n) (set_limits l m)))) as Hput.
  { intros l d H1 H2. pose proof (qi_next m Q). apply (quota_inv_put m _ t (mkRec (tr_ProjectID rec) n)); simpl; try done; [lia |].
    intros t' rec' Hne Hr' E. by apply (qi_unique m Q t' t rec' rec) in E. }
  destruct (m_enforce m) eqn:He.
  2: { simpl. destruct (qe_persist ev); intros [= <- <-]; simpl; [| by split; [| intros []]].
    split; [done |]. intros _. by apply (Hput (m_limits m)). }
  pose proof (qi_enforced m Q t rec He Hr) as Henf.
  destruct (qe_limit ev) eqn:El; [| case_bool_decide; simpl; by intros [= <- <-]].
  destruct (qe_persist ev) eqn:Ep.
  2: { case_bool_decide; simpl; intros [= <- <-]; by split; [| intros []]. }
  case_bool_decide as Hj; simpl; intros [= <- <-]; (split; [done |]; intros _).
  - apply Hput.
    + intros _. unfold enforced. rewrite bool_decide_true by done. apply lookup_insert_eq.
    + intros t' rec' _ Hne Hr'. apply (enforced_other_gib m segs rest); eauto.
  - apply Hput.
    + unfold enforced in *. rewrite bool_decide_false in * by (by intros []). intros _. simpl.
      destruct Henf. by rewrite lookup_insert_eq.
    + intros t' rec' _ Hne Hr'. eapply (enforced_other_kib m segs rest _ _ _ t _ _ 0); eauto.
      simpl. apply lookup_insert_ne. intros E. by apply (qi_unique m Q t t' rec rec' Hr Hr') in E.
Qed.

Lemma Ensure_call ev ev' segs rest t n m r m' :
  quota_inv m -> mounted_at m segs rest -> room m -> good_seg t ->
  EnsureQuota ev ev' t (dirOf m t) n m = (r, m') ->
  (is_ok r = false -> m_st m' = m_st m) /\ (qe_persist ev' = true \/ is_ok r = true -> quota_inv m').
Proof.
  intros Q M Hroom Ht. unfold EnsureQuota. destruct (qAllocate ev t (dirOf m t) n m) as [[p|x] m1] eqn:E.
  - apply (Allocate_call ev segs rest) in E as [Hi He]; try done. by intros [= <- <-].
  - pose proof (Allocate_records ev t (dirOf m t) n m _ m1 E) as [_ Hr].
    apply (Allocate_call ev segs rest) in E as [Hi He]; try done.
    destruct x; try (by intros [= <- <-]). destruct Hr as [-> _]. by apply (Resize_call ev' segs rest).
Qed.

(** No call changes the configuration, and the file keeps what the memory has. *)
Lemma Ensure_cfg ev ev' t dir n m r m' :
  EnsureQuota ev ev' t dir n m = (r, m') ->
  cfg m' = cfg m /\
  (qe_rollback ev = true -> m_disk m' = Some (m_st m') \/ m_disk m' = m_disk m /\ (m' = m \/ is_ok r = false)).
Proof.
  unfold EnsureQuota, qAllocate. destruct (q_Tenants (m_st m) !! t) as [rec|] eqn:Hr.
  - destruct (Z.eqb_spec (tr_SizeBytes rec) n); simpl; [intros [= <- <-]; auto |].
    unfold qResize. rewrite Hr. destruct (Z.eqb_spec (tr_SizeBytes rec) n); [done |].
    destruct (m_enforce m) eqn:He; [destruct (bool_decide (m_jfsMetaURL m <> [])), (qe_limit ev'), (qe_persist ev')
      | destruct (qe_persist ev')]; simpl; intros [= <- <-]; unfold cfg; simpl; rewrite ?He; naive_solver.
  - destruct (qe_persist ev), (m_enforce m) eqn:He; simpl;
      try destruct (bool_decide (m_jfsMetaURL m <> [])), (qe_limit ev), (qe_chattr ev), (qe_rollback ev);
      simpl; intros [= <- <-]; unfold cfg; simpl; rewrite ?He; naive_solver.
Qed.

(** The bytes that tenant [t] may use. *)
Definition limit_of (m : Manager) (t : gostr) : option Z :=
  if bool_decide (m_jfsMetaURL m <> [])
  then (fun g => g * gib) <$> l_gib (m_limits m) !! juicefsQuotaPath m (dirOf m t)
  else l_project (m_limits m) !! dirOf m t ≫= fun p => (fun k => k * 1024) <$> l_kib (m_limits m) !! p.

Lemma ceil_quot x d : 0 <= x -> 0 < d -> x <= (x + (d - 1)) `quot` d * d < x + d.
Proof.
  intros Hx Hd. rewrite Z.quot_div_nonneg by lia.
  pose proof (Z_div_mod_eq_full (x + (d - 1)) d). pose proof (Z.mod_pos_bound (x + (d - 1)) d Hd). nia.
Qed.

Lemma enforced_limit m t rec :
  enforced m (m_limits m) t rec -> 0 < tr_SizeBytes rec -> 0 <= m_burstMargin m ->
  tr_SizeBytes rec + m_burstMargin m + gib <= 2 ^ 63 ->
  exists L, limit_of m t = Some L /\
    tr_SizeBytes rec + m_burstMargin m <= L < tr_SizeBytes rec + m_burstMargin m + gib.
Proof.
  intros He Hn Hb Hfit. unfold gib in *. unfold enforced in He. unfold limit_of. destruct (bool_decide _).
  - rewrite He. eexists; split; [done |]. unfold juicefsQuotaGiB, gib.
    pose proof (ceil_quot (tr_SizeBytes rec + m_burstMargin m) (2 ^ 30)) as Hc.
    rewrite i64_small by lia.
    replace (tr_SizeBytes rec + m_burstMargin m + 2 ^ 30 - 1) with (tr_SizeBytes rec + m_burstMargin m + (2 ^ 30 - 1)) by lia.
    case_match; lia.
  - destruct He as [-> He]. simpl. rewrite He. eexists; split; [done |]. unfold hardLimitKB.
    pose proof (ceil_quot (tr_SizeBytes rec + m_burstMargin m) 1024) as Hc. 
    rewrite i64_small by lia. change (1024 - 1) with 1023 in Hc. lia.
Qed.

(** A quota that is granted is the quota that is enforced.  When the state of
    the manager is sound (project ids are unique, every recorded tenant has its limit)
    and [EnsureQuota] succeeds for a tenant, its record has exactly that size, the
    file system limits its directory to at least the size and the burst margin and to
    less than one GiB more, in 64-bit arithmetic; the records and the limits of the
    other tenants are as before.  When it fails nothing is recorded, neither in
    memory nor in the state file. *)
Theorem quota_exact segs rest ev ev' t n m r m' :
  quota_inv m -> mounted_at m segs rest -> room m -> good_seg t ->
  0 < n -> 0 <= m_burstMargin m -> n + m_burstMargin m + gib <= 2 ^ 63 ->
  EnsureQuota ev ev' t (dirOf m t) n m = (r, m') ->
  (forall t', t' <> t -> record_of t' m' = record_of t' m) /\
  (qe_persist ev' = true \/ is_ok r = true -> quota_inv m') /\
  (m_disk m = Some (m_st m) -> qe_rollback ev = true -> m_disk m' = Some (m_st m')) /\
  match r with
  | Ok p => record_of t m' = Some (mkRec p n) /\
      (m_enforce m = true -> exists L, limit_of m' t = Some L /\
         n + m_burstMargin m <= L < n + m_burstMargin m + gib)
  | Err _ => m_st m' = m_st m
  end.
Proof.
  intros Q M Hroom Ht Hn Hb Hfit E.
  pose proof (Ensure_records _ _ _ _ _ _ _ _ E) as [Ho Hr]. pose proof (Ensure_cfg _ _ _ _ _ _ _ _ E) as [Hc Hd].
  apply (Ensure_call ev ev' segs rest) in E as [Herr Hinv]; try done.
  split; [done |]. split; [done |]. split.
  { intros Hd0 Hrb. destruct (Hd Hrb) as [?|[-> [-> |Hf]]]; [done .. |]. by rewrite Herr. }
  destruct r as [p|]; [| by apply Herr]. split; [done |]. intros He.
  injection Hc as C1 C2 C3 C4 C5. rewrite <- C3 in *.
  apply (enforced_limit m' t (mkRec p n)); try done. apply Hinv; [by right | by rewrite C2 | done].
Qed.

(** ** Concrete managers *)

#[export] Instance good_seg_dec s : Decision (good_seg s).
Proof. unfold good_seg. apply _. Defined.

Definition no_limits : limits := mkLimits ∅ ∅ ∅.

(** A fresh ext4 manager, and one that has a tenant of 5000 bytes. *)
Definition ext4_0 : Manager := NewManager (str "/data/tenants") true 1000 [] [] None no_limits.
Definition ext4_1 : Manager := (EnsureQuota fine fine (str "u_1") (str "/data/tenants/u_1") 5000 ext4_0).2.

Definition data_segs : list gostr := [str "data"; str "tenants"].

Lemma ext4_mounted : mounted_at ext4_0 data_segs [].
Proof.
  split; [reflexivity | | done | done].
  apply (bool_decide_unpack _). vm_compute. exact I.
Defined.

Lemma fresh_inv mp enf bm url root : quota_inv (NewManager mp enf bm url root None no_limits).
Proof. split; unfold record_of; simpl; [lia | by intros ? ?; rewrite lookup_empty ..]. Defined.

Lemma u_1_good : good_seg (str "u_1").
Proof. apply (bool_decide_unpack _). vm_compute. exact I. Defined.

Lemma quota_exact_witness :
  record_of (str "u_1") ext4_1 = Some (mkRec 100 5000) /\
  exists L, limit_of ext4_1 (str "u_1") = Some L /\ 6000 <= L < 6000 + gib.
Proof.
  destruct (quota_exact data_segs [] fine fine (str "u_1") 5000 ext4_0 (Ok 100) ext4_1) as (_ & _ & _ & Hr & Hl).
  - apply fresh_inv.
  - apply ext4_mounted.
  - unfold room. vm_compute. reflexivity.
  - apply u_1_good.
  - lia.
  - vm_compute. discriminate.
  - vm_compute. discriminate.
  - vm_compute. reflexivity.
  - split; [exact Hr |]. apply Hl. reflexivity.
Defined.

Lemma quota_worker_converges_witness :
  exists a' m', rtc wstep (Enqueue (str "u_1") (str "/data/tenants/u_1") 7000 newAccountQuotaApplier, ext4_1) (a', m') /\
    ap_pending a' = ∅ /\ recorded (str "u_1") (mkPending (str "/data/tenants/u_1") 7000) m'.
Proof.
  destruct (quota_worker_converges ext4_1 {[ str "u_1" := mkPending (str "/data/tenants/u_1") 7000 ]}
    (Enqueue (str "u_1") (str "/data/tenants/u_1") 7000 newAccountQuotaApplier) ext4_1) as (_ & _ & a' & m' & S & He & Hw).
  - eapply rtc_l; [apply as_enqueue | apply rtc_refl].
  - reflexivity.
  - exists a', m'. split; [exact S |]. split; [exact He |]. apply Hw. apply lookup_singleton_eq.
Defined.

(** A resize whose state write fails leaves the kernel with the new limit and the
    record with the old size; asking for the old size again succeeds and does
    nothing, so the wrong limit stays. *)
Example resize_persist_drift :
  let '(r, m) := EnsureQuota fine (mkQenv false true true true) (str "u_1") (str "/data/tenants/u_1") 9000 ext4_1 in
  let '(r', m') := EnsureQuota fine fine (str "u_1") (str "/data/tenants/u_1") 5000 m in
  r = Err ErrPersist /\ record_of (str "u_1") m = Some (mkRec 100 5000) /\
  limit_of ext4_1 (str "u_1") = Some 6144 /\
  r' = Ok 100 /\ record_of (str "u_1") m' = Some (mkRec 100 5000) /\ limit_of m' (str "u_1") = Some 10240.
Proof. vm_compute. repeat split. Qed.

(** A project id that a rolled back allocation has put on a directory is given to
    the next tenant: both directories are in one project and share its limit. *)
Example rollback_reuses_project :
  let '(r, m) := EnsureQuota (mkQenv true true false true) fine (str "u_1") (str "/data/tenants/u_1") 5000 ext4_0 in
  let '(r', m') := EnsureQuota fine fine (str "u_2") (str "/data/tenants/u_2") 5000 m in
  r = Err ErrNotProjectQuotaFS /\ r' = Ok 100 /\
  l_project (m_limits m') !! str "/data/tenants/u_1" = Some 100 /\
  l_project (m_limits m') !! str "/data/tenants/u_2" = Some 100.
Proof. vm_compute. repeat split. Qed.
