(* ===== verification/KeyedMutex.v ===== *)
(** * Locks per key

    orlop-server/keyed_mutex.go: a mutex per key, made on demand and dropped when
    idle; the handlers of tenants take the one of their tenant.  The sections under
    [k.mu] are atomic, as are [Lock] and [Unlock] of an entry; every thread runs
    [lock] and then its release function once.  Entries are allocated in a heap, so
    that two entries of one key would be told apart.

    The theorem: one holder per key, and no entry is left behind. *)

From S2P Require Import Prelude.

Record keyedMutexEntry := mkEntry { e_mu : option Z; e_refs : Z }.

(** Where a thread is: before [e.mu.Lock], between lock and release, or between
    [e.mu.Unlock] and the last section under [k.mu]. *)
Inductive kpc := KWait | KHold | KRelease.

Record kthread := mkThread { th_key : gostr; th_entry : nat; th_pc : kpc }.

Record keyedMutex := mkKeyed {
  k_locks : gmap gostr nat; k_heap : gmap nat keyedMutexEntry; k_next : nat; k_threads : gmap Z kthread }.

Definition newKeyedMutex : keyedMutex := mkKeyed ∅ ∅ 0 ∅.

(** The first section of [lock]. *)
Definition lock_enter (t : Z) (key : gostr) (k : keyedMutex) : option keyedMutex :=
  match k_threads k !! t with
  | Some _ => None
  | None =>
      let '(e, locks, heap, next) :=
        match k_locks k !! key with
        | Some e => (e, k_locks k, k_heap k, k_next k)
        | None => (k_next k, <[key := k_next k]> (k_locks k), <[k_next k := mkEntry None 0]> (k_heap k), S (k_next k))
        end in
      Some (mkKeyed locks (alter (fun x => mkEntry (e_mu x) (e_refs x + 1)) e heap) next
              (<[t := mkThread key e KWait]> (k_threads k)))
  end.

(** [e.mu.Lock], which waits for the mutex. *)
Definition lock_acquire (t : Z) (k : keyedMutex) : option keyedMutex :=
  match k_threads k !! t with
  | Some (mkThread key e KWait) =>
      match k_heap k !! e with
      | Some (mkEntry None refs) =>
          Some (mkKeyed (k_locks k) (<[e := mkEntry (Some t) refs]> (k_heap k)) (k_next k)
                  (<[t := mkThread key e KHold]> (k_threads k)))
      | _ => None
      end
  | _ => None
  end.

Definition unlock_entry (t : Z) (k : keyedMutex) : option keyedMutex :=
  match k_threads k !! t with
  | Some (mkThread key e KHold) =>
      Some (mkKeyed (k_locks k) (alter (fun x => mkEntry None (e_refs x)) e (k_heap k)) (k_next k)
              (<[t := mkThread key e KRelease]> (k_threads k)))
  | _ => None
  end.

(** The last section of the release function. *)
Definition unlock_leave (t : Z) (k : keyedMutex) : option keyedMutex :=
  match k_threads k !! t with
  | Some (mkThread key e KRelease) =>
      match k_heap k !! e with
      | Some x =>
          let refs := e_refs x - 1 in
          Some (mkKeyed (if refs =? 0 then delete key (k_locks k) else k_locks k)
                  (<[e := mkEntry (e_mu x) refs]> (k_heap k)) (k_next k) (delete t (k_threads k)))
      | None => None
      end
  | _ => None
  end.

Inductive kstep (k k' : keyedMutex) : Prop :=
| ks_enter t key : lock_enter t key k = Some k' -> kstep k k'
| ks_acquire t : lock_acquire t k = Some k' -> kstep k k'
| ks_unlock t : unlock_entry t k = Some k' -> kstep k k'
| ks_leave t : unlock_leave t k = Some k' -> kstep k k'.

(** ** Threads on an entry *)

Definition on_entry (e : nat) (k : gmap Z kthread) : gmap Z kthread := filter (fun p => th_entry p.2 = e) k.

Definition users (e : nat) (ths : gmap Z kthread) : Z := Z.of_nat (size (on_entry e ths)).

Lemma users_insert e t th ths :
  ths !! t = None -> users e (<[t := th]> ths) = users e ths + if decide (th_entry th = e) then 1 else 0.
Proof.
  intros Ht. unfold users, on_entry. case_decide as E.
  - rewrite map_filter_insert_True by done. rewrite map_size_insert_None; [lia |]. apply map_lookup_filter_None. by left.
  - rewrite map_filter_insert_False by done. rewrite delete_id by done. lia.
Qed.

Lemma users_delete e t th ths :
  ths !! t = Some th -> users e (delete t ths) = users e ths - if decide (th_entry th = e) then 1 else 0.
Proof.
  intros Ht. rewrite <- (insert_delete_id ths t th Ht) at 2. rewrite users_insert by apply lookup_delete_eq. lia.
Qed.

Lemma users_move e t th th' ths :
  ths !! t = Some th -> th_entry th' = th_entry th -> users e (<[t := th']> ths) = users e ths.
Proof.
  intros Ht E. rewrite <- insert_delete_eq. rewrite users_insert by apply lookup_delete_eq.
  rewrite (users_delete e t th) by done. rewrite E. lia.
Qed.

Lemma users_zero e ths : users e ths = 0 <-> forall t th, ths !! t = Some th -> th_entry th <> e.
Proof.
  unfold users, on_entry. split.
  - intros H t th Ht E. assert (filter (fun p : Z * kthread => th_entry p.2 = e) ths = ∅) as H0 by (apply map_size_empty_inv; lia).
    apply (map_filter_empty_not_lookup _ _ t th H0); done.
  - intros H. rewrite map_empty_filter_2; [done |]. intros t th Ht. by apply (H t th).
Qed.

(** ** The invariant *)

Record keyed_inv (k : keyedMutex) : Prop := {
  ki_thread t th : k_threads k !! t = Some th ->
    k_locks k !! th_key th = Some (th_entry th) /\
    exists x, k_heap k !! th_entry th = Some x /\ (th_pc th = KHold <-> e_mu x = Some t);
  ki_refs key e : k_locks k !! key = Some e ->
    (exists x, k_heap k !! e = Some x /\ e_refs x = users e (k_threads k) /\ 0 < e_refs x /\
       forall t, e_mu x = Some t -> exists th, k_threads k !! t = Some th /\ th_entry th = e /\ th_pc th = KHold) /\
    (e < k_next k)%nat;
  ki_inj key key' e : k_locks k !! key = Some e -> k_locks k !! key' = Some e -> key = key' }.

Lemma thread_entry_lt k t th : keyed_inv k -> k_threads k !! t = Some th -> (th_entry th < k_next k)%nat.
Proof. intros I Ht. destruct (ki_thread k I t th Ht) as [Hl _]. by destruct (ki_refs k I _ _ Hl). Qed.

Lemma enter_inv t key k k' : lock_enter t key k = Some k' -> keyed_inv k -> keyed_inv k'.
Proof.
  unfold lock_enter. intros E I. destruct (k_threads k !! t) as [|] eqn:Ht; [done |].
  destruct (k_locks k !! key) as [e|] eqn:Hl; injection E as <-.
  - destruct (ki_refs k I key e Hl) as [(x & Hx & Hr & Hp & Hm) Hn]. split; simpl.
    + intros t' th [[<- <-]|[Hne Ht']]%lookup_insert_Some; simpl.
      * split; [done |]. eexists. rewrite lookup_alter_eq, Hx. split; [done |]. simpl. split; [done |].
        intros Hmu. destruct (Hm t Hmu) as (th & Hth & _). congruence.
      * destruct (ki_thread k I t' th Ht') as (Hl' & y & Hy & Hh). split; [done |].
        destruct (decide (th_entry th = e)) as [<-|He].
        { rewrite lookup_alter_eq, Hy. eexists; split; [done |]. simpl. congruence. }
        rewrite lookup_alter_ne by done. eauto.
    + intros key' e' Hl'. destruct (ki_refs k I key' e' Hl') as [(y & Hy & Hr' & Hp' & Hm') Hn']. split; [| done].
      rewrite users_insert by done. simpl. destruct (decide (e = e')) as [<-|He].
      * rewrite lookup_alter_eq, Hy. eexists; split; [done |]. simpl. split; [lia |]. split; [lia |].
        intros t' Hmu. destruct (Hm' t' Hmu) as (th & Hth & ?). exists th. rewrite lookup_insert_ne by congruence. done.
      * rewrite lookup_alter_ne by done. exists y. split; [done |]. split; [lia |]. split; [done |].
        intros t' Hmu. destruct (Hm' t' Hmu) as (th & Hth & ?). exists th. rewrite lookup_insert_ne by congruence. done.
    + intros key1 key2 e'. apply (ki_inj k I).
  - split; simpl.
    + intros t' th [[<- <-]|[Hne Ht']]%lookup_insert_Some; simpl.
      * rewrite lookup_insert_eq. split; [done |]. rewrite lookup_alter_eq, lookup_insert_eq. by eexists.
      * pose proof (thread_entry_lt k t' th I Ht') as Hlt. destruct (ki_thread k I t' th Ht') as (Hl' & y & Hy & Hh).
        rewrite lookup_insert_ne by congruence. split; [done |].
        rewrite lookup_alter_ne, lookup_insert_ne by lia. eauto.
    + intros key' e' Hl'. rewrite users_insert by done. simpl. apply lookup_insert_Some in Hl' as [[<- <-]|[Hk Hl']].
      * split; [| lia]. rewrite lookup_alter_eq, lookup_insert_eq, decide_True by done. eexists; split; [done |]. simpl.
        rewrite (proj2 (users_zero (k_next k) (k_threads k))); [done |].
        intros t' th Ht' E. pose proof (thread_entry_lt k t' th I Ht'). lia.
      * destruct (ki_refs k I key' e' Hl') as [(y & Hy & Hr' & Hp' & Hm') Hn']. split; [| lia].
        rewrite decide_False by lia. rewrite lookup_alter_ne, lookup_insert_ne by lia. exists y.
        split; [done |]. split; [lia |]. split; [done |].
        intros t' Hmu. destruct (Hm' t' Hmu) as (th & Hth & ?). exists th. rewrite lookup_insert_ne by congruence. done.
    + intros key1 key2 e' [[<- <-]|[N1 H1]]%lookup_insert_Some [[<- E2]|[N2 H2]]%lookup_insert_Some; try done.
      * by destruct (ki_refs k I _ _ H2); lia.
      * by destruct (ki_refs k I _ _ H1); lia.
      * by eapply (ki_inj k I).
Qed.

(** A thread takes or gives back the mutex of its entry. *)
Lemma move_inv t th x pc mu k :
  keyed_inv k -> k_threads k !! t = Some th -> k_heap k !! th_entry th = Some x ->
  (pc = KHold <-> mu = Some t) -> (forall t', t' <> t -> mu = Some t' <-> e_mu x = Some t') ->
  keyed_inv (mkKeyed (k_locks k) (<[th_entry th := mkEntry mu (e_refs x)]> (k_heap k)) (k_next k)
    (<[t := mkThread (th_key th) (th_entry th) pc]> (k_threads k))).
Proof.
  intros I Ht Hx Hpc Hmu. destruct (ki_thread k I t th Ht) as (Hl & _). split; simpl; [| | apply (ki_inj k I)].
  - intros t' th' [[<- <-]|[Hne Ht']]%lookup_insert_Some; simpl.
    + split; [done |]. rewrite lookup_insert_eq. by eexists.
    + destruct (ki_thread k I t' th' Ht') as (Hl' & y & Hy & Hh). split; [done |].
      destruct (decide (th_entry th = th_entry th')) as [E|He].
      * rewrite <- E in *. rewrite lookup_insert_eq. eexists; split; [done |]. simpl.
        rewrite Hmu by done. by simplify_eq.
      * rewrite lookup_insert_ne by done. eauto.
  - intros key e Hle. destruct (ki_refs k I key e Hle) as [(y & Hy & Hr & Hp & Hm) Hn]. split; [| done].
    rewrite (users_move e t th) by done. destruct (decide (th_entry th = e)) as [<-|He].
    + simplify_eq. rewrite lookup_insert_eq. eexists; split; [done |]. simpl. split; [done |]. split; [done |].
      intros t' Ht'. destruct (decide (t' = t)) as [->|Hne].
      * exists (mkThread (th_key th) (th_entry th) pc). rewrite lookup_insert_eq. simpl. repeat split. by apply Hpc.
      * apply Hmu in Ht' as (th' & Hth' & ?)%Hm; [| done]. exists th'. by rewrite lookup_insert_ne.
    + rewrite lookup_insert_ne by done. exists y. repeat split; try done.
      intros t' (th' & Hth' & He' & ?)%Hm. exists th'. rewrite lookup_insert_ne by (intros ->; simplify_eq). done.
Qed.

Lemma acquire_inv t k k' : lock_acquire t k = Some k' -> keyed_inv k -> keyed_inv k'.
Proof.
  unfold lock_acquire. intros E I. destruct (k_threads k !! t) as [[key e []]|] eqn:Ht; try done.
  destruct (k_heap k !! e) as [[[|] refs]|] eqn:Hx; try done. injection E as <-.
  apply (move_inv t _ _ KHold (Some t) k I Ht Hx); [done |]. simpl. naive_solver.
Qed.

Lemma unlock_inv t k k' : unlock_entry t k = Some k' -> keyed_inv k -> keyed_inv k'.
Proof.
  unfold unlock_entry. intros E I. destruct (k_threads k !! t) as [[key e []]|] eqn:Ht; try done. injection E as <-.
  destruct (ki_thread k I _ _ Ht) as (_ & x & Hx & Hh). simpl in *.
  rewrite (alter_alt_Some (fun x => mkEntry None (e_refs x)) _ _ _ Hx).
  apply (move_inv t _ _ KRelease None k I Ht Hx); [done |].
  intros t' Hne. split; [done |]. destruct Hh as [Hh _]. rewrite (Hh eq_refl). congruence.
Qed.

Lemma leave_inv t k k' : unlock_leave t k = Some k' -> keyed_inv k -> keyed_inv k'.
Proof.
  unfold unlock_leave. intros E I. destruct (k_threads k !! t) as [[key e []]|] eqn:Ht; try done.
  destruct (ki_thread k I _ _ Ht) as (Hl & x & Hx & Hh). simpl in *. rewrite Hx in E. injection E as <-.
  destruct (ki_refs k I key e Hl) as [(x' & Hx' & Hr & Hp & Hm) Hn]. simplify_eq.
  assert (e_mu x <> Some t) as Hmt by (intros Hmu; by apply Hh in Hmu).
  assert (users e (delete t (k_threads k)) = e_refs x - 1) as Hu.
  { rewrite (users_delete e t _ _ Ht). simpl. rewrite decide_True by done. lia. }
  assert (forall key' e', (if e_refs x - 1 =? 0 then delete key (k_locks k) else k_locks k) !! key' = Some e' ->
    k_locks k !! key' = Some e') as Hsub.
  { intros key' e'. destruct (_ =? 0); [| done]. by intros [_ ?]%lookup_delete_Some. }
  split; simpl.
  - intros t' th [Hne Ht']%lookup_delete_Some. destruct (ki_thread k I t' th Ht') as (Hl' & y & Hy & Hh'). split.
    + destruct (Z.eqb_spec (e_refs x - 1) 0) as [E0|]; [| done]. rewrite lookup_delete_ne; [done |]. intros ->.
      rewrite E0 in Hu. rewrite users_zero in Hu. apply (Hu t' th); [by rewrite lookup_delete_ne | congruence].
    + destruct (decide (e = th_entry th)) as [->|He]; [| rewrite lookup_insert_ne by done; eauto].
      rewrite lookup_insert_eq. eexists; split; [done |]. simpl. by simplify_eq.
  - intros key' e' Hl'. pose proof Hl' as Hl0. apply Hsub in Hl0.
    destruct (ki_refs k I key' e' Hl0) as [(y & Hy & Hr' & Hp' & Hm') Hn']. split; [| done].
    destruct (decide (e = e')) as [<-|He].
    + simplify_eq. rewrite lookup_insert_eq. eexists; split; [done |]. simpl. rewrite Hu. split; [done |]. split.
      * assert (key' = key) as -> by (by eapply (ki_inj k I)).
        destruct (Z.eqb_spec (e_refs x - 1) 0); [by rewrite lookup_delete_eq in Hl' | lia].
      * intros t' Hmu. destruct (Hm' t' Hmu) as (th & Hth & ?). exists th. rewrite lookup_delete_ne by congruence. done.
    + rewrite lookup_insert_ne by done. exists y. rewrite (users_delete e' t _ _ Ht). simpl. rewrite decide_False by done.
      split; [done |]. split; [lia |]. split; [done |].
      intros t' (th & Hth & He' & ?)%Hm'. exists th. rewrite lookup_delete_ne by (intros ->; simplify_eq). done.
  - intros key1 key2 e' H1 H2. eapply (ki_inj k I); eauto.
Qed.

Lemma ksteps_inv k k' : rtc kstep k k' -> keyed_inv k -> keyed_inv k'.
Proof.
  induction 1 as [|k k1 k' S _ IH]; [done |]. intros I. apply IH.
  destruct S; eauto using enter_inv, acquire_inv, unlock_inv, leave_inv.
Qed.

Lemma init_inv : keyed_inv newKeyedMutex.
Proof. split; simpl; intros *; by rewrite lookup_empty. Qed.

(** A keyed mutex excludes and does not leak.  In every interleaving of threads
    that lock and release keys: two threads that hold the same key are the same
    thread; the map has an entry for a key exactly while some thread waits for it,
    holds it or is releasing it; and a thread that waits for a key can take it now
    unless another thread holds that same key, so different keys never block each
    other. *)
Theorem keyed_mutex_correct k :
  rtc kstep newKeyedMutex k ->
  (forall t t' th th', k_threads k !! t = Some th -> k_threads k !! t' = Some th' ->
     th_key th = th_key th' -> th_pc th = KHold -> th_pc th' = KHold -> t = t') /\
  (forall key, is_Some (k_locks k !! key) <-> exists t th, k_threads k !! t = Some th /\ th_key th = key) /\
  (forall t th, k_threads k !! t = Some th -> th_pc th = KWait ->
     is_Some (lock_acquire t k) \/
     exists t' th', k_threads k !! t' = Some th' /\ th_key th' = th_key th /\ th_pc th' = KHold).
Proof.
  intros S. assert (keyed_inv k) as I by (by eapply ksteps_inv, init_inv). split; [| split].
  - intros t t' th th' Ht Ht' Hk Hp Hp'.
    destruct (ki_thread k I t th Ht) as (Hl & x & Hx & Hh), (ki_thread k I t' th' Ht') as (Hl' & x' & Hx' & Hh').
    rewrite Hk in Hl. apply Hh in Hp. apply Hh' in Hp'. congruence.
  - intros key. split.
    + intros [e Hl]. destruct (ki_refs k I key e Hl) as [(x & _ & Hr & Hp & _) _].
      destruct (decide (on_entry e (k_threads k) = ∅)) as [E|(t & th & Hf)%map_choose].
      { unfold users in Hr. rewrite E, map_size_empty in Hr. lia. }
      apply map_lookup_filter_Some in Hf as [Ht He]. simpl in He. exists t, th. split; [done |].
      destruct (ki_thread k I t th Ht) as [Hl' _]. rewrite He in Hl'. by eapply (ki_inj k I).
    + intros (t & th & Ht & <-). destruct (ki_thread k I t th Ht) as [-> _]. done.
  - intros t [key e pc] Ht Hpc. simpl in Hpc. subst pc. destruct (ki_thread k I _ _ Ht) as (Hl & x & Hx & _). simpl in *.
    destruct x as [[t'|] refs].
    + right. destruct (ki_refs k I key e Hl) as [(x' & Hx' & _ & _ & Hm) _]. simplify_eq.
      destruct (Hm t' eq_refl) as (th' & Ht' & He & Hp). exists t', th'. split; [done |]. split; [| done].
      destruct (ki_thread k I _ _ Ht') as [Hl' _]. rewrite He in Hl'. by eapply (ki_inj k I).
    + left. unfold lock_acquire. rewrite Ht, Hx. done.
Qed.

(** Thread 2 waits while thread 1 holds the key. *)
Definition contended : keyedMutex :=
  let then_ f k := match f k with Some k' => k' | None => k end in
  then_ (lock_enter 2 (str "a")) (then_ (lock_acquire 1) (then_ (lock_enter 1 (str "a")) newKeyedMutex)).

Lemma contended_steps : rtc kstep newKeyedMutex contended.
Proof.
  eapply rtc_l; [eapply (ks_enter _ _ 1 (str "a")); reflexivity |].
  eapply rtc_l; [eapply (ks_acquire _ _ 1); reflexivity |].
  eapply rtc_l; [eapply (ks_enter _ _ 2 (str "a")); reflexivity |]. apply rtc_refl.
Qed.

Lemma keyed_mutex_correct_witness :
  lock_acquire 2 contended = None /\ is_Some (k_locks contended !! str "a") /\
  exists t' th', k_threads contended !! t' = Some th' /\ th_key th' = str "a" /\ th_pc th' = KHold.
Proof.
  destruct (keyed_mutex_correct contended contended_steps) as (_ & Hl & Hw).
  split; [reflexivity |]. split; [apply Hl; exists 1, (mkThread (str "a") 0 KHold); split; reflexivity |].
  destruct (Hw 2 (mkThread (str "a") 0 KWait)) as [[k Hk]|H].
  - reflexivity.
  - reflexivity.
  - vm_compute in Hk. discriminate.
  - exact H.
Defined.
