(* ===== verification/Tenants.v ===== *)
(** * Registration of tenants

    orlop-server/control_tenants.go (register, resize, unregister, account quota),
    registered_tenants.go (the file of registered tenants) and the part of server.go
    that opens tenants when the server starts.

    A handler holds the lock of its tenant for its whole run and the lock of the
    server or of the file only around a map or a file access.  So a handler is cut
    where it gives other tenants a view of what it did: the preparation (directories,
    quota, open), the change of the map, the removal of directories, the write of the
    file.  [tstep] interleaves these pieces, [s_flight] holds the tenants that are
    locked.  What the operating system answers is an argument, in the order of the
    calls: a failed [MkdirAll] or open may have created a part of its paths, a failed
    [RemoveAll] may have kept any of them.  The file system is the set of the paths
    that exist; the journal files of SQLite are not tracked. *)

From S2P Require Import Prelude GoPath Provision Quota.

(** ** Data *)

Record registeredTenant := mkRT {
  rt_ID : gostr; rt_Name : gostr; rt_SizeBytes : Z; rt_ProjectID : Z; rt_StoreRoot : gostr; rt_RoutesDB : gostr }.

#[export] Instance registeredTenant_eq_dec : EqDecision registeredTenant.
Proof. solve_decision. Defined.

Record tenantState := mkTS { t_id : gostr; t_name : gostr; t_storeRoot : gostr; t_routesDB : gostr }.

Record adminConfig := mkAdmin { ac_TenantsRoot : gostr; ac_MetadataRoot : gostr; ac_RegisteredTenantsPath : gostr }.

(** Where a locked handler is. *)
Inductive phase :=
| FPublish (ts : tenantState) (rt : registeredTenant) | FPersist (rt : registeredTenant)
| FRemove (ts : tenantState) | FDrop.

(** [s_lost] is no state of the server: the tenants for which a write of the file or
    an open at start has failed. *)
Record serverState := mkServer {
  s_adminCfg : adminConfig; s_static : list tenantState;
  s_tenants : gmap gostr tenantState; s_regFile : option (list registeredTenant);
  s_fs : gset gostr; s_quota : Manager; s_quotaApply : option applier;
  s_flight : gmap gostr phase; s_lost : gset gostr }.

Definition set_tenants f s := mkServer (s_adminCfg s) (s_static s) (f (s_tenants s)) (s_regFile s) (s_fs s) (s_quota s)
  (s_quotaApply s) (s_flight s) (s_lost s).
Definition set_file v s := mkServer (s_adminCfg s) (s_static s) (s_tenants s) v (s_fs s) (s_quota s)
  (s_quotaApply s) (s_flight s) (s_lost s).
Definition set_fs f s := mkServer (s_adminCfg s) (s_static s) (s_tenants s) (s_regFile s) (f (s_fs s)) (s_quota s)
  (s_quotaApply s) (s_flight s) (s_lost s).
Definition set_quota q s := mkServer (s_adminCfg s) (s_static s) (s_tenants s) (s_regFile s) (s_fs s) q
  (s_quotaApply s) (s_flight s) (s_lost s).
Definition set_apply a s := mkServer (s_adminCfg s) (s_static s) (s_tenants s) (s_regFile s) (s_fs s) (s_quota s)
  a (s_flight s) (s_lost s).
Definition set_flight f s := mkServer (s_adminCfg s) (s_static s) (s_tenants s) (s_regFile s) (s_fs s) (s_quota s)
  (s_quotaApply s) (f (s_flight s)) (s_lost s).
Definition set_lost f s := mkServer (s_adminCfg s) (s_static s) (s_tenants s) (s_regFile s) (s_fs s) (s_quota s)
  (s_quotaApply s) (s_flight s) (f (s_lost s)).

Inductive tresp := TOk (id : gostr) (projectID sizeBytes : Z) | TNoContent | TErr (status : Z) (code : gostr).

(** ** Names and paths *)

Definition alnum_ (c : ascii) : bool :=
  let n := Ascii.nat_of_ascii c in
  (48 <=? n)%nat && (n <=? 57)%nat || (65 <=? n)%nat && (n <=? 90)%nat || (97 <=? n)%nat && (n <=? 122)%nat || (n =? 95)%nat.

Definition tenantIDRe (s : gostr) : bool :=
  match s with
  | [] => false
  | c :: r => alnum_ c && forallb (fun c => alnum_ c || (Ascii.nat_of_ascii c =? 45)%nat) r && (length r <=? 62)%nat
  end.

Definition dirUnder (root owner id : gostr) : gostr :=
  let d := pathJoin [root; owner] in if bool_decide (id <> owner) then pathJoin [d; id] else d.

Definition metaRoot (c : adminConfig) : gostr :=
  if decide (ac_MetadataRoot c = []) then ac_TenantsRoot c else ac_MetadataRoot c.

(** ** The file system *)

(** The paths [MkdirAll p] makes, from the root down. *)
Fixpoint parents (acc p : gostr) : list gostr :=
  match p with
  | [] => [acc]
  | c :: p' => (if decide (c = slash) then [acc] else []) ++ parents (acc ++ [c]) p'
  end.

Inductive mkdir_out := MkOk | MkQuotaFull (made : nat) | MkFailed (made : nat).

Definition MkdirAll (o : mkdir_out) (p : gostr) (fs : gset gostr) : gset gostr :=
  match o with
  | MkOk => list_to_set (parents [] p) ∪ fs
  | MkQuotaFull n | MkFailed n => list_to_set (take n (parents [] p)) ∪ fs
  end.

Definition writeMkdirError (o : mkdir_out) : option tresp :=
  match o with
  | MkOk => None
  | MkQuotaFull _ => Some (TErr 507 (str "disk_quota_exceeded"))
  | MkFailed _ => Some (TErr 500 (str "mkdir_failed"))
  end.

(** [p] and what is below it. *)
Definition within (p q : gostr) : bool := bool_decide (q = p) || HasPrefix q (p ++ [slash]).

Definition RemoveAll (kept : gostr -> bool) (p : gostr) (fs : gset gostr) : gset gostr :=
  filter (fun q => negb (within p q) || kept q = true) fs.

(** ** The file of registered tenants *)

Definition loadRegisteredTenants (file : option (list registeredTenant)) : list registeredTenant := default [] file.

(** Whether the file could be read and parsed, and be replaced.  Nothing can be
    renamed to an empty path. *)
Definition mutateRegisteredTenants (rd wr : bool) (path : gostr)
    (mutate : list registeredTenant -> list registeredTenant) (file : option (list registeredTenant))
    : bool * option (list registeredTenant) :=
  if negb rd then (false, file)
  else
    let existing := loadRegisteredTenants file in
    let next := mutate existing in
    if decide (existing = next) then (true, file)
    else if wr && bool_decide (path <> []) then (true, Some next) else (false, file).

Fixpoint put_entry (rt : registeredTenant) (l : list registeredTenant) : list registeredTenant :=
  match l with
  | [] => [rt]
  | e :: l' => if decide (rt_ID e = rt_ID rt) then rt :: l' else e :: put_entry rt l'
  end.

Definition drop_entry (id : gostr) (l : list registeredTenant) : list registeredTenant :=
  filter (fun e => rt_ID e <> id) l.

Definition appendRegisteredTenant rd wr path (rt : registeredTenant) file :=
  mutateRegisteredTenants rd wr path (put_entry rt) file.

Definition removeRegisteredTenant rd wr path (id : gostr) file :=
  if decide (path = []) then (true, file) else mutateRegisteredTenants rd wr path (drop_entry id) file.

(** Under [regFileMu]. *)
Definition persistRegisteredTenant rd wr (rt : registeredTenant) (s : serverState) : serverState :=
  let '(ok, f) := appendRegisteredTenant rd wr (ac_RegisteredTenantsPath (s_adminCfg s)) rt (s_regFile s) in
  set_lost (fun l => if ok then l ∖ {[rt_ID rt]} else {[rt_ID rt]} ∪ l) (set_file f s).

Definition dropRegisteredTenant rd wr (id : gostr) (s : serverState) : serverState :=
  let '(ok, f) := removeRegisteredTenant rd wr (ac_RegisteredTenantsPath (s_adminCfg s)) id (s_regFile s) in
  set_lost (fun l => if ok then l ∖ {[id]} else {[id]} ∪ l) (set_file f s).

(** ** Opening a tenant *)

Inductive open_out := OpOk | OpFailed (made : nat).

#[export] Instance open_out_eq_dec : EqDecision open_out.
Proof. solve_decision. Defined.

(** The directory of the databases, routes.db, and the chunk directory. *)
Definition opened_paths (storeRoot dbPath : gostr) : list gostr :=
  parents [] (Dir dbPath) ++ [dbPath] ++ parents [] (pathJoin [storeRoot; str "objects"]).

Definition openTenantState (o : open_out) (id name storeRoot dbPath : gostr) (fs : gset gostr)
    : option tenantState * gset gostr :=
  match o with
  | OpOk => (Some (mkTS id name storeRoot dbPath), list_to_set (opened_paths storeRoot dbPath) ∪ fs)
  | OpFailed n => (None, list_to_set (take n (opened_paths storeRoot dbPath)) ∪ fs)
  end.

(** ** Handlers *)

Record registerTenantRequest := mkRegister {
  rq_TenantID : gostr; rq_OwnerTenantID : gostr; rq_Name : gostr; rq_SizeBytes : Z }.

Definition ownerTenantOf (req : registerTenantRequest) : gostr :=
  if decide (rq_OwnerTenantID req = []) then rq_TenantID req else rq_OwnerTenantID req.

(** What is answered before the lock is taken. *)
Definition register_guard (c : adminConfig) (body : option registerTenantRequest) : result tresp registerTenantRequest :=
  if decide (ac_TenantsRoot c = []) then Err (TErr 501 (str "registration_disabled"))
  else
    match body with
    | None => Err (TErr 400 (str "invalid_request"))
    | Some req =>
        if negb (tenantIDRe (rq_TenantID req)) then Err (TErr 400 (str "invalid_tenant_id"))
        else if negb (tenantIDRe (ownerTenantOf req)) then Err (TErr 400 (str "invalid_owner_tenant_id"))
        else if decide (rq_Name req = []) then Err (TErr 400 (str "invalid_name"))
        else if rq_SizeBytes req <=? 0 then Err (TErr 400 (str "invalid_size"))
        else Ok req
    end.

Definition quotaError (e : qerr) : tresp :=
  match e with
  | ErrNotProjectQuotaFS => TErr 500 (str "fs_quota_unavailable")
  | _ => TErr 500 (str "quota_failed")
  end.

Definition ensureAccountQuota (ev ev' : qenv) (ownerTenant ownerDir : gostr) (sizeBytes : Z) (s : serverState)
    : result tresp Z * serverState :=
  match s_quotaApply s with
  | Some a =>
      (Ok (default 0 (fst <$> Lookup ownerTenant (s_quota s))),
       set_apply (Some (Enqueue ownerTenant ownerDir sizeBytes a)) s)
  | None =>
      let '(r, q) := EnsureQuota ev ev' ownerTenant ownerDir sizeBytes (s_quota s) in
      (match r with Ok p => Ok p | Err e => Err (quotaError e) end, set_quota q s)
  end.

Record regEnv := mkRegEnv { rv_store : mkdir_out; rv_meta : mkdir_out; rv_quota : qenv; rv_quota' : qenv; rv_open : open_out }.

(** The handler up to the point where the tenant is published, or its answer. *)
Inductive prepared := PDone (r : tresp) | POpened (ts : tenantState) (rt : registeredTenant).

Definition register_prepare (ev : regEnv) (req : registerTenantRequest) (s : serverState) : prepared * serverState :=
  let c := s_adminCfg s in
  let ownerTenant := ownerTenantOf req in
  let ownerDir := pathJoin [ac_TenantsRoot c; ownerTenant] in
  let storeRoot := pathJoin [dirUnder (ac_TenantsRoot c) ownerTenant (rq_TenantID req); str "store"] in
  let metaTenantDir := dirUnder (metaRoot c) ownerTenant (rq_TenantID req) in
  let ensure := ensureAccountQuota (rv_quota ev) (rv_quota' ev) ownerTenant ownerDir (rq_SizeBytes req) in
  match s_tenants s !! rq_TenantID req with
  | Some existing =>
      match ensure s with
      | (Err e, s1) => (PDone e, s1)
      | (Ok p, s1) => (PDone (TOk (t_id existing) p (rq_SizeBytes req)), s1)
      end
  | None =>
      let s1 := set_fs (MkdirAll (rv_store ev) storeRoot) s in
      match writeMkdirError (rv_store ev) with
      | Some e => (PDone e, s1)
      | None =>
          let s2 := set_fs (MkdirAll (rv_meta ev) metaTenantDir) s1 in
          match writeMkdirError (rv_meta ev) with
          | Some e => (PDone e, s2)
          | None =>
              match ensure s2 with
              | (Err e, s3) => (PDone e, s3)
              | (Ok p, s3) =>
                  let routesDB := pathJoin [metaTenantDir; str "routes.db"] in
                  let '(o, fs) := openTenantState (rv_open ev) (rq_TenantID req) (rq_Name req) storeRoot routesDB (s_fs s3) in
                  let s4 := set_fs (fun _ => fs) s3 in
                  match o with
                  | None => (PDone (TErr 500 (str "open_tenant_failed")), s4)
                  | Some ts =>
                      (POpened ts (mkRT (rq_TenantID req) (rq_Name req) (rq_SizeBytes req) p storeRoot routesDB), s4)
                  end
              end
          end
      end
  end.

(** The whole handler, run alone. *)
Definition registerTenant (ev : regEnv) (rd wr : bool) (body : option registerTenantRequest) (s : serverState)
    : tresp * serverState :=
  match register_guard (s_adminCfg s) body with
  | Err e => (e, s)
  | Ok req =>
      match register_prepare ev req s with
      | (PDone r, s1) => (r, s1)
      | (POpened ts rt, s1) =>
          (TOk (rq_TenantID req) (rt_ProjectID rt) (rq_SizeBytes req),
           persistRegisteredTenant rd wr rt (set_tenants <[t_id ts := ts]> s1))
      end
  end.

(** The checks of a request on tenant [id] with an optional size. *)
Definition id_guard (c : adminConfig) (code id : gostr) : option tresp :=
  if decide (ac_TenantsRoot c = []) then Some (TErr 501 (str "registration_disabled"))
  else if negb (tenantIDRe id) then Some (TErr 400 code) else None.

Definition size_guard (body : option Z) : result tresp Z :=
  match body with
  | None => Err (TErr 400 (str "invalid_request"))
  | Some n => if n <=? 0 then Err (TErr 400 (str "invalid_size")) else Ok n
  end.

Definition resizeTenant (ev : qenv) (id : gostr) (body : option Z) (s : serverState) : tresp * serverState :=
  match id_guard (s_adminCfg s) (str "invalid_tenant_id") id with
  | Some e => (e, s)
  | None =>
      match size_guard body with
      | Err e => (e, s)
      | Ok n =>
          match s_tenants s !! id with
          | None => (TErr 404 (str "not_found"), s)
          | Some _ =>
              let '(r, q) := qResize ev id n (s_quota s) in
              (match r with
               | Ok p => TOk id p n
               | Err ErrTenantNotFound => TErr 404 (str "not_found")
               | Err e => quotaError e
               end, set_quota q s)
          end
      end
  end.

(** The removal of the directories of an unpublished tenant. *)
Definition remove_dirs (kept kept' : gostr -> bool) (ts : tenantState) (fs : gset gostr) : gset gostr :=
  let tenantDir := Dir (t_storeRoot ts) in
  let metaDir := Dir (t_routesDB ts) in
  let fs1 := RemoveAll kept tenantDir fs in
  if bool_decide (metaDir <> tenantDir) then RemoveAll kept' metaDir fs1 else fs1.

Definition unregisterTenant (kept kept' : gostr -> bool) (rd wr : bool) (id : gostr) (s : serverState)
    : tresp * serverState :=
  match id_guard (s_adminCfg s) (str "invalid_tenant_id") id with
  | Some e => (e, s)
  | None =>
      match s_tenants s !! id with
      | None => (TErr 404 (str "not_found"), s)
      | Some ts =>
          (TNoContent, dropRegisteredTenant rd wr id (set_fs (remove_dirs kept kept' ts) (set_tenants (delete id) s)))
      end
  end.

Definition setAccountQuota (o : mkdir_out) (ev ev' : qenv) (owner : gostr) (body : option Z) (s : serverState)
    : tresp * serverState :=
  match id_guard (s_adminCfg s) (str "invalid_owner_tenant_id") owner with
  | Some e => (e, s)
  | None =>
      match size_guard body with
      | Err e => (e, s)
      | Ok n =>
          let ownerDir := pathJoin [ac_TenantsRoot (s_adminCfg s); owner] in
          let s1 := set_fs (MkdirAll o ownerDir) s in
          match writeMkdirError o with
          | Some e => (e, s1)
          | None =>
              match ensureAccountQuota ev ev' owner ownerDir n s1 with
              | (Err e, s2) => (e, s2)
              | (Ok p, s2) => (TOk owner p n, s2)
              end
          end
      end
  end.

(** ** Start of the server *)

(** One entry of the file: tenants of the configuration win. *)
Definition reload_entry (opens : gostr -> open_out) (st : gmap gostr tenantState * gset gostr * gset gostr)
    (rt : registeredTenant) : gmap gostr tenantState * gset gostr * gset gostr :=
  let '(tenants, fs, lost) := st in
  match tenants !! rt_ID rt with
  | Some _ => st
  | None =>
      match openTenantState (opens (rt_ID rt)) (rt_ID rt) (rt_Name rt) (rt_StoreRoot rt) (rt_RoutesDB rt) fs with
      | (None, fs') => (tenants, fs', {[rt_ID rt]} ∪ lost)
      | (Some ts, fs') => (<[rt_ID rt := ts]> tenants, fs', lost)
      end
  end.

(** The tenants of the configuration, all of which must open. *)
Definition static_tenants (cfgTenants : list tenantState) : gmap gostr tenantState :=
  foldl (fun m t => <[t_id t := t]> m) ∅ cfgTenants.

Definition reload (opens : gostr -> open_out) (s : serverState) : gmap gostr tenantState * gset gostr * gset gostr :=
  let st := (static_tenants (s_static s),
             list_to_set (flat_map (fun t => opened_paths (t_storeRoot t) (t_routesDB t)) (s_static s)) ∪ s_fs s, ∅) in
  if decide (ac_RegisteredTenantsPath (s_adminCfg s) = []) then st
  else foldl (reload_entry opens) st (loadRegisteredTenants (s_regFile s)).

(** A new process on the same files. *)
Definition restart (opens : gostr -> open_out) (s : serverState) : serverState :=
  let '(tenants, fs, lost) := reload opens s in
  let m := s_quota s in
  mkServer (s_adminCfg s) (s_static s) tenants (s_regFile s) fs
    (NewManager (m_mountPoint m) (m_enforce m) (m_burstMargin m) (m_jfsMetaURL m) (m_jfsMountRoot m) (m_disk m) (m_limits m))
    ((fun _ => newAccountQuotaApplier) <$> s_quotaApply s) ∅ lost.

(** ** Interleaving *)

Inductive tstep : serverState -> serverState -> Prop :=
| ts_answer ev body req r s s' :
    register_guard (s_adminCfg s) body = Ok req -> s_flight s !! rq_TenantID req = None ->
    register_prepare ev req s = (PDone r, s') -> tstep s s'
| ts_open ev body req ts rt s s' :
    register_guard (s_adminCfg s) body = Ok req -> s_flight s !! rq_TenantID req = None ->
    register_prepare ev req s = (POpened ts rt, s') -> tstep s (set_flight <[rq_TenantID req := FPublish ts rt]> s')
| ts_publish id ts rt s :
    s_flight s !! id = Some (FPublish ts rt) ->
    tstep s (set_flight <[id := FPersist rt]> (set_tenants <[t_id ts := ts]> s))
| ts_persist id rt rd wr s :
    s_flight s !! id = Some (FPersist rt) ->
    tstep s (set_flight (delete id) (persistRegisteredTenant rd wr rt s))
| ts_unpublish id ts s :
    id_guard (s_adminCfg s) (str "invalid_tenant_id") id = None -> s_flight s !! id = None ->
    s_tenants s !! id = Some ts -> tstep s (set_flight <[id := FRemove ts]> (set_tenants (delete id) s))
| ts_remove id ts kept kept' s :
    s_flight s !! id = Some (FRemove ts) ->
    tstep s (set_flight <[id := FDrop]> (set_fs (remove_dirs kept kept' ts) s))
| ts_drop id rd wr s :
    s_flight s !! id = Some FDrop -> tstep s (set_flight (delete id) (dropRegisteredTenant rd wr id s))
| ts_resize ev id body r s s' :
    s_flight s !! id = None -> resizeTenant ev id body s = (r, s') -> tstep s s'
| ts_account o ev ev' owner body r s s' :
    setAccountQuota o ev ev' owner body s = (r, s') -> tstep s s'
| ts_worker a a' m' s :
    s_quotaApply s = Some a -> wstep (a, s_quota s) (a', m') -> tstep s (set_quota m' (set_apply (Some a') s))
| ts_restart opens s : tstep s (restart opens s).
