(* ===== verification/TenantsProps.v ===== *)
(** * Registered tenants survive a restart and keep apart

    Whatever handlers of different tenants interleave, the file of registered
    tenants and the map of the server agree on every tenant that no handler holds,
    so a new process serves the same tenants; and no request on one tenant touches
    the directories of another, its account apart. *)

From S2P Require Import Prelude GoPath Provision Quota QuotaProps Tenants.

(** ** The file *)

Fixpoint find_entry (id : gostr) (l : list registeredTenant) : option registeredTenant :=
  match l with
  | [] => None
  | e :: l' => if decide (rt_ID e = id) then Some e else find_entry id l'
  end.

(** The tenant that an entry stands for. *)
Definition ts_of (rt : registeredTenant) : tenantState :=
  mkTS (rt_ID rt) (rt_Name rt) (rt_StoreRoot rt) (rt_RoutesDB rt).

Definition on_file (id : gostr) (s : serverState) : option tenantState :=
  ts_of <$> find_entry id (loadRegisteredTenants (s_regFile s)).

Lemma find_put id rt l : find_entry id (put_entry rt l) = if decide (rt_ID rt = id) then Some rt else find_entry id l.
Proof. induction l as [|e l IH]; simpl; repeat case_decide; simpl; repeat case_decide; congruence. Qed.

Lemma find_drop id id' l : find_entry id (drop_entry id' l) = if decide (id = id') then None else find_entry id l.
Proof.
  unfold drop_entry. induction l as [|e l IH]; simpl; [by case_decide |].
  rewrite filter_cons. repeat case_decide; simpl; repeat case_decide; try congruence; by rewrite IH.
Qed.

Lemma mutate_spec rd wr path f file ok file' :
  mutateRegisteredTenants rd wr path f file = (ok, file') ->
  if ok then loadRegisteredTenants file' = f (loadRegisteredTenants file) else file' = file.
Proof.
  unfold mutateRegisteredTenants. destruct rd; simpl; [| by intros [= <- <-]]. case_decide; [by intros [= <- <-] |].
  destruct (wr && _); by intros [= <- <-].
Qed.

Lemma find_id id l rt : find_entry id l = Some rt -> rt_ID rt = id.
Proof. induction l; simpl; [done |]. case_decide; [by intros [= ->] | done]. Qed.

(** ** Start *)

Lemma static_None id l : id ∉ t_id <$> l -> static_tenants l !! id = None.
Proof.
  unfold static_tenants. intros Hl. assert ((∅ : gmap gostr tenantState) !! id = None) as Hm by apply lookup_empty.
  revert Hm Hl. generalize (∅ : gmap gostr tenantState). induction l as [|t l IH]; intros m Hm Hl; simpl; [done |].
  rewrite fmap_cons, not_elem_of_cons in Hl. destruct Hl. apply IH; [| done]. by rewrite lookup_insert_ne.
Qed.

Lemma reload_fold opens id l T fs L :
  let '(T', _, L') := foldl (reload_entry opens) (T, fs, L) l in
  match T !! id with
  | Some ts => T' !! id = Some ts
  | None => if decide (opens id = OpOk) then T' !! id = ts_of <$> find_entry id l
            else T' !! id = None /\ (is_Some (find_entry id l) -> id ∈ L')
  end /\ L ⊆ L'.
Proof.
  revert T fs L. induction l as [|e l IH]; intros T fs L; simpl.
  { destruct (T !! id); [done |]. case_decide; (split; [| done]); [done |]. split; [done | by intros []]. }
  destruct (T !! rt_ID e) as [t|] eqn:He.
  { specialize (IH T fs L). destruct (foldl _ _ _) as [[T' ?] L'] eqn:E. destruct IH as [IH HL]. split; [| done].
    destruct (T !! id) eqn:Hid; [done |]. by rewrite (decide_False (P := rt_ID e = id)) by congruence. }
  destruct (opens (rt_ID e)) as [|n] eqn:Ho; simpl.
  - specialize (IH (<[rt_ID e := ts_of e]> T) (list_to_set (opened_paths (rt_StoreRoot e) (rt_RoutesDB e)) ∪ fs) L).
    change (mkTS _ _ _ _) with (ts_of e). destruct (foldl _ _ _) as [[T' ?] L'] eqn:E. destruct IH as [IH HL]. split; [| done].
    destruct (decide (rt_ID e = id)) as [<-|Hne].
    + rewrite lookup_insert_eq in IH. by rewrite He, Ho.
    + by rewrite lookup_insert_ne in IH.
  - specialize (IH T (list_to_set (take n (opened_paths (rt_StoreRoot e) (rt_RoutesDB e))) ∪ fs) ({[rt_ID e]} ∪ L)).
    destruct (foldl _ _ _) as [[T' ?] L'] eqn:E. destruct IH as [IH HL]. split; [| set_solver].
    destruct (decide (rt_ID e = id)) as [<-|Hne]; [| done].
    rewrite He, Ho in *. rewrite decide_False in * by done. destruct IH as [-> _]. split; [done |]. set_solver.
Qed.

Lemma reload_spec opens s id :
  ac_RegisteredTenantsPath (s_adminCfg s) <> [] -> id ∉ t_id <$> s_static s ->
  let '(T, _, L) := reload opens s in
  (opens id = OpOk -> T !! id = on_file id s) /\ (T !! id = on_file id s \/ id ∈ L).
Proof.
  intros Hp Hid. unfold reload, on_file. rewrite decide_False by done.
  pose proof (reload_fold opens id (loadRegisteredTenants (s_regFile s)) (static_tenants (s_static s))
    (list_to_set (flat_map (fun t => opened_paths (t_storeRoot t) (t_routesDB t)) (s_static s)) ∪ s_fs s) ∅) as H.
  destruct (foldl _ _ _) as [[T fs] L]. rewrite static_None in H by done. destruct H as [H _].
  case_decide; [auto |]. destruct H as [-> H]. split; [done |].
  destruct (find_entry id _) eqn:E; [right; by apply H | by left].
Qed.

(** ** What the steps of a handler do *)

Lemma ensure_frame ev ev' o d n s r s' :
  ensureAccountQuota ev ev' o d n s = (r, s') ->
  s_adminCfg s' = s_adminCfg s /\ s_static s' = s_static s /\ s_tenants s' = s_tenants s /\
  s_regFile s' = s_regFile s /\ s_fs s' = s_fs s /\ s_flight s' = s_flight s /\ s_lost s' = s_lost s.
Proof.
  unfold ensureAccountQuota. destruct (s_quotaApply s); [by intros [= <- <-] |].
  destruct (EnsureQuota _ _ _ _ _ _) as [rq q]. by intros [= <- <-].
Qed.

(** Everything but the quota, its worker and paths that are added. *)
Record same (s s' : serverState) : Prop := {
  sm_cfg : s_adminCfg s' = s_adminCfg s; sm_static : s_static s' = s_static s;
  sm_tenants : s_tenants s' = s_tenants s; sm_file : s_regFile s' = s_regFile s;
  sm_fs : s_fs s ⊆ s_fs s'; sm_flight : s_flight s' = s_flight s; sm_lost : s_lost s' = s_lost s }.

#[export] Instance same_preorder : PreOrder same.
Proof.
  split; [by intros s; split |]. intros s s1 s2 [] []. split; by etrans.
Qed.

Lemma same_fs f s : s_fs s ⊆ f (s_fs s) -> same s (set_fs f s).
Proof. by split. Qed.

Lemma same_ensure ev ev' o d n s r s' : ensureAccountQuota ev ev' o d n s = (r, s') -> same s s'.
Proof. intros (?&?&?&?&Hfs&?&?)%ensure_frame. split; try done. by rewrite Hfs. Qed.

Lemma MkdirAll_sub o p fs : fs ⊆ MkdirAll o p fs.
Proof. destruct o; set_solver. Qed.

Lemma open_spec o id name st db fs r fs' :
  openTenantState o id name st db fs = (r, fs') -> fs ⊆ fs' /\ forall ts, r = Some ts -> ts = mkTS id name st db.
Proof. destruct o; intros [= <- <-]; (split; [set_solver | naive_solver]). Qed.

(** The directories of a tenant under its account. *)
Definition store_of (c : adminConfig) (owner id : gostr) : gostr :=
  pathJoin [dirUnder (ac_TenantsRoot c) owner id; str "store"].
Definition routes_of (c : adminConfig) (owner id : gostr) : gostr :=
  pathJoin [dirUnder (metaRoot c) owner id; str "routes.db"].

Lemma prepare_spec ev req s p s' :
  register_prepare ev req s = (p, s') ->
  same s s' /\
  forall ts rt, p = POpened ts rt ->
    s_tenants s !! rq_TenantID req = None /\ ts = ts_of rt /\ rt_ID rt = rq_TenantID req /\
    rt_StoreRoot rt = store_of (s_adminCfg s) (ownerTenantOf req) (rq_TenantID req) /\
    rt_RoutesDB rt = routes_of (s_adminCfg s) (ownerTenantOf req) (rq_TenantID req).
Proof.
  unfold register_prepare. destruct (s_tenants s !! _) as [ts0|] eqn:Ht.
  { destruct (ensureAccountQuota _ _ _ _ _ _) as [[x|x] s1] eqn:E; intros [= <- <-];
      (split; [by eapply same_ensure | done]). }
  assert (forall o p, same s (set_fs (MkdirAll o p) s)) as Hs1 by (intros; apply same_fs, MkdirAll_sub).
  destruct (writeMkdirError (rv_store ev)); [intros [= <- <-]; by split |].
  set (s2 := set_fs _ (set_fs _ s)).
  assert (same s s2) as Hs2 by (etrans; [apply Hs1 | apply same_fs, MkdirAll_sub]).
  destruct (writeMkdirError (rv_meta ev)); [intros [= <- <-]; by split |].
  destruct (ensureAccountQuota _ _ _ _ _ _) as [[x|x] s3] eqn:E; apply same_ensure in E.
  2: { intros [= <- <-]. split; [by etrans | done]. }
  destruct (openTenantState _ _ _ _ _ _) as [ot fs] eqn:Eo. apply open_spec in Eo as [Hfs Hts].
  assert (same s (set_fs (fun _ => fs) s3)) by (etrans; [exact Hs2 |]; etrans; [exact E |]; by apply same_fs).
  destruct ot as [ts|]; intros [= <- <-]; (split; [done |]); [| done].
  intros ? ? [= <- <-]. by rewrite (Hts ts eq_refl).
Qed.

Lemma resize_same ev id body s r s' : resizeTenant ev id body s = (r, s') -> same s s'.
Proof.
  unfold resizeTenant. destruct (id_guard _ _ _); [by intros [= <- <-] |].
  destruct (size_guard body); [| by intros [= <- <-]]. destruct (s_tenants s !! id); [| by intros [= <- <-]].
  destruct (qResize _ _ _ _). by intros [= <- <-].
Qed.

Lemma account_same o ev ev' owner body s r s' : setAccountQuota o ev ev' owner body s = (r, s') -> same s s'.
Proof.
  unfold setAccountQuota. destruct (id_guard _ _ _); [by intros [= <- <-] |].
  destruct (size_guard body); [| by intros [= <- <-]].
  assert (same s (set_fs (MkdirAll o (pathJoin [ac_TenantsRoot (s_adminCfg s); owner])) s)) as Hs
    by apply same_fs, MkdirAll_sub.
  destruct (writeMkdirError o); [by intros [= <- <-] |].
  destruct (ensureAccountQuota _ _ _ _ _ _) as [[x|x] s2] eqn:E; apply same_ensure in E; intros [= <- <-]; by etrans.
Qed.

(** ** The map and the file agree *)

Definition phase_ok (id : gostr) (T : gmap gostr tenantState) (ph : phase) : Prop :=
  match ph with
  | FPublish ts rt => T !! id = None /\ ts = ts_of rt /\ rt_ID rt = id
  | FPersist rt => T !! id = Some (ts_of rt) /\ rt_ID rt = id
  | FRemove _ | FDrop => T !! id = None
  end.

Record reg_inv (s : serverState) : Prop := {
  ri_phase id ph : s_flight s !! id = Some ph -> phase_ok id (s_tenants s) ph;
  ri_agree id : id ∉ t_id <$> s_static s -> id ∉ s_lost s -> s_flight s !! id = None ->
    s_tenants s !! id = on_file id s }.

Lemma phase_ok_ext id T T' ph : T' !! id = T !! id -> phase_ok id T ph -> phase_ok id T' ph.
Proof. intros E. destruct ph; simpl; by rewrite E. Qed.

Lemma same_inv s s' : same s s' -> reg_inv s -> reg_inv s'.
Proof.
  intros [] [P A]. split; unfold on_file; rewrite ?sm_flight0, ?sm_tenants0, ?sm_static0, ?sm_lost0, ?sm_file0; [done |].
  exact A.
Qed.

(** A handler that has the lock of [id] moves on. *)
Lemma flight_inv id ph T s :
  reg_inv s -> (forall id', id' <> id -> T !! id' = s_tenants s !! id') -> phase_ok id T ph ->
  reg_inv (set_flight <[id := ph]> (set_tenants (fun _ => T) s)).
Proof.
  intros [P A] HT Hph. split; simpl.
  - intros id' ph' [[<- <-]|[Hne Hf]]%lookup_insert_Some; [done |]. eapply phase_ok_ext; [by apply HT | by apply P].
  - intros id' Hs Hl [Hf Hne]%lookup_insert_None. rewrite HT by done. by apply A.
Qed.

(** It ends with a write of the file. *)
Lemma file_inv id ok f s :
  reg_inv s ->
  (if (ok : bool) then
     (forall id', id' <> id -> find_entry id' (loadRegisteredTenants f) = find_entry id' (loadRegisteredTenants (s_regFile s))) /\
     s_tenants s !! id = ts_of <$> find_entry id (loadRegisteredTenants f)
   else f = s_regFile s) ->
  reg_inv (set_flight (delete id) (set_lost (fun l => if ok then l ∖ {[id]} else {[id]} ∪ l) (set_file f s))).
Proof.
  intros [P A] Hf. split; simpl.
  - intros id' ph' [Hne Hfl]%lookup_delete_Some. by apply P.
  - intros id' Hs Hl Hfl. unfold on_file in *. simpl. destruct (decide (id' = id)) as [->|Hne].
    + destruct ok; [by apply Hf | set_solver].
    + rewrite lookup_delete_ne in Hfl by done. destruct ok.
      * destruct Hf as [Hf _]. rewrite Hf by done. apply A; [done | set_solver | done].
      * subst f. apply A; [done | set_solver | done].
Qed.

Lemma set_tenants_const f s : set_tenants f s = set_tenants (fun _ => f (s_tenants s)) s.
Proof. done. Qed.

Lemma restart_inv opens s : ac_RegisteredTenantsPath (s_adminCfg s) <> [] -> reg_inv (restart opens s).
Proof.
  intros Hpath. unfold restart. pose proof (fun id => reload_spec opens s id Hpath) as H.
  destruct (reload opens s) as [[T fs] L]. split; simpl; [by intros ? ?; rewrite lookup_empty |].
  intros id Hs Hl _. destruct (H id Hs) as [_ [?|?]]; done.
Qed.

Lemma restart_cfg opens s : s_adminCfg (restart opens s) = s_adminCfg s /\ s_static (restart opens s) = s_static s.
Proof. unfold restart. by destruct (reload opens s) as [[? ?] ?]. Qed.

Lemma tstep_inv s s' :
  ac_RegisteredTenantsPath (s_adminCfg s) <> [] -> tstep s s' -> reg_inv s -> reg_inv s'.
Proof.
  intros Hpath S I. pose proof I as [P A].
  destruct S as [ev body req r s s' Hg Hf E|ev body req ts rt s s' Hg Hf E|id ts rt s Hf|id rt rd wr s Hf|id ts s Hg Hf Ht
    |id ts kept kept' s Hf|id rd wr s Hf|ev id body r s s' Hf E|o ev ev' owner body r s s' E|a a' m' s Ha W|opens s].
  - apply prepare_spec in E as [E _]. by eapply same_inv.
  - apply prepare_spec in E as [E Hp]. destruct (Hp ts rt eq_refl) as (Hn & Hts & Hid & _).
    apply (flight_inv _ _ (s_tenants s')); [by eapply same_inv | done |]. simpl. by rewrite (sm_tenants _ _ E).
  - destruct (P _ _ Hf) as (Hn & -> & Hid). rewrite set_tenants_const. simpl. rewrite Hid.
    apply flight_inv; [done | by intros; rewrite lookup_insert_ne |]. simpl. by rewrite lookup_insert_eq.
  - destruct (P _ _ Hf) as (Hs & Hid). unfold persistRegisteredTenant. destruct (appendRegisteredTenant _ _ _ _ _) as [ok f] eqn:E.
    rewrite Hid. apply file_inv; [done |]. apply mutate_spec in E. destruct ok; [| done]. rewrite E. split.
    + intros id' Hne. rewrite find_put. by rewrite decide_False by congruence.
    + rewrite find_put. by rewrite decide_True.
  - rewrite set_tenants_const. apply flight_inv; [done | by intros; rewrite lookup_delete_ne |]. simpl. apply lookup_delete_eq.
  - change (set_fs (remove_dirs kept kept' ts) s) with (set_tenants (fun _ => s_tenants s) (set_fs (remove_dirs kept kept' ts) s)).
    apply flight_inv; [| done | by apply (P _ _ Hf)]. by split.
  - unfold dropRegisteredTenant, removeRegisteredTenant. rewrite decide_False by done.
    destruct (mutateRegisteredTenants _ _ _ _ _) as [ok f] eqn:E. apply file_inv; [done |].
    apply mutate_spec in E. destruct ok; [| done]. rewrite E. split.
    + intros id' Hne. rewrite find_drop. by rewrite decide_False by congruence.
    + rewrite find_drop. rewrite decide_True by done. apply (P _ _ Hf).
  - eapply same_inv; [by eapply resize_same | done].
  - eapply same_inv; [by eapply account_same | done].
  - by split.
  - by apply restart_inv.
Qed.

Lemma tstep_cfg s s' : tstep s s' -> s_adminCfg s' = s_adminCfg s /\ s_static s' = s_static s.
Proof.
  intros S. destruct S as [ev body req r s s' Hg Hf E|ev body req ts rt s s' Hg Hf E|id ts rt s Hf|id rt rd wr s Hf|id ts s Hg Hf Ht
    |id ts kept kept' s Hf|id rd wr s Hf|ev id body r s s' Hf E|o ev ev' owner body r s s' E|a a' m' s Ha W|opens s]; try done.
  - apply prepare_spec in E as [[] _]. done.
  - apply prepare_spec in E as [[] _]. done.
  - unfold persistRegisteredTenant. by destruct (appendRegisteredTenant _ _ _ _ _).
  - unfold dropRegisteredTenant. by destruct (removeRegisteredTenant _ _ _ _ _).
  - by apply resize_same in E as [].
  - by apply account_same in E as [].
  - apply restart_cfg.
Qed.

Lemma tsteps_cfg s s' : rtc tstep s s' -> s_adminCfg s' = s_adminCfg s /\ s_static s' = s_static s.
Proof. induction 1 as [|s s1 s' [E1 E2]%tstep_cfg _ [E3 E4]]; [done |]. split; congruence. Qed.

Lemma tsteps_inv s s' :
  ac_RegisteredTenantsPath (s_adminCfg s) <> [] -> rtc tstep s s' -> reg_inv s -> reg_inv s'.
Proof.
  intros Hp. induction 1 as [|s s1 s' S _ IH]; [done |]. intros I.
  apply IH; [by destruct (tstep_cfg _ _ S) as [-> _] | by eapply tstep_inv].
Qed.

(** The lock commutes with the rest of the state. *)
Lemma flight_flight f g s : set_flight f (set_flight g s) = set_flight (fun l => f (g l)) s.
Proof. done. Qed.
Lemma flight_tenants f g s : set_tenants g (set_flight f s) = set_flight f (set_tenants g s).
Proof. done. Qed.
Lemma flight_fs f g s : set_fs g (set_flight f s) = set_flight f (set_fs g s).
Proof. done. Qed.
Lemma flight_persist f rd wr rt s :
  persistRegisteredTenant rd wr rt (set_flight f s) = set_flight f (persistRegisteredTenant rd wr rt s).
Proof. unfold persistRegisteredTenant. simpl. by destruct (appendRegisteredTenant _ _ _ _ _). Qed.
Lemma flight_drop f rd wr id s :
  dropRegisteredTenant rd wr id (set_flight f s) = set_flight f (dropRegisteredTenant rd wr id s).
Proof. unfold dropRegisteredTenant. simpl. by destruct (removeRegisteredTenant _ _ _ _ _). Qed.
Lemma flight_id f s : f (s_flight s) = s_flight s -> set_flight f s = s.
Proof. intros E. unfold set_flight. rewrite E. by destruct s. Qed.
Lemma persist_flight rd wr rt s : s_flight (persistRegisteredTenant rd wr rt s) = s_flight s.
Proof. unfold persistRegisteredTenant. by destruct (appendRegisteredTenant _ _ _ _ _). Qed.
Lemma drop_flight rd wr id s : s_flight (dropRegisteredTenant rd wr id s) = s_flight s.
Proof. unfold dropRegisteredTenant. by destruct (removeRegisteredTenant _ _ _ _ _). Qed.

(** The handlers run alone are runs of the steps. *)
Lemma registerTenant_steps ev rd wr body req s r s' :
  register_guard (s_adminCfg s) body = Ok req -> s_flight s !! rq_TenantID req = None ->
  registerTenant ev rd wr body s = (r, s') -> rtc tstep s s'.
Proof.
  intros Hg Hf. unfold registerTenant. rewrite Hg. destruct (register_prepare ev req s) as [[r0|ts rt] s1] eqn:E.
  { intros [= <- <-]. by eapply rtc_once, ts_answer. }
  pose proof (prepare_spec _ _ _ _ _ E) as [Hs Hp]. destruct (Hp ts rt eq_refl) as (_ & -> & Hid & _).
  intros [= <- <-]. eapply rtc_l; [by eapply ts_open |].
  eapply rtc_l; [eapply ts_publish; apply lookup_insert_eq |].
  eapply rtc_l; [eapply (ts_persist _ rt rd wr); apply lookup_insert_eq |].
  rewrite flight_tenants, !flight_persist, !flight_flight, flight_id; [apply rtc_refl |].
  rewrite persist_flight. simpl. by rewrite insert_insert_eq, delete_insert_id by (by rewrite (sm_flight _ _ Hs)).
Qed.

Lemma unregisterTenant_steps kept kept' rd wr id s r s' :
  s_flight s !! id = None -> unregisterTenant kept kept' rd wr id s = (r, s') -> rtc tstep s s'.
Proof.
  intros Hf. unfold unregisterTenant. destruct (id_guard _ _ _) eqn:Hg; [by intros [= <- <-] |].
  destruct (s_tenants s !! id) as [ts|] eqn:Ht; [| by intros [= <- <-]]. intros [= <- <-].
  eapply rtc_l; [by eapply ts_unpublish |].
  eapply rtc_l; [eapply (ts_remove _ ts kept kept'); apply lookup_insert_eq |].
  eapply rtc_l; [eapply (ts_drop _ rd wr); apply lookup_insert_eq |].
  rewrite flight_fs, !flight_drop, !flight_flight, flight_id; [apply rtc_refl |].
  rewrite drop_flight. simpl. by rewrite insert_insert_eq, delete_insert_id.
Qed.

(** C27: A server that restarts serves the same dynamic tenants.  On a server that keeps a
    file of registered tenants, however the handlers of different tenants interleave, with
    any failures and any earlier restarts, a tenant that is not one of the configuration,
    that no handler holds and whose last write of the file (or open at start) has not
    failed is in the map of the server exactly when the file has it, with the same name
    and directories; so a new process that can open it has it again, and one that was
    unregistered stays away.  (A tenant of the configuration is in the map without being
    on the file, and comes back with every start.) *)
Theorem restart_same_tenants opens0 s0 s id :
  ac_RegisteredTenantsPath (s_adminCfg s0) <> [] -> rtc tstep (restart opens0 s0) s ->
  id ∉ t_id <$> s_static s0 -> id ∉ s_lost s -> s_flight s !! id = None ->
  s_tenants s !! id = on_file id s /\
  forall opens, opens id = OpOk -> s_tenants (restart opens s) !! id = s_tenants s !! id.
Proof.
  intros Hp S Hst Hl Hf.
  destruct (restart_cfg opens0 s0) as [Hc Hs]. destruct (tsteps_cfg _ _ S) as [Hc' Hs']. rewrite Hs in Hs'. rewrite Hc in Hc'.
  assert (reg_inv s) as [_ A] by (apply (tsteps_inv _ _ ltac:(by rewrite Hc) S); by apply restart_inv).
  rewrite <- Hs' in Hst. split; [by apply A |]. intros opens Ho. rewrite A by done.
  pose proof (reload_spec opens s id ltac:(by rewrite Hc') Hst) as H. unfold restart.
  destruct (reload opens s) as [[T fs] L]. by apply H.
Qed.

(** ** Directories *)

Definition tail (r : gostr) : Prop := r = [] \/ exists r', r = slash :: r'.

Lemma within_spec p q : within p q = true <-> exists r, q = p ++ r /\ tail r.
Proof.
  unfold within, HasPrefix. rewrite orb_true_iff, !bool_decide_eq_true. split.
  - intros [-> |[r ->]]; [exists []; rewrite app_nil_r; by split; [| left] |].
    exists (slash :: r). rewrite <- app_assoc. split; [done | right; eauto].
  - intros (r & -> & [-> |[r' ->]]); [left; by rewrite app_nil_r | right]. exists r'. by rewrite <- app_assoc.
Qed.

Lemma seg_eq a b r r' : slash ∉ a -> slash ∉ b -> tail r -> tail r' -> a ++ r = b ++ r' -> a = b /\ r = r'.
Proof.
  revert b. induction a as [|c a IH]; intros [|d b] Ha Hb Hr Hr' E; simpl in *; [done | | |].
  - destruct Hr as [-> |[x ->]]; [done |]. injection E as <- _. by destruct Hb; left.
  - destruct Hr' as [-> |[x ->]]; [done |]. injection E as -> _. by destruct Ha; left.
  - rewrite not_elem_of_cons in Ha, Hb. injection E as -> E. by apply IH in E as [-> ->]; try tauto.
Qed.

Lemma mkpath_tail A r : tail r -> tail (mkpath A ++ r).
Proof. destruct A; [done |]. intros _. right. rewrite mkpath_cons. by eexists. Qed.

(** Two directories that share a path are nested. *)
Lemma mkpath_comparable A B r r' :
  Forall good_seg A -> Forall good_seg B -> tail r -> tail r' ->
  mkpath A ++ r = mkpath B ++ r' -> A `prefix_of` B \/ B `prefix_of` A.
Proof.
  intros HA. revert B. induction HA as [|a A Ha HA IH]; intros B HB Hr Hr' E; [left; apply prefix_nil |].
  destruct HB as [|b B Hb HB]; [right; apply prefix_nil |].
  rewrite !mkpath_cons in E. simpl in E. injection E as E. rewrite <- !app_assoc in E.
  apply seg_eq in E as [-> E]; [| apply Ha | apply Hb | by apply mkpath_tail ..].
  destruct (IH B HB Hr Hr' E); [left | right]; by apply prefix_cons.
Qed.

Lemma tenantIDRe_good s : tenantIDRe s = true -> good_seg s /\ "."%char ∉ s.
Proof.
  assert (forall c, alnum_ c || (Ascii.nat_of_ascii c =? 45)%nat = true -> c <> slash /\ c <> "."%char) as Hc
    by (intros c Hc; split; intros ->; vm_compute in Hc; discriminate).
  unfold tenantIDRe. destruct s as [|c r]; [done |]. rewrite !andb_true_iff. intros [[H1 H2] _].
  assert (Forall (fun c => c <> slash /\ c <> "."%char) (c :: r)) as HF.
  { constructor; [apply Hc; by rewrite H1 |]. apply Forall_forall. intros d Hd. apply Hc.
    rewrite forallb_forall in H2. apply H2. by apply list_elem_of_In. }
  rewrite Forall_forall in HF.
  assert (slash ∉ c :: r) by (intros Hin; by destruct (HF _ Hin)).
  assert ("."%char ∉ c :: r) as Hdot by (intros Hin; by destruct (HF _ Hin)).
  split; [| done]. repeat split; try done; intros E; rewrite E in Hdot; apply Hdot; by left.
Qed.

(** The directory of tenant [i] of account [o], below the root [R]. *)
Definition own (R : list gostr) (o i : gostr) : list gostr := R ++ if bool_decide (i <> o) then [o; i] else [o].

Definition root_at (p : gostr) (R : list gostr) : Prop := p = abspath R /\ Forall good_seg R /\ R <> [].

Lemma pathJoin_seg A x : Forall good_seg A -> A <> [] -> good_seg x -> pathJoin [mkpath A; x] = mkpath (A ++ [x]).
Proof.
  intros HA Hne Hx. assert (exists c t, mkpath A = c :: t) as (c & t & Ec) by (destruct A; [done | by eexists _, _]).
  unfold pathJoin. rewrite Ec. change (join_slash [c :: t; x]) with ((c :: t) ++ slash :: x).
  rewrite <- Ec, <- abspath_snoc. rewrite Clean_abspath; [| apply Forall_app; split; [done | by constructor]].
  by rewrite abspath_snoc, mkpath_snoc.
Qed.

Lemma own_good R o i : Forall good_seg R -> good_seg o -> good_seg i -> Forall good_seg (own R o i) /\ own R o i <> [].
Proof.
  intros HR Ho Hi. unfold own. split; [| by destruct R; case_bool_decide].
  apply Forall_app. split; [done |]. case_bool_decide; repeat constructor; apply Ho || apply Hi.
Qed.

Lemma dirUnder_eq p R o i : root_at p R -> good_seg o -> good_seg i -> dirUnder p o i = mkpath (own R o i).
Proof.
  intros (-> & HR & Hne) Ho Hi. unfold dirUnder, own. replace (abspath R) with (mkpath R) by (by destruct R).
  rewrite pathJoin_seg by done. case_bool_decide; [| done].
  rewrite pathJoin_seg; [by rewrite <- app_assoc | | by destruct R | done].
  apply Forall_app. split; [done | by constructor].
Qed.

Definition comparable (A B : list gostr) : Prop := A `prefix_of` B \/ B `prefix_of` A.

(** The roots of data and metadata are one directory or are not nested. *)
Definition apart (R R' : list gostr) : Prop := R = R' \/ ~ comparable R R'.

Lemma comparable_app R R' u v : comparable (R ++ u) (R' ++ v) -> comparable R R'.
Proof.
  intros [H|H]; [apply (prefix_weak_total R R' (R' ++ v)) | apply (prefix_weak_total R R' (R ++ u))];
    try (by apply prefix_app_r); etrans; [| exact H | | exact H]; by apply prefix_app_r.
Qed.

Lemma comparable_app_inv R u v : comparable (R ++ u) (R ++ v) -> comparable u v.
Proof. intros [H|H]; apply prefix_app_inv in H; [by left | by right]. Qed.

Lemma comparable_cons a b (A B : list gostr) : comparable (a :: A) (b :: B) -> a = b /\ comparable A B.
Proof.
  intros [H|H]; (split; [by apply prefix_cons_inv_1 in H |]); apply prefix_cons_inv_2 in H; [by left | by right].
Qed.

(** The directory of one tenant does not hold the entry [x] of another's, unless it
    is the directory of its account. *)
Lemma own_apart R R' o i o' i' x :
  apart R R' -> i <> i' -> i <> x -> comparable (own R o i) (own R' o' i' ++ [x]) -> i = o /\ o' = o.
Proof.
  intros [<-|Ha] Hi Hx; unfold own; rewrite <- app_assoc.
  2: { intros H%comparable_app. done. }
  intros H%comparable_app_inv. case_bool_decide as E; case_bool_decide as E'; simpl in H.
  - apply comparable_cons in H as [_ [? _]%comparable_cons]. done.
  - apply comparable_cons in H as [_ [? _]%comparable_cons]. done.
  - apply comparable_cons in H as [-> _]. done.
  - apply comparable_cons in H as [-> _]. done.
Qed.

Lemma entry_apart R o i o' i' x :
  i <> i' -> i <> x -> i' <> x -> ~ comparable (own R o i ++ [x]) (own R o' i' ++ [x]).
Proof.
  intros Hi Hx Hx'. unfold own. rewrite <- !app_assoc. intros H%comparable_app_inv.
  case_bool_decide as E; case_bool_decide as E'; simpl in H.
  - apply comparable_cons in H as [_ [? _]%comparable_cons]. done.
  - apply comparable_cons in H as [_ [? _]%comparable_cons]. done.
  - apply comparable_cons in H as [_ [? _]%comparable_cons]. done.
  - apply comparable_cons in H as [-> _]. congruence.
Qed.

(** ** Where the tenants are *)

Lemma guard_ids c body req :
  register_guard c body = Ok req -> tenantIDRe (rq_TenantID req) = true /\ tenantIDRe (ownerTenantOf req) = true.
Proof.
  unfold register_guard. case_decide; [done |]. destruct body as [q|]; [| done].
  destruct (tenantIDRe (rq_TenantID q)) eqn:E1; simpl; [| done].
  destruct (tenantIDRe (ownerTenantOf q)) eqn:E2; simpl; [| done].
  case_decide; [done |]. destruct (_ <=? 0); [done |]. by intros [= <-].
Qed.

Section placed.
Context (R M : list gostr) (c : adminConfig).
Hypothesis HR : root_at (ac_TenantsRoot c) R.
Hypothesis HM : root_at (metaRoot c) M.
Hypothesis Hapart : apart R M.

Definition placed (id : gostr) (ts : tenantState) (o : gostr) : Prop :=
  tenantIDRe id = true /\ tenantIDRe o = true /\
  t_storeRoot ts = store_of c o id /\ t_routesDB ts = routes_of c o id.

Let store := str "store".
Let routes := str "routes.db".

Lemma consts_good : good_seg store /\ good_seg routes.
Proof. split; apply (bool_decide_unpack _); vm_compute; exact I. Qed.

Lemma placed_dirs id ts o :
  placed id ts o ->
  good_seg id /\ id <> routes /\ Forall good_seg (own R o id) /\ Forall good_seg (own M o id) /\
  t_storeRoot ts = mkpath (own R o id ++ [store]) /\ t_routesDB ts = mkpath (own M o id ++ [routes]) /\
  Dir (t_storeRoot ts) = mkpath (own R o id) /\ Dir (t_routesDB ts) = mkpath (own M o id).
Proof.
  intros ([Hi Hd]%tenantIDRe_good & [Ho _]%tenantIDRe_good & -> & ->). destruct consts_good as [Hs Hr].
  destruct (own_good R o id ltac:(apply HR) Ho Hi) as [G1 N1]. destruct (own_good M o id ltac:(apply HM) Ho Hi) as [G2 N2].
  unfold store_of, routes_of. rewrite (dirUnder_eq _ R), (dirUnder_eq _ M) by done.
  rewrite !pathJoin_seg by done. split; [done |]. split; [intros ->; apply Hd; vm_compute; set_solver |].
  do 4 (split; [done |]).
  rewrite !mkpath_snoc, <- !abspath_snoc, !Dir_abspath by (apply Forall_app; split; [done | by constructor]).
  split; [by destruct (own R o id) | by destruct (own M o id)].
Qed.
Definition somewhere (id : gostr) (ts : tenantState) : Prop := exists o, placed id ts o.

Definition phase_placed (id : gostr) (ph : phase) : Prop :=
  match ph with
  | FPublish ts rt => t_id ts = id /\ ts = ts_of rt /\ rt_ID rt = id /\ somewhere id ts
  | FPersist rt => rt_ID rt = id /\ somewhere id (ts_of rt)
  | FRemove ts => somewhere id ts
  | FDrop => True
  end.

Record placed_inv (s : serverState) : Prop := {
  pi_cfg : s_adminCfg s = c; pi_static : s_static s = [];
  pi_tenants : map_Forall somewhere (s_tenants s);
  pi_flight : map_Forall phase_placed (s_flight s);
  pi_file : Forall (fun rt => somewhere (rt_ID rt) (ts_of rt)) (loadRegisteredTenants (s_regFile s)) }.

Lemma same_placed s s' : same s s' -> placed_inv s -> placed_inv s'.
Proof. intros [C1 C2 C3 C4 _ C5 _] [P1 P2 P3 P4 P5]. split; by rewrite ?C1, ?C2, ?C3, ?C4, ?C5. Qed.

Lemma put_entry_Forall P rt l : P rt -> Forall P l -> Forall P (put_entry rt l).
Proof. intros Hrt. induction 1; simpl; [by repeat constructor |]. case_decide; by constructor. Qed.

Lemma mutate_Forall P rd wr path f file ok file' :
  (forall l, Forall P l -> Forall P (f l)) -> Forall P (loadRegisteredTenants file) ->
  mutateRegisteredTenants rd wr path f file = (ok, file') -> Forall P (loadRegisteredTenants file').
Proof. intros Hf Hl H%mutate_spec. destruct ok; [rewrite H; by apply Hf | by subst]. Qed.

Lemma reload_placed opens l T fs L :
  map_Forall somewhere T -> Forall (fun rt => somewhere (rt_ID rt) (ts_of rt)) l ->
  map_Forall somewhere (foldl (reload_entry opens) (T, fs, L) l).1.1.
Proof.
  intros HT Hl. revert T fs L HT. induction Hl as [|rt l Hrt Hl IH]; intros T fs L HT; simpl; [done |].
  destruct (T !! rt_ID rt); [by apply IH |]. destruct (opens (rt_ID rt)); simpl; apply IH; [| done].
  apply map_Forall_insert_2; [exact Hrt | done].
Qed.

Lemma restart_placed opens s :
  s_adminCfg s = c -> s_static s = [] ->
  Forall (fun rt => somewhere (rt_ID rt) (ts_of rt)) (loadRegisteredTenants (s_regFile s)) ->
  placed_inv (restart opens s).
Proof.
  intros P1 P2 P5. unfold restart, reload. rewrite P2. simpl. case_decide; simpl.
  { split; simpl; try done; apply map_Forall_empty. }
  pose proof (reload_placed opens _ ∅ (∅ ∪ s_fs s) ∅ (map_Forall_empty _) P5) as Hre.
  change (static_tenants []) with (∅ : gmap gostr tenantState).
  destruct (foldl _ _ _) as [[T fs] L]. by split.
Qed.

Lemma tstep_placed s s' : tstep s s' -> placed_inv s -> placed_inv s'.
Proof.
  intros S I. pose proof I as [P1 P2 P3 P4 P5].
  destruct S as [ev body req r s s' Hg Hf E|ev body req ts rt s s' Hg Hf E|id ts rt s Hf|id rt rd wr s Hf|id ts s Hg Hf Ht
    |id ts kept kept' s Hf|id rd wr s Hf|ev id body r s s' Hf E|o ev ev' owner body r s s' E|a a' m' s Ha W|opens s].
  - apply prepare_spec in E as [E _]. by eapply same_placed.
  - apply prepare_spec in E as [E Hp]. destruct (Hp ts rt eq_refl) as (_ & -> & Hid & Hst & Hro).
    pose proof (same_placed _ _ E I) as [Q1 Q2 Q3 Q4 Q5]. split; simpl; try done.
    apply map_Forall_insert_2; [| done]. simpl. repeat split; try done. exists (ownerTenantOf req).
    apply guard_ids in Hg as [Hg1 Hg2]. split; [done |]. split; [done |]. by rewrite <- P1.
  - destruct (P4 _ _ Hf) as (Hi & -> & Hid & Hpl). split; simpl; try done.
    + apply map_Forall_insert_2; [| done]. by rewrite Hid.
    + apply map_Forall_insert_2; [by split | done].
  - destruct (P4 _ _ Hf) as (Hid & Hpl). unfold persistRegisteredTenant. destruct (appendRegisteredTenant _ _ _ _ _) eqn:E.
    split; simpl; try done; [by apply map_Forall_delete |].
    eapply mutate_Forall; [| exact P5 | exact E]. intros l. apply put_entry_Forall. by rewrite Hid.
  - split; simpl; try done; [by apply map_Forall_delete |]. apply map_Forall_insert_2; [by apply P3 | done].
  - split; simpl; try done. by apply map_Forall_insert_2.
  - unfold dropRegisteredTenant, removeRegisteredTenant. case_decide.
    { split; simpl; try done. by apply map_Forall_delete. }
    destruct (mutateRegisteredTenants _ _ _ _ _) eqn:E. split; simpl; try done; [by apply map_Forall_delete |].
    eapply mutate_Forall; [| exact P5 | exact E]. intros l. unfold drop_entry.
    rewrite !Forall_forall. intros Hl rt [_ Hin]%list_elem_of_filter. auto.
  - eapply same_placed; [by eapply resize_same | done].
  - eapply same_placed; [by eapply account_same | done].
  - by split.
  - by apply restart_placed.
Qed.

Lemma tsteps_placed s s' : rtc tstep s s' -> placed_inv s -> placed_inv s'.
Proof. induction 1; eauto using tstep_placed. Qed.

(** A removal spares the paths of the other tenants. *)
Lemma removed_within kept kept' ts fs p :
  p ∈ fs -> p ∉ remove_dirs kept kept' ts fs ->
  within (Dir (t_storeRoot ts)) p = true \/ within (Dir (t_routesDB ts)) p = true.
Proof.
  unfold remove_dirs, RemoveAll. intros Hp. case_bool_decide; rewrite !elem_of_filter;
    destruct (within (Dir (t_storeRoot ts)) p), (within (Dir (t_routesDB ts)) p); naive_solver.
Qed.

Lemma removed_account id ts o id' ts' o' p :
  placed id ts o -> placed id' ts' o' -> id <> id' -> id <> store ->
  within (t_storeRoot ts') p = true \/ p = t_routesDB ts' ->
  within (Dir (t_storeRoot ts)) p = true \/ within (Dir (t_routesDB ts)) p = true ->
  id = o /\ o' = o.
Proof.
  intros (_ & Hr & G1 & G2 & _ & _ & E1 & E2)%placed_dirs (_ & _ & G3 & G4 & E3 & E4 & _ & _)%placed_dirs Hi Hs Hp Hw.
  destruct consts_good as [Gs Gr].
  assert (exists x S r, (S = R /\ x = store \/ S = M /\ x = routes) /\ Forall good_seg (own S o' id' ++ [x]) /\ id <> x /\
    p = mkpath (own S o' id' ++ [x]) ++ r /\ tail r) as (x & S & r & HS & GS & Hx & Ep & Ht).
  { destruct Hp as [Hp | ->].
    - rewrite E3 in Hp. apply within_spec in Hp as (r & -> & Ht). exists store, R, r.
      repeat split; auto. apply Forall_app. split; [done | by constructor].
    - exists routes, M, []. rewrite app_nil_r. repeat split; auto; [| by left].
      apply Forall_app. split; [done | by constructor]. }
  assert (exists S' r', (S' = R \/ S' = M) /\ Forall good_seg (own S' o id) /\ p = mkpath (own S' o id) ++ r' /\ tail r')
    as (S' & r' & HS' & GS' & Ep' & Ht').
  { rewrite E1, E2, !within_spec in Hw. destruct Hw as [(r' & ? & ?)|(r' & ? & ?)]; eauto 8. }
  rewrite Ep in Ep'. apply eq_sym, mkpath_comparable in Ep'; [| done ..].
  apply (own_apart S' S o id o' id' x); [| done ..]. unfold apart, comparable in *. naive_solver.
Qed.
End placed.

(** Only the removal of an unpublished tenant takes paths away. *)
Lemma reload_fs opens l T fs L : fs ⊆ (foldl (reload_entry opens) (T, fs, L) l).1.2.
Proof.
  revert T fs L. induction l as [|rt l IH]; intros T fs L; simpl; [done |].
  destruct (T !! rt_ID rt); [apply IH |].
  destruct (opens (rt_ID rt)); simpl; (etrans; [| apply IH]); set_solver.
Qed.

Lemma tstep_removes s s' p :
  tstep s s' -> p ∈ s_fs s -> p ∉ s_fs s' ->
  exists id ts kept kept', s_flight s !! id = Some (FRemove ts) /\ s_tenants s' = s_tenants s /\
    s_fs s' = remove_dirs kept kept' ts (s_fs s).
Proof.
  intros S Hp Hn. destruct S as [ev body req r s s' Hg Hf E|ev body req ts rt s s' Hg Hf E|id ts rt s Hf|id rt rd wr s Hf|id ts s Hg Hf Ht
    |id ts kept kept' s Hf|id rd wr s Hf|ev id body r s s' Hf E|o ev ev' owner body r s s' E|a a' m' s Ha W|opens s];
    simpl in *; try done.
  - apply prepare_spec in E as [E _]. by apply (sm_fs _ _ E) in Hp.
  - apply prepare_spec in E as [E _]. by apply (sm_fs _ _ E) in Hp.
  - unfold persistRegisteredTenant in Hn. by destruct (appendRegisteredTenant _ _ _ _ _).
  - by exists id, ts, kept, kept'.
  - unfold dropRegisteredTenant in Hn. by destruct (removeRegisteredTenant _ _ _ _ _).
  - apply resize_same in E. by apply (sm_fs _ _ E) in Hp.
  - apply account_same in E. by apply (sm_fs _ _ E) in Hp.
  - unfold restart, reload in Hn. case_decide; simpl in Hn; [set_solver |].
    pose proof (reload_fs opens (loadRegisteredTenants (s_regFile s)) (static_tenants (s_static s))
      (list_to_set (flat_map (fun t => opened_paths (t_storeRoot t) (t_routesDB t)) (s_static s)) ∪ s_fs s) ∅) as Hsub.
    destruct (foldl _ _ _) as [[T fs] L]. simpl in *. set_solver.
Qed.

(** C16: Dynamic tenants are kept apart.  On a server without tenants of its own
    configuration (those may share a store, see [static_tenants_share_store]), that keeps
    a file of registered tenants, each in a place that registering gives, and whose data
    and metadata roots are absolute and one directory or not nested, in every state that
    requests, failures and restarts lead to: no path is in the chunk stores of two
    tenants, unless one of them is named [store]; and when a step takes away a path of
    the chunk store or the database of a tenant that is registered, it is the removal of
    the account tenant the tenant is nested under, or of a tenant named [store]. *)
Theorem tenants_isolated R M opens0 s0 s :
  root_at (ac_TenantsRoot (s_adminCfg s0)) R -> root_at (metaRoot (s_adminCfg s0)) M -> apart R M ->
  ac_RegisteredTenantsPath (s_adminCfg s0) <> [] -> s_static s0 = [] ->
  Forall (fun rt => somewhere (s_adminCfg s0) (rt_ID rt) (ts_of rt)) (loadRegisteredTenants (s_regFile s0)) ->
  rtc tstep (restart opens0 s0) s ->
  (forall id ts id' ts' p, s_tenants s !! id = Some ts -> s_tenants s !! id' = Some ts' ->
     id <> str "store" -> id' <> str "store" ->
     within (t_storeRoot ts) p = true -> within (t_storeRoot ts') p = true -> id = id') /\
  (forall s' id' ts' p, tstep s s' -> s_tenants s !! id' = Some ts' ->
     within (t_storeRoot ts') p = true \/ p = t_routesDB ts' ->
     p ∈ s_fs s -> p ∉ s_fs s' ->
     exists o ts, s_flight s !! o = Some (FRemove ts) /\
       (o = str "store" \/ placed (s_adminCfg s0) o ts o /\ placed (s_adminCfg s0) id' ts' o)).
Proof.
  intros HR HM Ha Hpath Hst0 Hfile S. set (c := s_adminCfg s0) in *.
  assert (placed_inv c s) as [P1 P2 P3 P4 P5] by (eapply tsteps_placed; [exact S | by apply restart_placed]).
  assert (reg_inv s) as [Ph _] by (eapply tsteps_inv; [| exact S | by apply restart_inv]; by destruct (restart_cfg opens0 s0) as [-> _]).
  split.
  - intros id ts id' ts' p Ht Ht' Hs Hs' Hw Hw'. destruct (decide (id = id')) as [|Hne]; [done |]. exfalso.
    destruct (P3 _ _ Ht) as [o Ho], (P3 _ _ Ht') as [o' Ho'].
    apply (placed_dirs R M c HR HM Ha) in Ho as (_ & _ & G1 & _ & E1 & _), Ho' as (_ & _ & G2 & _ & E2 & _).
    rewrite E1 in Hw. rewrite E2 in Hw'. apply within_spec in Hw as (r & -> & Hr), Hw' as (r' & E & Hr').
    assert (forall A, Forall good_seg A -> Forall good_seg (A ++ [str "store"])) as Gs
      by (intros; apply Forall_app; split; [done | constructor; [apply consts_good | done]]).
    apply (entry_apart R o id o' id' (str "store")); [done .. |].
    apply (mkpath_comparable _ _ r r'); [by apply Gs .. | done | done | done].
  - intros s' id' ts' p St Ht' Hp Hin Hout.
    destruct (tstep_removes _ _ _ St Hin Hout) as (id & ts & kept & kept' & Hf & _ & Hfs).
    rewrite Hfs in Hout. apply removed_within in Hout; [| done]. exists id, ts. split; [done |].
    destruct (decide (id = str "store")) as [|Hst]; [by left | right].
    destruct (P4 _ _ Hf) as [o Ho], (P3 _ _ Ht') as [o' Ho'].
    assert (id <> id') as Hne by (intros ->; pose proof (Ph _ _ Hf) as Hn; simpl in Hn; congruence).
    destruct (removed_account R M c HR HM Ha _ _ _ _ _ _ p Ho Ho' Hne Hst Hp Hout) as [-> ->]. by split.
Qed.

(** ** Concrete servers *)

Definition admin0 : adminConfig := mkAdmin (str "/data/tenants") [] (str "/data/registered_tenants.json").

Definition disk0 : serverState := mkServer admin0 [] ∅ None ∅ ext4_0 None ∅ ∅.

Definition all_ok : gostr -> open_out := fun _ => OpOk.
Definition none : gostr -> bool := fun _ => false.
Definition fine_reg : regEnv := mkRegEnv MkOk MkOk fine fine OpOk.

Definition serv0 : serverState := restart all_ok disk0.

(** Agent [id] of account u_1, and the account itself. *)
Definition reg (id : gostr) : option registerTenantRequest := Some (mkRegister id (str "u_1") (str "n") 5000).

Definition serv1 : serverState := (registerTenant fine_reg true true (reg (str "a_1")) serv0).2.
Definition serv2 : serverState := (registerTenant fine_reg true true (reg (str "u_1")) serv1).2.

Lemma serv1_steps : rtc tstep serv0 serv1.
Proof.
  eapply (registerTenant_steps fine_reg true true (reg (str "a_1"))); [reflexivity | reflexivity | apply surjective_pairing].
Qed.

Lemma restart_same_tenants_witness :
  s_tenants (restart all_ok serv1) !! str "a_1" =
    Some (mkTS (str "a_1") (str "n") (str "/data/tenants/u_1/a_1/store") (str "/data/tenants/u_1/a_1/routes.db")).
Proof.
  destruct (restart_same_tenants all_ok disk0 serv1 (str "a_1")) as [_ Hr].
  - discriminate.
  - apply serv1_steps.
  - apply not_elem_of_nil.
  - vm_compute. intros E. discriminate E.
  - vm_compute. reflexivity.
  - rewrite (Hr all_ok eq_refl). vm_compute. reflexivity.
Defined.

Lemma data_root : root_at (str "/data/tenants") data_segs.
Proof. split; [reflexivity |]. split; [apply ext4_mounted | discriminate]. Qed.

Lemma serv2_steps : rtc tstep serv0 serv2.
Proof.
  etransitivity; [apply serv1_steps |].
  eapply (registerTenant_steps fine_reg true true (reg (str "u_1"))); [vm_compute; reflexivity .. | apply surjective_pairing].
Qed.

Lemma tenants_isolated_witness :
  bool_decide (is_Some (s_tenants serv2 !! str "a_1")) = true /\
  bool_decide (is_Some (s_tenants serv2 !! str "u_1")) = true /\
  forall id ts id' ts' p, s_tenants serv2 !! id = Some ts -> s_tenants serv2 !! id' = Some ts' ->
     id <> str "store" -> id' <> str "store" ->
     within (t_storeRoot ts) p = true -> within (t_storeRoot ts') p = true -> id = id'.
Proof.
  split; [vm_compute; reflexivity |]. split; [vm_compute; reflexivity |].
  apply (tenants_isolated data_segs data_segs all_ok disk0 serv2).
  - apply data_root.
  - apply data_root.
  - left. reflexivity.
  - discriminate.
  - reflexivity.
  - constructor.
  - apply serv2_steps.
Defined.

(** Unregistering an account removes the directories of its agents, which stay
    registered. *)
Example unregister_account_wipes_agents :
  let '(r, s) := unregisterTenant none none true true (str "u_1") serv2 in
  r = TNoContent /\ is_Some (s_tenants s !! str "a_1") /\
  bool_decide (str "/data/tenants/u_1/a_1/routes.db" ∈ s_fs serv2) = true /\
  bool_decide (str "/data/tenants/u_1/a_1/routes.db" ∈ s_fs s) = false /\
  bool_decide (str "/data/tenants/u_1/a_1/store" ∈ s_fs s) = false.
Proof. vm_compute. repeat split; eauto. Qed.

(** The quota record is that of the account, so a resize of an agent's tenant finds
    none. *)
Example resize_agent_not_found :
  (resizeTenant fine (str "a_1") (Some 9000) serv1).1 = TErr 404 (str "not_found") /\
  is_Some (s_tenants serv1 !! str "a_1").
Proof. vm_compute. split; eauto. Qed.

(** A tenant whose entry could not be written is live; registering it again answers
    from memory and does not write it, and a restart loses it. *)
Example lost_entry_not_repaired :
  let '(r, s) := registerTenant fine_reg true false (reg (str "a_1")) serv0 in
  let '(r', s') := registerTenant fine_reg true true (reg (str "a_1")) s in
  r = TOk (str "a_1") 100 5000 /\ r' = TOk (str "a_1") 100 5000 /\ is_Some (s_tenants s' !! str "a_1") /\
  s_regFile s' = None /\ s_tenants (restart all_ok s') !! str "a_1" = None.
Proof. vm_compute. repeat split; eauto. Qed.

(** A tenant of the configuration can be unregistered, and the parent directory of
    its store goes with everything in it. *)
Example unregister_static_wipes_parent :
  let conf := mkTS (str "t") (str "n") (str "/srv/store") (str "/srv/t.db") in
  let s0 := restart all_ok (mkServer admin0 [conf] ∅ None {[ str "/srv/other" ]} ext4_0 None ∅ ∅) in
  let '(r, s) := unregisterTenant none none true true (str "t") s0 in
  r = TNoContent /\ bool_decide (str "/srv/other" ∈ s_fs s0) = true /\ bool_decide (str "/srv/other" ∈ s_fs s) = false.
Proof. vm_compute. repeat split. Qed.
