(* ===== verification/MsgGuard.v ===== *)
(** * Limits on MessagePack input

    orlop-server/dos_hardening.go: [guardMsgpackLimits] walks an untrusted payload
    before it is decoded, because the decoder allocates a container from the length
    its header declares.

    The decoder is the package vmihailenco/msgpack: it is the class [Decoder], whose
    laws say what the guard relies on: every call that succeeds reads at least one
    byte and leaves the rest of the input.  [format] is an instance, the MessagePack
    format for the codes the guard distinguishes and for plain scalars. *)

From S2P Require Import Prelude.

(** The position of a reader is the rest of its input. *)
Class Decoder := {
  PeekCode : list Z -> option Z;
  DecodeArrayLen : list Z -> option (Z * list Z);
  DecodeMapLen : list Z -> option (Z * list Z);
  Skip : list Z -> option (list Z) }.

Class DecoderLaws (D : Decoder) : Prop := {
  arraylen_reads bs n rest : DecodeArrayLen bs = Some (n, rest) -> (length rest < length bs)%nat;
  maplen_reads bs n rest : DecodeMapLen bs = Some (n, rest) -> (length rest < length bs)%nat;
  skip_reads bs rest : Skip bs = Some rest -> (length rest < length bs)%nat }.

Definition maxMsgpackContainerLen : Z := Z.shiftl 1 20.
Definition maxMsgpackDepth : nat := 64.

(** The codes of msgpcode: fixarray, array16, array32 and the same for maps. *)
Definition is_array_code (c : Z) : bool := (0x90 <=? c) && (c <=? 0x9f) || (c =? 0xdc) || (c =? 0xdd).
Definition is_map_code (c : Z) : bool := (0x80 <=? c) && (c <=? 0x8f) || (c =? 0xde) || (c =? 0xdf).

Definition checkContainerLen (n budget : Z) : bool :=
  negb ((n <? 0) || (maxMsgpackContainerLen <? n) || (budget <? n)).

(** The loop over the elements of a container. *)
Fixpoint scan_n (scan : list Z -> option (list Z)) (n : nat) (bs : list Z) : option (list Z) :=
  match n with
  | O => Some bs
  | S n' => match scan bs with Some rest => scan_n scan n' rest | None => None end
  end.

Section guard.
Context {D : Decoder} {L : DecoderLaws D}.

(** [scanMsgpackValue] with [left] levels of nesting to go: level [depth] has
    [maxMsgpackDepth + 1 - depth] left. *)
Fixpoint scanMsgpackValue (budget : Z) (left : nat) (bs : list Z) : option (list Z) :=
  match left with
  | O => None
  | S left' =>
      match PeekCode bs with
      | None => None
      | Some code =>
          if is_array_code code then
            match DecodeArrayLen bs with
            | None => None
            | Some (n, rest) =>
                if checkContainerLen n budget then scan_n (scanMsgpackValue budget left') (Z.to_nat n) rest else None
            end
          else if is_map_code code then
            match DecodeMapLen bs with
            | None => None
            | Some (n, rest) =>
                if checkContainerLen n budget
                then scan_n (fun b => match scanMsgpackValue budget left' b with
                                      | Some b' => scanMsgpackValue budget left' b' | None => None end) (Z.to_nat n) rest
                else None
            end
          else Skip bs
      end
  end.

Definition guardMsgpackLimits (payload : list Z) : bool :=
  bool_decide (is_Some (scanMsgpackValue (Z.of_nat (length payload)) (S maxMsgpackDepth) payload)).

(** ** What the guard decides *)

(** [value bs d lens rest]: the input starts with a value of [d] levels whose
    containers declare the lengths [lens], and [rest] follows it. *)
Inductive value : list Z -> nat -> list Z -> list Z -> Prop :=
| v_scalar bs code rest :
    PeekCode bs = Some code -> is_array_code code = false -> is_map_code code = false ->
    Skip bs = Some rest -> value bs 1 [] rest
| v_array bs code n body d lens rest :
    PeekCode bs = Some code -> is_array_code code = true ->
    DecodeArrayLen bs = Some (n, body) -> 0 <= n ->
    values body (Z.to_nat n) d lens rest -> value bs (S d) (n :: lens) rest
| v_map bs code n body d lens rest :
    PeekCode bs = Some code -> is_array_code code = false -> is_map_code code = true ->
    DecodeMapLen bs = Some (n, body) -> 0 <= n ->
    values body (2 * Z.to_nat n) d lens rest -> value bs (S d) (n :: lens) rest
with values : list Z -> nat -> nat -> list Z -> list Z -> Prop :=
| vs_nil bs d : values bs 0 d [] bs
| vs_cons bs n d d' lens lens' mid rest :
    value bs d' lens mid -> (d' <= d)%nat -> values mid n d lens' rest -> values bs (S n) d (lens ++ lens') rest.
Scheme value_mut := Minimality for value Sort Prop
  with values_mut := Minimality for values Sort Prop.
Combined Scheme value_values_ind from value_mut, values_mut.

(** A length that the guard accepts. *)
Definition fits (budget n : Z) : Prop := 0 <= n <= maxMsgpackContainerLen /\ n <= budget.

Lemma checkContainerLen_spec n budget : checkContainerLen n budget = true <-> fits budget n.
Proof. unfold checkContainerLen, fits. rewrite negb_true_iff, !orb_false_iff. lia. Qed.

Definition total (lens : list Z) : Z := foldr Z.add 0 lens.

Lemma total_app l k : total (l ++ k) = total l + total k.
Proof. unfold total. induction l as [|x l IH]; simpl; lia. Qed.

(** Every declared element takes a byte of the input. *)
Lemma value_bytes :
  (forall bs d lens rest, value bs d lens rest -> total lens + 1 + Z.of_nat (length rest) <= Z.of_nat (length bs)) /\
  (forall bs n d lens rest, values bs n d lens rest ->
     total lens + Z.of_nat n + Z.of_nat (length rest) <= Z.of_nat (length bs)).
Proof.
  apply value_values_ind; simpl.
  - intros bs code rest _ _ _ Hs%skip_reads. lia.
  - intros bs code n body d lens rest _ _ Hl%arraylen_reads Hn _ IH. simpl in *. lia.
  - intros bs code n body d lens rest _ _ _ Hl%maplen_reads Hn _ IH. simpl in *. lia.
  - lia.
  - intros bs n d d' lens lens' mid rest _ IH1 _ _ IH2. rewrite total_app. lia.
Qed.

(** The loop, for a scan that is right about one value. *)
Lemma values_sound budget left (scan : list Z -> option (list Z)) n bs rest :
  (forall bs rest, scan bs = Some rest -> exists d lens, value bs d lens rest /\ (d <= left)%nat /\ Forall (fits budget) lens) ->
  scan_n scan n bs = Some rest ->
  exists lens, values bs n left lens rest /\ Forall (fits budget) lens.
Proof.
  intros Hscan. revert bs. induction n as [|n IH]; intros bs; simpl.
  { intros [= <-]. exists []. split; [constructor | done]. }
  destruct (scan bs) as [mid|] eqn:E; [| done]. intros H.
  destruct (Hscan _ _ E) as (d & lens & Hv & Hd & HF). destruct (IH mid H) as (lens' & Hvs & HF').
  exists (lens ++ lens'). split; [by econstructor | by apply Forall_app].
Qed.

Lemma scan_twice (scan : list Z -> option (list Z)) n bs :
  scan_n (fun b => match scan b with Some b' => scan b' | None => None end) n bs = scan_n scan (2 * n) bs.
Proof.
  revert bs. induction n as [|n IH]; intros bs; [done |]. replace (2 * S n)%nat with (S (S (2 * n))) by lia. simpl.
  destruct (scan bs) as [b|]; [| done]. destruct (scan b) as [b'|]; [apply IH | done].
Qed.

Lemma scan_sound budget left bs rest :
  scanMsgpackValue budget left bs = Some rest ->
  exists d lens, value bs d lens rest /\ (d <= left)%nat /\ Forall (fits budget) lens.
Proof.
  revert bs rest. induction left as [|left IH]; intros bs rest; simpl; [done |].
  destruct (PeekCode bs) as [code|] eqn:Hp; [| done].
  destruct (is_array_code code) eqn:Ha; [| destruct (is_map_code code) eqn:Hm].
  - destruct (DecodeArrayLen bs) as [[n body]|] eqn:Hl; [| done].
    destruct (checkContainerLen n budget) eqn:Hc; [| done]. apply checkContainerLen_spec in Hc. intros H.
    destruct (values_sound budget left _ _ _ _ IH H) as (lens & Hv & HF). exists (S left), (n :: lens).
    split; [| by split; [| constructor]]. eapply v_array; eauto. apply Hc.
  - destruct (DecodeMapLen bs) as [[n body]|] eqn:Hl; [| done].
    destruct (checkContainerLen n budget) eqn:Hc; [| done]. apply checkContainerLen_spec in Hc. rewrite scan_twice. intros H.
    destruct (values_sound budget left _ _ _ _ IH H) as (lens & Hv & HF). exists (S left), (n :: lens).
    split; [| by split; [| constructor]]. eapply v_map; eauto. apply Hc.
  - intros H. exists 1%nat, []. split; [by eapply v_scalar |]. split; [lia | done].
Qed.

Lemma scan_complete budget :
  (forall bs d lens rest, value bs d lens rest ->
     forall left, (d <= left)%nat -> Forall (fits budget) lens -> scanMsgpackValue budget left bs = Some rest) /\
  (forall bs n d lens rest, values bs n d lens rest ->
     forall left, (d <= left)%nat -> Forall (fits budget) lens -> scan_n (scanMsgpackValue budget left) n bs = Some rest).
Proof.
  apply value_values_ind.
  - intros bs code rest Hp Ha Hm Hs [|left] Hd _; [lia |]. simpl. by rewrite Hp, Ha, Hm.
  - intros bs code n body d lens rest Hp Ha Hl Hn _ IH [|left] Hd HF; [lia |]. apply Forall_cons in HF as [Hf HF].
    simpl. rewrite Hp, Ha, Hl, (proj2 (checkContainerLen_spec n budget) Hf). apply IH; [lia | done].
  - intros bs code n body d lens rest Hp Ha Hm Hl Hn _ IH [|left] Hd HF; [lia |]. apply Forall_cons in HF as [Hf HF].
    simpl. rewrite Hp, Ha, Hm, Hl, (proj2 (checkContainerLen_spec n budget) Hf), scan_twice. apply IH; [lia | done].
  - done.
  - intros bs n d d' lens lens' mid rest _ IH1 Hd' _ IH2 left Hd [HF1 HF2]%Forall_app. simpl.
    rewrite (IH1 left) by (done || lia). by apply IH2.
Qed.

End guard.

(** C37: The guard accepts exactly the harmless payloads.  For every decoder that
    reads at least a byte per item, [guardMsgpackLimits] accepts a payload if and
    only if it starts with a value of at most 65 levels all of whose containers
    declare between 0 and 2^20 elements and no more than the payload has bytes; and
    the containers of an accepted payload declare together fewer elements than the
    payload has bytes, so what the decoder allocates for them is linear in the input. *)
Theorem guard_bounds_allocation {D : Decoder} {L : DecoderLaws D} payload :
  (guardMsgpackLimits payload = true <->
   exists d lens rest, value payload d lens rest /\ (d <= 65)%nat /\
     Forall (fun n => 0 <= n <= 2 ^ 20 /\ n <= Z.of_nat (length payload)) lens) /\
  (guardMsgpackLimits payload = true ->
   exists d lens rest, value payload d lens rest /\ total lens < Z.of_nat (length payload)).
Proof.
  unfold guardMsgpackLimits. rewrite bool_decide_eq_true. split; [split |].
  - intros [rest (d & lens & Hv & Hd & HF)%scan_sound]. by exists d, lens, rest.
  - intros (d & lens & rest & Hv & Hd & HF). exists rest. by apply (proj1 (scan_complete _) payload d lens).
  - intros [rest (d & lens & Hv & _ & _)%scan_sound]. exists d, lens, rest. split; [done |].
    pose proof (proj1 value_bytes _ _ _ _ Hv). lia.
Qed.

(** ** An instance: the MessagePack format *)

Fixpoint be (bs : list Z) : Z := match bs with [] => 0 | b :: r => b * 256 ^ Z.of_nat (length r) + be r end.

(** The number in the next [k] bytes, and the bytes after [n]. *)
Definition read_be (k : nat) (bs : list Z) : option (Z * list Z) :=
  if (k <=? length bs)%nat then Some (be (take k bs), drop k bs) else None.
Definition drop_exact (n : Z) (bs : list Z) : option (list Z) :=
  if n <=? Z.of_nat (length bs) then Some (drop (Z.to_nat n) bs) else None.

Definition fmt_len (fix_lo c16 c32 : Z) (bs : list Z) : option (Z * list Z) :=
  match bs with
  | [] => None
  | c :: r =>
      if (fix_lo <=? c) && (c <=? fix_lo + 15) then Some (c - fix_lo, r)
      else if c =? c16 then read_be 2 r else if c =? c32 then read_be 4 r else None
  end.

(** The bytes of a scalar after its code: none, a fixed number, or a length first. *)
Definition fmt_skip (bs : list Z) : option (list Z) :=
  match bs with
  | [] => None
  | c :: r =>
      let sized k := match read_be k r with Some (n, r') => drop_exact n r' | None => None end in
      if (c <=? 0x7f) || (0xe0 <=? c) || (c =? 0xc0) || (c =? 0xc2) || (c =? 0xc3) then Some r
      else if (0xa0 <=? c) && (c <=? 0xbf) then drop_exact (c - 0xa0) r
      else if (c =? 0xcc) || (c =? 0xd0) then drop_exact 1 r
      else if (c =? 0xcd) || (c =? 0xd1) then drop_exact 2 r
      else if (c =? 0xce) || (c =? 0xd2) || (c =? 0xca) then drop_exact 4 r
      else if (c =? 0xcf) || (c =? 0xd3) || (c =? 0xcb) then drop_exact 8 r
      else if (c =? 0xc4) || (c =? 0xd9) then sized 1%nat
      else if (c =? 0xc5) || (c =? 0xda) then sized 2%nat
      else if (c =? 0xc6) || (c =? 0xdb) then sized 4%nat
      else None
  end.

#[export] Instance format : Decoder := {|
  PeekCode bs := head bs;
  DecodeArrayLen := fmt_len 0x90 0xdc 0xdd;
  DecodeMapLen := fmt_len 0x80 0xde 0xdf;
  Skip := fmt_skip |}.

Lemma read_be_len k bs n rest : read_be k bs = Some (n, rest) -> (length rest <= length bs)%nat.
Proof. unfold read_be. destruct (_ <=? _)%nat; intros [= <- <-]. rewrite length_drop. lia. Qed.

Lemma drop_exact_len n bs rest : drop_exact n bs = Some rest -> (length rest <= length bs)%nat.
Proof. unfold drop_exact. destruct (_ <=? _); intros [= <-]. rewrite length_drop. lia. Qed.

Lemma fmt_len_reads lo a b bs n rest : fmt_len lo a b bs = Some (n, rest) -> (length rest < length bs)%nat.
Proof.
  destruct bs as [|c r]; simpl; [done |]. destruct (_ && _); [intros [= <- <-]; lia |].
  repeat case_match; try done; intros Hr%read_be_len; lia.
Qed.

#[export] Instance format_laws : DecoderLaws format.
Proof.
  split; try apply fmt_len_reads. intros bs rest. simpl. destruct bs as [|c r]; [done |].
  unfold fmt_skip. cbn zeta. simpl length. intros Hs.
  assert (length rest <= length r)%nat; [| lia].
  repeat (case_match; simplify_eq; try done; eauto using drop_exact_len).
  all: try (by etrans; [by eapply drop_exact_len | by eapply read_be_len]).
Qed.

(** [[1, "ab"], {nil: true}] in an array, and a five byte payload that declares an
    array of 2^32 - 1 elements. *)
Definition small : list Z := [0x92; 0x92; 1; 0xa2; 97; 98; 0x81; 0xc0; 0xc3].
Definition bomb : list Z := [0xdd; 255; 255; 255; 255].

Lemma guard_bounds_allocation_witness :
  guardMsgpackLimits small = true /\ guardMsgpackLimits bomb = false /\
  exists d lens rest, value small d lens rest /\ total lens < 9.
Proof.
  split; [vm_compute; reflexivity |]. split; [vm_compute; reflexivity |].
  apply (guard_bounds_allocation small). vm_compute. reflexivity.
Defined.
