(* ===== verification/PubSub.v ===== *)
(** * Live journal entries

    orlop-server/journal_pubsub.go: the fan-out of committed journal entries to the
    subscribers of an allocation; control_journal.go: the journal query and the
    stream that first replays and then follows.

    A broadcast sends under the read lock, so its sends interleave with those of
    other broadcasts; removals and registrations run under the write lock, when no
    broadcast is sending, and are one step; a channel is closed after its removal,
    with no lock held.  A send on a closed channel panics in Go, which is a flag
    here.  What a subscriber was offered, has received and has missed is recorded
    beside its channel. *)

From S2P Require Import Prelude GoPath Codec TenantDB Journal.

Definition journalSubBuffer : nat := 64.

Record journalSub := mkSub {
  js_alloc : gostr; js_ch : list SessionJournalEntry; js_closed : bool;
  js_offered : list SessionJournalEntry; js_received : list SessionJournalEntry; js_missed : bool }.

(** A broadcast in its send loop, and a removal (of a dropped subscriber or by
    [unsub]) before the write lock and between it and the closing. *)
Inductive bpc :=
| BSend (alloc : gostr) (e : SessionJournalEntry) (todo dropped : list nat)
| BLock (alloc : gostr) (gone : list nat)
| BClose (gone : list nat).

Record journalPubSub := mkPS {
  ps_subs : gmap gostr (list nat); ps_chan : gmap nat journalSub; ps_next : nat;
  ps_threads : gmap Z bpc; ps_panic : bool }.

Definition newJournalPubSub : journalPubSub := mkPS ∅ ∅ 0 ∅ false.

Definition subs_of (alloc : gostr) (ps : journalPubSub) : list nat := default [] (ps_subs ps !! alloc).

Definition is_send (pc : bpc) : bool := match pc with BSend _ _ _ _ => true | _ => false end.

(** Nobody holds the read lock. *)
Definition no_readers (ps : journalPubSub) : Prop := map_Forall (fun _ pc => is_send pc = false) (ps_threads ps).
#[export] Instance no_readers_dec ps : Decision (no_readers ps).
Proof. unfold no_readers. apply _. Defined.

Definition subscribe_sub (alloc : gostr) : journalSub := mkSub alloc [] false [] [] false.

(** [SubscribeJournal]; the section under the write lock. *)
Definition SubscribeJournal (alloc : gostr) (ps : journalPubSub) : nat * journalPubSub :=
  (ps_next ps,
   mkPS (<[alloc := subs_of alloc ps ++ [ps_next ps]]> (ps_subs ps))
     (<[ps_next ps := subscribe_sub alloc]> (ps_chan ps)) (S (ps_next ps)) (ps_threads ps) (ps_panic ps)).

(** The send of the select: sent, or full. *)
Definition offer (e : SessionJournalEntry) (s : journalSub) : journalSub :=
  if (length (js_ch s) <? journalSubBuffer)%nat
  then mkSub (js_alloc s) (js_ch s ++ [e]) (js_closed s) (js_offered s ++ [e]) (js_received s) (js_missed s)
  else mkSub (js_alloc s) (js_ch s) (js_closed s) (js_offered s ++ [e]) (js_received s) true.

Definition full (s : journalSub) : bool := negb (length (js_ch s) <? journalSubBuffer)%nat.

Definition closeChannel (s : journalSub) : journalSub :=
  mkSub (js_alloc s) (js_ch s) true (js_offered s) (js_received s) (js_missed s).

Fixpoint remove_first (s : nat) (l : list nat) : list nat :=
  match l with [] => [] | x :: l' => if decide (x = s) then l' else x :: remove_first s l' end.

Definition removeSubLocked (alloc : gostr) (s : nat) (subs : gmap gostr (list nat)) : gmap gostr (list nat) :=
  let list := default [] (subs !! alloc) in
  if bool_decide (s ∈ list) then
    let rest := remove_first s list in
    if decide (rest = []) then delete alloc subs else <[alloc := rest]> subs
  else subs.

Definition set_thread (t : Z) (pc : bpc) (ps : journalPubSub) : journalPubSub :=
  mkPS (ps_subs ps) (ps_chan ps) (ps_next ps) (<[t := pc]> (ps_threads ps)) (ps_panic ps).
Definition end_thread (t : Z) (ps : journalPubSub) : journalPubSub :=
  mkPS (ps_subs ps) (ps_chan ps) (ps_next ps) (delete t (ps_threads ps)) (ps_panic ps).
Definition set_chan (f : gmap nat journalSub -> gmap nat journalSub) (ps : journalPubSub) : journalPubSub :=
  mkPS (ps_subs ps) (f (ps_chan ps)) (ps_next ps) (ps_threads ps) (ps_panic ps).

(** The next step of a thread of [Broadcast] or of an unsubscription. *)
Definition thread_step (t : Z) (ps : journalPubSub) : option journalPubSub :=
  match ps_threads ps !! t with
  | Some (BSend alloc e (s :: todo) dropped) =>
      match ps_chan ps !! s with
      | Some sub =>
          let next := BSend alloc e todo (if full sub then dropped ++ [s] else dropped) in
          let ps1 := set_thread t next (set_chan <[s := offer e sub]> ps) in
          Some (if js_closed sub
                then mkPS (ps_subs ps1) (ps_chan ps1) (ps_next ps1) (ps_threads ps1) true else ps1)
      | None => None
      end
  | Some (BSend alloc e [] []) => Some (end_thread t ps)
  | Some (BSend alloc e [] dropped) => Some (set_thread t (BLock alloc dropped) ps)
  | Some (BLock alloc gone) =>
      if decide (no_readers ps) then
        Some (set_thread t (BClose gone)
                (mkPS (foldl (fun m s => removeSubLocked alloc s m) (ps_subs ps) gone) (ps_chan ps) (ps_next ps)
                   (ps_threads ps) (ps_panic ps)))
      else None
  | Some (BClose (s :: gone)) => Some (set_thread t (BClose gone) (set_chan (alter closeChannel s) ps))
  | Some (BClose []) => Some (end_thread t ps)
  | None => None
  end.

Inductive pstep : journalPubSub -> journalPubSub -> Prop :=
| p_subscribe alloc ps : no_readers ps -> pstep ps (SubscribeJournal alloc ps).2
| p_broadcast t alloc e ps :
    ps_threads ps !! t = None -> pstep ps (set_thread t (BSend alloc e (subs_of alloc ps) []) ps)
| p_unsub t s sub ps :
    ps_threads ps !! t = None -> ps_chan ps !! s = Some sub -> pstep ps (set_thread t (BLock (js_alloc sub) [s]) ps)
| p_thread t ps ps' : thread_step t ps = Some ps' -> pstep ps ps'
| p_receive s sub e rest ps :
    ps_chan ps !! s = Some sub -> js_ch sub = e :: rest ->
    pstep ps (set_chan <[s := mkSub (js_alloc sub) rest (js_closed sub) (js_offered sub) (js_received sub ++ [e]) (js_missed sub)]> ps).

(** ** The journal endpoints *)

Section stream.
Context {MP : MsgPack}.

Inductive jresp :=
| JPage (entries : list JournalQueryRow) (nextCursor : gostr) | JErr (status : Z) (code : gostr).

(** [tenantJournalQuery] of a registered tenant; the numbers are what ParseUint
    returns.  [after_seq] absent is [None]. *)
Definition tenantJournalQuery (allocationID : gostr) (rawLimit : Z) (cursor : gostr) (afterSeq : option Z) (d : tdb) : jresp :=
  match afterSeq with
  | Some after =>
      if decide (allocationID = []) then JErr 400 (str "missing_allocation_id")
      else
        let limit := if rawLimit =? 0 then 200 else if 200 <? rawLimit then 200 else rawLimit in
        match QueryAfterSeq allocationID after limit d with
        | Err _ => JErr 500 (str "journal_failed")
        | Ok rows => JPage rows []
        end
  | None =>
      let userAllocations := if decide (allocationID = []) then ListAllocations d else [] in
      let '(rows, next) := Query allocationID rawLimit cursor userAllocations d in
      JPage rows next
  end.

Definition journalQueryRowFromEntry (e : SessionJournalEntry) : JournalQueryRow :=
  mkJqr (je_SessionID e) (je_AllocationID e) (je_Seq e) (je_TsUnixMs e) (je_Path e) (je_Op e) (je_AgentID e)
    (je_BeforeVersion e) (je_AfterVersion e) (je_RenameFrom e)
    (match je_BeforeManifest e with
     | Some ((_ :: _) as b) => mf_Size <$> decodeJournalManifest (je_Path e) b
     | _ => None
     end) None.

(** The frames of the live loop for the entries it receives. *)
Fixpoint stream_live (highestSentSeq : Z) (live : list SessionJournalEntry) : list JournalQueryRow :=
  match live with
  | [] => []
  | e :: live' =>
      if je_Seq e <=? highestSentSeq then stream_live highestSentSeq live'
      else journalQueryRowFromEntry e :: stream_live (je_Seq e) live'
  end.

(** [tenantJournalStream]: the rows of the catch-up, then what arrives on the channel
    that is subscribed afterwards. *)
Definition tenantJournalStream (allocationID : gostr) (afterSeq : Z) (d : tdb) (live : list SessionJournalEntry)
    : option (list JournalQueryRow) :=
  match QueryAfterSeq allocationID afterSeq 50 d with
  | Err _ => None
  | Ok catchUp =>
      let highest := foldl (fun h row => if h <? jq_Seq row then jq_Seq row else h) afterSeq catchUp in
      Some (catchUp ++ stream_live highest live)
  end.
End stream.
