(* ===== verification/PubSubProps.v ===== *)
(** * No live entry is lost silently

    The fan-out never sends on a closed channel; a subscriber that misses an entry is
    on its way to be closed, so its consumer learns of it; every other subscriber gets
    every entry, in the order it was offered. *)

From S2P Require Import Prelude GoPath Codec TenantDB Journal WireProps PubSub.

(** The subscribers a thread is going to remove or close. *)
Definition doomed_by (pc : bpc) : list nat :=
  match pc with BSend _ _ _ dropped => dropped | BLock _ gone | BClose gone => gone end.

Definition todo_by (pc : bpc) : list nat := match pc with BSend _ _ todo _ => todo | _ => [] end.
Definition closing_by (pc : bpc) : list nat := match pc with BClose gone => gone | _ => [] end.

(** Removed from the lists and from every send loop. *)
Definition unlisted (s : nat) (ps : journalPubSub) : Prop :=
  (forall a, s ∉ subs_of a ps) /\ (forall t pc, ps_threads ps !! t = Some pc -> s ∉ todo_by pc).

Record ps_inv (ps : journalPubSub) : Prop := {
  pv_panic : ps_panic ps = false;
  pv_nodup a : NoDup (subs_of a ps);
  pv_listed a s : s ∈ subs_of a ps -> exists sub, ps_chan ps !! s = Some sub /\ js_alloc sub = a;
  pv_next s sub : ps_chan ps !! s = Some sub -> (s < ps_next ps)%nat;
  pv_thread t pc s : ps_threads ps !! t = Some pc -> s ∈ todo_by pc \/ s ∈ doomed_by pc -> is_Some (ps_chan ps !! s);
  pv_alloc t pc s sub : ps_threads ps !! t = Some pc -> s ∈ todo_by pc \/ s ∈ doomed_by pc -> ps_chan ps !! s = Some sub ->
    match pc with BSend a _ _ _ | BLock a _ => js_alloc sub = a | BClose _ => True end;
  pv_closing t pc s : ps_threads ps !! t = Some pc -> s ∈ closing_by pc -> unlisted s ps;
  pv_closed s sub : ps_chan ps !! s = Some sub -> js_closed sub = true -> unlisted s ps;
  pv_missed s sub : ps_chan ps !! s = Some sub -> js_missed sub = true ->
    js_closed sub = true \/ exists t pc, ps_threads ps !! t = Some pc /\ s ∈ doomed_by pc;
  pv_got s sub : ps_chan ps !! s = Some sub -> js_missed sub = false -> js_offered sub = js_received sub ++ js_ch sub;
  pv_buffer s sub : ps_chan ps !! s = Some sub -> (length (js_ch sub) <= journalSubBuffer)%nat }.

Lemma subs_insert a a' l ps m th p n :
  subs_of a' (mkPS (<[a := l]> (ps_subs ps)) m n th p) = if decide (a = a') then l else subs_of a' ps.
Proof.
  unfold subs_of. simpl. case_decide as E; [subst; by rewrite lookup_insert_eq | by rewrite lookup_insert_ne].
Qed.

Lemma remove_first_spec s l x : NoDup l -> x ∈ remove_first s l <-> x ∈ l /\ x <> s.
Proof.
  induction 1 as [|y l Hy Hl IH]; simpl; [set_solver |].
  case_decide as E; [subst | rewrite elem_of_cons, IH]; set_solver.
Qed.

Lemma remove_first_NoDup s l : NoDup l -> NoDup (remove_first s l).
Proof.
  induction 1 as [|y l Hy Hl IH]; simpl; [constructor |]. case_decide; [done |].
  constructor; [| done]. rewrite remove_first_spec by done. naive_solver.
Qed.

Lemma removeLocked_subs a s subs a' :
  default [] (removeSubLocked a s subs !! a') =
  if decide (a = a') then remove_first s (default [] (subs !! a')) else default [] (subs !! a').
Proof.
  assert (forall l, s ∉ l -> remove_first s l = l) as Hid.
  { induction l as [|x l IH]; simpl; [done |]. intros [Hx Hl]%not_elem_of_cons. rewrite decide_False by done. by rewrite IH. }
  unfold removeSubLocked. case_bool_decide as Hin.
  - case_decide as Hr; case_decide as E; subst; rewrite ?lookup_delete_eq, ?lookup_insert_eq, ?lookup_delete_ne,
      ?lookup_insert_ne by done; simpl; [by rewrite Hr | done ..].
  - case_decide as E; [subst; by rewrite Hid | done].
Qed.

Lemma removed_all a gone ps a' s :
  let subs := foldl (fun m s => removeSubLocked a s m) (ps_subs ps) gone in
  NoDup (subs_of a' ps) ->
  NoDup (default [] (subs !! a')) /\
  (s ∈ default [] (subs !! a') <-> s ∈ subs_of a' ps /\ (a' = a -> s ∉ gone)).
Proof.
  unfold subs_of. simpl. generalize (ps_subs ps). induction gone as [|g gone IH]; intros m Hnd; simpl.
  { split; [done |]. split; [| naive_solver]. intros; split; [done |]. intros _. apply not_elem_of_nil. }
  specialize (IH (removeSubLocked a g m)). rewrite removeLocked_subs in IH.
  destruct (decide (a = a')) as [<-|Hne].
  - destruct IH as [H1 H2]; [by apply remove_first_NoDup |]. split; [done |]. rewrite H2, remove_first_spec by done.
    rewrite not_elem_of_cons. naive_solver.
  - destruct IH as [H1 H2]; [done |]. split; [done |]. rewrite H2. naive_solver.
Qed.

(** ** One change at a time *)

Definition of_alloc (pc : bpc) (sub : journalSub) : Prop :=
  match pc with BSend a _ _ _ | BLock a _ => js_alloc sub = a | BClose _ => True end.

Lemma inv_chan s sub sub' ps :
  ps_inv ps -> ps_chan ps !! s = Some sub -> js_alloc sub' = js_alloc sub ->
  (js_closed sub' = true -> unlisted s ps) ->
  (js_missed sub' = true -> js_closed sub' = true \/ exists t pc, ps_threads ps !! t = Some pc /\ s ∈ doomed_by pc) ->
  (js_missed sub' = false -> js_offered sub' = js_received sub' ++ js_ch sub') ->
  (length (js_ch sub') <= journalSubBuffer)%nat ->
  ps_inv (set_chan <[s := sub']> ps).
Proof.
  intros [P1 P2 P3 P4 P5 P6 P7 P8 P9 P10 P11] Hs Ha Hc Hm Hg Hb.
  split; simpl; try done; unfold unlisted, subs_of in *; simpl in *.
  - intros a x (y & Hy & Hya)%P3. destruct (decide (x = s)) as [->|Hne].
    + exists sub'. rewrite lookup_insert_eq. split; [done |]. congruence.
    + exists y. by rewrite lookup_insert_ne.
  - intros x y [[<- <-]|[_ ?]]%lookup_insert_Some; eauto.
  - intros t pc x Ht Hx. apply lookup_insert_is_Some'. right. eauto.
  - intros t pc x y Ht Hx [[<- <-]|[_ Hy]]%lookup_insert_Some; [| by eapply P6].
    pose proof (P6 t pc s sub Ht Hx Hs) as H. destruct pc; by rewrite ?Ha.
  - intros x y [[<- <-]|[_ Hy]]%lookup_insert_Some; eauto.
  - intros x y [[<- <-]|[_ Hy]]%lookup_insert_Some; eauto.
  - intros x y [[<- <-]|[_ Hy]]%lookup_insert_Some; eauto.
  - intros x y [[<- <-]|[_ Hy]]%lookup_insert_Some; eauto.
Qed.

Lemma unlisted_thread t pc s ps : s ∉ todo_by pc -> unlisted s ps -> unlisted s (set_thread t pc ps).
Proof. intros Hs [H1 H2]. split; [exact H1 |]. simpl. intros t' pc' [[<- <-]|[_ ?]]%lookup_insert_Some; eauto. Qed.

Lemma inv_thread t pc ps :
  ps_inv ps ->
  (forall s, s ∈ todo_by pc \/ s ∈ doomed_by pc -> exists sub, ps_chan ps !! s = Some sub /\ of_alloc pc sub) ->
  (forall s, unlisted s ps -> s ∉ todo_by pc) ->
  (forall s, s ∈ closing_by pc -> unlisted s ps) ->
  (forall old s sub, ps_threads ps !! t = Some old -> s ∈ doomed_by old -> ps_chan ps !! s = Some sub ->
     s ∈ doomed_by pc \/ js_closed sub = true) ->
  ps_inv (set_thread t pc ps).
Proof.
  intros [P1 P2 P3 P4 P5 P6 P7 P8 P9 P10 P11] Ha Hu Hc Hd. split; simpl; try done.
  - intros t' pc' s [[<- <-]|[_ Ht]]%lookup_insert_Some Hs; [| by eapply P5]. destruct (Ha s Hs) as (sub & -> & _). done.
  - intros t' pc' s sub [[<- <-]|[_ Ht]]%lookup_insert_Some Hs Hsub; [| by eapply P6].
    destruct (Ha s Hs) as (sub' & Hsub' & H). by simplify_eq.
  - intros t' pc' s [[<- <-]|[_ Ht]]%lookup_insert_Some Hs; apply unlisted_thread; eauto.
  - intros s sub Hs Hcl. apply unlisted_thread; eauto.
  - intros s sub Hs Hm. destruct (P9 s sub Hs Hm) as [?|(t' & pc' & Ht' & Hin)]; [by left |].
    destruct (decide (t' = t)) as [->|Hne].
    + destruct (Hd pc' s sub Ht' Hin Hs) as [?|?]; [| by left]. right. exists t, pc. by rewrite lookup_insert_eq.
    + right. exists t', pc'. by rewrite lookup_insert_ne.
Qed.

Lemma inv_end t pc ps : ps_inv ps -> ps_threads ps !! t = Some pc -> doomed_by pc = [] -> ps_inv (end_thread t ps).
Proof.
  intros [P1 P2 P3 P4 P5 P6 P7 P8 P9 P10 P11] Ht Hd.
  assert (forall s, unlisted s ps -> unlisted s (end_thread t ps)) as Hun
    by (intros s [H1 H2]; split; [exact H1 |]; simpl; intros t' pc' [_ ?]%lookup_delete_Some; eauto).
  split; simpl; try done.
  - intros t' pc' s [_ ?]%lookup_delete_Some. eauto.
  - intros t' pc' s sub [_ ?]%lookup_delete_Some. by apply (P6 t').
  - intros t' pc' s [_ ?]%lookup_delete_Some ?. eauto.
  - eauto.
  - intros s sub Hs Hm. destruct (P9 s sub Hs Hm) as [?|(t' & pc' & Ht' & Hin)]; [by left |]. right. exists t', pc'.
    rewrite lookup_delete_ne; [done |]. intros ->. simplify_eq. rewrite Hd in Hin. by apply not_elem_of_nil in Hin.
Qed.

(** Removals. *)
Lemma inv_subs subs ps :
  ps_inv ps ->
  (forall a, NoDup (default [] (subs !! a)) /\ forall s, s ∈ default [] (subs !! a) -> s ∈ subs_of a ps) ->
  ps_inv (mkPS subs (ps_chan ps) (ps_next ps) (ps_threads ps) (ps_panic ps)).
Proof.
  intros [P1 P2 P3 P4 P5 P6 P7 P8 P9 P10 P11] Hs.
  assert (forall s, unlisted s ps -> unlisted s (mkPS subs (ps_chan ps) (ps_next ps) (ps_threads ps) (ps_panic ps))) as Hun
    by (intros s [H1 H2]; split; [intros a Hin; by apply (H1 a), Hs | exact H2]).
  split; simpl; try done; unfold subs_of; simpl.
  - intros a. apply Hs.
  - intros a s Hin. by apply P3, Hs.
  - eauto.
  - eauto.
Qed.

(** ** Every step *)

Lemma subscribe_inv alloc ps : no_readers ps -> ps_inv ps -> ps_inv (SubscribeJournal alloc ps).2.
Proof.
  intros Hnr [P1 P2 P3 P4 P5 P6 P7 P8 P9 P10 P11]. simpl.
  assert (ps_chan ps !! ps_next ps = None) as Hfresh.
  { destruct (_ !! _) as [sub|] eqn:E; [| done]. apply P4 in E. lia. }
  assert (forall s, s <> ps_next ps -> unlisted s ps -> unlisted s (SubscribeJournal alloc ps).2) as Hun.
  { intros s Hne [H1 H2]. split; [| exact H2]. intros a. unfold SubscribeJournal. simpl. rewrite subs_insert.
    case_decide; [| apply H1]. rewrite elem_of_app, list_elem_of_singleton. subst. naive_solver. }
  assert (forall a s, s ∈ subs_of a ps -> s <> ps_next ps) as Hold
    by (intros a s (sub & Hs & _)%P3; intros ->; congruence).
  assert (forall s, is_Some (ps_chan ps !! s) -> s <> ps_next ps) as Hex by (intros s [? ?] ->; congruence).
  split; simpl; try done.
  - intros a. rewrite subs_insert. case_decide; [| done]. apply NoDup_app. split; [done |].
    split; [| apply NoDup_singleton]. intros x Hx%Hold. by rewrite list_elem_of_singleton.
  - intros a s. rewrite subs_insert. case_decide as E.
    + rewrite elem_of_app, list_elem_of_singleton. intros [Hs| ->].
      * pose proof (Hold _ _ Hs). apply P3 in Hs as (sub & Hs & Hsa). exists sub. rewrite lookup_insert_ne by done.
        split; [done | congruence].
      * exists (subscribe_sub alloc). by rewrite lookup_insert_eq.
    + intros Hs. pose proof (Hold _ _ Hs). apply P3 in Hs as (sub & Hs & Hsa). exists sub. by rewrite lookup_insert_ne.
  - intros s sub [[<- <-]|[_ Hs]]%lookup_insert_Some; [lia |]. apply P4 in Hs. lia.
  - intros t pc s Ht Hs. apply lookup_insert_is_Some'. right. eauto.
  - intros t pc s sub Ht Hs. pose proof (Hex s (P5 t pc s Ht Hs)). rewrite lookup_insert_ne by done. by apply (P6 t).
  - intros t pc s Ht Hs. apply Hun; [| by eapply P7]. apply Hex. apply (P5 t pc); [done | right]. destruct pc; [by apply not_elem_of_nil in Hs .. | done].
  - intros s sub [[<- <-]|[Hne Hs]]%lookup_insert_Some; [done |]. intros Hc. apply Hun; [done | by eapply P8].
  - intros s sub [[<- <-]|[Hne Hs]]%lookup_insert_Some; [done |]. eauto.
  - intros s sub [[<- <-]|[Hne Hs]]%lookup_insert_Some; [done |]. eauto.
  - intros s sub [[<- <-]|[Hne Hs]]%lookup_insert_Some; [simpl; lia |]. eauto.
Qed.

Lemma doomed_head (s : nat) gone x : x ∈ s :: gone -> x = s \/ x ∈ gone.
Proof. apply elem_of_cons. Qed.

(** What a thread of the invariant knows of its subscribers. *)
Lemma thread_sub t pc s ps :
  ps_inv ps -> ps_threads ps !! t = Some pc -> s ∈ todo_by pc \/ s ∈ doomed_by pc ->
  exists sub, ps_chan ps !! s = Some sub /\ of_alloc pc sub.
Proof.
  intros I Ht Hs. destruct (pv_thread _ I t pc s Ht Hs) as [sub Hsub]. exists sub. split; [done |]. by apply (pv_alloc _ I t pc s sub).
Qed.

Lemma todo_open t alloc e s todo dropped sub ps :
  ps_inv ps -> ps_threads ps !! t = Some (BSend alloc e (s :: todo) dropped) -> ps_chan ps !! s = Some sub ->
  js_closed sub = false.
Proof.
  intros I Ht Hsub. destruct (js_closed sub) eqn:Hc; [| done]. destruct (pv_closed _ I s sub Hsub Hc) as [_ Hu].
  destruct (Hu t _ Ht). by left.
Qed.

Lemma send_inv t alloc e s todo dropped sub ps :
  ps_inv ps -> ps_threads ps !! t = Some (BSend alloc e (s :: todo) dropped) -> ps_chan ps !! s = Some sub ->
  ps_inv (set_thread t (BSend alloc e todo (if full sub then dropped ++ [s] else dropped)) (set_chan <[s := offer e sub]> ps)).
Proof.
  intros I Ht Hsub. pose proof (todo_open _ _ _ _ _ _ _ _ I Ht Hsub) as Hopen. set (next := BSend alloc e todo _).
  assert (ps_inv (set_thread t next ps)) as I1.
  { apply inv_thread; [done | | | by intros x ?%not_elem_of_nil |]; simpl.
    - intros x Hx. apply (thread_sub t (BSend alloc e (s :: todo) dropped) x ps I Ht). simpl.
      rewrite elem_of_cons. destruct (full sub); [rewrite elem_of_app, list_elem_of_singleton in Hx |]; naive_solver.
    - intros x [_ Hu] Hx. apply (Hu t _ Ht). by right.
    - intros old x y Ho Hx _. left. simplify_eq. simpl in Hx. destruct (full sub); [apply elem_of_app; by left | done]. }
  change (set_thread t next (set_chan <[s := offer e sub]> ps)) with (set_chan <[s := offer e sub]> (set_thread t next ps)).
  apply (inv_chan s sub); [done | done | by unfold offer; case_match | | | | ].
  - unfold offer. case_match; simpl; by rewrite Hopen.
  - unfold offer. destruct (length (js_ch sub) <? journalSubBuffer)%nat eqn:Hl; simpl; intros Hm.
    + destruct (pv_missed _ I1 s sub Hsub Hm) as [?|?]; auto.
    + right. exists t, next. rewrite lookup_insert_eq. split; [done |]. subst next. unfold full. rewrite Hl. simpl.
      apply elem_of_app. right. by apply list_elem_of_singleton.
  - unfold offer. case_match; simpl; [| done]. intros Hm. rewrite (pv_got _ I s sub Hsub Hm). by rewrite app_assoc.
  - unfold offer. destruct (length (js_ch sub) <? journalSubBuffer)%nat eqn:Hl; simpl; [| by apply (pv_buffer _ I s)].
    rewrite length_app. apply Nat.ltb_lt in Hl. simpl. lia.
Qed.

Lemma lock_inv t alloc gone ps :
  ps_inv ps -> no_readers ps -> ps_threads ps !! t = Some (BLock alloc gone) ->
  ps_inv (set_thread t (BClose gone) (mkPS (foldl (fun m s => removeSubLocked alloc s m) (ps_subs ps) gone) (ps_chan ps)
    (ps_next ps) (ps_threads ps) (ps_panic ps))).
Proof.
  intros I Hnr Ht.
  assert (forall a x, x ∈ default [] (foldl (fun m s => removeSubLocked alloc s m) (ps_subs ps) gone !! a) <->
    x ∈ subs_of a ps /\ (a = alloc -> x ∉ gone)) as Hrem by (intros a x; apply removed_all, I).
  apply inv_thread; simpl.
  - apply inv_subs; [done |]. intros a. split; [apply (removed_all alloc gone ps a 0%nat), I |].
    intros x Hx. by apply Hrem in Hx as [? _].
  - intros x [?%not_elem_of_nil|Hx]; [done |]. destruct (thread_sub t _ x ps I Ht) as (y & Hy & _); [by right |]. by exists y.
  - intros x _. apply not_elem_of_nil.
  - intros x Hx. split.
    + intros a Ha. unfold subs_of in Ha. simpl in Ha. apply Hrem in Ha as [Ha Hn]. apply Hn; [| done].
      destruct (pv_listed _ I a x Ha) as (sub & Hsub & <-).
      destruct (thread_sub t _ x ps I Ht) as (y & Hy & Hal); [by right |]. simpl in Hal. congruence.
    + simpl. intros t' pc' Ht'. pose proof (Hnr t' pc' Ht') as Hs. destruct pc'; [done | apply not_elem_of_nil ..].
  - intros old x y Ho Hx _. simplify_eq. by left.
Qed.

Lemma close_inv t s gone ps :
  ps_inv ps -> ps_threads ps !! t = Some (BClose (s :: gone)) ->
  ps_inv (set_thread t (BClose gone) (set_chan (alter closeChannel s) ps)).
Proof.
  intros I Ht. pose proof (pv_closing _ I t _ s Ht ltac:(by left)) as Hu.
  destruct (pv_thread _ I t _ s Ht) as [sub Hsub]; [right; by left |].
  assert (ps_inv (set_chan (alter closeChannel s) ps)) as I1.
  { unfold set_chan. rewrite (alter_alt_Some _ _ _ _ Hsub). change (mkPS _ _ _ _ _) with (set_chan <[s := closeChannel sub]> ps).
    apply (inv_chan s sub); simpl; eauto; [intros; by apply (pv_got _ I s) | by apply (pv_buffer _ I s)]. }
  apply inv_thread; [done | | by intros; apply not_elem_of_nil | |]; simpl.
  - intros x [?%not_elem_of_nil|Hx]; [done |].
    destruct (pv_thread _ I1 t _ x Ht) as [y Hy]; [right; by right |]. by exists y.
  - intros x Hx. apply (pv_closing _ I1 t _ x Ht). by right.
  - intros old x y Ho Hx Hy. simplify_eq. apply doomed_head in Hx as [-> |Hx]; [right | by left].
    rewrite lookup_alter_eq, Hsub in Hy. by injection Hy as <-.
Qed.

Lemma thread_inv t ps ps' : thread_step t ps = Some ps' -> ps_inv ps -> ps_inv ps'.
Proof.
  intros E I. unfold thread_step in E.
  destruct (ps_threads ps !! t) as [[alloc e [|s todo] dropped|alloc gone|[|s gone]]|] eqn:Ht; [| | | | | done].
  - destruct dropped as [|d dropped]; injection E as <-; [by eapply inv_end |].
    apply inv_thread; [done | | by intros; apply not_elem_of_nil | by intros s ?%not_elem_of_nil |].
    + intros s [?%not_elem_of_nil|Hs]; [done |]. apply (thread_sub t _ s ps I Ht). by right.
    + intros old s sub Ho Hs _. left. by simplify_eq.
  - destruct (ps_chan ps !! s) as [sub|] eqn:Hsub; [| done]. rewrite (todo_open _ _ _ _ _ _ _ _ I Ht Hsub) in E.
    injection E as <-. by apply send_inv.
  - destruct (decide (no_readers ps)) as [Hnr|]; [| done]. injection E as <-. by apply lock_inv.
  - injection E as <-. by eapply inv_end.
  - injection E as <-. by apply close_inv.
Qed.

Lemma pstep_inv ps ps' : pstep ps ps' -> ps_inv ps -> ps_inv ps'.
Proof.
  intros S I. destruct S as [alloc ps Hnr|t alloc e ps Ht|t s sub ps Ht Hs|t ps ps' E|s sub e rest ps Hs Hc].
  - by apply subscribe_inv.
  - apply inv_thread; [done | | | by intros x ?%not_elem_of_nil | congruence]; simpl.
    + intros x [Hx|?%not_elem_of_nil]; [| done]. by apply (pv_listed _ I).
    + intros x [Hu _]. apply Hu.
  - apply inv_thread; [done | | by intros; apply not_elem_of_nil | by intros x ?%not_elem_of_nil | congruence]; simpl.
    intros x [?%not_elem_of_nil|Hx]; [done |]. apply list_elem_of_singleton in Hx as ->. by exists sub.
  - by eapply thread_inv.
  - apply (inv_chan s sub); simpl; try done.
    + by apply (pv_closed _ I).
    + by apply (pv_missed _ I).
    + intros Hm. rewrite (pv_got _ I s sub Hs Hm), Hc. by rewrite <- app_assoc.
    + pose proof (pv_buffer _ I s sub Hs) as Hb. rewrite Hc in Hb. simpl in Hb. lia.
Qed.

Lemma psteps_inv ps ps' : rtc pstep ps ps' -> ps_inv ps -> ps_inv ps'.
Proof. induction 1; eauto using pstep_inv. Qed.

Lemma ps_init : ps_inv newJournalPubSub.
Proof.
  split; simpl; try done; unfold subs_of; simpl.
  - intros a. rewrite lookup_empty. constructor.
  - intros a s. rewrite lookup_empty. by intros ?%not_elem_of_nil.
Qed.

(** ** Threads finish *)

Definition weight (pc : bpc) : nat :=
  match pc with
  | BSend _ _ todo dropped => 3 + 2 * length todo + length dropped
  | BLock _ gone => 2 + length gone
  | BClose gone => 1 + length gone
  end.

Definition work (th : gmap Z bpc) : nat := map_fold (fun _ pc acc => weight pc + acc)%nat 0%nat th.

Lemma work_delete th t pc : th !! t = Some pc -> work th = (weight pc + work (delete t th))%nat.
Proof. intros Ht. unfold work. rewrite (map_fold_delete_L _ _ t pc th); [done | intros; lia | done]. Qed.

Lemma work_insert th t pc : work (<[t := pc]> th) = (weight pc + work (delete t th))%nat.
Proof. rewrite (work_delete _ t pc) by apply lookup_insert_eq. by rewrite delete_insert_eq. Qed.

Lemma thread_progress t ps pc :
  ps_inv ps -> ps_threads ps !! t = Some pc -> is_send pc = true \/ no_readers ps ->
  exists ps', thread_step t ps = Some ps' /\ (work (ps_threads ps') < work (ps_threads ps))%nat.
Proof.
  intros I Ht Hp. unfold thread_step. rewrite Ht. rewrite (work_delete _ _ _ Ht).
  destruct pc as [alloc e [|s todo] dropped|alloc gone|[|s gone]].
  - destruct dropped as [|d dropped]; eexists; (split; [done |]); simpl; rewrite ?work_insert; simpl; lia.
  - destruct (pv_thread _ I t _ s Ht) as [sub Hsub]; [left; by left |]. rewrite Hsub.
    eexists. split; [done |]. rewrite (todo_open _ _ _ _ _ _ _ _ I Ht Hsub). simpl. rewrite work_insert. simpl.
    destruct (full sub); rewrite ?length_app; simpl; lia.
  - destruct Hp as [?|Hp]; [done |]. rewrite decide_True by done. eexists. split; [done |]. simpl. rewrite work_insert. simpl. lia.
  - eexists. split; [done |]. simpl. lia.
  - eexists. split; [done |]. simpl. rewrite work_insert. simpl. lia.
Qed.

Lemma some_progress ps :
  ps_inv ps -> ps_threads ps <> ∅ ->
  exists t ps', thread_step t ps = Some ps' /\ (work (ps_threads ps') < work (ps_threads ps))%nat.
Proof.
  intros I Hne. destruct (decide (no_readers ps)) as [Hnr|Hr].
  - apply map_choose in Hne as (t & pc & Ht). exists t. eapply thread_progress; eauto.
  - apply map_not_Forall in Hr as (t & pc & Ht & Hs); [| apply _]. exists t. eapply thread_progress; eauto.
    left. by apply not_false_iff_true.
Qed.

Lemma threads_finish ps : ps_inv ps -> exists ps', rtc pstep ps ps' /\ ps_threads ps' = ∅.
Proof.
  remember (work (ps_threads ps)) as n eqn:E. revert ps E. induction (lt_wf n) as [n _ IH]. intros ps -> I.
  destruct (decide (ps_threads ps = ∅)) as [|Hne]; [by exists ps |].
  destruct (some_progress ps I Hne) as (t & ps1 & Hs & Hw).
  destruct (IH _ Hw ps1 eq_refl) as (ps' & S & He); [by eapply thread_inv |].
  exists ps'. split; [| done]. eapply rtc_l; [by eapply p_thread | done].
Qed.

(** C34: Live journal entries are never lost silently.  In every interleaving of
    subscriptions, broadcasts, unsubscriptions and receives: no broadcast sends on a
    closed channel; a subscriber that has missed nothing has received, or has in its
    buffer of at most 64, exactly the entries that were offered to it, in that order;
    the broadcasts and removals under way can always run to their end, whatever the
    consumers do; and when they have, every subscriber that missed an entry has been
    closed, so that its consumer reconnects. *)
Theorem pubsub_no_silent_loss ps :
  rtc pstep newJournalPubSub ps ->
  ps_panic ps = false /\
  (forall s sub, ps_chan ps !! s = Some sub -> (length (js_ch sub) <= journalSubBuffer)%nat /\
     (js_missed sub = false -> js_offered sub = js_received sub ++ js_ch sub)) /\
  (exists ps', rtc pstep ps ps' /\ ps_threads ps' = ∅) /\
  (ps_threads ps = ∅ -> forall s sub, ps_chan ps !! s = Some sub -> js_missed sub = true -> js_closed sub = true).
Proof.
  intros S. assert (ps_inv ps) as I by (by eapply psteps_inv, ps_init).
  split; [apply I |]. split; [intros s sub Hs; split; [by eapply pv_buffer | by eapply pv_got] |].
  split; [by apply threads_finish |]. intros He s sub Hs Hm.
  destruct (pv_missed _ I s sub Hs Hm) as [?|(t & pc & Ht & _)]; [done |]. by rewrite He, lookup_empty in Ht.
Qed.

(** ** Concrete runs *)

#[local] Existing Instance flat_msgpack.

(** The entry of the third row of [two_sessions]. *)
Definition third : SessionJournalEntry := mkEntry (str "t") (str "al") (str "ag") 1 (str "/f") SessionOpUpdate
  (Some 1) (Some 2) None [] 12.

Definition run_thread (ps : journalPubSub) : journalPubSub :=
  match thread_step 1 ps with Some ps' => ps' | None => ps end.

(** A subscriber of allocation [al] and a broadcast of the entry to it. *)
Definition subscribed : journalPubSub := (SubscribeJournal (str "al") newJournalPubSub).2.
Definition delivered : journalPubSub :=
  run_thread (set_thread 1 (BSend (str "al") third (subs_of (str "al") subscribed) []) subscribed).

Lemma delivered_steps : rtc pstep newJournalPubSub delivered.
Proof.
  eapply rtc_l; [apply (p_subscribe (str "al")); apply (bool_decide_unpack _); vm_compute; exact I |].
  eapply rtc_l; [apply (p_broadcast 1 (str "al") third); reflexivity |].
  eapply rtc_l; [apply (p_thread 1); reflexivity |]. apply rtc_refl.
Qed.

Lemma pubsub_no_silent_loss_witness :
  ps_panic delivered = false /\ exists sub, ps_chan delivered !! 0%nat = Some sub /\ js_received sub ++ js_ch sub = [third].
Proof.
  destruct (pubsub_no_silent_loss delivered delivered_steps) as (Hp & Hg & _). split; [exact Hp |].
  exists (mkSub (str "al") [third] false [third] [] false). split; [vm_compute; reflexivity |].
  destruct (Hg 0%nat (mkSub (str "al") [third] false [third] [] false)) as [_ He].
  - vm_compute. reflexivity.
  - rewrite <- (He eq_refl). reflexivity.
Defined.

(** The stream compares sequence numbers across sessions: an entry of a second
    session arrives live and is not sent, because its number is below that of the
    first session's last row. *)
Example stream_drops_second_session :
  let before := set_session_journal (take 2 (session_journal two_sessions)) two_sessions in
  tenantJournalStream (str "al") 0 before [third] = tenantJournalStream (str "al") 0 before [] /\
  (jq_Seq <$> default [] (tenantJournalStream (str "al") 0 before [third])) = [1; 2].
Proof. vm_compute. split; reflexivity. Qed.

(** The stream subscribes after its catch-up query: an entry that is committed and
    broadcast in between has no subscriber yet and is in neither. *)
Example stream_misses_entry_between :
  let before := set_session_journal [] two_sessions in
  let after := set_session_journal [jr (str "t") 1 12 3] two_sessions in
  let ps1 := run_thread (set_thread 1 (BSend (str "al") third (subs_of (str "al") newJournalPubSub) []) newJournalPubSub) in
  let '(s, ps2) := SubscribeJournal (str "al") ps1 in
  (js_ch <$> ps_chan ps2 !! s) = Some [] /\
  tenantJournalStream (str "al") 0 before [] = Some [] /\
  length (default [] (tenantJournalStream (str "al") 0 after [])) = 1%nat.
Proof. vm_compute. repeat split; reflexivity. Qed.
