(* ===== verification/Certs.v ===== *)
(** * Certificates and identities

    orlop-control/internal/ca/ca.go: the org root, one intermediate per tenant, the
    leaves.  orlop-server: identity.go (who a client certificate is),
    cert_tenant_binding.go, the door of the data plane (serveFrames in
    dataplane_server.go), the middlewares of server.go and the audit endpoint of
    handlers.go.

    A certificate is the record of the fields the code reads, with the number of its
    public key and of the key that signed it: [CreateCertificate] and the chain that a
    handshake verifies are those of crypto/x509 on these fields.  Names and URIs carry
    their text, which is what the code compares.  Fresh keys and serial numbers, the
    clock and failures of the secret store are arguments. *)

From S2P Require Import Prelude GoPath Codec Enroll.

(** ** X.509 *)

Record URL := mkURL { u_Scheme : gostr; u_Host : gostr; u_Path : gostr; u_String : gostr }.

Record Name := mkName { n_CommonName : gostr; n_Organization : list gostr; n_OU : list gostr; n_String : gostr }.

#[export] Instance Name_eq_dec : EqDecision Name.
Proof. solve_decision. Defined.

Inductive ExtKeyUsage := ExtKeyUsageServerAuth | ExtKeyUsageClientAuth.

#[export] Instance ExtKeyUsage_eq_dec : EqDecision ExtKeyUsage.
Proof. solve_decision. Defined.

(** The basic constraints are those of every certificate here ([IsCA] is said).  In a
    template [c_MaxPathLen] is a limit if it is not 0 or [c_MaxPathLenZero] holds; in a
    certificate -1 is no limit. *)
Record Certificate := mkCert {
  c_Subject : Name; c_Issuer : Name; c_SerialNumber : list Z; c_NotBefore : Z; c_NotAfter : Z;
  c_IsCA : bool; c_MaxPathLen : Z; c_MaxPathLenZero : bool; c_KeyUsage : Z; c_ExtKeyUsage : list ExtKeyUsage;
  c_URIs : list URL; c_DNSNames : list gostr; c_EmailAddresses : list gostr;
  c_PermittedURIDomains : list gostr; c_pub : Z; c_signedBy : Z }.

Definition KeyUsageDigitalSignature : Z := 1.
Definition KeyUsageKeyEncipherment : Z := 4.
Definition KeyUsageCertSign : Z := 32.
Definition KeyUsageCRLSign : Z := 64.

#[export] Instance URL_eq_dec : EqDecision URL.
Proof. solve_decision. Defined.

#[export] Instance Certificate_eq_dec : EqDecision Certificate.
Proof. solve_decision. Defined.

(** A value in the text of a name: special characters are escaped, a space at either
    end and a [#] at the start too. *)
Definition rdn_special (c : ascii) : bool :=
  bool_decide (c ∈ [","%char; "+"%char; "034"%char; "\"%char; "<"%char; ">"%char; ";"%char]).

Fixpoint rdn_escape (first : bool) (v : gostr) : gostr :=
  match v with
  | [] => []
  | c :: v' =>
      let esc := rdn_special c || bool_decide (c = "#"%char) && first
                 || bool_decide (c = " "%char) && (first || bool_decide (v' = [])) in
      (if esc then "\"%char :: [c] else [c]) ++ rdn_escape false v'
  end.

Fixpoint join_with (sep : gostr) (l : list gostr) : gostr :=
  match l with [] => [] | [x] => x | x :: l' => x ++ sep ++ join_with sep l' end.

Definition rdn (key : gostr) (vs : list gostr) : list gostr :=
  if decide (vs = []) then [] else [join_with (str "+") ((fun v => key ++ rdn_escape true v) <$> vs)].

(** [Name.String]: common name, units, organizations. *)
Definition pkixName (cn : gostr) (o ou : list gostr) : Name :=
  mkName cn o ou (join_with (str ",")
    (rdn (str "CN=") (if decide (cn = []) then [] else [cn]) ++ rdn (str "OU=") ou ++ rdn (str "O=") o)).

(** The text of a path in a URL: other characters are percent-encoded. *)
Definition path_plain (c : ascii) : bool :=
  let n := byteval c in
  (48 <=? n) && (n <=? 57) || (65 <=? n) && (n <=? 90) || (97 <=? n) && (n <=? 122) ||
  bool_decide (c ∈ ["-"%char; "_"%char; "."%char; "~"%char; "$"%char; "&"%char; "+"%char; ","%char; "/"%char; ":"%char;
                    ";"%char; "="%char; "@"%char]).

Definition path_escape (p : gostr) : gostr :=
  concat ((fun c => if path_plain c then [c] else "%"%char :: ToUpper (hex_encode [byteval c])) <$> p).

Definition spiffeURL (trustDomain path : gostr) : URL :=
  mkURL (str "spiffe") trustDomain path (str "spiffe://" ++ trustDomain ++ path_escape path).

(** What the parser reads back of a template that was signed with the key [priv] in
    the name [issuer]. *)
Definition signed (tmpl : Certificate) (issuer : Name) (pub priv : Z) : Certificate :=
  let maxPathLen := if (c_MaxPathLen tmpl =? 0) && negb (c_MaxPathLenZero tmpl) then -1 else c_MaxPathLen tmpl in
  mkCert (c_Subject tmpl) issuer (c_SerialNumber tmpl) (c_NotBefore tmpl) (c_NotAfter tmpl)
    (c_IsCA tmpl) maxPathLen (maxPathLen =? 0) (c_KeyUsage tmpl) (c_ExtKeyUsage tmpl) (c_URIs tmpl) (c_DNSNames tmpl)
    (c_EmailAddresses tmpl) (c_PermittedURIDomains tmpl) pub priv.

(** [x509.CreateCertificate] signs with a key that must be the parent's. *)
Definition CreateCertificate (tmpl parent : Certificate) (pub priv : Z) : option Certificate :=
  if decide (c_pub parent = priv) then Some (signed tmpl (c_Subject parent) pub priv) else None.

Definition valid_at (now : Z) (c : Certificate) : bool := (c_NotBefore c <=? now) && (now <=? c_NotAfter c).

(** A host matches a permitted domain if it is the domain or below it, letters in
    either case. *)
Definition inDomain (host domain : gostr) : bool :=
  let h := lower <$> host in
  let d := lower <$> domain in
  bool_decide (h = d) || bool_decide ((lower "."%char :: d) `suffix_of` h).

(** The name constraints of [parent] on the certificates below it. *)
Definition permits_uris (parent : Certificate) (below : list Certificate) : bool :=
  bool_decide (c_PermittedURIDomains parent = []) ||
  forallb (fun u => existsb (inDomain (u_Host u)) (c_PermittedURIDomains parent)) (below ≫= c_URIs).

(** [parent] stands above the certificates [below], of which [child] is the last: it
    issued [child], it is an authority that may sign, it is valid, it permits the names
    and it allows as many authorities below it. *)
Definition issued_by (now : Z) (below : list Certificate) (child parent : Certificate) : bool :=
  bool_decide (c_Issuer child = c_Subject parent) && (c_signedBy child =? c_pub parent) &&
  c_IsCA parent && ((c_KeyUsage parent =? 0) || negb (Z.land (c_KeyUsage parent) KeyUsageCertSign =? 0)) &&
  valid_at now parent && permits_uris parent below &&
  ((c_MaxPathLen parent <? 0) || (Z.of_nat (length below) - 1 <=? c_MaxPathLen parent)).

Fixpoint chain_above (now : Z) (below : list Certificate) (child : Certificate) (above : list Certificate) : bool :=
  match above with
  | [] => true
  | parent :: above' =>
      issued_by now below child parent && chain_above now (below ++ [parent]) parent above'
  end.

Definition forClients (c : Certificate) : bool :=
  bool_decide (c_ExtKeyUsage c = []) || bool_decide (ExtKeyUsageClientAuth ∈ c_ExtKeyUsage c).

(** What the handshake verifies, for chains of any length: from the leaf up to the root
    that the server trusts, every certificate issued by the next, all for clients. *)
Definition verified_chain (now : Z) (root : Certificate) (chain : list Certificate) : bool :=
  match chain with
  | [] => false
  | leaf :: above =>
      valid_at now leaf && chain_above now [leaf] leaf above && bool_decide (last chain = Some root) &&
      forallb forClients chain
  end.

(** ** Identities of the server *)

Definition trimSlashes (p : gostr) : gostr := trim_right_slash (trim_left_slash p).

(** [tenantIDFromSPIFFE] and [agentIDFromSPIFFE] by their first segment. *)
Definition idFromSPIFFE (kind : gostr) (uri : URL) (trustDomain : gostr) : option gostr :=
  if negb (bool_decide (u_Host uri = trustDomain)) then None
  else match split_slash (trimSlashes (u_Path uri)) with
       | [k; id] => if bool_decide (k = kind) && bool_decide (id <> []) then Some id else None
       | _ => None
       end.

Definition tenantIDFromSPIFFE := idFromSPIFFE (str "tenant").
Definition agentIDFromSPIFFE := idFromSPIFFE (str "agent").

Definition controlPlaneSPIFFE (trustDomain : gostr) : gostr := str "spiffe://" ++ trustDomain ++ str "/control".

Definition isControlPlaneCert (cert : Certificate) (trustDomain : gostr) : bool :=
  existsb (fun u => bool_decide (u_String u = controlPlaneSPIFFE trustDomain)) (c_URIs cert).

(** Not a URI of the trust domain. *)
Definition otherDomain (trustDomain : gostr) (u : URL) : bool :=
  negb (bool_decide (u_Scheme u = str "spiffe")) || negb (bool_decide (u_Host u = trustDomain)).

Definition certTenantID (cert : Certificate) (trustDomain : gostr) : option gostr :=
  (fix go uris :=
     match uris with
     | [] => None
     | u :: uris' =>
         if otherDomain trustDomain u then go uris'
         else if bool_decide (u_String u = controlPlaneSPIFFE trustDomain) then None
         else tenantIDFromSPIFFE u trustDomain
     end) (c_URIs cert).

Definition certScopedAgentID (cert : Certificate) (trustDomain : gostr) : gostr :=
  (fix go uris :=
     match uris with
     | [] => []
     | u :: uris' =>
         if otherDomain trustDomain u then go uris'
         else if bool_decide (u_String u = controlPlaneSPIFFE trustDomain) then go uris'
         else if bool_decide (is_Some (tenantIDFromSPIFFE u trustDomain)) then go uris'
         else match agentIDFromSPIFFE u trustDomain with Some a => a | None => go uris' end
     end) (c_URIs cert).

(** A parsed certificate has a serial number, whose text is not empty; here it is the
    hexadecimal one. *)
Definition certAgentID (cert : Certificate) : gostr :=
  if decide (n_CommonName (c_Subject cert) <> []) then n_CommonName (c_Subject cert)
  else match c_URIs cert with
       | u :: _ => u_String u
       | [] =>
           match c_EmailAddresses cert with
           | m :: _ => m
           | [] => match c_DNSNames cert with d :: _ => d | [] => hex_encode (c_SerialNumber cert) end
           end
       end.

Record peerIdentity := mkPeer {
  pi_AgentID : gostr; pi_TenantID : gostr; pi_CertSerial : list Z; pi_CertSubject : gostr; pi_ScopedAgentID : gostr }.

Definition identityFromCert (cert : Certificate) (tenantID : gostr) : peerIdentity :=
  mkPeer (certAgentID cert) tenantID (c_SerialNumber cert) (n_String (c_Subject cert)) [].

(** [identifyV2Peer]; [has] is whether the tenant is registered. *)
Definition identifyV2Peer (trustDomain : gostr) (has : gostr -> bool) (cert : Certificate) : option peerIdentity :=
  if decide (certAgentID cert = []) then None
  else match certTenantID cert trustDomain with
       | None => None
       | Some tenantID =>
           if negb (has tenantID) then None
           else
             let scoped := certScopedAgentID cert trustDomain in
             if decide (scoped = []) then None
             else Some (mkPeer (certAgentID cert) tenantID (c_SerialNumber cert) (n_String (c_Subject cert)) scoped)
       end.

Definition signingIntermediate (chains : list (list Certificate)) : option Certificate :=
  match chains with
  | (leaf :: c :: rest) :: _ => List.find (fun x => bool_decide (n_String (c_Subject x) = n_String (c_Issuer leaf))) (c :: rest)
  | _ => None
  end.

Definition ouPrefix : gostr := str "tenant=".

Fixpoint tenantFromOU (ou : list gostr) : gostr :=
  match ou with
  | [] => []
  | v :: ou' => if HasPrefix v ouPrefix then TrimPrefix v ouPrefix else tenantFromOU ou'
  end.

Definition checkTenantBinding (leafTenant : gostr) (chains : list (list Certificate)) : bool :=
  match signingIntermediate chains with
  | None => false
  | Some signer =>
      let signerTenant := tenantFromOU (n_OU (c_Subject signer)) in
      if decide (signerTenant = []) then false else bool_decide (signerTenant = leafTenant)
  end.

(** The door of the data plane: [serveFrames] up to its first frame, below the
    session cap. *)
Definition admitPeer (trustDomain : gostr) (has : gostr -> bool) (deny : denylist) (now : Z)
    (chains : list (list Certificate)) : option peerIdentity :=
  match chains with
  | (cert :: _) :: _ =>
      match identifyV2Peer trustDomain has cert with
      | None => None
      | Some ident =>
          if IsRevoked now (ToUpper (hex_encode (c_SerialNumber cert))) deny then None
          else if checkTenantBinding (pi_TenantID ident) chains then Some ident else None
      end
  | _ => None
  end.

(** ** HTTP of the server *)

Definition controlPlaneTenantID : gostr := str "$control".

(** The gate of the control endpoints, and of the others. *)
Definition controlPlaneOnlyMiddleware (trustDomain : gostr) (cert : Certificate) : option peerIdentity :=
  if isControlPlaneCert cert trustDomain then Some (identityFromCert cert controlPlaneTenantID) else None.

Definition Identify (trustDomain : gostr) (cert : Certificate) : option peerIdentity :=
  if decide (certAgentID cert = []) then None
  else identityFromCert cert <$> certTenantID cert trustDomain.

Definition authMiddleware (trustDomain : gostr) (has : gostr -> bool) (cert : Certificate) : option peerIdentity :=
  match Identify trustDomain cert with
  | Some ident => if has (pi_TenantID ident) then Some ident else None
  | None => None
  end.

(** The attribution of an audit record, absent for what is not a string. *)
Record auditEvent := mkAudit { ae_tenant_id : gostr; ae_agent_id : gostr; ae_event : gostr }.

Definition filterAuditForCaller (events : list auditEvent) (tenantID agentID : gostr) : list auditEvent :=
  filter (fun e => ae_tenant_id e = tenantID /\ (agentID <> [] -> ae_agent_id e = agentID)) events.

(** [getAudit] behind [authMiddleware], with a limit that parsed. *)
Definition getAudit (trustDomain : gostr) (cert : Certificate) (ident : peerIdentity) (limit : option Z)
    (events : list auditEvent) : list auditEvent :=
  let limit := match limit with None => 100 | Some n => if 1000 <? n then 1000 else n end in
  let events :=
    if isControlPlaneCert cert trustDomain then events
    else
      let scoped := if decide (pi_ScopedAgentID ident = []) then certScopedAgentID cert trustDomain
                    else pi_ScopedAgentID ident in
      filterAuditForCaller events (pi_TenantID ident) scoped in
  drop (length events - Z.to_nat limit) events.

(** A record of the data plane for a caller. *)
Definition auditOf (ident : peerIdentity) (event : gostr) : auditEvent :=
  mkAudit (pi_TenantID ident) (pi_AgentID ident) event.
