(* ===== verification/Ca.v ===== *)
(** * The certificate authority

    orlop-control/internal/ca/ca.go: the org root, the intermediates of tenants and
    the leaves.  The secret store maps the keys of the code to certificates and
    private keys, a private key being its number.  A mutation under [WithLock] is
    undone when it fails if the store is transactional (Postgres) and not if it is the
    file system or memory.  [ca_issued] is no state of the authority: it lists what
    its keys have signed. *)

From S2P Require Import Prelude GoPath Codec Enroll Certs.

Inductive secret := SCert (c : Certificate) | SKey (k : Z).

Definition rootCertKey : gostr := str "ca/root/cert.pem".
Definition rootKeyKey : gostr := str "ca/root/key.pem".
Definition tenantPrefix : gostr := str "ca/tenant/".
Definition tenantCertKey (id : gostr) : gostr := tenantPrefix ++ id ++ str "/cert.pem".
Definition tenantKeyKey (id : gostr) : gostr := tenantPrefix ++ id ++ str "/key.pem".

(** Times are in nanoseconds. *)
Definition minute : Z := 60 * 10 ^ 9.
Definition ClockSkew : Z := 5 * minute.
Definition DefaultRootValidity : Z := 10 * 365 * 24 * 60 * minute.
Definition DefaultIntermediateValidity : Z := 365 * 24 * 60 * minute.

Record tenantCA := mkTCA { tc_cert : Certificate; tc_key : Z }.

Record CA := mkCA {
  ca_TrustDomain : gostr; ca_OrgName : gostr; ca_AllowBootstrap : gostr -> bool;
  ca_rootCert : Certificate; ca_rootKey : option Z; ca_tenants : gmap gostr tenantCA; ca_issued : list Certificate }.

Inductive caerr := CaStore | CaRequired | CaNotAllowedErr | CaNoRootKey | CaUnknownTenant | CaSign | CaIncomplete | CaMissing | CaParse.

(** What the randomness and the clock give to one signature. *)
Record fresh_ := mkFresh { fr_key : Z; fr_serial : list Z; fr_now : Z }.

Definition template (subject : Name) (fr : fresh_) (ttl : Z) (isCA : bool) (maxPathLen : Z) (maxPathLenZero : bool)
    (keyUsage : Z) (extKeyUsage : list ExtKeyUsage) (uris : list URL) (dns permitted : list gostr) : Certificate :=
  mkCert subject subject (fr_serial fr) (fr_now fr - ClockSkew) (fr_now fr + ttl) isCA maxPathLen maxPathLenZero keyUsage
    extKeyUsage uris dns [] permitted 0 0.

(** [signLeafCert] makes no authority of its template. *)
Definition leafTemplate (subject : Name) (fr : fresh_) (ttl keyUsage : Z) (extKeyUsage : list ExtKeyUsage) (uris : list URL)
    (dns : list gostr) : Certificate :=
  template subject fr ttl false 0 false keyUsage extKeyUsage uris dns [].

Definition caKeyUsage : Z := Z.lor KeyUsageCertSign KeyUsageCRLSign.
Definition serverKeyUsage : Z := Z.lor KeyUsageDigitalSignature KeyUsageKeyEncipherment.

Definition rootName (org : gostr) : Name := pkixName (org ++ str " Root CA") [org] [].

(** Self-signed: the template is its own parent. *)
Definition generateRoot (org : gostr) (fr : fresh_) : Certificate :=
  let t := template (rootName org) fr DefaultRootValidity true 1 false caKeyUsage [] [] [] [] in
  signed t (c_Subject t) (fr_key fr) (fr_key fr).

Definition tenantOU (tenantID : gostr) : list gostr := [ouPrefix ++ tenantID].

Definition intermediateName (org tenantID : gostr) : Name :=
  pkixName (org ++ str " Tenant " ++ tenantID ++ str " Intermediate") [org] (tenantOU tenantID).

Definition generateIntermediate (c : CA) (rootKey : Z) (tenantID : gostr) (fr : fresh_) : option Certificate :=
  CreateCertificate (template (intermediateName (ca_OrgName c) tenantID) fr DefaultIntermediateValidity true 0 true caKeyUsage
                       [] [] [] [ca_TrustDomain c]) (ca_rootCert c) (fr_key fr) rootKey.

(** ** Loading *)

Definition readTenant (id : gostr) (st : gmap gostr secret) : result caerr tenantCA :=
  match st !! tenantCertKey id, st !! tenantKeyKey id with
  | None, _ | _, None => Err CaMissing
  | Some (SCert c), Some (SKey k) => Ok (mkTCA c k)
  | _, _ => Err CaParse
  end.

(** [rest[:strings.IndexByte(rest, '/')]], for an index above 0. *)
Fixpoint before_slash (s : gostr) : option gostr :=
  match s with
  | [] => None
  | c :: s' => if decide (c = slash) then Some [] else (fun r => c :: r) <$> before_slash s'
  end.

Definition tenantOfKey (k : gostr) : option gostr :=
  if HasPrefix k tenantPrefix then
    match before_slash (TrimPrefix k tenantPrefix) with Some ((_ :: _) as id) => Some id | _ => None end
  else None.

Fixpoint loadTenants (st : gmap gostr secret) (keys : list gostr) (acc : gmap gostr tenantCA)
    : result caerr (gmap gostr tenantCA) :=
  match keys with
  | [] => Ok acc
  | k :: keys' =>
      match tenantOfKey k with
      | None => loadTenants st keys' acc
      | Some id =>
          match readTenant id st with
          | Err e => Err e
          | Ok t => loadTenants st keys' (<[id := t]> acc)
          end
      end
  end.

(** The two writes of a pair under the lock: a failure of the second leaves the
    first, unless the store is transactional. *)
Definition put_pair (atomic put1 put2 : bool) (kc kk : gostr) (c : Certificate) (k : Z) (st : gmap gostr secret)
    : bool * gmap gostr secret :=
  if negb put1 then (false, st)
  else if negb put2 then (false, if atomic then st else <[kc := SCert c]> st)
  else (true, <[kk := SKey k]> (<[kc := SCert c]> st)).

Definition LoadOrInit (trustDomain orgName : gostr) (allow : gostr -> bool) (fr : fresh_) (atomic put1 put2 : bool)
    (issued : list Certificate) (st : gmap gostr secret) : result caerr CA * gmap gostr secret :=
  if decide (trustDomain = []) then (Err CaRequired, st)
  else
    let org := if decide (orgName = []) then str "ORL" else orgName in
    let load root key iss st :=
      match loadTenants st (map_to_list st).*1 ∅ with
      | Err e => (Err e, st)
      | Ok ts => (Ok (mkCA trustDomain org allow root key ts iss), st)
      end in
    match st !! rootCertKey with
    | Some (SKey _) => (Err CaParse, st)
    | Some (SCert root) =>
        match st !! rootKeyKey with
        | None => load root None issued st
        | Some (SKey k) => load root (Some k) issued st
        | Some (SCert _) => (Err CaParse, st)
        end
    | None =>
        let root := generateRoot org fr in
        match put_pair atomic put1 put2 rootCertKey rootKeyKey root (fr_key fr) st with
        | (false, st') => (Err CaStore, st')
        | (true, st') => load root (Some (fr_key fr)) (issued ++ [root]) st'
        end
    end.

Definition set_tenants_ca (ts : gmap gostr tenantCA) (iss : list Certificate) (c : CA) : CA :=
  mkCA (ca_TrustDomain c) (ca_OrgName c) (ca_AllowBootstrap c) (ca_rootCert c) (ca_rootKey c) ts iss.

Definition BootstrapTenant (fr : fresh_) (atomic put1 put2 : bool) (tenantID : gostr) (c : CA) (st : gmap gostr secret)
    : result caerr unit * CA * gmap gostr secret :=
  if decide (tenantID = []) then (Err CaRequired, c, st)
  else
    match ca_tenants c !! tenantID with
    | Some _ => (Ok tt, c, st)
    | None =>
        let hasCert := bool_decide (is_Some (st !! tenantCertKey tenantID)) in
        let hasKey := bool_decide (is_Some (st !! tenantKeyKey tenantID)) in
        if negb (Bool.eqb hasCert hasKey) then (Err CaIncomplete, c, st)
        else if hasCert then
          match readTenant tenantID st with
          | Err e => (Err e, c, st)
          | Ok t => (Ok tt, set_tenants_ca (<[tenantID := t]> (ca_tenants c)) (ca_issued c) c, st)
          end
        else if negb (ca_AllowBootstrap c tenantID) then (Err CaNotAllowedErr, c, st)
        else
          match ca_rootKey c with
          | None => (Err CaNoRootKey, c, st)
          | Some rk =>
              match generateIntermediate c rk tenantID fr with
              | None => (Err CaSign, c, st)
              | Some cert =>
                  match put_pair atomic put1 put2 (tenantCertKey tenantID) (tenantKeyKey tenantID) cert (fr_key fr) st with
                  | (false, st') => (Err CaStore, set_tenants_ca (ca_tenants c) (ca_issued c ++ [cert]) c, st')
                  | (true, st') =>
                      (Ok tt, set_tenants_ca (<[tenantID := mkTCA cert (fr_key fr)]> (ca_tenants c)) (ca_issued c ++ [cert]) c, st')
                  end
              end
          end
    end.

(** ** Leaves *)

(** [signLeaf] and [signLeafCert]: the public key is fresh, or that of a request. *)
Definition signLeafCert (parent : Certificate) (parentKey : Z) (tmpl : Certificate) (pub : Z) (c : CA)
    : result caerr Certificate * CA :=
  match CreateCertificate tmpl parent pub parentKey with
  | None => (Err CaSign, c)
  | Some leaf => (Ok leaf, set_tenants_ca (ca_tenants c) (ca_issued c ++ [leaf]) c)
  end.

Definition MintAgentCert (fr : fresh_) (tenantID userID agentID : gostr) (ttl : Z) (c : CA)
    : result caerr (Certificate * list Certificate) * CA :=
  if decide (tenantID = []) then (Err CaRequired, c)
  else if ttl <=? 0 then (Err CaRequired, c)
  else
    match ca_tenants c !! tenantID with
    | None => (Err CaUnknownTenant, c)
    | Some t =>
        let uris := spiffeURL (ca_TrustDomain c) (str "/tenant/" ++ tenantID)
                    :: (if decide (agentID = []) then [] else [spiffeURL (ca_TrustDomain c) (str "/agent/" ++ agentID)]) in
        let tmpl := leafTemplate (pkixName userID [ca_OrgName c] (tenantOU tenantID)) fr ttl KeyUsageDigitalSignature
                      [ExtKeyUsageClientAuth] uris [] in
        match signLeafCert (tc_cert t) (tc_key t) tmpl (fr_key fr) c with
        | (Err e, c') => (Err e, c')
        | (Ok leaf, c') => (Ok (leaf, [tc_cert t; ca_rootCert c]), c')
        end
    end.

Definition MintServerCert (fr : fresh_) (tenantID fqdn : gostr) (ttl : Z) (c : CA)
    : result caerr (Certificate * list Certificate) * CA :=
  if decide (tenantID = []) then (Err CaRequired, c)
  else if decide (fqdn = []) then (Err CaRequired, c)
  else if ttl <=? 0 then (Err CaRequired, c)
  else
    match ca_tenants c !! tenantID with
    | None => (Err CaUnknownTenant, c)
    | Some t =>
        let tmpl := leafTemplate (pkixName fqdn [ca_OrgName c] (tenantOU tenantID)) fr ttl serverKeyUsage
                      [ExtKeyUsageServerAuth] [] [fqdn] in
        match signLeafCert (tc_cert t) (tc_key t) tmpl (fr_key fr) c with
        | (Err e, c') => (Err e, c')
        | (Ok leaf, c') => (Ok (leaf, [tc_cert t; ca_rootCert c]), c')
        end
    end.

Definition MintControlPlaneCert (fr : fresh_) (ttl : Z) (c : CA) : result caerr Certificate * CA :=
  if ttl <=? 0 then (Err CaRequired, c)
  else
    match ca_rootKey c with
    | None => (Err CaNoRootKey, c)
    | Some rk =>
        signLeafCert (ca_rootCert c) rk
          (leafTemplate (pkixName (str "orlop-control") [] []) fr ttl KeyUsageDigitalSignature [ExtKeyUsageClientAuth]
             [spiffeURL (ca_TrustDomain c) (str "/control")] []) (fr_key fr) c
    end.

(** [csr] is the public key of a request that parsed and whose signature holds. *)
Definition SignServerCSR (fr : fresh_) (csr : option Z) (fqdn : gostr) (ttl : Z) (c : CA) : result caerr Certificate * CA :=
  if decide (fqdn = []) then (Err CaRequired, c)
  else if ttl <=? 0 then (Err CaRequired, c)
  else
    match csr, ca_rootKey c with
    | None, _ => (Err CaParse, c)
    | _, None => (Err CaNoRootKey, c)
    | Some pub, Some rk =>
        signLeafCert (ca_rootCert c) rk
          (leafTemplate (pkixName fqdn [ca_OrgName c] []) fr ttl serverKeyUsage [ExtKeyUsageServerAuth] [] [fqdn]) pub c
    end.

(** ** The authority among its callers *)

Inductive castep : CA * gmap gostr secret -> CA * gmap gostr secret -> Prop :=
| ca_load fr at_ p1 p2 c st c' st' :
    LoadOrInit (ca_TrustDomain c) (ca_OrgName c) (ca_AllowBootstrap c) fr at_ p1 p2 (ca_issued c) st = (Ok c', st') ->
    castep (c, st) (c', st')
| ca_bootstrap fr at_ p1 p2 t r c st c' st' :
    BootstrapTenant fr at_ p1 p2 t c st = (r, c', st') -> castep (c, st) (c', st')
| ca_agent fr t u a ttl r c c' st : MintAgentCert fr t u a ttl c = (r, c') -> castep (c, st) (c', st)
| ca_server fr t d ttl r c c' st : MintServerCert fr t d ttl c = (r, c') -> castep (c, st) (c', st)
| ca_control fr ttl r c c' st : MintControlPlaneCert fr ttl c = (r, c') -> castep (c, st) (c', st)
| ca_csr fr csr d ttl r c c' st : SignServerCSR fr csr d ttl c = (r, c') -> castep (c, st) (c', st).
