(* ===== verification/CaProps.v ===== *)
(** * Certificates admit their tenant and no other

    What the authority issues for an agent is admitted by the data plane as that agent
    of that tenant; and whoever is admitted holds a leaf signed with the key of the
    tenant he is admitted to, even if keys of other tenants have leaked. *)

From S2P Require Import Prelude GoPath Codec Enroll Certs Ca.

(** ** Keys of the store *)

Lemma certKey_inj t t' : tenantCertKey t = tenantCertKey t' -> t = t'.
Proof. unfold tenantCertKey. intros E%app_inv_head. by apply app_inv_tail in E. Qed.
Lemma keyKey_inj t t' : tenantKeyKey t = tenantKeyKey t' -> t = t'.
Proof. unfold tenantKeyKey. intros E%app_inv_head. by apply app_inv_tail in E. Qed.

Lemma certKey_keyKey t t' : tenantCertKey t <> tenantKeyKey t'.
Proof.
  unfold tenantCertKey, tenantKeyKey. intros E%app_inv_head.
  change (str "/cert.pem") with ([slash] ++ str "cert.pem") in E. rewrite app_assoc in E.
  apply app_inj_2 in E as [_ E]; [| reflexivity]. discriminate.
Qed.

Lemma tenantKey_root t : tenantCertKey t <> rootCertKey /\ tenantCertKey t <> rootKeyKey /\
  tenantKeyKey t <> rootCertKey /\ tenantKeyKey t <> rootKeyKey.
Proof. unfold tenantCertKey, tenantKeyKey, tenantPrefix, rootCertKey, rootKeyKey. repeat split; simpl; congruence. Qed.

(** ** The invariant *)

Record inter_ok (td org : gostr) (root : Certificate) (t : gostr) (x : Certificate) : Prop := {
  io_subject : c_Subject x = intermediateName org t; io_issuer : c_Issuer x = c_Subject root;
  io_ca : c_IsCA x = true; io_path : c_MaxPathLen x = 0; io_usage : c_KeyUsage x = caKeyUsage; io_eku : c_ExtKeyUsage x = [];
  io_permitted : c_PermittedURIDomains x = [td]; io_signed : c_signedBy x = c_pub root }.

Definition ok_for (c : CA) : gostr -> Certificate -> Prop := inter_ok (ca_TrustDomain c) (ca_OrgName c) (ca_rootCert c).

Record root_ok (org : gostr) (root : Certificate) : Prop := {
  ro_subject : c_Subject root = rootName org; ro_ca : c_IsCA root = true; ro_path : c_MaxPathLen root = 1;
  ro_usage : c_KeyUsage root = caKeyUsage; ro_eku : c_ExtKeyUsage root = []; ro_permitted : c_PermittedURIDomains root = [] }.

(** The secrets of the tenants. *)
Record store_ok (td org : gostr) (root : Certificate) (st : gmap gostr secret) : Prop := {
  so_root : st !! rootCertKey = Some (SCert root);
  so_rootKey s : st !! rootKeyKey = Some s -> s = SKey (c_pub root);
  so_cert t s : st !! tenantCertKey t = Some s -> exists x, s = SCert x /\ inter_ok td org root t x;
  so_key t s x : st !! tenantKeyKey t = Some s -> st !! tenantCertKey t = Some (SCert x) -> s = SKey (c_pub x) }.

Record ca_inv (c : CA) (st : gmap gostr secret) : Prop := {
  ci_td : ca_TrustDomain c <> []; ci_org : ca_OrgName c <> [];
  ci_root : root_ok (ca_OrgName c) (ca_rootCert c);
  ci_key k : ca_rootKey c = Some k -> k = c_pub (ca_rootCert c);
  ci_tenants t x : ca_tenants c !! t = Some x -> ok_for c t (tc_cert x) /\ c_pub (tc_cert x) = tc_key x;
  ci_store : store_ok (ca_TrustDomain c) (ca_OrgName c) (ca_rootCert c) st;
  ci_issued x : x ∈ ca_issued c -> c_IsCA x = true -> x = ca_rootCert c \/ exists t, ok_for c t x }.

Lemma read_ok td org root st t x :
  store_ok td org root st -> readTenant t st = Ok x -> inter_ok td org root t (tc_cert x) /\ c_pub (tc_cert x) = tc_key x.
Proof.
  intros [_ _ S1 S2]. unfold readTenant. destruct (st !! tenantCertKey t) as [s|] eqn:Ec; [| done].
  destruct (S1 t s Ec) as (y & -> & Hy). destruct (st !! tenantKeyKey t) as [s'|] eqn:Ek; [| done].
  rewrite (S2 t s' y Ek Ec). intros [= <-]. done.
Qed.

Lemma loadTenants_ok td org root st keys acc ts :
  store_ok td org root st ->
  (forall t x, acc !! t = Some x -> inter_ok td org root t (tc_cert x) /\ c_pub (tc_cert x) = tc_key x) ->
  loadTenants st keys acc = Ok ts ->
  forall t x, ts !! t = Some x -> inter_ok td org root t (tc_cert x) /\ c_pub (tc_cert x) = tc_key x.
Proof.
  intros S. revert acc. induction keys as [|k keys IH]; intros acc Ha; simpl; [by intros [= <-] |].
  destruct (tenantOfKey k) as [id|]; [| by apply IH]. destruct (readTenant id st) as [y|] eqn:E; [| done].
  apply IH. intros t x [[<- <-]|[_ ?]]%lookup_insert_Some; [by eapply read_ok | by apply Ha].
Qed.

Lemma generateIntermediate_ok c rk t fr x :
  generateIntermediate c rk t fr = Some x -> rk = c_pub (ca_rootCert c) -> ok_for c t x /\ c_pub x = fr_key fr.
Proof. unfold generateIntermediate, CreateCertificate. case_decide; [| done]. by intros [= <-] ->. Qed.

(** A pair that is written, whole or half, for a tenant that had nothing. *)
Lemma put_pair_ok td org root st at_ p1 p2 t x k b st' :
  store_ok td org root st -> st !! tenantCertKey t = None -> st !! tenantKeyKey t = None ->
  inter_ok td org root t x -> c_pub x = k ->
  put_pair at_ p1 p2 (tenantCertKey t) (tenantKeyKey t) x k st = (b, st') -> store_ok td org root st'.
Proof.
  intros S Nc Nk Hx Hk. unfold put_pair. destruct (tenantKey_root t) as (R1 & R2 & R3 & R4).
  assert (forall st1, st1 = <[tenantCertKey t := SCert x]> st \/
    st1 = <[tenantKeyKey t := SKey k]> (<[tenantCertKey t := SCert x]> st) -> store_ok td org root st1) as Hput.
  { intros st1 H1.
    assert (forall t', st1 !! tenantCertKey t' = if decide (t' = t) then Some (SCert x) else st !! tenantCertKey t') as Hc.
    { intros t'. destruct H1 as [-> | ->]; rewrite ?(lookup_insert_ne _ (tenantKeyKey t)) by (by apply not_eq_sym, certKey_keyKey);
        (case_decide as E; [subst; by rewrite lookup_insert_eq |]); rewrite lookup_insert_ne; [done | | done |];
        by intros ?%certKey_inj. }
    assert (forall t' s, st1 !! tenantKeyKey t' = Some s -> t' = t /\ s = SKey k \/ t' <> t /\ st !! tenantKeyKey t' = Some s) as Hkk.
    { intros t' s. destruct H1 as [-> | ->]; intros Hs.
      - rewrite lookup_insert_ne in Hs by (apply certKey_keyKey). right. split; [congruence | done].
      - apply lookup_insert_Some in Hs as [[E%keyKey_inj <-]|[Hne Hs]]; [by left |].
        rewrite lookup_insert_ne in Hs by (apply certKey_keyKey). right. split; [congruence | done]. }
    split.
    - destruct H1 as [-> | ->]; rewrite !lookup_insert_ne by done; apply S.
    - destruct H1 as [-> | ->]; rewrite !lookup_insert_ne by done; apply S.
    - intros t' s. rewrite Hc. case_decide; [intros [= <-]; subst; eauto | apply S].
    - intros t' s y [[-> ->]|[Hne Hs]]%Hkk; rewrite Hc.
      + rewrite decide_True by done. intros [= <-]. congruence.
      + rewrite decide_False by done. by apply (so_key _ _ _ _ S). }
  destruct p1; simpl; [| by intros [= <- <-]]. destruct p2; simpl; intros [= <- <-]; [apply Hput; by right |].
  destruct at_; [done | apply Hput; by left].
Qed.

(** ** Every operation *)

Lemma init_ca td org allow fr at_ p1 p2 c st :
  LoadOrInit td org allow fr at_ p1 p2 [] ∅ = (Ok c, st) -> ca_inv c st /\ ca_rootCert c ∈ ca_issued c.
Proof.
  unfold LoadOrInit. case_decide as Htd; [done |]. rewrite lookup_empty. set (org' := if decide (org = []) then _ else _).
  assert (org' <> []) as Horg by (subst org'; by case_decide). unfold put_pair.
  destruct p1, p2; simpl; [| by destruct at_ | done | done].
  set (st0 := <[rootKeyKey := _]> _). set (root := generateRoot org' fr).
  assert (store_ok td org' root st0) as S.
  { subst st0. split.
    - by rewrite lookup_insert_ne, lookup_insert_eq.
    - intros s. rewrite lookup_insert_eq. by intros [= <-].
    - intros t s. destruct (tenantKey_root t) as (R1 & R2 & _ & _). by rewrite !lookup_insert_ne.
    - intros t s x. destruct (tenantKey_root t) as (_ & _ & R3 & R4). by rewrite !lookup_insert_ne. }
  destruct (loadTenants st0 _ ∅) as [ts|] eqn:E; [| done]. intros [= <- <-].
  split; [| simpl; by left]. split; simpl; [done .. | by split | by intros k [= <-] | | done |].
  - eapply loadTenants_ok; [exact S | | exact E]. intros t x. by rewrite lookup_empty.
  - intros x ->%list_elem_of_singleton _. by left.
Qed.

(** A leaf is no authority. *)
Lemma signLeaf_inv parent pk tmpl pub c st r c' :
  ca_inv c st -> c_IsCA tmpl = false -> signLeafCert parent pk tmpl pub c = (r, c') ->
  ca_inv c' st /\ ca_rootCert c' = ca_rootCert c /\ (forall x, x ∈ ca_issued c -> x ∈ ca_issued c').
Proof.
  intros I Ht. unfold signLeafCert. destruct (CreateCertificate tmpl parent pub pk) as [leaf|] eqn:E; intros [= <- <-]; [| done].
  split; [| split; [done | simpl; set_solver]]. destruct I. split; simpl; try done.
  intros x [Hx| ->%list_elem_of_singleton]%elem_of_app Hca; [by apply ci_issued0 |].
  unfold CreateCertificate in E. case_decide; [| done]. injection E as <-. simpl in Hca. congruence.
Qed.

Lemma bootstrap_inv fr at_ p1 p2 t c st r c' st' :
  ca_inv c st -> BootstrapTenant fr at_ p1 p2 t c st = (r, c', st') ->
  ca_inv c' st' /\ ca_rootCert c' = ca_rootCert c /\ (forall x, x ∈ ca_issued c -> x ∈ ca_issued c').
Proof.
  intros I. unfold BootstrapTenant. case_decide; [by intros [= <- <- <-] |].
  destruct (ca_tenants c !! t) as [x|]; [by intros [= <- <- <-] |].
  destruct (st !! tenantCertKey t) as [s|] eqn:Ec; destruct (st !! tenantKeyKey t) as [s'|] eqn:Ek; simpl.
  - destruct (readTenant t st) as [y|] eqn:E; intros [= <- <- <-]; [| done]. split; [| done].
    destruct I. split; simpl; try done. intros t' x [[<- <-]|[_ ?]]%lookup_insert_Some; [by eapply read_ok | by apply ci_tenants0].
  - by intros [= <- <- <-].
  - by intros [= <- <- <-].
  - destruct (ca_AllowBootstrap c t); simpl; [| by intros [= <- <- <-]].
    destruct (ca_rootKey c) as [rk|] eqn:Erk; [| by intros [= <- <- <-]].
    destruct (generateIntermediate c rk t fr) as [x|] eqn:Eg; [| by intros [= <- <- <-]].
    apply generateIntermediate_ok in Eg as [Hx Hk]; [| by apply (ci_key _ _ I)].
    destruct (put_pair _ _ _ _ _ _ _ _) as [b st1] eqn:Ep.
    pose proof (put_pair_ok _ _ _ _ _ _ _ _ _ _ _ _ (ci_store _ _ I) Ec Ek Hx Hk Ep) as S1.
    assert (forall y, y ∈ ca_issued c ++ [x] -> c_IsCA y = true -> y = ca_rootCert c \/ exists t, ok_for c t y) as Hiss.
    { intros y [Hy| ->%list_elem_of_singleton]%elem_of_app Hca; [by apply (ci_issued _ _ I) | eauto]. }
    destruct I. destruct b; intros [= <- <- <-]; (split; [| split; [done | simpl; set_solver]]); split; simpl; try done.
    intros t' y [[<- <-]|[_ ?]]%lookup_insert_Some; [by split | by apply ci_tenants0].
Qed.

Lemma load_inv fr at_ p1 p2 c st c' st' :
  ca_inv c st ->
  LoadOrInit (ca_TrustDomain c) (ca_OrgName c) (ca_AllowBootstrap c) fr at_ p1 p2 (ca_issued c) st = (Ok c', st') ->
  ca_inv c' st' /\ ca_rootCert c' = ca_rootCert c /\ (forall x, x ∈ ca_issued c -> x ∈ ca_issued c').
Proof.
  intros I. unfold LoadOrInit. rewrite decide_False by apply I. rewrite decide_False by apply I.
  rewrite (so_root _ _ _ _ (ci_store _ _ I)). pose proof (so_rootKey _ _ _ _ (ci_store _ _ I)) as Hk.
  assert (forall key, (forall k, key = Some k -> k = c_pub (ca_rootCert c)) ->
    match loadTenants st (map_to_list st).*1 ∅ with
    | Err e => (Err e, st)
    | Ok ts => (Ok (mkCA (ca_TrustDomain c) (ca_OrgName c) (ca_AllowBootstrap c) (ca_rootCert c) key ts (ca_issued c)), st)
    end = (Ok c', st') ->
    ca_inv c' st' /\ ca_rootCert c' = ca_rootCert c /\ (forall x, x ∈ ca_issued c -> x ∈ ca_issued c')) as Hload.
  { intros key Hkey. destruct (loadTenants _ _ _) as [ts|] eqn:E; [| done]. intros [= <- <-].
    split; [| done]. pose proof (ci_store _ _ I) as S. destruct I. split; simpl; try done.
    eapply loadTenants_ok; [exact S | | exact E]. intros t x. by rewrite lookup_empty. }
  destruct (st !! rootKeyKey) as [s|]; [rewrite (Hk s eq_refl) |]; apply Hload; naive_solver.
Qed.

Lemma castep_inv s s' :
  castep s s' -> ca_inv s.1 s.2 -> ca_inv s'.1 s'.2 /\ ca_rootCert s'.1 = ca_rootCert s.1 /\
    (forall x, x ∈ ca_issued s.1 -> x ∈ ca_issued s'.1).
Proof.
  intros S I. destruct S as [fr at_ p1 p2 c st c' st' E|fr at_ p1 p2 t r c st c' st' E|fr t u a ttl r c c' st E
    |fr t d ttl r c c' st E|fr ttl r c c' st E|fr csr d ttl r c c' st E]; simpl in *.
  - by eapply load_inv.
  - by eapply bootstrap_inv.
  - unfold MintAgentCert in E. case_decide; [by simplify_eq |]. destruct (ttl <=? 0); [by simplify_eq |].
    destruct (ca_tenants c !! t); [| by simplify_eq]. destruct (signLeafCert _ _ _ _ _) as [[|] ?] eqn:El; simplify_eq;
      (eapply signLeaf_inv; [exact I | | exact El]; done).
  - unfold MintServerCert in E. do 2 (case_decide; [by simplify_eq |]). destruct (ttl <=? 0); [by simplify_eq |].
    destruct (ca_tenants c !! t); [| by simplify_eq]. destruct (signLeafCert _ _ _ _ _) as [[|] ?] eqn:El; simplify_eq;
      (eapply signLeaf_inv; [exact I | | exact El]; done).
  - unfold MintControlPlaneCert in E. destruct (ttl <=? 0); [by simplify_eq |]. destruct (ca_rootKey c); [| by simplify_eq].
    eapply signLeaf_inv; [exact I | | exact E]; done.
  - unfold SignServerCSR in E. case_decide; [by simplify_eq |]. destruct (ttl <=? 0); [by simplify_eq |].
    destruct csr, (ca_rootKey c); try (by simplify_eq).
    eapply signLeaf_inv; [exact I | | exact E]; done.
Qed.

Lemma casteps_inv s s' : rtc castep s s' -> ca_inv s.1 s.2 -> ca_rootCert s.1 ∈ ca_issued s.1 ->
  ca_inv s'.1 s'.2 /\ ca_rootCert s'.1 ∈ ca_issued s'.1.
Proof.
  induction 1 as [|s s1 s' S _ IH]; [done |]. intros I Hr. destruct (castep_inv _ _ S I) as (I1 & E & Hm).
  apply IH; [done |]. rewrite E. auto.
Qed.

(** ** Names *)

Lemma trimSlashes_two k id : slash ∉ k -> k <> [] -> slash ∉ id -> id <> [] ->
  trimSlashes (slash :: k ++ slash :: id) = k ++ slash :: id.
Proof.
  intros Hk Hk0 Hi Hi0. unfold trimSlashes. simpl.
  assert (trim_left_slash (k ++ slash :: id) = k ++ slash :: id) as ->.
  { destruct k as [|c k]; [done |]. simpl. rewrite decide_False; [done |]. intros ->. apply Hk. by left. }
  destruct (exists_last Hi0) as (i & c & ->). change (slash :: i ++ [c]) with ((slash :: i) ++ [c]). rewrite app_assoc.
  apply trim_right_slash_id. intros ->. apply Hi, elem_of_app. right. by left.
Qed.

Lemma idFromSPIFFE_two kind k td id : slash ∉ k -> k <> [] -> slash ∉ id -> id <> [] ->
  idFromSPIFFE kind (spiffeURL td (slash :: k ++ slash :: id)) td = if decide (k = kind) then Some id else None.
Proof.
  intros Hk Hk0 Hi Hi0. unfold idFromSPIFFE. simpl. rewrite bool_decide_true by done. simpl.
  rewrite trimSlashes_two by done. rewrite split_slash_app, split_slash_plain by done.
  case_decide; [rewrite !bool_decide_true by done | rewrite bool_decide_false by done]; done.
Qed.

Lemma not_control td id :
  u_String (spiffeURL td (str "/tenant/" ++ id)) <> controlPlaneSPIFFE td /\
  u_String (spiffeURL td (str "/agent/" ++ id)) <> controlPlaneSPIFFE td.
Proof.
  assert (path_escape (str "/tenant/" ++ id) = str "/tenant/" ++ path_escape id) as E1 by reflexivity.
  assert (path_escape (str "/agent/" ++ id) = str "/agent/" ++ path_escape id) as E2 by reflexivity.
  unfold spiffeURL, controlPlaneSPIFFE, u_String. rewrite E1, E2. split; intros E; do 2 apply app_inv_head in E; discriminate.
Qed.

(** The identity in a certificate of the authority. *)
Lemma leaf_identity td t a x :
  slash ∉ t -> t <> [] -> slash ∉ a -> a <> [] ->
  c_URIs x = [spiffeURL td (str "/tenant/" ++ t); spiffeURL td (str "/agent/" ++ a)] ->
  certTenantID x td = Some t /\ certScopedAgentID x td = a.
Proof.
  intros Ht Ht0 Ha Ha0 Hu. destruct (not_control td t) as [N1 _], (not_control td a) as [_ N2].
  assert (forall p, otherDomain td (spiffeURL td p) = false) as Hf.
  { intros p. unfold otherDomain. simpl. by rewrite !bool_decide_true. }
  assert (slash ∉ str "tenant" /\ slash ∉ str "agent") as [Kt Ka] by (split; apply (bool_decide_unpack _); vm_compute; exact I).
  assert (tenantIDFromSPIFFE (spiffeURL td (str "/tenant/" ++ t)) td = Some t) as E1.
  { etrans; [by apply (idFromSPIFFE_two (str "tenant") (str "tenant") td t) |]. by rewrite decide_True. }
  assert (tenantIDFromSPIFFE (spiffeURL td (str "/agent/" ++ a)) td = None) as E2.
  { etrans; [by apply (idFromSPIFFE_two (str "tenant") (str "agent") td a) |]. by rewrite decide_False. }
  assert (agentIDFromSPIFFE (spiffeURL td (str "/agent/" ++ a)) td = Some a) as E3.
  { etrans; [by apply (idFromSPIFFE_two (str "agent") (str "agent") td a) |]. by rewrite decide_True. }
  unfold certTenantID, certScopedAgentID. rewrite Hu, !Hf. rewrite (bool_decide_false _ N1), (bool_decide_false _ N2).
  rewrite E1, E2, E3. rewrite bool_decide_true by done. rewrite bool_decide_false by (by intros []). done.
Qed.

Lemma tenantFromOU_prefix t : tenantFromOU (tenantOU t) = t.
Proof. unfold tenantFromOU, tenantOU, HasPrefix. rewrite bool_decide_true by (by apply prefix_app_r). apply TrimPrefix_app. Qed.

(** ** The theorems *)

(** An issued agent certificate is admitted as its agent.  In every state that
    loads, bootstraps and mints lead to, what [MintAgentCert] returns for a tenant, a
    user and an agent is a chain that a handshake with the org root verifies while it
    is valid, and the data plane admits it, if the tenant is registered there and the
    serial not revoked, as exactly that user, tenant and agent. *)
Theorem agent_cert_admitted td org allow fr0 at_ p1 p2 c0 st0 c st fr t u a ttl leaf chain c' has deny now :
  LoadOrInit td org allow fr0 at_ p1 p2 [] ∅ = (Ok c0, st0) -> rtc castep (c0, st0) (c, st) ->
  MintAgentCert fr t u a ttl c = (Ok (leaf, chain), c') ->
  slash ∉ t -> slash ∉ a -> a <> [] -> u <> [] ->
  Forall (fun x => valid_at now x = true) (leaf :: chain) ->
  has t = true -> IsRevoked now (ToUpper (hex_encode (fr_serial fr))) deny = false ->
  verified_chain now (ca_rootCert c) (leaf :: chain) = true /\
  exists subject, admitPeer (ca_TrustDomain c) has deny now [leaf :: chain] = Some (mkPeer u t (fr_serial fr) subject a).
Proof.
  intros H0 S Hm Ht Ha Ha0 Hu Hv Hhas Hrev.
  destruct (init_ca _ _ _ _ _ _ _ _ _ H0) as [I0 Hr0].
  destruct (casteps_inv _ _ S I0 Hr0) as [I _]. simpl in I.
  unfold MintAgentCert in Hm. case_decide as Ht0; [done |]. destruct (ttl <=? 0); [done |].
  destruct (ca_tenants c !! t) as [x|] eqn:Et; [| done]. destruct (ci_tenants _ _ I t x Et) as [[O1 O2 O3 O6 O7 O8 O4 O5] Hk].
  rewrite decide_False in Hm by done. unfold signLeafCert, CreateCertificate in Hm.
  rewrite decide_True in Hm by done. injection Hm as <- <- _.
  destruct (ci_root _ _ I) as [R1 R2 R4 R5 R6 R3].
  apply Forall_cons in Hv as [V1 Hv]. apply Forall_cons in Hv as [V2 Hv]. apply Forall_cons in Hv as [V3 _].
  split.
  - assert (inDomain (ca_TrustDomain c) (ca_TrustDomain c) = true) as Hd
      by (unfold inDomain; by rewrite bool_decide_true).
    unfold verified_chain. rewrite V1. cbn [chain_above app forallb].
    unfold issued_by, permits_uris, forClients. rewrite V2, V3, O2, O3, O4, O5, O6, O7, O8, R2, R3, R4, R5, R6. simpl.
    rewrite Hd, Hk, !Z.eqb_refl. simpl. by rewrite !(bool_decide_true (_ = _)) by done.
  - eexists. unfold admitPeer, identifyV2Peer. set (leaf := signed _ _ _ _).
    destruct (leaf_identity (ca_TrustDomain c) t a leaf) as [E1 E2]; [done .. |].
    assert (certAgentID leaf = u) as -> by (unfold certAgentID; simpl; by case_decide).
    assert (checkTenantBinding t [[leaf; tc_cert x; ca_rootCert c]] = true) as Hb.
    { unfold checkTenantBinding, signingIntermediate. simpl. rewrite bool_decide_true by done.
      rewrite O1. change (n_OU (intermediateName (ca_OrgName c) t)) with (tenantOU t). rewrite tenantFromOU_prefix.
      case_decide; [done |]. by apply bool_decide_true. }
    case_decide; [done |]. rewrite E1, E2, Hhas. simpl negb. cbn iota. case_decide; [done |].
    change (c_SerialNumber leaf) with (fr_serial fr). rewrite Hrev. simpl (pi_TenantID _). by rewrite Hb.
Qed.

(** An authority stands above no more certificates than its path length allows. *)
Lemma chain_path_length now below child above k x :
  chain_above now below child above = true -> above !! k = Some x -> 0 <= c_MaxPathLen x ->
  Z.of_nat (length below + k) - 1 <= c_MaxPathLen x.
Proof.
  revert below child k. induction above as [|p above IH]; intros below child k; [done |]. cbn [chain_above].
  rewrite andb_true_iff. intros [Hi Ha] Hk Hx. destruct k as [|k].
  - injection Hk as ->. unfold issued_by in Hi. rewrite !andb_true_iff, orb_true_iff in Hi. lia.
  - pose proof (IH _ _ _ Ha Hk Hx) as H. rewrite length_app in H. simpl in H. lia.
Qed.

Lemma verified_path_length now root chain k x :
  verified_chain now root chain = true -> chain !! k = Some x -> k <> 0%nat -> 0 <= c_MaxPathLen x ->
  Z.of_nat k - 1 <= c_MaxPathLen x.
Proof.
  destruct chain as [|leaf above]; [done |]. unfold verified_chain. rewrite !andb_true_iff.
  intros [[[_ Hc] _] _] Hk Hk0 Hx. destruct k as [|k]; [done |]. by apply (chain_path_length now [leaf] leaf above k x Hc Hk) in Hx.
Qed.

(** The root's limit of one leaves three shapes of a chain, of which the tenant binding
    admits only the one with an intermediate. *)
Lemma bound_chain now root chain t :
  c_MaxPathLen root = 1 -> tenantFromOU (n_OU (c_Subject root)) = [] ->
  verified_chain now root chain = true -> checkTenantBinding t [chain] = true ->
  exists leaf inter, chain = [leaf; inter; root] /\ c_signedBy leaf = c_pub inter /\ c_signedBy inter = c_pub root /\
    c_IsCA inter = true /\ tenantFromOU (n_OU (c_Subject inter)) = t /\ t <> [].
Proof.
  intros Hp Hou Hv Hb. destruct chain as [|leaf [|inter above]]; [done .. |].
  pose proof Hv as Hv'. unfold verified_chain in Hv'. rewrite !andb_true_iff in Hv'.
  destruct Hv' as [[[_ Hc] Hl] _]. apply bool_decide_eq_true in Hl. cbn [chain_above] in Hc.
  apply andb_true_iff in Hc as [Hi Hc]. unfold issued_by in Hi. rewrite !andb_true_iff in Hi.
  destruct Hi as [[[[[[Hn Hsig] Hca] _] _] _] _]. apply bool_decide_eq_true in Hn. apply Z.eqb_eq in Hsig.
  unfold checkTenantBinding, signingIntermediate in Hb. simpl in Hb. rewrite bool_decide_true in Hb by congruence.
  case_decide as Hne; [done |]. apply bool_decide_eq_true in Hb.
  destruct above as [|top above]; [simpl in Hl; congruence |].
  assert (above = []) as ->.
  { rewrite last_lookup in Hl. pose proof (verified_path_length now root _ _ _ Hv Hl) as Hk. simpl in Hk.
    destruct above; [done |]. simpl in Hk. lia. }
  injection Hl as ->. simpl in Hc. rewrite andb_true_r in Hc. unfold issued_by in Hc. rewrite !andb_true_iff in Hc.
  destruct Hc as [[[[[[_ Hsig2] _] _] _] _] _]. apply Z.eqb_eq in Hsig2. exists leaf, inter.
  by rewrite <- Hb.
Qed.

(** C6: A leaked key of one tenant opens no other.  The chain that a client presents,
    of any length, was verified against the org root, whose key has signed nothing but
    what the authority issued; keys of tenants may have leaked, so the leaf, and any
    authority below an intermediate, may be any certificate.  If the data plane admits
    the client, the chain is his leaf, an intermediate and the root: his leaf was signed
    with the key of an intermediate that the authority issued for the very tenant he is
    admitted to.  And no verified chain, whatever its root, has an issued intermediate
    above another authority. *)
Theorem admitted_by_own_tenant td org allow fr0 at_ p1 p2 c0 st0 c st chain has deny now ident :
  LoadOrInit td org allow fr0 at_ p1 p2 [] ∅ = (Ok c0, st0) -> rtc castep (c0, st0) (c, st) ->
  verified_chain now (ca_rootCert c) chain = true ->
  (forall x, x ∈ chain -> c_signedBy x = c_pub (ca_rootCert c) -> x ∈ ca_issued c) ->
  admitPeer (ca_TrustDomain c) has deny now [chain] = Some ident ->
  (exists leaf inter, chain = [leaf; inter; ca_rootCert c] /\ inter ∈ ca_issued c /\ c_signedBy leaf = c_pub inter /\
     ok_for c (pi_TenantID ident) inter) /\
  (forall now' root' chain' k x, verified_chain now' root' chain' = true -> chain' !! k = Some x ->
     x ∈ ca_issued c -> c_IsCA x = true -> x <> ca_rootCert c -> (k <= 1)%nat).
Proof.
  intros H0 S Hv Hsec Had.
  destruct (init_ca _ _ _ _ _ _ _ _ _ H0) as [I0 Hr0]. destruct (casteps_inv _ _ S I0 Hr0) as [I _]. simpl in I.
  destruct (ci_root _ _ I) as [R1 R2 R4 _ _ _].
  assert (tenantFromOU (n_OU (c_Subject (ca_rootCert c))) = []) as Hroot by by rewrite R1.
  split.
  - assert (checkTenantBinding (pi_TenantID ident) [chain] = true) as Hb.
    { unfold admitPeer in Had. destruct chain as [|leaf rest]; [done |].
      destruct (identifyV2Peer _ _ _) as [i|]; [| done]. destruct (IsRevoked _ _ _); [done |].
      destruct (checkTenantBinding (pi_TenantID i) [leaf :: rest]) eqn:E; [| done]. by injection Had as <-. }
    destruct (bound_chain now _ chain _ R4 Hroot Hv Hb) as (leaf & inter & -> & Hs & Hs2 & Hca & Ht & Hne).
    assert (inter ∈ ca_issued c) as Hiss by (apply Hsec; [set_solver | done]).
    exists leaf, inter. split; [done |]. split; [done |]. split; [done |].
    destruct (ci_issued _ _ I inter Hiss Hca) as [-> |[t Hok]]; [congruence |].
    rewrite (io_subject _ _ _ _ _ Hok) in Ht. change (n_OU (intermediateName (ca_OrgName c) t)) with (tenantOU t) in Ht.
    rewrite tenantFromOU_prefix in Ht. by rewrite <- Ht.
  - intros now' root' chain' k x Hv' Hk Hiss Hca Hne. destruct (ci_issued _ _ I x Hiss Hca) as [?|[t Hok]]; [done |].
    pose proof (io_path _ _ _ _ _ Hok) as Hp. destruct k as [|k]; [lia |].
    pose proof (verified_path_length now' root' chain' (Datatypes.S k) x Hv' Hk) as H. rewrite Hp in H. lia.
Qed.

(** ** A concrete authority *)

Definition td0 : gostr := str "orlop.test".
Definition no_ca : CA :=
  mkCA [] [] (fun _ => true) (generateRoot [] (mkFresh 0 [] 0)) None ∅ [].

Definition booted : CA * gmap gostr secret :=
  match LoadOrInit td0 [] (fun _ => true) (mkFresh 1 [1] 0) false true true [] ∅ with
  | (Ok c, st) => (c, st) | (Err _, st) => (no_ca, st) end.
Definition with_tenant : CA * gmap gostr secret :=
  match BootstrapTenant (mkFresh 2 [2] 0) false true true (str "a_1") booted.1 booted.2 with (_, c, st) => (c, st) end.

Lemma booted_eq :
  LoadOrInit td0 [] (fun _ => true) (mkFresh 1 [1] 0) false true true [] ∅ = (Ok booted.1, booted.2).
Proof.
  assert (is_ok (LoadOrInit td0 [] (fun _ => true) (mkFresh 1 [1] 0) false true true [] ∅).1 = true) as Hok
    by (vm_compute; reflexivity).
  unfold booted. destruct (LoadOrInit _ _ _ _ _ _ _ _ _) as [[c|e] st]; [reflexivity | discriminate Hok].
Qed.

Lemma with_tenant_steps : rtc castep (booted.1, booted.2) (with_tenant.1, with_tenant.2).
Proof.
  apply rtc_once.
  apply (ca_bootstrap (mkFresh 2 [2] 0) false true true (str "a_1")
    (BootstrapTenant (mkFresh 2 [2] 0) false true true (str "a_1") booted.1 booted.2).1.1).
  unfold with_tenant. by destruct (BootstrapTenant _ _ _ _ _ _ _) as [[? ?] ?].
Qed.

Definition agent_mint : result caerr (Certificate * list Certificate) * CA :=
  MintAgentCert (mkFresh 3 [10] minute) (str "a_1") (str "user") (str "1") (60 * minute) with_tenant.1.
Definition agent_leaf : Certificate := match agent_mint.1 with Ok (l, _) => l | Err _ => ca_rootCert booted.1 end.
Definition agent_above : list Certificate := match agent_mint.1 with Ok (_, ch) => ch | Err _ => [] end.
Definition agent_chain : list Certificate := agent_leaf :: agent_above.

Lemma agent_mint_eq :
  MintAgentCert (mkFresh 3 [10] minute) (str "a_1") (str "user") (str "1") (60 * minute) with_tenant.1 =
    (Ok (agent_leaf, agent_above), agent_mint.2).
Proof.
  assert (is_ok agent_mint.1 = true) as Hok by (vm_compute; reflexivity).
  unfold agent_leaf, agent_above. unfold agent_mint in *.
  destruct (MintAgentCert _ _ _ _ _ _) as [[[l ch]|e] c]; [reflexivity | discriminate Hok].
Qed.

Definition knows (t : gostr) : gostr -> bool := fun x => bool_decide (x = t).

Lemma agent_cert_admitted_witness :
  verified_chain (2 * minute) (ca_rootCert with_tenant.1) (agent_leaf :: agent_above) = true /\
  exists subject, admitPeer (ca_TrustDomain with_tenant.1) (knows (str "a_1")) ∅ (2 * minute) [agent_leaf :: agent_above] =
    Some (mkPeer (str "user") (str "a_1") (fr_serial (mkFresh 3 [10] minute)) subject (str "1")).
Proof.
  refine (agent_cert_admitted td0 [] (fun _ => true) (mkFresh 1 [1] 0) false true true booted.1 booted.2 with_tenant.1 with_tenant.2
    (mkFresh 3 [10] minute) (str "a_1") (str "user") (str "1") (60 * minute) agent_leaf agent_above agent_mint.2
    (knows (str "a_1")) ∅ (2 * minute) booted_eq with_tenant_steps agent_mint_eq _ _ _ _ _ _ _).
  - apply (bool_decide_unpack _). vm_compute. exact I.
  - apply (bool_decide_unpack _). vm_compute. exact I.
  - discriminate.
  - discriminate.
  - apply (bool_decide_unpack _). vm_compute. exact I.
  - vm_compute. reflexivity.
  - vm_compute. reflexivity.
Defined.

Lemma admitted_by_own_tenant_witness :
  exists leaf inter, agent_chain = [leaf; inter; ca_rootCert with_tenant.1] /\ c_signedBy leaf = c_pub inter.
Proof.
  destruct (admitPeer (ca_TrustDomain with_tenant.1) (knows (str "a_1")) ∅ (2 * minute) [agent_chain]) as [ident|] eqn:Ead.
  - destruct (admitted_by_own_tenant td0 [] (fun _ => true) (mkFresh 1 [1] 0) false true true booted.1 booted.2 with_tenant.1
      with_tenant.2 agent_chain (knows (str "a_1")) ∅ (2 * minute) ident booted_eq with_tenant_steps)
      as [(leaf & inter & E & _ & Hs & _) _].
    + vm_compute. reflexivity.
    + assert (forallb (fun x => negb (c_signedBy x =? c_pub (ca_rootCert with_tenant.1)) || bool_decide (x ∈ ca_issued with_tenant.1))
        agent_chain = true) as Hall by (vm_compute; reflexivity).
      rewrite forallb_forall in Hall. intros x Hx Hk. specialize (Hall x). rewrite Hk, Z.eqb_refl in Hall.
      apply (bool_decide_eq_true_1 _), Hall. by apply list_elem_of_In.
    + exact Ead.
    + exists leaf, inter. split; [exact E | exact Hs].
  - assert (bool_decide (is_Some (admitPeer (ca_TrustDomain with_tenant.1) (knows (str "a_1")) ∅ (2 * minute) [agent_chain])) = true)
      as Hok by (vm_compute; reflexivity). rewrite Ead in Hok. discriminate Hok.
Defined.

(** A leaf that the holder of a tenant's key signs for himself. *)
Definition forged (uri : URL) : Certificate :=
  mkCert (pkixName (str "x") [] []) (intermediateName (str "ORL") (str "a_1")) [9] 0 (10 * minute) false (-1) false
    KeyUsageDigitalSignature [ExtKeyUsageClientAuth] [uri] [] [] [] 7 2.
Definition forged_chain (uri : URL) : list Certificate := [forged uri] ++ drop 1 agent_chain.

(** The gate of the control endpoints looks at the URI alone: with the key of one
    tenant's intermediate a leaf for the control plane can be signed, which the
    handshake verifies. *)
Example tenant_key_forges_control_plane :
  verified_chain minute (ca_rootCert with_tenant.1) (forged_chain (spiffeURL td0 (str "/control"))) = true /\
  bool_decide (is_Some (controlPlaneOnlyMiddleware td0 (forged (spiffeURL td0 (str "/control"))))) = true.
Proof. vm_compute. split; reflexivity. Qed.

(** The audit endpoint does not check the binding: the same key reads the audit trail
    of another tenant. *)
Example tenant_key_reads_other_audit :
  let leaf := forged (spiffeURL td0 (str "/tenant/a_2")) in
  let ev := mkAudit (str "a_2") (str "other") (str "put") in
  match authMiddleware td0 (knows (str "a_2")) leaf with
  | Some ident => getAudit td0 leaf ident None [ev] = [ev]
  | None => False
  end.
Proof. vm_compute. reflexivity. Qed.

(** The audit trail names the user, the filter the agent: an agent does not see its own
    records. *)
Example audit_hides_own_records :
  match admitPeer td0 (knows (str "a_1")) ∅ (2 * minute) [agent_chain], authMiddleware td0 (knows (str "a_1")) agent_leaf with
  | Some peer, Some ident => getAudit td0 agent_leaf ident None [auditOf peer (str "put")] = []
  | _, _ => False
  end.
Proof. vm_compute. reflexivity. Qed.

(** A control-plane certificate, which may read everything, does not get past the
    middleware. *)
Example audit_refuses_control_plane :
  match MintControlPlaneCert (mkFresh 4 [4] 0) minute booted.1 with
  | (Ok leaf, _) => authMiddleware td0 (fun _ => true) leaf = None
  | _ => False
  end.
Proof. vm_compute. reflexivity. Qed.

(** An intermediate is never renewed: after its year a new leaf of the tenant is not
    verified, and bootstrapping the tenant again succeeds and changes nothing. *)
Example intermediate_never_renewed :
  let now := DefaultIntermediateValidity + minute in
  let '(r, c, st) := BootstrapTenant (mkFresh 5 [5] now) false true true (str "a_1") with_tenant.1 with_tenant.2 in
  r = Ok tt /\
  match MintAgentCert (mkFresh 6 [6] now) (str "a_1") (str "user") (str "1") (60 * minute) c with
  | (Ok (leaf, chain), _) => verified_chain (now + minute) (ca_rootCert c) (leaf :: chain) = false /\
      valid_at (now + minute) leaf = true
  | _ => False
  end.
Proof. vm_compute. repeat split; reflexivity. Qed.

(** In a store without transactions a failed second write leaves a certificate without
    its key: the tenant can never be bootstrapped and the authority no longer loads. *)
Example half_written_pair_stops_loading :
  let '(r, c, st) := BootstrapTenant (mkFresh 2 [2] 0) false true false (str "a_1") booted.1 booted.2 in
  let '(r2, _, _) := BootstrapTenant (mkFresh 3 [3] 0) false true true (str "a_1") c st in
  r = Err CaStore /\ r2 = Err CaIncomplete /\
  (LoadOrInit td0 [] (fun _ => true) (mkFresh 4 [4] 0) false true true [] st).1 = Err CaMissing.
Proof. vm_compute. repeat split; reflexivity. Qed.
