(* ===== verification/Client.v ===== *)
(** * The Go data client and its connection

    dataclient/client.go, dataclient/errors.go: a client for one agent that reads and
    writes whole files over the frames of Codec.v.  orlop-server/dataplane_server.go:
    the read loop of a connection ([serveFrames] after its door, Certs.v), the frames
    of answers and the frame writer.

    The client's state is its record with the bytes it has not read yet.  What is on
    the other side is a parameter: [peer] gets the bytes of one request and gives back
    the bytes that arrive before the deadline, [None] when the write fails.
    [dataPlane] is the peer that the server is.  msgpack is the class [Wire] with its
    round-trip laws.  A context that ends is a transport error like any other: the
    deadline cuts the incoming bytes short.  Requests are those of Handlers.v, which
    leave out the session id of a chunk or directory request (the server only logs
    it). *)

From S2P Require Import Prelude GoPath Codec TenantDB Journal Manifests Lease ChunkStore Handlers MsgGuard Certs.

(** ** Operations *)

Definition OpList : Z := 0x01.
Definition OpStat : Z := 0x02.
Definition OpPing : Z := 0x04.
Definition OpClose : Z := 0x05.
Definition OpManifestGet : Z := 0x06.
Definition OpManifestPut : Z := 0x07.
Definition OpChunkGet : Z := 0x08.
Definition OpChunkHas : Z := 0x09.
Definition OpChunkPut : Z := 0x0A.
Definition OpManifestDelete : Z := 0x0B.
Definition OpManifestRename : Z := 0x0C.
Definition OpDirCreate : Z := 0x0D.
Definition OpDirRemove : Z := 0x0E.
Definition OpSetattr : Z := 0x0F.
Definition OpLeaseGrant : Z := 0x10.
Definition OpLeaseRefresh : Z := 0x11.
Definition OpLeaseRelease : Z := 0x12.
Definition OpLeaseRevoke : Z := 0x13.
Definition OpJournalQuery : Z := 0x15.
Definition OpSymlink : Z := 0x16.
Definition OpReadlink : Z := 0x17.
Definition OpJournalRevertPath : Z := 0x18.
Definition OpMknod : Z := 0x19.
Definition OpLink : Z := 0x1A.
Definition OpChangesFetch : Z := 0x1B.
Definition OpChangesSubscribe : Z := 0x1C.
Definition OpChangesEvent : Z := 0x1D.

Definition OpTable : list Z :=
  [OpList; OpStat; OpManifestGet; OpManifestPut; OpManifestDelete; OpManifestRename; OpDirCreate; OpDirRemove;
   OpSetattr; OpSymlink; OpReadlink; OpMknod; OpLink; OpChunkGet; OpChunkHas; OpChunkPut; OpJournalQuery;
   OpJournalRevertPath; OpChangesFetch].

(** The operation a request struct belongs to; 0 is none. *)
Definition opOf (rq : request) : Z :=
  match rq with
  | RqList _ => OpList
  | RqStat _ => OpStat
  | RqManifestGet _ => OpManifestGet
  | RqManifestPut _ => OpManifestPut
  | RqManifestDelete _ => OpManifestDelete
  | RqManifestRename _ => OpManifestRename
  | RqLink _ => OpLink
  | RqDirCreate _ _ => OpDirCreate
  | RqDirRemove _ => OpDirRemove
  | RqSetattr _ => OpSetattr
  | RqSymlink _ _ _ => OpSymlink
  | RqMknod _ => OpMknod
  | RqReadlink _ => OpReadlink
  | RqChunkGet _ => OpChunkGet
  | RqChunkHas _ => OpChunkHas
  | RqChunkPut _ _ => OpChunkPut
  | RqJournalQuery _ _ _ => OpJournalQuery
  | RqJournalRevertPath _ _ _ => OpJournalRevertPath
  | RqChangesFetch _ => OpChangesFetch
  | Malformed | Unsupported => 0
  end.

(** The struct that the answer to an operation is decoded into. *)
Definition answers (op : Z) (r : response) : Prop :=
  match r with
  | RsList _ => op = OpList
  | RsStat _ => op = OpStat
  | RsManifestGet _ _ _ _ _ => op = OpManifestGet
  | RsManifestPut _ => op = OpManifestPut
  | RsDone => op ∈ [OpManifestDelete; OpDirCreate; OpDirRemove; OpSetattr; OpSymlink; OpMknod]
  | RsManifestRename _ => op = OpManifestRename
  | RsLink _ => op = OpLink
  | RsReadlink _ => op = OpReadlink
  | RsChunkGet _ => op = OpChunkGet
  | RsChunkHas _ => op = OpChunkHas
  | RsChunkPut _ => op = OpChunkPut
  | RsJournalQuery _ _ => op = OpJournalQuery
  | RsJournalRevert _ _ => op = OpJournalRevertPath
  | RsChanges _ => op = OpChangesFetch
  end.

(** [msgpack.Marshal] and [msgpack.Unmarshal] on the structs of messages.go. *)
Class Wire := {
  marshalRequest : request -> option (list Z);
  unmarshalRequest : Z -> list Z -> option request;
  marshalResponse : response -> option (list Z);
  unmarshalResponse : Z -> list Z -> option response;
  marshalError : ErrorPayload -> option (list Z);
  unmarshalError : list Z -> option ErrorPayload }.

Class WireLaws (W : Wire) : Prop := {
  request_roundtrip rq b : marshalRequest rq = Some b -> unmarshalRequest (opOf rq) b = Some rq;
  response_roundtrip op r b : answers op r -> marshalResponse r = Some b -> unmarshalResponse op b = Some r;
  error_roundtrip e b : marshalError e = Some b -> unmarshalError b = Some e }.

(** ** Errors of the client *)

Inductive sentinel :=
| clErrNotFound | clErrExists | clErrNotEmpty | clErrNotDir | clErrIsDir | clErrAccessDenied | clErrStale
| clErrBusy | clErrInvalid.

Definition sentinelFor (n : Z) : option sentinel :=
  if n =? ErrnoENOENT then Some clErrNotFound
  else if n =? ErrnoEEXIST then Some clErrExists
  else if n =? ErrnoENOTEMPTY then Some clErrNotEmpty
  else if n =? ErrnoENOTDIR then Some clErrNotDir
  else if n =? ErrnoEISDIR then Some clErrIsDir
  else if n =? ErrnoEACCES then Some clErrAccessDenied
  else if n =? ErrnoESTALE then Some clErrStale
  else if n =? ErrnoEBUSY then Some clErrBusy
  else if n =? ErrnoEINVAL then Some clErrInvalid
  else None.

Record staleInfo := mkStale {
  se_YourVersion : Z; se_CurrentVersion : Z; se_LastWriterAgentID : gostr; se_LastWriterSessionID : gostr }.

Inductive clientErr :=
| NetErrClosed
| TransportErr
| MarshalErr
| UnmarshalErr
| WriterErr
| DataError (n : Z) (s : option sentinel)
| StaleError (n : Z) (s : option sentinel) (i : staleInfo).

Definition errorFromPayload (ep : ErrorPayload) : clientErr :=
  let s := sentinelFor (ep_Errno ep) in
  if negb (ep_Errno ep =? ErrnoESTALE) then DataError (ep_Errno ep) s
  else
    StaleError (ep_Errno ep) s
      (match ep_Recovery ep with
       | None => mkStale 0 0 [] []
       | Some r =>
           mkStale (rh_YourVersion r) (default 0 (rh_CurrentVersion r))
             (default [] (rh_LastWriter r ≫= hw_AgentID)) (default [] (rh_LastWriter r ≫= hw_SessionID))
       end).

(** ** The connection of the client *)

Definition DefaultChunkSize : Z := Z.shiftl 1 20.

(** [cl_in]: what has arrived and is not read yet. *)
Record Client := mkClient {
  cl_chunkSize : Z; cl_agentID : gostr; cl_sessionID : gostr; cl_allocationID : gostr;
  cl_ridSeq : Z; cl_closed : bool; cl_in : list Z }.

Definition newClient (chunkSize : Z) (agentID : gostr) : Client :=
  mkClient (if chunkSize <=? 0 then DefaultChunkSize else chunkSize) agentID [] [] 0 false [].

(** The options of [Dial] that reach the client. *)
Definition WithChunkSize (n size : Z) : Z := if (0 <? n) && (n <=? Z.shiftl 20 20) then n else size.

Definition WithSession (sessionID allocationID : gostr) (c : Client) : Client :=
  mkClient (cl_chunkSize c) (cl_agentID c) sessionID allocationID (cl_ridSeq c) (cl_closed c) (cl_in c).

Definition set_conn (rid : Z) (closed : bool) (inb : list Z) (c : Client) : Client :=
  mkClient (cl_chunkSize c) (cl_agentID c) (cl_sessionID c) (cl_allocationID c) rid closed inb.

Definition closeClient (c : Client) : Client := set_conn (cl_ridSeq c) true (cl_in c) c.

Definition scope (c : Client) (p : gostr) : gostr :=
  let clean := Clean (slash :: TrimPrefix p [slash]) in
  if decide (cl_agentID c = []) then clean
  else if decide (clean = [slash]) then slash :: cl_agentID c
  else slash :: cl_agentID c ++ clean.

(** The loop over the segments of one URI. *)
Fixpoint agentSegment (segs : list gostr) : option gostr :=
  match segs with
  | a :: ((b :: _) as segs') =>
      if decide (a = str "agent" /\ b <> []) then Some b else agentSegment segs'
  | _ => None
  end.

(** The leaf of the chain, [None] when it does not parse. *)
Definition agentIDFromCertDER (leaf : option Certificate) : gostr :=
  match leaf with
  | None => []
  | Some cert =>
      (fix go uris :=
         match uris with
         | [] => []
         | u :: uris' =>
             match agentSegment (split_slash (trim_slashes (u_Path u))) with Some a => a | None => go uris' end
         end) (c_URIs cert)
  end.

(** Frames of other requests are skipped.  [None]: [ReadFrame] failed. *)
Fixpoint awaitReply (fuel : nat) (rid : Z) (s : list Z) : option (Frame * list Z) :=
  match fuel with
  | O => None
  | S fuel' =>
      match ReadFrame s with
      | Err _ => None
      | Ok (f, rest) => if RID f =? rid then Some (f, rest) else awaitReply fuel' rid rest
      end
  end.

Section client.
Context {W : Wire} {World : Type} (peer : list Z -> World -> option (list Z) * World).

Definition decodeReply (op : Z) (f : Frame) : result clientErr response :=
  if negb (IsResponse f) then Err (DataError ErrnoEIO None)
  else if IsError f then
    match unmarshalError (Payload f) with
    | None => Err (DataError ErrnoEIO None)
    | Some ep => Err (errorFromPayload ep)
    end
  else match unmarshalResponse op (Payload f) with None => Err UnmarshalErr | Some r => Ok r end.

Definition cl (A : Type) : Type := Client * World -> result clientErr A * (Client * World).

#[export] Instance cl_ret : MRet cl := fun A x s => (Ok x, s).
#[export] Instance cl_bind : MBind cl := fun A B k m s =>
  match m s with (Ok x, s') => k x s' | (Err e, s') => (Err e, s') end.

Definition cl_fail {A} (e : clientErr) : cl A := fun s => (Err e, s).

(** [Client.call] and [transportErr]. *)
Definition client_call (rq : request) : cl response := fun s =>
  let '(c, w) := s in
  match marshalRequest rq with
  | None => (Err MarshalErr, s)
  | Some payload =>
      if cl_closed c then (Err NetErrClosed, s)
      else
        let rid := u64 (cl_ridSeq c + 1) in
        let broken w' := (Err TransportErr, (set_conn rid true (cl_in c) c, w')) in
        match WriteFrame (mkFrame (opOf rq) 0 rid payload) with
        | Err _ => broken w
        | Ok bytes =>
            match peer bytes w with
            | (None, w') => broken w'
            | (Some arrived, w') =>
                let inb := cl_in c ++ arrived in
                match awaitReply (S (length inb)) rid inb with
                | None => broken w'
                | Some (f, rest) => (decodeReply (opOf rq) f, (set_conn rid false rest c, w'))
                end
            end
        end
  end.

(** ** Whole-file operations *)

Record clDirEntry := mkDirEntry {
  de_Name : gostr; de_Kind : string; de_Size : Z; de_Mode : Z; de_Target : gostr }.

Record FileInfo := mkInfo { fi_Path : gostr; fi_Size : Z; fi_Mode : Z; fi_Mtime : Z; fi_Version : Z }.

Record WriteOpts := mkOpts { wo_Mode : Z; wo_Mtime : Z }.

Definition optStr (s : gostr) : option gostr := if decide (s = []) then None else Some s.
Definition sess (c : Client) : option gostr := optStr (cl_sessionID c).
Definition alloc (c : Client) : option gostr := optStr (cl_allocationID c).

(** An operation that reads the fields of the client first. *)
Definition with_client {A} (k : Client -> cl A) : cl A := fun s => k s.1 s.

Definition ListDir (dir : gostr) : cl (list clDirEntry) :=
  with_client (fun c =>
    r ← client_call (RqList (scope c dir));
    match r with
    | RsList es => mret ((fun e => mkDirEntry (en_Name e) (en_Kind e) (en_Size e) (en_Mode e) (en_Target e)) <$> es)
    | _ => cl_fail UnmarshalErr
    end).

Definition StatFile (filePath : gostr) : cl FileInfo :=
  with_client (fun c =>
    r ← client_call (RqManifestGet (scope c filePath));
    match r with
    | RsManifestGet version size mode mtime _ => mret (mkInfo filePath size mode mtime version)
    | _ => cl_fail UnmarshalErr
    end).

(** [bytes.Buffer] and the other writers: [wok] tells which block the writer takes;
    [out] is what it has got. *)
Fixpoint downloadChunks (blake3 : blob -> hash) (wok : blob -> bool) (chunks : list WireChunkRef) (running : Z)
    (out : blob) (s : Client * World) : result clientErr Z * blob * (Client * World) :=
  match chunks with
  | [] => (Ok running, out, s)
  | ch :: chunks' =>
      if negb (WOffset ch =? running) then (Err (DataError ErrnoEIO None), out, s)
      else
        match client_call (RqChunkGet (WHash ch)) s with
        | (Err e, s') => (Err e, out, s')
        | (Ok (RsChunkGet bytes), s') =>
            if negb (u32 (Z.of_nat (length bytes)) =? WLen ch) then (Err (DataError ErrnoEIO None), out, s')
            else if negb (bool_decide (blake3 bytes = WHash ch)) then (Err (DataError ErrnoEIO None), out, s')
            else if negb (wok bytes) then (Err WriterErr, out, s')
            else downloadChunks blake3 wok chunks' (u64 (running + WLen ch)) (out ++ bytes) s'
        | (Ok _, s') => (Err UnmarshalErr, out, s')
        end
  end.

Definition Download (blake3 : blob -> hash) (wok : blob -> bool) (filePath : gostr) (s : Client * World)
    : result clientErr FileInfo * blob * (Client * World) :=
  match client_call (RqManifestGet (scope s.1 filePath)) s with
  | (Err e, s') => (Err e, [], s')
  | (Ok (RsManifestGet version size mode mtime chunks), s') =>
      match downloadChunks blake3 wok chunks 0 [] s' with
      | (Err e, out, s'') => (Err e, out, s'')
      | (Ok running, out, s'') =>
          (if negb (running =? size) then Err (DataError ErrnoEIO None)
           else Ok (mkInfo filePath size mode mtime version), out, s'')
      end
  | (Ok _, s') => (Err UnmarshalErr, [], s')
  end.

Definition ReadFile (blake3 : blob -> hash) (filePath : gostr) : cl (blob * FileInfo) := fun s =>
  match Download blake3 (fun _ => true) filePath s with
  | (Err e, _, s') => (Err e, s')
  | (Ok info, out, s') => (Ok (out, info), s')
  end.

(** The upload loop at offset [off], with [rest] still to send: a round of the loop
    takes at least a byte. *)
Fixpoint uploadChunks (blake3 : blob -> hash) (fuel : nat) (chunkSize off : Z) (rest : blob) : cl (list WireChunkRef) :=
  match fuel, rest with
  | _, [] | O, _ => mret []
  | S fuel', _ =>
      let piece := take (Z.to_nat chunkSize) rest in
      let h := blake3 piece in
      r ← client_call (RqChunkPut h piece);
      match r with
      | RsChunkPut _ =>
          refs ← uploadChunks blake3 fuel' chunkSize (off + chunkSize) (drop (Z.to_nat chunkSize) rest);
          mret (mkWireChunkRef h (u64 off) (u32 (Z.of_nat (length piece))) :: refs)
      | _ => cl_fail UnmarshalErr
      end
  end.

(** [nowSec]: [time.Now().Unix()]. *)
Definition WriteFile (blake3 : blob -> hash) (nowSec : Z) (filePath : gostr) (data : blob) (expectedVersion : Z)
    (opts : WriteOpts) : cl Z :=
  with_client (fun c =>
    chunks ← uploadChunks blake3 (length data) (cl_chunkSize c) 0 data;
    let mode := if wo_Mode opts =? 0 then 0x1a4 else wo_Mode opts in
    let mtime := if wo_Mtime opts =? 0 then nowSec else wo_Mtime opts in
    r ← client_call (RqManifestPut (mkPutReq (scope c filePath) expectedVersion (u64 (Z.of_nat (length data))) mode mtime
                                      chunks (sess c) (alloc c)));
    match r with RsManifestPut version => mret version | _ => cl_fail UnmarshalErr end).

(** The empty response structs. *)
Definition done (r : response) : cl unit := match r with RsDone => mret tt | _ => cl_fail UnmarshalErr end.

Definition clDelete (filePath : gostr) (expectedVersion : Z) : cl unit :=
  with_client (fun c =>
    r ← client_call (RqManifestDelete (mkDelReq (scope c filePath) expectedVersion (sess c) (alloc c))); done r).

Definition rename (from to : gostr) (expectedVersionFrom : Z) (noReplace : bool) : cl Z :=
  with_client (fun c =>
    r ← client_call (RqManifestRename (mkRenReq (scope c from) (scope c to) expectedVersionFrom 0 noReplace
                                         (sess c) (alloc c)));
    match r with RsManifestRename v => mret v | _ => cl_fail UnmarshalErr end).

Definition clRename (from to : gostr) (v : Z) : cl Z := rename from to v false.
Definition RenameNoReplace (from to : gostr) (v : Z) : cl Z := rename from to v true.

Definition MakeDir (dir : gostr) (mode : Z) : cl unit :=
  with_client (fun c =>
    r ← client_call (RqDirCreate (scope c dir) (if mode =? 0 then 0x1ed else mode)); done r).

Definition RemoveDir (dir : gostr) : cl unit :=
  with_client (fun c => r ← client_call (RqDirRemove (scope c dir)); done r).

End client.

(** ** The server's side of the connection *)

(** What happens around one request: the clocks, the answers of the environment and
    the frames that are pushed before the answer. *)
Record moment := mkMoment { mo_now : Z; mo_nowSec : Z; mo_nowNs : Z; mo_env : environment; mo_pushed : list Frame }.

(** [pl_writing]: the writer goroutine still runs; it ends at the first error. *)
Record plane := mkPlane { pl_server : server; pl_open : bool; pl_writing : bool }.

Inductive served := Reply (f : Frame) | CloseConn | Elsewhere.

Fixpoint write_frames (fs : list Frame) : list Z * bool :=
  match fs with
  | [] => ([], true)
  | f :: fs' =>
      match WriteFrame f with
      | Err _ => ([], false)
      | Ok b => let '(bs, ok) := write_frames fs' in (b ++ bs, ok)
      end
  end.

Section plane.
Context {MP : MsgPack} {W : Wire} {D : Decoder} (blake3 : blob -> hash) (permits : gostr -> bool).
Context (order : list (gostr * list chunkBatchItem) -> list (gostr * list chunkBatchItem)).
Context (ident : Identity) (connID : Z).

Definition writeFrameError (op rid : Z) (e : ErrorPayload) : Frame :=
  mkFrame op (Z.lor FlagResponse FlagError) rid (default [] (marshalError e)).

Definition sendResp (op rid : Z) (r : response) : Frame :=
  match marshalResponse r with
  | None => writeFrameError op rid (errno ErrnoEIO)
  | Some payload => mkFrame op FlagResponse rid payload
  end.

Definition decodeReq (op : Z) (payload : list Z) : request :=
  if guardMsgpackLimits payload then default Malformed (unmarshalRequest op payload) else Malformed.

(** The lease operations and the subscription are handled elsewhere (Lease.v). *)
Definition serveFrame (mo : moment) (f : Frame) (s : server) : served * server :=
  if Op f =? OpPing then (Reply (mkFrame OpPing FlagResponse (RID f) (Payload f)), s)
  else if Op f =? OpClose then (CloseConn, s)
  else if bool_decide (Op f ∈ [OpLeaseGrant; OpLeaseRefresh; OpLeaseRelease; OpChangesSubscribe]) then (Elsewhere, s)
  else if bool_decide (Op f ∈ OpTable) then
    let '(r, s') := handleRequest blake3 permits order (mo_now mo) (mo_nowSec mo) (mo_nowNs mo) (mo_env mo) ident connID
                      (decodeReq (Op f) (Payload f)) s in
    (Reply (match r with
            | Ok rs => sendResp (Op f) (RID f) rs
            | Err e => writeFrameError (Op f) (RID f) e
            end), s')
  else (Reply (writeFrameError (Op f) (RID f) (errno ErrnoEINVAL)), s).

(** One request of a client that waits for its answer. *)
Definition dataPlane (moments : Z -> moment) (bytes : list Z) (pl : plane) : option (list Z) * plane :=
  if negb (pl_open pl) then (Some [], pl)
  else
    match ReadFrame bytes with
    | Err _ => (Some [], mkPlane (pl_server pl) false (pl_writing pl))
    | Ok (f, _) =>
        let mo := moments (RID f) in
        let '(sv, s') := serveFrame mo f (pl_server pl) in
        let replies := match sv with Reply r => [r] | _ => [] end in
        let '(bs, ok) := write_frames (mo_pushed mo ++ replies) in
        let still := match sv with CloseConn => false | _ => true end in
        if pl_writing pl then (Some bs, mkPlane s' still ok) else (Some [], mkPlane s' still false)
    end.
End plane.
