(* ===== verification/ClientSafe.v ===== *)
(** * The data client against any peer

    What holds of the client whatever arrives on its connection: it stays at a frame
    boundary or closes, it takes only answers to its own request, what it hands out
    carries the hashes of the manifest, and it asks only for paths of its agent. *)

From S2P Require Import Prelude GoPath Codec TenantDB Journal Manifests Lease ChunkStore Handlers HandlerProps WireProps MsgGuard Certs Ca CaProps Client.

(** ** Frames are read whole *)

Lemma ReadFrame_inv s f rest :
  Forall is_byte s -> ReadFrame s = Ok (f, rest) -> s = frame_bytes f ++ rest /\ Forall is_byte rest.
Proof.
  intros Hs. unfold ReadFrame, ReadFull at 1. case_decide as Hn; [| by destruct s].
  do 16 (destruct s as [|? s]; [simpl in Hn; unfold HeaderLen in Hn; lia |]).
  unfold HeaderLen. cbn [take drop nth length]. rewrite !take_0, drop_0. repeat (apply Forall_cons in Hs as [? Hs]).
  destruct (op_valid _); [| done]. cbn [negb].
  match goal with |- context [negb (?a =? 0) || negb (?b =? 0)] =>
    destruct (Z.eqb_spec a 0) as [->|]; [| done]; destruct (Z.eqb_spec b 0) as [->|]; [| done] end. cbn [negb orb].
  match goal with |- context [be_get [?a; ?b; ?c; ?d]] => set (plen := be_get [a; b; c; d]);
    assert (be_put 4 plen = [a; b; c; d]) as Hp by (apply (be_put_get [a; b; c; d]); repeat (apply List.Forall_cons; [assumption |]); apply List.Forall_nil);
    assert (0 <= plen) as Hpos by (apply (be_get_bound [a; b; c; d]); repeat (apply List.Forall_cons; [assumption |]); apply List.Forall_nil) end.
  match goal with |- context [be_get (?a :: ?b :: ?l)] => set (rid := be_get (a :: b :: l));
    assert (be_put 8 rid = a :: b :: l) as Hr by (apply (be_put_get (a :: b :: l)); repeat (apply List.Forall_cons; [assumption |]); apply List.Forall_nil) end.
  destruct (plen >? MaxPayloadLen); [done |].
  assert (forall p, (if plen >? 0 then ReadFull (Z.to_nat plen) s else Ok ([], s)) = Ok p ->
    Z.of_nat (length p.1) = plen /\ s = p.1 ++ p.2) as Hread.
  { intros p. destruct (Z.gtb_spec plen 0); [| intros [= <-]; simpl; split; [lia | done]].
    unfold ReadFull. case_decide; [| by destruct s]. intros [= <-]. simpl. rewrite take_drop, length_take. split; [lia | done]. }
  destruct (if plen >? 0 then _ else _) as [[payload r]|]; [| done]. destruct (Hread _ eq_refl) as [Hl ->]. simpl in Hl.
  intros [= <- <-]. apply Forall_app in Hs as [_ Hs]. split; [| done]. unfold frame_bytes. cbn [Op Flags RID Payload].
  by rewrite Hl, Hr, Hp.
Qed.

(** The frames before the answer, and the answer: the first with its number. *)
Lemma awaitReply_inv n rid s f rest :
  Forall is_byte s -> awaitReply n rid s = Some (f, rest) ->
  exists skipped, s = concat (frame_bytes <$> (skipped ++ [f])) ++ rest /\ RID f = rid /\
    Forall (fun g => RID g <> rid) skipped.
Proof.
  revert s. induction n as [|n IH]; intros s Hs; cbn [awaitReply]; [done |].
  destruct (ReadFrame s) as [[g r]|] eqn:Hf; [| done]. destruct (ReadFrame_inv _ _ _ Hs Hf) as [-> Hr].
  destruct (Z.eqb_spec (RID g) rid) as [He|He].
  - intros [= -> ->]. exists []. cbn [app fmap list_fmap concat]. by rewrite app_nil_r.
  - intros (sk & -> & Hid & Hsk)%IH; [| done]. exists (g :: sk). cbn [app fmap list_fmap concat].
    rewrite <- app_assoc. split; [done |]. split; [done |]. by constructor.
Qed.

(** There is fuel for all frames: no answer means that the stream ends or breaks. *)
Lemma awaitReply_None n rid s :
  Forall is_byte s -> (length s < n)%nat -> awaitReply n rid s = None ->
  exists skipped rest, s = concat (frame_bytes <$> skipped) ++ rest /\ Forall (fun g => RID g <> rid) skipped /\
    is_ok (ReadFrame rest) = false.
Proof.
  revert s. induction n as [|n IH]; intros s Hs Hn; cbn [awaitReply]; [lia |].
  destruct (ReadFrame s) as [[g r]|e] eqn:Hf; [| intros _; exists [], s; by rewrite Hf].
  destruct (ReadFrame_inv _ _ _ Hs Hf) as [-> Hr]. destruct (Z.eqb_spec (RID g) rid) as [He|He]; [done |].
  intros (sk & rest & -> & Hsk & Hbad)%IH; [| done | rewrite length_app in Hn; simpl in Hn; lia].
  exists (g :: sk), rest. cbn [fmap list_fmap concat]. rewrite <- app_assoc. split; [done |]. split; [by constructor | done].
Qed.

Section any_peer.
Context {W : Wire} {World : Type} (peer : list Z -> World -> option (list Z) * World).

(** The peer with a record of what it sent. *)
Definition logged (bytes : list Z) (w : World * list Z) : option (list Z) * (World * list Z) :=
  match peer bytes w.1 with
  | (None, w') => (None, (w', w.2))
  | (Some b, w') => (Some b, (w', w.2 ++ b))
  end.

(** One request after the other, whatever they answer. *)
Definition session (rqs : list request) (s : Client * (World * list Z)) : Client * (World * list Z) :=
  foldl (fun s rq => (client_call logged rq s).2) s rqs.

Definition bytes_only : Prop := forall bytes w b w', peer bytes w = (Some b, w') -> Forall is_byte b.

Definition in_step (c : Client) (received : list Z) : Prop :=
  Forall is_byte (cl_in c) /\ (cl_closed c = true \/ exists fs, received = concat (frame_bytes <$> fs) ++ cl_in c).

(** What one call does: nothing, close, or read frames up to its answer. *)
Inductive call_outcome (rq : request) (c : Client) (log : list Z) : result clientErr response -> Client -> list Z -> Prop :=
| co_marshal : marshalRequest rq = None -> call_outcome rq c log (Err MarshalErr) c log
| co_closed : cl_closed c = true -> call_outcome rq c log (Err NetErrClosed) c log
| co_unsent : call_outcome rq c log (Err TransportErr) (set_conn (u64 (cl_ridSeq c + 1)) true (cl_in c) c) log
| co_broken b skipped rest :
    cl_in c ++ b = concat (frame_bytes <$> skipped) ++ rest -> Forall (fun g => RID g <> u64 (cl_ridSeq c + 1)) skipped ->
    is_ok (ReadFrame rest) = false ->
    call_outcome rq c log (Err TransportErr) (set_conn (u64 (cl_ridSeq c + 1)) true (cl_in c) c) (log ++ b)
| co_answer b skipped f rest :
    cl_closed c = false -> cl_in c ++ b = concat (frame_bytes <$> (skipped ++ [f])) ++ rest -> RID f = u64 (cl_ridSeq c + 1) ->
    Forall (fun g => RID g <> u64 (cl_ridSeq c + 1)) skipped -> Forall is_byte rest ->
    call_outcome rq c log (decodeReply (opOf rq) f) (set_conn (u64 (cl_ridSeq c + 1)) false rest c) (log ++ b).

Lemma call_outcomes rq c w log r c' w' log' :
  bytes_only -> Forall is_byte (cl_in c) -> client_call logged rq (c, (w, log)) = (r, (c', (w', log'))) ->
  call_outcome rq c log r c' log' /\
  (cl_closed c = true -> c' = c /\ w' = w /\ log' = log).
Proof.
  intros Hb Hin. unfold client_call. destruct (marshalRequest rq) as [pl|] eqn:Hm; [| intros [= <- <- <- <-]; by split; [constructor |]].
  destruct (cl_closed c) eqn:Hc; [intros [= <- <- <- <-]; by split; [apply co_closed |] |].
  destruct (WriteFrame _) as [bytes|]; [| intros [= <- <- <- <-]; split; [apply co_unsent | done]].
  unfold logged. cbn [fst snd]. destruct (peer bytes w) as [[b|] w1] eqn:Hp;
    [| intros [= <- <- <- <-]; split; [apply co_unsent | done]].
  destruct (awaitReply _ _ _) as [[f rest]|] eqn:Ha; intros [= <- <- <- <-]; split; try done.
  2: { apply awaitReply_None in Ha as (sk & rest & E & Hsk & Hbad); [by eapply co_broken | apply Forall_app; eauto | lia]. }
  apply awaitReply_inv in Ha as (sk & E & Hid & Hsk); [| apply Forall_app; eauto]. apply (co_answer _ _ _ b sk); try done.
  assert (Forall is_byte (cl_in c ++ b)) as Hall by (apply Forall_app; eauto). rewrite E in Hall. by apply Forall_app in Hall as [_ ?].
Qed.

Lemma call_in_step rq c w log r c' w' log' :
  bytes_only -> in_step c log -> client_call logged rq (c, (w, log)) = (r, (c', (w', log'))) -> in_step c' log'.
Proof.
  intros Hb [Hin Hs] [Ho _]%call_outcomes; [| done | done].
  destruct Ho as [| | | |b sk f rest Hc E _ _ Hr]; try (by split); [by split; [| left] .. |].
  destruct Hs as [?|(fs & ->)]; [congruence |]. split; [done |]. right. exists (fs ++ sk ++ [f]).
  by rewrite <- app_assoc, E, (fmap_app _ fs), concat_app, <- app_assoc.
Qed.

Lemma session_in_step rqs c w log :
  bytes_only -> in_step c log ->
  let s := session rqs (c, (w, log)) in in_step s.1 s.2.2.
Proof.
  intros Hb. revert c w log. induction rqs as [|rq rqs IH]; intros c w log Hs; [done |]. unfold session. cbn [foldl].
  destruct (client_call logged rq (c, (w, log))) as [r [c1 [w1 log1]]] eqn:E. cbn [snd].
  apply IH. by eapply call_in_step.
Qed.

(** C19: The client never loses its place in the stream of answers.  Whatever bytes the
    peer sends, after every sequence of requests the client is closed, or what it has
    read is whole frames and what it has not read is the rest.  The next request is
    answered from the first frame with its own number, after frames with other
    numbers; or it fails because it could not be written or because what follows
    those frames is no frame, and then the client is closed.  A closed client sends
    and reads nothing more. *)
Theorem client_in_step rqs rq n a w r c' w' log' :
  bytes_only ->
  let s := session rqs (newClient n a, (w, [])) in
  client_call logged rq s = (r, (c', (w', log'))) ->
  in_step c' log' /\ call_outcome rq s.1 s.2.2 r c' log' /\
  (cl_closed s.1 = true -> c' = s.1 /\ w' = s.2.1 /\ log' = s.2.2).
Proof.
  intros Hb s Hcall. assert (in_step s.1 s.2.2) as Hs.
  { apply session_in_step; [done |]. split; [done |]. right. by exists []. }
  destruct s as [c [w1 log]]. cbn [fst snd] in *.
  split; [by eapply call_in_step | by apply call_outcomes; [| apply Hs |]].
Qed.

(** ** Downloads *)

(** A block that is what the chunk of the manifest says. *)
Definition verified (blake3 : blob -> hash) (ch : WireChunkRef) (b : blob) : Prop :=
  blake3 b = WHash ch /\ u32 (Z.of_nat (length b)) = WLen ch.

Lemma downloadChunks_verified blake3 wok chunks running out s r out' s' :
  downloadChunks peer blake3 wok chunks running out s = (r, out', s') ->
  exists done_ rest blocks, chunks = done_ ++ rest /\ Forall2 (verified blake3) done_ blocks /\ out' = out ++ concat blocks /\
    (forall n, r = Ok n -> rest = [] /\
       (Forall (fun b => Z.of_nat (length b) < 2 ^ 32) blocks -> 0 <= running ->
        running + Z.of_nat (length (concat blocks)) < 2 ^ 64 -> n = running + Z.of_nat (length (concat blocks)))).
Proof.
  revert running out s. induction chunks as [|ch chunks IH]; intros running out s; cbn [downloadChunks].
  { intros [= <- <- <-]. exists [], [], []. split; [done |]. split; [constructor |]. split; [by rewrite app_nil_r |].
    intros n [= <-]. split; [done |]. intros _ _ _. simpl. lia. }
  assert (forall e : clientErr, exists done_ rest blocks, ch :: chunks = done_ ++ rest /\ Forall2 (verified blake3) done_ blocks /\
    out = out ++ concat blocks /\ (forall n, Err e = Ok n -> rest = [] /\ (Forall (fun b => Z.of_nat (length b) < 2 ^ 32) blocks ->
      0 <= running -> running + Z.of_nat (length (concat blocks)) < 2 ^ 64 -> n = running + Z.of_nat (length (concat blocks))))) as Hfail.
  { intros e. exists [], (ch :: chunks), []. split; [done |]. split; [constructor |]. split; [by rewrite app_nil_r | done]. }
  destruct (Z.eqb_spec (WOffset ch) running); cbn [negb]; [| intros [= <- <- <-]; apply Hfail].
  destruct (client_call _ _ s) as [[rs|] s1]; [| intros [= <- <- <-]; apply Hfail].
  destruct rs as [| | | | | | | |bytes| | | | |]; try (intros [= <- <- <-]; apply Hfail).
  destruct (Z.eqb_spec (u32 (Z.of_nat (length bytes))) (WLen ch)) as [Hl|]; cbn [negb]; [| intros [= <- <- <-]; apply Hfail].
  case_bool_decide as Hh; cbn [negb]; [| intros [= <- <- <-]; apply Hfail].
  destruct (wok bytes); cbn [negb]; [| intros [= <- <- <-]; apply Hfail].
  intros (dn & rest & bs & -> & Hv & -> & Hn)%IH. exists (ch :: dn), rest, (bytes :: bs).
  cbn [concat]. rewrite <- app_assoc. split; [done |]. split; [by constructor |]. split; [done |].
  intros n [-> Hr]%Hn. split; [done |]. intros [Hb Hbs]%Forall_cons H0. rewrite length_app, Nat2Z.inj_add. intros Hlt.
  rewrite <- Hl, u32_small in Hr by lia. unfold u64 in Hr. rewrite Z.mod_small in Hr by lia. rewrite Hr; [lia | done | lia | lia].
Qed.

Lemma same_blocks blake3 chunks blocks original :
  Forall2 (verified blake3) chunks blocks -> Forall2 (fun ch b => blake3 b = WHash ch) chunks original ->
  (forall x y, x ∈ blocks -> y ∈ original -> blake3 x = blake3 y -> x = y) -> blocks = original.
Proof.
  intros Hv. revert original. induction Hv as [|ch b chunks blocks [Hb _] _ IH]; intros original Ho Hinj.
  { by inversion Ho. }
  inversion Ho as [|? o ? original' Ho1 Ho2]; subst. f_equal.
  - apply Hinj; [by left | by left |]. congruence.
  - apply IH; [done |]. intros x y Hx Hy. apply Hinj; by right.
Qed.

(** C18: A download hands out nothing that the manifest does not vouch for, whatever
    the server sends.  Every byte that reaches the writer, also when the download then
    fails, belongs to a block with the hash and the length of the manifest's next
    chunk, in order.  When it succeeds all chunks were delivered, the size reported is
    the number of bytes, for blocks that a frame can carry; and if the manifest lists
    the hashes of a file's chunks, then without a collision among these blocks the
    bytes are the file. *)
Theorem download_integrity blake3 wok path s r out s' :
  Download peer blake3 wok path s = (r, out, s') ->
  (exists e, r = Err e /\ out = []) \/
  exists version size mode mtime chunks s1 done_ rest blocks,
    client_call peer (RqManifestGet (scope s.1 path)) s = (Ok (RsManifestGet version size mode mtime chunks), s1) /\
    chunks = done_ ++ rest /\ Forall2 (verified blake3) done_ blocks /\ out = concat blocks /\
    forall info, r = Ok info ->
      info = mkInfo path size mode mtime version /\ rest = [] /\
      (Forall (fun b => Z.of_nat (length b) <= MaxPayloadLen) blocks -> Z.of_nat (length out) < 2 ^ 64 ->
       size = Z.of_nat (length out)) /\
      forall original, Forall2 (fun ch b => blake3 b = WHash ch) chunks original ->
        (forall x y, x ∈ blocks -> y ∈ original -> blake3 x = blake3 y -> x = y) -> out = concat original.
Proof.
  unfold Download. destruct (client_call peer _ s) as [[rs|e] s1] eqn:Hc; [| intros [= <- <- <-]; left; eauto].
  destruct rs as [| |version size mode mtime chunks| | | | | | | | | | |]; try (intros [= <- <- <-]; left; eauto).
  destruct (downloadChunks _ _ _ _ _ _ _) as [[[n|e] out'] s2] eqn:Hd; intros [= <- <- <-]; right;
    apply downloadChunks_verified in Hd as (dn & rest & bs & -> & Hv & -> & Hn);
    exists version, size, mode, mtime, (dn ++ rest), s1, dn, rest, bs; do 4 (split; [done |]); [| by intros ? [=]].
  intros info. destruct (Z.eqb_spec n size) as [->|]; [| done]. cbn [negb]. intros [= <-].
  destruct (Hn _ eq_refl) as [-> Hsz]. split; [done |]. split; [done |]. cbn [app]. split.
  - intros Hmax Hlt. rewrite Hsz; [lia | | done | lia]. eapply Forall_impl; [exact Hmax |].
    intros b. simpl. unfold MaxPayloadLen. lia.
  - intros original Ho Hinj. rewrite app_nil_r in Ho. f_equal. by eapply same_blocks.
Qed.
End any_peer.

(** ** The path scope *)

Lemma scope_abspath c p :
  good_seg (cl_agentID c) -> exists segs, Forall good_seg segs /\ scope c p = abspath (cl_agentID c :: segs).
Proof.
  intros Hg. destruct (Clean_canonical (slash :: TrimPrefix p [slash]) eq_refl) as (segs & Hs & E).
  exists segs. split; [done |]. unfold scope. rewrite E.
  rewrite decide_False by apply Hg. change (abspath (cl_agentID c :: segs)) with (mkpath (cl_agentID c :: segs)). rewrite mkpath_cons.
  destruct segs as [|s segs]; [by rewrite decide_True, app_nil_r |].
  rewrite decide_False; [done |]. intros E2. apply (abspath_inj (s :: segs) []) in E2; [done | done | constructor].
Qed.

Lemma scope_inj c p q :
  cl_agentID c <> [] -> scope c q = scope c p -> Clean (slash :: TrimPrefix q [slash]) = Clean (slash :: TrimPrefix p [slash]).
Proof.
  intros Ha. unfold scope. rewrite !(decide_False (P := cl_agentID c = [])) by done.
  destruct (Clean_canonical (slash :: TrimPrefix q [slash]) eq_refl) as (sq & Hq & ->).
  destruct (Clean_canonical (slash :: TrimPrefix p [slash]) eq_refl) as (sp & Hp & ->).
  repeat case_decide; intros E; try congruence; injection E as E'.
  - apply (f_equal length) in E'. rewrite length_app in E'. destruct sp as [|[|? ?] ?]; simpl in E'; lia.
  - apply (f_equal length) in E'. rewrite length_app in E'. destruct sq as [|[|? ?] ?]; simpl in E'; lia.
  - by apply app_inv_head in E'.
Qed.

Lemma Clean_double_slash p : rooted p = true -> Clean (slash :: p) = Clean p.
Proof.
  intros Hr. destruct p as [|c p]; [done |]. unfold Clean. rewrite Hr.
  change (rooted (slash :: c :: p)) with true.
  enough (clean_segs true (split_slash (slash :: c :: p)) = clean_segs true (split_slash (c :: p))) as -> by done.
  unfold clean_segs. change (split_slash (slash :: c :: p)) with ([] :: split_slash (c :: p)). done.
Qed.

Lemma scope_allowed c p ident :
  good_seg (cl_agentID c) -> id_ScopedAgentID ident = cl_agentID c -> checkAgentPath ident (scope c p) = None.
Proof.
  intros Hg Hi. destruct (scope_abspath c p Hg) as (segs & Hs & ->). unfold checkAgentPath. rewrite Hi.
  rewrite decide_False by apply Hg. rewrite Clean_double_slash, Clean_abspath by (apply rooted_abspath || by constructor).
  change (abspath (cl_agentID c :: segs)) with (mkpath (cl_agentID c :: segs)). rewrite mkpath_cons, (decide_True _ _ (eq_refl slash)), decide_False by tauto.
  destruct segs as [|s segs]; unfold in_subtree.
  - by rewrite app_nil_r, bool_decide_true.
  - rewrite mkpath_cons. rewrite orb_comm. unfold HasPrefix. rewrite bool_decide_true; [done |].
    exists (s ++ mkpath segs). by rewrite <- app_comm_cons, <- !app_assoc.
Qed.

Lemma trim_plain l p : l <> [] -> slash ∉ p -> p <> [] -> slash ∉ l -> trim_slashes (slash :: l ++ slash :: p) = l ++ slash :: p.
Proof.
  intros Hl Hp Hp0 Hls. unfold trim_slashes.
  assert (trim_right_slash (slash :: l ++ slash :: p) = slash :: l ++ slash :: p) as ->.
  { destruct (exists_last Hp0) as (q & x & ->). unfold trim_right_slash.
    replace (slash :: l ++ slash :: q ++ [x]) with ((slash :: l ++ slash :: q) ++ [x]) by (simpl; by rewrite <- app_assoc).
    rewrite reverse_app. simpl. rewrite decide_False; [| intros ->; apply Hp; set_solver].
    rewrite reverse_cons, reverse_involutive. simpl. by rewrite <- app_assoc. }
  destruct l as [|x l]; [done |]. simpl. rewrite decide_False; [done |]. intros ->. apply Hls. by left.
Qed.

(** The agent that the client finds in a certificate of the authority. *)
Lemma agent_of_leaf td t a leaf :
  slash ∉ t -> t <> [] -> slash ∉ a -> a <> [] ->
  c_URIs leaf = [spiffeURL td (str "/tenant/" ++ t); spiffeURL td (str "/agent/" ++ a)] ->
  agentIDFromCertDER (Some leaf) = a.
Proof.
  intros Ht Ht0 Ha Ha0 Hu.
  assert (slash ∉ str "tenant" /\ slash ∉ str "agent") as [Kt Ka] by (split; apply (bool_decide_unpack _); vm_compute; exact I).
  assert (forall l p, slash ∉ l -> l <> [] -> slash ∉ p -> p <> [] ->
    split_slash (trim_slashes (slash :: l ++ slash :: p)) = [l; p]) as Hs.
  { intros. by rewrite trim_plain, split_slash_app, split_slash_plain. }
  simpl. rewrite Hu. cbn [u_Path spiffeURL].
  change (str "/tenant/" ++ t) with (slash :: str "tenant" ++ slash :: t).
  change (str "/agent/" ++ a) with (slash :: str "agent" ++ slash :: a).
  rewrite !Hs by done. cbn [agentSegment]. rewrite (decide_False (P := str "tenant" = _ /\ _)) by (intros [? _]; done).
  by rewrite decide_True.
Qed.

(** The client asks only for what its certificate is for.  For a certificate that
    the authority minted for an agent, the client takes the same agent from it as the
    server does, and every path, with whatever dots and slashes, becomes a path in
    that agent's directory that the server's subtree check admits; two paths become
    the same one only if [path.Clean] makes them equal. *)
Theorem client_keeps_scope fr t u a ttl ca leaf chain ca' c ident p :
  MintAgentCert fr t u a ttl ca = (Ok (leaf, chain), ca') -> slash ∉ t -> good_seg a ->
  cl_agentID c = agentIDFromCertDER (Some leaf) ->
  id_ScopedAgentID ident = certScopedAgentID leaf (ca_TrustDomain ca) ->
  cl_agentID c = a /\ id_ScopedAgentID ident = a /\ checkAgentPath ident (scope c p) = None /\
  (exists segs, Forall good_seg segs /\ scope c p = abspath (a :: segs)) /\
  forall q, scope c q = scope c p -> Clean (slash :: TrimPrefix q [slash]) = Clean (slash :: TrimPrefix p [slash]).
Proof.
  intros Hm Ht Hg Hc Hi. unfold MintAgentCert in Hm. case_decide as Ht0; [done |]. destruct (ttl <=? 0); [done |].
  destruct (ca_tenants ca !! t) as [x|]; [| done]. rewrite decide_False in Hm by apply Hg.
  unfold signLeafCert, CreateCertificate in Hm. case_decide; [| done]. injection Hm as <- _ _.
  set (leaf := signed _ _ _ _) in *.
  assert (cl_agentID c = a) as Ea by (rewrite Hc; by eapply (agent_of_leaf (ca_TrustDomain ca) t); try apply Hg).
  destruct (leaf_identity (ca_TrustDomain ca) t a leaf) as [_ E2]; [done | done | apply Hg | apply Hg | done |].
  rewrite E2 in Hi. split; [done |]. split; [done |]. rewrite <- Ea in Hg.
  split; [apply scope_allowed; congruence |]. split; [rewrite <- Ea; by apply scope_abspath |].
  intros q. apply scope_inj. apply Hg.
Qed.
