(* ===== verification/ClientProps.v ===== *)
(** * The data client: what its users may rely on

    A client keeps to its agent's subtree, stays in step with the frames of its
    connection or closes it, returns only data that carries the hashes the manifest
    names, and reads back through the server what it wrote through the server. *)

From S2P Require Import Prelude GoPath Codec TenantDB Journal Manifests FileSpec Refine Lease ManifestProps ChunkStore Handlers DiskProps HandlerProps Cdc Seed MsgGuard Certs Ca CaProps Client ClientSafe.

(** ** Waiting for the answer *)

Lemma awaitReply_skip n rid fs f rest :
  Forall (fun g => wf_frame g /\ RID g <> rid) fs -> wf_frame f -> RID f = rid -> (length fs < n)%nat ->
  awaitReply n rid (concat (frame_bytes <$> fs) ++ frame_bytes f ++ rest) = Some (f, rest).
Proof.
  intros Hfs Hf Hr. revert n. induction Hfs as [|g fs [Hg Hne] _ IH]; intros [|n] Hn; simpl in Hn; try lia;
    cbn [awaitReply fmap list_fmap concat app].
  - rewrite ReadFrame_frame_bytes by done. by rewrite Hr, Z.eqb_refl.
  - rewrite <- (app_assoc (frame_bytes g)), ReadFrame_frame_bytes by done. rewrite (proj2 (Z.eqb_neq _ _)) by done. apply IH. lia.
Qed.

Lemma write_frames_ok fs :
  Forall wf_frame fs -> write_frames fs = (concat (frame_bytes <$> fs), true).
Proof.
  induction 1 as [|f fs Hf _ IH]; [done |]. simpl. rewrite WriteFrame_ok by apply Hf. by rewrite IH.
Qed.

Lemma frames_length fs : (length fs <= length (concat (frame_bytes <$> fs)))%nat.
Proof.
  induction fs as [|f fs IH]; [done |]. cbn [fmap list_fmap concat length]. rewrite length_app. simpl. lia.
Qed.

(** ** One request through the server *)

Section plane.
Context {MP : MsgPack} {W : Wire} {WL : WireLaws W} {D : Decoder} (blake3 : blob -> hash) (permits : gostr -> bool).
Context (order : list (gostr * list chunkBatchItem) -> list (gostr * list chunkBatchItem)).
Context (ident : Identity) (connID : Z) (moments : Z -> moment).
Hypothesis hash_wf : forall x, wf_hash (blake3 x).

Abbreviation server_peer := (dataPlane blake3 permits order ident connID moments).
Abbreviation handled mo := (handleRequest blake3 permits order (mo_now mo) (mo_nowSec mo) (mo_nowNs mo) (mo_env mo) ident connID).

(** A request and an answer that a frame carries and the guard lets through. *)
Definition fits_rq (rq : request) : Prop :=
  exists b, marshalRequest rq = Some b /\ Z.of_nat (length b) <= MaxPayloadLen /\ guardMsgpackLimits b = true.
Definition fits_rs (r : response) : Prop :=
  exists b, marshalResponse r = Some b /\ Z.of_nat (length b) <= MaxPayloadLen.

(** Pushed frames have numbers of their own. *)
Definition pushes_ok : Prop := forall i, Forall (fun f => wf_frame f /\ 2 ^ 63 <= RID f) (mo_pushed (moments i)).

(** A client in step with its connection, with [k] requests to go. *)
Definition healthy (k : Z) (c : Client) : Prop :=
  cl_closed c = false /\ cl_in c = [] /\ 0 <= cl_ridSeq c /\ cl_ridSeq c + k < 2 ^ 63.

Definition next (c : Client) : Client := set_conn (cl_ridSeq c + 1) false [] c.

Lemma table_op_valid op : op ∈ OpTable -> op_valid op = true.
Proof.
  intros Hop. unfold op_valid. apply bool_decide_eq_true. revert op Hop. apply Forall_forall.
  apply (bool_decide_unpack _). vm_compute. exact I.
Qed.

(** The operations that the read loop takes out before the table. *)
Lemma table_op_dispatch op :
  op ∈ OpTable ->
  (op =? OpPing) = false /\ (op =? OpClose) = false /\
  bool_decide (op ∈ [OpLeaseGrant; OpLeaseRefresh; OpLeaseRelease; OpChangesSubscribe]) = false.
Proof.
  revert op. apply Forall_forall. repeat constructor.
Qed.

(** The frame that answers a request. *)
Definition reply_of (op rid : Z) (r : result ErrorPayload response) : Frame :=
  match r with Ok rs => sendResp op rid rs | Err e => writeFrameError op rid e end.

Lemma call_replied k rq c s r s' :
  pushes_ok -> healthy (k + 1) c -> 0 <= k -> fits_rq rq -> opOf rq ∈ OpTable ->
  handled (moments (cl_ridSeq c + 1)) rq s = (r, s') ->
  let g := reply_of (opOf rq) (cl_ridSeq c + 1) r in
  wf_frame g -> RID g = cl_ridSeq c + 1 ->
  client_call server_peer rq (c, mkPlane s true true) = (decodeReply (opOf rq) g, (next c, mkPlane s' true true)) /\
  healthy k (next c).
Proof using WL.
  intros Hp (Hcl & Hin & Hrid & Hk) Hk0 (b & Hm & Hlen & Hg) Hop Hh g Hwg Hrg.
  split; [| unfold healthy, next; simpl; repeat split; lia].
  unfold client_call. rewrite Hm, Hcl, Hin. set (rid := cl_ridSeq c + 1) in *.
  assert (u64 rid = rid) as -> by (unfold u64; apply Z.mod_small; lia).
  set (f := mkFrame (opOf rq) 0 rid b).
  assert (wf_frame f) as Hf.
  { unfold f, wf_frame, is_byte. simpl. split; [by apply table_op_valid |]. lia. }
  rewrite (WriteFrame_ok f) by apply Hf.
  assert (dataPlane blake3 permits order ident connID moments (frame_bytes f) (mkPlane s true true) =
    (Some (concat (frame_bytes <$> mo_pushed (moments rid)) ++ frame_bytes g ++ []), mkPlane s' true true)) as ->.
  { unfold dataPlane. cbn [pl_open pl_server pl_writing negb].
    rewrite <- (app_nil_r (frame_bytes f)), ReadFrame_frame_bytes by done. cbn [RID f].
    destruct (table_op_dispatch _ Hop) as (E1 & E2 & E3). unfold serveFrame. cbn [Op Payload RID f].
    rewrite E1, E2, E3, bool_decide_true by done. unfold decodeReq. rewrite Hg, (request_roundtrip rq b Hm).
    change (default Malformed (Some rq)) with rq. rewrite Hh. fold (reply_of (opOf rq) rid r). fold g.
    rewrite write_frames_ok, fmap_app, concat_app; [done |]. apply Forall_app. split; [| by constructor].
    eapply Forall_impl; [apply Hp |]. by intros ? [? _]. }
  cbn [app]. rewrite (awaitReply_skip _ rid (mo_pushed (moments rid)) g []); [done | | done | done |].
  - eapply Forall_impl; [apply Hp |]. intros x [? ?]. split; [done | lia].
  - rewrite length_app. pose proof (frames_length (mo_pushed (moments rid))). lia.
Qed.

Lemma call_answered k rq c s rs s' :
  pushes_ok -> healthy (k + 1) c -> 0 <= k -> fits_rq rq -> opOf rq ∈ OpTable ->
  handled (moments (cl_ridSeq c + 1)) rq s = (Ok rs, s') -> answers (opOf rq) rs -> fits_rs rs ->
  client_call server_peer rq (c, mkPlane s true true) = (Ok rs, (next c, mkPlane s' true true)) /\ healthy k (next c).
Proof using WL.
  intros Hp Hc Hk Hrq Hop Hh Ha (b & Hm & Hl). pose proof Hc as (_ & _ & ? & ?).
  assert (reply_of (opOf rq) (cl_ridSeq c + 1) (Ok rs) = mkFrame (opOf rq) FlagResponse (cl_ridSeq c + 1) b) as E.
  { simpl. unfold sendResp. by rewrite Hm. }
  destruct (call_replied k rq c s (Ok rs) s') as [-> ?]; try done; [rewrite E | by rewrite E |].
  - unfold wf_frame, is_byte, FlagResponse. simpl. split; [by apply table_op_valid |]. lia.
  - rewrite E. split; [| done]. unfold decodeReply. simpl. by rewrite (response_roundtrip _ _ _ Ha Hm).
Qed.

Definition fits_err (e : ErrorPayload) : Prop :=
  exists b, marshalError e = Some b /\ Z.of_nat (length b) <= MaxPayloadLen.

Lemma call_refused k rq c s e s' :
  pushes_ok -> healthy (k + 1) c -> 0 <= k -> fits_rq rq -> opOf rq ∈ OpTable ->
  handled (moments (cl_ridSeq c + 1)) rq s = (Err e, s') -> fits_err e ->
  client_call server_peer rq (c, mkPlane s true true) = (Err (errorFromPayload e), (next c, mkPlane s' true true)) /\
  healthy k (next c).
Proof using WL.
  intros Hp Hc Hk Hrq Hop Hh (b & Hm & Hl). pose proof Hc as (_ & _ & ? & ?).
  assert (reply_of (opOf rq) (cl_ridSeq c + 1) (Err e) = mkFrame (opOf rq) 3 (cl_ridSeq c + 1) b) as E.
  { simpl. unfold writeFrameError. by rewrite Hm. }
  destruct (call_replied k rq c s (Err e) s') as [-> ?]; try done; [rewrite E |].
  - unfold wf_frame, is_byte. simpl. split; [by apply table_op_valid |]. lia.
  - rewrite E. split; [| done]. unfold decodeReply. simpl. by rewrite (error_roundtrip _ _ Hm).
Qed.

(** ** The pieces of an upload *)

(** What the upload loop cuts: all pieces but the last have [n] bytes. *)
Fixpoint pieces (fuel n : nat) (off : Z) (rest : blob) : list Chunk :=
  match fuel, rest with
  | _, [] | O, _ => []
  | S fuel', _ =>
      mkChunk (blake3 (take n rest)) off (Z.of_nat (length (take n rest))) (take n rest)
        :: pieces fuel' n (off + Z.of_nat n) (drop n rest)
  end.

Lemma pieces_concat fuel n off rest :
  (0 < n)%nat -> (length rest <= fuel)%nat -> concat (ck_Bytes <$> pieces fuel n off rest) = rest.
Proof using Type.
  intros Hn. revert off rest. induction fuel as [|fuel IH]; intros off [|b rest] Hl; try done; [simpl in Hl; lia |].
  cbn [pieces fmap list_fmap concat ck_Bytes]. rewrite IH; [by rewrite take_drop |].
  rewrite length_drop. simpl in *. lia.
Qed.

Lemma pieces_contiguous fuel n off rest :
  (0 < n)%nat -> contiguous blake3 off (pieces fuel n off rest).
Proof using Type.
  intros Hn. revert off rest. induction fuel as [|fuel IH]; intros off [|b rest]; try done.
  cbn [pieces contiguous ck_Offset ck_Len ck_Hash ck_Bytes]. split; [done |]. split; [done |]. split; [done |].
  destruct (decide (n <= length (b :: rest))%nat) as [Hle|Hgt].
  - rewrite length_take_le by done. apply IH.
  - rewrite drop_ge by lia. by destruct fuel.
Qed.

Lemma pieces_sizes fuel n off rest c : c ∈ pieces fuel n off rest -> ck_Len c = Z.of_nat (length (ck_Bytes c)) /\ (length (ck_Bytes c) <= n)%nat.
Proof using Type.
  revert off rest. induction fuel as [|fuel IH]; intros off [|b rest]; try by intros ?%not_elem_of_nil.
  cbn [pieces]. intros [->|Hin]%elem_of_cons; [| by eapply IH]. cbn [ck_Len ck_Bytes]. split; [done |].
  rewrite length_take. lia.
Qed.

Lemma length_pieces fuel n off rest : (length (pieces fuel n off rest) <= fuel)%nat.
Proof using Type.
  revert off rest. induction fuel as [|fuel IH]; intros off [|b rest]; simpl; try lia. apply le_n_S, IH.
Qed.

(** The chunk list of the manifest, on the wire and in the store. *)
Definition wire_of (c : Chunk) : WireChunkRef := mkWireChunkRef (ck_Hash c) (ck_Offset c) (ck_Len c).

Lemma to_wire cs : toWireChunks (toManifestRefs cs) = wire_of <$> cs.
Proof using Type. unfold toWireChunks, toManifestRefs. by rewrite <- list_fmap_compose. Qed.

Lemma from_wire cs :
  Forall (fun c => ck_Hash c = blake3 (ck_Bytes c)) cs -> fromWireChunks (wire_of <$> cs) = toManifestRefs cs.
Proof using hash_wf.
  intros Hf. unfold fromWireChunks, toManifestRefs. rewrite <- list_fmap_compose.
  apply list_fmap_ext. intros i c Hc. simpl. rewrite decide_True; [done |].
  rewrite Forall_lookup in Hf. rewrite (Hf i c Hc). apply hash_wf.
Qed.

(** ** Uploading *)

(** The requests find a server that yields, has room and takes the writes. *)
Definition calm : Prop := forall i, exists eo, mo_env (moments i) = mkEnv Yielded None WriteDone eo.

(** Chunk rows aside, the server is as before; chunks are only added. *)
Record uploaded (s s' : server) : Prop := {
  up_db : exists ch, sv_db s' = TenantDB.set_chunks ch (sv_db s);
  up_inv a : Inv (sv_db s) a -> Inv (sv_db s') a;
  up_closed : sv_closed s' = sv_closed s;
  up_files k x : files (sv_chunks s) !! k = Some x -> files (sv_chunks s') !! k = Some x }.

Lemma uploaded_refl s : uploaded s s.
Proof using Type.
  split; try done. exists (chunks (sv_db s)). by destruct (sv_db s).
Qed.

Lemma uploaded_trans s1 s2 s3 : uploaded s1 s2 -> uploaded s2 s3 -> uploaded s1 s3.
Proof using Type.
  intros [[c1 E1] I1 C1 F1] [[c2 E2] I2 C2 F2]. split; [exists c2; by rewrite E2, E1 | auto | congruence | auto].
Qed.

Lemma put_handled i c s :
  calm -> ck_Hash c = blake3 (ck_Bytes c) -> Z.of_nat (length (ck_Bytes c)) <= maxChunkBytes -> sv_closed s = false ->
  (forall x, files (sv_chunks s) !! pathOf (ck_Hash c) = Some x -> x = ck_Bytes c) ->
  exists b s', handled (moments i) (RqChunkPut (ck_Hash c) (ck_Bytes c)) s = (Ok (RsChunkPut b), s') /\
    uploaded s s' /\ holds_chunk (sv_chunks s') c /\
    (forall k, k <> pathOf (ck_Hash c) -> files (sv_chunks s') !! k = files (sv_chunks s) !! k).
Proof using hash_wf.
  intros Hcalm Hh Hl Hcl Hs. destruct (Hcalm i) as (eo & Ev).
  destruct (putUnlocked_done blake3 hash_wf c (sv_chunks s) Hh Hs) as (b & cs & Ep & Hold & Hne & Hk).
  cbn [handleRequest]. rewrite Ev. cbn [ev_cap ev_write ev_errno]. unfold handleChunkPut.
  rewrite (proj2 (Z.ltb_ge _ _)) by done. rewrite Hcl, Ep. eexists _, _. split; [done |].
  split; [| by split]. split; cbn [sv_db sv_closed sv_chunks sv_store]; [| | done | done].
  - unfold sv_db, NoteChunkStored, initChunkTx, modify. cbn [sv_store st_db set_db].
    destruct (chunks (st_db (sv_store s)) !! ck_Hash c); [| by eexists].
    exists (chunks (st_db (sv_store s))). by destruct (st_db (sv_store s)).
  - intros a I. by eapply NoteChunkStored_refines.
Qed.

Lemma no_collision_tail c cs st st' :
  no_collision blake3 (c :: cs) st -> holds_chunk st' c ->
  (forall k, k <> pathOf (ck_Hash c) -> files st' !! k = files st !! k) -> no_collision blake3 cs st'.
Proof using Type.
  intros Hn Hold Hne c' Hc'. split; [| intros c'' Hc''; apply (Hn c'); by right].
  intros x Hx. destruct (decide (pathOf (ck_Hash c') = pathOf (ck_Hash c))) as [E|E].
  - rewrite E in Hx. unfold holds_chunk in Hold. rewrite Hx in Hold. injection Hold as ->.
    symmetry. apply (Hn c); [by left | by right | done].
  - rewrite Hne in Hx by done. apply (Hn c'); [by right | done].
Qed.

Definition same_client (c c' : Client) : Prop := exists r, c' = set_conn r false [] c.

Lemma upload_done fuel n off rest k c s :
  let cs := pieces fuel n off rest in
  pushes_ok -> calm -> healthy (k + Z.of_nat (length cs)) c -> 0 <= k ->
  (0 < n)%nat -> Z.of_nat n <= maxChunkBytes -> sv_closed s = false -> (length rest <= fuel)%nat ->
  0 <= off -> (rest <> [] -> off + Z.of_nat (length rest) < 2 ^ 63) -> no_collision blake3 cs (sv_chunks s) ->
  Forall (fun ck => fits_rq (RqChunkPut (ck_Hash ck) (ck_Bytes ck))) cs -> (forall b, fits_rs (RsChunkPut b)) ->
  exists c' s', uploadChunks server_peer blake3 fuel (Z.of_nat n) off rest (c, mkPlane s true true) =
      (Ok (wire_of <$> cs), (c', mkPlane s' true true)) /\
    healthy k c' /\ same_client c c' /\ uploaded s s' /\ Forall (holds_chunk (sv_chunks s')) cs.
Proof using WL hash_wf.
  intros cs Hp Hcalm Hh Hk Hn Hmax Hcl Hlen Ho Hb Hnc Hfit Hrs. subst cs.
  revert off rest c s Hh Hcl Hlen Ho Hb Hnc Hfit.
  assert (forall c s, healthy k c -> exists c' s',
    (Ok [] : result clientErr (list WireChunkRef), (c, mkPlane s true true)) = (Ok [], (c', mkPlane s' true true)) /\
    healthy k c' /\ same_client c c' /\ uploaded s s' /\ Forall (holds_chunk (sv_chunks s')) []) as Hnil.
  { intros c s Hh. exists c, s. split; [done |]. split; [done |]. split; [| split; [apply uploaded_refl | done]].
    exists (cl_ridSeq c). destruct Hh as (? & ? & _), c; simpl in *; by subst. }
  induction fuel as [|fuel IH]; intros off [|b rest] c s Hh Hcl Hlen Ho Hb Hnc Hfit.
  - simpl in *. rewrite Z.add_0_r in Hh. by apply Hnil.
  - simpl in Hlen. lia.
  - simpl in *. rewrite Z.add_0_r in Hh. by apply Hnil.
  - cbn [pieces] in *. set (ck := mkChunk _ _ _ _) in *. set (tl := pieces fuel n _ _) in *.
    apply Forall_cons in Hfit as [Hf1 Hfit].
    assert ((length (take n (b :: rest)) <= n)%nat /\ (0 < length (take n (b :: rest)))%nat) as [Hl1 Hl0].
    { rewrite length_take. simpl. lia. }
    destruct (put_handled (cl_ridSeq c + 1) ck s Hcalm) as (bo & s1 & Eh & U1 & Hold & Hne); [done | simpl ck_Bytes; lia | done | |].
    { apply (Hnc ck). by left. }
    destruct (call_answered (k + Z.of_nat (length tl)) (RqChunkPut (ck_Hash ck) (ck_Bytes ck)) c s (RsChunkPut bo) s1) as [Ec Hh1];
      [done | cbn [length] in Hh; rewrite Nat2Z.inj_succ in Hh; by replace (k + Z.of_nat (length tl) + 1)
         with (k + Z.succ (Z.of_nat (length tl))) by lia | lia | done | | exact Eh | done | apply Hrs |].
    { unfold OpTable. simpl. set_solver. }
    destruct (IH (off + Z.of_nat n) (drop n (b :: rest)) (next c) s1) as (c' & s' & Eu & Hh' & (r & Hsc) & U2 & Hall);
      [exact Hh1 | by rewrite (up_closed _ _ U1) | rewrite length_drop; simpl in *; lia | lia
       | | by eapply no_collision_tail | done |].
    { intros Hd. specialize (Hb ltac:(done)). rewrite length_drop. destruct (decide (n < length (b :: rest))%nat) as [|Hge]; [lia |].
      destruct Hd. apply drop_ge. lia. }
    exists c', s'. split; [| split; [done |]; split; [exists r; by rewrite Hsc |]; split; [by eapply uploaded_trans |];
      constructor; [by eapply (up_files _ _ U2) | done]].
    cbn [uploadChunks]. rewrite Nat2Z.id. unfold mbind, cl_bind.
    change (blake3 (take n (b :: rest))) with (ck_Hash ck). change (take n (b :: rest)) with (ck_Bytes ck) at 1.
    rewrite Ec, Eu. cbn [fmap list_fmap]. unfold mret, cl_ret, wire_of at 1. cbn [ck ck_Hash ck_Offset ck_Len].
    rewrite u32_small by (unfold maxChunkBytes in *; lia). unfold u64. rewrite Z.mod_small; [done |].
    specialize (Hb ltac:(done)). lia.
Qed.

(** ** Committing the manifest *)

(** The request that ends a write without a mount session. *)
Definition put_request (p : gostr) (v size mode mtime : Z) (cs : list Chunk) : ManifestPutRequest :=
  mkPutReq p v size mode mtime (wire_of <$> cs) None None.

Lemma put_manifest_handled i p v mode mtime (data : blob) cs s a :
  calm -> authorizePath permits ident p = None -> Inv (sv_db s) a ->
  Forall (fun ck => ck_Hash ck = blake3 (ck_Bytes ck)) cs -> Forall (holds_chunk (sv_chunks s)) cs ->
  Forall wf_ref (toManifestRefs cs) -> parent_ok p (sv_db s) = true -> version_at p (sv_db s) = v ->
  (v = 0 -> manifests (sv_db s) !! p = None) -> Z.of_nat (length data) < 2 ^ 63 -> 0 <= v < 2 ^ 63 - 1 ->
  exists s' m, handled (moments i) (RqManifestPut (put_request p v (Z.of_nat (length data)) mode mtime cs)) s =
      (Ok (RsManifestPut (v + 1)), s') /\ sv_chunks s' = sv_chunks s /\
    Get p (sv_db s') = Ok m /\ mf_Size m = Z.of_nat (length data) /\ mf_Mode m = mode /\ mf_Mtime m = mtime /\
    mf_Version m = v + 1 /\ mf_Chunks m = toManifestRefs cs.
Proof using hash_wf.
  intros Hcalm Hauth I Hh Hold Hwf Hpar Hv Hnew Hsz Hb. destruct (Hcalm i) as (eo & Ev).
  cbn [handleRequest]. rewrite Ev. cbn [ev_yield]. set (r := put_request _ _ _ _ _ _).
  rewrite (handleManifestPut_run blake3 permits (mo_now (moments i)) (mo_nowNs (moments i)) ident connID r s []
    (sv_leases s) (sv_mountLeases s)) by done.
  set (mf := put_manifest r).
  assert (mf_Chunks mf = toManifestRefs cs) as Hmc by (by apply from_wire).
  destruct (Put_run (mo_now (moments i)) p v mf [] [] (id_AgentID ident) (manifests_of s) a) as (e & rev & d' & _ & HP); try done.
  { by left. }
  { rewrite Hmc. apply bool_decide_eq_true. by eapply chunks_present. }
  change (pr_Path r) with p. change (pr_VersionExpected r) with v. cbn [r put_request pr_SessionID pr_AllocationID derefSession default].
  change (derefSession None) with (@nil ascii). rewrite HP.
  destruct (Get_written (mo_now (moments i)) p v mf [] [] (id_AgentID ident) (manifests_of s) a _ _ p I
    ltac:(by rewrite Hmc) HP) as (m & Hm & Hsize & Hmode & Hmt & Hver & Hch); [by left |].
  eexists _, m. split; [done |]. split; [done |]. split; [exact Hm |]. rewrite Hch. by repeat split.
Qed.

(** ** Downloading *)

Definition wire_chunks_fit (cs : list Chunk) : Prop :=
  Forall (fun ck => fits_rq (RqChunkGet (ck_Hash ck)) /\ fits_rs (RsChunkGet (ck_Bytes ck))) cs.

Lemma download_done off cs k c s out :
  pushes_ok -> healthy (k + Z.of_nat (length cs)) c -> 0 <= k -> contiguous blake3 off cs -> 0 <= off ->
  off + Z.of_nat (length (concat (ck_Bytes <$> cs))) < 2 ^ 63 ->
  Forall (fun ck => ck_Len ck < 2 ^ 32) cs -> Forall (holds_chunk (sv_chunks s)) cs -> wire_chunks_fit cs ->
  exists c', downloadChunks server_peer blake3 (fun _ => true) (wire_of <$> cs) off out (c, mkPlane s true true) =
      (Ok (off + Z.of_nat (length (concat (ck_Bytes <$> cs)))), out ++ concat (ck_Bytes <$> cs), (c', mkPlane s true true)) /\
    healthy k c'.
Proof using WL hash_wf.
  intros Hp Hh Hk. revert off c out Hh. induction cs as [|ck cs IH]; intros off c out Hh Hc Ho Hb Hm Hold Hfit.
  { exists c. simpl in *. rewrite app_nil_r, !Z.add_0_r in *. done. }
  destruct Hc as (Hoff & Hlen & Hhash & Hc). apply Forall_cons in Hm as [Hm Hms], Hold as [Hold1 Hold], Hfit as [[Hf1 Hf2] Hfit].
  cbn [fmap list_fmap concat] in *. rewrite length_app in *.
  assert (handled (moments (cl_ridSeq c + 1)) (RqChunkGet (ck_Hash ck)) s = (Ok (RsChunkGet (ck_Bytes ck)), s)) as Eh.
  { cbn [handleRequest]. unfold handleChunkGet, chunkGet, Path. destruct (hash_wf (ck_Bytes ck)) as [Hl _].
    rewrite decide_False by (rewrite Hhash; tauto). rewrite decide_True by (by rewrite Hhash).
    unfold holds_chunk in Hold1. by rewrite Hold1. }
  destruct (call_answered (k + Z.of_nat (length cs)) (RqChunkGet (ck_Hash ck)) c s (RsChunkGet (ck_Bytes ck)) s) as [Ec Hh1];
    [done | cbn [length] in Hh; rewrite Nat2Z.inj_succ in Hh;
       by replace (k + Z.of_nat (length cs) + 1) with (k + Z.succ (Z.of_nat (length cs))) by lia
    | lia | done | unfold OpTable; simpl; set_solver | exact Eh | done | done |].
  destruct (IH (off + ck_Len ck) (next c) (out ++ ck_Bytes ck)) as (c' & Ed & Hh'); try done; try lia.
  exists c'. split; [| done]. cbn [fmap list_fmap downloadChunks wire_of WOffset WHash WLen].
  rewrite Hoff, Z.eqb_refl. cbn [negb]. rewrite Ec. rewrite u32_small by lia. rewrite Hlen, Z.eqb_refl. cbn [negb].
  rewrite bool_decide_true by done. cbn [negb]. rewrite Hlen in Ed. unfold u64. rewrite Z.mod_small by lia.
  rewrite Ed. by rewrite <- app_assoc, Nat2Z.inj_add, Z.add_assoc.
Qed.

Lemma healthy_le k k' c : healthy k c -> k' <= k -> healthy k' c.
Proof using Type. intros (? & ? & ? & ?) ?. repeat split; try done. lia. Qed.

(** Every message of the exchange fits into a frame and passes the guard. *)
Record exchange_fits (p : gostr) (v size mode mtime : Z) (cs : list Chunk) : Prop := {
  xf_puts : Forall (fun ck => fits_rq (RqChunkPut (ck_Hash ck) (ck_Bytes ck))) cs;
  xf_stored b : fits_rs (RsChunkPut b);
  xf_put : fits_rq (RqManifestPut (put_request p v size mode mtime cs));
  xf_version : fits_rs (RsManifestPut (v + 1));
  xf_get : fits_rq (RqManifestGet p);
  xf_manifest : fits_rs (RsManifestGet (v + 1) size mode mtime (wire_of <$> cs));
  xf_gets : wire_chunks_fit cs }.

Definition mode_of (opts : WriteOpts) : Z := if wo_Mode opts =? 0 then 0x1a4 else wo_Mode opts.
Definition mtime_of (nowSec : Z) (opts : WriteOpts) : Z := if wo_Mtime opts =? 0 then nowSec else wo_Mtime opts.

(** The chunks of a file of this client. *)
Definition chunks_of (c : Client) (data : blob) : list Chunk :=
  pieces (length data) (Z.to_nat (cl_chunkSize c)) 0 data.

Lemma chunks_of_ok c data :
  0 < cl_chunkSize c <= maxChunkBytes -> Z.of_nat (length data) < 2 ^ 63 ->
  let cs := chunks_of c data in
  concat (ck_Bytes <$> cs) = data /\ contiguous blake3 0 cs /\ Forall (fun ck => ck_Len ck < 2 ^ 32) cs /\
  Forall (fun ck => ck_Hash ck = blake3 (ck_Bytes ck)) cs /\ Forall wf_ref (toManifestRefs cs) /\
  (length cs <= length data)%nat.
Proof using hash_wf.
  intros Hn Hl cs. assert (concat (ck_Bytes <$> cs) = data) as Hcat by (apply pieces_concat; lia).
  assert (contiguous blake3 0 cs) as Hc by (apply pieces_contiguous; lia).
  assert (Forall (fun ck => ck_Len ck < 2 ^ 32) cs) as Hs.
  { apply Forall_forall. intros ck [-> ?]%pieces_sizes. unfold maxChunkBytes in *. lia. }
  destruct (contiguous_refs blake3 hash_wf 0 cs) as [? ?]; [done | lia | done | rewrite Hcat; lia |].
  repeat split; try done. apply length_pieces.
Qed.

(** A client without a mount session may write [data] to [path]: its agent is the one
    the server knows it by, the path is permitted, its parent exists, the server
    takes writes, and no chunk collides with another content. *)
Record writable (c : Client) (s : server) (path : gostr) (data : blob) : Prop := {
  wr_pushes : pushes_ok;
  wr_calm : calm;
  wr_agent : good_seg (cl_agentID c) /\ id_ScopedAgentID ident = cl_agentID c;
  wr_lease_free : cl_sessionID c = [] /\ cl_allocationID c = [];
  wr_chunkSize : 0 < cl_chunkSize c <= maxChunkBytes;
  wr_policy : permits (policyPath (scope c path)) = true;
  wr_open : sv_closed s = false;
  wr_tree : exists a, Inv (sv_db s) a;
  wr_parent : parent_ok (scope c path) (sv_db s) = true;
  wr_new : version_at (scope c path) (sv_db s) = 0 -> manifests (sv_db s) !! scope c path = None;
  wr_version : 0 <= version_at (scope c path) (sv_db s) < 2 ^ 63 - 1;
  wr_size : Z.of_nat (length data) < 2 ^ 63;
  wr_collide : no_collision blake3 (chunks_of c data) (sv_chunks s) }.

Lemma writable_authorized c s path data :
  writable c s path data -> authorizePath permits ident (scope c path) = None.
Proof using Type.
  intros []. unfold authorizePath. rewrite wr_policy0. by apply scope_allowed; apply wr_agent0.
Qed.

(** The upload of a writable file, and what it leaves as it was. *)
Lemma write_uploads k c s path data :
  writable c s path data -> 0 <= k -> healthy (Z.of_nat (length (chunks_of c data)) + k) c ->
  Forall (fun ck => fits_rq (RqChunkPut (ck_Hash ck) (ck_Bytes ck))) (chunks_of c data) -> (forall b, fits_rs (RsChunkPut b)) ->
  exists c1 s1, uploadChunks server_peer blake3 (length data) (cl_chunkSize c) 0 data (c, mkPlane s true true) =
      (Ok (wire_of <$> chunks_of c data), (c1, mkPlane s1 true true)) /\
    healthy k c1 /\ same_client c c1 /\ uploaded s s1 /\ Forall (holds_chunk (sv_chunks s1)) (chunks_of c data).
Proof using WL hash_wf.
  intros [] Hk Hh Hf Hr.
  destruct (upload_done (length data) (Z.to_nat (cl_chunkSize c)) 0 data k c s) as (c1 & s1 & Eu & Hrest); try done; try lia.
  { by rewrite Z.add_comm. }
  exists c1, s1. rewrite Z2Nat.id in Eu by lia. done.
Qed.

(** [WriteFile] after its upload. *)
Lemma WriteFile_commit c s path data v opts nowSec c1 s1 :
  cl_sessionID c = [] /\ cl_allocationID c = [] -> Z.of_nat (length data) < 2 ^ 63 ->
  uploadChunks server_peer blake3 (length data) (cl_chunkSize c) 0 data (c, mkPlane s true true) =
    (Ok (wire_of <$> chunks_of c data), (c1, mkPlane s1 true true)) ->
  WriteFile server_peer blake3 nowSec path data v opts (c, mkPlane s true true) =
  match client_call server_peer (RqManifestPut (put_request (scope c path) v (Z.of_nat (length data)) (mode_of opts)
          (mtime_of nowSec opts) (chunks_of c data))) (c1, mkPlane s1 true true) with
  | (Ok (RsManifestPut n), s') => (Ok n, s')
  | (Ok _, s') => (Err UnmarshalErr, s')
  | (Err e, s') => (Err e, s')
  end.
Proof using Type.
  intros [Hse Hal] Hsz Eu. unfold WriteFile, with_client, mbind, cl_bind. cbn [fst]. rewrite Eu.
  unfold u64. rewrite Z.mod_small by lia. unfold sess, alloc. rewrite Hse, Hal. change (optStr []) with (@None gostr).
  fold (mode_of opts) (mtime_of nowSec opts). unfold put_request. by destruct (client_call _ _ _) as [[[]|] ?].
Qed.

Lemma write_done k c s path data opts nowSec :
  let p := scope c path in
  let v := version_at p (sv_db s) in
  let cs := chunks_of c data in
  let size := Z.of_nat (length data) in
  writable c s path data -> 0 <= k -> healthy (Z.of_nat (length cs) + k + 1) c ->
  exchange_fits p v size (mode_of opts) (mtime_of nowSec opts) cs ->
  exists c1 s1 m,
    WriteFile server_peer blake3 nowSec path data v opts (c, mkPlane s true true) = (Ok (v + 1), (c1, mkPlane s1 true true)) /\
    healthy k c1 /\ same_client c c1 /\ Forall (holds_chunk (sv_chunks s1)) cs /\
    Get p (sv_db s1) = Ok m /\ mf_Size m = size /\ mf_Mode m = mode_of opts /\ mf_Mtime m = mtime_of nowSec opts /\
    mf_Version m = v + 1 /\ mf_Chunks m = toManifestRefs cs.
Proof using WL hash_wf.
  intros p v cs size Hw Hk Hh [F1 F2 F3 F4 _ _ _]. pose proof (writable_authorized _ _ _ _ Hw) as Hauth.
  destruct (write_uploads (k + 1) c s path data Hw) as (c1 & s1 & Eu & Hh1 & [r ->] & [[ch Edb] Hinv _ _] & Hold);
    [lia | by rewrite Z.add_assoc | done | done |]. destruct Hw.
  destruct (chunks_of_ok c data) as (_ & _ & _ & Hhash & Hwf & _); [done .. |]. destruct wr_tree0 as [a I].
  destruct (put_manifest_handled (r + 1) p v (mode_of opts) (mtime_of nowSec opts) data cs s1 a) as
    (s2 & m & Eh & Ech & Hget & Hm); try done; [by apply Hinv | by rewrite Edb .. |].
  destruct (call_answered k (RqManifestPut (put_request p v size (mode_of opts) (mtime_of nowSec opts) cs)) (set_conn r false [] c) s1
    (RsManifestPut (v + 1)) s2) as [Ep Hh2]; try done; [unfold OpTable; simpl; set_solver |].
  exists (next (set_conn r false [] c)), s2, m. split; [| split; [done |]; split; [by exists (r + 1) |]; by rewrite Ech].
  rewrite (WriteFile_commit _ _ _ _ _ _ _ _ _ wr_lease_free0 wr_size0 Eu). fold p v cs size. by rewrite Ep.
Qed.

(** C17: What the Go client writes it reads back, through the frames, the handlers
    and the stores of the server.  A client in step with its connection, with no mount
    session, that may write to a path of its agent: [WriteFile] at the version the
    file has, or 0 for a new one, succeeds and returns the next version, and
    [ReadFile] then returns exactly the bytes with their size, mode, mtime and that
    version, whatever frames the server pushes in between. *)
Theorem write_read_back c s path (data : blob) opts nowSec :
  let v := version_at (scope c path) (sv_db s) in
  let size := Z.of_nat (length data) in
  writable c s path data -> healthy (2 * size + 2) c ->
  exchange_fits (scope c path) v size (mode_of opts) (mtime_of nowSec opts) (chunks_of c data) ->
  exists c1 c2 s1,
    WriteFile server_peer blake3 nowSec path data v opts (c, mkPlane s true true) = (Ok (v + 1), (c1, mkPlane s1 true true)) /\
    ReadFile server_peer blake3 path (c1, mkPlane s1 true true) =
      (Ok (data, mkInfo path size (mode_of opts) (mtime_of nowSec opts) (v + 1)), (c2, mkPlane s1 true true)).
Proof using WL hash_wf.
  intros v size Hw Hh HF. pose proof (writable_authorized _ _ _ _ Hw) as Hauth.
  destruct (chunks_of_ok c data (wr_chunkSize _ _ _ _ Hw) (wr_size _ _ _ _ Hw)) as (Hcat & Hcont & Hlen & _ & _ & Hcnt).
  set (cs := chunks_of c data) in *. set (k := Z.of_nat (length cs)).
  destruct (write_done (k + 1) c s path data opts nowSec Hw) as
    (c1 & s1 & m & Ew & Hh1 & [r ->] & Hold & Hget & Esz & Emode & Emt & Ever & Emc); [lia | eapply healthy_le; [exact Hh | fold cs; lia] | done |].
  set (c1 := set_conn r false [] c) in *. destruct HF as [_ _ _ _ F5 F6 F7].
  assert (handled (moments (r + 1)) (RqManifestGet (scope c path)) s1 =
    (Ok (RsManifestGet (v + 1) size (mode_of opts) (mtime_of nowSec opts) (wire_of <$> cs)), s1)) as Eg.
  { cbn [handleRequest]. unfold handleManifestGet, gate. rewrite Hauth, Hget, Ever, Esz, Emode, Emt, Emc. by rewrite to_wire. }
  destruct (call_answered k (RqManifestGet (scope c path)) c1 s1
    (RsManifestGet (v + 1) size (mode_of opts) (mtime_of nowSec opts) (wire_of <$> cs)) s1) as [Em Hh2];
    try done; [apply Hw | lia | unfold OpTable; simpl; set_solver |].
  destruct (download_done 0 cs 0 (next c1) s1 []) as (c3 & Ed & _); try done; try lia; [apply Hw | rewrite Hcat; apply Hw |].
  exists c1, c3, s1. split; [done |]. unfold ReadFile, Download.
  change (scope (c1, mkPlane s1 true true).1 path) with (scope c path). rewrite Em, Ed, Hcat.
  cbn [app]. by rewrite Z.add_0_l, Z.eqb_refl.
Qed.
(** ** A write that comes too late *)

Lemma put_conflict_handled i p v mode mtime (data : blob) cs s :
  calm -> authorizePath permits ident p = None -> (exists a, Inv (sv_db s) a) ->
  Forall (fun ck => ck_Hash ck = blake3 (ck_Bytes ck)) cs -> Forall (holds_chunk (sv_chunks s)) cs ->
  parent_ok p (sv_db s) = true -> version_at p (sv_db s) <> v ->
  exists s', handled (moments i) (RqManifestPut (put_request p v (Z.of_nat (length data)) mode mtime cs)) s =
      (Err (casConflict (sv_db s) (VersionConflictError (version_at p (sv_db s))) p v), s') /\
    sv_db s' = sv_db s /\ sv_chunks s' = sv_chunks s /\ sv_closed s' = sv_closed s.
Proof using hash_wf.
  intros Hcalm Hauth [a I] Hh Hold Hpar Hv. destruct (Hcalm i) as (eo & Ev).
  cbn [handleRequest]. rewrite Ev. cbn [ev_yield]. set (r := put_request _ _ _ _ _ _).
  rewrite (handleManifestPut_run blake3 permits (mo_now (moments i)) (mo_nowNs (moments i)) ident connID r s []
    (sv_leases s) (sv_mountLeases s)) by done.
  rewrite (Put_conflict _ (pr_Path r) (pr_VersionExpected r) _ _ _ _ _ a); try done; [by eexists | by left |].
  apply bool_decide_eq_true. change (mf_Chunks (put_manifest r)) with (fromWireChunks (wire_of <$> cs)).
  rewrite from_wire by done. by eapply chunks_present.
Qed.

(** After its upload the file is as writable as before. *)
Lemma writable_again c s path data s1 r :
  writable c s path data -> (exists ch, sv_db s1 = TenantDB.set_chunks ch (sv_db s)) ->
  (forall a, Inv (sv_db s) a -> Inv (sv_db s1) a) -> sv_closed s1 = false ->
  Forall (holds_chunk (sv_chunks s1)) (chunks_of c data) -> writable (set_conn r false [] c) s1 path data.
Proof using Type.
  intros [] [ch Edb] Hinv Hcl Hold. destruct wr_tree0 as [a I].
  split; try done; try (by rewrite Edb); [by eauto |]. intros ck Hck. split; [| by apply wr_collide0].
  intros x Hx. rewrite Forall_forall in Hold. specialize (Hold ck Hck). unfold holds_chunk in Hold. congruence.
Qed.

(** C20: A write at an old version is refused with what a retry needs.  [WriteFile] at
    a version other than the stored one ends in a [StaleError] that is [ErrStale] and
    names both versions, leaves every file as it was and the connection usable; and
    the same write at the version the error names succeeds. *)
Theorem stale_write_recovers c s path (data : blob) v opts nowSec :
  let p := scope c path in
  let cur := version_at p (sv_db s) in
  let size := Z.of_nat (length data) in
  writable c s path data -> healthy (2 * size + 2) c -> v <> cur ->
  fits_rq (RqManifestPut (put_request p v size (mode_of opts) (mtime_of nowSec opts) (chunks_of c data))) ->
  (forall d, fits_err (casConflict d (VersionConflictError cur) p v)) ->
  exchange_fits p cur size (mode_of opts) (mtime_of nowSec opts) (chunks_of c data) ->
  exists i c1 s1 c2 s2,
    WriteFile server_peer blake3 nowSec path data v opts (c, mkPlane s true true) =
      (Err (StaleError ErrnoESTALE (Some clErrStale) i), (c1, mkPlane s1 true true)) /\
    se_YourVersion i = v /\ se_CurrentVersion i = cur /\ manifests (sv_db s1) = manifests (sv_db s) /\
    WriteFile server_peer blake3 nowSec path data (se_CurrentVersion i) opts (c1, mkPlane s1 true true) =
      (Ok (cur + 1), (c2, mkPlane s2 true true)).
Proof using WL hash_wf.
  intros p cur size Hw Hh Hv Hfit Herr HF. pose proof (writable_authorized _ _ _ _ Hw) as Hauth.
  destruct (chunks_of_ok c data (wr_chunkSize _ _ _ _ Hw) (wr_size _ _ _ _ Hw)) as (_ & _ & _ & Hhash & _ & Hcnt).
  set (cs := chunks_of c data) in *. set (k := Z.of_nat (length cs) + 1).
  destruct (write_uploads (k + 1) c s path data Hw) as (c1 & s1 & Eu & Hh1 & [r ->] & [[ch Edb] Hinv Hcl _] & Hold);
    [lia | eapply healthy_le; [exact Hh | fold cs; lia] | apply HF | apply HF |].
  destruct (put_conflict_handled (r + 1) p v (mode_of opts) (mtime_of nowSec opts) data cs s1) as (s2 & Eh & Ed2 & Ec2 & Eo2);
    try done; [apply Hw | destruct (wr_tree _ _ _ _ Hw) as [a I]; eauto | rewrite Edb; apply Hw | by rewrite Edb |].
  destruct (call_refused k (RqManifestPut (put_request p v size (mode_of opts) (mtime_of nowSec opts) cs)) (set_conn r false [] c) s1
    (casConflict (sv_db s1) (VersionConflictError (version_at p (sv_db s1))) p v) s2) as [Ep Hh2];
    try done; [apply Hw | lia | unfold OpTable; simpl; set_solver | rewrite Edb; apply Herr |].
  assert (writable (set_conn (r + 1) false [] c) s2 path data) as Hw2.
  { eapply (writable_again c s); [done | eexists; by rewrite Ed2 | by rewrite Ed2 | rewrite Eo2, Hcl; apply Hw | by rewrite Ec2]. }
  assert (version_at p (sv_db s2) = cur) as Hcur by (by rewrite Ed2, Edb).
  destruct (write_done 0 (set_conn (r + 1) false [] c) s2 path data opts nowSec Hw2) as (c3 & s3 & _ & Ew & _);
    [done | by rewrite Z.add_0_r | change (scope _ path) with p; by rewrite Hcur |].
  eexists _, _, _, _, _. rewrite (WriteFile_commit _ _ _ _ _ _ _ _ _ (wr_lease_free _ _ _ _ Hw) (wr_size _ _ _ _ Hw) Eu).
  fold p cs size. rewrite Ep. split; [done |]. split; [done |]. cbn [se_CurrentVersion rh_CurrentVersion].
  assert (version_at p (sv_db s1) = cur) as Hcur1 by (by rewrite Edb).
  split; [simpl; by rewrite Hcur1 |]. split; [by rewrite Ed2, Edb |].
  change (scope (set_conn (r + 1) false [] c) path) with p in Ew. rewrite Hcur in Ew.
  simpl. rewrite Hcur1. exact Ew.
Qed.
End plane.

(** ** A concrete connection *)

Module Toy.
(** A struct is one number after a small integer. *)
Definition pack {A} `{Countable A} (x : A) : list Z := [0; Zpos (encode x)].
Definition unpack {A} `{Countable A} (b : list Z) : option A :=
  match b with [_; Zpos n] => decode n | _ => None end.

Arguments pack : simpl never.
Arguments unpack : simpl never.

Lemma unpack_pack {A} `{Countable A} (x : A) : unpack (pack x) = Some x.
Proof. apply decode_encode. Qed.

Abbreviation reftuple := (list Z * Z * Z)%type.
Definition ref_out (c : WireChunkRef) : reftuple := (WHash c, WOffset c, WLen c).
Definition ref_in (t : reftuple) : WireChunkRef := mkWireChunkRef t.1.1 t.1.2 t.2.

Lemma refs_back (l : list WireChunkRef) : ref_in <$> (ref_out <$> l) = l.
Proof. induction l as [|[] l IH]; [done |]. cbn [fmap list_fmap] in *. by rewrite IH. Qed.

Definition put_out (r : ManifestPutRequest) :=
  (pr_Path r, pr_VersionExpected r, pr_Size r, pr_Mode r, pr_Mtime r, ref_out <$> pr_Chunks r, pr_SessionID r, pr_AllocationID r).
Definition put_in (t : gostr * Z * Z * Z * Z * list reftuple * option gostr * option gostr) : ManifestPutRequest :=
  let '(p, v, size, mode, mtime, cs, sid, al) := t in mkPutReq p v size mode mtime (ref_in <$> cs) sid al.

Abbreviation hinttuple := (Z * option Z * option (option gostr * option gostr * Z))%type.
Definition err_out (e : ErrorPayload) : Z * option hinttuple :=
  (ep_Errno e, (fun r => (rh_YourVersion r, rh_CurrentVersion r,
     (fun w => (hw_AgentID w, hw_SessionID w, hw_AtUnixMs w)) <$> rh_LastWriter r)) <$> ep_Recovery e).
Definition err_in (t : Z * option hinttuple) : ErrorPayload :=
  mkErrP t.1 ((fun h : hinttuple => mkHint h.1.1 h.1.2
     ((fun w : option gostr * option gostr * Z => mkLastW w.1.1 w.1.2 w.2) <$> h.2)) <$> t.2).

(** The messages of reading and writing; the others are refused. *)
#[export] Instance wire : Wire := {|
  marshalRequest rq :=
    match rq with
    | RqChunkPut h d => Some (pack (h, d))
    | RqChunkGet h => Some (pack h)
    | RqManifestGet p => Some (pack p)
    | RqManifestPut r => Some (pack (put_out r))
    | _ => None
    end;
  unmarshalRequest op b :=
    if op =? OpChunkPut then (fun t => RqChunkPut t.1 t.2) <$> unpack b
    else if op =? OpChunkGet then RqChunkGet <$> unpack b
    else if op =? OpManifestGet then RqManifestGet <$> unpack b
    else if op =? OpManifestPut then (fun t => RqManifestPut (put_in t)) <$> unpack b
    else None;
  marshalResponse r :=
    match r with
    | RsChunkPut s => Some (pack s)
    | RsChunkGet bytes => Some (pack bytes)
    | RsManifestGet v size mode mtime cs => Some (pack (v, size, mode, mtime, ref_out <$> cs))
    | RsManifestPut v => Some (pack v)
    | _ => None
    end;
  unmarshalResponse op b :=
    if op =? OpChunkPut then RsChunkPut <$> unpack b
    else if op =? OpChunkGet then RsChunkGet <$> unpack b
    else if op =? OpManifestGet then
      (fun t : Z * Z * Z * Z * list reftuple =>
         let '(v, size, mode, mtime, cs) := t in RsManifestGet v size mode mtime (ref_in <$> cs)) <$> unpack b
    else if op =? OpManifestPut then RsManifestPut <$> unpack b
    else None;
  marshalError e := Some (pack (err_out e));
  unmarshalError b := err_in <$> unpack b |}.

#[export] Instance wire_laws : WireLaws wire.
Proof.
  split.
  - intros [] b; simpl; try done; intros [= <-]; cbn [Z.eqb OpChunkPut OpChunkGet OpManifestGet OpManifestPut Pos.eqb];
      rewrite unpack_pack; try done. simpl. destruct r; unfold put_in, put_out; simpl. by rewrite refs_back.
  - intros op [] b; simpl; try done; intros -> [= <-];
      cbn [Z.eqb OpChunkPut OpChunkGet OpManifestGet OpManifestPut Pos.eqb]; rewrite unpack_pack; try done.
    simpl. by rewrite refs_back.
  - intros [n [[y cv [[]|]]|]] b [= <-]; simpl; by rewrite unpack_pack.
Qed.

(** Every payload is two numbers long, and the guard reads one scalar. *)
Lemma pack_fits {A} `{Countable A} (x : A) :
  Z.of_nat (length (pack x)) <= MaxPayloadLen /\ guardMsgpackLimits (pack x) = true.
Proof. by split. Qed.

Lemma rq_fits rq : is_Some (marshalRequest rq) -> fits_rq rq.
Proof. destruct rq; simpl; intros [? E]; try done; eexists; (split; [reflexivity | apply pack_fits]). Qed.

Lemma rs_fits r : is_Some (marshalResponse r) -> fits_rs r.
Proof. destruct r; simpl; intros [? E]; try done; eexists; (split; [reflexivity | apply pack_fits]). Qed.

(** Alice's client, pieces of two bytes, and a revocation pushed before every answer. *)
Definition alice : Client := newClient 2 (str "alice").
Definition who : Identity := mkIdent (str "u") (str "alice").
Definition quiet (_ : Z) : moment :=
  mkMoment 9 9 9 (mkEnv Yielded None WriteDone None) [mkFrame OpLeaseRevoke 0 (2 ^ 63 + 5) [7]].
Definition data : blob := [1; 2; 3].
Definition opts : WriteOpts := mkOpts 0 0.

#[local] Existing Instance flat_msgpack.

Lemma alice_writable : writable toy_hash (fun _ => true) who quiet alice sv_ab (str "../x") data.
Proof.
  split.
  - intros i. constructor; [| constructor]. unfold wf_frame, is_byte. simpl.
    split; [split; [done | unfold MaxPayloadLen; lia] | lia].
  - intros i. by exists None.
  - split; [| done]. repeat split; try done. apply (bool_decide_unpack _). vm_compute. exact I.
  - done.
  - vm_compute. done.
  - done.
  - done.
  - apply sv_ab_Inv.
  - vm_compute. reflexivity.
  - vm_compute. done.
  - vm_compute. done.
  - vm_compute. done.
  - intros ck Hck. change (chunks_of toy_hash alice data) with
      [mkChunk (toy_hash [1; 2]) 0 2 [1; 2]; mkChunk (toy_hash [3]) 2 1 [3]] in *.
    split.
    + apply elem_of_cons in Hck as [->|Hck]; [| apply list_elem_of_singleton in Hck as ->]; intros x Hx; vm_compute in Hx; discriminate.
    + intros c' Hc'. apply elem_of_cons in Hck as [->|Hck]; [| apply list_elem_of_singleton in Hck as ->];
        (apply elem_of_cons in Hc' as [->|Hc']; [| apply list_elem_of_singleton in Hc' as ->]); intros E; try done; vm_compute in E; discriminate.
Qed.

Lemma alice_healthy : healthy (2 * Z.of_nat (length data) + 2) alice.
Proof. by repeat split. Qed.

Lemma alice_fits v : exchange_fits (scope alice (str "../x")) v 3 420 9 (chunks_of toy_hash alice data).
Proof.
  split; try (intros; by apply rs_fits); try (by apply rq_fits); apply Forall_forall; intros ck _; [by apply rq_fits |].
  split; [by apply rq_fits | by apply rs_fits].
Qed.
End Toy.

#[local] Existing Instance flat_msgpack.
#[local] Existing Instance Toy.wire.
#[local] Existing Instance Toy.wire_laws.

Abbreviation alice_peer := (dataPlane toy_hash (fun _ => true) id Toy.who 1 Toy.quiet).

(** Alice overwrites her file at version 1. *)
Lemma write_read_back_witness :
  exists c1 c2 s1,
    WriteFile alice_peer toy_hash 9 (str "../x") [1; 2; 3] 1 Toy.opts (Toy.alice, mkPlane sv_ab true true) =
      (Ok 2, (c1, mkPlane s1 true true)) /\
    ReadFile alice_peer toy_hash (str "../x") (c1, mkPlane s1 true true) =
      (Ok ([1; 2; 3], mkInfo (str "../x") 3 420 9 2), (c2, mkPlane s1 true true)).
Proof.
  exact (write_read_back toy_hash (fun _ => true) id Toy.who 1 Toy.quiet toy_hash_wf Toy.alice sv_ab (str "../x") Toy.data Toy.opts 9
    Toy.alice_writable Toy.alice_healthy (Toy.alice_fits 1)).
Defined.

Lemma stale_write_recovers_witness :
  exists i c1 s1 c2 s2,
    WriteFile alice_peer toy_hash 9 (str "../x") [1; 2; 3] 7 Toy.opts (Toy.alice, mkPlane sv_ab true true) =
      (Err (StaleError ErrnoESTALE (Some clErrStale) i), (c1, mkPlane s1 true true)) /\
    se_YourVersion i = 7 /\ se_CurrentVersion i = 1 /\ manifests (sv_db s1) = manifests (sv_db sv_ab) /\
    WriteFile alice_peer toy_hash 9 (str "../x") [1; 2; 3] (se_CurrentVersion i) Toy.opts (c1, mkPlane s1 true true) =
      (Ok 2, (c2, mkPlane s2 true true)).
Proof.
  apply (stale_write_recovers toy_hash (fun _ => true) id Toy.who 1 Toy.quiet toy_hash_wf Toy.alice sv_ab (str "../x") Toy.data 7 Toy.opts 9
    Toy.alice_writable Toy.alice_healthy).
  - vm_compute. discriminate.
  - apply Toy.rq_fits. eexists. reflexivity.
  - intros d. eexists. split; [reflexivity |]. vm_compute. discriminate.
  - apply (Toy.alice_fits 1).
Defined.

(** The file after the write, downloaded. *)
Definition written : Client * plane :=
  (WriteFile alice_peer toy_hash 9 (str "../x") [1; 2; 3] 1 Toy.opts (Toy.alice, mkPlane sv_ab true true)).2.
Definition got : result clientErr FileInfo * blob * (Client * plane) :=
  Download alice_peer toy_hash (fun _ => true) (str "../x") written.

Lemma download_integrity_witness :
  is_ok got.1.1 = true /\
  exists blocks chunks, Forall2 (verified toy_hash) chunks blocks /\ got.1.2 = concat blocks.
Proof.
  split; [vm_compute; reflexivity |].
  destruct (download_integrity alice_peer toy_hash (fun _ => true) (str "../x") written got.1.1 got.1.2 got.2) as
    [(e & E & _)|(v & size & mode & mtime & chunks & s1 & dn & rest & blocks & _ & _ & Hv & Ho & _)].
  - unfold got. destruct (Download _ _ _ _ _) as [[? ?] ?]. reflexivity.
  - exfalso. vm_compute in E. discriminate.
  - exists blocks, dn. split; [exact Hv | exact Ho].
Defined.


(** A peer that pushes a frame before a reply of one byte. *)
Definition pushy (_ : list Z) (n : nat) : option (list Z) * nat :=
  (Some (frame_bytes (mkFrame OpLeaseRevoke 0 (2 ^ 63) [7]) ++ frame_bytes (mkFrame OpChunkGet 1 1 [5])), S n).

Lemma client_in_step_witness :
  let '(r, (c, (w, log))) := client_call (logged pushy) (RqChunkGet [1]) (newClient 2 (str "alice"), (0%nat, [])) in
  in_step c log /\ call_outcome (RqChunkGet [1]) (newClient 2 (str "alice")) [] r c log.
Proof.
  destruct (client_call (logged pushy) (RqChunkGet [1]) (newClient 2 (str "alice"), (0%nat, []))) as [r [c [w log]]] eqn:E.
  destruct (client_in_step pushy [] (RqChunkGet [1]) 2 (str "alice") 0%nat r c w log) as (H1 & H2 & _).
  - intros bytes n b n' Hb. injection Hb as <- _. apply (bool_decide_unpack _). vm_compute. exact I.
  - exact E.
  - split; [exact H1 | exact H2].
Defined.

Lemma client_keeps_scope_witness :
  let c := newClient 2 (str "1") in
  checkAgentPath (mkIdent (str "u") (str "1")) (scope c (str "../../etc//x/.")) = None /\ scope c (str "../../etc//x/.") = str "/1/etc/x".
Proof.
  destruct (client_keeps_scope (mkFresh 3 [10] minute) (str "a_1") (str "user") (str "1") (60 * minute) with_tenant.1 agent_leaf agent_above
    agent_mint.2 (newClient 2 (str "1")) (mkIdent (str "u") (str "1")) (str "../../etc//x/.") agent_mint_eq) as (_ & _ & Hc & _).
  - apply (bool_decide_unpack _). vm_compute. exact I.
  - repeat split; try discriminate. apply (bool_decide_unpack _). vm_compute. exact I.
  - vm_compute. reflexivity.
  - vm_compute. reflexivity.
  - split; [exact Hc | vm_compute; reflexivity].
Defined.
