(* ===== verification/Jwt.v ===== *)
(** * Host identity of the control plane

    orlop-control/internal/identity/jwt.go, identity.go: the verifier of tokens that
    the identity provider of the host platform signs.  host_identity_handlers.go: the
    middleware and the endpoint behind it; main.go: [buildHostIdentityVerifier].

    base64 is written out as encoding/base64 decodes it.  encoding/json is the class
    [Json]: the algorithm of a header and the claims of a payload, a number as the
    [int64] that the code converts it to.  The signature schemes, SHA-256 and the PEM
    parser are the class [Signatures].  Times are nanoseconds since the year 1, the
    zero of Go's [time.Time], whose seconds are 64 bits wide.  Headers are ASCII text,
    as in Enroll.v. *)

From S2P Require Import Prelude GoPath CtlStore Allocations Enroll.

(** ** Text *)

(** [strings.Split] at a single character. *)
Fixpoint split_char (c : ascii) (s : gostr) : list gostr :=
  match s with
  | [] => [[]]
  | x :: s' =>
      if decide (x = c) then [] :: split_char c s'
      else match split_char c s' with
           | [] => [[x]]
           | seg :: segs => (x :: seg) :: segs
           end
  end.

Definition comma : ascii := ","%char.

(** ** base64.RawURLEncoding *)

Definition chr (n : Z) : ascii := ascii_of_N (Z.to_N n).

Definition b64_val (c : ascii) : option Z :=
  let n := byteval c in
  if (65 <=? n) && (n <=? 90) then Some (n - 65)
  else if (97 <=? n) && (n <=? 122) then Some (n - 71)
  else if (48 <=? n) && (n <=? 57) then Some (n + 4)
  else if n =? 45 then Some 62
  else if n =? 95 then Some 63
  else None.

(** The decoder's quanta: a lone character at the end is an error, the bits that
    are left over are not looked at. *)
Fixpoint b64_quanta (vs : list Z) : option gostr :=
  match vs with
  | [] => Some []
  | [_] => None
  | [a; b] => Some [chr (a * 4 + b / 16)]
  | [a; b; c] => Some [chr (a * 4 + b / 16); chr (b mod 16 * 16 + c / 4)]
  | a :: b :: c :: d :: vs' =>
      rest ← b64_quanta vs';
      Some (chr (a * 4 + b / 16) :: chr (b mod 16 * 16 + c / 4) :: chr (c mod 4 * 64 + d) :: rest)
  end.

(** Line breaks are skipped. *)
Definition is_break (c : ascii) : Prop := byteval c = 10 \/ byteval c = 13.

#[export] Instance is_break_dec c : Decision (is_break c).
Proof. unfold is_break. apply _. Defined.

Definition b64Decode (s : gostr) : option gostr :=
  vs ← mapM b64_val (filter (fun c => ~ is_break c) s); b64_quanta vs.

(** ** Keys and claims *)

Inductive publicKey := RsaKey (k : Z) | EcdsaKey (k : Z) | Ed25519Key (k : Z) | OtherKey.

Inductive jval :=
| JNull
| JBool (b : bool)
| JNumber (i : Z)
| JString (s : gostr)
| JArray (l : list jval)
| JObject (l : list (gostr * jval)).

Class Signatures := {
  sha256sum : gostr -> gostr;
  rsaVerify : Z -> gostr -> gostr -> bool;
  ecdsaVerify : Z -> gostr -> Z -> Z -> bool;
  ed25519Verify : Z -> gostr -> gostr -> bool;
  keyOfPEM : gostr -> option publicKey }.

Class Json := {
  jsonAlg : gostr -> option gostr;
  jsonClaims : gostr -> option (gmap gostr jval) }.

(** ** The verifier *)

Record JWTConfig := mkJwtCfg {
  jc_Issuer : gostr; jc_Audience : gostr; jc_PublicKeyPEM : gostr; jc_TenantClaim : gostr;
  jc_TenantAllowlist : list gostr }.

Record JWTVerifier := mkVerifier {
  jv_issuer : gostr; jv_audience : gostr; jv_pub : publicKey; jv_tenantClaim : gostr; jv_allow : gset gostr }.

Inductive cfgErr := AudienceRequired | AllowlistRequired | KeyRequired | KeyInvalid | KeyUnsupported | KeyFileRequired | KeyFileUnreadable.

Record hostIdentity := mkHost { hi_TenantID : gostr; hi_Subject : gostr; hi_Claims : gmap gostr jval }.

Inductive identErr :=
| ErrNoCredential | ErrMalformedToken | ErrUnsupportedAlg | ErrBadSignature | ErrClaimsInvalid
| ErrTenantClaimMissing | ErrTenantNotAllowed.

Definition clockLeeway : Z := 60.

Section verifier.
Context {SG : Signatures} {J : Json}.

Definition parsePublicKey (pem : gostr) : result cfgErr publicKey :=
  if decide (pem = []) then Err KeyRequired
  else
    match keyOfPEM pem with
    | None => Err KeyInvalid
    | Some OtherKey => Err KeyUnsupported
    | Some k => Ok k
    end.

Definition trimmed (l : list gostr) : list gostr := filter (fun t => t <> []) (TrimSpace <$> l).

Definition NewJWTVerifier (cfg : JWTConfig) : result cfgErr JWTVerifier :=
  if decide (jc_Audience cfg = []) then Err AudienceRequired
  else if decide (jc_TenantAllowlist cfg = []) then Err AllowlistRequired
  else
    match parsePublicKey (jc_PublicKeyPEM cfg) with
    | Err e => Err e
    | Ok pub =>
        let allow : gset gostr := list_to_set (trimmed (jc_TenantAllowlist cfg)) in
        if decide (allow = ∅) then Err AllowlistRequired
        else
          Ok (mkVerifier (jc_Issuer cfg) (jc_Audience cfg) pub
                (if decide (jc_TenantClaim cfg = []) then str "tenant" else jc_TenantClaim cfg) allow)
    end.

Definition checkAlg (v : JWTVerifier) (alg : gostr) : result identErr unit :=
  let want :=
    match jv_pub v with
    | RsaKey _ => Some (str "RS256")
    | EcdsaKey _ => Some (str "ES256")
    | Ed25519Key _ => Some (str "EdDSA")
    | OtherKey => None
    end in
  if decide (Some alg = want) then Ok tt else Err ErrUnsupportedAlg.

(** [new(big.Int).SetBytes]. *)
Definition bigOfBytes (s : gostr) : Z := fold_left (fun acc c => acc * 256 + byteval c) s 0.

Definition verifySignature (v : JWTVerifier) (signingInput sig : gostr) : result identErr unit :=
  let ok (b : bool) : result identErr unit := if b then Ok tt else Err ErrBadSignature in
  match jv_pub v with
  | RsaKey k => ok (rsaVerify k (sha256sum signingInput) sig)
  | EcdsaKey k =>
      if negb (length sig =? 64)%nat then Err ErrBadSignature
      else ok (ecdsaVerify k (sha256sum signingInput) (bigOfBytes (take 32 sig)) (bigOfBytes (drop 32 sig)))
  | Ed25519Key k => ok (ed25519Verify k signingInput sig)
  | OtherKey => Err ErrUnsupportedAlg
  end.

Definition audienceContains (aud : option jval) (want : gostr) : bool :=
  match aud with
  | Some (JString a) => bool_decide (a = want)
  | Some (JArray l) =>
      existsb (fun item => match item with JString s => bool_decide (s = want) | _ => false end) l
  | _ => false
  end.

(** [time.Unix(sec, 0)]: the seconds since the year 1, in 64 bits. *)
Definition unixToInternal : Z := 62135596800.
Definition timeUnix (sec : Z) : Z := i64 (sec + unixToInternal).

(** [Time.Add] of whole seconds on such a time stops at the end of the range. *)
Definition addSeconds (t d : Z) : Z := Z.min (t + d) (2 ^ 63 - 1).

Definition numericDate (x : option jval) : option Z :=
  match x with Some (JNumber i) => Some (timeUnix i) | _ => None end.

Definition jstring (x : option jval) : gostr := match x with Some (JString s) => s | _ => [] end.

Definition ns (sec : Z) : Z := sec * 1000000000.

Definition validateClaims (v : JWTVerifier) (now : Z) (claims : gmap gostr jval) : result identErr unit :=
  if decide (jv_issuer v <> [] /\ jstring (claims !! str "iss") <> jv_issuer v) then Err ErrClaimsInvalid
  else if negb (audienceContains (claims !! str "aud") (jv_audience v)) then Err ErrClaimsInvalid
  else
    match numericDate (claims !! str "exp") with
    | None => Err ErrClaimsInvalid
    | Some exp =>
        if ns (addSeconds exp clockLeeway) <? now then Err ErrClaimsInvalid
        else
          match numericDate (claims !! str "nbf") with
          | Some nbf => if now + ns clockLeeway <? ns nbf then Err ErrClaimsInvalid else Ok tt
          | None => Ok tt
          end
    end.

Definition Verify (v : JWTVerifier) (now : Z) (bearer : gostr) : result identErr hostIdentity :=
  let raw := TrimSpace bearer in
  if decide (raw = []) then Err ErrNoCredential
  else
    match split_char dot raw with
    | [p0; p1; p2] =>
        match b64Decode p0 ≫= jsonAlg with
        | None => Err ErrMalformedToken
        | Some alg =>
            match checkAlg v alg with
            | Err e => Err e
            | Ok _ =>
                match b64Decode p2 with
                | None => Err ErrMalformedToken
                | Some sig =>
                    match verifySignature v (p0 ++ dot :: p1) sig with
                    | Err e => Err e
                    | Ok _ =>
                        match b64Decode p1 ≫= jsonClaims with
                        | None => Err ErrMalformedToken
                        | Some claims =>
                            match validateClaims v now claims with
                            | Err e => Err e
                            | Ok _ =>
                                let tenant := jstring (claims !! jv_tenantClaim v) in
                                if decide (tenant = []) then Err ErrTenantClaimMissing
                                else if decide (tenant ∈ jv_allow v)
                                then Ok (mkHost tenant (jstring (claims !! str "sub")) claims)
                                else Err ErrTenantNotAllowed
                            end
                        end
                    end
                end
            end
        end
    | _ => Err ErrMalformedToken
    end.

(** ** The endpoint *)

(** The settings of the control plane; [readFile] is [os.ReadFile]. *)
Record identityConfig := mkIdCfg {
  ic_Issuer : gostr; ic_Audience : gostr; ic_PublicKeyFile : gostr; ic_TenantClaim : gostr;
  ic_TenantAllowlist : gostr }.

Definition buildHostIdentityVerifier (readFile : gostr -> option gostr) (cfg : identityConfig) : result cfgErr JWTVerifier :=
  if decide (ic_PublicKeyFile cfg = []) then Err KeyFileRequired
  else
    match readFile (ic_PublicKeyFile cfg) with
    | None => Err KeyFileUnreadable
    | Some pem =>
        NewJWTVerifier (mkJwtCfg (ic_Issuer cfg) (ic_Audience cfg) pem (ic_TenantClaim cfg)
                          (trimmed (split_char comma (ic_TenantAllowlist cfg))))
    end.

Inductive whoamiResp := Whoami (tenant subject : gostr) | Denied (status : Z) (code detail : gostr).

Definition RequireHostIdentity (v : JWTVerifier) (now : Z) (authorization : gostr) (next : hostIdentity -> whoamiResp) : whoamiResp :=
  match Verify v now (BearerToken authorization) with
  | Ok id => next id
  | Err ErrTenantNotAllowed => Denied 403 (str "access_denied") (str "tenant_not_allowed")
  | Err _ => Denied 401 (str "invalid_token") []
  end.

Definition handleWhoami (id : hostIdentity) : whoamiResp := Whoami (hi_TenantID id) (hi_Subject id).

End verifier.
