(* ===== verification/JwtProps.v ===== *)
(** * What the host identity guarantees

    Theorems on Jwt.v: who gets past the middleware, for a signature scheme that
    nobody but the identity provider can sign with. *)

From S2P Require Import Prelude GoPath Enroll Jwt.

(** ** Tokens as the identity provider writes them *)

Definition b64_char (v : Z) : ascii :=
  chr (if v <? 26 then v + 65 else if v <? 52 then v + 71 else if v <? 62 then v - 4 else if v =? 62 then 45 else 95).

Fixpoint b64_sextets (s : gostr) : list Z :=
  match s with
  | [] => []
  | [a] => [byteval a / 4; byteval a mod 4 * 16]
  | [a; b] => [byteval a / 4; byteval a mod 4 * 16 + byteval b / 16; byteval b mod 16 * 4]
  | a :: b :: c :: s' =>
      byteval a / 4 :: byteval a mod 4 * 16 + byteval b / 16 :: byteval b mod 16 * 4 + byteval c / 64 ::
      byteval c mod 64 :: b64_sextets s'
  end.

(** [RawURLEncoding.EncodeToString]. *)
Definition b64Encode (s : gostr) : gostr := b64_char <$> b64_sextets s.

(** The compact form of a signed token. *)
Definition signingInput (h p : gostr) : gostr := b64Encode h ++ dot :: b64Encode p.
Definition compact (h p sig : gostr) : gostr := signingInput h p ++ dot :: b64Encode sig.

(** ** Splitting *)

Lemma split_char_app c s t : c ∉ s -> split_char c (s ++ c :: t) = s :: split_char c t.
Proof.
  induction s as [|x s IH]; simpl; intros Hc; [by rewrite decide_True |].
  apply not_elem_of_cons in Hc as [Hx Hs]. rewrite decide_False by done. by rewrite IH.
Qed.

Lemma split_char_plain c s : c ∉ s -> split_char c s = [s].
Proof.
  induction s as [|x s IH]; simpl; intros Hc; [done |].
  apply not_elem_of_cons in Hc as [Hx Hs]. rewrite decide_False by done. by rewrite IH.
Qed.

Lemma split_char_nonempty c s : split_char c s <> [].
Proof. destruct s; simpl; [done |]. case_decide; [done |]. by case_match. Qed.

Lemma split_char_inv c s seg segs :
  split_char c s = seg :: segs ->
  c ∉ seg /\ ((segs = [] /\ s = seg) \/ exists t, s = seg ++ c :: t /\ split_char c t = segs).
Proof.
  revert seg segs. induction s as [|x s IH]; simpl; intros seg segs E.
  { simplify_eq. split; [apply not_elem_of_nil | by left]. }
  case_decide as Hx.
  { simplify_eq. split; [apply not_elem_of_nil | right; by exists s]. }
  destruct (split_char c s) as [|g gs] eqn:Es; [by apply split_char_nonempty in Es |]. simplify_eq.
  destruct (IH _ _ eq_refl) as (Hg & [[-> ->] | (t & -> & <-)]).
  - split; [apply not_elem_of_cons; auto | by left].
  - split; [apply not_elem_of_cons; auto | right; by exists t].
Qed.

Lemma split_three c s p0 p1 p2 :
  split_char c s = [p0; p1; p2] -> s = p0 ++ c :: p1 ++ c :: p2 /\ c ∉ p0 /\ c ∉ p1 /\ c ∉ p2.
Proof.
  intros E. apply split_char_inv in E as (H0 & [[? _] | (t0 & -> & E)]); [done |].
  apply split_char_inv in E as (H1 & [[? _] | (t1 & -> & E)]); [done |].
  apply split_char_inv in E as (H2 & [[_ ->] | (t2 & -> & E)]); [done |].
  by apply split_char_nonempty in E.
Qed.

Lemma app_sep_inj (c : ascii) a b a' b' :
  c ∉ a -> c ∉ a' -> a ++ c :: b = a' ++ c :: b' -> a = a' /\ b = b'.
Proof.
  revert a'. induction a as [|x a IH]; intros [|x' a'] Ha Ha' E; simplify_eq/=; [done | | |].
  - by apply not_elem_of_cons in Ha' as [].
  - by apply not_elem_of_cons in Ha as [].
  - apply not_elem_of_cons in Ha as [_ Ha], Ha' as [_ Ha']. by destruct (IH a') as [-> ->].
Qed.

(** ** base64 round trip *)

Lemma byteval_range c : 0 <= byteval c < 256.
Proof. unfold byteval. pose proof (N_ascii_bounded c). lia. Qed.

Lemma chr_byteval c : chr (byteval c) = c.
Proof. unfold chr, byteval. rewrite N2Z.id. apply ascii_N_embedding. Qed.

Definition b64_ok (v : Z) : bool :=
  bool_decide (b64_val (b64_char v) = Some v) && bool_decide (~ is_break (b64_char v)) &&
  bool_decide (b64_char v <> dot) && negb (is_space (b64_char v)).

Lemma b64_char_ok v : 0 <= v < 64 -> b64_ok v = true.
Proof.
  intros Hv. assert (forallb b64_ok (seqZ 0 64) = true) as F by (by vm_compute).
  rewrite forallb_forall in F. apply F, list_elem_of_In, elem_of_seqZ. lia.
Qed.

Lemma triples_ind (P : gostr -> Prop) :
  P [] -> (forall a, P [a]) -> (forall a b, P [a; b]) -> (forall a b c s, P s -> P (a :: b :: c :: s)) -> forall s, P s.
Proof.
  intros H0 H1 H2 H3. fix IH 1. intros [|a [|b [|c s]]]; [done | apply H1 | apply H2 | apply H3, IH].
Qed.

Ltac bytes :=
  repeat match goal with
  | c : ascii |- _ => pose proof (byteval_range c); generalize dependent (byteval c); clear c; intros
  end;
  Z.to_euclidean_division_equations; lia.

Lemma b64_sextets_range s : Forall (fun v => 0 <= v < 64) (b64_sextets s).
Proof.
  induction s as [|a|a b|a b c s IH] using triples_ind; simpl; repeat (apply Forall_cons; split); try done; bytes.
Qed.

Lemma chr_eq z c : z = byteval c -> chr z = c.
Proof. intros ->. apply chr_byteval. Qed.

Lemma b64_quanta_sextets s : b64_quanta (b64_sextets s) = Some s.
Proof.
  induction s as [|a|a b|a b c s IH] using triples_ind; cbn [b64_sextets b64_quanta]; [done | ..].
  - do 2 f_equal; apply chr_eq; bytes.
  - do 2 f_equal; [| f_equal]; apply chr_eq; bytes.
  - rewrite IH. simpl. do 2 f_equal; [| f_equal; [| f_equal]]; apply chr_eq; bytes.
Qed.

Lemma b64_chars_ok s : Forall (fun c => exists v, 0 <= v < 64 /\ c = b64_char v) (b64Encode s).
Proof.
  unfold b64Encode. apply Forall_fmap. eapply Forall_impl; [apply b64_sextets_range |]. intros v Hv. by exists v.
Qed.

Lemma b64_char_facts v : 0 <= v < 64 ->
  b64_val (b64_char v) = Some v /\ ~ is_break (b64_char v) /\ b64_char v <> dot /\ is_space (b64_char v) = false.
Proof.
  intros Hv. pose proof (b64_char_ok v Hv) as H. unfold b64_ok in H.
  rewrite !andb_true_iff, !bool_decide_eq_true, negb_true_iff in H. tauto.
Qed.

Lemma filter_keep {A} (P : A -> Prop) `{!forall x, Decision (P x)} l : Forall P l -> filter P l = l.
Proof. induction 1; [done |]. by rewrite filter_cons_True by done; f_equal. Qed.

Lemma b64_roundtrip s : b64Decode (b64Encode s) = Some s.
Proof.
  unfold b64Decode, b64Encode. pose proof (b64_sextets_range s) as Hr.
  rewrite filter_keep.
  2: { apply Forall_fmap. eapply Forall_impl; [exact Hr |]. intros v Hv. by apply b64_char_facts. }
  assert (mapM b64_val (b64_char <$> b64_sextets s) = Some (b64_sextets s)) as ->; [| apply b64_quanta_sextets].
  apply mapM_Some. apply Forall2_fmap_l, Forall_Forall2_diag. eapply Forall_impl; [exact Hr |].
  intros v Hv. by apply b64_char_facts.
Qed.

Lemma b64_no_dot s : dot ∉ b64Encode s.
Proof.
  intros Hd. pose proof (b64_chars_ok s) as H. rewrite Forall_forall in H. destruct (H _ Hd) as (v & Hv & E).
  by apply b64_char_facts in Hv as (_ & _ & [] & _).
Qed.

(** ** Text around the token *)

Definition spaceless (s : gostr) : Prop := Forall (fun c => is_space c = false) s.

Lemma trim_left_spaceless s : spaceless s -> trim_left s = s.
Proof. destruct 1 as [|c s Hc]; simpl; [done |]. by rewrite Hc. Qed.

Lemma TrimSpace_spaceless s : spaceless s -> TrimSpace s = s.
Proof.
  intros Hs. unfold TrimSpace. rewrite (trim_left_spaceless s) by done.
  rewrite trim_left_spaceless by by apply Forall_reverse. apply reverse_involutive.
Qed.

Lemma trim_left_idem s : trim_left (trim_left s) = trim_left s.
Proof. induction s as [|c s IH]; simpl; [done |]. destruct (is_space c) eqn:E; [done |]. simpl. by rewrite E. Qed.

Lemma trim_left_suffix s : exists k, s = k ++ trim_left s.
Proof.
  induction s as [|c s (k & IH)]; simpl; [by exists [] |]. destruct (is_space c); [| by exists []].
  exists (c :: k). simpl. by f_equal.
Qed.

Lemma trim_left_prefix u t : trim_left (u ++ t) = u ++ t -> trim_left u = u.
Proof.
  destruct u as [|c u]; simpl; [done |]. destruct (is_space c); [| done]. intros E. exfalso.
  destruct (trim_left_suffix (u ++ t)) as (k & Hk). rewrite E in Hk. apply (f_equal length) in Hk.
  rewrite !length_app in Hk. simpl in Hk. rewrite length_app in Hk. lia.
Qed.

Lemma TrimSpace_idem s : TrimSpace (TrimSpace s) = TrimSpace s.
Proof.
  unfold TrimSpace. destruct (trim_left_suffix (reverse (trim_left s))) as (k & Hk).
  assert (trim_left s = reverse (trim_left (reverse (trim_left s))) ++ reverse k) as E.
  { rewrite <- reverse_app, <- Hk. by rewrite reverse_involutive. }
  set (b := trim_left (reverse (trim_left s))) in *.
  assert (trim_left (reverse b) = reverse b) as -> by (apply (trim_left_prefix _ (reverse k)); rewrite <- E; apply trim_left_idem).
  unfold b. by rewrite reverse_involutive, trim_left_idem.
Qed.

Lemma b64_spaceless s : spaceless (b64Encode s).
Proof.
  eapply Forall_impl; [apply b64_chars_ok |]. intros c (v & Hv & ->). by apply b64_char_facts.
Qed.

Lemma compact_spaceless h p sig : spaceless (compact h p sig).
Proof.
  unfold compact, signingInput. repeat first [apply Forall_app; split | apply Forall_cons; split]; done || apply b64_spaceless.
Qed.

Lemma Bearer_compact h p sig : BearerToken (bearerPrefix ++ compact h p sig) = compact h p sig.
Proof.
  unfold BearerToken. rewrite length_app. rewrite (proj2 (Nat.leb_gt _ _)).
  2: { unfold compact, signingInput. rewrite !length_app. simpl. lia. }
  rewrite bool_decide_true by done. apply TrimSpace_spaceless, compact_spaceless.
Qed.

Lemma split_compact h p sig : split_char dot (compact h p sig) = [b64Encode h; b64Encode p; b64Encode sig].
Proof.
  unfold compact, signingInput. rewrite <- app_assoc. simpl.
  rewrite split_char_app by apply b64_no_dot. rewrite split_char_app by apply b64_no_dot.
  by rewrite split_char_plain by apply b64_no_dot.
Qed.

(** ** Claims that are acceptable *)

(** The numbers of decoded claims are [int64]. *)
Class JsonLaws (J : Json) : Prop :=
  json_numbers p claims k i : jsonClaims p = Some claims -> claims !! k = Some (JNumber i) -> - 2 ^ 63 <= i < 2 ^ 63.

Section host.
Context {SG : Signatures} {J : Json} {JL : JsonLaws J}.

Definition names_audience (aud : jval) (a : gostr) : Prop :=
  aud = JString a \/ exists l, aud = JArray l /\ JString a ∈ l.

(** The dates of a token, in Unix seconds, against the clock. *)
Definition unexpired (e now : Z) : Prop := now <= ns (e + unixToInternal + clockLeeway).
Definition begun (n now : Z) : Prop := ns (n + unixToInternal) <= now + ns clockLeeway.

Definition claimName (cfg : identityConfig) : gostr :=
  if decide (ic_TenantClaim cfg = []) then str "tenant" else ic_TenantClaim cfg.

(** The operator's settings vouch for tenant [t] and subject [sub] in these claims,
    with expiry [e]. *)
Record acceptable (cfg : identityConfig) (claims : gmap gostr jval) (e : Z) (t sub : gostr) : Prop := mkAcceptable {
  acc_iss : ic_Issuer cfg = [] \/ claims !! str "iss" = Some (JString (ic_Issuer cfg));
  acc_aud : exists aud, claims !! str "aud" = Some aud /\ names_audience aud (ic_Audience cfg);
  acc_exp : claims !! str "exp" = Some (JNumber e);
  acc_tenant : claims !! claimName cfg = Some (JString t);
  acc_listed : t <> [] /\ exists part, part ∈ split_char comma (ic_TenantAllowlist cfg) /\ t = TrimSpace part;
  acc_sub : sub = jstring (claims !! str "sub") }.

Lemma audienceContains_spec aud a :
  audienceContains aud a = true <-> exists x, aud = Some x /\ names_audience x a.
Proof.
  unfold names_audience. split.
  - destruct aud as [[]|]; simpl; try done.
    + intros ->%bool_decide_eq_true. eauto.
    + intros (x & Hx & E)%existsb_exists. destruct x; try done. apply bool_decide_eq_true in E as ->.
      eexists. split; [done |]. right. eexists. split; [done |]. by apply list_elem_of_In.
  - intros (x & -> & [-> | (l & -> & Hl)]); simpl; [by apply bool_decide_eq_true |].
    apply existsb_exists. exists (JString a). split; [by apply list_elem_of_In | by apply bool_decide_eq_true].
Qed.

Lemma jstring_some x s : s <> [] -> jstring x = s -> x = Some (JString s).
Proof. destruct x as [[]|]; simpl; intros; simplify_eq; congruence. Qed.

Lemma elem_of_trimmed l t : t ∈ trimmed l <-> t <> [] /\ exists part, part ∈ l /\ t = TrimSpace part.
Proof. unfold trimmed. rewrite list_elem_of_filter, list_elem_of_fmap. naive_solver. Qed.

Lemma trimmed_twice l t : t ∈ trimmed (trimmed l) <-> t <> [] /\ exists part, part ∈ l /\ t = TrimSpace part.
Proof.
  rewrite elem_of_trimmed. setoid_rewrite elem_of_trimmed. split.
  - intros (Ht & ? & (_ & part & Hp & ->) & ->). split; [done |]. exists part. split; [done | apply TrimSpace_idem].
  - intros (Ht & part & Hp & ->). split; [done |]. exists (TrimSpace part). rewrite TrimSpace_idem. eauto.
Qed.

(** What the settings make of the verifier. *)
Lemma build_fields readFile cfg v :
  buildHostIdentityVerifier readFile cfg = Ok v ->
  jv_issuer v = ic_Issuer cfg /\ jv_audience v = ic_Audience cfg /\ ic_Audience cfg <> [] /\ jv_tenantClaim v = claimName cfg /\
  (forall t, t ∈ jv_allow v <-> t <> [] /\ exists part, part ∈ split_char comma (ic_TenantAllowlist cfg) /\ t = TrimSpace part).
Proof.
  unfold buildHostIdentityVerifier, NewJWTVerifier. intros H.
  repeat (case_decide || case_match; simplify_eq/=); split_and!; try done.
  all: first [by unfold claimName; case_decide | intros t; rewrite elem_of_list_to_set; apply trimmed_twice].
Qed.

(** ** Dates *)

Lemma expiry_sound e now :
  - 2 ^ 63 <= e < 2 ^ 63 -> 0 <= now -> (ns (addSeconds (timeUnix e) clockLeeway) <? now) = false -> unexpired e now.
Proof.
  unfold unexpired, addSeconds, timeUnix, unixToInternal, clockLeeway, ns, i64. intros He Hn H%Z.ltb_ge.
  destruct (decide (e + 62135596800 < 2 ^ 63)).
  - rewrite Z.mod_small in H by lia. lia.
  - replace (e + 62135596800 + 2 ^ 63) with (e + 62135596800 - 2 ^ 63 + 1 * 2 ^ 64) in H by lia.
    rewrite Z_mod_plus_full, Z.mod_small in H by lia. lia.
Qed.

Lemma timeUnix_small i : 0 <= i < 2 ^ 62 -> timeUnix i = i + unixToInternal.
Proof. intros ?. unfold timeUnix. apply i64_small. unfold unixToInternal. lia. Qed.

Lemma expiry_complete e now :
  0 <= e < 2 ^ 62 -> unexpired e now -> (ns (addSeconds (timeUnix e) clockLeeway) <? now) = false.
Proof.
  unfold unexpired, addSeconds. intros He H. rewrite timeUnix_small by done. apply Z.ltb_ge.
  unfold unixToInternal, clockLeeway, ns in *. lia.
Qed.

(** [nbf] is looked at only if it is a number. *)
Definition nbf_ok (claims : gmap gostr jval) (now : Z) : Prop :=
  forall n, claims !! str "nbf" = Some (JNumber n) -> n < 2 ^ 63 - unixToInternal -> begun n now.

Lemma validate_sound readFile cfg v now p claims :
  buildHostIdentityVerifier readFile cfg = Ok v -> jsonClaims p = Some claims -> 0 <= now ->
  validateClaims v now claims = Ok tt ->
  (ic_Issuer cfg = [] \/ claims !! str "iss" = Some (JString (ic_Issuer cfg))) /\
  (exists aud, claims !! str "aud" = Some aud /\ names_audience aud (ic_Audience cfg)) /\
  (exists e, claims !! str "exp" = Some (JNumber e) /\ unexpired e now) /\ nbf_ok claims now.
Proof.
  intros (Ei & Ea & _)%build_fields Hj Hn H. unfold validateClaims in H. rewrite Ei, Ea in H.
  case_decide as Hiss; [done |]. destruct (audienceContains _ _) eqn:Haud; [| done]. cbn [negb] in H.
  apply audienceContains_spec in Haud. destruct (numericDate (claims !! str "exp")) as [x|] eqn:Hexp; [| done].
  destruct (_ <? now) eqn:Hlt in H; [done |]. split_and!; [| done | |].
  - destruct (decide (ic_Issuer cfg = [])); [by left | right]. apply jstring_some; [done |].
    destruct (decide (jstring (claims !! str "iss") = ic_Issuer cfg)); [done | tauto].
  - destruct (claims !! str "exp") as [[]|] eqn:E; simplify_eq/=. eexists. split; [done |].
    eapply expiry_sound; [by eapply json_numbers | done..].
  - intros n En Hr. rewrite En in H. cbn [numericDate] in H. destruct (_ <? _) eqn:Hb in H; [done |]. apply Z.ltb_ge in Hb.
    unfold begun, timeUnix in *. rewrite i64_small in Hb; [done |].
    pose proof (json_numbers _ _ _ _ Hj En). unfold unixToInternal in *. lia.
Qed.

Lemma validate_complete readFile cfg v now claims e t sub :
  buildHostIdentityVerifier readFile cfg = Ok v -> acceptable cfg claims e t sub ->
  0 <= e < 2 ^ 62 -> unexpired e now ->
  (forall n, claims !! str "nbf" = Some (JNumber n) -> 0 <= n < 2 ^ 62 /\ begun n now) ->
  validateClaims v now claims = Ok tt.
Proof.
  intros (Ei & Ea & _)%build_fields [Hi Ha He _ _ _] Hr Hu Hn. unfold validateClaims. rewrite Ei, Ea.
  rewrite decide_False by (destruct Hi as [| ->]; [tauto | simpl; tauto]).
  rewrite (proj2 (audienceContains_spec _ _)) by done. cbn [negb]. rewrite He. cbn [numericDate]. rewrite expiry_complete by done.
  destruct (claims !! str "nbf") as [[]|] eqn:En; cbn [numericDate]; try done.
  destruct (Hn _ eq_refl) as [Hr' Hb]. rewrite timeUnix_small by done. unfold begun in Hb.
  by rewrite (proj2 (Z.ltb_ge _ _)).
Qed.

(** ** The verifier *)

(** Past all checks but the last one. *)
Definition passed (v : JWTVerifier) (now : Z) (bearer : gostr) (claims : gmap gostr jval) : Prop :=
  exists p0 p1 p2 alg sig payload,
    split_char dot (TrimSpace bearer) = [p0; p1; p2] /\ b64Decode p0 ≫= jsonAlg = Some alg /\ checkAlg v alg = Ok tt /\
    b64Decode p2 = Some sig /\
    verifySignature v (p0 ++ dot :: p1) sig = Ok tt /\ b64Decode p1 = Some payload /\ jsonClaims payload = Some claims /\
    validateClaims v now claims = Ok tt /\ jstring (claims !! jv_tenantClaim v) <> [].

Lemma checks_keep_the_last v now alg m sig claims :
  checkAlg v alg <> Err ErrTenantNotAllowed /\ verifySignature v m sig <> Err ErrTenantNotAllowed /\
  validateClaims v now claims <> Err ErrTenantNotAllowed.
Proof.
  unfold checkAlg, verifySignature, validateClaims. cbv zeta.
  split_and!; repeat first [done | case_decide | case_match].
Qed.

Lemma Verify_inv v now b :
  match Verify v now b with
  | Ok id => passed v now b (hi_Claims id) /\ hi_TenantID id = jstring (hi_Claims id !! jv_tenantClaim v) /\
             hi_TenantID id ∈ jv_allow v /\ hi_Subject id = jstring (hi_Claims id !! str "sub")
  | Err ErrTenantNotAllowed =>
      exists claims, passed v now b claims /\ jstring (claims !! jv_tenantClaim v) ∉ jv_allow v
  | Err _ => True
  end.
Proof.
  unfold Verify. cbv zeta. case_decide; [done |].
  destruct (split_char _ _) as [|p0 [|p1 [|p2 [|]]]] eqn:Es; try done.
  destruct (b64Decode p0 ≫= jsonAlg) as [alg|] eqn:E0; [| done].
  destruct (checkAlg v alg) as [[]|e] eqn:Ea;
    [| pose proof (checks_keep_the_last v now alg [] [] ∅) as (? & _); by destruct e; first [done | congruence]].
  destruct (b64Decode p2) as [sig|] eqn:E2; [| done].
  destruct (verifySignature v _ sig) as [[]|e] eqn:Ev;
    [| pose proof (checks_keep_the_last v now [] (p0 ++ dot :: p1) sig ∅) as (_ & ? & _); by destruct e; first [done | congruence]].
  destruct (b64Decode p1) as [payload|] eqn:E1; simpl; [| done].
  destruct (jsonClaims payload) as [claims|] eqn:Ej; simpl; [| done].
  destruct (validateClaims v now claims) as [[]|e] eqn:Ec;
    [| pose proof (checks_keep_the_last v now [] [] [] claims) as (_ & _ & ?); by destruct e; first [done | congruence]].
  case_decide as Ht; [done |].
  assert (passed v now b claims) by (exists p0, p1, p2, alg, sig, payload; by split_and!).
  case_decide as Hin; simpl; eauto.
Qed.

(** Only the identity provider signs, and it signs tokens. *)
Definition unforgeable (v : JWTVerifier) (issued : gostr -> gostr -> Prop) : Prop :=
  forall m sig, verifySignature v m sig = Ok tt -> exists h p, issued h p /\ m = signingInput h p.

(** The credential is the token with header [h] and payload [p], and a signature of it
    that the configured key verifies. *)
Definition presents (v : JWTVerifier) (bearer h p : gostr) : Prop :=
  exists enc sig, TrimSpace bearer = signingInput h p ++ dot :: enc /\ b64Decode enc = Some sig /\
    verifySignature v (signingInput h p) sig = Ok tt.

Lemma passed_issued v issued now b claims :
  unforgeable v issued -> passed v now b claims ->
  exists h p alg, presents v b h p /\ issued h p /\ jsonAlg h = Some alg /\ checkAlg v alg = Ok tt /\
    jsonClaims p = Some claims /\ validateClaims v now claims = Ok tt.
Proof.
  intros Hf (p0 & p1 & p2 & alg & sig & payload & Es & E0 & Ea & E2 & Ev & E1 & Ej & Ec & _).
  destruct (Hf _ _ Ev) as (h & p & Hi & Em). apply split_three in Es as (Eb & D0 & _ & _).
  destruct (app_sep_inj _ _ _ _ _ D0 (b64_no_dot h) Em) as [-> ->]. rewrite b64_roundtrip in *. simplify_eq/=.
  exists h, payload, alg. split; [| done]. exists p2, sig. split; [| done].
  rewrite Eb. unfold signingInput. by rewrite <- app_assoc.
Qed.

Lemma whoami_inv v now auth :
  match RequireHostIdentity v now auth handleWhoami with
  | Whoami t sub => exists id, Verify v now (BearerToken auth) = Ok id /\ t = hi_TenantID id /\ sub = hi_Subject id
  | Denied st c d =>
      (st = 401 /\ c = str "invalid_token" /\ d = []) \/
      (st = 403 /\ Verify v now (BearerToken auth) = Err ErrTenantNotAllowed)
  end.
Proof.
  unfold RequireHostIdentity. destruct (Verify _ _ _) as [id|e] eqn:E; simpl; [by exists id |]. destruct e; auto.
Qed.

(** C21: The host's identity provider decides who gets in, within what the operator
    allows.  If nobody else can sign, whoever is answered with a tenant and a subject
    presented a token that the provider issued, with a signature of the configured key and
    its algorithm, and the claims of this very token name this service, the configured
    issuer, that tenant, which the operator's list has, and that subject; the token has not
    expired and, if it says when it begins (with a date within 64 bits), has begun, up to a
    minute.  A refusal says no more than that the token is invalid, unless the provider
    issued the token that was presented: then it may say that no tenant of the list is
    named.  And a token of the provider that meets these conditions, with dates in range
    and not issued in the future (a later date of issue is not looked at, see
    [future_iat_accepted]), is accepted. *)
Theorem host_identity_exact issued readFile cfg v now :
  buildHostIdentityVerifier readFile cfg = Ok v -> unforgeable v issued -> 0 <= now ->
  (forall auth t sub, RequireHostIdentity v now auth handleWhoami = Whoami t sub ->
     exists h p alg claims e, presents v (BearerToken auth) h p /\ issued h p /\
       jsonAlg h = Some alg /\ checkAlg v alg = Ok tt /\ jsonClaims p = Some claims /\
       acceptable cfg claims e t sub /\ unexpired e now /\ nbf_ok claims now) /\
  (forall auth st c d, RequireHostIdentity v now auth handleWhoami = Denied st c d ->
     (st = 401 /\ c = str "invalid_token" /\ d = []) \/
     (st = 403 /\ exists h p claims, presents v (BearerToken auth) h p /\ issued h p /\
        jsonClaims p = Some claims /\ forall e t sub, ~ acceptable cfg claims e t sub)) /\
  (forall h p sig alg claims e t sub,
     jsonAlg h = Some alg -> checkAlg v alg = Ok tt -> verifySignature v (signingInput h p) sig = Ok tt ->
     jsonClaims p = Some claims -> acceptable cfg claims e t sub -> 0 <= e < 2 ^ 62 -> unexpired e now ->
     (forall n, claims !! str "nbf" = Some (JNumber n) -> 0 <= n < 2 ^ 62 /\ begun n now) ->
     (forall n, claims !! str "iat" = Some (JNumber n) -> begun n now) ->
     RequireHostIdentity v now (bearerPrefix ++ compact h p sig) handleWhoami = Whoami t sub).
Proof.
  intros Hb Hf Hn. pose proof (build_fields _ _ _ Hb) as (_ & _ & _ & Ec & Hal). split_and!.
  - intros auth t sub E. pose proof (whoami_inv v now auth) as H. rewrite E in H. destruct H as (id & Ev & -> & ->).
    pose proof (Verify_inv v now (BearerToken auth)) as H. rewrite Ev in H. destruct H as (Hp & Ht & Hin & ->).
    destruct (passed_issued _ _ _ _ _ Hf Hp) as (h & p & alg & Hpr & Hi & Ha & Hc & Hj & Hv).
    destruct (validate_sound _ _ _ _ _ _ Hb Hj Hn Hv) as (Hiss & Haud & (e & He & Hu) & Hnbf).
    exists h, p, alg, (hi_Claims id), e. do 5 (split; [done |]). split; [| done]. apply Hal in Hin as Hl.
    split; try done. rewrite Ec in Ht. by apply jstring_some; [destruct Hl |].
  - intros auth st c d E. pose proof (whoami_inv v now auth) as H. rewrite E in H. destruct H as [? | [-> Ev]]; [by left |].
    right. split; [done |]. pose proof (Verify_inv v now (BearerToken auth)) as H. rewrite Ev in H.
    destruct H as (claims & Hp & Hno). destruct (passed_issued _ _ _ _ _ Hf Hp) as (h & p & alg & Hpr & Hi & _ & _ & Hj & _).
    exists h, p, claims. do 3 (split; [done |]). intros e t sub [_ _ _ Ht Hl _]. apply Hno, Hal.
    by rewrite Ec, Ht.
  - intros h p sig alg claims e t sub Ha Hc Hs Hj Hacc He Hu Hnbf _. unfold RequireHostIdentity. rewrite Bearer_compact.
    assert (Verify v now (compact h p sig) = Ok (mkHost t sub claims)) as ->; [| done].
    unfold Verify. cbv zeta. rewrite (TrimSpace_spaceless (compact h p sig)) by apply compact_spaceless.
    rewrite decide_False by (unfold compact, signingInput; by destruct (b64Encode h)). rewrite split_compact, !b64_roundtrip.
    simpl. rewrite Ha, Hc. unfold signingInput in Hs. rewrite Hs, Hj. rewrite (validate_complete _ _ _ _ _ _ _ _ Hb Hacc) by done.
    destruct Hacc as [_ _ _ Ht Hl ->]. rewrite Ec, Ht. simpl. rewrite decide_False by by destruct Hl.
    by rewrite decide_True by by apply Hal.
Qed.

End host.

(** ** A concrete provider *)

Module ToyHost.
Definition h : gostr := str "{alg:EdDSA}".
Definition p : gostr := str "{tenant:acme}".
Definition sig : gostr := str "sig".

Definition claims : gmap gostr jval :=
  {[str "aud" := JArray [JString (str "other"); JString (str "orlop")]; str "exp" := JNumber 1700000000;
    str "nbf" := JNumber 1690000000; str "tenant" := JString (str "acme"); str "sub" := JString (str "bob")]}.

#[export] Instance signatures : Signatures := {
  sha256sum s := s;
  rsaVerify _ _ _ := false;
  ecdsaVerify _ _ _ _ := false;
  ed25519Verify _ m s := bool_decide (m = signingInput h p /\ s = sig);
  keyOfPEM _ := Some (Ed25519Key 1) }.

#[export] Instance json : Json := {
  jsonAlg x := if decide (x = h) then Some (str "EdDSA") else None;
  jsonClaims x := if decide (x = p) then Some claims else None }.

#[export] Instance json_laws : JsonLaws json.
Proof.
  intros x cl k i E Hk. simpl in E. case_decide; simplify_eq. unfold claims in Hk.
  repeat (apply lookup_insert_Some in Hk as [[_ ?] | [_ Hk]]; [simplify_eq; lia |]).
  by apply lookup_singleton_Some in Hk as [_ ?].
Qed.

Definition issued (x y : gostr) : Prop := x = h /\ y = p.
Definition cfg : identityConfig :=
  mkIdCfg [] (str "orlop") (str "/key.pem") [] (str "zeta, acme ,").
Definition verifier : JWTVerifier :=
  mkVerifier [] (str "orlop") (Ed25519Key 1) (str "tenant") {[str "zeta"; str "acme"]}.

Lemma built : buildHostIdentityVerifier (fun _ => Some (str "PEM")) cfg = Ok verifier.
Proof. vm_compute. reflexivity. Qed.

Lemma only_one_token : unforgeable verifier issued.
Proof.
  intros m s E. unfold verifySignature in E. cbn [jv_pub verifier ed25519Verify signatures] in E.
  case_bool_decide as B; [| done]. destruct B as [-> _]. by exists h, p.
Qed.

Lemma claims_acceptable : acceptable cfg claims 1700000000 (str "acme") (str "bob").
Proof.
  split; [by left | | by vm_compute | by vm_compute | | by vm_compute].
  - exists (JArray [JString (str "other"); JString (str "orlop")]). split; [by vm_compute |]. right. eexists. split; [done | set_solver].
  - split; [done |]. exists (str " acme "). split; [vm_compute; set_solver | by vm_compute].
Qed.
End ToyHost.

Import ToyHost.

(** The date of issue is not looked at: a token of tomorrow is accepted today. *)
Example future_iat_accepted :
  validateClaims ToyHost.verifier (ns (1690000000 + unixToInternal))
    (<[str "iat" := JNumber 1690086400]> ToyHost.claims) = Ok tt.
Proof. by vm_compute. Qed.

Lemma host_identity_exact_witness :
  RequireHostIdentity ToyHost.verifier (ns (1700000059 + unixToInternal))
    (bearerPrefix ++ compact ToyHost.h ToyHost.p ToyHost.sig) handleWhoami = Whoami (str "acme") (str "bob") /\
  RequireHostIdentity ToyHost.verifier (ns (1700000061 + unixToInternal))
    (bearerPrefix ++ compact ToyHost.h ToyHost.p ToyHost.sig) handleWhoami = Denied 401 (str "invalid_token") [].
Proof.
  split; [| by vm_compute].
  destruct (host_identity_exact ToyHost.issued _ _ _ (ns (1700000059 + unixToInternal)) ToyHost.built ToyHost.only_one_token)
    as (_ & _ & H); [by vm_compute |].
  apply (H ToyHost.h ToyHost.p ToyHost.sig (str "EdDSA") ToyHost.claims 1700000000 (str "acme") (str "bob")); try (exact ToyHost.claims_acceptable).
  - vm_compute. reflexivity.
  - reflexivity.
  - vm_compute. reflexivity.
  - unfold jsonClaims, json. by rewrite decide_True.
  - lia.
  - vm_compute. discriminate.
  - intros n E. vm_compute in E. simplify_eq. split; [lia | by vm_compute].
  - intros n E. vm_compute in E. discriminate.
Defined.
