(* ===== verification/Secrets.v ===== *)
(** * The secret store of the control plane

    orlop-control/internal/secrets: the key-value store that holds the authority's
    certificates and keys, in memory, in a directory, in a Postgres table, and the
    wrapper that encrypts values.  Values are byte strings.

    A directory is a tree of nodes under cleaned absolute paths, a path being its list
    of segments; the root of the store is an absolute path.  What the operating system
    and the database answer to a write is an argument, and so is the random nonce; a
    crash in the middle of a write is the answer that stops it there.  Reads and
    listings of what is there succeed.

    The operations of a script run one after the other.  The mutex of the store in memory
    and the single statements of Postgres make each of theirs one step; [Get] and [Put] of
    the directory hold no mutex, so for them this says that no two of them overlap: two
    overlapping writes of one key share its temporary file.  The authority's writes are
    made under [WithLock], its reads are not. *)

From S2P Require Import Prelude GoPath Enroll Certs Ca.

Inductive serr := IsDirectory | NotDirectory | IOFailed | TooShort | UnknownVersion | CannotOpen | NoRandom.

(** ** The interface *)

(** [IO]: the answers of the environment to one write. *)
Class Backend (S IO : Type) := {
  bGet : gostr -> S -> result serr (option gostr);
  bPut : IO -> gostr -> gostr -> S -> result serr unit * S;
  bList : gostr -> S -> result serr (list gostr) }.

Definition str_le (a b : gostr) : Prop := char_leb a b = true.

#[export] Instance str_le_dec a b : Decision (str_le a b).
Proof. unfold str_le. apply _. Defined.

(** ** Memory *)

Abbreviation Memory := (gmap gostr gostr).

Definition memGet (key : gostr) (m : Memory) : result serr (option gostr) := Ok (m !! key).

Definition memPut (_ : unit) (key value : gostr) (m : Memory) : result serr unit * Memory :=
  (Ok tt, <[key := value]> m).

Definition memList (prefix : gostr) (m : Memory) : result serr (list gostr) :=
  Ok (merge_sort str_le (filter (fun k => HasPrefix k prefix = true) (map_to_list m).*1)).

#[export] Instance memory_backend : Backend Memory unit := { bGet := memGet; bPut := memPut; bList := memList }.

(** ** Directory *)

Inductive node := NDir | NFile (b : gostr).
Abbreviation tree := (gmap (list gostr) node).

(** [filepath.Join(f.root, filepath.FromSlash(key))]. *)
Definition fpath (root key : gostr) : list gostr := clean_segs true (split_slash (root ++ slash :: key)).

Definition ancestors (p : list gostr) : list (list gostr) := (fun n => take n p) <$> seq 0 (length p).

Definition is_file (n : option node) : bool := match n with Some (NFile _) => true | _ => false end.

(** A path below a file fails with [ENOTDIR], which is not [fs.ErrNotExist]. *)
Definition under_file (p : list gostr) (t : tree) : bool := existsb (fun q => is_file (t !! q)) (ancestors p).

Definition fsGet (root key : gostr) (t : tree) : result serr (option gostr) :=
  let p := fpath root key in
  match t !! p with
  | Some (NFile b) => Ok (Some b)
  | Some NDir => Err IsDirectory
  | None => if under_file p t then Err NotDirectory else Ok None
  end.

(** How far a write gets: the directories that can still be made ([None]: all), the
    temporary file (complete; not opened; cut after some bytes) and the rename (done; not
    done; done, but the process dies before it can answer). *)
Inductive written := Complete | NotOpened | CutAfter (n : nat).
Inductive renamed := RenameDone | RenameFailed | RenameUnanswered.
Record fsIO := mkFsIO { io_mkdir : option nat; io_write : written; io_rename : renamed }.

(** [os.MkdirAll], from the root down. *)
Fixpoint mkdirAll (left : option nat) (qs : list (list gostr)) (t : tree) : bool * tree :=
  match qs with
  | [] => (true, t)
  | q :: qs' =>
      match t !! q with
      | Some NDir => mkdirAll left qs' t
      | Some (NFile _) => (false, t)
      | None =>
          match left with
          | Some O => (false, t)
          | _ => mkdirAll (Nat.pred <$> left) qs' (<[q := NDir]> t)
          end
      end
  end.

(** [p + ".tmp"]. *)
Definition tmpOf (p : list gostr) : list gostr :=
  match reverse p with [] => [str ".tmp"] | s :: r => reverse r ++ [s ++ str ".tmp"] end.

Definition fsPut (root : gostr) (io : fsIO) (key value : gostr) (t : tree) : result serr unit * tree :=
  let p := fpath root key in
  let tmp := tmpOf p in
  match mkdirAll (io_mkdir io) (ancestors p) t with
  | (false, t1) => (Err IOFailed, t1)
  | (true, t1) =>
      match t1 !! tmp, io_write io with
      | Some NDir, _ => (Err IsDirectory, t1)
      | _, NotOpened => (Err IOFailed, t1)
      | _, CutAfter n => (Err IOFailed, <[tmp := NFile (take n value)]> t1)
      | _, Complete =>
          let t2 := <[tmp := NFile value]> t1 in
          match t2 !! p with
          | Some NDir => (Err IsDirectory, t2)
          | _ =>
              let t3 := <[p := NFile value]> (delete tmp t2) in
              match io_rename io with
              | RenameDone => (Ok tt, t3)
              | RenameFailed => (Err IOFailed, t2)
              | RenameUnanswered => (Err IOFailed, t3)
              end
          end
      end
  end.

(** [filepath.Rel(f.root, path)] of a path below the root. *)
Definition relOf (root : gostr) (p : list gostr) : gostr := join_slash (drop (length (fpath root [])) p).

Definition fsList (root prefix : gostr) (t : tree) : result serr (list gostr) :=
  let base := fpath root prefix in
  match t !! base with
  | None => if under_file base t then Err NotDirectory else Ok []
  | Some (NFile _) => Ok [relOf root base]
  | Some NDir =>
      Ok (merge_sort str_le (relOf root <$> filter (fun p => base `prefix_of` p /\ is_file (t !! p) = true) (map_to_list t).*1))
  end.

Definition filesystem (root : gostr) : Backend tree fsIO :=
  {| bGet := fsGet root; bPut := fsPut root; bList := fsList root |}.

(** ** Postgres *)

(** The rows of dg_ca_secrets: the value and [updated_at]. *)
Abbreviation ca_secrets := (gmap gostr (gostr * Z)).

(** The statement is done, fails, or is done and its answer is lost. *)
Inductive executed := ExecDone | ExecFailed | ExecUnanswered.
Record pgIO := mkPgIO { pg_exec : executed; pg_now : Z }.

Definition pgGet (key : gostr) (t : ca_secrets) : result serr (option gostr) := Ok (fst <$> t !! key).

Definition pgPut (io : pgIO) (key value : gostr) (t : ca_secrets) : result serr unit * ca_secrets :=
  let t' := <[key := (value, pg_now io)]> t in
  match pg_exec io with
  | ExecDone => (Ok tt, t')
  | ExecFailed => (Err IOFailed, t)
  | ExecUnanswered => (Err IOFailed, t')
  end.

(** [ORDER BY key] in the collation of the database. *)
Definition coll_le (collation : gostr -> gostr -> bool) (a b : gostr) : Prop := collation a b = true.

#[export] Instance coll_le_dec collation a b : Decision (coll_le collation a b).
Proof. unfold coll_le. apply _. Defined.

Definition pgList (collation : gostr -> gostr -> bool) (prefix : gostr) (t : ca_secrets) : result serr (list gostr) :=
  Ok (merge_sort (coll_le collation) (filter (fun k => HasPrefix k prefix = true) (map_to_list t).*1)).

Definition postgres (collation : gostr -> gostr -> bool) : Backend ca_secrets pgIO :=
  {| bGet := pgGet; bPut := pgPut; bList := pgList collation |}.

(** ** Encryption *)

(** [cipher.AEAD] with the key that it was made with. *)
Class AEAD := {
  NonceSize : nat;
  aeadSeal : gostr -> gostr -> gostr;
  aeadOpen : gostr -> gostr -> option gostr }.

Class AEADLaws (A : AEAD) : Prop :=
  open_seal nonce pt : length nonce = NonceSize -> aeadOpen nonce (aeadSeal nonce pt) = Some pt.

Definition encVersion : ascii := "001"%char.

Section encrypted.
Context {A : AEAD} {S IO : Type} (inner : Backend S IO).

(** [nonce]: what [rand.Reader] gives. *)
Definition seal (nonce : option gostr) (pt : gostr) : result serr gostr :=
  match nonce with
  | None => Err NoRandom
  | Some n => Ok (encVersion :: n ++ aeadSeal n pt)
  end.

Definition openBlob (blob : gostr) : result serr gostr :=
  if (length blob <? 1 + NonceSize)%nat then Err TooShort
  else if decide (head blob <> Some encVersion) then Err UnknownVersion
  else
    match aeadOpen (take NonceSize (drop 1 blob)) (drop (1 + NonceSize) blob) with
    | None => Err CannotOpen
    | Some pt => Ok pt
    end.

Definition encGet (key : gostr) (s : S) : result serr (option gostr) :=
  match bGet key s with
  | Err e => Err e
  | Ok None => Ok None
  | Ok (Some blob) => match openBlob blob with Err e => Err e | Ok pt => Ok (Some pt) end
  end.

Definition encPut (io : option gostr * IO) (key value : gostr) (s : S) : result serr unit * S :=
  match seal io.1 value with
  | Err e => (Err e, s)
  | Ok sealed => bPut io.2 key sealed s
  end.

Definition encrypted : Backend S (option gostr * IO) :=
  {| bGet := encGet; bPut := encPut; bList := bList |}.
End encrypted.

(** [NewEncrypted] takes exactly 32 bytes of key. *)
Definition NewEncrypted {A S IO} (aead : gostr -> A) (wrap : A -> Backend S IO) (key : gostr) : option (Backend S IO) :=
  if (length key =? 32)%nat then Some (wrap (aead key)) else None.

(** ** Critical sections *)

(** [WithLock] of the directory and of memory: the callback runs on the store. *)
Definition lockPlain {S R} (fn : S -> result serr R * S) (s : S) : result serr R * S := fn s.

(** Of Postgres: a transaction on one connection, which is rolled back when the
    callback or the commit fails; the answer to a commit may be lost. *)
Inductive commitOut := Committed | RolledBack | AnswerLost.

Definition lockTx {S R} (begin_ : bool) (commit : commitOut) (fn : S -> result serr R * S) (s : S) : result serr R * S :=
  if negb begin_ then (Err IOFailed, s)
  else
    match fn s with
    | (Err e, _) => (Err e, s)
    | (Ok r, s') =>
        match commit with
        | Committed => (Ok r, s')
        | RolledBack => (Err IOFailed, s)
        | AnswerLost => (Err IOFailed, s')
        end
    end.
