(* ===== verification/SecretsProps.v ===== *)
(** * The secret stores keep a map

    Theorems on Secrets.v: every store answers as a map from keys to values does,
    also when writes fail or are cut short, for the keys that the authority uses. *)

From S2P Require Import Prelude GoPath Enroll Certs Ca Secrets.

(** ** The keys of the authority *)

Definition leaf (s : gostr) : Prop := s = str "cert.pem" \/ s = str "key.pem".

(** The names of values and of their temporary files. *)
Definition reserved (s : gostr) : Prop := leaf s \/ exists l, leaf l /\ s = l ++ str ".tmp".

Definition plainDir (s : gostr) : Prop := good_seg s /\ ~ reserved s.

Definition secretKey (k : gostr) : Prop :=
  exists dirs name, Forall plainDir dirs /\ leaf name /\ k = join_slash (dirs ++ [name]).

Definition secretDir (pre : gostr) : Prop :=
  exists dirs, Forall plainDir dirs /\ dirs <> [] /\ pre = join_slash dirs ++ [slash].

#[local] Instance good_seg_dec s : Decision (good_seg s).
Proof. unfold good_seg. apply _. Defined.

(** ** What a store promises *)

(** [possible]: the answers an environment can give to a write; [healthy]: those of
    one where nothing fails.  A listing has every key below the prefix, and nothing else
    but, below the prefix too, what the store leaves behind ([stray]).  A write that is
    not acknowledged is made or not, as a whole. *)
Definition listing (stray : gostr -> Prop) (m : gmap gostr gostr) (pre : gostr) (l : list gostr) : Prop :=
  (forall k, is_Some (m !! k) -> pre `prefix_of` k -> k ∈ l) /\
  (forall k, k ∈ l -> pre `prefix_of` k /\ (is_Some (m !! k) \/ stray k)).

Class Refines {S IO} (B : Backend S IO) (possible healthy : IO -> Prop) (stray : gostr -> Prop)
    (rel : S -> gmap gostr gostr -> Prop) : Prop := {
  ref_get s m k : rel s m -> secretKey k -> bGet k s = Ok (m !! k);
  ref_put s m io k v : rel s m -> secretKey k -> possible io ->
    match bPut io k v s with
    | (Ok _, s') => rel s' (<[k := v]> m)
    | (Err _, s') => (rel s' m \/ rel s' (<[k := v]> m)) /\ ~ healthy io
    end;
  ref_list s m pre : rel s m -> secretDir pre -> exists l, bList pre s = Ok l /\ listing stray m pre l }.

(** ** Scripts *)

Inductive sop_ (IO : Type) := SGet (k : gostr) | SPut (io : IO) (k v : gostr) | SList (pre : gostr).
Arguments SGet {IO} k.
Arguments SPut {IO} io k v.
Arguments SList {IO} pre.

Inductive answer :=
| AGet (r : result serr (option gostr))
| APut (r : result serr unit)
| AList (r : result serr (list gostr)).

Section scripts.
Context {S IO : Type} (B : Backend S IO).

Fixpoint run_script (ops : list (sop_ IO)) (s : S) : list answer * S :=
  match ops with
  | [] => ([], s)
  | SGet k :: ops' => let '(l, s') := run_script ops' s in (AGet (bGet k s) :: l, s')
  | SList pre :: ops' => let '(l, s') := run_script ops' s in (AList (bList pre s) :: l, s')
  | SPut io k v :: ops' => let '(r, s1) := bPut io k v s in let '(l, s') := run_script ops' s1 in (APut r :: l, s')
  end.

Context (possible healthy : IO -> Prop) (stray : gostr -> Prop).

Definition op_ok (o : sop_ IO) : Prop :=
  match o with
  | SGet k => secretKey k
  | SPut io k _ => secretKey k /\ possible io
  | SList pre => secretDir pre
  end.

(** The answers of a map, to which the writes that were acknowledged are applied, and of
    those that were not each one whole or not at all; a write fails only if its
    environment does. *)
Fixpoint explains (ops : list (sop_ IO)) (l : list answer) (m : gmap gostr gostr) : Prop :=
  match ops, l with
  | [], [] => True
  | SGet k :: ops', AGet r :: l' => r = Ok (m !! k) /\ explains ops' l' m
  | SPut io k v :: ops', APut (Ok _) :: l' => explains ops' l' (<[k := v]> m)
  | SPut io k v :: ops', APut (Err _) :: l' => ~ healthy io /\ (explains ops' l' m \/ explains ops' l' (<[k := v]> m))
  | SList pre :: ops', AList r :: l' =>
      (exists ks, r = Ok ks /\ listing stray m pre ks) /\ explains ops' l' m
  | _, _ => False
  end.

Lemma run_explained `{!Refines B possible healthy stray rel} ops s m :
  Forall op_ok ops -> rel s m -> explains ops (run_script ops s).1 m.
Proof.
  intros Hops. revert s m. induction Hops as [|o ops Ho Hops IH]; intros s m R; [done |].
  destruct o as [k|io k v|pre]; simpl.
  - specialize (IH s m R). destruct (run_script ops s) as [l s']. split; [by eapply ref_get | done].
  - destruct Ho as [Hk Hio]. pose proof (ref_put s m io k v R Hk Hio) as Hp.
    destruct (bPut io k v s) as [[[]|e] s1]; 
      [specialize (IH _ _ Hp) | destruct Hp as [[R'|R'] Hh]; specialize (IH _ _ R')];
      destruct (run_script ops s1) as [l s']; [done | split; auto ..].
  - specialize (IH s m R). destruct (run_script ops s) as [l s']. split; [by eapply ref_list | done].
Qed.
End scripts.

(** ** Memory and Postgres *)

Definition none (_ : gostr) : Prop := False.

Lemma prefix_listing {V} (f : V -> gostr) (le : gostr -> gostr -> Prop) `{!RelDecision le} (m : gmap gostr V) pre :
  listing none (f <$> m) pre (merge_sort le (filter (fun k => HasPrefix k pre = true) (map_to_list m).*1)).
Proof.
  assert (forall k, k ∈ merge_sort le (filter (fun k => HasPrefix k pre = true) (map_to_list m).*1) <->
    is_Some ((f <$> m) !! k) /\ pre `prefix_of` k) as H.
  { intros k. rewrite merge_sort_Permutation, list_elem_of_filter. unfold HasPrefix. rewrite bool_decide_eq_true.
    rewrite list_elem_of_fmap, lookup_fmap, fmap_is_Some. split.
    - intros (Hp & [k' v] & -> & Hin%elem_of_map_to_list). simpl. eauto.
    - intros ([v Hv] & Hp). split; [done |]. exists (k, v). by rewrite elem_of_map_to_list. }
  split; [intros k Hk Hp; by apply H | intros k [Hk Hp]%H; auto].
Qed.

#[export] Instance memory_refines : Refines memory_backend (fun _ => True) (fun _ => True) none (=).
Proof.
  split; [intros ?? k -> _; done | intros s m io k v -> _ _; done |]. intros s m pre -> _. eexists. split; [reflexivity |].
  rewrite <- (map_fmap_id m) at 1. apply prefix_listing.
Qed.

#[export] Instance postgres_refines collation :
  Refines (postgres collation) (fun _ => True) (fun io => pg_exec io = ExecDone) none (fun t m => fst <$> t = m).
Proof.
  split.
  - intros t m k <- _. simpl. unfold pgGet. by rewrite lookup_fmap.
  - intros t m io k v <- _ _. simpl. unfold pgPut. destruct (pg_exec io); simpl; rewrite ?fmap_insert; auto.
  - intros t m pre <- _. eexists. split; [reflexivity | apply prefix_listing].
Qed.

(** ** Encryption *)

Section encryption.
Context {A : AEAD} {AL : AEADLaws A}.

Lemma open_sealed n pt blob : length n = NonceSize -> seal (Some n) pt = Ok blob -> openBlob blob = Ok pt.
Proof.
  intros Hn E. simpl in E. simplify_eq. unfold openBlob. cbn [length]. rewrite length_app.
  rewrite (proj2 (Nat.ltb_ge _ _)) by lia. rewrite decide_False by (simpl; tauto).
  assert (take NonceSize (drop 1 (encVersion :: n ++ aeadSeal n pt)) = n) as ->
    by (exact (take_app_length' _ _ _ (eq_sym Hn))).
  assert (drop (1 + NonceSize) (encVersion :: n ++ aeadSeal n pt) = aeadSeal n pt) as ->
    by (exact (drop_app_length' _ _ _ (eq_sym Hn))).
  by rewrite open_seal.
Qed.

(** Every stored value opens to the value of the map. *)
Definition sealed_rel {S} (rel : S -> gmap gostr gostr -> Prop) (s : S) (m : gmap gostr gostr) : Prop :=
  exists m', rel s m' /\ map_Forall2 (fun _ blob v => openBlob blob = Ok v) m' m.

Definition possible_enc {IO} (possible : IO -> Prop) (io : option gostr * IO) : Prop :=
  (forall n, io.1 = Some n -> length n = NonceSize) /\ possible io.2.

Definition healthy_enc {IO} (healthy : IO -> Prop) (io : option gostr * IO) : Prop := is_Some io.1 /\ healthy io.2.

#[export] Instance encrypted_refines {S IO} (B : Backend S IO) possible healthy stray rel `{!Refines B possible healthy stray rel} :
  Refines (encrypted B) (possible_enc possible) (healthy_enc healthy) stray (sealed_rel rel).
Proof.
  split.
  - intros s m k (m' & R & F) Hk. simpl. unfold encGet. rewrite (ref_get _ _ _ R Hk).
    destruct (F k) as [blob v Hb |]; [by rewrite Hb | done].
  - intros s m io k v (m' & R & F) Hk [Hn Hp]. simpl. unfold encPut.
    destruct io as [[n|] io]; simpl in *; [| split; [left; by exists m' | by intros [[]]]].
    assert (openBlob (encVersion :: n ++ aeadSeal n v) = Ok v) as Hopen by (eapply open_sealed; [by apply Hn | done]).
    pose proof (ref_put s m' io k (encVersion :: n ++ aeadSeal n v) R Hk Hp) as Hput.
    destruct (bPut io k _ s) as [[[]|e] s'].
    + eexists. split; [exact Hput |]. by apply map_Forall2_insert_2.
    + destruct Hput as [[R'|R'] Hh]; (split; [| by intros []]); [left; by exists m' | right].
      eexists. split; [exact R' |]. by apply map_Forall2_insert_2.
  - intros s m pre (m' & R & F) Hpre. destruct (ref_list _ _ _ R Hpre) as (l & El & H1 & H2). exists l. split; [done |].
    assert (forall k, is_Some (m' !! k) <-> is_Some (m !! k)) as Hm by (intros k; rewrite !is_Some_alt; by destruct (F k)).
    split; [intros k Hk; apply H1; by apply Hm |]. intros k Hk. destruct (H2 k Hk) as [Hp [Hs|Hs]]; [| by auto].
    split; [done |]. left. by apply Hm.
Qed.
End encryption.

(** ** Paths of the directory store *)

Lemma split_slash_app_gen s t : split_slash (s ++ slash :: t) = split_slash s ++ split_slash t.
Proof.
  induction s as [|c s IH]; simpl; [done |]. case_decide; simpl; [by rewrite IH |].
  rewrite IH. destruct (split_slash s) as [|seg segs] eqn:E; simpl; [| done].
  by destruct s; simpl in E; [| case_decide; [| case_match]].
Qed.

Lemma split_slash_join segs : segs <> [] -> Forall (fun s => slash ∉ s) segs -> split_slash (join_slash segs) = segs.
Proof.
  intros Hne Hf. induction Hf as [|s segs Hs Hf IH]; [done |]. destruct segs as [|s' segs]; [by apply split_slash_plain |].
  change (join_slash (s :: s' :: segs)) with (s ++ slash :: join_slash (s' :: segs)).
  rewrite split_slash_app by done. by rewrite IH.
Qed.

Lemma foldl_clean_good out segs :
  Forall good_seg segs -> foldl (clean_step true) out segs = reverse segs ++ out.
Proof.
  intros Hf. revert out. induction Hf as [|s segs (H1 & H2 & H3 & H4) Hf IH]; intros out; simpl; [done |].
  rewrite clean_step_good by done. rewrite IH, reverse_cons, <- app_assoc. done.
Qed.

Section paths.
Context (root : gostr).

Definition rootSegs : list gostr := fpath root [].

Lemma rootSegs_good : Forall good_seg rootSegs.
Proof. apply clean_segs_inv, split_slash_no_slash. Qed.

Lemma rootSegs_eq : rootSegs = clean_segs true (split_slash root).
Proof.
  unfold rootSegs, fpath. rewrite split_slash_app_gen. simpl. unfold clean_segs. rewrite foldl_app. simpl.
  unfold clean_step at 1. by rewrite decide_True by by left.
Qed.

Lemma fpath_join segs : segs <> [] -> Forall good_seg segs -> fpath root (join_slash segs) = rootSegs ++ segs.
Proof.
  intros Hne Hf. rewrite rootSegs_eq. unfold fpath. rewrite split_slash_app_gen.
  rewrite split_slash_join by (done || by apply good_segs_no_slash). unfold clean_segs.
  by rewrite foldl_app, foldl_clean_good, reverse_app, reverse_involutive by done.
Qed.

Lemma fpath_dir segs : segs <> [] -> Forall good_seg segs -> fpath root (join_slash segs ++ [slash]) = rootSegs ++ segs.
Proof.
  intros Hne Hf. rewrite <- (fpath_join segs) by done. unfold fpath. rewrite !split_slash_app_gen. simpl.
  unfold clean_segs. rewrite app_assoc, foldl_app. simpl. unfold clean_step at 1. by rewrite decide_True by by left.
Qed.

(** A key as the segments of its directory and its name. *)
Definition keyAt (k : gostr) (dirs : list gostr) (name : gostr) : Prop :=
  Forall plainDir dirs /\ leaf name /\ k = join_slash (dirs ++ [name]).

Lemma leaf_good s : leaf s -> good_seg s.
Proof. intros [-> | ->]; by apply (bool_decide_eq_true (good_seg _)). Qed.

Lemma tmp_good s : leaf s -> good_seg (s ++ str ".tmp").
Proof. intros [-> | ->]; by apply (bool_decide_eq_true (good_seg _)). Qed.

Lemma plain_good dirs : Forall plainDir dirs -> Forall good_seg dirs.
Proof. intros H. eapply Forall_impl; [exact H |]. by intros ? []. Qed.

Lemma key_good k dirs name : keyAt k dirs name -> Forall good_seg (dirs ++ [name]).
Proof. intros (Hd & Hn & _). apply Forall_app. split; [by apply plain_good | apply Forall_singleton, leaf_good, Hn]. Qed.

Lemma fpath_key k dirs name : keyAt k dirs name -> fpath root k = (rootSegs ++ dirs) ++ [name].
Proof.
  intros H. pose proof (key_good _ _ _ H). destruct H as (_ & _ & ->).
  rewrite fpath_join; [by rewrite app_assoc | by destruct dirs | done].
Qed.

Lemma tmpOf_snoc l s : tmpOf (l ++ [s]) = l ++ [s ++ str ".tmp"].
Proof. unfold tmpOf. by rewrite reverse_snoc, reverse_involutive. Qed.

Lemma elem_of_ancestors (p q : list gostr) : q ∈ ancestors p <-> exists z zs, p = q ++ z :: zs.
Proof.
  unfold ancestors. rewrite list_elem_of_fmap. setoid_rewrite elem_of_seq. split.
  - intros (n & -> & Hn). destruct (drop n p) as [|z zs] eqn:E.
    + apply (f_equal length) in E. rewrite length_drop in E. simpl in E. lia.
    + exists z, zs. by rewrite <- E, take_drop.
  - intros (z & zs & ->). exists (length q). rewrite take_app_length, length_app. simpl. split; [done | lia].
Qed.

Lemma ancestors_snoc (l : list gostr) s s' : ancestors (l ++ [s]) = ancestors (l ++ [s']).
Proof.
  unfold ancestors. rewrite !length_app. simpl. apply list_fmap_ext. intros i n Hn.
  apply list_elem_of_lookup_2, elem_of_seq in Hn. by rewrite !take_app_le by lia.
Qed.

Lemma elem_of_ancestors_snoc (l q : list gostr) s : q ∈ ancestors (l ++ [s]) <-> q `prefix_of` l.
Proof.
  rewrite elem_of_ancestors. split.
  - intros (z & zs & E). induction zs as [|y zs _] using rev_ind.
    + apply app_inj_tail in E as [-> _]. done.
    + rewrite app_comm_cons, app_assoc in E. apply app_inj_tail in E as [-> _]. by apply prefix_app_r.
  - intros [r ->]. destruct r as [|z r]; [exists s, []; by rewrite app_nil_r | exists z, (r ++ [s])].
    by rewrite <- app_assoc.
Qed.

(** Directories, values and temporary files have different paths. *)
Lemma dir_is_no_value dirs (q l : list gostr) x :
  Forall plainDir dirs -> reserved x -> q `prefix_of` rootSegs ++ dirs -> q <> (rootSegs ++ l) ++ [x].
Proof.
  intros Hd Hx [r E] ->. rewrite <- !app_assoc in E. apply app_inv_head in E. subst dirs.
  rewrite !Forall_app, Forall_singleton in Hd. by destruct Hd as (_ & [_ []] & _).
Qed.

Lemma leaf_reserved s : leaf s -> reserved s.
Proof. by left. Qed.

Lemma tmp_reserved s : leaf s -> reserved (s ++ str ".tmp").
Proof. right. eauto. Qed.

Lemma tmp_is_no_leaf s l : leaf s -> leaf l -> s ++ str ".tmp" <> l.
Proof. by intros [-> | ->] [-> | ->]. Qed.

Lemma keyAt_inj k k' dirs dirs' name name' :
  keyAt k dirs name -> keyAt k' dirs' name' -> (rootSegs ++ dirs) ++ [name] = (rootSegs ++ dirs') ++ [name'] -> k = k'.
Proof.
  intros (_ & _ & ->) (_ & _ & ->) E. apply app_inj_tail in E as [E ->]. by apply app_inv_head in E as ->.
Qed.

(** ** The tree of the store *)

(** Directories are directories, and no directory has the name of a value or of a
    temporary file. *)
Record fs_wf (t : tree) : Prop := {
  wf_good p n : t !! p = Some n -> Forall good_seg p;
  wf_tree p n q : t !! p = Some n -> q ∈ ancestors p -> t !! q = Some NDir;
  wf_value dirs x : Forall plainDir dirs -> reserved x -> t !! ((rootSegs ++ dirs) ++ [x]) <> Some NDir;
  wf_dir dirs q : Forall plainDir dirs -> q `prefix_of` rootSegs ++ dirs -> is_file (t !! q) = false;
  wf_file p b : t !! p = Some (NFile b) -> exists dirs x, Forall plainDir dirs /\ reserved x /\ p = (rootSegs ++ dirs) ++ [x] }.

Lemma wf_mkdir t dirs q :
  fs_wf t -> Forall plainDir dirs -> q `prefix_of` rootSegs ++ dirs -> (forall y, y ∈ ancestors q -> t !! y = Some NDir) ->
  fs_wf (<[q := NDir]> t).
Proof.
  intros W Hd Hq Ha. split.
  - intros p n [[<- _] | [_ E]]%lookup_insert_Some; [| by eapply wf_good]. destruct Hq as [r Hr].
    pose proof (Forall_app_2 _ _ _ rootSegs_good (plain_good _ Hd)) as Hg. rewrite Hr, Forall_app in Hg. tauto.
  - intros p n y E Hy. destruct (decide (y = q)) as [-> | Hne]; [by rewrite lookup_insert_eq |].
    rewrite lookup_insert_ne by done. apply lookup_insert_Some in E as [[<- _] | [_ E]]; [by apply Ha | by eapply wf_tree].
  - intros dirs' x Hd' Hx. rewrite lookup_insert_ne by (eapply dir_is_no_value; [exact Hd | done | exact Hq]). by apply wf_value.
  - intros dirs' y Hd' Hy. destruct (decide (y = q)) as [-> | Hne]; [by rewrite lookup_insert_eq |].
    rewrite lookup_insert_ne by done. by eapply wf_dir.
  - intros p b [[_ ?] | [_ E]]%lookup_insert_Some; [done | by eapply wf_file].
Qed.

Lemma wf_write t dirs x b :
  fs_wf t -> Forall plainDir dirs -> reserved x -> good_seg x ->
  (forall y, y `prefix_of` rootSegs ++ dirs -> t !! y = Some NDir) -> fs_wf (<[(rootSegs ++ dirs) ++ [x] := NFile b]> t).
Proof.
  intros W Hd Hx Hg Ha. set (q := (rootSegs ++ dirs) ++ [x]).
  assert (forall y, y `prefix_of` rootSegs ++ dirs -> y <> q) as Hdisj by (intros y Hy; by eapply dir_is_no_value).
  split.
  - intros p n [[<- _] | [_ E]]%lookup_insert_Some; [| by eapply wf_good]. apply Forall_app; split; [| by apply Forall_singleton].
    apply Forall_app_2; [apply rootSegs_good | by apply plain_good].
  - intros p n y E Hy. apply lookup_insert_Some in E as [[<- _] | [_ E]].
    + apply elem_of_ancestors_snoc in Hy as Hp. rewrite lookup_insert_ne by (symmetry; by apply Hdisj). by apply Ha.
    + pose proof (wf_tree _ W _ _ _ E Hy) as HD. rewrite lookup_insert_ne; [done |].
      intros <-. by apply (wf_value _ W dirs x).
  - intros dirs' x' Hd' Hx'. destruct (decide ((rootSegs ++ dirs') ++ [x'] = q)) as [-> | Hne]; [by rewrite lookup_insert_eq |].
    rewrite lookup_insert_ne by done. by apply wf_value.
  - intros dirs' y Hd' Hy. rewrite lookup_insert_ne by (intros <-; by eapply (dir_is_no_value dirs')). by eapply wf_dir.
  - intros p b' [[<- _] | [_ E]]%lookup_insert_Some; [by exists dirs, x | by eapply wf_file].
Qed.

Lemma wf_remove t dirs x : fs_wf t -> Forall plainDir dirs -> reserved x -> fs_wf (delete ((rootSegs ++ dirs) ++ [x]) t).
Proof.
  intros W Hd Hx. split.
  - intros p n [_ E]%lookup_delete_Some. by eapply wf_good.
  - intros p n y [_ E]%lookup_delete_Some Hy. pose proof (wf_tree _ W _ _ _ E Hy) as HD. rewrite lookup_delete_ne; [done |].
    intros <-. by apply (wf_value _ W dirs x).
  - intros dirs' x' Hd' Hx' [_ E]%lookup_delete_Some. by eapply wf_value.
  - intros dirs' y Hd' Hy. destruct (delete _ t !! y) as [[]|] eqn:E; [done | | done].
    apply lookup_delete_Some in E as [_ E]. pose proof (wf_dir _ W _ _ Hd' Hy) as F. by rewrite E in F.
  - intros p b [_ E]%lookup_delete_Some. by eapply wf_file.
Qed.

Lemma ancestors_done (p q : list gostr) dn qs : ancestors p = dn ++ q :: qs -> ancestors q = dn.
Proof.
  intros E. assert (ancestors p !! length dn = Some q) as Eq by (by rewrite E, list_lookup_middle).
  unfold ancestors in Eq. rewrite list_lookup_fmap, fmap_Some in Eq. destruct Eq as (n & Hn & ->).
  apply lookup_seq in Hn as [-> Hn]. simpl in *.
  assert (dn = take (length dn) (ancestors p)) as -> by (by rewrite E, take_app_length).
  rewrite length_take_le by (unfold ancestors; rewrite length_fmap, length_seq; lia).
  unfold ancestors. rewrite <- fmap_take, take_seq, length_take. rewrite !Nat.min_l by lia.
  apply list_fmap_ext. intros i j Hj. apply lookup_seq in Hj as [-> Hj]. rewrite take_take. by rewrite Nat.min_l by lia.
Qed.

Lemma mkdirAll_spec dirs x qs : Forall plainDir dirs ->
  forall dn left t b t', ancestors ((rootSegs ++ dirs) ++ [x]) = dn ++ qs -> (forall y, y ∈ dn -> t !! y = Some NDir) -> fs_wf t ->
  mkdirAll left qs t = (b, t') ->
  fs_wf t' /\ (forall y, ~ y `prefix_of` rootSegs ++ dirs -> t' !! y = t !! y) /\
  (if b then forall y, y `prefix_of` rootSegs ++ dirs -> t' !! y = Some NDir else left <> None).
Proof.
  intros Hd. induction qs as [|q qs IH]; intros dn left t b t' Ep Hdn W E; simpl in E.
  { simplify_eq. split_and!; [done.. |]. intros y Hy. apply Hdn. rewrite app_nil_r in Ep. rewrite <- Ep.
    by apply elem_of_ancestors_snoc. }
  assert (q `prefix_of` rootSegs ++ dirs) as Hq.
  { apply (elem_of_ancestors_snoc _ _ x). rewrite Ep. set_solver. }
  assert (ancestors ((rootSegs ++ dirs) ++ [x]) = (dn ++ [q]) ++ qs) as Ep' by (by rewrite Ep, <- app_assoc).
  pose proof (wf_dir _ W dirs q Hd Hq) as Hf. destruct (t !! q) as [[]|] eqn:Eq; [| done |].
  - eapply (IH _ _ _ _ _ Ep'); [| done..]. intros y [Hy | ->%list_elem_of_singleton]%elem_of_app; auto.
  - assert (fs_wf (<[q := NDir]> t)) as W1.
    { eapply wf_mkdir; [done | exact Hd | done |]. intros y Hy. apply Hdn. by rewrite <- (ancestors_done _ _ _ _ Ep). }
    assert (forall y, y ∈ dn ++ [q] -> <[q := NDir]> t !! y = Some NDir) as D1.
    { intros y Hy. destruct (decide (y = q)) as [-> |]; [by rewrite lookup_insert_eq |]. rewrite lookup_insert_ne by done.
      apply elem_of_app in Hy as [Hy | Hy%list_elem_of_singleton]; [auto | done]. }
    assert (forall y, ~ y `prefix_of` rootSegs ++ dirs -> <[q := NDir]> t !! y = t !! y) as S1.
    { intros y Hy. apply lookup_insert_ne. by intros ->. }
    destruct left as [[|n]|]; [simplify_eq; by split_and! | |].
    all: destruct (IH _ _ _ _ _ Ep' D1 W1 E) as (W' & Hs & Hb); split_and!; [done | | by destruct b].
    all: intros y Hy; by rewrite Hs, S1.
Qed.

Definition content (t : tree) (p : list gostr) : option gostr :=
  match t !! p with Some (NFile b) => Some b | _ => None end.

Definition fs_rel (t : tree) (m : gmap gostr gostr) : Prop :=
  fs_wf t /\ forall k, secretKey k -> m !! k = content t (fpath root k).

Lemma fs_rel_same t t' m :
  fs_rel t m -> fs_wf t' -> (forall k, secretKey k -> t' !! fpath root k = t !! fpath root k) -> fs_rel t' m.
Proof. intros [_ Hc] W Hs. split; [done |]. intros k Hk. rewrite (Hc k Hk). unfold content. by rewrite Hs. Qed.

(** The path of a key is no directory and no temporary file. *)
Lemma key_not_dir k dirs : secretKey k -> Forall plainDir dirs -> ~ fpath root k `prefix_of` rootSegs ++ dirs.
Proof.
  intros (dirs' & name & Hk) Hd Hp. rewrite (fpath_key _ _ _ Hk) in Hp. destruct Hk as (Hd' & Hn & _).
  eapply (dir_is_no_value dirs); [done | by apply leaf_reserved | exact Hp | done].
Qed.

Lemma key_not_tmp k dirs name : secretKey k -> leaf name -> fpath root k <> (rootSegs ++ dirs) ++ [name ++ str ".tmp"].
Proof.
  intros (dirs' & name' & Hk) Hn E. rewrite (fpath_key _ _ _ Hk) in E. apply app_inj_tail in E as [_ E].
  destruct Hk as (_ & Hn' & _). by apply (tmp_is_no_leaf name name').
Qed.

Lemma key_path_inj k k' : secretKey k -> secretKey k' -> fpath root k = fpath root k' -> k = k'.
Proof.
  intros (dirs & name & Hk) (dirs' & name' & Hk') E. rewrite (fpath_key _ _ _ Hk), (fpath_key _ _ _ Hk') in E.
  by eapply keyAt_inj.
Qed.

Lemma fs_get t m k : fs_rel t m -> secretKey k -> fsGet root k t = Ok (m !! k).
Proof.
  intros [W Hc] Hk. rewrite (Hc k Hk). destruct Hk as (dirs & name & Hk). unfold fsGet, content.
  rewrite (fpath_key _ _ _ Hk). destruct Hk as (Hd & Hn & _).
  destruct (t !! _) as [[]|] eqn:E; [exfalso; eapply (wf_value _ W dirs name); [done | by apply leaf_reserved | done] | done |].
  assert (under_file ((rootSegs ++ dirs) ++ [name]) t = false) as ->; [| done].
  apply not_true_is_false. intros (q & Hq & F)%existsb_exists. apply list_elem_of_In, elem_of_ancestors_snoc in Hq.
  by rewrite (wf_dir _ W dirs q) in F.
Qed.

(** Writing the temporary file, and renaming it. *)
Lemma fs_write_tmp t m dirs name b :
  fs_rel t m -> Forall plainDir dirs -> leaf name -> (forall y, y `prefix_of` rootSegs ++ dirs -> t !! y = Some NDir) ->
  fs_rel (<[(rootSegs ++ dirs) ++ [name ++ str ".tmp"] := NFile b]> t) m.
Proof.
  intros R Hd Hn Ha. eapply fs_rel_same; [exact R | |].
  - apply wf_write; [apply R | done | by apply tmp_reserved | by apply tmp_good | done].
  - intros k' Hk'. apply lookup_insert_ne. symmetry. by apply key_not_tmp.
Qed.

Lemma fs_rename t m k dirs name v :
  fs_rel t m -> keyAt k dirs name -> (forall y, y `prefix_of` rootSegs ++ dirs -> t !! y = Some NDir) ->
  fs_rel (<[(rootSegs ++ dirs) ++ [name] := NFile v]> (delete ((rootSegs ++ dirs) ++ [name ++ str ".tmp"]) t)) (<[k := v]> m).
Proof.
  intros [W Hc] Hk Ha. pose proof Hk as (Hd & Hn & _). assert (secretKey k) as Sk by (by exists dirs, name). split.
  - apply wf_write; [apply wf_remove; [done | done | by apply tmp_reserved] | done | by apply leaf_reserved | by apply leaf_good |].
    intros y Hy. rewrite lookup_delete_ne; [by apply Ha |]. symmetry.
    eapply (dir_is_no_value dirs); [done | by apply tmp_reserved | done].
  - intros k' Hk'. rewrite <- (fpath_key _ _ _ Hk). unfold content. destruct (decide (k' = k)) as [-> | Hne].
    + by rewrite !lookup_insert_eq.
    + rewrite !lookup_insert_ne by (try done; intros E; apply Hne; symmetry; by apply key_path_inj).
      rewrite lookup_delete_ne by (symmetry; by apply key_not_tmp). by apply Hc.
Qed.

Lemma fs_put t m io k v : fs_rel t m -> secretKey k ->
  match fsPut root io k v t with
  | (Ok _, t') => fs_rel t' (<[k := v]> m)
  | (Err _, t') => (fs_rel t' m \/ fs_rel t' (<[k := v]> m)) /\ io <> mkFsIO None Complete RenameDone
  end.
Proof.
  intros R (dirs & name & Hk). pose proof Hk as (Hd & Hn & _). unfold fsPut. rewrite (fpath_key _ _ _ Hk), tmpOf_snoc.
  destruct (mkdirAll _ _ t) as [b t1] eqn:Em.
  destruct (mkdirAll_spec dirs name _ Hd [] _ _ _ _ eq_refl ltac:(by intros ? ?%elem_of_nil) (proj1 R) Em) as (W1 & S1 & B1).
  assert (fs_rel t1 m) as R1 by (eapply fs_rel_same; [done.. |]; intros k' Hk'; by apply S1, key_not_dir).
  destruct b; [| split; [by left | by intros ->]].
  assert (forall b, fs_rel (<[(rootSegs ++ dirs) ++ [name ++ str ".tmp"] := NFile b]> t1) m) as Ht.
  { intros b. by apply fs_write_tmp. }
  pose proof (wf_value _ W1 dirs (name ++ str ".tmp") Hd (tmp_reserved _ Hn)) as Ntmp.
  pose proof (wf_value _ (proj1 (Ht v)) dirs name Hd (leaf_reserved _ Hn)) as Np.
  assert (fs_rel (<[(rootSegs ++ dirs) ++ [name] := NFile v]>
    (delete ((rootSegs ++ dirs) ++ [name ++ str ".tmp"]) (<[(rootSegs ++ dirs) ++ [name ++ str ".tmp"] := NFile v]> t1))) (<[k := v]> m)) as Hr.
  { apply fs_rename; [done.. |]. intros y Hy. rewrite lookup_insert_ne; [by apply B1 |]. symmetry.
    eapply (dir_is_no_value dirs); [done | by apply tmp_reserved | done]. }
  destruct (t1 !! _) as [[]|]; [done | |].
  all: destruct (io_write io) eqn:Ew; try (split; [by auto | by intros ->]).
  all: destruct (<[_ := _]> t1 !! _) as [[]|]; try done.
  all: destruct (io_rename io) eqn:Er; [done | split; [by auto | by intros ->] | split; [by auto | by intros ->]].
Qed.

(** ** Listings *)

Lemma relOf_app rest : relOf root (rootSegs ++ rest) = join_slash rest.
Proof. unfold relOf. change (fpath root []) with rootSegs. by rewrite drop_app_length. Qed.

Lemma join_slash_inj l l' : Forall good_seg l -> Forall good_seg l' -> l' <> [] -> join_slash l = join_slash l' -> l = l'.
Proof.
  intros Hl Hl' Hne E. destruct l as [|s l].
  - exfalso. apply (f_equal split_slash) in E. rewrite (split_slash_join l') in E by (done || by apply good_segs_no_slash).
    simpl in E. subst l'. rewrite Forall_singleton in Hl'. by destruct Hl' as [].
  - apply (f_equal split_slash) in E. by rewrite !split_slash_join in E by (done || by apply good_segs_no_slash).
Qed.

Lemma join_slash_app l l' : l <> [] -> l' <> [] -> join_slash (l ++ l') = join_slash l ++ slash :: join_slash l'.
Proof.
  intros Hl Hl'. induction l as [|s l IH]; [done |]. destruct l as [|s' l]; [by destruct l' |].
  change (join_slash ((s :: s' :: l) ++ l')) with (s ++ slash :: join_slash ((s' :: l) ++ l')).
  rewrite IH by done. change (join_slash (s :: s' :: l)) with (s ++ slash :: join_slash (s' :: l)). by rewrite <- app_assoc.
Qed.

(** The prefix of a key and the directory of its file. *)
Lemma dir_prefix k dirs : Forall plainDir dirs -> dirs <> [] -> secretKey k ->
  join_slash dirs ++ [slash] `prefix_of` k <-> rootSegs ++ dirs `prefix_of` fpath root k.
Proof.
  intros Hd Hne (dirs' & name & Hk). rewrite (fpath_key _ _ _ Hk), <- app_assoc.
  pose proof (key_good _ _ _ Hk) as Hg. destruct Hk as (_ & Hn & ->). split.
  - intros [r E]. apply prefix_app. exists (split_slash r).
    apply (f_equal split_slash) in E. rewrite <- app_assoc in E. change ([slash] ++ r) with (slash :: r) in E.
    rewrite split_slash_app_gen in E. rewrite (split_slash_join (dirs' ++ [name])) in E by first [by destruct dirs' | by apply good_segs_no_slash].
    by rewrite split_slash_join in E by first [done | by apply good_segs_no_slash, plain_good].
  - intros Hp. apply prefix_app_inv in Hp as [r E]. rewrite E. destruct r as [|z r].
    + rewrite app_nil_r in E. subst dirs. rewrite Forall_app, Forall_singleton in Hd. destruct Hd as [_ [_ []]].
      by apply leaf_reserved.
    + rewrite join_slash_app by done. exists (join_slash (z :: r)). by rewrite <- app_assoc.
Qed.

Lemma fs_list_keys t m pre : fs_rel t m -> secretDir pre ->
  exists l, fsList root pre t = Ok l /\ forall k, secretKey k -> k ∈ l <-> is_Some (m !! k) /\ pre `prefix_of` k.
Proof.
  intros [W Hc] (dirs & Hd & Hne & ->). unfold fsList. rewrite fpath_dir by (done || by apply plain_good).
  pose proof (wf_dir _ W dirs (rootSegs ++ dirs) Hd (reflexivity _)) as Hf.
  assert (forall k, secretKey k -> is_Some (m !! k) <-> is_file (t !! fpath root k) = true) as Hm.
  { intros k Hk. rewrite (Hc k Hk), is_Some_alt. unfold content. by destruct (t !! fpath root k) as [[]|]. }
  destruct (t !! (rootSegs ++ dirs)) as [[]|] eqn:Eb; [| done |].
  - eexists. split; [reflexivity |]. intros k Hk. rewrite (dir_prefix k dirs), (Hm k) by done.
    rewrite merge_sort_Permutation, list_elem_of_fmap. setoid_rewrite list_elem_of_filter. split.
    + intros (p & Ek & (Hp & Hpf) & _). destruct Hp as [rest ->]. rewrite <- app_assoc in *.
      rewrite relOf_app in Ek. assert (fpath root k = rootSegs ++ dirs ++ rest) as ->; [| by split; [| rewrite app_assoc; apply prefix_app_r]].
      rewrite Ek. apply fpath_join; [by destruct dirs |]. destruct (t !! _) as [n|] eqn:En in Hpf; [| done].
      apply wf_good in En; [| done]. by apply Forall_app in En as [_ En].
    + intros (Hpf & Hp). exists (fpath root k). split_and!; [| done | done |].
      * destruct Hk as (ds & nm & Hk). pose proof (fpath_key _ _ _ Hk) as ->. rewrite <- app_assoc, relOf_app. by destruct Hk as (_ & _ & ->).
      * destruct (t !! fpath root k) as [n|] eqn:En; [| done]. rewrite list_elem_of_fmap. exists (fpath root k, n).
        by rewrite elem_of_map_to_list.
  - assert (under_file (rootSegs ++ dirs) t = false) as ->.
    { apply not_true_is_false. intros (q & Hq & F)%existsb_exists. apply list_elem_of_In, elem_of_ancestors in Hq as (z & zs & E).
      rewrite (wf_dir _ W dirs q) in F; [done.. |]. rewrite E. by apply prefix_app_r. }
    exists []. split; [done |]. intros k Hk. split; [by intros ?%elem_of_nil |]. rewrite (dir_prefix k dirs), (Hm k) by done.
    intros (Hpf & r & Er). exfalso. destruct (t !! fpath root k) as [n|] eqn:En; [| done].
    destruct r as [|z r]; [rewrite app_nil_r in Er; by rewrite Er, Eb in En |].
    assert (t !! (rootSegs ++ dirs) = Some NDir) as E by (eapply wf_tree; [done | exact En |]; apply elem_of_ancestors; eauto).
    by rewrite Eb in E.
Qed.

(** What else is below a directory of the store: temporary files of writes. *)
Definition leftover (k : gostr) : Prop := exists k', secretKey k' /\ k = k' ++ str ".tmp".

Lemma join_slash_suffix l s u : join_slash (l ++ [s ++ u]) = join_slash (l ++ [s]) ++ u.
Proof.
  induction l as [|x l IH]; [done |]. destruct l as [|y l]; [cbn; by rewrite <- app_assoc |].
  change (join_slash ((x :: y :: l) ++ [s ++ u])) with (x ++ slash :: join_slash ((y :: l) ++ [s ++ u])).
  rewrite IH. change (join_slash ((x :: y :: l) ++ [s])) with (x ++ slash :: join_slash ((y :: l) ++ [s])).
  by rewrite <- app_assoc.
Qed.

Lemma listed_file t dirs p :
  fs_wf t -> Forall plainDir dirs -> dirs <> [] -> rootSegs ++ dirs `prefix_of` p -> is_file (t !! p) = true ->
  secretKey (relOf root p) \/ leftover (relOf root p) /\ join_slash dirs ++ [slash] `prefix_of` relOf root p.
Proof.
  intros W Hd Hne Hp Hf. destruct (t !! p) as [[|b]|] eqn:E; [done | | done].
  destruct (wf_file t W p b E) as (ds & x & Hds & Hx & ->). rewrite <- app_assoc, relOf_app.
  destruct Hx as [Hx|(l & Hl & ->)]; [left; by exists ds, x |]. right. rewrite join_slash_suffix.
  assert (secretKey (join_slash (ds ++ [l]))) as Hk by (by exists ds, l). split; [by eexists |].
  apply prefix_app_r. apply (dir_prefix _ dirs); [done | done | done |]. rewrite (fpath_key _ ds l) by done.
  destruct Hp as [r Hr]. induction r as [|z r _] using rev_ind.
  - exfalso. rewrite app_nil_r in Hr. eapply (dir_is_no_value dirs); [done | by apply tmp_reserved | reflexivity |]. by rewrite <- Hr.
  - rewrite app_assoc in Hr. apply app_inj_tail in Hr as [-> _]. rewrite <- app_assoc. by apply prefix_app_r.
Qed.

Definition fs_store (t : tree) (m : gmap gostr gostr) : Prop := fs_rel t m /\ map_Forall (fun k _ => secretKey k) m.

Lemma fs_list t m pre : fs_store t m -> secretDir pre -> exists l, fsList root pre t = Ok l /\ listing leftover m pre l.
Proof.
  intros [R Hm] Hpre. destruct (fs_list_keys t m pre R Hpre) as (l & El & Hl). exists l. split; [done |]. split.
  - intros k [v Hv] Hp. apply Hl; [by eapply Hm | split; [by eexists | done]].
  - destruct Hpre as (dirs & Hd & Hne & ->). intros k Hk.
    assert (exists p, k = relOf root p /\ rootSegs ++ dirs `prefix_of` p /\ is_file (t !! p) = true) as (p & -> & Hp & Hf).
    { unfold fsList in El. rewrite fpath_dir in El by (done || by apply plain_good).
      destruct (t !! (rootSegs ++ dirs)) as [[|b]|] eqn:Eb.
      - injection El as <-. rewrite merge_sort_Permutation in Hk. apply list_elem_of_fmap in Hk as (p & -> & Hk).
        apply list_elem_of_filter in Hk as [[? ?] _]. eauto.
      - injection El as <-. apply list_elem_of_singleton in Hk as ->. eexists. split_and!; [done | done | by rewrite Eb].
      - destruct (under_file _ t); [done |]. injection El as <-. by apply not_elem_of_nil in Hk. }
    destruct (listed_file t dirs p (proj1 R) Hd Hne Hp Hf) as [Sk|[Hs Hpre]]; [| by auto].
    apply Hl in Hk as [? ?]; auto.
Qed.

#[export] Instance filesystem_refines :
  Refines (filesystem root) (fun _ => True) (fun io => io = mkFsIO None Complete RenameDone) leftover fs_store.
Proof.
  split; [intros s m k [R _]; by apply fs_get | | intros; by apply fs_list].
  intros s m io k v [R Hm] Hk _. pose proof (fs_put s m io k v R Hk) as H. simpl.
  assert (map_Forall (fun k _ => secretKey k) (<[k := v]> m)) as Hm' by (by apply map_Forall_insert_2).
  destruct (fsPut root io k v s) as [[[]|e] t']; [by split |]. destruct H as [[R'|R'] Hh]; (split; [| done]); [left | right]; by split.
Qed.

Lemma fs_store_empty : fs_store ∅ ∅.
Proof.
  split; [| apply map_Forall_empty].
  split; [split; intros *; rewrite ?lookup_empty; done |]. intros k _. unfold content. by rewrite !lookup_empty.
Qed.

End paths.

(** ** The stores of a deployment *)

Lemma sealed_empty `{AEAD} {S} (rel : S -> gmap gostr gostr -> Prop) s : rel s ∅ -> sealed_rel rel s ∅.
Proof. intros R. exists ∅. split; [done | apply map_Forall2_empty]. Qed.

(** C23: A secret store is a map, whatever fails.  Any sequence of reads, writes and
    listings of the authority's keys, one after the other, that starts with an empty store,
    encrypted in a directory or in a Postgres table, is answered as a map is to which the
    acknowledged writes were applied and each of the others whole or not at all: a read
    gives the value of the map in the clear, never a part of one or a mix, also when a write
    was cut short by a crash at any point or its answer was lost; a write fails only if
    the disk, the database or the random source does.  A listing below a directory gives
    the keys of the map there: exactly these from Postgres; from the directory also the
    names of temporary files of keys, which writes that were cut short have left. *)
Theorem secret_store_refines {A : AEAD} {AL : AEADLaws A} root collation ops ops' :
  Forall (op_ok (possible_enc (fun _ => True))) ops -> Forall (op_ok (possible_enc (fun _ => True))) ops' ->
  explains (healthy_enc (fun io => io = mkFsIO None Complete RenameDone)) leftover ops
    (run_script (encrypted (filesystem root)) ops ∅).1 ∅ /\
  explains (healthy_enc (fun io => pg_exec io = ExecDone)) none ops'
    (run_script (encrypted (postgres collation)) ops' ∅).1 ∅.
Proof.
  intros H H'. split.
  - eapply (run_explained _ _ _ _ (rel := sealed_rel (fs_store root))); [exact H |]. apply sealed_empty, fs_store_empty.
  - eapply (run_explained _ _ _ _ (rel := sealed_rel (fun t m => fst <$> t = m))); [exact H' |]. by apply sealed_empty.
Qed.

(** The pair of an intermediate is written by two writes under the lock of the store. *)
Definition put_both {S IO} (B : Backend S IO) (io1 io2 : IO) (kc kk c k : gostr) (s : S) : result serr unit * S :=
  match bPut io1 kc c s with (Err e, s1) => (Err e, s1) | (Ok _, s1) => bPut io2 kk k s1 end.

(** In a transaction both are there or none. *)
Lemma locked_pair_atomic {S IO} (B : Backend S IO) possible healthy stray rel `{!Refines B possible healthy stray rel} begin_ commit io1 io2 kc kk c k s m :
  rel s m -> secretKey kc -> secretKey kk -> possible io1 -> possible io2 ->
  match lockTx begin_ commit (put_both B io1 io2 kc kk c k) s with
  | (Ok _, s') => rel s' (<[kk := k]> (<[kc := c]> m))
  | (Err _, s') => s' = s \/ rel s' (<[kk := k]> (<[kc := c]> m))
  end.
Proof.
  intros R Hc Hk P1 P2. unfold lockTx, put_both. destruct begin_; simpl; [| by left].
  pose proof (ref_put s m io1 kc c R Hc P1) as H1. destruct (bPut io1 kc c s) as [[[]|e] s1]; [| by left].
  pose proof (ref_put s1 _ io2 kk k H1 Hk P2) as H2. destruct (bPut io2 kk k s1) as [[[]|e] s2]; [| by left].
  destruct commit; auto.
Qed.

Ltac dirs := repeat (apply Forall_cons; split; [by auto |]); apply Forall_nil_2.

(** The keys of the authority are keys of the stores. *)
Lemma authority_keys id : plainDir id ->
  secretKey rootCertKey /\ secretKey rootKeyKey /\ secretKey (tenantCertKey id) /\ secretKey (tenantKeyKey id) /\ secretDir tenantPrefix.
Proof.
  intros Hid. assert (forall s, s = str "ca" \/ s = str "root" \/ s = str "tenant" -> plainDir s) as Hp.
  { intros s Hs. split; [by destruct Hs as [-> | [-> | ->]]; apply (bool_decide_eq_true (good_seg _)) |].
    by intros [[-> | ->] | (l & [-> | ->] & ->)]; destruct Hs as [E | [E | E]]. }
  assert (forall l, l <> [] -> Forall plainDir l -> secretDir (join_slash l ++ [slash])) as Hdir by (intros l Hl Hf; by exists l).
  split_and!.
  - exists [str "ca"; str "root"], (str "cert.pem"). split_and!; [dirs | by left | done].
  - exists [str "ca"; str "root"], (str "key.pem"). split_and!; [dirs | by right | done].
  - exists [str "ca"; str "tenant"; id], (str "cert.pem"). split_and!; [dirs | by left | done].
  - exists [str "ca"; str "tenant"; id], (str "key.pem"). split_and!; [dirs | by right | done].
  - apply (Hdir [str "ca"; str "tenant"]); [done |]. dirs.
Qed.

(** ** Runs *)

Module ToyAead.
(** A cipher that adds the first byte of the nonce. *)
#[export] Instance aead : AEAD := {
  NonceSize := 12;
  aeadSeal n pt := take 1 n ++ reverse pt;
  aeadOpen n ct := if decide (take 1 ct = take 1 n) then Some (reverse (drop 1 ct)) else None }.

#[export] Instance aead_laws : AEADLaws aead.
Proof.
  intros n pt Hn. simpl. destruct n as [|c n]; [done |]. simpl. rewrite !take_0. simpl.
  by rewrite decide_True, drop_0, reverse_involutive.
Qed.

Definition nonce : gostr := str "twelve bytes".
Definition key : gostr := rootCertKey.
Definition fine : option gostr * fsIO := (Some nonce, mkFsIO None Complete RenameDone).
Definition cut : option gostr * fsIO := (Some nonce, mkFsIO None (CutAfter 3) RenameDone).

Definition dead : option gostr * fsIO := (Some nonce, mkFsIO None Complete RenameUnanswered).

Definition ops : list (sop_ (option gostr * fsIO)) :=
  [SGet key; SPut fine key (str "one"); SPut cut key (str "two"); SGet key; SList (str "ca/"); SPut dead key (str "three"); SGet key].

Lemma ops_ok : Forall (op_ok (possible_enc (fun _ => True))) ops.
Proof.
  assert (secretKey key) as Hk by (apply (authority_keys (str "t")); split;
    [by apply (bool_decide_eq_true (good_seg _)) | by intros [[?|?] | (l & [-> | ->] & ?)]]).
  assert (secretDir (str "ca/")) as Hd.
  { exists [str "ca"]. split_and!; [apply Forall_singleton; split | done | done];
      [by apply (bool_decide_eq_true (good_seg _)) | by intros [[?|?] | (l & [-> | ->] & ?)]]. }
  assert (forall io, io.1 = Some nonce -> possible_enc (fun _ : fsIO => True) io) as Hio.
  { intros io E. split; [| done]. intros n En. rewrite E in En. by simplify_eq. }
  repeat (apply Forall_cons; split); 
    [done | by split; [| apply Hio] | by split; [| apply Hio] | done | done | by split; [| apply Hio] | done | apply Forall_nil_2].
Qed.
End ToyAead.

Import ToyAead.

Lemma secret_store_refines_witness :
  (run_script (encrypted (filesystem (str "/var/secrets"))) ToyAead.ops ∅).1 =
    [AGet (Ok None); APut (Ok tt); APut (Err IOFailed); AGet (Ok (Some (str "one")));
     AList (Ok [str "ca/root/cert.pem"; str "ca/root/cert.pem.tmp"]); APut (Err IOFailed); AGet (Ok (Some (str "three")))] /\
  explains (healthy_enc (fun io => io = mkFsIO None Complete RenameDone)) leftover ToyAead.ops
    (run_script (encrypted (filesystem (str "/var/secrets"))) ToyAead.ops ∅).1 ∅.
Proof.
  split; [vm_compute; reflexivity |].
  apply (secret_store_refines (str "/var/secrets") (fun _ _ => true) ToyAead.ops [] ToyAead.ops_ok (Forall_nil_2 _)).
Defined.

(** The temporary file of an interrupted write shows up in the listing, and the
    authority takes it for a tenant, whose certificate it does not find: loading it
    fails, and with it the start of the control plane. *)
Example interrupted_write_stops_loading :
  let t := (fsPut (str "/s") (mkFsIO None (CutAfter 0) RenameDone) (tenantCertKey (str "acme")) (str "pem") ∅).2 in
  fsList (str "/s") tenantPrefix t = Ok [str "ca/tenant/acme/cert.pem.tmp"] /\
  tenantOfKey (str "ca/tenant/acme/cert.pem.tmp") = Some (str "acme") /\
  fsGet (str "/s") (tenantCertKey (str "acme")) t = Ok None /\
  forall st, st !! tenantCertKey (str "acme") = None -> readTenant (str "acme") st = Err CaMissing.
Proof.
  split_and!; [by vm_compute.. |]. intros st E. unfold readTenant. by rewrite E.
Qed.

(** The stores list a prefix that ends within a name differently. *)
Example listings_differ :
  bList (str "ca/ro") (<[rootCertKey := str "x"]> ∅ : Memory) = Ok [rootCertKey] /\
  fsList (str "/s") (str "ca/ro") (fsPut (str "/s") (mkFsIO None Complete RenameDone) rootCertKey (str "x") ∅).2 = Ok [].
Proof. by vm_compute. Qed.
