(* ===== verification/ApiTokens.v ===== *)
(** * API tokens

    orlop-control/internal/tokens: drawing and hashing tokens.  api_token_handlers.go:
    the routes that create, list and revoke them; internal/storage/sqlite/api_tokens.go:
    their statements on the table of Enroll.v, whose key is the hash.  What a token is
    good for is decided by [RequireEnrollBearer] (Enroll.v).

    Random bytes, new ids and the clock (microseconds) are arguments; the path
    parameter of a route is parsed as in Mounts.v. *)

From S2P Require Import Prelude GoPath Codec CtlStore Allocations Enroll Provision Mounts.

(** ** Drawing a token *)

Definition rawBytes : nat := 24.
Definition prefixLen : nat := 12.

(** The groups of five bits of [base32.StdEncoding] without padding. *)
Fixpoint b32_groups (l : list Z) : list Z :=
  match l with
  | [] => []
  | [a] => [a / 8; a mod 8 * 4]
  | [a; b] => [a / 8; a mod 8 * 4 + b / 64; b / 2 mod 32; b mod 2 * 16]
  | [a; b; c] => [a / 8; a mod 8 * 4 + b / 64; b / 2 mod 32; b mod 2 * 16 + c / 16; c mod 16 * 2]
  | [a; b; c; d] =>
      [a / 8; a mod 8 * 4 + b / 64; b / 2 mod 32; b mod 2 * 16 + c / 16; c mod 16 * 2 + d / 128; d / 4 mod 32; d mod 4 * 8]
  | a :: b :: c :: d :: e :: l' =>
      a / 8 :: a mod 8 * 4 + b / 64 :: b / 2 mod 32 :: b mod 2 * 16 + c / 16 :: c mod 16 * 2 + d / 128 ::
      d / 4 mod 32 :: d mod 4 * 8 + e / 32 :: e mod 32 :: b32_groups l'
  end.

(** The alphabet, in lower case. *)
Definition b32_char (v : Z) : ascii := ascii_of_N (Z.to_N (if v <? 26 then v + 97 else v + 24)).

Record RawToken := mkRaw { rt_Raw : gostr; rt_Hash : gostr; rt_Prefix : gostr }.

Section tokens.
Context (sha256 : gostr -> gostr) (parseUUIDParam : gostr -> option uuid).

(** [rand]: the bytes drawn, [None] when the random source fails. *)
Definition Generate (rand : option (list Z)) : option RawToken :=
  match rand with
  | None => None
  | Some buf =>
      let raw := tokenPrefix ++ (b32_char <$> b32_groups buf) in
      Some (mkRaw raw (sha256 raw) (take prefixLen raw))
  end.

(** ** Statements *)

(** The primary key, the unique hash and the foreign key of the user. *)
Definition CreateAPIToken (hash : gostr) (t : apiToken) (e : edb) : result serr edb :=
  if bool_decide (is_Some (e_api e !! hash)) then Err SAlreadyExists
  else if bool_decide (map_Exists (fun _ x => ap_ID x = ap_ID t) (e_api e)) then Err SAlreadyExists
  else if bool_decide (is_Some (users (e_db e) !! ap_UserID t)) then Ok (set_api (<[hash := t]> (e_api e)) e)
  else Err SConstraint.

Definition GetAPITokenByID (id : uuid) (e : edb) : option apiToken :=
  snd <$> head (filter (fun kt => ap_ID kt.2 = id) (map_to_list (e_api e))).

Definition newer_token (a b : apiToken) : Prop := ap_CreatedAt b <= ap_CreatedAt a.

#[export] Instance newer_token_dec a b : Decision (newer_token a b).
Proof. unfold newer_token. apply _. Defined.

Definition ListAPITokensByUser (user : uuid) (e : edb) : list apiToken :=
  merge_sort newer_token (filter (fun t => ap_UserID t = user /\ ap_revoked t = None) (map_to_list (e_api e)).*2).

Definition revoke_row (now : Z) (id user : uuid) (t : apiToken) : apiToken :=
  if decide (ap_ID t = id /\ ap_UserID t = user /\ ap_revoked t = None)
  then mkApi (ap_ID t) (ap_UserID t) (Some now) (ap_ExpiresAt t) (ap_LastUsedAt t) (ap_Name t) (ap_Prefix t) (ap_CreatedAt t)
  else t.

Definition RevokeAPIToken (now : Z) (id user : uuid) (e : edb) : edb := set_api (revoke_row now id user <$> e_api e) e.

(** ** Handlers *)

Definition apiTokenNameMaxLen : Z := 50.

Record createTokenResponse := mkCreated {
  cr_ID : gostr; cr_Name : gostr; cr_Prefix : gostr; cr_CreatedAt : Z; cr_Token : gostr }.

Record listTokenItem := mkItem {
  li_ID : gostr; li_Name : gostr; li_Prefix : gostr; li_CreatedAt : Z; li_LastUsedAt : option Z }.

(** [body]: the decoded name; [ttl]: the configured life time, 0 for none; [id]: the
    fresh id of the row. *)
Definition handleCreateToken (ttl now : Z) (cookie body : option gostr) (rand : option (list Z)) (id : uuid)
    : hdl createTokenResponse :=
  adminIdentity sha256 now cookie (fun ident =>
    match body with
    | None => deny (badRequest "malformed body")
    | Some reqName =>
        let name := TrimSpace reqName in
        if bool_decide (name = []) || (apiTokenNameMaxLen <? Z.of_nat (length name)) then deny (badRequest "name must be 1..50 chars")
        else
          match Generate rand with
          | None => deny serverError
          | Some tok =>
              fun e =>
                let expiresAt := if 0 <? ttl then Some (now + ttl) else None in
                let row := mkApi id (in_UserID ident) None expiresAt None name (rt_Prefix tok) now in
                match CreateAPIToken (rt_Hash tok) row e with
                | Err _ => (Err serverError, e)
                | Ok e' => (Ok (mkCreated (uuidString id) name (rt_Prefix tok) now (rt_Raw tok)), e')
                end
          end
    end).

Definition itemOf (t : apiToken) : listTokenItem :=
  mkItem (uuidString (ap_ID t)) (ap_Name t) (ap_Prefix t) (ap_CreatedAt t) (ap_LastUsedAt t).

Definition handleListTokens (now : Z) (cookie : option gostr) : hdl (list listTokenItem) :=
  adminIdentity sha256 now cookie (fun ident e => (Ok (itemOf <$> ListAPITokensByUser (in_UserID ident) e), e)).

Definition handleRevokeToken (now : Z) (cookie : option gostr) (idParam : gostr) : hdl unit :=
  adminIdentity sha256 now cookie (fun ident =>
    match parseUUIDParam idParam with
    | None => deny (badRequest "id must be a uuid")
    | Some id =>
        fun e =>
          match GetAPITokenByID id e with
          | None => (Err notFound, e)
          | Some row =>
              if decide (ap_UserID row <> in_UserID ident) then (Err notFound, e)
              else (Ok tt, RevokeAPIToken now id (in_UserID ident) e)
          end
    end).
End tokens.
