(* ===== verification/ApiTokenProps.v ===== *)
(** * The life of an API token

    Theorems on ApiTokens.v: a token that was handed out is good until it expires or
    its owner revokes it, and for nothing after that. *)

From S2P Require Import Prelude GoPath Codec CtlStore Allocations Enroll Provision Mounts Jwt JwtProps ApiTokens.

(** ** Distinct random bytes give distinct tokens *)

Lemma fives_ind (P : list Z -> Prop) :
  (forall l, (length l < 5)%nat -> P l) -> (forall a b c d e l, P l -> P (a :: b :: c :: d :: e :: l)) -> forall l, P l.
Proof.
  intros H0 H5. fix IH 1. intros [|a [|b [|c [|d [|e l]]]]]; try (apply H0; simpl; lia). apply H5, IH.
Qed.

Ltac bits := Z.to_euclidean_division_equations; lia.

Lemma b32_groups_inj l l' :
  Forall (fun z => 0 <= z < 256) l -> Forall (fun z => 0 <= z < 256) l' -> length l = length l' ->
  b32_groups l = b32_groups l' -> l = l'.
Proof.
  revert l'. induction l as [l Hlt | a b c d e l IH] using fives_ind; intros l' Hl Hl' Hn E.
  - destruct l as [|a [|b [|c [|d [|]]]]], l' as [|a' [|b' [|c' [|d' [|]]]]]; simpl in Hn, Hlt; try lia; [done | ..].
    all: rewrite !Forall_cons in Hl, Hl'; simpl in E; injection E as; repeat f_equal; bits.
  - destruct l' as [|a' [|b' [|c' [|d' [|e' l']]]]]; simpl in Hn; try lia. rewrite !Forall_cons in Hl, Hl'.
    simpl in E. injection E as. rewrite (IH l') by (tauto || lia || done). repeat f_equal; bits.
Qed.

Section life.
Context (sha256 : gostr -> gostr) (parseUUIDParam : gostr -> option uuid).

Inductive apiEvent :=
| EvCreate (ttl now : Z) (cookie body : option gostr) (rand : option (list Z)) (id : uuid)
| EvList (now : Z) (cookie : option gostr)
| EvRevoke (now : Z) (cookie : option gostr) (idParam : gostr)
| EvUse (now : Z) (header : gostr).

Definition apiExec (ev : apiEvent) (e : edb) : edb :=
  match ev with
  | EvCreate ttl now cookie body rand id => (handleCreateToken sha256 ttl now cookie body rand id e).2
  | EvList now cookie => (handleListTokens sha256 now cookie e).2
  | EvRevoke now cookie p => (handleRevokeToken sha256 parseUUIDParam now cookie p e).2
  | EvUse now header => (RequireEnrollBearer sha256 now header e).2
  end.

Fixpoint api_run (evs : list apiEvent) (e : edb) : edb :=
  match evs with [] => e | ev :: evs' => api_run evs' (apiExec ev e) end.

(** A revocation of token [id] that was answered with success. *)
Definition revokes (id : uuid) (ev : apiEvent) (e : edb) : Prop :=
  match ev with
  | EvRevoke now cookie p =>
      parseUUIDParam p = Some id /\ (handleRevokeToken sha256 parseUUIDParam now cookie p e).1 = Ok tt
  | _ => False
  end.

Fixpoint revoked_in (id : uuid) (evs : list apiEvent) (e : edb) : Prop :=
  match evs with [] => False | ev :: evs' => revokes id ev e \/ revoked_in id evs' (apiExec ev e) end.

(** ** The table *)

Definition ids_unique (m : gmap gostr apiToken) : Prop :=
  forall h h' t t', m !! h = Some t -> m !! h' = Some t' -> ap_ID t = ap_ID t' -> h = h'.

(** The row of the token, revoked or not. *)
Definition token_row (h : gostr) (id u : uuid) (x : option Z) (gone : Prop) (e : edb) : Prop :=
  ids_unique (e_api e) /\
  exists t, e_api e !! h = Some t /\ ap_ID t = id /\ ap_UserID t = u /\ ap_ExpiresAt t = x /\ (is_Some (ap_revoked t) <-> gone).

(** The rest of the tables. *)
Definition sameBut (e e' : edb) : Prop :=
  e_db e' = e_db e /\ e_tokens e' = e_tokens e /\ e_tenants e' = e_tenants e /\ e_suspended e' = e_suspended e.

Lemma GetAPITokenByID_unique id e h t :
  ids_unique (e_api e) -> e_api e !! h = Some t -> ap_ID t = id -> GetAPITokenByID id e = Some t.
Proof.
  intros U Ht Hid. unfold GetAPITokenByID.
  destruct (filter (fun kt => ap_ID kt.2 = id) (map_to_list (e_api e))) as [|[h' t'] l] eqn:E.
  - exfalso. eapply not_elem_of_nil. rewrite <- E. apply list_elem_of_filter. by split; [| apply elem_of_map_to_list].
  - assert ((h', t') ∈ filter (fun kt : gostr * apiToken => ap_ID kt.2 = id) (map_to_list (e_api e))) as Hin by (rewrite E; left).
    apply list_elem_of_filter in Hin as [Hid' Hin%elem_of_map_to_list]. simpl in Hid'.
    assert (h = h') as <- by (eapply U; [done.. | congruence]). simpl. congruence.
Qed.

Lemma GetAPITokenByID_Some id e t : GetAPITokenByID id e = Some t -> exists h, e_api e !! h = Some t /\ ap_ID t = id.
Proof.
  unfold GetAPITokenByID. intros ([h' t'] & Hh & ->)%fmap_Some. apply head_Some_elem_of in Hh.
  apply list_elem_of_filter in Hh as [Hid Hin%elem_of_map_to_list]. eauto.
Qed.

Lemma revoke_row_fields now id u t :
  let t' := revoke_row now id u t in
  ap_ID t' = ap_ID t /\ ap_UserID t' = ap_UserID t /\ ap_ExpiresAt t' = ap_ExpiresAt t /\
  (is_Some (ap_revoked t') <-> is_Some (ap_revoked t) \/ (ap_ID t = id /\ ap_UserID t = u)).
Proof.
  unfold revoke_row. case_decide as H; simpl; split_and!; try done.
  - split; [intros _; right; tauto | eauto].
  - split; [by left |]. intros [? | [? ?]]; [done |]. destruct (ap_revoked t); [eauto |]. by destruct H.
Qed.

Lemma admin_post {A} (P : result refusal A * edb -> Prop) now cookie (k : identity -> hdl A) e :
  (forall r, P (Err r, e)) -> (forall ident, P (k ident e)) -> P (adminIdentity sha256 now cookie k e).
Proof. intros He Hk. unfold adminIdentity. repeat case_match; auto. Qed.

Lemma sameBut_refl e : sameBut e e.
Proof. by split_and!. Qed.

Lemma row_mono h id u x (gone gone' : Prop) e : (gone <-> gone') -> token_row h id u x gone e -> token_row h id u x gone' e.
Proof. intros Hg (U & t & H1 & H2 & H3 & H4 & H5). split; [done |]. exists t. by rewrite H5, Hg. Qed.

Definition keeps (h : gostr) (id u : uuid) (x : option Z) (gone : Prop) (e e' : edb) : Prop :=
  token_row h id u x gone e' /\ sameBut e e'.

Lemma keeps_refl h id u x gone e : token_row h id u x gone e -> keeps h id u x gone e e.
Proof. intros R. split; [done | apply sameBut_refl]. Qed.

Lemma create_step h id u x gone ttl now cookie body rand id' e :
  token_row h id u x gone e -> keeps h id u x gone e (handleCreateToken sha256 ttl now cookie body rand id' e).2.
Proof.
  intros R. pose proof (keeps_refl _ _ _ _ _ _ R) as K. unfold handleCreateToken.
  apply (admin_post (fun re => keeps h id u x gone e re.2)); [done |]. intros ident. destruct body as [reqName|]; [| done].
  cbv zeta. destruct (_ || _); [done |]. destruct (Generate sha256 rand) as [tok|]; [| done]. cbv beta.
  destruct (CreateAPIToken _ _ _) as [e'|] eqn:E; [| done]. simpl. unfold CreateAPIToken in E.
  case_bool_decide as Hh; [done |]. case_bool_decide as Hid; [done |]. case_bool_decide as Hu; [| done]. simplify_eq/=.
  destruct R as (U & t & Ht & R). split; [split |]; [| | by split_and!]; simpl.
  - intros h1 h2 t1 t2 [[<- <-] | [N1 H1]]%lookup_insert_Some [[<- <-] | [N2 H2]]%lookup_insert_Some E; simpl in *; try done.
    + destruct Hid. by exists h2, t2.
    + destruct Hid. by exists h1, t1.
    + by eapply U.
  - exists t. split; [| done]. rewrite lookup_insert_ne; [done |]. intros Eh. destruct Hh. rewrite Eh. eauto.
Qed.

Lemma revoke_step h id u x gone now cookie p e :
  token_row h id u x gone e ->
  keeps h id u x (gone \/ revokes id (EvRevoke now cookie p) e) e (handleRevokeToken sha256 parseUUIDParam now cookie p e).2.
Proof.
  intros R.
  assert (forall re, handleRevokeToken sha256 parseUUIDParam now cookie p e = re ->
    keeps h id u x (gone \/ (parseUUIDParam p = Some id /\ re.1 = Ok tt)) e re.2) as H; [| by eapply H].
  intros re <-. unfold handleRevokeToken.
  assert (forall r : refusal, keeps h id u x (gone \/ (parseUUIDParam p = Some id /\ @Err refusal unit r = Ok tt)) e e) as K.
  { intros r. apply keeps_refl. eapply row_mono; [| exact R]. naive_solver. }
  apply (admin_post (fun re => keeps h id u x (gone \/ (parseUUIDParam p = Some id /\ re.1 = Ok tt)) e re.2)); [done |].
  intros ident. destruct (parseUUIDParam p) as [id'|] eqn:Ep; [| apply K]. cbv beta.
  destruct (GetAPITokenByID id' e) as [row|] eqn:Eg; [| apply K]. case_decide as Hu; [apply K |]. simpl.
  destruct R as (U & t & Ht & H1 & H2 & H3 & H4). split; [split |]; [| | by split_and!]; simpl.
  - intros h1 h2 t1 t2. rewrite !lookup_fmap, !fmap_Some. intros (s1 & S1 & ->) (s2 & S2 & ->) E.
    destruct (revoke_row_fields now id' (in_UserID ident) s1) as (E1 & _), (revoke_row_fields now id' (in_UserID ident) s2) as (E2 & _).
    eapply U; [done.. | congruence].
  - exists (revoke_row now id' (in_UserID ident) t). rewrite lookup_fmap, Ht.
    destruct (revoke_row_fields now id' (in_UserID ident) t) as (E1 & E2 & E3 & E4). split_and!; [done | congruence.. |].
    rewrite E4, H4. split; [intros [? | [? ?]]; [by left | right; split; congruence] | intros [? | [? _]]; [by left | right]].
    simplify_eq. split; [done |]. by rewrite (GetAPITokenByID_unique _ _ _ _ U Ht eq_refl) in Eg; simplify_eq.
Qed.

Lemma use_step h id u x gone now header e :
  token_row h id u x gone e -> keeps h id u x gone e (RequireEnrollBearer sha256 now header e).2.
Proof.
  intros R. pose proof (keeps_refl _ _ _ _ _ _ R) as K. unfold RequireEnrollBearer. cbv zeta.
  destruct (bool_decide _); [| by destruct (AuthenticateEnrollBearer _ _ _ _) as [|[]]].
  destruct (e_api e !! sha256 (BearerToken header)) as [t'|] eqn:E; [| done].
  destruct (users _ !! _) as [us|]; [| done]. destruct (e_tenants _ !! _) as [ten|]; [| done].
  repeat (match goal with |- context [if ?b then _ else _] => destruct b end; try done). simpl.
  destruct R as (U & t & Ht & R). split; [split |]; [| | by split_and!]; simpl.
  - intros h1 h2 t1 t2 [[<- <-] | [N1 H1]]%lookup_insert_Some [[<- <-] | [N2 H2]]%lookup_insert_Some Eq; simpl in *; try done.
    all: by eapply U.
  - destruct (decide (h = sha256 (BearerToken header))) as [-> | Hne].
    + rewrite lookup_insert_eq. rewrite E in Ht. simplify_eq. eexists. split; [done |]. exact R.
    + rewrite lookup_insert_ne by done. by exists t.
Qed.

Lemma list_step h id u x gone now cookie e :
  token_row h id u x gone e -> keeps h id u x gone e (handleListTokens sha256 now cookie e).2.
Proof.
  intros R. unfold handleListTokens.
  apply (admin_post (fun re => keeps h id u x gone e re.2)); [intros r | intros ident]; by apply keeps_refl.
Qed.

Lemma sameBut_trans e e' e'' : sameBut e e' -> sameBut e' e'' -> sameBut e e''.
Proof. intros (? & ? & ? & ?) (? & ? & ? & ?). split_and!; congruence. Qed.

Lemma run_row h id u x evs gone e :
  token_row h id u x gone e -> keeps h id u x (gone \/ revoked_in id evs e) e (api_run evs e).
Proof.
  revert gone e. induction evs as [|ev evs IH]; intros gone e R; simpl.
  { apply keeps_refl. eapply row_mono; [| exact R]. tauto. }
  assert (keeps h id u x (gone \/ revokes id ev e) e (apiExec ev e)) as [R1 S1].
  { destruct ev; [| | by apply revoke_step |]; simpl.
    - destruct (create_step _ _ _ _ _ ttl now cookie body rand id0 _ R) as [R1 S1]. split; [| done]. eapply row_mono; [| done]. tauto.
    - destruct (list_step _ _ _ _ _ now cookie _ R) as [R1 S1]. split; [| done]. eapply row_mono; [| done]. tauto.
    - destruct (use_step _ _ _ _ _ now header _ R) as [R1 S1]. split; [| done]. eapply row_mono; [| done]. tauto. }
  destruct (IH _ _ R1) as [R2 S2]. split; [eapply row_mono; [| exact R2]; tauto | by eapply sameBut_trans].
Qed.

(** ** The token of a creation *)

Definition tokenOf (buf : list Z) : gostr := tokenPrefix ++ (b32_char <$> b32_groups buf).

Lemma b32_groups_range l : Forall (fun z => 0 <= z < 256) l -> Forall (fun v => 0 <= v < 32) (b32_groups l).
Proof.
  induction l as [l Hlt | a b c d e l IH] using fives_ind; intros Hl.
  - destruct l as [|a [|b [|c [|d [|]]]]]; simpl in Hlt; try lia; rewrite ?Forall_cons in Hl; simpl;
      repeat (apply Forall_cons; split); try apply Forall_nil_2; bits.
  - rewrite !Forall_cons in Hl. simpl. repeat (apply Forall_cons; split); [bits.. |]. apply IH. tauto.
Qed.

Lemma b32_char_space v : 0 <= v < 32 -> is_space (b32_char v) = false.
Proof.
  intros Hv. assert (forallb (fun v => negb (is_space (b32_char v))) (seqZ 0 32) = true) as F by (by vm_compute).
  rewrite forallb_forall in F. apply negb_true_iff, F, list_elem_of_In, elem_of_seqZ. lia.
Qed.

Lemma tokenOf_bearer buf : Forall (fun z => 0 <= z < 256) buf -> BearerToken (bearerPrefix ++ tokenOf buf) = tokenOf buf.
Proof.
  intros Hb. unfold BearerToken. rewrite length_app. rewrite (proj2 (Nat.leb_gt _ _)).
  2: { unfold tokenOf. rewrite length_app. simpl. lia. }
  rewrite bool_decide_true by done. apply TrimSpace_spaceless. apply Forall_app. split; [by repeat constructor |].
  apply Forall_fmap. eapply Forall_impl; [by apply b32_groups_range |]. intros v. apply b32_char_space.
Qed.

Lemma create_inv ttl now cookie body buf id e resp e0 :
  ids_unique (e_api e) -> handleCreateToken sha256 ttl now cookie body (Some buf) id e = (Ok resp, e0) ->
  exists raw ident us, cookie = Some raw /\ authenticateRaw sha256 now raw PurposeAdmin e = Ok ident /\
    users (e_db e) !! in_UserID ident = Some us /\ cr_Token resp = tokenOf buf /\ sameBut e e0 /\
    token_row (sha256 (tokenOf buf)) id (in_UserID ident) (if 0 <? ttl then Some (now + ttl) else None) False e0.
Proof.
  intros U H. unfold handleCreateToken, adminIdentity in H. destruct cookie as [raw|]; [| done].
  destruct (authenticateRaw sha256 now raw PurposeAdmin e) as [ident|] eqn:Ea; [| done].
  destruct body as [reqName|]; [| done]. cbv zeta in H. destruct (_ || _); [done |]. simpl in H.
  destruct (CreateAPIToken _ _ _) as [e'|] eqn:E; [| done]. simplify_eq/=. unfold CreateAPIToken in E.
  case_bool_decide as Hh; [done |]. case_bool_decide as Hid; [done |]. case_bool_decide as Hu; [| done]. simplify_eq/=.
  destruct Hu as [us Hus]. exists raw, ident, us. split_and!; try done. split; simpl.
  - intros h1 h2 t1 t2 [[<- <-] | [N1 H1]]%lookup_insert_Some [[<- <-] | [N2 H2]]%lookup_insert_Some Eq; simpl in *; try done.
    + destruct Hid. by exists h2, t2.
    + destruct Hid. by exists h1, t1.
    + by eapply U.
  - eexists. split; [apply lookup_insert_eq |]. split_and!; [done.. |]. simpl. split; [by intros [] | done].
Qed.

Lemma use_created now buf e t :
  Forall (fun z => 0 <= z < 256) buf -> e_api e !! sha256 (tokenOf buf) = Some t ->
  (RequireEnrollBearer sha256 now (bearerPrefix ++ tokenOf buf) e).1 =
    let denied := Err (mkRefusal 401 "invalid_token" "") in
    match users (e_db e) !! ap_UserID t with
    | None => denied
    | Some us =>
        match e_tenants e !! us_TenantID us with
        | None => denied
        | Some ten =>
            if bool_decide (is_Some (ap_revoked t)) then denied
            else if match ap_ExpiresAt t with Some x => x <? now | None => false end then Err (mkRefusal 401 "invalid_token" "expired")
            else if tn_suspended ten then Err (mkRefusal 403 "access_denied" "tenant_suspended")
            else if bool_decide (ap_UserID t ∈ e_suspended e) then Err (mkRefusal 403 "access_denied" "user_suspended")
            else Ok (mkIdent (ap_UserID t) (us_TenantID us) PurposeAPIToken None)
        end
    end.
Proof.
  intros Hb Ht. unfold RequireEnrollBearer. rewrite tokenOf_bearer by done. cbv zeta.
  rewrite bool_decide_true by (unfold tokenOf; by rewrite take_app_length). rewrite Ht.
  by repeat case_match.
Qed.

Lemma list_has_row h id u x gone e : token_row h id u x gone e -> id ∈ ap_ID <$> ListAPITokensByUser u e <-> ~ gone.
Proof.
  intros (U & t & Ht & H1 & H2 & _ & H4). unfold ListAPITokensByUser. rewrite list_elem_of_fmap.
  setoid_rewrite merge_sort_Permutation. setoid_rewrite list_elem_of_filter. setoid_rewrite list_elem_of_fmap. split.
  - intros (t' & Hid & (_ & Hr) & [h' y] & -> & Hin%elem_of_map_to_list) Hg. simpl in *.
    assert (h = h') as <- by (eapply U; [done.. | congruence]). rewrite Ht in Hin. simplify_eq.
    apply H4 in Hg as [? ?]. congruence.
  - intros Hg. exists t. split; [done |]. split; [split; [done |] |].
    + destruct (ap_revoked t); [| done]. destruct Hg. apply H4. eauto.
    + exists (h, t). by rewrite elem_of_map_to_list.
Qed.

Lemma tokenOf_inj buf buf' :
  Forall (fun z => 0 <= z < 256) buf -> Forall (fun z => 0 <= z < 256) buf' -> length buf' = length buf ->
  tokenOf buf' = tokenOf buf -> buf' = buf.
Proof.
  intros Hb Hb' Hn E. unfold tokenOf in E. apply app_inv_head in E.
  assert (forall v, 0 <= v < 32 -> byteval (b32_char v) = if v <? 26 then v + 97 else v + 24) as Hc.
  { intros v Hv. unfold byteval, b32_char. rewrite N_ascii_embedding; [| case_match; lia]. case_match; lia. }
  apply b32_groups_inj; [done.. |].
  pose proof (b32_groups_range _ Hb) as G. pose proof (b32_groups_range _ Hb') as G'.
  revert E G. generalize (b32_groups buf). induction G' as [|v l Hv Hl IH]; intros [|v' l'] E G; simplify_eq/=; [done |].
  apply Forall_cons in G as [Hv' G]. f_equal; [| by apply IH].
  rename select (b32_char v = b32_char v') into Ev. apply (f_equal byteval) in Ev. rewrite !Hc in Ev by done.
  repeat case_match; lia.
Qed.

(** C24: A token is good until it expires or is revoked, and never after.  When the
    creation of an API token succeeds, then after any requests to create, list,
    revoke and use tokens the bearer of the new one is taken for the user who made it
    exactly if no revocation of this token has succeeded, the configured life time
    has not passed, and the user and his tenant are not suspended.  After a
    revocation it is refused as unknown and is not on the user's list; a token that is
    neither revoked nor expired is on it.  (One that has expired and was not revoked stays
    on it, see [expired_token_listed].)  Different random bytes make different tokens. *)
Theorem api_token_life ttl now cookie body buf id e resp e0 evs now' :
  ids_unique (e_api e) -> Forall (fun z => 0 <= z < 256) buf ->
  handleCreateToken sha256 ttl now cookie body (Some buf) id e = (Ok resp, e0) ->
  exists raw ident us, cookie = Some raw /\ authenticateRaw sha256 now raw PurposeAdmin e = Ok ident /\
    users (e_db e) !! in_UserID ident = Some us /\
    let e1 := api_run evs e0 in
    let out := (RequireEnrollBearer sha256 now' (bearerPrefix ++ cr_Token resp) e1).1 in
    (out = Ok (mkIdent (in_UserID ident) (us_TenantID us) PurposeAPIToken None) <->
       ~ revoked_in id evs e0 /\ (0 < ttl -> now' <= now + ttl) /\ in_UserID ident ∉ e_suspended e /\
       exists ten, e_tenants e !! us_TenantID us = Some ten /\ tn_suspended ten = false) /\
    (revoked_in id evs e0 ->
       out = Err (mkRefusal 401 "invalid_token" "") /\ id ∉ ap_ID <$> ListAPITokensByUser (in_UserID ident) e1) /\
    (~ revoked_in id evs e0 -> (0 < ttl -> now' <= now + ttl) -> id ∈ ap_ID <$> ListAPITokensByUser (in_UserID ident) e1) /\
    forall buf', Forall (fun z => 0 <= z < 256) buf' -> length buf' = length buf -> tokenOf buf' = cr_Token resp -> buf' = buf.
Proof.
  intros U Hbuf H. destruct (create_inv _ _ _ _ _ _ _ _ _ U H) as (raw & ident & us & -> & Ea & Eu & Er & S0 & R0).
  exists raw, ident, us. do 3 (split; [done |]). destruct (run_row _ _ _ _ evs _ _ R0) as [R1 S1].
  assert (sameBut e (api_run evs e0)) as (Ed & _ & Et & Es) by (by eapply sameBut_trans).
  cbv zeta. rewrite Er. split_and!.
  - destruct R1 as (_ & t & Ht & H1 & H2 & H3 & H4). rewrite (use_created _ _ _ _ Hbuf Ht). cbv zeta.
    rewrite Ed, Et, Es, H2, H3, Eu. destruct (e_tenants e !! us_TenantID us) as [ten|]; [| naive_solver].
    case_bool_decide as Hr; [split; [done |]; intros [Hn _]; apply H4 in Hr; tauto |]. rewrite H4 in Hr.
    destruct (0 <? ttl) eqn:El; [apply Z.ltb_lt in El | apply Z.ltb_ge in El]; [destruct (now + ttl <? now') eqn:Ex |].
    1: apply Z.ltb_lt in Ex; split; [done |]; intros (_ & Hx & _); specialize (Hx El); lia.
    all: destruct (tn_suspended ten) eqn:Esu; [split; [done |]; intros (_ & _ & _ & ? & ? & ?); simplify_eq; congruence |].
    all: case_bool_decide as Hs; [split; [done |]; tauto |].
    all: split; [intros _ | done]; split_and!; [tauto | intros; lia | done | by exists ten].
  - intros Hg. split; [| rewrite (list_has_row _ _ _ _ _ _ R1); tauto].
    destruct R1 as (_ & t & Ht & H1 & H2 & H3 & H4). rewrite (use_created _ _ _ _ Hbuf Ht). cbv zeta.
    rewrite bool_decide_true by (apply H4; by right). by repeat case_match.
  - intros Hg _. rewrite (list_has_row _ _ _ _ _ _ R1). tauto.
  - intros buf' Hb' Hn Etok. by apply tokenOf_inj.
Qed.
End life.

(** ** A run *)

Module TokenRun.
Definition hash (s : gostr) : gostr := s.
Definition parse (s : gostr) : option uuid := if decide (s = str "77") then Some 77 else None.
(** User 1 of tenant t with the admin session s. *)
Definition start : edb :=
  mkE (mkCdb ∅ {[ 1 := mkUser (str "t") 100 ]} ∅ ∅ ∅ ∅ ∅)
    {[ str "s" := mkTok PurposeAdmin 1 (str "t") None 1000 None None ]} ∅ {[ str "t" := mkTenant (str "t") false ]} ∅.
Definition buf : list Z := seqZ 200 24.
Definition created : result refusal createTokenResponse * edb :=
  handleCreateToken hash 500 100 (Some (str "s")) (Some (str " laptop ")) (Some buf) 77 start.
Definition resp : createTokenResponse :=
  mkCreated (uuidString 77) (str "laptop") (take 12 (tokenOf buf)) 100 (tokenOf buf).
Definition evs : list apiEvent := [EvUse 150 (bearerPrefix ++ tokenOf buf); EvRevoke 160 (Some (str "s")) (str "77")].
Definition use (now : Z) (evs : list apiEvent) : result refusal identity :=
  (RequireEnrollBearer hash now (bearerPrefix ++ cr_Token resp) (api_run hash parse evs created.2)).1.

Lemma created_ok : created = (Ok resp, created.2).
Proof. vm_compute. reflexivity. Qed.

Lemma buf_ok : Forall (fun z => 0 <= z < 256) buf.
Proof. apply Forall_forall. intros z Hz%elem_of_seqZ. lia. Qed.
End TokenRun.

Lemma api_token_life_witness :
  TokenRun.use 170 [] = Ok (mkIdent 1 (str "t") PurposeAPIToken None) /\
  TokenRun.use 170 TokenRun.evs = Err (mkRefusal 401 "invalid_token" "") /\
  TokenRun.use 601 [] = Err (mkRefusal 401 "invalid_token" "expired").
Proof.
  split_and!; [vm_compute; reflexivity | | vm_compute; reflexivity].
  destruct (api_token_life TokenRun.hash TokenRun.parse 500 100 (Some (str "s")) (Some (str " laptop ")) TokenRun.buf 77
    TokenRun.start TokenRun.resp TokenRun.created.2 TokenRun.evs 170) as (raw & ident & us & _ & _ & _ & _ & H & _).
  - intros h h' t t' Ht. change ((∅ : gmap gostr apiToken) !! h = Some t) in Ht. by rewrite lookup_empty in Ht.
  - apply TokenRun.buf_ok.
  - apply TokenRun.created_ok.
  - apply H. right. left. split; vm_compute; reflexivity.
Defined.

(** The list shows tokens that have expired. *)
Example expired_token_listed :
  (RequireEnrollBearer TokenRun.hash 601 (bearerPrefix ++ tokenOf TokenRun.buf) TokenRun.created.2).1 =
    Err (mkRefusal 401 "invalid_token" "expired") /\
  (handleListTokens TokenRun.hash 601 (Some (str "s")) TokenRun.created.2).1 =
    Ok [mkItem (uuidString 77) (str "laptop") (take 12 (tokenOf TokenRun.buf)) 100 None].
Proof. split; vm_compute; reflexivity. Qed.
