(* ===== verification/Config.v ===== *)
(** * Configuration of the server

    orlop-server/config.go: what [LoadConfig] makes of a YAML file and of the
    environment, the defaults of the lease and collection settings, and how the
    collection loop of gc.go starts with them.

    YAML is library code: the decoded struct is the argument, [None] when the file
    cannot be read or parsed.  [getenv] is the environment ([] for a variable that is
    not set), [cwd] the working directory ([None] when there is none) and
    [ParseDuration] the function of package time, in nanoseconds. *)

From S2P Require Import Prelude GoPath TenantDB Enroll Provision Gc.

(** ** The file *)

Record rawStore := mkRawStore { rs_Type : gostr; rs_Root : gostr }.
Record rawRoutes := mkRawRoutes { rr_Type : gostr; rr_Path : gostr }.
Record rawTenant := mkRawTenant { rt_TID : gostr; rt_TName : gostr; rt_Store : option rawStore; rt_Routes : option rawRoutes }.
Record rawPolicy := mkRawPolicy { rp_Allow : list gostr; rp_Deny : list gostr }.
Record rawServer := mkRawServer { rv_OpsBind : gostr; rv_DataBind : gostr }.
Record rawTLS := mkRawTLS {
  rl_CertFile : gostr; rl_KeyFile : gostr; rl_ClientCAFile : gostr; rl_TrustDomain : gostr; rl_SelfProvision : bool;
  rl_ControlURL : gostr; rl_FQDN : gostr }.
Record rawQuota := mkRawQuota {
  rq_Enforce : option bool; rq_BurstMarginBytes : option Z; rq_Backend : gostr; rq_JuicefsMountRoot : gostr;
  rq_BackingWriteTimeoutMS : option Z }.

Record LeaseConfig := mkLeaseConfig { lc_TTLMillis : Z; lc_MinHoldMillis : Z; lc_RevokeTimeoutMillis : Z }.

Record GCConfig := mkGCConfig {
  gcc_Interval : gostr; gcc_RetentionWindow : gostr; gcc_BatchSize : Z; gcc_TenantBudget : gostr; gcc_DryRun : bool }.

Record rawConfig := mkRawConfig {
  rc_AuditLog : gostr; rc_Tenant : rawTenant; rc_Tenants : list rawTenant; rc_Store : option rawStore;
  rc_Routes : option rawRoutes; rc_Policy : rawPolicy; rc_Server : rawServer; rc_TLS : rawTLS; rc_Lease : LeaseConfig;
  rc_GC : GCConfig; rc_TenantsRoot : gostr; rc_MetadataRoot : gostr; rc_RegisteredTenantsPath : gostr; rc_Quota : rawQuota }.

(** ** What it resolves to *)

Record TenantConfig := mkTenantConfig { tc_ID : gostr; tc_Name : gostr; tc_StoreRoot : gostr; tc_RoutesDB : gostr }.

Record Config := mkConfig {
  cf_AuditLog : gostr; cf_StoreRoot : gostr; cf_RoutesDB : gostr; cf_TenantID : gostr; cf_Tenants : list TenantConfig;
  cf_Allow : list gostr; cf_Deny : list gostr; cf_Lease : LeaseConfig; cf_GC : GCConfig;
  cf_OpsBind : gostr; cf_DataBind : gostr; cf_TLSCertFile : gostr; cf_TLSKeyFile : gostr; cf_TLSClientCA : gostr;
  cf_TLSSelfProvision : bool; cf_ControlURL : gostr; cf_ServerFQDN : gostr; cf_ServiceToken : gostr;
  cf_TenantsRoot : gostr; cf_MetadataRoot : gostr; cf_RegisteredTenantsPath : gostr; cf_TrustDomain : gostr;
  cf_QuotaEnforce : bool; cf_QuotaBurstMarginBytes : Z; cf_QuotaBackend : gostr; cf_QuotaJuicefsMountRoot : gostr;
  cf_QuotaJuicefsMetaURL : gostr; cf_QuotaApplyAsync : bool; cf_BackingWriteTimeout : Z; cf_GuardBackingCapacity : bool }.

Inductive loadErr :=
| ReadFailed
| errNoStaticTenants | TenantIDRequired | DuplicateTenant | StoreRequired | StoreType | RoutesRequired | RoutesType
| BadInterval | BadRetention | RetentionTooShort | BadBudget | BudgetNotPositive
| TrustDomainRequired | MountRootRequired | MetaURLRequired | BadBackend.

(** The settings of leases and collection in effect, in nanoseconds. *)
Record leaseSettings := mkLeaseSettings { ls_ttl : Z; ls_minHold : Z; ls_revokeTimeout : Z }.

Record gcSettings := mkGcSettings {
  gs_Interval : Z; gs_RetentionWindow : Z; gs_BatchSize : Z; gs_TenantBudget : Z; gs_DryRun : bool }.

Definition Millisecond : Z := 1000000.
Definition Second : Z := 1000 * Millisecond.
Definition Hour : Z := 3600 * Second.

(** [time.Duration(ms) * time.Millisecond]: 64-bit multiplication. *)
Definition millis (ms : Z) : Z := i64 (ms * Millisecond).

Definition LeaseEffective (c : LeaseConfig) : leaseSettings :=
  mkLeaseSettings
    (if 0 <? lc_TTLMillis c then millis (lc_TTLMillis c) else 30 * Second)
    (if 0 <? lc_MinHoldMillis c then millis (lc_MinHoldMillis c) else 100 * Millisecond)
    (if 0 <? lc_RevokeTimeoutMillis c then millis (lc_RevokeTimeoutMillis c) else 2 * Second).

Definition defaultBackingWriteTimeout : Z := 20 * Second.
Definition defaultQuotaBurstMarginBytes : Z := Z.shiftl 256 20.

Definition resolveQuotaBurstMargin (v : option Z) : Z :=
  match v with None => defaultQuotaBurstMarginBytes | Some n => if n <? 0 then 0 else n end.

Definition resolveBackingWriteTimeout (ms : option Z) : Z :=
  match ms with None => 0 | Some n => if n <=? 0 then 0 else millis n end.

(** [strconv.ParseBool]. *)
Definition ParseBool (s : gostr) : option bool :=
  if decide (s ∈ [str "1"; str "t"; str "T"; str "TRUE"; str "true"; str "True"]) then Some true
  else if decide (s ∈ [str "0"; str "f"; str "F"; str "FALSE"; str "false"; str "False"]) then Some false
  else None.

Section config.
Context (ParseDuration : gostr -> option Z) (getenv : gostr -> gostr) (cwd : option gostr).

Definition zeroStr : gostr := str "0".

Definition GCValidate (c : GCConfig) : option loadErr :=
  if decide (gcc_Interval c <> [] /\ gcc_Interval c <> zeroStr /\ ParseDuration (gcc_Interval c) = None) then Some BadInterval
  else
    match (if decide (gcc_RetentionWindow c = []) then None
           else match ParseDuration (gcc_RetentionWindow c) with
                | None => Some BadRetention
                | Some d => if d <? Hour then Some RetentionTooShort else None
                end) with
    | Some e => Some e
    | None =>
        if decide (gcc_TenantBudget c = []) then None
        else match ParseDuration (gcc_TenantBudget c) with
             | None => Some BadBudget
             | Some d => if d <=? 0 then Some BudgetNotPositive else None
             end
    end.

(** A string that parses to a value with [ok], or the default. *)
Definition durationOr (s : gostr) (ok : Z -> bool) (def : Z) : Z :=
  if decide (s = []) then def
  else match ParseDuration s with Some d => if ok d then d else def | None => def end.

Definition GCEffective (c : GCConfig) : gcSettings :=
  mkGcSettings
    (if decide (gcc_Interval c = zeroStr) then 0 else durationOr (gcc_Interval c) (fun _ => true) (24 * Hour))
    (durationOr (gcc_RetentionWindow c) (fun d => Hour <=? d) (7 * 24 * Hour))
    (if 0 <? gcc_BatchSize c then gcc_BatchSize c else 500)
    (durationOr (gcc_TenantBudget c) (fun d => 0 <? d) (120 * Second))
    (gcc_DryRun c).

(** How [gcLoop.Run] goes on after the first tick: [time.NewTicker] panics for an
    interval that is not positive. *)
Inductive gcStart := GcDisabled | GcPanics | GcTicks (every : Z).

Definition gcRun (s : gcSettings) : gcStart :=
  if gs_Interval s =? 0 then GcDisabled else if gs_Interval s <=? 0 then GcPanics else GcTicks (gs_Interval s).

(** The cutoff of a tick at [nowNs], in seconds. *)
Definition gcCutoff (s : gcSettings) (nowNs : Z) : Z := (nowNs - gs_RetentionWindow s) / Second.

Definition sweepConfig (s : gcSettings) : gcConfig := mkGcConfig (gs_BatchSize s) (gs_DryRun s).

(** ** Paths and environment *)

Definition absOrSelf (p : gostr) : gostr :=
  if decide (p = []) then p
  else if rooted p then p
  else match cwd with Some d => pathJoin [d; p] | None => p end.

Definition envKeyWithLegacy (primary legacy : gostr) : gostr :=
  if decide (TrimSpace (getenv primary) <> []) then primary
  else if decide (TrimSpace (getenv legacy) <> []) then legacy else primary.

Definition envBoolDefault (key : gostr) (def : bool) : bool :=
  let v := TrimSpace (getenv key) in
  if decide (v = []) then def else default def (ParseBool v).

(** ** Tenants *)

Definition orElse {A} (x y : option A) : option A := match x with Some _ => x | None => y end.

Definition resolveTenant (raw : rawConfig) (seen : list gostr) (t : rawTenant) : result loadErr TenantConfig :=
  let store := orElse (rt_Store t) (rc_Store raw) in
  let routes := orElse (rt_Routes t) (rc_Routes raw) in
  if decide (rt_TID t = []) then Err TenantIDRequired
  else if decide (rt_TID t ∈ seen) then Err DuplicateTenant
  else
    match store with
    | None => Err StoreRequired
    | Some st =>
        if decide (rs_Root st = []) then Err StoreRequired
        else if decide (rs_Type st <> [] /\ rs_Type st <> str "local") then Err StoreType
        else
          match routes with
          | None => Err RoutesRequired
          | Some ro =>
              if decide (rr_Path ro = []) then Err RoutesRequired
              else if decide (rr_Type ro <> [] /\ rr_Type ro <> str "sqlite") then Err RoutesType
              else Ok (mkTenantConfig (rt_TID t) (if decide (rt_TName t = []) then rt_TID t else rt_TName t)
                         (absOrSelf (rs_Root st)) (absOrSelf (rr_Path ro)))
          end
    end.

Fixpoint resolveTenants (raw : rawConfig) (seen : list gostr) (ts : list rawTenant) : result loadErr (list TenantConfig) :=
  match ts with
  | [] => Ok []
  | t :: ts' =>
      match resolveTenant raw seen t with
      | Err e => Err e
      | Ok c => match resolveTenants raw (rt_TID t :: seen) ts' with Err e => Err e | Ok cs => Ok (c :: cs) end
      end
  end.

Definition resolveTenantConfigs (raw : rawConfig) : result loadErr (list TenantConfig) :=
  match rc_Tenants raw with
  | [] =>
      let store := orElse (rt_Store (rc_Tenant raw)) (rc_Store raw) in
      let routes := orElse (rt_Routes (rc_Tenant raw)) (rc_Routes raw) in
      match rt_TID (rc_Tenant raw), store, routes with
      | [], None, None => Err errNoStaticTenants
      | _, _, _ => resolveTenants raw [] [mkRawTenant (rt_TID (rc_Tenant raw)) (rt_TName (rc_Tenant raw)) store routes]
      end
  | ts => resolveTenants raw [] ts
  end.

(** ** [LoadConfig] *)

(** The fields that do not depend on the quota backend. *)
Definition baseConfig (raw : rawConfig) (tenants : list TenantConfig) (backend : gostr) (timeout : Z) (guard : bool) : Config :=
  let auditLogAbs := absOrSelf (if decide (rc_AuditLog raw = []) then str "./audit.log" else rc_AuditLog raw) in
  let registered :=
    if decide (rc_RegisteredTenantsPath raw = [] /\ rc_TenantsRoot raw <> [])
    then pathJoin [Dir auditLogAbs; str "registered_tenants.json"] else rc_RegisteredTenantsPath raw in
  let metadataRoot := if decide (rc_MetadataRoot raw = []) then rc_TenantsRoot raw else rc_MetadataRoot raw in
  let primary := default (mkTenantConfig [] [] [] []) (head tenants) in
  let q := rc_Quota raw in
  let tls := rc_TLS raw in
  mkConfig auditLogAbs (tc_StoreRoot primary) (tc_RoutesDB primary) (tc_ID primary) tenants
    (rp_Allow (rc_Policy raw)) (rp_Deny (rc_Policy raw)) (rc_Lease raw) (rc_GC raw)
    (if decide (rv_OpsBind (rc_Server raw) = []) then str ":7878" else rv_OpsBind (rc_Server raw)) (rv_DataBind (rc_Server raw))
    (absOrSelf (rl_CertFile tls)) (absOrSelf (rl_KeyFile tls)) (absOrSelf (rl_ClientCAFile tls))
    (rl_SelfProvision tls) (rl_ControlURL tls) (rl_FQDN tls)
    (getenv (envKeyWithLegacy (str "ORLOP_SERVICE_TOKEN") (str "ORLOP_DATAGW_SERVICE_TOKEN")))
    (absOrSelf (rc_TenantsRoot raw)) (absOrSelf metadataRoot) (absOrSelf registered) (rl_TrustDomain tls)
    (default true (rq_Enforce q)) (resolveQuotaBurstMargin (rq_BurstMarginBytes q)) backend
    (absOrSelf (rq_JuicefsMountRoot q)) (getenv (str "ORLOP_JFS_META_URL"))
    (envBoolDefault (str "ORLOP_QUOTA_APPLY_ASYNC") true) timeout guard.

(** The checks after the tenants. *)
Definition finishConfig (raw : rawConfig) (tenants : list TenantConfig) : result loadErr Config :=
  match GCValidate (rc_GC raw) with
  | Some e => Err e
  | None =>
      if decide (rc_TenantsRoot raw <> [] /\ rl_TrustDomain (rc_TLS raw) = []) then Err TrustDomainRequired
      else
        let q := rc_Quota raw in
        let timeout := resolveBackingWriteTimeout (rq_BackingWriteTimeoutMS q) in
        if decide (rq_Backend q = [] \/ rq_Backend q = str "ext4") then Ok (baseConfig raw tenants (str "ext4") timeout false)
        else if decide (rq_Backend q = str "juicefs") then
          if default true (rq_Enforce q) && bool_decide (absOrSelf (rq_JuicefsMountRoot q) = []) then Err MountRootRequired
          else if default true (rq_Enforce q) && bool_decide (getenv (str "ORLOP_JFS_META_URL") = []) then Err MetaURLRequired
          else
            Ok (baseConfig raw tenants (str "juicefs")
                  (match rq_BackingWriteTimeoutMS q with None => defaultBackingWriteTimeout | Some _ => timeout end) true)
        else Err BadBackend
  end.

Definition LoadConfig (file : option rawConfig) : result loadErr Config :=
  match file with
  | None => Err ReadFailed
  | Some raw =>
      match resolveTenantConfigs raw with
      | Ok tenants => finishConfig raw tenants
      | Err errNoStaticTenants => if decide (rc_TenantsRoot raw = []) then Err errNoStaticTenants else finishConfig raw []
      | Err e => Err e
      end
  end.

End config.
