(* ===== verification/ConfigProps.v ===== *)
(** * Which configurations the server accepts

    Theorems on Config.v: a configuration is accepted exactly if it is complete, and
    what the server then works with meets the assumptions of its parts. *)

From S2P Require Import Prelude GoPath TenantDB Codec Manifests FileSpec Changes ChunkStore Gc GcProps Enroll Provision Config.

(** ** Paths *)

Lemma clean_segs_nonempty rt segs : Forall (fun s => s <> []) (clean_segs rt segs).
Proof.
  unfold clean_segs. apply Forall_reverse.
  assert (forall out, Forall (fun s => s <> []) out -> Forall (fun s => s <> []) (foldl (clean_step rt) out segs)) as H; [| by apply H].
  induction segs as [|s segs IH]; intros out Ho; [done |]. simpl. apply IH. unfold clean_step.
  case_decide as H1; [done |]. apply Decidable.not_or in H1 as [H1 _]. case_decide as H2; [| by apply Forall_cons].
  destruct out as [|top out]; [destruct rt; [done | by apply Forall_singleton] |].
  case_decide; [by apply Forall_cons | by apply Forall_cons in Ho as [_ Ho]].
Qed.

Lemma join_slash_nonempty l : l <> [] -> Forall (fun s => s <> []) l -> join_slash l <> [].
Proof. intros Hne Hf. destruct Hf as [|s l Hs _]; [done |]. destruct l; simpl; [done |]. by destruct s. Qed.

Lemma Clean_nonempty p : Clean p <> [].
Proof.
  unfold Clean. destruct p as [|c p]; [done |]. destruct (rooted (c :: p)); [done |].
  pose proof (clean_segs_nonempty false (split_slash (c :: p))) as H. destruct (clean_segs _ _) as [|s l]; [done |].
  by apply join_slash_nonempty.
Qed.

Lemma Clean_rooted p : rooted p = true -> rooted (Clean p) = true.
Proof. intros H. unfold Clean. destruct p as [|c p]; [done |]. by rewrite H. Qed.

Section accepted.
Context (ParseDuration : gostr -> option Z) (getenv : gostr -> gostr) (cwd : option gostr).

Abbreviation abs := (absOrSelf cwd).

Lemma abs_nil p : abs p = [] <-> p = [].
Proof.
  unfold absOrSelf. case_decide as Hp; [done |]. destruct (rooted p); [done |]. destruct cwd as [d|]; [| done].
  split; [| done]. intros E. exfalso. revert E. destruct d as [|c d]; [destruct p; [done |] |]; apply Clean_nonempty.
Qed.

Lemma abs_rooted d p : cwd = Some d -> rooted d = true -> p <> [] -> rooted (abs p) = true.
Proof.
  intros Hc Hd Hp. unfold absOrSelf. rewrite decide_False by done. destruct (rooted p) eqn:Er; [done |]. rewrite Hc.
  destruct d as [|c d]; [done |]. by apply Clean_rooted.
Qed.

(** ** What a file must have *)

Definition store_ok (st : option rawStore) : Prop :=
  exists s, st = Some s /\ rs_Root s <> [] /\ (rs_Type s = [] \/ rs_Type s = str "local").
Definition routes_ok (ro : option rawRoutes) : Prop :=
  exists r, ro = Some r /\ rr_Path r <> [] /\ (rr_Type r = [] \/ rr_Type r = str "sqlite").

Definition tenant_ok (raw : rawConfig) (t : rawTenant) : Prop :=
  rt_TID t <> [] /\ store_ok (orElse (rt_Store t) (rc_Store raw)) /\ routes_ok (orElse (rt_Routes t) (rc_Routes raw)).

(** The tenants of the file: the list, or the single one. *)
Definition staticTenants (raw : rawConfig) : list rawTenant :=
  match rc_Tenants raw with [] => [rc_Tenant raw] | ts => ts end.

Definition dynamicOnly (raw : rawConfig) : Prop :=
  rc_Tenants raw = [] /\ rt_TID (rc_Tenant raw) = [] /\
  orElse (rt_Store (rc_Tenant raw)) (rc_Store raw) = None /\ orElse (rt_Routes (rc_Tenant raw)) (rc_Routes raw) = None.

Definition tenants_valid (raw : rawConfig) : Prop :=
  (dynamicOnly raw /\ rc_TenantsRoot raw <> []) \/
  (~ dynamicOnly raw /\ Forall (tenant_ok raw) (staticTenants raw) /\ NoDup (rt_TID <$> staticTenants raw)).

Definition gc_valid (c : GCConfig) : Prop :=
  (gcc_Interval c = [] \/ gcc_Interval c = zeroStr \/ is_Some (ParseDuration (gcc_Interval c))) /\
  (gcc_RetentionWindow c = [] \/ exists d, ParseDuration (gcc_RetentionWindow c) = Some d /\ Hour <= d) /\
  (gcc_TenantBudget c = [] \/ exists d, ParseDuration (gcc_TenantBudget c) = Some d /\ 0 < d).

Definition quota_valid (q : rawQuota) : Prop :=
  (rq_Backend q = [] \/ rq_Backend q = str "ext4") \/
  (rq_Backend q = str "juicefs" /\
   (rq_Enforce q <> Some false -> rq_JuicefsMountRoot q <> [] /\ getenv (str "ORLOP_JFS_META_URL") <> [])).

Definition valid (raw : rawConfig) : Prop :=
  tenants_valid raw /\ gc_valid (rc_GC raw) /\ (rc_TenantsRoot raw <> [] -> rl_TrustDomain (rc_TLS raw) <> []) /\
  quota_valid (rc_Quota raw).

(** ** Tenants *)

Definition resolved (raw : rawConfig) (t : rawTenant) (c : TenantConfig) : Prop :=
  tc_ID c = rt_TID t /\ tc_Name c <> [] /\
  (exists s, orElse (rt_Store t) (rc_Store raw) = Some s /\ tc_StoreRoot c = abs (rs_Root s) /\ rs_Root s <> []) /\
  (exists r, orElse (rt_Routes t) (rc_Routes raw) = Some r /\ tc_RoutesDB c = abs (rr_Path r) /\ rr_Path r <> []).

Lemma resolveTenant_spec raw seen t :
  match resolveTenant cwd raw seen t with
  | Ok c => tenant_ok raw t /\ rt_TID t ∉ seen /\ resolved raw t c
  | Err e => (~ tenant_ok raw t \/ rt_TID t ∈ seen) /\ e <> errNoStaticTenants
  end.
Proof.
  unfold resolveTenant, tenant_ok, store_ok, routes_ok, resolved. cbv zeta.
  destruct (decide (rt_TID t = [])) as [Hid|Hid]; [naive_solver |]. destruct (decide (rt_TID t ∈ seen)) as [Hs|Hs]; [naive_solver |].
  destruct (orElse (rt_Store t) (rc_Store raw)) as [st|]; [| naive_solver]. destruct (decide (rs_Root st = [])) as [Hr|Hr]; [naive_solver |].
  destruct (decide (rs_Type st <> [] /\ rs_Type st <> str "local")) as [Ht|Ht]; [naive_solver |].
  destruct (orElse (rt_Routes t) (rc_Routes raw)) as [ro|]; [| naive_solver]. destruct (decide (rr_Path ro = [])) as [Hp|Hp]; [naive_solver |].
  destruct (decide (rr_Type ro <> [] /\ rr_Type ro <> str "sqlite")) as [Hq|Hq]; [naive_solver |].
  apply not_and_r in Ht, Hq. simpl. assert (forall x y : gostr, x <> [] -> (if decide (y = []) then x else y) <> []) as Hn.
  { intros x y Hx. by case_decide. }
  split_and!; eauto; eexists; split_and!; eauto; destruct Ht as [Ht%dec_stable | Ht%dec_stable], Hq as [Hq%dec_stable | Hq%dec_stable]; auto.
Qed.

Definition fits (raw : rawConfig) (seen : list gostr) (ts : list rawTenant) : Prop :=
  Forall (tenant_ok raw) ts /\ NoDup (rt_TID <$> ts) /\ Forall (fun t => rt_TID t ∉ seen) ts.

Lemma resolveTenants_spec raw ts : forall seen,
  match resolveTenants cwd raw seen ts with
  | Ok cs => fits raw seen ts /\ Forall2 (resolved raw) ts cs
  | Err e => ~ fits raw seen ts /\ e <> errNoStaticTenants
  end.
Proof.
  induction ts as [|t ts IH]; intros seen; simpl; [split; [split_and!; constructor | constructor] |].
  assert (fits raw seen (t :: ts) <-> (tenant_ok raw t /\ rt_TID t ∉ seen) /\ fits raw (rt_TID t :: seen) ts) as Hf.
  { unfold fits. rewrite !Forall_cons, fmap_cons, NoDup_cons, list_elem_of_fmap, !Forall_forall. split.
    - intros ([? ?] & [Hn ?] & [? ?]). split_and!; try done. intros x Hx. apply not_elem_of_cons. split; [| auto].
      intros E. apply Hn. eauto.
    - intros ([? ?] & ? & ? & Hs). split_and!; try done.
      + intros (x & E & Hx). apply Hs in Hx. apply not_elem_of_cons in Hx as [? _]. congruence.
      + intros x Hx. apply Hs in Hx. by apply not_elem_of_cons in Hx as [_ ?]. }
  pose proof (resolveTenant_spec raw seen t) as Ht. destruct (resolveTenant cwd raw seen t) as [c|e]; [| rewrite Hf; naive_solver].
  specialize (IH (rt_TID t :: seen)). destruct (resolveTenants cwd raw _ ts) as [cs|e]; rewrite Hf; [| naive_solver].
  destruct Ht as (? & ? & ?), IH as (? & ?). split; [done | by constructor].
Qed.

Lemma orElse_idem {A} (x y : option A) : orElse (orElse x y) y = orElse x y.
Proof. by destruct x, y. Qed.

Lemma resolveTenantConfigs_spec raw :
  match resolveTenantConfigs cwd raw with
  | Ok cs => ~ dynamicOnly raw /\ fits raw [] (staticTenants raw) /\ Forall2 (resolved raw) (staticTenants raw) cs
  | Err errNoStaticTenants => dynamicOnly raw
  | Err _ => ~ dynamicOnly raw /\ ~ fits raw [] (staticTenants raw)
  end.
Proof.
  unfold resolveTenantConfigs, staticTenants. destruct (rc_Tenants raw) as [|t ts] eqn:El.
  - set (m := mkRawTenant _ _ _ _). assert (fits raw [] [m] <-> fits raw [] [rc_Tenant raw]) as Hm.
    { unfold fits, tenant_ok. rewrite !Forall_singleton. simpl. by rewrite !orElse_idem. }
    assert (forall cs, Forall2 (resolved raw) [m] cs <-> Forall2 (resolved raw) [rc_Tenant raw] cs) as Hr.
    { intros [|c cs]; [split; intros H; by inversion H |]. rewrite !Forall2_cons. unfold resolved. simpl. by rewrite !orElse_idem. }
    pose proof (resolveTenants_spec raw [m] []) as Hs.
    assert (~ dynamicOnly raw ->
      match resolveTenants cwd raw [] [m] with
      | Ok cs => ~ dynamicOnly raw /\ fits raw [] [rc_Tenant raw] /\ Forall2 (resolved raw) [rc_Tenant raw] cs
      | Err errNoStaticTenants => dynamicOnly raw
      | Err _ => ~ dynamicOnly raw /\ ~ fits raw [] [rc_Tenant raw]
      end) as Hgo.
    { intros Hd. destruct (resolveTenants cwd raw [] [m]) as [cs|e]; [rewrite Hm, Hr in Hs; tauto |]. rewrite Hm in Hs.
      destruct Hs as [? ?]. by destruct e. }
    cbv zeta. unfold dynamicOnly in *. rewrite El in *.
    destruct (rt_TID (rc_Tenant raw)) eqn:E1, (orElse (rt_Store (rc_Tenant raw)) (rc_Store raw)) eqn:E2,
      (orElse (rt_Routes (rc_Tenant raw)) (rc_Routes raw)) eqn:E3; try (apply Hgo; naive_solver). by split_and!.
  - assert (~ dynamicOnly raw) as Hd by (intros [E _]; congruence).
    pose proof (resolveTenants_spec raw (t :: ts) []) as Hs. destruct (resolveTenants cwd raw [] (t :: ts)) as [cs|e]; [tauto |].
    destruct Hs as [? ?]. by destruct e.
Qed.

Lemma fits_valid raw :
  tenants_valid raw <-> (dynamicOnly raw /\ rc_TenantsRoot raw <> []) \/ (~ dynamicOnly raw /\ fits raw [] (staticTenants raw)).
Proof.
  unfold tenants_valid, fits. split; intros [? | (? & Hf & Hn)]; [by left | right | by left | right; tauto].
  split_and!; try done. apply Forall_forall. intros ? _. apply not_elem_of_nil.
Qed.

(** ** Collection settings *)

Lemma GCValidate_spec c : GCValidate ParseDuration c = None <-> gc_valid c.
Proof.
  unfold GCValidate, gc_valid. case_decide as Hi.
  { split; [done |]. destruct Hi as (H1 & H2 & H3). rewrite H3. intros [[? | [? | []]] _]; done. }
  assert (gcc_Interval c = [] \/ gcc_Interval c = zeroStr \/ is_Some (ParseDuration (gcc_Interval c))) as HI.
  { destruct (decide (gcc_Interval c = [])); [by left |]. destruct (decide (gcc_Interval c = zeroStr)); [by right; left |].
    right; right. destruct (ParseDuration (gcc_Interval c)); [eauto |]. by destruct Hi. }
  split.
  - intros E. split; [done |]. case_decide as Hr.
    + split; [by left |]. case_decide; [by left | right]. destruct (ParseDuration (gcc_TenantBudget c)) as [d|]; [| done].
      destruct (d <=? 0) eqn:El; [done |]. exists d. split; [done | lia].
    + destruct (ParseDuration (gcc_RetentionWindow c)) as [w|]; [| done]. destruct (w <? Hour) eqn:Ew; [done |].
      split; [right; exists w; split; [done | lia] |]. case_decide; [by left | right].
      destruct (ParseDuration (gcc_TenantBudget c)) as [d|]; [| done]. destruct (d <=? 0) eqn:El; [done |]. exists d. split; [done | lia].
  - intros (_ & Hr & Hb).
    assert ((if decide (gcc_RetentionWindow c = []) then None else match ParseDuration (gcc_RetentionWindow c) with
      | None => Some BadRetention | Some d => if d <? Hour then Some RetentionTooShort else None end) = None) as ->.
    { case_decide; [done |]. destruct Hr as [? | (w & -> & Hw)]; [done |]. by rewrite (proj2 (Z.ltb_ge _ _)). }
    case_decide; [done |]. destruct Hb as [? | (d & -> & Hd)]; [done |]. by rewrite (proj2 (Z.leb_gt _ _)).
Qed.

(** What is set is in effect. *)
Definition in_effect (c : GCConfig) (s : gcSettings) : Prop :=
  (gcc_Interval c <> [] -> gcc_Interval c <> zeroStr -> ParseDuration (gcc_Interval c) = Some (gs_Interval s)) /\
  (gcc_Interval c = zeroStr -> gs_Interval s = 0) /\
  (gcc_RetentionWindow c <> [] -> ParseDuration (gcc_RetentionWindow c) = Some (gs_RetentionWindow s)) /\
  (gcc_TenantBudget c <> [] -> ParseDuration (gcc_TenantBudget c) = Some (gs_TenantBudget s)) /\
  (0 < gcc_BatchSize c -> gs_BatchSize s = gcc_BatchSize c) /\ gs_DryRun s = gcc_DryRun c.

Lemma GCEffective_spec c : gc_valid c ->
  let s := GCEffective ParseDuration c in
  Hour <= gs_RetentionWindow s /\ 0 < gs_BatchSize s /\ 0 < gs_TenantBudget s /\ in_effect c s.
Proof.
  intros (Hi & Hr & Hb). cbv zeta. unfold GCEffective, in_effect, durationOr. simpl.
  split_and!; try done.
  - destruct Hr as [-> | (w & Ew & Hw)]; [done |]. rewrite Ew, (proj2 (Z.leb_le _ _)) by done. by case_decide.
  - destruct (0 <? gcc_BatchSize c) eqn:E; lia.
  - destruct Hb as [-> | (d & Ed & Hd)]; [done |]. rewrite Ed, (proj2 (Z.ltb_lt _ _)) by done. by case_decide.
  - intros H1 H2. rewrite !decide_False by done. destruct Hi as [? | [? | [d Hd]]]; [done.. |]. by rewrite Hd.
  - intros H1. by rewrite decide_True.
  - intros H1. rewrite decide_False by done. destruct Hr as [? | (w & Ew & Hw)]; [done |]. by rewrite Ew, (proj2 (Z.leb_le _ _)).
  - intros H1. rewrite decide_False by done. destruct Hb as [? | (d & Ed & Hd)]; [done |]. by rewrite Ed, (proj2 (Z.ltb_lt _ _)).
  - intros H1. by rewrite (proj2 (Z.ltb_lt _ _)).
Qed.

(** ** Accepted configurations *)

Record accepted (raw : rawConfig) (cfg : Config) : Prop := mkAccepted {
  ac_ids : (dynamicOnly raw /\ cf_Tenants cfg = [] /\ cf_TenantsRoot cfg <> []) \/
    (tc_ID <$> cf_Tenants cfg = rt_TID <$> staticTenants raw /\ cf_Tenants cfg <> []);
  ac_unique : NoDup (tc_ID <$> cf_Tenants cfg);
  ac_tenants : Forall (fun c => tc_ID c <> [] /\ tc_Name c <> [] /\ tc_StoreRoot c <> [] /\ tc_RoutesDB c <> []) (cf_Tenants cfg);
  ac_primary : forall c cs, cf_Tenants cfg = c :: cs -> cf_TenantID cfg = tc_ID c /\ cf_StoreRoot cfg = tc_StoreRoot c /\ cf_RoutesDB cfg = tc_RoutesDB c;
  ac_dynamic : cf_TenantsRoot cfg <> [] -> cf_TrustDomain cfg <> [] /\ cf_MetadataRoot cfg <> [] /\ cf_RegisteredTenantsPath cfg <> [];
  ac_absolute : forall d, cwd = Some d -> rooted d = true -> rooted (cf_AuditLog cfg) = true /\
    Forall (fun c => rooted (tc_StoreRoot c) = true /\ rooted (tc_RoutesDB c) = true) (cf_Tenants cfg) /\
    (cf_TenantsRoot cfg <> [] -> rooted (cf_TenantsRoot cfg) = true /\ rooted (cf_MetadataRoot cfg) = true /\ rooted (cf_RegisteredTenantsPath cfg) = true);
  ac_backend : (cf_QuotaBackend cfg = str "ext4" /\ cf_GuardBackingCapacity cfg = false) \/
    (cf_QuotaBackend cfg = str "juicefs" /\ cf_GuardBackingCapacity cfg = true /\
     (cf_QuotaEnforce cfg = true -> cf_QuotaJuicefsMountRoot cfg <> [] /\ cf_QuotaJuicefsMetaURL cfg <> []));
  ac_margin : 0 <= cf_QuotaBurstMarginBytes cfg;
  ac_gc : let s := GCEffective ParseDuration (cf_GC cfg) in
    Hour <= gs_RetentionWindow s /\ 0 < gs_BatchSize s /\ 0 < gs_TenantBudget s /\ in_effect (rc_GC raw) s }.

Lemma registered_nonempty raw (audit : gostr) : rc_TenantsRoot raw <> [] ->
  (if decide (rc_RegisteredTenantsPath raw = [] /\ rc_TenantsRoot raw <> [])
   then pathJoin [Dir audit; str "registered_tenants.json"] else rc_RegisteredTenantsPath raw) <> [].
Proof.
  intros Ht. case_decide as H; [| tauto]. unfold Dir. pose proof (Clean_nonempty (upto_last_slash audit)) as Hc.
  destruct (Clean (upto_last_slash audit)) as [|c p]; [done |]. apply Clean_nonempty.
Qed.

Lemma resolved_ids raw ts cs : Forall2 (resolved raw) ts cs -> tc_ID <$> cs = rt_TID <$> ts.
Proof. induction 1 as [|t c ts cs (E & _) _ IH]; [done |]. by rewrite !fmap_cons, E, IH. Qed.

Lemma resolved_all raw ts cs : Forall2 (resolved raw) ts cs -> Forall (tenant_ok raw) ts ->
  Forall (fun c => exists t, tenant_ok raw t /\ resolved raw t c) cs.
Proof.
  induction 1 as [|t c ts cs R F IH]; intros G; [constructor |]. apply Forall_cons in G as [? ?].
  constructor; [by exists t | by apply IH].
Qed.

Lemma base_accepted raw tenants backend timeout guard :
  (dynamicOnly raw /\ tenants = [] /\ rc_TenantsRoot raw <> [] \/
   fits raw [] (staticTenants raw) /\ Forall2 (resolved raw) (staticTenants raw) tenants) ->
  gc_valid (rc_GC raw) -> (rc_TenantsRoot raw <> [] -> rl_TrustDomain (rc_TLS raw) <> []) ->
  (backend = str "ext4" /\ guard = false \/ backend = str "juicefs" /\ guard = true /\
    (default true (rq_Enforce (rc_Quota raw)) = true -> abs (rq_JuicefsMountRoot (rc_Quota raw)) <> [] /\ getenv (str "ORLOP_JFS_META_URL") <> [])) ->
  accepted raw (baseConfig getenv cwd raw tenants backend timeout guard).
Proof.
  intros Ht Hg Htd Hb.
  split; simpl.
  - destruct Ht as [(? & -> & Hr) | ((Hf & _ & _) & F)]; [left; by rewrite abs_nil | right]. split.
    + by eapply resolved_ids.
    + intros ->. inversion F as [Hn|]. unfold staticTenants in Hn. by destruct (rc_Tenants raw).
  - destruct Ht as [(? & -> & Hr) | ((_ & Hn & _) & F)]; [constructor |].
    by rewrite (resolved_ids _ _ _ F).
  - destruct Ht as [(? & -> & Hr) | ((Hf & _) & F)]; [constructor |]. eapply Forall_impl; [by eapply resolved_all |].
    intros c (t & (Hid & _) & E & Hnm & (s & _ & -> & Hs) & r & _ & -> & Hr). rewrite E, !abs_nil. done.
  - by intros c cs ->.
  - rewrite !abs_nil. intros Hr. split; [auto |]. split; [case_decide; congruence |]. by apply registered_nonempty.
  - intros d Hc Hd. split; [by apply (abs_rooted d); [| | case_decide] |]. split.
    + destruct Ht as [(? & -> & Hr) | ((Hf & _) & F)]; [constructor |]. eapply Forall_impl; [by eapply resolved_all |].
      intros c (t & _ & _ & _ & (s & _ & -> & Hs) & r & _ & -> & Hr). by split; apply (abs_rooted d).
    + rewrite !abs_nil. intros Hr. split_and!; apply (abs_rooted d); try done; [case_decide; congruence | by apply registered_nonempty].
  - destruct Hb as [[-> ->] | (-> & -> & H)]; [by left | right]. by split_and!.
  - unfold resolveQuotaBurstMargin. destruct (rq_BurstMarginBytes (rc_Quota raw)) as [n|]; [| done]. destruct (n <? 0) eqn:E; lia.
  - by apply GCEffective_spec.
Qed.

Lemma finish_spec raw tenants :
  (dynamicOnly raw /\ tenants = [] /\ rc_TenantsRoot raw <> [] \/
   fits raw [] (staticTenants raw) /\ Forall2 (resolved raw) (staticTenants raw) tenants) ->
  match finishConfig ParseDuration getenv cwd raw tenants with
  | Ok cfg => (gc_valid (rc_GC raw) /\ (rc_TenantsRoot raw <> [] -> rl_TrustDomain (rc_TLS raw) <> []) /\ quota_valid (rc_Quota raw)) /\
      accepted raw cfg
  | Err _ => ~ (gc_valid (rc_GC raw) /\ (rc_TenantsRoot raw <> [] -> rl_TrustDomain (rc_TLS raw) <> []) /\ quota_valid (rc_Quota raw))
  end.
Proof.
  intros Ht. unfold finishConfig. pose proof (GCValidate_spec (rc_GC raw)) as Hg.
  destruct (GCValidate ParseDuration (rc_GC raw)) as [e|]; [intros [Hv _]; by apply Hg in Hv |]. apply proj1 in Hg. specialize (Hg eq_refl).
  case_decide as Htd; [tauto |].
  assert (rc_TenantsRoot raw <> [] -> rl_TrustDomain (rc_TLS raw) <> []) as Htd' by (intros ? ?; by apply Htd).
  cbv zeta. unfold quota_valid. case_decide as He; [split; [tauto |]; by apply base_accepted; auto |].
  case_decide as Hj; [| tauto].
  assert (default true (rq_Enforce (rc_Quota raw)) = true <-> rq_Enforce (rc_Quota raw) <> Some false) as Hen.
  { by destruct (rq_Enforce (rc_Quota raw)) as [[]|]. }
  destruct (default true (rq_Enforce (rc_Quota raw))) eqn:Ed; simpl.
  - assert (rq_Enforce (rc_Quota raw) <> Some false) as Hne by (by apply Hen).
    case_bool_decide as Hm; [rewrite abs_nil in Hm; tauto |]. rewrite abs_nil in Hm. case_bool_decide as Hu; [tauto |]. split; [tauto |].
    apply base_accepted; auto. right. rewrite abs_nil. tauto.
  - assert (~ rq_Enforce (rc_Quota raw) <> Some false) as Hne by (rewrite <- Hen; done). split; [tauto |].
    apply base_accepted; auto. right. rewrite Ed. by split_and!.
Qed.

Lemma load_cases raw :
  match LoadConfig ParseDuration getenv cwd (Some raw) with
  | Ok cfg => valid raw /\ accepted raw cfg
  | Err _ => ~ valid raw
  end.
Proof.
  assert (valid raw <-> ((dynamicOnly raw /\ rc_TenantsRoot raw <> []) \/ (~ dynamicOnly raw /\ fits raw [] (staticTenants raw))) /\
    gc_valid (rc_GC raw) /\ (rc_TenantsRoot raw <> [] -> rl_TrustDomain (rc_TLS raw) <> []) /\ quota_valid (rc_Quota raw)) as Hv
    by (unfold valid; by rewrite fits_valid).
  unfold LoadConfig. pose proof (resolveTenantConfigs_spec raw) as Ht. destruct (resolveTenantConfigs cwd raw) as [cs|e].
  - destruct Ht as (Hd & Hf & F). pose proof (finish_spec raw cs (or_intror (conj Hf F))) as H.
    destruct (finishConfig _ _ _ raw cs) as [cfg|e]; tauto.
  - destruct e; try tauto. case_decide as Hr; [tauto |].
    pose proof (finish_spec raw [] (or_introl (conj Ht (conj eq_refl Hr)))) as H.
    destruct (finishConfig _ _ _ raw []) as [cfg|e]; tauto.
Qed.

(** C40: [LoadConfig] accepts a file exactly if it is complete: tenants with distinct ids
    (only the ids are compared, see [static_tenants_share_store] for two with one store),
    a local store and SQLite routes, or none at all with a root for dynamic ones and a
    trust domain; durations that parse, with a window of at least an hour and a positive
    budget, while the interval only has to parse (a negative one is accepted and stops the
    server after its first sweep, [negative_interval_panics]); a known quota backend with what
    it needs.  What it then returns has a primary tenant or a root, absolute paths if the
    working directory is known, and collection settings that are those of the file where
    it has any and the defaults elsewhere. *)
Theorem config_exact raw :
  ((exists cfg, LoadConfig ParseDuration getenv cwd (Some raw) = Ok cfg) <-> valid raw) /\
  forall cfg, LoadConfig ParseDuration getenv cwd (Some raw) = Ok cfg -> accepted raw cfg.
Proof.
  pose proof (load_cases raw) as H. destruct (LoadConfig _ _ _ (Some raw)) as [cfg|e].
  - split; [split; [tauto | eauto] |]. intros cfg' [= <-]. tauto.
  - split; [split; [by intros [] | done] | done].
Qed.

End accepted.

(** ** With the collection *)

Section collection.
Context (ParseDuration : gostr -> option Z) (getenv : gostr -> gostr) (cwd : option gostr).
Context (blake3 : blob -> hash) (order : list (gostr * list chunkBatchItem) -> list (gostr * list chunkBatchItem)).
Hypothesis order_perm : forall l, order l ≡ₚ l.

Lemma sweep_dry budget cfg cutoff res d cs : DryRun cfg = true -> (sweepTenant order budget cfg cutoff res d cs).1.2 = d /\
  (sweepTenant order budget cfg cutoff res d cs).2 = cs.
Proof. intros Hd. destruct budget; simpl; [done |]. destruct (selectGCCandidates _ _ _); [done |]. by rewrite Hd. Qed.

(** Whatever configuration was accepted, no tick collects a chunk of the last hour. *)
Theorem recent_chunks_survive raw cfg budget nowNs cutoffMs d cs :
  LoadConfig ParseDuration getenv cwd (Some raw) = Ok cfg -> rows_wf d -> cs_ok blake3 cs ->
  let s := GCEffective ParseDuration (cf_GC cfg) in
  let '(d', cs') := tickTenant order budget (sweepConfig s) (gcCutoff s nowNs) cutoffMs d cs in
  forall h c, chunks d !! h = Some c -> wf_hash h -> nowNs - Hour <= ch_added_at c * Second ->
  chunks d' !! h = Some c /\ on_disk h cs' = on_disk h cs.
Proof using order_perm.
  intros Hl Hw O. cbv zeta. pose proof (load_cases ParseDuration getenv cwd raw) as Ha. rewrite Hl in Ha. destruct Ha as [_ Ha].
  destruct (ac_gc _ _ _ _ Ha) as (Hwin & Hb & _). set (s := GCEffective _ _) in *. unfold tickTenant.
  destruct (gs_DryRun s) eqn:Ed.
  - destruct (sweep_dry budget (sweepConfig s) (gcCutoff s nowNs) (Gc.mkSweep 0 0) d cs) as [E1 E2]; [done |].
    destruct (sweepTenant _ _ _ _ _ _ _) as [[[r|] d'] cs'];
      change (DryRun (sweepConfig s)) with (gs_DryRun s); rewrite ?Ed; cbn [fst snd] in E1, E2; subst; auto.
  - destruct (sweepTenant_spec blake3 order order_perm budget (sweepConfig s) (gcCutoff s nowNs) (Gc.mkSweep 0 0) d cs)
      as (res & d' & cs' & hs & -> & D & (Uf & _) & _ & Hg & _); [done.. |]. change (DryRun (sweepConfig s)) with (gs_DryRun s). rewrite Ed.
    intros h c Hc Hh Hrec. assert (h ∉ hs) as Hn.
    { intros Hin. destruct (Hg h Hin) as (c' & Hc' & Hk). simplify_eq. unfold collectable, gcCutoff in Hk.
      apply andb_true_iff in Hk as [_ Hk%Z.ltb_lt]. unfold Hour, Second, Millisecond in *.
      Z.to_euclidean_division_equations; lia. }
    split.
    + assert (chunks (pruneTombstones cutoffMs d').2 = chunks d') as -> by (unfold pruneTombstones; by case_match).
      destruct D as [_ ->]. by rewrite decide_False.
    + rewrite (on_disk_delete cs cs' hs h) by first [done | by apply (garbage_wf (gcCutoff s nowNs) d)].
      rewrite bool_decide_false by done. apply andb_true_r.
Qed.
End collection.

(** ** Runs *)

Module ConfigRun.
(** The durations of the runs. *)
Definition parse (s : gostr) : option Z :=
  if decide (s = str "2h") then Some (2 * Hour) else if decide (s = str "-5m") then Some (- 300 * Second) else None.
Definition noenv (_ : gostr) : gostr := [].
Definition gcOf (interval window : string) : GCConfig := mkGCConfig (str interval) (str window) 0 [] false.
Definition store : rawStore := mkRawStore [] (str "data").
Definition routes : rawRoutes := mkRawRoutes (str "sqlite") (str "/var/routes.db").
Definition tenant (id : string) : rawTenant := mkRawTenant (str id) [] None None.
Definition raw (tenants : list rawTenant) (gc : GCConfig) : rawConfig :=
  mkRawConfig [] (mkRawTenant [] [] None None) tenants (Some store) (Some routes) (mkRawPolicy [] []) (mkRawServer [] [])
    (mkRawTLS [] [] [] [] false [] []) (mkLeaseConfig 0 0 0) gc [] [] [] (mkRawQuota None None [] [] None).
Definition loadRun (r : rawConfig) : result loadErr Config := LoadConfig parse noenv (Some (str "/srv")) (Some r).
End ConfigRun.

(** Two tenants that leave store and routes to the defaults share one directory and
    one database. *)
Example static_tenants_share_store :
  cf_Tenants <$> (match ConfigRun.loadRun (ConfigRun.raw [ConfigRun.tenant "a"; ConfigRun.tenant "b"] (ConfigRun.gcOf "" "2h")) with Ok c => Some c | Err _ => None end) =
  Some [mkTenantConfig (str "a") (str "a") (str "/srv/data") (str "/var/routes.db");
        mkTenantConfig (str "b") (str "b") (str "/srv/data") (str "/var/routes.db")].
Proof. vm_compute. reflexivity. Qed.

(** A negative interval is accepted, and the collection loop panics after its first
    sweep. *)
Example negative_interval_panics :
  match ConfigRun.loadRun (ConfigRun.raw [ConfigRun.tenant "a"] (ConfigRun.gcOf "-5m" "")) with
  | Ok cfg => gcRun (GCEffective ConfigRun.parse (cf_GC cfg)) = GcPanics
  | Err _ => False
  end.
Proof. vm_compute. reflexivity. Qed.

(** A lease time of three centuries wraps to one in the past. *)
Example long_ttl_wraps : ls_ttl (LeaseEffective (mkLeaseConfig 10000000000000 0 0)) < 0.
Proof. vm_compute. reflexivity. Qed.

Lemma config_exact_witness :
  valid ConfigRun.parse ConfigRun.noenv (ConfigRun.raw [ConfigRun.tenant "a"] (ConfigRun.gcOf "" "2h")) /\
  exists cfg, ConfigRun.loadRun (ConfigRun.raw [ConfigRun.tenant "a"] (ConfigRun.gcOf "" "2h")) = Ok cfg /\
    gs_RetentionWindow (GCEffective ConfigRun.parse (cf_GC cfg)) = 2 * Hour /\
    accepted ConfigRun.parse (Some (str "/srv")) (ConfigRun.raw [ConfigRun.tenant "a"] (ConfigRun.gcOf "" "2h")) cfg.
Proof.
  destruct (config_exact ConfigRun.parse ConfigRun.noenv (Some (str "/srv")) (ConfigRun.raw [ConfigRun.tenant "a"] (ConfigRun.gcOf "" "2h")))
    as [[Hv _] Ha].
  split; [apply Hv; eexists; vm_compute; reflexivity |].
  eexists. split; [vm_compute; reflexivity |]. split; [vm_compute; reflexivity |]. apply Ha. vm_compute. reflexivity.
Defined.
