(* ===== verification/Http.v ===== *)
(** * Text on the way between control plane and server

    What the two programs use of the standard library to talk over HTTP: the values
    of encoding/json and how they fill the fields of a struct, the parts of a URL and
    the encoding of a query (net/url), strconv.ParseUint, and the line scanner of
    bufio.  The text of a JSON value is the class [JsonText].

    Numbers are integers or [JFloat]; a key of an object matches a field whatever its
    ASCII case. *)

From S2P Require Import Prelude GoPath Codec TenantDB Journal Enroll.

(** ** JSON *)

Inductive json :=
| JNull | JBool (b : bool) | JNum (n : Z) | JFloat (text : gostr) | JStr (s : gostr)
| JArr (l : list json) | JObj (fields : list (gostr * json)).

Definition is_ascii (c : ascii) : bool := byteval c <? 128.

(** Text that encoding/json gives back as it is. *)
Fixpoint plain (v : json) : bool :=
  match v with
  | JStr s | JFloat s => forallb is_ascii s
  | JArr l => forallb plain l
  | JObj o => forallb (fun kv => forallb is_ascii kv.1 && plain kv.2) o
  | _ => true
  end.

(** [jDecode] reads the first value of a stream, [jUnmarshal] a text that is one
    value. *)
Class JsonText := {
  jMarshal : json -> gostr;
  jDecode : gostr -> option json;
  jUnmarshal : gostr -> option json }.

(** A printed object has no control characters and is read back. *)
Class JsonTextLaws (J : JsonText) : Prop := {
  jDecode_Marshal : forall o rest, plain (JObj o) = true -> jDecode (jMarshal (JObj o) ++ rest) = Some (JObj o);
  jUnmarshal_Marshal : forall o, plain (JObj o) = true -> jUnmarshal (jMarshal (JObj o)) = Some (JObj o);
  jMarshal_printable : forall o, Forall (fun c => 32 <= byteval c) (jMarshal (JObj o)) }.

(** *** Filling a struct

    A decoder of a type turns the current value and a JSON value into the new value
    and whether the types agreed; on a mismatch the decoding goes on and the error is
    returned at its end. *)

Definition dec (A : Type) : Type := A -> json -> A * bool.

Definition decStr : dec gostr := fun cur v =>
  match v with JStr s => (s, true) | JNull => (cur, true) | _ => (cur, false) end.

Definition decBool : dec bool := fun cur v =>
  match v with JBool b => (b, true) | JNull => (cur, true) | _ => (cur, false) end.

Definition decInt (lo hi : Z) : dec Z := fun cur v =>
  match v with
  | JNum n => if (lo <=? n) && (n <=? hi) then (n, true) else (cur, false)
  | JNull => (cur, true)
  | _ => (cur, false)
  end.

Definition decInt64 : dec Z := decInt (- 2 ^ 63) (2 ^ 63 - 1).
Definition decUint64 : dec Z := decInt 0 (2 ^ 64 - 1).
Definition decUint32 : dec Z := decInt 0 (2 ^ 32 - 1).

(** A pointer field. *)
Definition decPtr {A} (zero : A) (d : dec A) : dec (option A) := fun cur v =>
  match v with
  | JNull => (None, true)
  | _ => let '(a, ok) := d (default zero cur) v in (Some a, ok)
  end.

(** A slice field. *)
Definition decList {A} (zero : A) (d : dec A) : dec (list A) := fun cur v =>
  match v with
  | JNull => ([], true)
  | JArr l => ((fun x => (d zero x).1) <$> l, forallb (fun x => (d zero x).2) l)
  | _ => (cur, false)
  end.

(** The value of the field [name] after the entries of an object. *)
Fixpoint fill {A} (d : dec A) (name : gostr) (cur : A) (o : list (gostr * json)) : A * bool :=
  match o with
  | [] => (cur, true)
  | (k, v) :: o' =>
      if decide (lower <$> k = lower <$> name)
      then let '(a, ok) := d cur v in let '(a', ok') := fill d name a o' in (a', ok && ok')
      else fill d name cur o'
  end.

(** A struct, given how its fields are filled from the entries of an object. *)
Definition decStruct {A} (fields : A -> list (gostr * json) -> A * bool) : dec A := fun cur v =>
  match v with
  | JObj o => fields cur o
  | JNull => (cur, true)
  | _ => (cur, false)
  end.

(** [omitempty]. *)
Definition omit_nil (name : gostr) (p : option Z) : list (gostr * json) :=
  match p with Some n => [(name, JNum n)] | None => [] end.
Definition omit_empty (name s : gostr) : list (gostr * json) :=
  if decide (s = []) then [] else [(name, JStr s)].

(** ** Numbers *)

(** The value of [strconv.ParseUint(s, 10, bits)], whatever its error. *)
Fixpoint uint_loop (max n : Z) (s : gostr) : Z :=
  match s with
  | [] => n
  | c :: s' =>
      match digit_val c with
      | None => 0
      | Some d => if max <? n * 10 + d then max else uint_loop max (n * 10 + d) s'
      end
  end.

Definition ParseUint (bits : Z) (s : gostr) : Z := uint_loop (2 ^ bits - 1) 0 s.

(** ** URLs *)

(** The text up to the first [c], and what follows it. *)
Fixpoint cut (c : ascii) (s : gostr) : gostr * option gostr :=
  match s with
  | [] => ([], None)
  | x :: s' => if decide (x = c) then ([], Some s') else let '(a, b) := cut c s' in (x :: a, b)
  end.

Definition percent : ascii := "%"%char.

(** [unescape]; [plus]: whether a plus sign stands for a space. *)
Fixpoint unescape (plus : bool) (s : gostr) : option gostr :=
  match s with
  | [] => Some []
  | c :: s' =>
      if decide (c = percent) then
        match s' with
        | a :: b :: s'' =>
            x ← hex_val a; y ← hex_val b; r ← unescape plus s'';
            Some (ascii_of_N (Z.to_N (16 * x + y)) :: r)
        | _ => None
        end
      else r ← unescape plus s'; Some ((if plus && bool_decide (c = "+"%char) then " "%char else c) :: r)
  end.

Definition unreserved (c : ascii) : bool :=
  let n := byteval c in
  (48 <=? n) && (n <=? 57) || (65 <=? n) && (n <=? 90) || (97 <=? n) && (n <=? 122)
  || bool_decide (c ∈ ["-"; "_"; "."; "~"]%char).

Definition upper_hex (v : Z) : ascii := ascii_of_N (Z.to_N (if v <? 10 then 48 + v else 55 + v)).

Definition escape_char (c : ascii) : gostr :=
  if unreserved c then [c]
  else if decide (c = " "%char) then ["+"%char]
  else [percent; upper_hex (byteval c / 16); upper_hex (byteval c mod 16)].

Definition QueryEscape (s : gostr) : gostr := s ≫= escape_char.

(** [url.Values] with one value per key, in the order of [Encode]. *)
Abbreviation values := (list (gostr * gostr)).

Fixpoint vSet (k v : gostr) (q : values) : values :=
  match q with
  | [] => [(k, v)]
  | kv :: q' =>
      if decide (kv.1 = k) then (k, v) :: q'
      else if str_ltb k kv.1 then (k, v) :: kv :: q' else kv :: vSet k v q'
  end.

Definition encode_pair (kv : gostr * gostr) : gostr := QueryEscape kv.1 ++ "="%char :: QueryEscape kv.2.

Fixpoint Encode (q : values) : gostr :=
  match q with
  | [] => []
  | [kv] => encode_pair kv
  | kv :: q' => encode_pair kv ++ "&"%char :: Encode q'
  end.

(** [strings.Split(s, sep)] for one character. *)
Fixpoint fields_at (c : ascii) (s : gostr) : list gostr :=
  match s with
  | [] => [[]]
  | x :: s' =>
      if decide (x = c) then [] :: fields_at c s'
      else match fields_at c s' with
           | [] => [[x]]
           | f :: fs => (x :: f) :: fs
           end
  end.

(** One field of a query; a malformed one is left out. *)
Definition parse_pair (f : gostr) : option (gostr * gostr) :=
  if decide (f = []) then None
  else if bool_decide (";"%char ∈ f) then None
  else
    let '(k, v) := cut "="%char f in
    k' ← unescape true k; v' ← unescape true (default [] v); Some (k', v').

Definition ParseQuery (s : gostr) : list (gostr * gostr) := omap parse_pair (fields_at "&"%char s).

Definition vGet (k : gostr) (q : list (gostr * gostr)) : gostr :=
  default [] (snd <$> head (filter (fun kv => kv.1 = k) q)).

Record urlParts := mkUrl { up_Host : gostr; up_Path : gostr; up_RawQuery : gostr }.

(** [url.Parse] on the form the client builds, https:// and an authority.
    [validHost] is the check of the authority. *)
Definition parseURL (validHost : gostr -> bool) (s : gostr) : option urlParts :=
  if existsb (fun c => (byteval c <? 32) || (byteval c =? 127)) s then None
  else
    let '(u, _) := cut "#"%char s in
    if HasPrefix u (str "https://") then
      let '(r, q) := cut "?"%char (drop 8 u) in
      let '(host, p) := cut slash r in
      if validHost host
      then path ← unescape false (match p with Some p => slash :: p | None => [] end);
           Some (mkUrl host path (default [] q))
      else None
    else None.

(** ** Lines *)

Definition newline : ascii := ascii_of_N 10.
Definition carriage : ascii := ascii_of_N 13.

(** [dropCR]. *)
Definition dropCR (l : gostr) : gostr :=
  match last l with
  | Some c => if decide (c = carriage) then removelast l else l
  | None => l
  end.

(** The tokens of a [bufio.Scanner] with a buffer of at most [max] bytes over the
    bytes up to the end of the stream; the scan ends at a line that does not fit into
    the buffer with its newline.  [acc] is the line so far. *)
Fixpoint scan_lines (max : nat) (acc s : gostr) : list gostr :=
  match s with
  | [] => if (max <=? length acc)%nat then [] else if decide (acc = []) then [] else [dropCR acc]
  | c :: s' =>
      if (max <=? length acc)%nat then []
      else if decide (c = newline) then dropCR acc :: scan_lines max [] s'
      else scan_lines max (acc ++ [c]) s'
  end.
