(* ===== verification/AdminApi.v ===== *)
(** * The admin API of the server

    orlop-control/internal/serverapi/client.go: the control plane's client, one
    function per call.  On the other side orlop-server/server.go: the routes and the
    shape of answers; control_usage.go, control_mount_lease.go: the handlers that are
    not in Tenants.v, PubSub.v, Revert.v, Gc.v or Enroll.v, and the decoding around
    those that are.

    [Do] of the HTTP client is an argument that carries the state of the other side;
    [None] is a failure of the transport.  chi is the class [Mux].  The texts of error
    messages that the handlers take from the system are arguments; log lines and
    metrics are left out. *)

From S2P Require Import Prelude GoPath Codec TenantDB Journal Manifests Lease Revert ChunkStore Gc PubSub Enroll Quota Tenants Certs Http.

(** ** Shapes *)

Record httpRequest := mkHttp { hq_Method : gostr; hq_URL : gostr; hq_Body : option gostr }.
Record httpResponse := mkAnswer { hr_Status : Z; hr_Body : gostr }.

Definition codeSizeMismatch : gostr := str "size_mismatch".
Definition codeDiskQuotaExceeded : gostr := str "disk_quota_exceeded".
Definition codeFSQuotaUnavailable : gostr := str "fs_quota_unavailable".

Record adminErrorBody := mkErrBody {
  eb_Code : gostr; eb_Message : gostr; eb_Detail : gostr; eb_ExistingSizeBytes : Z }.

Definition noErrBody : adminErrorBody := mkErrBody [] [] [] 0.

Inductive apiErr :=
| ApiSizeMismatch (existing : Z)
| ApiQuotaUnavailable (detail : gostr)
| ApiDiskQuotaExceeded (detail : gostr)
| ApiAdmin (status : Z) (code message : gostr)
| ApiBuild | ApiTransport | ApiDecode (status : Z).

Definition decErrBody : dec adminErrorBody := decStruct (fun cur o =>
  let '(c, b1) := fill decStr (str "code") (eb_Code cur) o in
  let '(m, b2) := fill decStr (str "message") (eb_Message cur) o in
  let '(d, b3) := fill decStr (str "detail") (eb_Detail cur) o in
  let '(x, b4) := fill decInt64 (str "existing_size_bytes") (eb_ExistingSizeBytes cur) o in
  (mkErrBody c m d x, b1 && b2 && b3 && b4)).

Definition decEnvelope : dec adminErrorBody := decStruct (fun cur o => fill decErrBody (str "error") cur o).

Record tenantAnswer := mkTenantAnswer { ta_TenantID : gostr; ta_ProjectID : Z; ta_SizeBytes : Z }.

Definition decTenantAnswer : dec tenantAnswer := decStruct (fun cur o =>
  let '(t, b1) := fill decStr (str "tenant_id") (ta_TenantID cur) o in
  let '(p, b2) := fill decUint32 (str "project_id") (ta_ProjectID cur) o in
  let '(n, b3) := fill decInt64 (str "size_bytes") (ta_SizeBytes cur) o in
  (mkTenantAnswer t p n, b1 && b2 && b3)).

Record TenantUsage := mkUsageAnswer { us_Tenant : gostr; us_UsedBytes : Z; us_SizeBytes : Z }.

Definition decUsage : dec TenantUsage := decStruct (fun cur o =>
  let '(t, b1) := fill decStr (str "tenant_id") (us_Tenant cur) o in
  let '(u, b2) := fill decInt64 (str "used_bytes") (us_UsedBytes cur) o in
  let '(n, b3) := fill decInt64 (str "size_bytes") (us_SizeBytes cur) o in
  (mkUsageAnswer t u n, b1 && b2 && b3)).

Record JournalEntry := mkWireEntry {
  we_SessionID : gostr; we_AllocationID : gostr; we_Seq : Z; we_TsUnixMs : Z; we_Path : gostr; we_Op : gostr;
  we_AgentID : gostr; we_BeforeVersion : option Z; we_AfterVersion : option Z; we_RenameFrom : gostr;
  we_SizeBefore : option Z; we_SizeAfter : option Z }.

Definition noEntry : JournalEntry := mkWireEntry [] [] 0 0 [] [] [] None None [] None None.

Definition decEntry : dec JournalEntry := decStruct (fun cur o =>
  let ptr := decPtr 0 decUint64 in
  let '(a, b1) := fill decStr (str "session_id") (we_SessionID cur) o in
  let '(b, b2) := fill decStr (str "allocation_id") (we_AllocationID cur) o in
  let '(c, b3) := fill decUint64 (str "seq") (we_Seq cur) o in
  let '(d, b4) := fill decInt64 (str "ts_unix_ms") (we_TsUnixMs cur) o in
  let '(e, b5) := fill decStr (str "path") (we_Path cur) o in
  let '(f, b6) := fill decStr (str "op") (we_Op cur) o in
  let '(g, b7) := fill decStr (str "agent_id") (we_AgentID cur) o in
  let '(h, b8) := fill ptr (str "before_version") (we_BeforeVersion cur) o in
  let '(i, b9) := fill ptr (str "after_version") (we_AfterVersion cur) o in
  let '(j, b10) := fill decStr (str "rename_from") (we_RenameFrom cur) o in
  let '(k, b11) := fill ptr (str "size_before") (we_SizeBefore cur) o in
  let '(l, b12) := fill ptr (str "size_after") (we_SizeAfter cur) o in
  (mkWireEntry a b c d e f g h i j k l,
   b1 && b2 && b3 && b4 && b5 && b6 && b7 && b8 && b9 && b10 && b11 && b12)).

Record JournalQueryResult := mkJournalPage { jp_Entries : list JournalEntry; jp_NextCursor : gostr }.

Definition decPage : dec JournalQueryResult := decStruct (fun cur o =>
  let '(e, b1) := fill (decList noEntry decEntry) (str "entries") (jp_Entries cur) o in
  let '(c, b2) := fill decStr (str "next_cursor") (jp_NextCursor cur) o in
  (mkJournalPage e c, b1 && b2)).

(** [Conflict] is the reason. *)
Record JournalRevertResult := mkRevertResult { rv_Ok : bool; rv_Conflict : option gostr }.

Definition decRevert : dec JournalRevertResult := decStruct (fun cur o =>
  let '(b, b1) := fill decBool (str "ok") (rv_Ok cur) o in
  let '(c, b2) := fill (decPtr [] (decStruct (fun r o => fill decStr (str "reason") r o)))
                    (str "conflict") (rv_Conflict cur) o in
  (mkRevertResult b c, b1 && b2)).

Definition decLive : dec bool := decStruct (fun cur o => fill decBool (str "session_live") cur o).

Record AgentPurgeResult := mkAgentPurge { ap_ManifestsDeleted : Z; ap_ChunkRowsDeleted : Z; ap_BytesFreed : Z }.

Definition decPurge : dec AgentPurgeResult := decStruct (fun cur o =>
  let '(m, b1) := fill decInt64 (str "manifests_deleted") (ap_ManifestsDeleted cur) o in
  let '(c, b2) := fill decInt64 (str "chunk_rows_deleted") (ap_ChunkRowsDeleted cur) o in
  let '(n, b3) := fill decUint64 (str "bytes_freed") (ap_BytesFreed cur) o in
  (mkAgentPurge m c n, b1 && b2 && b3)).

Definition registerBody (r : registerTenantRequest) : json :=
  JObj [(str "tenant_id", JStr (rq_TenantID r)); (str "owner_tenant_id", JStr (rq_OwnerTenantID r));
        (str "name", JStr (rq_Name r)); (str "size_bytes", JNum (rq_SizeBytes r))].
Definition resizeBody (n : Z) : json := JObj [(str "size_bytes", JNum n)].

(** ** The client *)

Section client.
Context {J : JsonText} (validHost : gostr -> bool).
Context {W : Type} (Do : httpRequest -> W -> option httpResponse * W).

(** What a request came to: an error, or the status with the error body and the
    decoded answer. *)
Inductive outcome (A : Type) := Broken (e : apiErr) | Answered (status : Z) (e : adminErrorBody) (ok : A).
Arguments Broken {A} e.
Arguments Answered {A} status e ok.

Definition success (status : Z) : bool := (200 <=? status) && (status <? 300).

(** What is made of an answer.  [okOut] is the decoder of an answer that is looked at,
    [zero] its zero value. *)
Definition readAnswer {A} (okOut : option (dec A)) (zero : A) (resp : httpResponse) : outcome A :=
  if success (hr_Status resp) then
    match okOut with
    | None => Answered (hr_Status resp) noErrBody zero
    | Some d =>
        match jDecode (hr_Body resp) with
        | None => Broken (ApiDecode (hr_Status resp))
        | Some v =>
            let '(a, ok) := d zero v in
            if ok then Answered (hr_Status resp) noErrBody a else Broken (ApiDecode (hr_Status resp))
        end
    end
  else Answered (hr_Status resp)
         (match jDecode (hr_Body resp) with Some v => (decEnvelope noErrBody v).1 | None => noErrBody end) zero.

Definition doJSON {A} (method reqURL : gostr) (reqBody : option json) (okOut : option (dec A)) (zero : A) (w : W)
    : outcome A * W :=
  match parseURL validHost reqURL with
  | None => (Broken ApiBuild, w)
  | Some _ =>
      match Do (mkHttp method reqURL (jMarshal <$> reqBody)) w with
      | (None, w') => (Broken ApiTransport, w')
      | (Some resp, w') => (readAnswer okOut zero resp, w')
      end
  end.

Definition otherError (status : Z) (e : adminErrorBody) : apiErr := ApiAdmin status (eb_Code e) (eb_Message e).

Definition tenantsURL (opsAddr : gostr) : gostr := str "https://" ++ opsAddr ++ str "/control/tenants".
Definition tenantURL (opsAddr tenantID : gostr) : gostr := tenantsURL opsAddr ++ slash :: tenantID.

Definition RegisterTenant (opsAddr : gostr) (req : registerTenantRequest) (w : W) : result apiErr Z * W :=
  let '(r, w') := doJSON (str "POST") (tenantsURL opsAddr) (Some (registerBody req)) (Some decTenantAnswer)
                    (mkTenantAnswer [] 0 0) w in
  (match r with
   | Broken e => Err e
   | Answered status e ok =>
       if status =? 200 then Ok (ta_ProjectID ok)
       else if (status =? 409) && bool_decide (eb_Code e = codeSizeMismatch)
       then Err (ApiSizeMismatch (eb_ExistingSizeBytes e))
       else if (status =? 500) && bool_decide (eb_Code e = codeFSQuotaUnavailable)
       then Err (ApiQuotaUnavailable (eb_Detail e))
       else if (status =? 507) && bool_decide (eb_Code e = codeDiskQuotaExceeded)
       then Err (ApiDiskQuotaExceeded (eb_Message e))
       else Err (otherError status e)
   end, w').

(** The answer to a change of a size. *)
Definition sizeAnswer (r : outcome tenantAnswer) : result apiErr Z :=
  match r with
  | Broken e => Err e
  | Answered status e ok =>
      if status =? 200 then Ok (ta_ProjectID ok)
      else if (status =? 500) && bool_decide (eb_Code e = codeFSQuotaUnavailable)
      then Err (ApiQuotaUnavailable (eb_Detail e))
      else Err (otherError status e)
  end.

Definition ResizeTenant (opsAddr tenantID : gostr) (sizeBytes : Z) (w : W) : result apiErr Z * W :=
  let '(r, w') := doJSON (str "PATCH") (tenantURL opsAddr tenantID) (Some (resizeBody sizeBytes))
                    (Some decTenantAnswer) (mkTenantAnswer [] 0 0) w in
  (sizeAnswer r, w').

Definition SetAccountQuota (opsAddr ownerTenantID : gostr) (sizeBytes : Z) (w : W) : result apiErr Z * W :=
  let '(r, w') := doJSON (str "PATCH")
                    (str "https://" ++ opsAddr ++ str "/control/accounts/" ++ ownerTenantID ++ str "/quota")
                    (Some (resizeBody sizeBytes)) (Some decTenantAnswer) (mkTenantAnswer [] 0 0) w in
  (sizeAnswer r, w').

Definition alreadyGone (status : Z) (e : adminErrorBody) : bool :=
  (status =? 404) && bool_decide (eb_Code e = str "not_found").

Definition UnregisterTenant (opsAddr tenantID : gostr) (w : W) : result apiErr unit * W :=
  let '(r, w') := doJSON (str "DELETE") (tenantURL opsAddr tenantID) None None tt w in
  (match r with
   | Broken e => Err e
   | Answered status e _ => if (status =? 204) || alreadyGone status e then Ok tt else Err (otherError status e)
   end, w').

(** An answer that is good with one status only. *)
Definition exactly {A} (good : Z) (r : outcome A) : result apiErr A :=
  match r with
  | Broken e => Err e
  | Answered status e ok => if status =? good then Ok ok else Err (otherError status e)
  end.

Definition GetTenantUsage (opsAddr tenantID : gostr) (w : W) : result apiErr TenantUsage * W :=
  let '(r, w') := doJSON (str "GET") (tenantURL opsAddr tenantID ++ str "/usage") None (Some decUsage)
                    (mkUsageAnswer [] 0 0) w in
  (exactly 200 r, w').

Definition setNonEmpty (k v : gostr) (q : values) : values := if decide (v = []) then q else vSet k v q.
Definition setLimit (limit : Z) (q : values) : values := if 0 <? limit then vSet (str "limit") (FormatInt limit) q else q.

Definition journalURL (opsAddr tenantID : gostr) (q : values) : gostr :=
  tenantURL opsAddr tenantID ++ str "/journal?" ++ Encode q.

Definition QueryJournal (opsAddr tenantID allocationID : gostr) (limit : Z) (cursor : gostr) (w : W)
    : result apiErr JournalQueryResult * W :=
  let q := setNonEmpty (str "cursor") cursor (setLimit limit (setNonEmpty (str "allocation_id") allocationID [])) in
  let '(r, w') := doJSON (str "GET") (journalURL opsAddr tenantID q) None (Some decPage) (mkJournalPage [] []) w in
  (exactly 200 r, w').

Definition QueryJournalAfterSeq (opsAddr tenantID allocationID : gostr) (limit afterSeq : Z) (w : W)
    : result apiErr JournalQueryResult * W :=
  let q := vSet (str "after_seq") (FormatInt afterSeq)
             (setLimit limit (setNonEmpty (str "allocation_id") allocationID [])) in
  let '(r, w') := doJSON (str "GET") (journalURL opsAddr tenantID q) None (Some decPage) (mkJournalPage [] []) w in
  (exactly 200 r, w').

Definition revertBody (allocationID sessionID path : gostr) (seq : Z) (force : bool) (agentID : gostr) : json :=
  JObj [(str "agent_id", JStr agentID); (str "allocation_id", JStr allocationID); (str "force", JBool force);
        (str "path", JStr path); (str "seq", JNum seq); (str "session_id", JStr sessionID)].

Definition RevertJournalPath (opsAddr tenantID allocationID sessionID path : gostr) (seq : Z) (force : bool)
    (agentID : gostr) (w : W) : result apiErr JournalRevertResult * W :=
  let '(r, w') := doJSON (str "POST") (tenantURL opsAddr tenantID ++ str "/journal/revert")
                    (Some (revertBody allocationID sessionID path seq force agentID)) (Some decRevert)
                    (mkRevertResult false None) w in
  (exactly 200 r, w').

Definition mountLeaseURL (opsAddr tenantID allocationID : gostr) : gostr :=
  tenantURL opsAddr tenantID ++ str "/allocations/" ++ allocationID ++ str "/mount-lease".

Definition ClearActiveMountLease (opsAddr tenantID allocationID : gostr) (w : W) : result apiErr unit * W :=
  let '(r, w') := doJSON (str "DELETE") (mountLeaseURL opsAddr tenantID allocationID) None None tt w in
  (exactly 204 r, w').

Definition ProbeMountSession (opsAddr tenantID allocationID : gostr) (w : W) : result apiErr bool * W :=
  let '(r, w') := doJSON (str "GET") (mountLeaseURL opsAddr tenantID allocationID) None (Some decLive) false w in
  (exactly 200 r, w').

(** [timeText]: the RFC 3339 form of a time. *)
Definition PushCertRevocations (timeText : Z -> gostr) (opsAddr : gostr) (revs : list (gostr * Z)) (w : W)
    : result apiErr unit * W :=
  if decide (revs = []) then (Ok tt, w)
  else
    let item := fun kv : gostr * Z => JObj [(str "serial", JStr kv.1); (str "expires_at", JStr (timeText kv.2))] in
    let '(r, w') := doJSON (str "PUT") (str "https://" ++ opsAddr ++ str "/control/cert-revocations")
                      (Some (JObj [(str "revocations", JArr (item <$> revs))])) None tt w in
    (exactly 200 r, w').

Definition PurgeAgentData (opsAddr tenantID agentID : gostr) (w : W) : result apiErr AgentPurgeResult * W :=
  let nothing := mkAgentPurge 0 0 0 in
  let '(r, w') := doJSON (str "DELETE") (tenantURL opsAddr tenantID ++ str "/agents/" ++ agentID) None
                    (Some decPurge) nothing w in
  (match r with
   | Broken e => Err e
   | Answered status e ok =>
       if status =? 200 then Ok ok else if alreadyGone status e then Ok nothing else Err (otherError status e)
   end, w').

(** *** The stream *)

Definition scanBuffer : nat := Z.to_nat (2 ^ 20).

(** One line of the stream. *)
Definition stream_line (line : gostr) : option JournalEntry :=
  match line with
  | [] => None
  | c :: _ =>
      if decide (c = ":"%char) then None
      else if negb (HasPrefix line (str "data: ")) then None
      else match jUnmarshal (drop 6 line) with
           | None => None
           | Some v => let '(e, ok) := decEntry noEntry v in if ok then Some e else None
           end
  end.

(** What the goroutine sends before the context is done, from the bytes of the body. *)
Definition stream_entries (max : nat) (body : gostr) : list JournalEntry := omap stream_line (scan_lines max [] body).

(** [StreamJournal]: [RoundTrip] of the transport gives the status and the body up to
    where the connection ends. *)
Definition StreamJournal (opsAddr tenantID allocationID : gostr) (afterSeq : Z) (w : W)
    : option (list JournalEntry) * W :=
  let base := tenantURL opsAddr tenantID ++ str "/journal/stream" in
  match parseURL validHost base with
  | None => (None, w)
  | Some _ =>
      let q := vSet (str "allocation_id") allocationID [] in
      let q := if 0 <? afterSeq then vSet (str "after_seq") (FormatInt afterSeq) q else q in
      match Do (mkHttp (str "GET") (base ++ str "?" ++ Encode q) None) w with
      | (None, w') => (None, w')
      | (Some resp, w') => (if hr_Status resp =? 200 then Some (stream_entries scanBuffer (hr_Body resp)) else None, w')
      end
  end.
End client.
Arguments Broken {A} e.
Arguments Answered {A} status e ok.

(** ** The server *)

Inductive segment := Lit (s : gostr) | Param.

Inductive route :=
| RHealthz | RMetrics | RAudit | RRevocations | RRegister | RResize | RAccountQuota | RUnregister | RPurgeAgent
| RUsage | RJournal | RStream | RRevert | RClearLease | RMountStatus.

#[export] Instance route_eq_dec : EqDecision route.
Proof. solve_decision. Defined.

(** The table of [newRouter] with metrics. *)
Definition newRouter : list (gostr * list segment * route) :=
  let tenant := [Lit (str "control"); Lit (str "tenants"); Param] in
  let lease := tenant ++ [Lit (str "allocations"); Param; Lit (str "mount-lease")] in
  [(str "GET", [Lit (str "healthz")], RHealthz);
   (str "GET", [Lit (str "metrics")], RMetrics);
   (str "GET", [Lit (str "audit")], RAudit);
   (str "PUT", [Lit (str "control"); Lit (str "cert-revocations")], RRevocations);
   (str "POST", [Lit (str "control"); Lit (str "tenants")], RRegister);
   (str "PATCH", tenant, RResize);
   (str "PATCH", [Lit (str "control"); Lit (str "accounts"); Param; Lit (str "quota")], RAccountQuota);
   (str "DELETE", tenant, RUnregister);
   (str "DELETE", tenant ++ [Lit (str "agents"); Param], RPurgeAgent);
   (str "GET", tenant ++ [Lit (str "usage")], RUsage);
   (str "GET", tenant ++ [Lit (str "journal")], RJournal);
   (str "GET", tenant ++ [Lit (str "journal"); Lit (str "stream")], RStream);
   (str "POST", tenant ++ [Lit (str "journal"); Lit (str "revert")], RRevert);
   (str "DELETE", lease, RClearLease);
   (str "GET", lease, RMountStatus)].

(** The parameters of a pattern in the segments of a path: a parameter takes one
    segment that is not empty. *)
Fixpoint match_pattern (pat : list segment) (segs : list gostr) : option (list gostr) :=
  match pat, segs with
  | [], [] => Some []
  | Lit s :: pat', x :: segs' => if decide (x = s) then match_pattern pat' segs' else None
  | Param :: pat', x :: segs' => if decide (x = []) then None else cons x <$> match_pattern pat' segs'
  | _, _ => None
  end.

(** chi: the route of a method and a path with its parameters, and the answer when
    there is none. *)
Class Mux := {
  Find : list (gostr * list segment * route) -> gostr -> gostr -> option (route * list gostr);
  NotFound : gostr -> gostr -> httpResponse }.

(** A path that fits one pattern of its method only goes to that pattern's handler. *)
Class MuxLaws (M : Mux) : Prop :=
  Find_unique : forall table m path r pat ps segs,
    path = mkpath segs -> Forall (fun s => s <> [] /\ slash ∉ s) segs ->
    (m, pat, r) ∈ table -> match_pattern pat segs = Some ps ->
    (forall pat' r', (m, pat', r') ∈ table -> is_Some (match_pattern pat' segs) -> (pat', r') = (pat, r)) ->
    Find table m path = Some (r, ps).

Section server.
Context {J : JsonText} {M : Mux}.

Definition answerJSON (status : Z) (body : json) : httpResponse := mkAnswer status (jMarshal body ++ [newline]).

Definition answerJSONError (status : Z) (code message : gostr) : httpResponse :=
  answerJSON status (JObj [(str "error", JObj [(str "code", JStr code); (str "message", JStr message)])]).

Definition noContent : httpResponse := mkAnswer 204 [].

(** What a handler sees of a request. *)
Record input := mkInput { i_params : list gostr; i_query : list (gostr * gostr); i_body : option json }.

(** The handlers behind the table over a state. *)
Definition handlers (S : Type) : Type := route -> input -> S -> httpResponse * S.

(** The gate is in front of every control endpoint. *)
Definition behindGate (r : route) : bool := negb (bool_decide (r = RHealthz \/ r = RMetrics \/ r = RAudit)).

Definition serveAdmin {S} (H : handlers S) (trustDomain : gostr) (cert : option Certificate) (validHost : gostr -> bool)
    (req : httpRequest) (s : S) : httpResponse * S :=
  match parseURL validHost (hq_URL req) with
  | None => (NotFound (hq_Method req) [], s)
  | Some u =>
      match Find newRouter (hq_Method req) (up_Path u) with
      | None => (NotFound (hq_Method req) (up_Path u), s)
      | Some (r, ps) =>
          let run := H r (mkInput ps (ParseQuery (up_RawQuery u)) (hq_Body req ≫= jDecode)) s in
          if behindGate r then
            match cert with
            | None => (answerJSONError 403 (str "forbidden") (str "mTLS client cert required"), s)
            | Some c =>
                match controlPlaneOnlyMiddleware trustDomain c with
                | None => (answerJSONError 403 (str "forbidden") (str "control plane cert required"), s)
                | Some _ => run
                end
            end
          else run
      end
  end.

(** *** Tenants *)

Definition decRegister : dec registerTenantRequest := decStruct (fun cur o =>
  let '(t, b1) := fill decStr (str "tenant_id") (rq_TenantID cur) o in
  let '(w, b2) := fill decStr (str "owner_tenant_id") (rq_OwnerTenantID cur) o in
  let '(n, b3) := fill decStr (str "name") (rq_Name cur) o in
  let '(z, b4) := fill decInt64 (str "size_bytes") (rq_SizeBytes cur) o in
  (mkRegister t w n z, b1 && b2 && b3 && b4)).

Definition decResize : dec Z := decStruct (fun cur o => fill decInt64 (str "size_bytes") cur o).

(** A body that is decoded without an error. *)
Definition bodyOf {A} (d : dec A) (zero : A) (i : input) : option A :=
  v ← i_body i; let '(a, ok) := d zero v in if (ok : bool) then Some a else None.

(** [msg]: the message of an error. *)
Definition tenantWire (msg : tresp -> gostr) (r : tresp) : httpResponse :=
  match r with
  | TOk id p n =>
      answerJSON 200 (JObj [(str "tenant_id", JStr id); (str "project_id", JNum p); (str "size_bytes", JNum n)])
  | TNoContent => noContent
  | TErr status code => answerJSONError status code (msg r)
  end.

(** The answers of the system to the handlers of Tenants.v. *)
Record adminEnv := mkAdminEnv {
  ae_reg : regEnv; ae_read : bool; ae_write : bool; ae_resize : qenv; ae_mkdir : mkdir_out; ae_quota : qenv;
  ae_quota' : qenv; ae_kept : gostr -> bool; ae_kept' : gostr -> bool }.

Definition tenantHandlers (ev : adminEnv) (msg : tresp -> gostr) (elsewhere : handlers serverState)
    : handlers serverState := fun r i s =>
  let wire := fun x : tresp * serverState => (tenantWire msg x.1, x.2) in
  match r, i_params i with
  | RRegister, _ =>
      wire (registerTenant (ae_reg ev) (ae_read ev) (ae_write ev) (bodyOf decRegister (mkRegister [] [] [] 0) i) s)
  | RResize, [id] => wire (resizeTenant (ae_resize ev) id (bodyOf decResize 0 i) s)
  | RAccountQuota, [owner] =>
      wire (setAccountQuota (ae_mkdir ev) (ae_quota ev) (ae_quota' ev) owner (bodyOf decResize 0 i) s)
  | RUnregister, [id] => wire (unregisterTenant (ae_kept ev) (ae_kept' ev) (ae_read ev) (ae_write ev) id s)
  | _, _ => elsewhere r i s
  end.

(** *** The data of tenants *)

Record tenantData := mkData { dt_store : mstore; dt_leases : option leaseManager; dt_chunks : chunkStore }.

Record dataServer := mkDataServer {
  ds_tenants : gmap gostr tenantData; ds_reg : mountLeaseRegistry; ds_quota : Manager; ds_deny : option denylist }.

Definition set_data (f : gmap gostr tenantData -> gmap gostr tenantData) (s : dataServer) : dataServer :=
  mkDataServer (f (ds_tenants s)) (ds_reg s) (ds_quota s) (ds_deny s).

Definition badTenant (message : gostr) : httpResponse := answerJSONError 400 (str "invalid_tenant_id") message.
Definition unknownTenant : httpResponse := answerJSONError 404 (str "tenant_not_found") [].

(** The tenant of a request. *)
Definition withTenant (id message : gostr) (k : tenantData -> dataServer -> httpResponse * dataServer) (s : dataServer)
    : httpResponse * dataServer :=
  if negb (tenantIDRe id) then (badTenant message, s)
  else match ds_tenants s !! id with
       | None => (unknownTenant, s)
       | Some t => k t s
       end.

Definition tenantUsage (message id : gostr) : dataServer -> httpResponse * dataServer :=
  withTenant id message (fun t s =>
    (answerJSON 200 (JObj [(str "tenant_id", JStr id); (str "used_bytes", JNum (UsedBytes (st_db (dt_store t))).1);
       (str "size_bytes", JNum (default 0 (snd <$> Lookup id (ds_quota s))))]), s)).

Definition clearActiveMountLease (id alloc : gostr) : dataServer -> httpResponse * dataServer :=
  withTenant id [] (fun t s =>
    if decide (alloc = []) then (answerJSONError 400 (str "invalid_allocation_id") [], s)
    else (noContent, mkDataServer (ds_tenants s) (Clear alloc (ds_reg s)) (ds_quota s) (ds_deny s))).

(** [mountSessionLive] with the lookup of the tenant. *)
Definition sessionLive (now : Z) (id alloc : gostr) (s : dataServer) : bool :=
  match ds_tenants s !! id ≫= dt_leases with
  | None => false
  | Some m => mountSessionLive now alloc m (ds_reg s)
  end.

Definition mountSessionStatus (now : Z) (id alloc : gostr) (s : dataServer) : httpResponse * dataServer :=
  if negb (tenantIDRe id) then (badTenant [], s)
  else if decide (alloc = []) then (answerJSONError 400 (str "invalid_allocation_id") [], s)
  else (answerJSON 200 (JObj [(str "session_live", JBool (sessionLive now id alloc s))]), s).

Definition opText (o : SessionOp) : gostr :=
  match o with
  | SessionOpCreate => str "create" | SessionOpUpdate => str "update"
  | SessionOpDelete => str "delete" | SessionOpRename => str "rename"
  end.

(** [controlJournalEntry]. *)
Definition entryJSON (r : JournalQueryRow) : json :=
  JObj ([(str "session_id", JStr (jq_SessionID r)); (str "allocation_id", JStr (jq_AllocationID r));
         (str "seq", JNum (jq_Seq r)); (str "ts_unix_ms", JNum (jq_TsUnixMs r)); (str "path", JStr (jq_Path r));
         (str "op", JStr (opText (jq_Op r))); (str "agent_id", JStr (jq_AgentID r))]
        ++ omit_nil (str "before_version") (jq_BeforeVersion r) ++ omit_nil (str "after_version") (jq_AfterVersion r)
        ++ omit_empty (str "rename_from") (jq_RenameFrom r) ++ omit_nil (str "size_before") (jq_SizeBefore r)
        ++ omit_nil (str "size_after") (jq_SizeAfter r)).

Section data.
Context {MP : MsgPack} (now : Z).
Context (order : list (gostr * list chunkBatchItem) -> list (gostr * list chunkBatchItem)).

(** The query of PubSub.v behind the decoding of its parameters. *)
Definition journalHandler (message : gostr) (id : gostr) (q : list (gostr * gostr))
    : dataServer -> httpResponse * dataServer :=
  withTenant id message (fun t s =>
    let afterSeqRaw := vGet (str "after_seq") q in
    let afterSeq := if decide (afterSeqRaw = []) then None else Some (ParseUint 64 afterSeqRaw) in
    (match tenantJournalQuery (vGet (str "allocation_id") q) (ParseUint 32 (vGet (str "limit") q))
             (vGet (str "cursor") q) afterSeq (st_db (dt_store t)) with
     | JErr status code => answerJSONError status code (if status =? 400 then message else [])
     | JPage rows next =>
         answerJSON 200 (JObj ((str "entries", JArr (entryJSON <$> rows)) :: omit_empty (str "next_cursor") next))
     end, s)).

Definition writeSSEEntry (r : JournalQueryRow) : gostr := str "data: " ++ jMarshal (entryJSON r) ++ [newline; newline].
Definition keepalive : gostr := str ": keepalive" ++ [newline; newline].

(** The live loop; [None] is a tick. *)
Fixpoint sse_loop (highestSentSeq : Z) (events : list (option SessionJournalEntry)) : gostr :=
  match events with
  | [] => []
  | None :: evs => keepalive ++ sse_loop highestSentSeq evs
  | Some e :: evs =>
      if je_Seq e <=? highestSentSeq then sse_loop highestSentSeq evs
      else writeSSEEntry (journalQueryRowFromEntry e) ++ sse_loop (je_Seq e) evs
  end.

(** [events]: what the loop receives until it ends. *)
Definition streamHandler (events : list (option SessionJournalEntry)) (message : gostr) (id : gostr) (q : list (gostr * gostr))
    : dataServer -> httpResponse * dataServer :=
  withTenant id message (fun t s =>
    let allocationID := vGet (str "allocation_id") q in
    let afterSeq := ParseUint 64 (vGet (str "after_seq") q) in
    if decide (allocationID = []) then (answerJSONError 400 (str "missing_allocation_id") message, s)
    else
      (mkAnswer 200
         match QueryAfterSeq allocationID afterSeq 50 (st_db (dt_store t)) with
         | Err _ => []
         | Ok catchUp =>
             let highest := foldl (fun h row => if h <? jq_Seq row then jq_Seq row else h) afterSeq catchUp in
             (catchUp ≫= writeSSEEntry) ++ sse_loop highest events
         end, s)).

Definition decRevertRequest : dec controlJournalRevertRequest := decStruct (fun cur o =>
  let '(a, b1) := fill decStr (str "allocation_id") (cr_AllocationID cur) o in
  let '(b, b2) := fill decStr (str "session_id") (cr_SessionID cur) o in
  let '(c, b3) := fill decStr (str "path") (cr_Path cur) o in
  let '(d, b4) := fill decUint64 (str "seq") (cr_Seq cur) o in
  let '(e, b5) := fill decBool (str "force") (cr_Force cur) o in
  let '(f, b6) := fill decStr (str "agent_id") (cr_AgentID cur) o in
  (mkRevertReq a b c d e f, b1 && b2 && b3 && b4 && b5 && b6)).

(** The call of Revert.v behind the decoding of its body. *)
Definition revertHandler (message : gostr) (id : gostr) (i : input) : dataServer -> httpResponse * dataServer :=
  withTenant id message (fun t s =>
    match bodyOf decRevertRequest (mkRevertReq [] [] [] 0 false []) i with
    | None => (answerJSONError 400 (str "invalid_json") message, s)
    | Some req =>
        let '(r, st) := tenantJournalRevert now req (ds_reg s) (dt_store t) in
        (match r with
         | RevertBadRequest code => answerJSONError 400 (str code) message
         | RevertServerError => answerJSONError 500 (str "revert_failed") []
         | RevertOk => answerJSON 200 (JObj [(str "ok", JBool true)])
         | RevertNotOk reason =>
             answerJSON 200 (JObj [(str "ok", JBool false); (str "conflict", JObj [(str "reason", JStr (str reason))])])
         end, set_data <[id := mkData st (dt_leases t) (dt_chunks t)]> s)
    end).

(** The purge of Gc.v behind its checks. *)
Definition purgeHandler (message id agentID : gostr) (s : dataServer) : httpResponse * dataServer :=
  if negb (tenantIDRe id) then (badTenant message, s)
  else if negb (agentIDRe agentID) then (answerJSONError 400 (str "invalid_agent_id") message, s)
  else
    match ds_tenants s !! id with
    | None => (answerJSONError 404 (str "not_found") message, s)
    | Some t =>
        let st := dt_store t in
        let '(r, d, cs) := purgeAgentSubtree order now agentID (st_db st) (dt_chunks t) in
        let t' := mkData (mkStore d (st_chunks st) (st_broadcast st) (st_notified st)) (dt_leases t) cs in
        (match r with
         | Err _ => answerJSONError 500 (str "purge_failed") message
         | Ok p =>
             answerJSON 200 (JObj [(str "tenant_id", JStr id); (str "agent_id", JStr agentID);
               (str "manifests_deleted", JNum (pr_ManifestsDeleted p)); (str "journal_rows_deleted", JNum (pr_JournalRowsDeleted p));
               (str "chunk_rows_deleted", JNum (pr_ChunkRowsDeleted p)); (str "bytes_freed", JNum (pr_BytesFreed p))])
         end, set_data <[id := t']> s)
    end.

(** [parseTime]: a time of the body, [None] when it does not parse; the zero time
    never expires. *)
Definition decRevocation (parseTime : gostr -> option (option Z)) : dec (gostr * option Z) := decStruct (fun cur o =>
  let '(a, b1) := fill decStr (str "serial") cur.1 o in
  let '(e, b2) := fill (fun c v => match v with
                    | JStr t => match parseTime t with Some x => (x, true) | None => (c, false) end
                    | JNull => (c, true) | _ => (c, false) end) (str "expires_at") cur.2 o in
  ((a, e), b1 && b2)).

Definition revocationsHandler (parseTime : gostr -> option (option Z)) (message : gostr) (i : input) (s : dataServer)
    : httpResponse * dataServer :=
  match ds_deny s with
  | None => (answerJSONError 501 (str "revocation_disabled") message, s)
  | Some deny =>
      match bodyOf (decStruct (fun cur o => fill (decList ([], None) (decRevocation parseTime)) (str "revocations") cur o)) [] i with
      | None => (answerJSONError 400 (str "invalid_request") message, s)
      | Some revs =>
          let deny' := pushCertRevocations now revs deny in
          (answerJSON 200 (JObj [(str "count", JNum (Z.of_nat (size deny')))]),
           mkDataServer (ds_tenants s) (ds_reg s) (ds_quota s) (Some deny'))
      end
  end.

Definition dataHandlers (events : list (option SessionJournalEntry)) (parseTime : gostr -> option (option Z))
    (message : gostr) (elsewhere : handlers dataServer) : handlers dataServer := fun r i =>
  match r, i_params i with
  | RUsage, [id] => tenantUsage message id
  | RJournal, [id] => journalHandler message id (i_query i)
  | RStream, [id] => streamHandler events message id (i_query i)
  | RRevert, [id] => revertHandler message id i
  | RClearLease, [id; alloc] => clearActiveMountLease id alloc
  | RMountStatus, [id; alloc] => mountSessionStatus now id alloc
  | RPurgeAgent, [id; agent] => purgeHandler message id agent
  | RRevocations, _ => revocationsHandler parseTime message i
  | _, _ => elsewhere r i
  end.
End data.
End server.
