(* ===== verification/AdminProps.v ===== *)
(** * Properties of the admin API

    The calls of the client against the handlers of the server, through URL, router,
    gate, JSON and back: what a call returns is what the handler answered, and the
    server has done it. *)

From S2P Require Import Prelude GoPath Codec TenantDB Journal Manifests Lease Revert ChunkStore Gc PubSub Enroll Quota QuotaProps Tenants TenantsProps Certs Http AdminApi.

(** ** Queries *)

Lemma unescape_char c t : unescape true (escape_char c ++ t) = cons c <$> unescape true t.
Proof.
  destruct c as [[] [] [] [] [] [] [] []];
    match goal with |- context [escape_char ?c] => let e := eval vm_compute in (escape_char c) in change (escape_char c) with e end;
    simpl; by destruct (unescape true t).
Qed.

Lemma unescape_QueryEscape s : unescape true (QueryEscape s) = Some s.
Proof.
  induction s as [|c s IH]; [done |]. unfold QueryEscape. rewrite bind_cons, unescape_char.
  unfold QueryEscape in IH. by rewrite IH.
Qed.

(** The characters of an escaped text. *)
Definition query_char (c : ascii) : bool := unreserved c || bool_decide (c = "+"%char) || bool_decide (c = percent).

Lemma QueryEscape_chars s : Forall (fun c => query_char c = true) (QueryEscape s).
Proof.
  induction s as [|c s IH]; [constructor |]. unfold QueryEscape. rewrite bind_cons. apply Forall_app. split; [| done].
  destruct c as [[] [] [] [] [] [] [] []]; repeat constructor.
Qed.

Lemma cut_at c a b : c ∉ a -> cut c (a ++ c :: b) = (a, Some b).
Proof.
  induction a as [|x a IH]; intros Ha; simpl; [by rewrite decide_True |].
  apply not_elem_of_cons in Ha as [Hx Ha]. by rewrite decide_False, IH by congruence.
Qed.

Lemma cut_none c a : c ∉ a -> cut c a = (a, None).
Proof.
  induction a as [|x a IH]; intros Ha; simpl; [done |].
  apply not_elem_of_cons in Ha as [Hx Ha]. by rewrite decide_False, IH by congruence.
Qed.

Lemma fields_at_app c a b : c ∉ a -> fields_at c (a ++ c :: b) = a :: fields_at c b.
Proof.
  induction a as [|x a IH]; intros Ha; simpl; [by rewrite decide_True |].
  apply not_elem_of_cons in Ha as [Hx Ha]. by rewrite decide_False, IH by congruence.
Qed.

Lemma fields_at_plain c a : c ∉ a -> fields_at c a = [a].
Proof.
  induction a as [|x a IH]; intros Ha; simpl; [done |].
  apply not_elem_of_cons in Ha as [Hx Ha]. by rewrite decide_False, IH by congruence.
Qed.

(** A character that a predicate excludes does not occur. *)
Lemma not_elem_chars (P : ascii -> bool) c s : Forall (fun c => P c = true) s -> P c = false -> c ∉ s.
Proof. intros HF HP Hin. rewrite Forall_forall in HF. by rewrite (HF _ Hin) in HP. Qed.

Definition pair_char (c : ascii) : bool := query_char c || bool_decide (c = "="%char).

Lemma encode_pair_chars kv : Forall (fun c => pair_char c = true) (encode_pair kv).
Proof.
  apply Forall_app. split; [| constructor; [done |]];
    (eapply Forall_impl; [apply QueryEscape_chars |]); intros c Hc; unfold pair_char; by rewrite Hc.
Qed.

Lemma parse_encode_pair kv : parse_pair (encode_pair kv) = Some kv.
Proof.
  unfold parse_pair. rewrite decide_False; [| unfold encode_pair; by destruct (QueryEscape kv.1)].
  rewrite bool_decide_false; [| by apply (not_elem_chars pair_char _ _ (encode_pair_chars kv))].
  unfold encode_pair. rewrite cut_at by (by apply (not_elem_chars query_char _ _ (QueryEscape_chars _))).
  simpl. rewrite !unescape_QueryEscape. by destruct kv.
Qed.

Lemma ParseQuery_Encode q : ParseQuery (Encode q) = q.
Proof.
  unfold ParseQuery. induction q as [|kv q IH]; [done |].
  assert ("&"%char ∉ encode_pair kv) as Hn by (by apply (not_elem_chars pair_char _ _ (encode_pair_chars kv))).
  destruct q as [|kv' q].
  - simpl. rewrite (fields_at_plain _ _ Hn). simpl. by rewrite parse_encode_pair.
  - change (Encode (kv :: kv' :: q)) with (encode_pair kv ++ "&"%char :: Encode (kv' :: q)).
    rewrite (fields_at_app _ _ _ Hn). simpl. rewrite parse_encode_pair. by f_equal.
Qed.

Definition encode_char (c : ascii) : bool := pair_char c || bool_decide (c = "&"%char).

Lemma Encode_chars q : Forall (fun c => encode_char c = true) (Encode q).
Proof.
  assert (forall kv, Forall (fun c => encode_char c = true) (encode_pair kv)) as H.
  { intros kv. eapply Forall_impl; [apply encode_pair_chars |]. intros c Hc. unfold encode_char. by rewrite Hc. }
  induction q as [|kv q IH]; [constructor |]. destruct q as [|kv' q]; [apply H |].
  apply Forall_app. split; [apply H |]. by constructor.
Qed.

(** ** Numbers *)

Lemma digit_val_nonneg c v : digit_val c = Some v -> 0 <= v.
Proof.
  unfold digit_val. destruct (_ && _) eqn:E; [| done]. apply andb_true_iff in E as [?%Z.leb_le ?]. naive_solver lia.
Qed.

(** One step of [parse_digits]. *)
Definition digit_step (acc : option Z) (c : ascii) : option Z := a ← acc; v ← digit_val c; Some (a * 10 + v).

Lemma digits_from_none s : foldl digit_step None s = None.
Proof. by induction s. Qed.

Lemma digits_grow s : forall n m, 0 <= n -> foldl digit_step (Some n) s = Some m -> n <= m.
Proof.
  induction s as [|c s IH]; intros n m Hn Hf; simpl in Hf; [injection Hf; lia |].
  destruct (digit_val c) as [v|] eqn:Ev; simpl in Hf; [| by rewrite digits_from_none in Hf].
  pose proof (digit_val_nonneg _ _ Ev). specialize (IH (n * 10 + v) m ltac:(lia) Hf). lia.
Qed.

Lemma uint_loop_digits max s : forall n m, 0 <= n ->
  foldl digit_step (Some n) s = Some m -> m <= max -> uint_loop max n s = m.
Proof.
  induction s as [|c s IH]; intros n m Hn Hf Hm; simpl in *; [congruence |].
  destruct (digit_val c) as [v|] eqn:Ev; simpl in Hf; [| by rewrite digits_from_none in Hf].
  pose proof (digit_val_nonneg _ _ Ev). pose proof (digits_grow _ (n * 10 + v) _ ltac:(lia) Hf).
  rewrite (proj2 (Z.ltb_ge _ _)) by lia. apply IH; [lia | done | done].
Qed.

Lemma ParseUint_FormatInt bits n : bits <= 64 -> 0 <= n < 2 ^ bits -> ParseUint bits (FormatInt n) = n.
Proof.
  intros Hb Hn. unfold FormatInt. rewrite (proj2 (Z.ltb_ge _ _)) by lia.
  assert (2 ^ bits <= 2 ^ 64) as Hp by (apply Z.pow_le_mono_r; lia).
  destruct (format_nat_ok 20 n) as (Hd & _ & _); [lia |].
  apply uint_loop_digits; [done | exact Hd | lia].
Qed.

Lemma FormatInt_nonempty n : 0 <= n < 2 ^ 64 -> FormatInt n <> [].
Proof.
  intros Hn. unfold FormatInt. rewrite (proj2 (Z.ltb_ge _ _)) by lia.
  destruct (format_nat_ok 20 n) as (_ & _ & Hne); [lia |]. by apply Hne.
Qed.

(** ** URLs and routes *)

(** A segment that stands in a URL as it is. *)
Definition url_seg (s : gostr) : Prop := s <> [] /\ Forall (fun c => unreserved c = true) s.

Lemma url_seg_no c s : url_seg s -> unreserved c = false -> c ∉ s.
Proof. intros [_ Hs] Hc. by apply (not_elem_chars unreserved). Qed.

Lemma tenantIDRe_url s : tenantIDRe s = true -> url_seg s.
Proof.
  destruct s as [|c s]; simpl; [done |]. rewrite !andb_true_iff, forallb_forall. intros [[Hc Hs] _]. split; [done |].
  assert (forall x, alnum_ x = true -> unreserved x = true) as Ha by (by intros [[] [] [] [] [] [] [] []]).
  constructor; [by apply Ha |]. apply Forall_forall. intros x Hx%list_elem_of_In%Hs.
  apply orb_true_iff in Hx as [Hx|Hx]; [by apply Ha |]. revert Hx. by destruct x as [[] [] [] [] [] [] [] []].
Qed.

Definition host_char (c : ascii) : bool := negb (bool_decide (c ∈ [slash; "?"%char; "#"%char])) && (32 <=? byteval c) && negb (byteval c =? 127).

Section url.
Context (validHost : gostr -> bool) (host : gostr).
Context (Hvalid : validHost host = true) (Hhost : Forall (fun c => host_char c = true) host).

Definition path_char (c : ascii) : bool := unreserved c || bool_decide (c = slash).

Lemma mkpath_chars segs : Forall url_seg segs -> Forall (fun c => path_char c = true) (mkpath segs).
Proof.
  induction 1 as [|s segs Hs Hsegs IH]; [constructor |]. rewrite mkpath_cons. constructor; [done |].
  apply Forall_app. split; [| done]. eapply Forall_impl; [apply Hs |]. intros c Hc. unfold path_char. by rewrite Hc.
Qed.

Lemma unescape_plain s : Forall (fun c => path_char c = true) s -> unescape false s = Some s.
Proof.
  induction 1 as [|c s Hc Hs IH]; [done |]. simpl. rewrite decide_False by (by intros ->). by rewrite IH.
Qed.

Lemma existsb_none {A} (f : A -> bool) l : Forall (fun x => f x = false) l -> existsb f l = false.
Proof. induction 1 as [|x l Hx Hl IH]; [done |]. simpl. by rewrite Hx, IH. Qed.

(** The three kinds of text in a URL of the client are free of control characters. *)
Lemma host_no_ctl c : host_char c = true -> (byteval c <? 32) || (byteval c =? 127) = false.
Proof. by destruct c as [[] [] [] [] [] [] [] []]. Qed.
Lemma path_no_ctl c : path_char c = true -> (byteval c <? 32) || (byteval c =? 127) = false.
Proof. by destruct c as [[] [] [] [] [] [] [] []]. Qed.
Lemma encode_no_ctl c : encode_char c = true -> (byteval c <? 32) || (byteval c =? 127) = false.
Proof. by destruct c as [[] [] [] [] [] [] [] []]. Qed.

Lemma parseURL_client segs (q : option values) :
  segs <> [] -> Forall url_seg segs ->
  parseURL validHost (str "https://" ++ host ++ mkpath segs ++ match q with Some q => "?"%char :: Encode q | None => [] end)
  = Some (mkUrl host (mkpath segs) (match q with Some q => Encode q | None => [] end)).
Proof.
  intros Hne Hsegs. pose proof (mkpath_chars _ Hsegs) as Hp.
  set (tl := match q with Some q => "?"%char :: Encode q | None => [] end).
  assert (Forall (fun c => (byteval c <? 32) || (byteval c =? 127) = false) tl /\ "#"%char ∉ tl) as [Htl Hs].
  { subst tl. destruct q as [q|]; [| split; [constructor | set_solver]]. pose proof (Encode_chars q) as He. split.
    - constructor; [done |]. eapply Forall_impl; [exact He | apply encode_no_ctl].
    - apply not_elem_of_cons. split; [done |]. by apply (not_elem_chars encode_char). }
  unfold parseURL. rewrite existsb_none.
  2:{ apply Forall_app. split; [repeat constructor |]. apply Forall_app. split; [by eapply Forall_impl; [exact Hhost | apply host_no_ctl] |].
      apply Forall_app. split; [| done]. by eapply Forall_impl; [exact Hp | apply path_no_ctl]. }
  rewrite cut_none.
  2:{ rewrite !elem_of_app. intros [H|[H|[H|H]]]; [| | | done].
      - by vm_compute in H; set_solver.
      - by apply (not_elem_chars host_char) in H.
      - by apply (not_elem_chars path_char) in H. }
  replace (HasPrefix _ _) with true; [| symmetry; apply bool_decide_true; by eexists].
  change (drop 8 (str "https://" ++ host ++ mkpath segs ++ tl)) with (host ++ mkpath segs ++ tl).
  assert ("?"%char ∉ host ++ mkpath segs) as Hq.
  { rewrite elem_of_app. intros [H|H]; [by apply (not_elem_chars host_char) in H | by apply (not_elem_chars path_char) in H]. }
  replace (cut "?"%char (host ++ mkpath segs ++ tl)) with (host ++ mkpath segs, Encode <$> q).
  2:{ rewrite app_assoc. subst tl. destruct q as [q|]; [by rewrite cut_at | by rewrite app_nil_r, cut_none]. }
  destruct segs as [|s segs]; [done |]. rewrite mkpath_cons in *.
  rewrite cut_at by (by apply (not_elem_chars host_char)). rewrite Hvalid, unescape_plain by done.
  by destruct q.
Qed.
End url.

(** The entries of the table that a method and a path fit. *)
Definition fits (m : gostr) (segs : list gostr) : list (gostr * list segment * route) :=
  filter (fun e => e.1.1 = m /\ is_Some (match_pattern e.1.2 segs)) newRouter.

Section routes.
Context {M : Mux} {ML : MuxLaws M}.

Lemma Find_fits m segs pat r ps :
  Forall url_seg segs -> fits m segs = [(m, pat, r)] -> match_pattern pat segs = Some ps ->
  Find newRouter m (mkpath segs) = Some (r, ps).
Proof.
  intros Hs Hf Hp.
  assert (forall e, e ∈ newRouter -> e.1.1 = m -> is_Some (match_pattern e.1.2 segs) -> e = (m, pat, r)) as Hu.
  { intros e He H1 H2. apply list_elem_of_singleton. rewrite <- Hf. by apply list_elem_of_filter. }
  apply (Find_unique newRouter m _ r pat ps segs); [done | | | done |].
  - eapply Forall_impl; [exact Hs |]. intros s Hseg. split; [apply Hseg | by apply url_seg_no].
  - assert ((m, pat, r) ∈ fits m segs) as H by (rewrite Hf; by left). by apply list_elem_of_filter in H as [_ ?].
  - intros pat' r' Hin H. by pose proof (Hu (m, pat', r') Hin eq_refl H) as [= -> ->].
Qed.
End routes.

(** Segments that are not empty; then both sides compute. *)
Ltac route_tac :=
  repeat match goal with H : url_seg ?s |- _ => destruct s as [|? s]; [by destruct H |]; clear H end; reflexivity.

Definition ctl : gostr := str "control".
Definition tns : gostr := str "tenants".


(** ** Calls *)

Definition isObj (v : json) : bool := match v with JObj _ => true | _ => false end.

Section calls.
Context {J : JsonText} {JL : JsonTextLaws J} {M : Mux} {ML : MuxLaws M}.
Context (validHost : gostr -> bool) (host trustDomain : gostr) (cert : Certificate) {S : Type} (H : handlers S).

(** The control plane and a server that answers: the address is good and the
    certificate is that of the control plane. *)
Definition linked : Prop :=
  validHost host = true /\ Forall (fun c => host_char c = true) host /\
  is_Some (controlPlaneOnlyMiddleware trustDomain cert).

(** [Do] against that server. *)
Definition over (req : httpRequest) (s : S) : option httpResponse * S :=
  let '(r, s') := serveAdmin H trustDomain (Some cert) validHost req s in (Some r, s').

Lemma jDecode_obj v rest : isObj v = true -> plain v = true -> jDecode (jMarshal v ++ rest) = Some v.
Proof. destruct v; try done. intros _ Hp. by apply jDecode_Marshal. Qed.

Definition callURL (segs : list gostr) (q : option values) : gostr :=
  str "https://" ++ host ++ mkpath segs ++ match q with Some q => "?"%char :: Encode q | None => [] end.

(** A request that fits one route reaches its handler with its parameters. *)
Lemma served m segs q body pat r ps s :
  linked -> segs <> [] -> Forall url_seg segs -> fits m segs = [(m, pat, r)] -> match_pattern pat segs = Some ps ->
  behindGate r = true -> (forall v, body = Some v -> isObj v = true /\ plain v = true) ->
  over (mkHttp m (callURL segs q) (jMarshal <$> body)) s =
  (let '(a, s') := H r (mkInput ps (default [] q) body) s in (Some a, s')).
Proof.
  intros (Hv & Hh & [i Hi]) Hne Hs Hf Hp Hg Hb. unfold over, serveAdmin, callURL. cbn [hq_URL hq_Method hq_Body].
  rewrite (parseURL_client _ _ Hv Hh) by done. cbn [up_Path up_RawQuery].
  rewrite (Find_fits m segs pat r ps) by done. rewrite Hg, Hi.
  replace (ParseQuery _) with (default [] q) by (destruct q; [symmetry; apply ParseQuery_Encode | done]).
  replace (_ ≫= jDecode) with body; [done |]. destruct body as [v|]; [| done]. simpl.
  destruct (Hb v eq_refl). symmetry. rewrite <- (app_nil_r (jMarshal v)). by apply jDecode_obj.
Qed.

Lemma doJSON_served {A} m segs q body pat r ps (okOut : option (dec A)) zero s :
  linked -> segs <> [] -> Forall url_seg segs -> fits m segs = [(m, pat, r)] -> match_pattern pat segs = Some ps ->
  behindGate r = true -> (forall v, body = Some v -> isObj v = true /\ plain v = true) ->
  doJSON validHost over m (callURL segs q) body okOut zero s =
  (let '(a, s') := H r (mkInput ps (default [] q) body) s in (readAnswer okOut zero a, s')).
Proof.
  intros HL Hne Hs Hf Hp Hg Hb. unfold doJSON.
  replace (parseURL validHost (callURL segs q)) with
    (Some (mkUrl host (mkpath segs) (match q with Some q => Encode q | None => [] end))).
  2:{ symmetry. destruct HL as (Hv & Hh & _). by apply parseURL_client. }
  rewrite (served m segs q body pat r ps) by done. by destruct (H r _ s).
Qed.

(** *** Answers *)

Lemma read_error {A} (okOut : option (dec A)) zero status code message :
  success status = false -> forallb is_ascii code = true -> forallb is_ascii message = true ->
  readAnswer okOut zero (answerJSONError status code message) = Answered status (mkErrBody code message [] 0) zero.
Proof.
  intros Hs Hc Hm. unfold readAnswer, answerJSONError, answerJSON. cbn [hr_Status hr_Body]. rewrite Hs.
  rewrite jDecode_obj; [reflexivity | done |]. cbn -[is_ascii]. rewrite Hc, Hm. reflexivity.
Qed.

Lemma read_json {A} (d : dec A) zero status v a :
  success status = true -> isObj v = true -> plain v = true -> d zero v = (a, true) ->
  readAnswer (Some d) zero (answerJSON status v) = Answered status noErrBody a.
Proof.
  intros Hs Ho Hp Hd. unfold readAnswer, answerJSON. cbn [hr_Status hr_Body]. rewrite Hs, jDecode_obj by done. by rewrite Hd.
Qed.
End calls.

(** ** Tenants *)

(** What the handlers that take a size answer. *)
Definition err_ok (r : tresp) : Prop :=
  match r with
  | TOk _ _ _ => True
  | TNoContent => False
  | TErr status code => status ∈ [400; 404; 500; 501; 507] /\ forallb is_ascii code = true
  end.

Lemma err_status status : status ∈ [400; 404; 500; 501; 507] -> success status = false /\ status <> 200 /\ status <> 409.
Proof. rewrite !elem_of_cons, elem_of_nil. intuition subst; done. Qed.

(** The values of an answer have the width of their types, and its id is ASCII. *)
Definition wire_ok (msg : tresp -> gostr) (r : tresp) : Prop :=
  match r with
  | TOk id p n => forallb is_ascii id = true /\ 0 <= p < 2 ^ 32 /\ - 2 ^ 63 <= n < 2 ^ 63
  | _ => forallb is_ascii (msg r) = true
  end.

(** An error with its status. *)
Ltac err_tac := repeat case_match; intros; simplify_eq; first [done | split; [set_solver | done]].

Lemma quotaError_ok e : err_ok (quotaError e).
Proof. destruct e; err_tac. Qed.

Lemma id_guard_err c code id r : forallb is_ascii code = true -> id_guard c code id = Some r -> err_ok r.
Proof. intros Hc. unfold id_guard. err_tac. Qed.

Lemma size_guard_err b r : size_guard b = Err r -> err_ok r.
Proof. unfold size_guard. err_tac. Qed.

Lemma writeMkdirError_err o r : writeMkdirError o = Some r -> err_ok r.
Proof. destruct o; simpl; err_tac. Qed.

Lemma ensureAccountQuota_err ev ev' o d n s r s' : ensureAccountQuota ev ev' o d n s = (Err r, s') -> err_ok r.
Proof. unfold ensureAccountQuota. repeat case_match; intros; simplify_eq. apply quotaError_ok. Qed.

Lemma register_guard_err c b r : register_guard c b = Err r -> err_ok r.
Proof. unfold register_guard. err_tac. Qed.

Lemma register_prepare_err ev req s r s' : register_prepare ev req s = (PDone r, s') -> err_ok r.
Proof.
  unfold register_prepare. intros Hp.
  repeat case_match; simplify_eq; try done; eauto using ensureAccountQuota_err, writeMkdirError_err;
    (split; [set_solver | done]).
Qed.

Lemma registerTenant_err ev rd wr b s : err_ok (registerTenant ev rd wr b s).1.
Proof.
  unfold registerTenant. destruct (register_guard _ b) as [req|e] eqn:Eg; [| by eapply register_guard_err].
  destruct (register_prepare ev req s) as [[r|ts rt] s1] eqn:Ep; [| done]. by eapply register_prepare_err.
Qed.

Lemma resizeTenant_err ev id b s : err_ok (resizeTenant ev id b s).1.
Proof.
  unfold resizeTenant. destruct (id_guard _ _ id) eqn:Eg; [by eapply id_guard_err in Eg |].
  destruct (size_guard b) eqn:Es; [| by eapply size_guard_err].
  repeat case_match; try done; try apply quotaError_ok; (split; [set_solver | done]).
Qed.

Lemma setAccountQuota_err o ev ev' owner b s : err_ok (setAccountQuota o ev ev' owner b s).1.
Proof.
  unfold setAccountQuota. destruct (id_guard _ _ owner) eqn:Eg; [by eapply id_guard_err in Eg |].
  destruct (size_guard b) eqn:Es; [| by eapply size_guard_err].
  destruct (writeMkdirError o) eqn:Em; [by eapply writeMkdirError_err |].
  destruct (ensureAccountQuota _ _ _ _ _ _) as [[p|e] s2] eqn:Ee; [done | by eapply ensureAccountQuota_err].
Qed.

Lemma unregisterTenant_answer kept kept' rd wr id s :
  tenantIDRe id = true -> ac_TenantsRoot (s_adminCfg s) <> [] ->
  ((unregisterTenant kept kept' rd wr id s).1 = TNoContent \/
   (unregisterTenant kept kept' rd wr id s).1 = TErr 404 (str "not_found")) /\
  s_tenants (unregisterTenant kept kept' rd wr id s).2 !! id = None /\
  s_adminCfg (unregisterTenant kept kept' rd wr id s).2 = s_adminCfg s.
Proof.
  intros Hid Hr. unfold unregisterTenant, id_guard. rewrite decide_False, Hid by done. simpl.
  destruct (s_tenants s !! id) eqn:Et; [| naive_solver]. unfold dropRegisteredTenant.
  destruct (removeRegisteredTenant _ _ _ _ _) as [ok f]. cbn. rewrite lookup_delete_eq. naive_solver.
Qed.

(** What the callers of the client see of an answer. *)
Definition seenSize (msg : tresp -> gostr) (r : tresp) : result apiErr Z :=
  match r with
  | TOk _ p _ => Ok p
  | TNoContent => Err (ApiDecode 204)
  | TErr status code =>
      if (status =? 500) && bool_decide (code = codeFSQuotaUnavailable) then Err (ApiQuotaUnavailable [])
      else Err (ApiAdmin status code (msg r))
  end.

Definition seenRegister (msg : tresp -> gostr) (r : tresp) : result apiErr Z :=
  match r with
  | TErr status code =>
      if (status =? 507) && bool_decide (code = codeDiskQuotaExceeded) then Err (ApiDiskQuotaExceeded (msg r))
      else seenSize msg r
  | _ => seenSize msg r
  end.

Lemma decInt_ok lo hi cur n : lo <= n <= hi -> decInt lo hi cur (JNum n) = (n, true).
Proof. intros Hn. unfold decInt. by rewrite (proj2 (Z.leb_le _ _)), (proj2 (Z.leb_le _ _)) by lia. Qed.

Lemma decTenantAnswer_ok id p n :
  0 <= p < 2 ^ 32 -> - 2 ^ 63 <= n < 2 ^ 63 ->
  decTenantAnswer (mkTenantAnswer [] 0 0)
    (JObj [(str "tenant_id", JStr id); (str "project_id", JNum p); (str "size_bytes", JNum n)])
  = (mkTenantAnswer id p n, true).
Proof.
  intros Hp Hn. pose proof (decInt_ok 0 (2 ^ 32 - 1) 0 p ltac:(lia)) as E1.
  pose proof (decInt_ok (- 2 ^ 63) (2 ^ 63 - 1) 0 n ltac:(lia)) as E2.
  unfold decTenantAnswer, decStruct. cbn -[decInt]. unfold decUint32, decInt64.
  rewrite E1, E2. reflexivity.
Qed.

(** The URL of a call as a path. *)
Ltac url_tac := unfold callURL, tenantURL, tenantsURL, mkpath; rewrite <- ?app_assoc; cbn; rewrite ?app_nil_r, <- ?app_assoc; reflexivity.

(** The premises of [served]. *)
Ltac reach_tac :=
  [> | assumption | discriminate
  | repeat (apply Forall_cons; split; [first [assumption | by repeat constructor] |]); constructor
  | route_tac
  | repeat match goal with H : url_seg ?s |- _ => destruct s as [|? s]; [by destruct H |]; clear H end; reflexivity
  | reflexivity
  | intros ? Hbody; first [discriminate Hbody | injection Hbody as <-; split; [reflexivity | first [reflexivity | assumption]]] ].

(** The call reaches the handler of its route. *)
Ltac serve_tac host segs q pat r ps := rewrite (doJSON_served _ host _ _ _ _ segs q _ pat r ps); reach_tac.

Section tenants.
Context {J : JsonText} {JL : JsonTextLaws J} {M : Mux} {ML : MuxLaws M}.
Context (validHost : gostr -> bool) (host trustDomain : gostr) (cert : Certificate).
Context (ev : adminEnv) (msg : tresp -> gostr) (elsewhere : handlers serverState).

Abbreviation Do := (over validHost trustDomain cert (tenantHandlers ev msg elsewhere)).

(** An answer as the client reads it. *)
Lemma read_tenantWire r :
  err_ok r -> wire_ok msg r ->
  readAnswer (Some decTenantAnswer) (mkTenantAnswer [] 0 0) (tenantWire msg r) =
  match r with
  | TOk id p n => Answered 200 noErrBody (mkTenantAnswer id p n)
  | TNoContent => Broken ApiBuild
  | TErr status code => Answered status (mkErrBody code (msg r) [] 0) (mkTenantAnswer [] 0 0)
  end.
Proof.
  destruct r as [id p n| |status code]; intros He Hw; [| done |].
  - destruct Hw as (Ha & Hp & Hn). apply read_json; [done | done | | by apply decTenantAnswer_ok].
    cbn -[is_ascii]. by rewrite Ha.
  - destruct He as [[Hs _]%err_status Hc]. by apply read_error.
Qed.

Lemma sizeAnswer_seen r :
  err_ok r -> wire_ok msg r ->
  sizeAnswer (readAnswer (Some decTenantAnswer) (mkTenantAnswer [] 0 0) (tenantWire msg r)) = seenSize msg r.
Proof.
  intros He Hw. rewrite (read_tenantWire r He Hw). destruct r as [id p n| |status code]; [done | done |].
  destruct He as [(_ & Hs & _)%err_status _]. simpl. by rewrite (proj2 (Z.eqb_neq status 200) Hs).
Qed.

Lemma registerBody_plain req :
  forallb is_ascii (rq_TenantID req) = true -> forallb is_ascii (rq_OwnerTenantID req) = true ->
  forallb is_ascii (rq_Name req) = true -> plain (registerBody req) = true.
Proof. intros H1 H2 H3. unfold registerBody. cbn -[is_ascii]. by rewrite H1, H2, H3. Qed.

Lemma decRegister_body ps q req :
  - 2 ^ 63 <= rq_SizeBytes req < 2 ^ 63 ->
  bodyOf decRegister (mkRegister [] [] [] 0) (mkInput ps q (Some (registerBody req))) = Some req.
Proof.
  intros Hn. pose proof (decInt_ok (- 2 ^ 63) (2 ^ 63 - 1) 0 (rq_SizeBytes req) ltac:(lia)) as E.
  unfold bodyOf, decRegister, decStruct, registerBody. cbn -[decInt]. unfold decInt64. rewrite E. by destruct req.
Qed.

Lemma decResize_body ps q n :
  - 2 ^ 63 <= n < 2 ^ 63 -> bodyOf decResize 0 (mkInput ps q (Some (resizeBody n))) = Some n.
Proof.
  intros Hn. pose proof (decInt_ok (- 2 ^ 63) (2 ^ 63 - 1) 0 n ltac:(lia)) as E.
  unfold bodyOf, decResize, decStruct, resizeBody. cbn -[decInt]. unfold decInt64. by rewrite E.
Qed.

Lemma RegisterTenant_served req s :
  linked validHost host trustDomain cert ->
  forallb is_ascii (rq_TenantID req) = true -> forallb is_ascii (rq_OwnerTenantID req) = true ->
  forallb is_ascii (rq_Name req) = true -> - 2 ^ 63 <= rq_SizeBytes req < 2 ^ 63 ->
  let x := registerTenant (ae_reg ev) (ae_read ev) (ae_write ev) (Some req) s in
  wire_ok msg x.1 -> RegisterTenant validHost Do host req s = (seenRegister msg x.1, x.2).
Proof.
  intros HL H1 H2 H3 H4 x Hw. unfold RegisterTenant.
  change (tenantsURL host) with (str "https://" ++ host ++ mkpath [ctl; tns]).
  rewrite <- (app_nil_r (mkpath [ctl; tns])).
  rewrite (doJSON_served validHost host trustDomain cert _ _ [ctl; tns] None _ [Lit ctl; Lit tns] RRegister []); try done.
  2:{ by repeat constructor. }
  2:{ intros v [= <-]. split; [done |]. by apply registerBody_plain. }
  cbn [tenantHandlers]. rewrite decRegister_body by done. fold x.
  pose proof (registerTenant_err (ae_reg ev) (ae_read ev) (ae_write ev) (Some req) s) as He. fold x in He.
  rewrite (read_tenantWire _ He Hw). destruct x as [r s']. cbn [fst snd] in *.
  destruct r as [id p n| |status code]; [done | done |]. destruct He as [(_ & H5 & H6)%err_status _].
  unfold seenRegister, seenSize, otherError. cbn [eb_Code eb_Detail eb_Message eb_ExistingSizeBytes].
  rewrite (proj2 (Z.eqb_neq status 200) H5), (proj2 (Z.eqb_neq status 409) H6). cbn [andb].
  destruct (Z.eqb_spec status 500) as [->|]; cbn [andb]; [by destruct (bool_decide _) | by destruct (_ && _)].
Qed.

Lemma ResizeTenant_served id n s :
  linked validHost host trustDomain cert -> tenantIDRe id = true -> - 2 ^ 63 <= n < 2 ^ 63 ->
  let x := resizeTenant (ae_resize ev) id (Some n) s in
  wire_ok msg x.1 -> ResizeTenant validHost Do host id n s = (seenSize msg x.1, x.2).
Proof.
  intros HL Hid%tenantIDRe_url Hn x Hw. unfold ResizeTenant.
  assert (tenantURL host id = callURL host [ctl; tns; id] None) as -> by url_tac.
  serve_tac host [ctl; tns; id] (@None values) [Lit ctl; Lit tns; Param] RResize [id].
  cbn [tenantHandlers i_params]. rewrite decResize_body by done. fold x.
  pose proof (resizeTenant_err (ae_resize ev) id (Some n) s) as He. fold x in He.
  by rewrite (sizeAnswer_seen _ He Hw).
Qed.

Lemma SetAccountQuota_served owner n s :
  linked validHost host trustDomain cert -> tenantIDRe owner = true -> - 2 ^ 63 <= n < 2 ^ 63 ->
  let x := setAccountQuota (ae_mkdir ev) (ae_quota ev) (ae_quota' ev) owner (Some n) s in
  wire_ok msg x.1 -> SetAccountQuota validHost Do host owner n s = (seenSize msg x.1, x.2).
Proof.
  intros HL Hid%tenantIDRe_url Hn x Hw. unfold SetAccountQuota.
  assert (str "https://" ++ host ++ str "/control/accounts/" ++ owner ++ str "/quota"
          = callURL host [ctl; str "accounts"; owner; str "quota"] None) as -> by url_tac.
  serve_tac host [ctl; str "accounts"; owner; str "quota"] (@None values) [Lit ctl; Lit (str "accounts"); Param; Lit (str "quota")]
    RAccountQuota [owner].
  cbn [tenantHandlers i_params]. rewrite decResize_body by done. fold x.
  pose proof (setAccountQuota_err (ae_mkdir ev) (ae_quota ev) (ae_quota' ev) owner (Some n) s) as He. fold x in He.
  by rewrite (sizeAnswer_seen _ He Hw).
Qed.

Lemma UnregisterTenant_served id s :
  linked validHost host trustDomain cert -> tenantIDRe id = true -> ac_TenantsRoot (s_adminCfg s) <> [] ->
  (forall r, forallb is_ascii (msg r) = true) ->
  UnregisterTenant validHost Do host id s =
  (Ok tt, (unregisterTenant (ae_kept ev) (ae_kept' ev) (ae_read ev) (ae_write ev) id s).2).
Proof.
  intros HL Hid Hr Hm. pose proof (tenantIDRe_url _ Hid) as Hu. unfold UnregisterTenant.
  assert (tenantURL host id = callURL host [ctl; tns; id] None) as -> by url_tac.
  serve_tac host [ctl; tns; id] (@None values) [Lit ctl; Lit tns; Param] RUnregister [id].
  cbn [tenantHandlers i_params].
  destruct (unregisterTenant_answer (ae_kept ev) (ae_kept' ev) (ae_read ev) (ae_write ev) id s Hid Hr) as [[->| ->] _];
    [done |]. cbn [tenantWire]. by rewrite read_error.
Qed.
End tenants.

(** C25: The calls of the control plane to manage tenants reach their handlers on the
    server and come back as these answered, through URL, router, gate and JSON.  On a
    connection with the control plane's certificate to a server with a tenants root, with
    names and messages in ASCII, an id of the form that the server accepts, and integers of
    64 bits: registering a tenant that the server does not have yet, resizing one and
    setting an account's quota return the project id when the handler granted it and the
    error for the handler's status and code otherwise (an unavailable quota without the
    text of the failed command, see [quota_detail_lost]), and leave the server in the state
    of the handler; unregistering returns without an error, on a state without the tenant,
    and repeating it is without an error and changes nothing. *)
Theorem admin_calls_exact {J : JsonText} {JL : JsonTextLaws J} {M : Mux} {ML : MuxLaws M} (validHost : gostr -> bool)
    (host trustDomain : gostr) (cert : Certificate) (ev : adminEnv) (msg : tresp -> gostr)
    (elsewhere : handlers serverState) (req : registerTenantRequest) (id : gostr) (n : Z) (s : serverState) :
  let Do := over validHost trustDomain cert (tenantHandlers ev msg elsewhere) in
  let x := registerTenant (ae_reg ev) (ae_read ev) (ae_write ev) (Some req) s in
  let y := resizeTenant (ae_resize ev) id (Some n) s in
  let z := setAccountQuota (ae_mkdir ev) (ae_quota ev) (ae_quota' ev) id (Some n) s in
  linked validHost host trustDomain cert -> (forall r, forallb is_ascii (msg r) = true) ->
  forallb is_ascii (rq_TenantID req ++ rq_OwnerTenantID req ++ rq_Name req) = true ->
  - 2 ^ 63 <= rq_SizeBytes req < 2 ^ 63 -> - 2 ^ 63 <= n < 2 ^ 63 -> tenantIDRe id = true ->
  wire_ok msg x.1 -> wire_ok msg y.1 -> wire_ok msg z.1 -> ac_TenantsRoot (s_adminCfg s) <> [] ->
  (s_tenants s !! rq_TenantID req = None -> RegisterTenant validHost Do host req s = (seenRegister msg x.1, x.2)) /\
  ResizeTenant validHost Do host id n s = (seenSize msg y.1, y.2) /\
  SetAccountQuota validHost Do host id n s = (seenSize msg z.1, z.2) /\
  exists s', UnregisterTenant validHost Do host id s = (Ok tt, s') /\ s_tenants s' !! id = None /\
    UnregisterTenant validHost Do host id s' = (Ok tt, s').
Proof.
  intros Do x y z HL Hm Ha Hs Hn Hid Hx Hy Hz Hr. rewrite !forallb_app, !andb_true_iff in Ha. destruct Ha as (H1 & H2 & H3).
  split; [intros _; by apply RegisterTenant_served |]. split; [by apply ResizeTenant_served |].
  split; [by apply SetAccountQuota_served |].
  destruct (unregisterTenant_answer (ae_kept ev) (ae_kept' ev) (ae_read ev) (ae_write ev) id s Hid Hr) as (_ & Hg & Hc).
  eexists. split; [by apply UnregisterTenant_served |]. split; [done |].
  unfold Do. rewrite UnregisterTenant_served by (try done; congruence). f_equal.
  unfold unregisterTenant at 1, id_guard. rewrite Hc, decide_False, Hid by done. simpl. by rewrite Hg.
Qed.

(** ** Instances of the classes *)

Module Text.

Definition leaf : Type := bool + (Z + gostr).

Fixpoint tree_of (v : json) : gen_tree leaf :=
  match v with
  | JNull => GenNode 2 []
  | JBool b => GenLeaf (inl b)
  | JNum n => GenLeaf (inr (inl n))
  | JStr s => GenLeaf (inr (inr s))
  | JFloat s => GenNode 3 [GenLeaf (inr (inr s))]
  | JArr l => GenNode 0 (tree_of <$> l)
  | JObj o =>
      GenNode 1 ((fix go o := match o with
                  | [] => []
                  | (k, v) :: o' => GenLeaf (inr (inr k)) :: tree_of v :: go o'
                  end) o)
  end.

Fixpoint of_tree (t : gen_tree leaf) : json :=
  match t with
  | GenLeaf (inl b) => JBool b
  | GenLeaf (inr (inl n)) => JNum n
  | GenLeaf (inr (inr s)) => JStr s
  | GenNode 0 l => JArr (of_tree <$> l)
  | GenNode 1 l =>
      JObj ((fix go l := match l with
             | GenLeaf (inr (inr k)) :: t :: l' => (k, of_tree t) :: go l'
             | _ => []
             end) l)
  | GenNode 3 [GenLeaf (inr (inr s))] => JFloat s
  | _ => JNull
  end.

Fixpoint of_tree_of (v : json) : of_tree (tree_of v) = v.
Proof.
  destruct v as [| | | | |l|o]; try reflexivity.
  - simpl. f_equal. induction l as [|x l IH]; [reflexivity |]. simpl. rewrite of_tree_of. f_equal. exact IH.
  - simpl. f_equal. induction o as [|[k x] o IH]; [reflexivity |]. simpl. rewrite of_tree_of. f_equal. exact IH.
Qed.

Fixpoint pos_text (p : positive) : gostr :=
  match p with xH => [] | xO p' => "0"%char :: pos_text p' | xI p' => "1"%char :: pos_text p' end.

Fixpoint text_pos (s : gostr) : positive :=
  match s with [] => xH | c :: s' => if decide (c = "0"%char) then xO (text_pos s') else xI (text_pos s') end.

Lemma text_pos_text p : text_pos (pos_text p) = p.
Proof. induction p as [p IH|p IH|]; simpl; [by rewrite IH | by rewrite IH | done]. Qed.

Lemma pos_text_chars p : Forall (fun c => c = "0"%char \/ c = "1"%char) (pos_text p).
Proof. induction p; simpl; constructor; auto. Qed.

Definition body_of (s : gostr) : option (json * gostr) :=
  match s with
  | c :: s' =>
      if decide (c = "{"%char) then
        let '(a, b) := cut "}"%char s' in
        rest ← b; t ← @decode (gen_tree leaf) _ _ (text_pos a); Some (of_tree t, rest)
      else None
  | [] => None
  end.

#[export] Instance jsonText : JsonText := {
  jMarshal v := "{"%char :: pos_text (encode (tree_of v)) ++ ["}"%char];
  jDecode s := fst <$> body_of s;
  jUnmarshal s := '(v, rest) ← body_of s; if decide (rest = []) then Some v else None }.

Lemma body_of_marshal v rest : body_of (jMarshal v ++ rest) = Some (v, rest).
Proof.
  unfold body_of. cbn [jMarshal jsonText app]. rewrite decide_True, <- app_assoc by done. cbn [app].
  rewrite cut_at; [| intros Hin; pose proof (pos_text_chars (encode (tree_of v))) as HF;
                     rewrite Forall_forall in HF; by destruct (HF _ Hin)].
  simpl. rewrite text_pos_text, decode_encode. simpl. by rewrite of_tree_of.
Qed.

#[export] Instance jsonText_laws : JsonTextLaws jsonText.
Proof.
  split.
  - intros o rest _. unfold jDecode at 1. cbn [jsonText]. by rewrite body_of_marshal.
  - intros o _. unfold jUnmarshal at 1. cbn [jsonText]. rewrite <- (app_nil_r (jMarshal (JObj o))). by rewrite body_of_marshal.
  - intros o. constructor; [done |]. apply Forall_app. split; [| by repeat constructor].
    eapply Forall_impl; [apply pos_text_chars |]. by intros c [->| ->].
Qed.

(** The first entry of the table that fits. *)
Definition find_first (table : list (gostr * list segment * route)) (m path : gostr) : option (route * list gostr) :=
  head (omap (fun e => if decide (e.1.1 = m) then (fun ps => (e.2, ps)) <$> match_pattern e.1.2 (drop 1 (split_slash path)) else None) table).

#[export] Instance mux : Mux := { Find := find_first; NotFound _ _ := mkAnswer 404 (str "404 page not found") }.

Lemma drop_split_mkpath segs : Forall (fun s => s <> [] /\ slash ∉ s) segs -> drop 1 (split_slash (mkpath segs)) = segs.
Proof.
  intros Hs. destruct segs as [|s segs]; [done |].
  rewrite split_slash_mkpath; [done |]. eapply Forall_impl; [exact Hs |]. by intros ? [].
Qed.

#[export] Instance mux_laws : MuxLaws mux.
Proof.
  intros table m path r pat ps segs -> Hs Hin Hp Hu. unfold Find. cbn [mux]. unfold find_first.
  rewrite (drop_split_mkpath _ Hs). induction table as [|[[m' pat'] r'] table IH]; [by apply elem_of_nil in Hin |].
  simpl. destruct (decide (m' = m)) as [->|Hm]; simpl.
  - destruct (match_pattern pat' segs) as [ps'|] eqn:Ep'; simpl.
    + assert ((pat', r') = (pat, r)) as [= -> ->] by (apply Hu; [by left | by eexists]). by simplify_eq.
    + apply elem_of_cons in Hin as [[= <- <-]|Hin]; [congruence |]. apply IH; [done |].
      intros p' q' Hq. by apply Hu; right.
  - apply elem_of_cons in Hin as [[= <- <- <-]|Hin]; [done |]. apply IH; [done |].
    intros p' q' Hq. by apply Hu; right.
Qed.
End Text.

(** ** Runs *)

Import Text.

Definition anyHost (h : gostr) : bool := true.
Definition ops0 : gostr := str "server-1:8443".
Definition trust0 : gostr := str "orlop.test".
Definition control0 : Certificate :=
  mkCert (pkixName (str "control") [] []) (pkixName (str "root") [] []) [7] 0 100 false (-1) false 1 [ExtKeyUsageClientAuth]
    [spiffeURL trust0 (str "/control")] [] [] [] 1 2.
Definition env0 : adminEnv := mkAdminEnv fine_reg true true fine MkOk fine fine none none.
Definition msg0 (r : tresp) : gostr := str "the message".
Definition no_route {S} (r : route) (i : input) (s : S) : httpResponse * S := (noContent, s).
Definition req0 : registerTenantRequest := mkRegister (str "a_2") (str "u_1") (str "n") 5000.

Lemma admin_calls_exact_witness :
  RegisterTenant anyHost (over anyHost trust0 control0 (tenantHandlers env0 msg0 no_route)) ops0 req0 serv2 =
    (Ok 100, (registerTenant fine_reg true true (Some req0) serv2).2) /\
  exists s', UnregisterTenant anyHost (over anyHost trust0 control0 (tenantHandlers env0 msg0 no_route)) ops0 (str "u_1") serv2
    = (Ok tt, s') /\ s_tenants s' !! str "u_1" = None.
Proof.
  destruct (admin_calls_exact anyHost ops0 trust0 control0 env0 msg0 no_route req0 (str "u_1") 9000 serv2) as (H1 & _ & _ & s' & H2 & H3 & _).
  - repeat split; [by vm_compute; repeat constructor | by vm_compute; eexists].
  - done.
  - by vm_compute.
  - by vm_compute.
  - by vm_compute.
  - by vm_compute.
  - by vm_compute.
  - by vm_compute.
  - by vm_compute.
  - by vm_compute.
  - split; [| exists s'; split; [exact H2 | exact H3]]. refine (eq_trans (H1 _) _); [by vm_compute |].
    refine (f_equal2 pair (_ : seenRegister msg0 (registerTenant fine_reg true true (Some req0) serv2).1 = Ok 100) eq_refl).
    vm_compute. reflexivity.
Defined.

(** The text of a failed quota command is in the field message of the answer; the
    client looks for it in detail, so its error carries no text. *)
Definition env_noquota : adminEnv :=
  mkAdminEnv (mkRegEnv MkOk MkOk (mkQenv true true false true) fine OpOk) true true fine MkOk fine fine none none.

Example quota_detail_lost :
  msg0 (TErr 500 codeFSQuotaUnavailable) = str "the message" /\
  (RegisterTenant anyHost (over anyHost trust0 control0 (tenantHandlers env_noquota msg0 no_route)) ops0 req0 serv0).1
  = Err (ApiQuotaUnavailable []).
Proof. split; [reflexivity |]. vm_compute. reflexivity. Qed.
