(* ===== verification/JournalWire.v ===== *)
(** * Journal pages and streams on the wire

    A journal page or stream that the server of AdminApi.v sends is what its client
    receives, and the other calls on the data of a tenant. *)

From S2P Require Import Prelude GoPath Codec TenantDB Journal Manifests Lease Revert ChunkStore Gc PubSub Enroll Quota Tenants Certs Http AdminApi AdminProps.

(** ** Ids *)

Lemma tenantIDRe_agent s : tenantIDRe s = true -> agentIDRe s = true.
Proof.
  assert (forall c, alnum_ c = is_alnum_ c) as E by (by intros [[] [] [] [] [] [] [] []]).
  destruct s as [|c s]; [done |]. simpl. rewrite E. intros H. rewrite <- H. f_equal. f_equal.
  clear. induction s as [|x s IH]; [done |]. simpl. rewrite IH. f_equal. by destruct x as [[] [] [] [] [] [] [] []].
Qed.

Lemma tenantIDRe_ascii s : tenantIDRe s = true -> forallb is_ascii s = true.
Proof.
  intros [_ HF]%tenantIDRe_url. apply forallb_forall. intros c Hc%list_elem_of_In. rewrite Forall_forall in HF.
  specialize (HF c Hc). revert HF. clear. by destruct c as [[] [] [] [] [] [] [] []].
Qed.

(** ** Entries *)

Definition u64_ok (z : Z) : Prop := 0 <= z < 2 ^ 64.
Definition opt_ok (o : option Z) : Prop := forall z, o = Some z -> u64_ok z.

(** A row whose numbers have their width and whose texts are ASCII. *)
Definition row_ok (r : JournalQueryRow) : Prop :=
  u64_ok (jq_Seq r) /\ - 2 ^ 63 <= jq_TsUnixMs r < 2 ^ 63 /\ opt_ok (jq_BeforeVersion r) /\ opt_ok (jq_AfterVersion r) /\
  opt_ok (jq_SizeBefore r) /\ opt_ok (jq_SizeAfter r) /\
  forallb is_ascii (jq_SessionID r ++ jq_AllocationID r ++ jq_Path r ++ jq_AgentID r ++ jq_RenameFrom r) = true.

(** The row as the client has it. *)
Definition wireEntry (r : JournalQueryRow) : JournalEntry :=
  mkWireEntry (jq_SessionID r) (jq_AllocationID r) (jq_Seq r) (jq_TsUnixMs r) (jq_Path r) (opText (jq_Op r)) (jq_AgentID r)
    (jq_BeforeVersion r) (jq_AfterVersion r) (jq_RenameFrom r) (jq_SizeBefore r) (jq_SizeAfter r).

Lemma fill_seq {A} (d : dec A) name cur o1 o2 a b :
  fill d name cur o1 = (a, true) -> fill d name a o2 = (b, true) -> fill d name cur (o1 ++ o2) = (b, true).
Proof.
  revert cur. induction o1 as [|[k v] o1 IH]; intros cur H1 H2; simpl in *; [by simplify_eq |].
  case_decide; [| by apply IH]. destruct (d cur v) as [a1 ok]. destruct (fill d name a1 o1) as [a2 ok2] eqn:E.
  injection H1 as -> [-> ->]%andb_true_iff. by rewrite (IH a1 E H2).
Qed.

Lemma fill_other {A} (d : dec A) name k (cur : A) o :
  Forall (fun kv => kv.1 = k) o -> lower <$> k <> lower <$> name -> fill d name cur o = (cur, true).
Proof.
  intros HF Hn. induction HF as [|[k' v] o Hk HF IH]; [done |]. simpl in *. subst k'. by rewrite decide_False.
Qed.

Lemma omit_nil_keys name p : Forall (fun kv : gostr * json => kv.1 = name) (omit_nil name p).
Proof. destruct p; repeat constructor. Qed.
Lemma omit_empty_keys name s : Forall (fun kv : gostr * json => kv.1 = name) (omit_empty name s).
Proof. unfold omit_empty. case_decide; repeat constructor. Qed.

Lemma fill_omit_nil name p : opt_ok p -> fill (decPtr 0 decUint64) name None (omit_nil name p) = (p, true).
Proof.
  intros Hp. destruct p as [z|]; [| done]. destruct (Hp z eq_refl) as [H1 H2].
  pose proof (decInt_ok 0 (2 ^ 64 - 1) 0 z ltac:(lia)) as E.
  unfold omit_nil. cbn [fill]. rewrite decide_True by done. unfold decPtr, decUint64. cbn -[decInt]. by rewrite E.
Qed.

Lemma fill_omit_empty name s : fill decStr name [] (omit_empty name s) = (s, true).
Proof. unfold omit_empty. case_decide; [by subst |]. simpl. by rewrite decide_True. Qed.

(** The pieces of an entry one by one: those with other names, and the one that is
    looked for. *)
Ltac piece_tac :=
  first [ apply fill_omit_nil; assumption | apply fill_omit_empty
        | apply (fill_other _ _ _ _ _ (omit_nil_keys _ _)); vm_compute; discriminate
        | apply (fill_other _ _ _ _ _ (omit_empty_keys _ _)); vm_compute; discriminate ].
Ltac field_tac := eapply fill_seq; [reflexivity | repeat (eapply fill_seq; [piece_tac |]); piece_tac].

Lemma decEntry_ok r : row_ok r -> decEntry noEntry (entryJSON r) = (wireEntry r, true).
Proof.
  intros (Hs & Ht & Hb & Ha & Hsb & Hsa & _). unfold u64_ok in Hs.
  pose proof (decInt_ok 0 (2 ^ 64 - 1) 0 (jq_Seq r) ltac:(lia)) as E1.
  pose proof (decInt_ok (- 2 ^ 63) (2 ^ 63 - 1) 0 (jq_TsUnixMs r) ltac:(lia)) as E2.
  unfold decEntry, decStruct, entryJSON. cbn [noEntry we_SessionID we_AllocationID we_Seq we_TsUnixMs we_Path we_Op we_AgentID
    we_BeforeVersion we_AfterVersion we_RenameFrom we_SizeBefore we_SizeAfter].
  match goal with |- context [fill decStr (str "session_id") [] ?o] => set (entry := o) end.
  assert (fill decStr (str "session_id") [] entry = (jq_SessionID r, true)) as -> by field_tac.
  assert (fill decStr (str "allocation_id") [] entry = (jq_AllocationID r, true)) as -> by field_tac.
  assert (fill decUint64 (str "seq") 0 entry = (jq_Seq r, true)) as ->.
  { eapply fill_seq; [cbn -[decInt]; unfold decUint64; rewrite E1; reflexivity |]. repeat (eapply fill_seq; [piece_tac |]); piece_tac. }
  assert (fill decInt64 (str "ts_unix_ms") 0 entry = (jq_TsUnixMs r, true)) as ->.
  { eapply fill_seq; [cbn -[decInt]; unfold decInt64; rewrite E2; reflexivity |]. repeat (eapply fill_seq; [piece_tac |]); piece_tac. }
  assert (fill decStr (str "path") [] entry = (jq_Path r, true)) as -> by field_tac.
  assert (fill decStr (str "op") [] entry = (opText (jq_Op r), true)) as -> by field_tac.
  assert (fill decStr (str "agent_id") [] entry = (jq_AgentID r, true)) as -> by field_tac.
  assert (fill (decPtr 0 decUint64) (str "before_version") None entry = (jq_BeforeVersion r, true)) as -> by field_tac.
  assert (fill (decPtr 0 decUint64) (str "after_version") None entry = (jq_AfterVersion r, true)) as -> by field_tac.
  assert (fill decStr (str "rename_from") [] entry = (jq_RenameFrom r, true)) as -> by field_tac.
  assert (fill (decPtr 0 decUint64) (str "size_before") None entry = (jq_SizeBefore r, true)) as -> by field_tac.
  assert (fill (decPtr 0 decUint64) (str "size_after") None entry = (jq_SizeAfter r, true)) as -> by field_tac.
  reflexivity.
Qed.

Lemma plain_entry r : row_ok r -> plain (entryJSON r) = true.
Proof.
  intros (_ & _ & _ & _ & _ & _ & Ha). rewrite !forallb_app, !andb_true_iff in Ha. destruct Ha as (H1 & H2 & H3 & H4 & H5).
  assert (forallb is_ascii (opText (jq_Op r)) = true) as H6 by (by destruct (jq_Op r)).
  assert (forall name p, forallb is_ascii name = true ->
    forallb (fun kv : gostr * json => forallb is_ascii kv.1 && plain kv.2) (omit_nil name p) = true) as Hn.
  { intros name [z|] Hname; [| done]. cbn -[is_ascii]. by rewrite Hname. }
  assert (forallb (fun kv : gostr * json => forallb is_ascii kv.1 && plain kv.2) (omit_empty (str "rename_from") (jq_RenameFrom r)) = true) as He.
  { unfold omit_empty. case_decide; [done |]. cbn -[is_ascii]. by rewrite H5. }
  unfold entryJSON. cbn [plain]. rewrite !forallb_app, !Hn, He by done. cbn -[is_ascii]. by rewrite H1, H2, H3, H4, H6.
Qed.

(** ** Pages *)

Definition pageJSON (rows : list JournalQueryRow) (next : gostr) : json :=
  JObj ((str "entries", JArr (entryJSON <$> rows)) :: omit_empty (str "next_cursor") next).

Lemma decEntries_ok rows :
  Forall row_ok rows -> decList noEntry decEntry [] (JArr (entryJSON <$> rows)) = (wireEntry <$> rows, true).
Proof.
  induction 1 as [|r rows Hr HF IH]; [done |]. cbn [decList] in *. rewrite !fmap_cons.
  cbn [forallb]. rewrite decEntry_ok by done. cbn [fst snd andb].
  injection IH as IH1 IH2. by rewrite IH1, IH2.
Qed.

Lemma decPage_ok rows next :
  Forall row_ok rows -> decPage (mkJournalPage [] []) (pageJSON rows next) = (mkJournalPage (wireEntry <$> rows) next, true).
Proof.
  intros HF. unfold decPage, decStruct, pageJSON. cbn [jp_Entries jp_NextCursor].
  change ((str "entries", JArr (entryJSON <$> rows)) :: omit_empty (str "next_cursor") next) with
    ([(str "entries", JArr (entryJSON <$> rows))] ++ omit_empty (str "next_cursor") next).
  rewrite (fill_seq _ _ _ _ _ (wireEntry <$> rows) (wireEntry <$> rows)).
  - by rewrite (fill_seq _ _ _ _ _ [] next); [| reflexivity | apply fill_omit_empty].
  - cbn [fill]. rewrite decide_True by done. by rewrite decEntries_ok.
  - apply (fill_other _ _ _ _ _ (omit_empty_keys _ _)). vm_compute. discriminate.
Qed.

Lemma plain_page rows next : Forall row_ok rows -> forallb is_ascii next = true -> plain (pageJSON rows next) = true.
Proof.
  intros HF Hn. unfold pageJSON. cbn [plain forallb]. rewrite !andb_true_iff. split; [split; [done |] |].
  - cbn [snd plain]. apply forallb_forall. intros v (r & -> & Hr)%list_elem_of_In%list_elem_of_fmap.
    apply plain_entry. rewrite Forall_forall in HF. by apply HF.
  - unfold omit_empty. case_decide; [done |]. cbn -[is_ascii]. by rewrite Hn.
Qed.

(** ** The query of a call *)

Lemma query_params alloc limit cursor :
  0 <= limit < 2 ^ 32 ->
  let q := setNonEmpty (str "cursor") cursor (setLimit limit (setNonEmpty (str "allocation_id") alloc [])) in
  vGet (str "allocation_id") q = alloc /\ ParseUint 32 (vGet (str "limit") q) = limit /\ vGet (str "cursor") q = cursor /\
  vGet (str "after_seq") q = [].
Proof.
  intros Hl q. subst q. unfold setNonEmpty, setLimit. pose proof (ParseUint_FormatInt 32 limit ltac:(lia) Hl) as Hp.
  destruct (decide (alloc = [])) as [->|], (Z.ltb_spec 0 limit), (decide (cursor = [])) as [->|];
    (split; [reflexivity | split; [| split; reflexivity]]);
    first [exact Hp | replace limit with 0 by lia; reflexivity].
Qed.

Lemma after_params alloc limit after :
  0 <= limit < 2 ^ 32 -> 0 <= after < 2 ^ 64 ->
  let q := vSet (str "after_seq") (FormatInt after) (setLimit limit (setNonEmpty (str "allocation_id") alloc [])) in
  vGet (str "allocation_id") q = alloc /\ ParseUint 32 (vGet (str "limit") q) = limit /\
  vGet (str "after_seq") q = FormatInt after.
Proof.
  intros Hl Ha q. subst q. unfold setNonEmpty, setLimit. pose proof (ParseUint_FormatInt 32 limit ltac:(lia) Hl) as Hp.
  destruct (decide (alloc = [])) as [->|], (Z.ltb_spec 0 limit);
    (split; [reflexivity | split; [| reflexivity]]); first [exact Hp | replace limit with 0 by lia; reflexivity].
Qed.

(** ** Lines of a stream *)

Lemma scan_line max acc l rest :
  newline ∉ l -> (length acc + length l < max)%nat ->
  scan_lines max acc (l ++ newline :: rest) = dropCR (acc ++ l) :: scan_lines max [] rest.
Proof.
  revert acc. induction l as [|c l IH]; intros acc Hn Hl; cbn [app scan_lines].
  - rewrite (proj2 (Nat.leb_gt _ _)) by (cbn in Hl; lia). by rewrite decide_True, app_nil_r.
  - apply not_elem_of_cons in Hn as [Hc Hn]. cbn in Hl. rewrite (proj2 (Nat.leb_gt _ _)) by lia.
    rewrite decide_False by congruence. rewrite IH; [by rewrite <- app_assoc | done | rewrite length_app; cbn; lia].
Qed.

Lemma dropCR_printable l : Forall (fun c => 32 <= byteval c) l -> dropCR l = l.
Proof.
  intros HF. unfold dropCR. destruct (last l) as [c|] eqn:El; [| done].
  rewrite decide_False; [done |]. intros ->. apply last_Some in El as [l' ->].
  apply Forall_app in HF as [_ HF]. by apply Forall_cons in HF as [HF _].
Qed.

Lemma printable_no_newline l : Forall (fun c => 32 <= byteval c) l -> newline ∉ l.
Proof. intros HF Hin. rewrite Forall_forall in HF. by pose proof (HF _ Hin). Qed.

Section data.
Context {J : JsonText} {JL : JsonTextLaws J} {M : Mux} {ML : MuxLaws M} {MP : MsgPack}.
Context (validHost : gostr -> bool) (host trustDomain : gostr) (cert : Certificate).
Context (now : Z) (order : list (gostr * list chunkBatchItem) -> list (gostr * list chunkBatchItem)).
Context (events : list (option SessionJournalEntry)) (parseTime : gostr -> option (option Z)) (message : gostr).
Context (elsewhere : handlers dataServer).

Abbreviation DoData := (over validHost trustDomain cert (dataHandlers now order events parseTime message elsewhere)).

(** *** Streams *)

Lemma jUnmarshal_obj v : isObj v = true -> plain v = true -> jUnmarshal (jMarshal v) = Some v.
Proof. destruct v; try done. intros _. apply jUnmarshal_Marshal. Qed.

Lemma stream_data max r rest :
  row_ok r -> (6 + length (jMarshal (entryJSON r)) < max)%nat ->
  stream_entries max (writeSSEEntry r ++ rest) = wireEntry r :: stream_entries max rest.
Proof.
  intros Hr Hl. unfold stream_entries, writeSSEEntry.
  assert (Forall (fun c => 32 <= byteval c) (str "data: " ++ jMarshal (entryJSON r))) as HF.
  { apply Forall_app. split; [by vm_compute; repeat constructor | apply jMarshal_printable]. }
  replace ((str "data: " ++ jMarshal (entryJSON r) ++ [newline; newline]) ++ rest) with
    ((str "data: " ++ jMarshal (entryJSON r)) ++ newline :: [] ++ newline :: rest) by (by rewrite <- !app_assoc).
  rewrite scan_line; [| by apply printable_no_newline | rewrite length_app; cbn; lia].
  rewrite scan_line; [| set_solver | cbn; lia]. cbn [app omap list_omap].
  rewrite dropCR_printable by done.
  replace (stream_line (str "data: " ++ jMarshal (entryJSON r))) with (Some (wireEntry r)); [done |].
  unfold stream_line. cbn [str app String.list_ascii_of_string]. rewrite decide_False by done.
  replace (HasPrefix _ _) with true; [| symmetry; apply bool_decide_true; by eexists].
  cbn [negb]. rewrite !skipn_cons, skipn_0, jUnmarshal_obj by (done || by apply plain_entry). by rewrite decEntry_ok.
Qed.

Lemma stream_keepalive max rest : (11 < max)%nat -> stream_entries max (keepalive ++ rest) = stream_entries max rest.
Proof.
  intros Hl. unfold stream_entries, keepalive.
  replace ((str ": keepalive" ++ [newline; newline]) ++ rest) with (str ": keepalive" ++ newline :: [] ++ newline :: rest)
    by (by rewrite <- app_assoc).
  rewrite scan_line; [| vm_compute; set_solver | cbn; lia]. rewrite scan_line; [| set_solver | cbn; lia]. reflexivity.
Qed.

(** What a live loop sends fits the scanner. *)
Definition fits_scanner (r : JournalQueryRow) : Prop := row_ok r /\ (6 + length (jMarshal (entryJSON r)) < scanBuffer)%nat.

Lemma stream_loop_entries highest evs :
  Forall fits_scanner (stream_live highest (omap id evs)) ->
  stream_entries scanBuffer (sse_loop highest evs) = wireEntry <$> stream_live highest (omap id evs).
Proof.
  revert highest. induction evs as [|[e|] evs IH]; intros highest HF; [done | |].
  - cbn [omap list_omap id] in *. cbn [stream_live sse_loop] in *. destruct (je_Seq e <=? highest); [by apply IH |].
    apply Forall_cons in HF as [[Hr Hl] HF]. rewrite stream_data by done. rewrite fmap_cons. f_equal. by apply IH.
  - cbn [sse_loop]. rewrite stream_keepalive by (unfold scanBuffer; lia). by apply IH.
Qed.

Lemma stream_catchup rows rest :
  Forall fits_scanner rows ->
  stream_entries scanBuffer ((rows ≫= writeSSEEntry) ++ rest) = (wireEntry <$> rows) ++ stream_entries scanBuffer rest.
Proof.
  induction 1 as [|r rows [Hr Hl] HF IH]; [done |]. rewrite bind_cons, <- app_assoc, stream_data by done.
  rewrite fmap_cons. cbn [app]. by rewrite IH.
Qed.

(** *** Calls *)

Lemma QueryJournal_served id alloc limit cursor s t rows next :
  linked validHost host trustDomain cert -> tenantIDRe id = true -> 0 <= limit < 2 ^ 32 -> ds_tenants s !! id = Some t ->
  tenantJournalQuery alloc limit cursor None (st_db (dt_store t)) = JPage rows next ->
  Forall row_ok rows -> forallb is_ascii next = true ->
  QueryJournal validHost DoData host id alloc limit cursor s = (Ok (mkJournalPage (wireEntry <$> rows) next), s).
Proof.
  intros HL Hid Hl Ht Hq HF Hn. pose proof (tenantIDRe_url _ Hid) as Hu. unfold QueryJournal.
  set (q := setNonEmpty (str "cursor") cursor _).
  assert (journalURL host id q = callURL host [ctl; tns; id; str "journal"] (Some q)) as -> by (unfold journalURL; url_tac).
  serve_tac host [ctl; tns; id; str "journal"] (Some q) [Lit ctl; Lit tns; Param; Lit (str "journal")] RJournal [id].
  cbn [dataHandlers i_params i_query default from_option Datatypes.id]. unfold journalHandler, withTenant. rewrite Hid, Ht. cbn [negb].
  pose proof (query_params alloc limit cursor Hl) as Q. cbv zeta in Q. fold q in Q. destruct Q as (-> & -> & -> & ->). rewrite decide_True by done. rewrite Hq.
  fold (pageJSON rows next).
  by rewrite (read_json _ _ _ _ (mkJournalPage (wireEntry <$> rows) next)); [| | | apply plain_page | apply decPage_ok].
Qed.

Lemma QueryJournalAfterSeq_served id alloc limit after s t rows next :
  linked validHost host trustDomain cert -> tenantIDRe id = true -> 0 <= limit < 2 ^ 32 -> 0 <= after < 2 ^ 64 ->
  ds_tenants s !! id = Some t ->
  tenantJournalQuery alloc limit [] (Some after) (st_db (dt_store t)) = JPage rows next ->
  Forall row_ok rows -> forallb is_ascii next = true ->
  QueryJournalAfterSeq validHost DoData host id alloc limit after s = (Ok (mkJournalPage (wireEntry <$> rows) next), s).
Proof.
  intros HL Hid Hl Ha Ht Hq HF Hn. pose proof (tenantIDRe_url _ Hid) as Hu. unfold QueryJournalAfterSeq.
  set (q := vSet (str "after_seq") _ _).
  assert (journalURL host id q = callURL host [ctl; tns; id; str "journal"] (Some q)) as -> by (unfold journalURL; url_tac).
  serve_tac host [ctl; tns; id; str "journal"] (Some q) [Lit ctl; Lit tns; Param; Lit (str "journal")] RJournal [id].
  cbn [dataHandlers i_params i_query default from_option Datatypes.id]. unfold journalHandler, withTenant. rewrite Hid, Ht. cbn [negb].
  pose proof (after_params alloc limit after Hl Ha) as Q. cbv zeta in Q. fold q in Q. destruct Q as (-> & -> & ->).
  rewrite decide_False by (by apply FormatInt_nonempty). rewrite ParseUint_FormatInt by lia.
  replace (tenantJournalQuery _ _ _ _ _) with (JPage rows next) by exact (eq_sym Hq).
  fold (pageJSON rows next).
  by rewrite (read_json _ _ _ _ (mkJournalPage (wireEntry <$> rows) next)); [| | | apply plain_page | apply decPage_ok].
Qed.

(** The entries that arrive are the rows that the server's stream sends. *)
Lemma StreamJournal_served id alloc after s t rows :
  linked validHost host trustDomain cert -> tenantIDRe id = true -> 0 <= after < 2 ^ 64 -> alloc <> [] ->
  ds_tenants s !! id = Some t ->
  tenantJournalStream alloc after (st_db (dt_store t)) (omap (fun e => e) events) = Some rows -> Forall fits_scanner rows ->
  StreamJournal validHost DoData host id alloc after s = (Some (wireEntry <$> rows), s).
Proof.
  intros HL Hid Ha Hne Ht Hr HF. pose proof (tenantIDRe_url _ Hid) as Hu. unfold StreamJournal.
  set (q := if 0 <? after then _ else _).
  assert (vGet (str "allocation_id") q = alloc /\ ParseUint 64 (vGet (str "after_seq") q) = after) as [Eq1 Eq2].
  { subst q. pose proof (ParseUint_FormatInt 64 after ltac:(lia) Ha) as Hp.
    destruct (Z.ltb_spec 0 after); (split; [reflexivity |]); [exact Hp |]. replace after with 0 by lia. reflexivity. }
  pose proof HL as (Hv & Hh & _).
  assert (tenantURL host id ++ str "/journal/stream" = callURL host [ctl; tns; id; str "journal"; str "stream"] None) as Eu
    by url_tac.
  assert (Forall url_seg [ctl; tns; id; str "journal"; str "stream"]) as Hsegs.
  { repeat (apply Forall_cons; split; [first [assumption | by repeat constructor] |]); constructor. }
  replace (parseURL validHost (tenantURL host id ++ str "/journal/stream")) with
    (Some (mkUrl host (mkpath [ctl; tns; id; str "journal"; str "stream"]) [])).
  2:{ rewrite Eu. symmetry. by apply (parseURL_client validHost host Hv Hh _ None). }
  assert ((tenantURL host id ++ str "/journal/stream") ++ str "?" ++ Encode q
          = callURL host [ctl; tns; id; str "journal"; str "stream"] (Some q)) as -> by url_tac.
  rewrite (served _ host _ _ _ _ [ctl; tns; id; str "journal"; str "stream"] (Some q) None
    [Lit ctl; Lit tns; Param; Lit (str "journal"); Lit (str "stream")] RStream [id]); reach_tac.
  cbn [dataHandlers i_params i_query default from_option Datatypes.id]. unfold streamHandler, withTenant. rewrite Hid, Ht. cbn [negb].
  rewrite Eq1, Eq2, decide_False by done. cbn [hr_Status hr_Body]. f_equal. cbn [Z.eqb Pos.eqb]. f_equal.
  unfold tenantJournalStream in Hr. destruct (QueryAfterSeq _ _ _ _) as [catchUp|]; [| done]. injection Hr as <-.
  apply Forall_app in HF as [HF1 HF2]. rewrite stream_catchup, fmap_app by done. f_equal. by apply stream_loop_entries.
Qed.

Definition leaseSegs (id alloc : gostr) : list gostr := [ctl; tns; id; str "allocations"; alloc; str "mount-lease"].
Definition leasePattern : list segment := [Lit ctl; Lit tns; Param; Lit (str "allocations"); Param; Lit (str "mount-lease")].

Lemma mountLeaseURL_call id alloc : mountLeaseURL host id alloc = callURL host (leaseSegs id alloc) None.
Proof. unfold mountLeaseURL, leaseSegs. url_tac. Qed.

Lemma url_seg_nonempty a : url_seg a -> a <> [].
Proof. by intros []. Qed.

Lemma ProbeMountSession_served id alloc s :
  linked validHost host trustDomain cert -> tenantIDRe id = true -> url_seg alloc ->
  ProbeMountSession validHost DoData host id alloc s = (Ok (sessionLive now id alloc s), s).
Proof.
  intros HL Hid Hal. pose proof (tenantIDRe_url _ Hid) as Hu. pose proof (url_seg_nonempty _ Hal) as Hne.
  unfold ProbeMountSession. rewrite mountLeaseURL_call.
  serve_tac host (leaseSegs id alloc) (@None values) leasePattern RMountStatus [id; alloc].
  cbn [dataHandlers i_params]. unfold mountSessionStatus. rewrite Hid, decide_False by done. cbn [negb].
  by rewrite (read_json _ _ _ _ (sessionLive now id alloc s)).
Qed.

Lemma ClearActiveMountLease_served id alloc s t :
  linked validHost host trustDomain cert -> tenantIDRe id = true -> url_seg alloc -> ds_tenants s !! id = Some t ->
  ClearActiveMountLease validHost DoData host id alloc s =
  (Ok tt, mkDataServer (ds_tenants s) (Clear alloc (ds_reg s)) (ds_quota s) (ds_deny s)).
Proof.
  intros HL Hid Hal Ht. pose proof (tenantIDRe_url _ Hid) as Hu. pose proof (url_seg_nonempty _ Hal) as Hne.
  unfold ClearActiveMountLease. rewrite mountLeaseURL_call.
  serve_tac host (leaseSegs id alloc) (@None values) leasePattern RClearLease [id; alloc].
  cbn [dataHandlers i_params]. unfold clearActiveMountLease, withTenant. rewrite Hid, Ht, decide_False by done. reflexivity.
Qed.

Lemma GetTenantUsage_served id s t :
  linked validHost host trustDomain cert -> tenantIDRe id = true -> ds_tenants s !! id = Some t ->
  - 2 ^ 63 <= (UsedBytes (st_db (dt_store t))).1 < 2 ^ 63 ->
  - 2 ^ 63 <= default 0 (snd <$> Lookup id (ds_quota s)) < 2 ^ 63 ->
  GetTenantUsage validHost DoData host id s =
  (Ok (mkUsageAnswer id (UsedBytes (st_db (dt_store t))).1 (default 0 (snd <$> Lookup id (ds_quota s)))), s).
Proof.
  intros HL Hid Ht H1 H2. pose proof (tenantIDRe_url _ Hid) as Hu. unfold GetTenantUsage.
  assert (tenantURL host id ++ str "/usage" = callURL host [ctl; tns; id; str "usage"] None) as -> by url_tac.
  serve_tac host [ctl; tns; id; str "usage"] (@None values) [Lit ctl; Lit tns; Param; Lit (str "usage")] RUsage [id].
  cbn [dataHandlers i_params]. unfold tenantUsage, withTenant. rewrite Hid, Ht. cbn [negb].
  revert H1 H2. generalize (UsedBytes (st_db (dt_store t))).1 (default 0 (snd <$> Lookup id (ds_quota s))). intros u z H1 H2.
  pose proof (decInt_ok (- 2 ^ 63) (2 ^ 63 - 1) 0 u ltac:(lia)) as E1.
  pose proof (decInt_ok (- 2 ^ 63) (2 ^ 63 - 1) 0 z ltac:(lia)) as E2.
  rewrite (read_json _ _ _ _ (mkUsageAnswer id u z)); [done | done | done | |].
  - cbn -[is_ascii]. by rewrite (tenantIDRe_ascii _ Hid).
  - unfold decUsage, decStruct. cbn -[decInt]. unfold decInt64. by rewrite E1, E2.
Qed.

(** *** Purging an agent *)

Lemma PurgeAgentData_unknown id agent s :
  linked validHost host trustDomain cert -> tenantIDRe id = true -> tenantIDRe agent = true ->
  ds_tenants s !! id = None -> forallb is_ascii message = true ->
  PurgeAgentData validHost DoData host id agent s = (Ok (mkAgentPurge 0 0 0), s).
Proof.
  intros HL Hid Hag Ht Hm. pose proof (tenantIDRe_url _ Hid) as Hu. pose proof (tenantIDRe_url _ Hag) as Hua.
  unfold PurgeAgentData.
  assert (tenantURL host id ++ str "/agents/" ++ agent = callURL host [ctl; tns; id; str "agents"; agent] None) as -> by url_tac.
  serve_tac host [ctl; tns; id; str "agents"; agent] (@None values) [Lit ctl; Lit tns; Param; Lit (str "agents"); Param]
    RPurgeAgent [id; agent].
  cbn [dataHandlers i_params]. unfold purgeHandler. rewrite Hid, tenantIDRe_agent, Ht by done. cbn [negb].
  by rewrite read_error.
Qed.

Lemma PurgeAgentData_served id agent s t p d cs :
  linked validHost host trustDomain cert -> tenantIDRe id = true -> tenantIDRe agent = true ->
  ds_tenants s !! id = Some t ->
  purgeAgentSubtree order now agent (st_db (dt_store t)) (dt_chunks t) = (Ok p, d, cs) ->
  0 <= pr_ManifestsDeleted p < 2 ^ 63 -> 0 <= pr_ChunkRowsDeleted p < 2 ^ 63 -> 0 <= pr_BytesFreed p < 2 ^ 64 ->
  exists s', PurgeAgentData validHost DoData host id agent s =
    (Ok (mkAgentPurge (pr_ManifestsDeleted p) (pr_ChunkRowsDeleted p) (pr_BytesFreed p)), s') /\
    exists t', ds_tenants s' !! id = Some t' /\ st_db (dt_store t') = d /\ dt_chunks t' = cs.
Proof.
  intros HL Hid Hag Ht Hp H1 H2 H3. pose proof (tenantIDRe_url _ Hid) as Hu. pose proof (tenantIDRe_url _ Hag) as Hua.
  unfold PurgeAgentData.
  assert (tenantURL host id ++ str "/agents/" ++ agent = callURL host [ctl; tns; id; str "agents"; agent] None) as -> by url_tac.
  serve_tac host [ctl; tns; id; str "agents"; agent] (@None values) [Lit ctl; Lit tns; Param; Lit (str "agents"); Param]
    RPurgeAgent [id; agent].
  cbn [dataHandlers i_params]. unfold purgeHandler. rewrite Hid, tenantIDRe_agent, Ht, Hp by done. cbn [negb].
  pose proof (decInt_ok (- 2 ^ 63) (2 ^ 63 - 1) 0 (pr_ManifestsDeleted p) ltac:(lia)) as E1.
  pose proof (decInt_ok (- 2 ^ 63) (2 ^ 63 - 1) 0 (pr_ChunkRowsDeleted p) ltac:(lia)) as E2.
  pose proof (decInt_ok 0 (2 ^ 64 - 1) 0 (pr_BytesFreed p) ltac:(lia)) as E3.
  rewrite (read_json _ _ _ _ (mkAgentPurge (pr_ManifestsDeleted p) (pr_ChunkRowsDeleted p) (pr_BytesFreed p)));
    [| done | done | |].
  - eexists. split; [reflexivity |]. eexists. split; [apply lookup_insert_eq | by split].
  - cbn -[is_ascii]. by rewrite (tenantIDRe_ascii _ Hid), (tenantIDRe_ascii _ Hag).
  - unfold decPurge, decStruct. cbn -[decInt]. unfold decInt64, decUint64. by rewrite E1, E2, E3.
Qed.

(** *** Reverting *)

(** The answer to a revert as the client has it. *)
Definition seenRevert (r : controlRevertReply) : result apiErr JournalRevertResult :=
  match r with
  | RevertBadRequest code => Err (ApiAdmin 400 (str code) message)
  | RevertServerError => Err (ApiAdmin 500 (str "revert_failed") [])
  | RevertOk => Ok (mkRevertResult true None)
  | RevertNotOk reason => Ok (mkRevertResult false (Some (str reason)))
  end.

Definition reply_ascii (r : controlRevertReply) : Prop :=
  match r with RevertBadRequest c | RevertNotOk c => forallb is_ascii (str c) = true | _ => True end.

Lemma RevertJournalPath_served id req s t :
  linked validHost host trustDomain cert -> tenantIDRe id = true -> ds_tenants s !! id = Some t ->
  forallb is_ascii (cr_AllocationID req ++ cr_SessionID req ++ cr_Path req ++ cr_AgentID req) = true ->
  0 <= cr_Seq req < 2 ^ 64 -> forallb is_ascii message = true ->
  let x := tenantJournalRevert now req (ds_reg s) (dt_store t) in
  reply_ascii x.1 ->
  RevertJournalPath validHost DoData host id (cr_AllocationID req) (cr_SessionID req) (cr_Path req) (cr_Seq req) (cr_Force req)
    (cr_AgentID req) s
  = (seenRevert x.1, set_data <[id := mkData x.2 (dt_leases t) (dt_chunks t)]> s).
Proof.
  intros HL Hid Ht Ha Hs Hm x Hx. pose proof (tenantIDRe_url _ Hid) as Hu. unfold RevertJournalPath.
  rewrite !forallb_app, !andb_true_iff in Ha. destruct Ha as (H1 & H2 & H3 & H4).
  set (body := revertBody _ _ _ _ _ _).
  assert (plain body = true) as Hb by (subst body; unfold revertBody; cbn -[is_ascii]; by rewrite H1, H2, H3, H4).
  assert (tenantURL host id ++ str "/journal/revert" = callURL host [ctl; tns; id; str "journal"; str "revert"] None) as ->
    by url_tac.
  serve_tac host [ctl; tns; id; str "journal"; str "revert"] (@None values)
    [Lit ctl; Lit tns; Param; Lit (str "journal"); Lit (str "revert")] RRevert [id].
  cbn [dataHandlers i_params]. unfold revertHandler, withTenant. rewrite Hid, Ht. cbn [negb].
  assert (bodyOf decRevertRequest (mkRevertReq [] [] [] 0 false []) (mkInput [id] (default [] None) (Some body)) = Some req) as ->.
  { pose proof (decInt_ok 0 (2 ^ 64 - 1) 0 (cr_Seq req) ltac:(lia)) as E. subst body.
    unfold bodyOf, decRevertRequest, decStruct, revertBody. cbn -[decInt]. unfold decUint64. rewrite E. by destruct req. }
  fold x. destruct x as [r st]. cbn [fst snd] in *. f_equal. destruct r as [c| | |c]; cbn [seenRevert].
  - by rewrite read_error.
  - by rewrite read_error.
  - by rewrite (read_json _ _ _ _ (mkRevertResult true None)).
  - rewrite (read_json _ _ _ _ (mkRevertResult false (Some (str c)))); [done | done | done | | reflexivity].
    cbn -[is_ascii str]. cbn in Hx. by rewrite Hx.
Qed.
End data.
