(* ===== verification/JournalProxy.v ===== *)
(** * The journal over the control plane

    orlop-control/journal_handlers.go and journal_stream_handler.go: an owner reads the
    journal of a disk, reverts an entry or follows the live entries; main.go: the
    adapter that finds the server of the tenant and calls it (AdminApi.v).

    The state of the other side of the HTTP client is carried along.  The loop of the
    stream is a function of what its select takes up, one event after the other, each
    with the outcome of the write it leads to. *)

From S2P Require Import Prelude GoPath CtlStore Allocations Enroll Provision Mounts Http AdminApi.

(** ** The adapter *)

(** [journalEntryJSON] has the fields of the client's entries. *)
Abbreviation journalEntryJSON := JournalEntry.

Definition fromServerJournalEntry (e : JournalEntry) : journalEntryJSON :=
  mkWireEntry (we_SessionID e) (we_AllocationID e) (we_Seq e) (we_TsUnixMs e) (we_Path e) (we_Op e) (we_AgentID e)
    (we_BeforeVersion e) (we_AfterVersion e) (we_RenameFrom e) (we_SizeBefore e) (we_SizeAfter e).

Definition reasonNoJournalRow : gostr := str "no_journal_row".

(** [journalQuerier]: the calls of the handlers on the tables of the control plane and
    the world of the servers; [None] is an error. *)
Class journalQuerier (W : Type) := {
  jqQuery : gostr -> gostr -> Z -> gostr -> cdb -> W -> option (list journalEntryJSON * gostr) * W;
  jqAfterSeq : gostr -> gostr -> Z -> Z -> cdb -> W -> option (list journalEntryJSON) * W;
  jqStream : gostr -> gostr -> Z -> cdb -> W -> option (list journalEntryJSON) * W;
  jqRevert : gostr -> gostr -> gostr -> gostr -> Z -> bool -> gostr -> cdb -> W -> option JournalRevertResult * W }.

Section adapter.
Context {J : JsonText} (validHost : gostr -> bool) {W : Type} (Do : httpRequest -> W -> option httpResponse * W).

Definition forget_err {A} (x : result apiErr A * W) : option A * W :=
  (match x.1 with Ok a => Some a | Err _ => None end, x.2).

(** The server of a tenant; without one [idle] is the answer. *)
Definition onServer {A} (tenantID : gostr) (idle : A) (k : gostr -> W -> option A * W) (d : cdb) (w : W) : option A * W :=
  match resolveTenantOpsAddr tenantID d with
  | Err _ => (None, w)
  | Ok None => (Some idle, w)
  | Ok (Some opsAddr) => k opsAddr w
  end.

Definition adapterQuery (tenantID allocationID : gostr) (limit : Z) (cursor : gostr)
    : cdb -> W -> option (list journalEntryJSON * gostr) * W :=
  onServer tenantID ([], []) (fun ops w =>
    let '(r, w') := forget_err (QueryJournal validHost Do ops tenantID allocationID limit cursor w) in
    ((fun p => (fromServerJournalEntry <$> jp_Entries p, jp_NextCursor p)) <$> r, w')).

Definition adapterAfterSeq (tenantID allocationID : gostr) (limit afterSeq : Z)
    : cdb -> W -> option (list journalEntryJSON) * W :=
  onServer tenantID [] (fun ops w =>
    let '(r, w') := forget_err (QueryJournalAfterSeq validHost Do ops tenantID allocationID limit afterSeq w) in
    ((fun p => fromServerJournalEntry <$> jp_Entries p) <$> r, w')).

(** The goroutine that copies the entries. *)
Definition adapterStream (tenantID allocationID : gostr) (afterSeq : Z) : cdb -> W -> option (list journalEntryJSON) * W :=
  onServer tenantID [] (fun ops w =>
    let '(r, w') := StreamJournal validHost Do ops tenantID allocationID afterSeq w in
    ((fun es : list JournalEntry => fromServerJournalEntry <$> es) <$> r, w')).

Definition adapterRevert (tenantID allocationID sessionID path : gostr) (seq : Z) (force : bool) (agentID : gostr)
    : cdb -> W -> option JournalRevertResult * W :=
  onServer tenantID (mkRevertResult false (Some reasonNoJournalRow)) (fun ops w =>
    forget_err (RevertJournalPath validHost Do ops tenantID allocationID sessionID path seq force agentID w)).

Definition serverapiJournalAdapter : journalQuerier W := {|
  jqQuery := adapterQuery; jqAfterSeq := adapterAfterSeq; jqStream := adapterStream; jqRevert := adapterRevert |}.
End adapter.

(** ** The handlers *)

Record journalRevertRequest := mkJournalRevert {
  jr_AllocationID : gostr; jr_SessionID : gostr; jr_Path : gostr; jr_Seq : Z; jr_Force : bool }.

Definition decJournalRevert : dec journalRevertRequest := decStruct (fun cur o =>
  let '(a, b1) := fill decStr (str "allocation_id") (jr_AllocationID cur) o in
  let '(b, b2) := fill decStr (str "session_id") (jr_SessionID cur) o in
  let '(c, b3) := fill decStr (str "path") (jr_Path cur) o in
  let '(d, b4) := fill decUint64 (str "seq") (jr_Seq cur) o in
  let '(e, b5) := fill decBool (str "force") (jr_Force cur) o in
  (mkJournalRevert a b c d e, b1 && b2 && b3 && b4 && b5)).

(** A text frame of the WebSocket. *)
Inductive journalWSFrame := WSAppended (entry : journalEntryJSON) | WSPing.

(** What the select of the loop takes up; the flag is whether the write succeeds. *)
Inductive wsEvent := WSUpstream (sent : bool) | WSTick (sent : bool) | WSClientClosed | WSContextDone.

(** [upstream]: what the channel delivers before it is closed. *)
Fixpoint wsLoop (upstream : list journalEntryJSON) (events : list wsEvent) : list journalWSFrame :=
  match events with
  | [] | WSClientClosed :: _ | WSContextDone :: _ => []
  | WSTick sent :: evs => if sent then WSPing :: wsLoop upstream evs else []
  | WSUpstream sent :: evs =>
      match upstream with
      | [] => []
      | e :: upstream' => if sent then WSAppended e :: wsLoop upstream' evs else []
      end
  end.

Section proxy.
Context (parseUUIDParam : gostr -> option uuid) (sha256 : gostr -> gostr).
Context {W : Type} {Q : journalQuerier W}.

(** [GetForUser] on the allocation of a request. *)
Definition ownsAllocation (allocationID : gostr) (ident : identity) : hdl identity :=
  match parseUUIDParam allocationID with
  | None => deny (badRequest "allocation_id must be a uuid")
  | Some u =>
      call (GetForUser u (in_UserID ident)) (fun r =>
        match r with Err x => deny (writeAllocOwnershipError x) | Ok _ => reply ident end)
  end.

Definition badGateway (code : string) : refusal := mkRefusal 502 code "".

Definition clampJournalLimit (raw : gostr) : Z :=
  let limit := ParseUint 32 raw in
  let limit := if limit =? 0 then 50 else limit in
  if 200 <? limit then 200 else limit.

Definition handleJournal (now : Z) (cookie : option gostr) (q : list (gostr * gostr)) (e : edb) (w : W)
    : result refusal (list journalEntryJSON * gostr) * edb * W :=
  let allocationID := vGet (str "allocation_id") q in
  let limit := clampJournalLimit (vGet (str "limit") q) in
  let afterSeqRaw := vGet (str "after_seq") q in
  match adminIdentity sha256 now cookie (fun ident =>
          if decide (allocationID = []) then reply ident else ownsAllocation allocationID ident) e with
  | (Err r, e') => (Err r, e', w)
  | (Ok ident, e') =>
      if decide (afterSeqRaw <> []) then
        if decide (allocationID = []) then (Err (badRequest "after_seq requires allocation_id"), e', w)
        else
          let '(r, w') := jqAfterSeq (in_TenantID ident) allocationID limit (ParseUint 64 afterSeqRaw) (e_db e') w in
          (match r with None => Err (badGateway "journal_query_failed") | Some es => Ok (es, []) end, e', w')
      else
        let '(r, w') := jqQuery (in_TenantID ident) allocationID limit (vGet (str "cursor") q) (e_db e') w in
        (match r with None => Err (badGateway "journal_query_failed") | Some p => Ok p end, e', w')
  end.

(** [body]: the JSON of the request, [None] when it is none. *)
Definition handleJournalRevert (now : Z) (cookie : option gostr) (body : option json) (e : edb) (w : W)
    : result refusal JournalRevertResult * edb * W :=
  match (v ← body; let '(r, ok) := decJournalRevert (mkJournalRevert [] [] [] 0 false) v in if (ok : bool) then Some r else None) with
  | None => (Err (badRequest "invalid json body"), e, w)
  | Some req =>
      if decide (jr_AllocationID req = []) then (Err (badRequest "allocation_id required"), e, w)
      else if decide (jr_Path req = []) then (Err (badRequest "path required"), e, w)
      else if jr_Seq req =? 0 then (Err (badRequest "seq required"), e, w)
      else
        match adminIdentity sha256 now cookie (ownsAllocation (jr_AllocationID req)) e with
        | (Err r, e') => (Err r, e', w)
        | (Ok ident, e') =>
            let agentID := str "user:" ++ uuidString (in_UserID ident) in
            let '(r, w') := jqRevert (in_TenantID ident) (jr_AllocationID req) (jr_SessionID req) (jr_Path req) (jr_Seq req)
                              (jr_Force req) agentID (e_db e') w in
            (match r with None => Err (badGateway "revert_failed") | Some x => Ok x end, e', w')
        end
  end.

(** [upgraded]: whether the upgrade to a WebSocket succeeds; a failed one has answered
    by itself ([Ok []] here, no frame is sent). *)
Definition handleJournalStream (now : Z) (cookie : option gostr) (q : list (gostr * gostr)) (upgraded : bool)
    (events : list wsEvent) (e : edb) (w : W) : result refusal (list journalWSFrame) * edb * W :=
  let allocationID := vGet (str "allocation_id") q in
  if decide (allocationID = []) then (Err (badRequest "allocation_id required"), e, w)
  else
    match adminIdentity sha256 now cookie (ownsAllocation allocationID) e with
    | (Err r, e') => (Err r, e', w)
    | (Ok ident, e') =>
        let '(r, w') := jqStream (in_TenantID ident) allocationID (ParseUint 64 (vGet (str "after_seq") q)) (e_db e') w in
        (match r with
         | None => Err (badGateway "stream_open_failed")
         | Some upstream => Ok (if upgraded then wsLoop upstream events else [])
         end, e', w')
    end.
End proxy.
