(* ===== verification/JournalProxyProps.v ===== *)
(** * Properties of the journal over the control plane

    An owner who follows the cursors reads every row of the disk once; the frames of
    the live stream are the rows that the server sends, in order; and nobody else's
    journal is asked for. *)

From S2P Require Import Prelude GoPath Codec TenantDB Journal Manifests Lease Revert ChunkStore Gc PubSub CtlStore Allocations Enroll Provision Mounts WireProps Quota QuotaProps Tenants Certs Http AdminApi AdminProps JournalWire JournalProxy.

(** ** Who is let through *)

Section access.
Context (parseUUIDParam : gostr -> option uuid) (sha256 : gostr -> gostr).

(** The disk of a request is a live one of the user. *)
Definition owned (allocationID : gostr) (ident : identity) (d : cdb) : Prop :=
  exists u a, parseUUIDParam allocationID = Some u /\ allocations d !! u = Some a /\
    of_user (in_UserID ident) a = true /\ live a = true.

(** The cookie is that of a live admin session. *)
Definition signedIn (now : Z) (cookie : option gostr) (ident : identity) (e : edb) : Prop :=
  exists raw, cookie = Some raw /\ authenticateRaw sha256 now raw PurposeAdmin e = Ok ident.

Lemma GetForUser_spec u v d :
  GetForUser u v d =
  (match allocations d !! u with
   | None => Err ErrNotFound
   | Some a => if negb (of_user v a) then Err ErrWrongUser else if negb (live a) then Err ErrRevoked else Ok a
   end, d).
Proof. unfold GetForUser, try, GetAllocation, read. destruct (allocations d !! u); [| done]. by repeat case_match. Qed.

Lemma ownsAllocation_ok alloc ident e :
  owned alloc ident (e_db e) -> ownsAllocation parseUUIDParam alloc ident e = (Ok ident, e).
Proof.
  intros (u & a & Hp & Ha & Ho & Hl). unfold ownsAllocation, call. rewrite Hp, GetForUser_spec, Ha, Ho, Hl.
  simpl. by destruct e.
Qed.

Lemma ownsAllocation_inv alloc ident e x e' :
  ownsAllocation parseUUIDParam alloc ident e = (x, e') ->
  e' = e /\ (forall i, x = Ok i -> i = ident /\ owned alloc ident (e_db e)).
Proof.
  unfold ownsAllocation, call, deny, reply. destruct (parseUUIDParam alloc) as [u|] eqn:Ep; [| by intros [= <- <-]; split].
  rewrite GetForUser_spec. intros H.
  assert (set_edb (e_db e) e = e) as Ee by (by destruct e).
  destruct (allocations (e_db e) !! u) as [a|] eqn:Ea; [| simpl in H; rewrite Ee in H; injection H as <- <-; by split].
  destruct (of_user (in_UserID ident) a) eqn:Eo; [| simpl in H; rewrite Ee in H; injection H as <- <-; by split].
  destruct (live a) eqn:El; simpl in H; rewrite Ee in H; [| injection H as <- <-; by split].
  injection H as <- <-. split; [done |]. intros i [= <-]. split; [done |]. by exists u, a.
Qed.

Lemma adminIdentity_ok {A} now cookie ident (k : identity -> hdl A) e :
  signedIn now cookie ident e -> adminIdentity sha256 now cookie k e = k ident e.
Proof. intros (raw & -> & H). unfold adminIdentity. by rewrite H. Qed.

Lemma adminIdentity_inv {A} now cookie (k : identity -> hdl A) e x e' :
  adminIdentity sha256 now cookie k e = (x, e') ->
  (exists r, x = Err r /\ e' = e) \/ (exists ident, signedIn now cookie ident e /\ k ident e = (x, e')).
Proof.
  unfold adminIdentity, signedIn. intros H. destruct cookie as [raw|]; [| injection H as <- <-; eauto].
  destruct (authenticateRaw sha256 now raw PurposeAdmin e) as [i|] eqn:Ea.
  - right. exists i. split; [by exists raw | done].
  - left. injection H as <- <-. eauto.
Qed.
End access.

(** ** Any querier *)

Section private.
Context (parseUUIDParam : gostr -> option uuid) (sha256 : gostr -> gostr) {W : Type} {Q : journalQuerier W}.

(** A request changes no table, and either is refused before anything is asked of a
    server, or is the one call for the tenant of the caller, who may make it. *)
Definition guarded {A} (now : Z) (cookie : option gostr) (may : identity -> Prop) (e : edb) (w : W)
    (calls : identity -> W -> Prop) (out : result refusal A * edb * W) : Prop :=
  let '(x, e', w') := out in
  e' = e /\
  ((exists ident, signedIn sha256 now cookie ident e /\ may ident /\ calls ident w') \/
   (is_ok x = false /\ w' = w)).

Lemma handleJournal_guarded now cookie q e w :
  let alloc := vGet (str "allocation_id") q in
  guarded now cookie (fun ident => alloc = [] \/ owned parseUUIDParam alloc ident (e_db e)) e w (fun ident w' =>
    (exists limit after, w' = (jqAfterSeq (in_TenantID ident) alloc limit after (e_db e) w).2) \/
    (exists limit cursor, w' = (jqQuery (in_TenantID ident) alloc limit cursor (e_db e) w).2))
    (handleJournal parseUUIDParam sha256 now cookie q e w).
Proof.
  intros alloc. unfold handleJournal. fold alloc.
  destruct (adminIdentity _ _ _ _ e) as [r e1] eqn:Ea.
  apply adminIdentity_inv in Ea as [(y & -> & ->)|(ident & Hs & Hk)]; [split; [done | by right] |].
  assert (e1 = e /\ (forall i, r = Ok i -> i = ident /\ (alloc = [] \/ owned parseUUIDParam alloc ident (e_db e)))) as [-> Hr].
  { case_decide as Hal.
    - unfold reply in Hk. injection Hk as <- <-. split; [done |]. intros i [= <-]. auto.
    - apply ownsAllocation_inv in Hk as [-> Hi]. split; [done |]. intros i Hi'. destruct (Hi i Hi') as [-> Hown]. auto. }
  destruct r as [i|]; [| split; [done | by right]]. destruct (Hr i eq_refl) as [-> Ho]. clear Hk.
  case_decide; [case_decide |].
  - split; [done | by right].
  - destruct (jqAfterSeq _ _ _ _ _ w) as [r w1] eqn:Eq. split; [done |].
    left. exists ident. split; [done |]. split; [done |]. left. do 2 eexists. by rewrite Eq.
  - destruct (jqQuery _ _ _ _ _ w) as [r w1] eqn:Eq. split; [done |].
    left. exists ident. split; [done |]. split; [done |]. right. do 2 eexists. by rewrite Eq.
Qed.

(** A handler that requires the disk. *)
Lemma owner_guarded {A} now cookie alloc e w (calls : identity -> W -> Prop) (k : identity -> edb -> W -> result refusal A * edb * W) :
  (forall ident, exists x w', k ident e w = (x, e, w') /\ calls ident w') ->
  guarded now cookie (fun ident => owned parseUUIDParam alloc ident (e_db e)) e w calls
    (match adminIdentity sha256 now cookie (ownsAllocation parseUUIDParam alloc) e with
     | (Err r, e1) => (Err r, e1, w)
     | (Ok ident, e1) => k ident e1 w
     end).
Proof.
  intros Hk. destruct (adminIdentity _ _ _ _ e) as [r e1] eqn:Ea.
  apply adminIdentity_inv in Ea as [(y & -> & ->)|(ident & Hs & Ho)]; [split; [done | by right] |].
  apply ownsAllocation_inv in Ho as [-> Hi]. destruct r as [i|]; [| split; [done | by right]].
  destruct (Hi i eq_refl) as [-> Ho]. destruct (Hk ident) as (x & w' & -> & Hc). split; [done |]. left. eauto.
Qed.

Lemma handleJournalStream_guarded now cookie q upgraded events e w :
  let alloc := vGet (str "allocation_id") q in
  guarded now cookie (fun ident => owned parseUUIDParam alloc ident (e_db e)) e w (fun ident w' => exists after, w' = (jqStream (in_TenantID ident) alloc after (e_db e) w).2)
    (handleJournalStream parseUUIDParam sha256 now cookie q upgraded events e w).
Proof.
  intros alloc. unfold handleJournalStream. fold alloc. case_decide; [split; [done | by right] |].
  apply (owner_guarded now cookie alloc e w _ (fun ident e' w =>
    let '(r, w') := jqStream (in_TenantID ident) alloc (ParseUint 64 (vGet (str "after_seq") q)) (e_db e') w in
    (match r with
     | None => Err (badGateway "stream_open_failed")
     | Some upstream => Ok (if upgraded then wsLoop upstream events else [])
     end, e', w'))).
  intros ident. destruct (jqStream _ _ _ _ w) as [r w1] eqn:Eq.
  do 2 eexists. split; [reflexivity |]. eexists. by rewrite Eq.
Qed.

Lemma handleJournalRevert_guarded now cookie body e w :
  exists alloc,
  guarded now cookie (fun ident => owned parseUUIDParam alloc ident (e_db e)) e w (fun ident w' => exists sid path seq force,
      w' = (jqRevert (in_TenantID ident) alloc sid path seq force (str "user:" ++ uuidString (in_UserID ident)) (e_db e) w).2)
    (handleJournalRevert parseUUIDParam sha256 now cookie body e w).
Proof.
  unfold handleJournalRevert. destruct (_ ≫= _) as [req|]; [| exists []; split; [done | by right]].
  exists (jr_AllocationID req). case_decide; [split; [done | by right] |]. case_decide; [split; [done | by right] |].
  destruct (jr_Seq req =? 0); [split; [done | by right] |].
  apply (owner_guarded now cookie (jr_AllocationID req) e w _ (fun ident e' w =>
    let '(r, w') := jqRevert (in_TenantID ident) (jr_AllocationID req) (jr_SessionID req) (jr_Path req) (jr_Seq req)
                      (jr_Force req) (str "user:" ++ uuidString (in_UserID ident)) (e_db e') w in
    (match r with None => Err (badGateway "revert_failed") | Some x => Ok x end, e', w'))).
  intros ident. destruct (jqRevert _ _ _ _ _ _ _ _ w) as [r w1] eqn:Eq.
  do 2 eexists. split; [reflexivity |]. do 4 eexists. by rewrite Eq.
Qed.
End private.

(** C22: Nobody reads, follows or reverts the journal of somebody else through the
    control plane.  A request with a session cookie (the only credential that these routes
    look at), whatever else it carries and whatever the servers answer, changes no table of
    the control plane, and it is either refused before a server is asked for anything, or
    it is one call for the tenant of the caller's live session: to follow or revert, for a
    live disk that the caller owns; to read, for such a disk or, when the request names
    none, for the whole tenant of the caller.  A revert is recorded under the caller's
    user id. *)
Theorem journal_private (parseUUIDParam : gostr -> option uuid) (sha256 : gostr -> gostr) {W : Type} {Q : journalQuerier W}
    (now : Z) (raw : gostr) (q : list (gostr * gostr)) (body : option json) (upgraded : bool) (events : list wsEvent)
    (e : edb) (w : W) :
  let alloc := vGet (str "allocation_id") q in
  guarded sha256 now (Some raw) (fun ident => alloc = [] \/ owned parseUUIDParam alloc ident (e_db e)) e w (fun ident w' =>
      (exists limit after, w' = (jqAfterSeq (in_TenantID ident) alloc limit after (e_db e) w).2) \/
      (exists limit cursor, w' = (jqQuery (in_TenantID ident) alloc limit cursor (e_db e) w).2))
    (handleJournal parseUUIDParam sha256 now (Some raw) q e w) /\
  guarded sha256 now (Some raw) (fun ident => owned parseUUIDParam alloc ident (e_db e)) e w
    (fun ident w' => exists after, w' = (jqStream (in_TenantID ident) alloc after (e_db e) w).2)
    (handleJournalStream parseUUIDParam sha256 now (Some raw) q upgraded events e w) /\
  exists ralloc, guarded sha256 now (Some raw) (fun ident => owned parseUUIDParam ralloc ident (e_db e)) e w
    (fun ident w' => exists sid path seq force,
      w' = (jqRevert (in_TenantID ident) ralloc sid path seq force (str "user:" ++ uuidString (in_UserID ident)) (e_db e) w).2)
    (handleJournalRevert parseUUIDParam sha256 now (Some raw) body e w).
Proof.
  intros alloc. split; [apply handleJournal_guarded |]. split; [apply handleJournalStream_guarded |].
  apply handleJournalRevert_guarded.
Qed.

(** ** Through to the database *)

Lemma fromServer_id e : fromServerJournalEntry e = e.
Proof. by destruct e. Qed.

Lemma fromServer_list (es : list JournalEntry) : fromServerJournalEntry <$> es = es.
Proof. induction es as [|e es IH]; [done |]. by rewrite fmap_cons, fromServer_id, IH. Qed.

Lemma FormatInt_ascii n : - 2 ^ 63 <= n < 2 ^ 63 -> forallb is_ascii (FormatInt n) = true.
Proof.
  intros Hn.
  assert (forall m, 0 <= m <= 2 ^ 63 -> forallb is_ascii (format_nat 20 m) = true) as Hd.
  { intros m Hm. destruct (format_nat_ok 20 m) as (_ & HF & _); [lia |]. apply forallb_forall.
    intros c Hc%list_elem_of_In. rewrite Forall_forall in HF. destruct (HF c Hc) as [v Hv]. revert Hv. clear.
    by destruct c as [[] [] [] [] [] [] [] []]. }
  unfold FormatInt. destruct (Z.ltb_spec n 0); [cbn [forallb]; rewrite Hd by lia; done | apply Hd; lia].
Qed.

Section through.
Context {J : JsonText} {JL : JsonTextLaws J} {M : Mux} {ML : MuxLaws M} {MP : MsgPack}.
Context (validHost : gostr -> bool) (host trustDomain : gostr) (cert : Certificate).
Context (now : Z) (order : list (gostr * list chunkBatchItem) -> list (gostr * list chunkBatchItem)).
Context (events : list (option SessionJournalEntry)) (parseTime : gostr -> option (option Z)) (message : gostr).
Context (elsewhere : handlers dataServer).
Context (parseUUIDParam : gostr -> option uuid) (sha256 : gostr -> gostr).

Abbreviation Adapter := (serverapiJournalAdapter validHost
  (over validHost trustDomain cert (dataHandlers now order events parseTime message elsewhere))).

(** The tenant of the caller is on the server [host], with this database. *)
Definition placed_at (ident : identity) (e : edb) (s : dataServer) (d : tdb) : Prop :=
  resolveTenantOpsAddr (in_TenantID ident) (e_db e) = Ok (Some host) /\ tenantIDRe (in_TenantID ident) = true /\
  exists t, ds_tenants s !! in_TenantID ident = Some t /\ st_db (dt_store t) = d.

(** The rows of the journal can be sent. *)
Definition journal_sendable (d : tdb) : Prop :=
  Forall (fun r => 0 < j_ts_unix_ms r < 2 ^ 63 /\ in_i64 (j_rowid r) /\ row_ok (scanJournalRow d r)) (session_journal d).

Lemma Query_sendable alloc limit cursor ua d rows next :
  journal_sendable d -> Query alloc limit cursor ua d = (rows, next) -> Forall row_ok rows /\ forallb is_ascii next = true.
Proof.
  intros Hj H. unfold Query in H. case_decide; [by simplify_eq |].
  set (pg := page _ _ _) in H.
  assert (forall r, r ∈ pg -> r ∈ session_journal d) as Hin.
  { intros r Hr. apply subseteq_take in Hr. apply list_elem_of_filter in Hr as [_ Hr].
    rewrite merge_sort_Permutation in Hr. by apply list_elem_of_filter in Hr as [_ Hr]. }
  unfold journal_sendable in Hj. rewrite Forall_forall in Hj.
  assert (Forall row_ok (scanJournalRow d <$> pg)) as HF.
  { apply Forall_fmap, Forall_forall. intros r Hr. by apply Hj, Hin. }
  destruct (_ <? _); [by simplify_eq |]. destruct (last pg) as [r|] eqn:El; simplify_eq; [| done].
  split; [done |]. apply last_Some in El as [l Hl].
  destruct (Hj r) as (H1 & H2 & _); [apply Hin; rewrite Hl; apply elem_of_app; right; by left |].
  unfold encodeJournalCursor. rewrite !forallb_app, !FormatInt_ascii by (unfold in_i64 in *; lia). done.
Qed.

(** One request for a page. *)
Definition pageQuery (alloc : gostr) (limit : Z) (cursor : gostr) : list (gostr * gostr) :=
  [(str "allocation_id", alloc); (str "limit", FormatInt limit); (str "cursor", cursor)].

Lemma clampJournalLimit_ok limit : 0 <= limit < 2 ^ 32 -> 0 < clampJournalLimit (FormatInt limit) <= 200.
Proof.
  intros Hl. unfold clampJournalLimit. rewrite ParseUint_FormatInt by lia.
  destruct (Z.eqb_spec limit 0); case_match; lia.
Qed.

Lemma handleJournal_page ident cookie alloc limit cursor e s d rows next :
  linked validHost host trustDomain cert -> signedIn sha256 now cookie ident e -> alloc <> [] ->
  owned parseUUIDParam alloc ident (e_db e) -> placed_at ident e s d -> journal_sendable d -> 0 <= limit < 2 ^ 32 ->
  Query alloc (clampJournalLimit (FormatInt limit)) cursor [] d = (rows, next) ->
  handleJournal (Q := Adapter) parseUUIDParam sha256 now cookie (pageQuery alloc limit cursor) e s
  = (Ok (wireEntry <$> rows, next), e, s).
Proof.
  intros HL Hs Hne Ho (Hp & Hid & t & Ht & Hd) Hj Hl HQ.
  destruct (Query_sendable _ _ _ _ _ _ _ Hj HQ) as [HF Hn]. pose proof (clampJournalLimit_ok _ Hl) as Hc.
  unfold handleJournal.
  change (vGet (str "allocation_id") (pageQuery alloc limit cursor)) with alloc.
  change (vGet (str "limit") (pageQuery alloc limit cursor)) with (FormatInt limit).
  change (vGet (str "after_seq") (pageQuery alloc limit cursor)) with (@nil ascii).
  change (vGet (str "cursor") (pageQuery alloc limit cursor)) with cursor.
  rewrite (adminIdentity_ok _ _ _ _ _ _ Hs). rewrite (decide_False (P := alloc = [])) by done.
  rewrite (ownsAllocation_ok _ _ _ _ Ho). rewrite decide_False by auto.
  cbn [jqQuery serverapiJournalAdapter]. unfold adapterQuery, onServer. rewrite Hp.
  rewrite (QueryJournal_served _ host _ _ _ _ _ _ _ _ _ _ _ _ _ t rows next); try done; [| lia |].
  - unfold forget_err. cbn. by rewrite fromServer_list.
  - unfold tenantJournalQuery. rewrite decide_False by done. by rewrite Hd, HQ.
Qed.

(** A reader that follows the cursors. *)
Fixpoint readAll (fuel : nat) (cookie : option gostr) (alloc : gostr) (limit : Z) (cursor : gostr) (e : edb) (s : dataServer)
    : option (list JournalEntry) :=
  match fuel with
  | O => None
  | S fuel' =>
      match handleJournal (Q := Adapter) parseUUIDParam sha256 now cookie (pageQuery alloc limit cursor) e s with
      | (Ok (es, next), e', s') =>
          if decide (next = []) then Some es
          else rest ← readAll fuel' cookie alloc limit next e' s'; Some (es ++ rest)
      | _ => None
      end
  end.

Lemma readAll_queryAll ident fuel cookie alloc limit cursor e s d :
  linked validHost host trustDomain cert -> signedIn sha256 now cookie ident e -> alloc <> [] ->
  owned parseUUIDParam alloc ident (e_db e) -> placed_at ident e s d -> journal_sendable d -> 0 <= limit < 2 ^ 32 ->
  readAll fuel cookie alloc limit cursor e s =
  fmap (M := option) (fmap (M := list) wireEntry) (queryAll fuel alloc (clampJournalLimit (FormatInt limit)) cursor [] d).
Proof.
  intros HL Hs Hne Ho Hp Hj Hl. revert cursor. induction fuel as [|fuel IH]; intros cursor; [done |].
  cbn [readAll queryAll]. destruct (Query _ _ cursor [] d) as [rows next] eqn:HQ.
  rewrite (handleJournal_page ident _ _ _ _ _ _ d rows next) by done. case_decide; [done |]. rewrite IH.
  destruct (queryAll fuel _ _ _ _ _); [| done]. cbn. by rewrite fmap_app.
Qed.
End through.

(** C26: An owner reads the journal to its end.  A caller with a live session who owns a
    live disk, names it and follows the cursors of the answers from the first page with any
    page limit gets, with more rounds than there are rows, every row that the database of
    the session's tenant has of this disk exactly once, newest first, with the fields of
    that row.  This is the whole journal of a disk that lies in the tenant of its owner;
    the journal of the disk of an agent is in another database, see
    [owner_reads_empty_journal].  The tenant is placed on a server of the control plane's
    trust domain, under a name that its routes accept, its rows have distinct ids and fit
    the wire. *)
Theorem journal_read_complete {J : JsonText} {JL : JsonTextLaws J} {M : Mux} {ML : MuxLaws M} {MP : MsgPack}
    (validHost : gostr -> bool) (host trustDomain : gostr) (cert : Certificate) (now : Z)
    (order : list (gostr * list chunkBatchItem) -> list (gostr * list chunkBatchItem))
    (events : list (option SessionJournalEntry)) (parseTime : gostr -> option (option Z)) (message : gostr)
    (elsewhere : handlers dataServer) (parseUUIDParam : gostr -> option uuid) (sha256 : gostr -> gostr)
    (ident : identity) (fuel : nat) (cookie : option gostr) (alloc : gostr) (limit : Z) (e : edb) (s : dataServer) (d : tdb) :
  linked validHost host trustDomain cert -> signedIn sha256 now cookie ident e -> alloc <> [] ->
  owned parseUUIDParam alloc ident (e_db e) -> placed_at host ident e s d -> journal_ok (session_journal d) ->
  journal_sendable d -> 0 <= limit < 2 ^ 32 -> (length (session_journal d) < fuel)%nat ->
  exists rows : list jrow,
    readAll validHost trustDomain cert now order events parseTime message elsewhere parseUUIDParam sha256
      fuel cookie alloc limit [] e s = Some ((fun r => wireEntry (scanJournalRow d r)) <$> rows) /\
    rows ≡ₚ select_journal alloc [] d /\ StronglySorted (fun a b => Journal.newer a b = true) rows.
Proof.
  intros HL Hs Hne Ho Hp Hok Hj Hl Hf. exists (merge_sort Journal.newer_eq (select_journal alloc [] d)).
  pose proof (clampJournalLimit_ok _ Hl) as Hc. split; [| split; [apply merge_sort_Permutation |]].
  - rewrite (readAll_queryAll validHost host _ _ _ _ _ _ _ _ _ _ ident _ _ _ _ _ _ _ d) by done.
    rewrite queryAll_complete; [| lia | naive_solver | done | | done].
    + cbn. f_equal. by rewrite <- list_fmap_compose.
    + eapply Forall_impl; [exact Hj |]. naive_solver.
  - apply sorted_selection. apply NoDup_fmap_filter. by apply journal_ok_rowids.
Qed.

(** ** The stream *)

Definition frame_entry (f : journalWSFrame) : option JournalEntry := match f with WSAppended e => Some e | WSPing => None end.

(** How many entries the loop takes up before it ends. *)
Fixpoint delivered (events : list wsEvent) : nat :=
  match events with
  | WSUpstream true :: evs => S (delivered evs)
  | WSTick true :: evs => delivered evs
  | _ => 0
  end.

Lemma wsLoop_entries upstream events : omap frame_entry (wsLoop upstream events) = take (delivered events) upstream.
Proof.
  revert upstream. induction events as [|[[]|[]| |] events IH]; intros upstream; cbn [wsLoop delivered]; try done.
  - destruct upstream as [|e upstream]; [by rewrite take_nil |]. cbn. f_equal. apply IH.
  - destruct upstream; done.
  - cbn. apply IH.
Qed.

(** What a browser gets of the live stream: the frames with entries are the rows that
    the server's stream sends, in order and without a gap, up to where the loop ends;
    pings in between change nothing. *)
Theorem journal_stream_exact {J : JsonText} {JL : JsonTextLaws J} {M : Mux} {ML : MuxLaws M} {MP : MsgPack}
    (validHost : gostr -> bool) (host trustDomain : gostr) (cert : Certificate) (now : Z)
    (order : list (gostr * list chunkBatchItem) -> list (gostr * list chunkBatchItem))
    (events : list (option SessionJournalEntry)) (parseTime : gostr -> option (option Z)) (message : gostr)
    (elsewhere : handlers dataServer) (parseUUIDParam : gostr -> option uuid) (sha256 : gostr -> gostr)
    (ident : identity) (cookie : option gostr) (alloc : gostr) (after : Z) (ws : list wsEvent) (e : edb) (s : dataServer) (d : tdb)
    (rows : list JournalQueryRow) :
  linked validHost host trustDomain cert -> signedIn sha256 now cookie ident e -> alloc <> [] ->
  owned parseUUIDParam alloc ident (e_db e) -> placed_at host ident e s d -> 0 <= after < 2 ^ 64 ->
  tenantJournalStream alloc after d (omap (fun x => x) events) = Some rows -> Forall fits_scanner rows ->
  exists frames,
    handleJournalStream (Q := serverapiJournalAdapter validHost
        (over validHost trustDomain cert (dataHandlers now order events parseTime message elsewhere)))
      parseUUIDParam sha256 now cookie [(str "allocation_id", alloc); (str "after_seq", FormatInt after)] true ws e s
    = (Ok frames, e, s) /\
    omap frame_entry frames = take (delivered ws) (wireEntry <$> rows).
Proof.
  intros HL Hs Hne Ho (Hp & Hid & t & Ht & Hd) Ha Hr HF. exists (wsLoop (wireEntry <$> rows) ws).
  split; [| apply wsLoop_entries]. unfold handleJournalStream.
  change (vGet (str "allocation_id") _) with alloc. change (vGet (str "after_seq") _) with (FormatInt after).
  rewrite decide_False by done. rewrite (adminIdentity_ok _ _ _ _ _ _ Hs), (ownsAllocation_ok _ _ _ _ Ho).
  rewrite ParseUint_FormatInt by lia. cbn [jqStream serverapiJournalAdapter]. unfold adapterStream, onServer. rewrite Hp.
  rewrite (StreamJournal_served _ host _ _ _ _ _ _ _ _ _ _ _ _ t rows) by (try done; by rewrite Hd).
  cbn. by rewrite fromServer_list.
Qed.

(** ** Runs *)

Module ProxyRun.
Import AdminProps.Text.
#[local] Existing Instance flat_msgpack.

Definition hash (s : gostr) : gostr := s.
Definition parse (s : gostr) : option uuid := if decide (s = str "al") then Some 5 else None.
Definition disk (tenant : gostr) : allocation := mkDA (Some 1) tenant (str "ag") 100 5 None None None None None None.

(** User 1 of tenant u_1 with the admin session s and the disk 5; the tenant is on the
    server of the runs of AdminProps.v. *)
Definition control : edb :=
  mkE (mkCdb {[ 5 := disk [] ]} {[ 1 := mkUser (str "u_1") 100 ]} ∅ ∅ {[ str "u_1" := mkVM (str "h:1") serverStatusActive ]}
         {[ 9 := mkPool (str "h:1") ops0 1000 900 StatusAvailable ]} ∅)
    {[ str "s" := mkTok PurposeAdmin 1 (str "u_1") None 1000 None None ]} ∅ {[ str "u_1" := mkTenant (str "u_1") false ]} ∅.
Definition caller : identity := mkIdent 1 (str "u_1") PurposeAdmin None.

Definition dataAt (tenant : gostr) (d : tdb) : dataServer :=
  mkDataServer {[ tenant := mkData (mkStore d None None None) None (mkCS ∅ ∅ ∅) ]} ∅ ext4_0 None.

Definition read (limit : Z) (e : edb) (s : dataServer) : option (list JournalEntry) :=
  readAll anyHost trust0 control0 20 id [] (fun _ => None) [] no_route parse hash 4 (Some (str "s")) (str "al") limit [] e s.

Lemma two_sessions_sendable : journal_sendable two_sessions.
Proof.
  assert (forall o : option Z, match o with Some z => (0 <=? z) && (z <? 2 ^ 64) | None => true end = true -> opt_ok o) as Ho.
  { intros [z|] H ? [= <-]. apply andb_true_iff in H as [?%Z.leb_le ?%Z.ltb_lt]. by split. }
  assert (forall ts rowid sid seq, 0 < ts < 2 ^ 63 /\ in_i64 rowid -> u64_ok seq -> forallb is_ascii sid = true ->
    0 < j_ts_unix_ms (jr sid seq ts rowid) < 2 ^ 63 /\ in_i64 (j_rowid (jr sid seq ts rowid)) /\
    row_ok (scanJournalRow two_sessions (jr sid seq ts rowid))) as H.
  { intros ts rowid sid seq [Ht Hr] Hs Ha. split; [exact Ht |]. split; [exact Hr |].
    split; [exact Hs |]. split; [cbn; lia |]. do 4 (split; [apply Ho; reflexivity |]).
    cbn -[is_ascii]. rewrite !forallb_app, Ha. reflexivity. }
  unfold journal_sendable. cbn [session_journal two_sessions set_session_journal].
  repeat (apply Forall_cons; split; [apply H; unfold in_i64, u64_ok; [lia | lia | reflexivity] |]). constructor.
Qed.

End ProxyRun.

Import AdminProps.Text ProxyRun.
#[local] Existing Instance flat_msgpack.

Lemma journal_read_complete_witness :
  exists rows : list jrow,
    read 1 control (dataAt (str "u_1") two_sessions) = Some ((fun r => wireEntry (scanJournalRow two_sessions r)) <$> rows) /\
    rows ≡ₚ select_journal (str "al") [] two_sessions /\ StronglySorted (fun a b => Journal.newer a b = true) rows.
Proof.
  unfold read. apply (journal_read_complete anyHost ops0 trust0 control0 20 id [] (fun _ => None) [] no_route parse hash caller 4
    (Some (str "s")) (str "al") 1 control (dataAt (str "u_1") two_sessions) two_sessions).
  - repeat split; [by vm_compute; repeat constructor | by vm_compute; eexists].
  - exists (str "s"). split; [reflexivity | by vm_compute].
  - discriminate.
  - exists 5, (disk []). repeat split.
  - split; [by vm_compute |]. split; [reflexivity |]. eexists. split; [reflexivity | reflexivity].
  - exact two_sessions_ok.
  - exact two_sessions_sendable.
  - lia.
  - cbn. lia.
Defined.

(** The disk of an agent keeps its data and its journal in the tenant of the agent, but
    the journal endpoints ask for the tenant of the caller: the owner of the disk reads
    an empty journal from a server that has the caller's tenant, and an error from one
    that has not. *)
Definition agentDisk : edb :=
  set_edb (set_server_vms {[ str "u_1" := mkVM (str "h:1") serverStatusActive; str "a_ag" := mkVM (str "h:1") serverStatusActive ]}
             (set_allocations {[ 5 := disk (str "a_ag") ]} (e_db control))) control.

Definition twoTenants : dataServer :=
  set_data <[str "a_ag" := mkData (mkStore two_sessions None None None) None (mkCS ∅ ∅ ∅)]> (dataAt (str "u_1") emptyDB).

Example owner_reads_empty_journal :
  length (select_journal (str "al") [] two_sessions) = 3%nat /\
  read 50 agentDisk twoTenants = Some [] /\ read 50 agentDisk (dataAt (str "a_ag") two_sessions) = None.
Proof. split; [reflexivity |]. split; vm_compute; reflexivity. Qed.
